(* ===== verification/_CoqProject ===== *)
-Q . S2P
Prelude.v
Codecs.v
Varint.v
DeepLink.v
Cert.v
NetUtils.v
Icmp.v
Datagram.v
UdpCodec.v
IcmpCodec.v
Rules.v
Auth.v
Tunnel.v
Socks5.v
UdpPipe.v
UdpForwarder.v
SocksForwarder.v
Pipe.v
TcpForwarder.v
ForwardedStream.v
TlsDemux.v
TlsListener.v
IcmpForwarder.v
Http1Codec.v
ReverseProxy.v
Utils.v
Macros.v
IpText.v
Settings.v
Composer.v
Dialogue.v
Acme.v
WizardSettings.v
Wizard.v
Services.v
Quic.v
Http2Codec.v
Http3Codec.v
ClientTunnel.v
QuicConfig.v
Metrics.v
ClientConfig.v
CertVerification.v
Downstream.v
TunnelSession.v
Core.v
TlsAccept.v
Sockets.v
Endpoint.v
Startup.v
