(* ===== verification/Prelude.v ===== *)
(** * TrustTunnel endpoint: a verification library

    TrustTunnel is a VPN endpoint.  A client opens a TLS or QUIC connection
    that looks like ordinary HTTPS; inside it, HTTP CONNECT requests carry TCP
    connections, and three reserved host names carry multiplexed UDP, ICMP and
    health-check streams.  A second crate encodes client configurations as
    [tt://] deep links, and a setup wizard writes the files that an endpoint is
    started with.

    ** The path of a connection and the files that model it

    - [core.rs] accepts a connection ([Core.v]: the admission of a connection
      of either transport, its session and the accounting; [Sockets.v]: the
      listeners, their sockets and how listening ends), reads ahead
      for its client random ([tls_listener.rs], [TlsListener.v]), [rules.rs]
      filters it by address and by that random, [tls_demultiplexer.rs] selects
      the channel, the protocol and the certificate from SNI and ALPN.
      [Rules.v] models the rules engine, the generated random prefixes
      ([client_random_prefix.rs]) and the rules check of the core;
      [TlsDemux.v] the selection and its construction from the settings;
      [TlsAccept.v] the hello and the configuration of the handshake, and the
      task of a TCP client from its first byte to its session.
      [Settings.v] models the settings ([settings.rs], [subscription.rs]):
      builders, deserialisers, validation, and the construction and reloading
      of the core from them.
    - A QUIC connection comes from [quic_multiplexer.rs], modelled by [Quic.v]:
      the address validation, the table of connections with its timers, and
      the socket of a connection with its HTTP/3 events; [QuicConfig.v] has
      the configuration that is passed to quiche and the certificate that a
      client is shown.  An HTTP/1 connection
      is turned into a request and its stream by [http1_codec.rs]
      ([Http1Codec.v]); the sessions of HTTP/2 and HTTP/3 by [http2_codec.rs]
      ([Http2Codec.v], whose streams are a [Source] and a [Sink] of the pipes)
      and [http3_codec.rs] ([Http3Codec.v], over the socket of [Quic.v]).
      [ClientTunnel.v] makes the streams of HTTP/1 and HTTP/3 instances of
      the pipes too, and has the tunnels over them.
    - [tunnel.rs] admits, authenticates and dispatches the requests of one
      client, with [authentication/*.rs] and [connection_limiter.rs].
      [Auth.v] models the registry and the limiter; [Tunnel.v] the decision
      on a request, [http_demultiplexer.rs], the promotion of requests and both
      request handlers as traces of their calls; [Downstream.v] the rest of
      [http_downstream.rs] and [http_codec.rs], the requests that the
      downstream gives to the tunnel and its datagram streams;
      [TunnelSession.v] the listening loop with its timer and the shutdown,
      the tunnels of an endpoint side by side, and [direct_forwarder.rs].
    - A TCP request is served by [tcp_forwarder.rs] or [socks5_forwarder.rs]
      through [pipe.rs].  [Pipe.v] models the simplex and the duplex pipe over
      the classes [Source] and [Sink] (the traits of the source), [TcpForwarder.v] the
      connector and the socket halves, an instance of both classes, and
      [ForwardedStream.v] the plain HTTP requests that are rewritten for a
      peer ([http_forwarded_stream.rs]), over any client-side [Source] and
      [Sink].
    - A UDP stream is decoded by [http_udp_codec.rs] ([UdpCodec.v]) and served
      by [udp_pipe.rs] ([UdpPipe.v]) over the class [UdpMultiplexer], whose
      instances are [UdpForwarder.v] ([udp_forwarder.rs], direct sockets) and
      [SocksForwarder.v] ([socks5_forwarder.rs], over the handshake and packet
      format of [socks5_client.rs] in [Socks5.v]).
    - An ICMP stream is decoded by [http_icmp_codec.rs] ([IcmpCodec.v]) into
      the messages of [icmp_utils.rs] ([Icmp.v]).  [Datagram.v] has the types
      and the decoder interface that both codecs share
      ([http_datagram_codec.rs], [downstream.rs], [forwarder.rs]).
      [IcmpForwarder.v] models [icmp_forwarder.rs], the table of pending
      requests and the queues of the clients, and the generic pipe of
      [datagram_pipe.rs] that feeds it.
    - Connections for other hosts or paths go to the reverse proxy
      ([reverse_proxy.rs], [ReverseProxy.v]) or to the ping, speed test and
      subscription handlers ([http_ping_handler.rs],
      [http_speedtest_handler.rs], [http_subscription_handler.rs],
      [Services.v], which also has [shutdown.rs]).
    - [Metrics.v] models the registry of [metrics.rs], the counters that follow
      sessions and connections, and the requests for them.
    - [endpoint/src/main.rs] starts and reloads the endpoint and exports the
      configuration of a client ([Endpoint.v]), which [client_config.rs] builds
      ([ClientConfig.v], over the deep link codec and the address texts of
      [IpText.v]), with the certificate unless the system verifies it
      ([cert_verification.rs], [CertVerification.v]).  [Startup.v] has [main]
      with its files, the loggers ([log_utils.rs]), the build script and the
      shutdown of the process.
    - [tools/setup_wizard]: [Composer.v] has the settings file
      ([composer.rs], [template_settings.rs]) and its reader; [Dialogue.v] the
      questions ([user_interaction.rs]) and the program monad [W] of a wizard
      that asks, writes files and may die; [WizardSettings.v] the rules and the
      users ([rules_settings.rs], [library_settings.rs]); [Acme.v] the order of
      a certificate ([acme.rs], [acme_http_server.rs]); [Wizard.v] the
      certificate and the TLS host ([tls_hosts_settings.rs]) and [main.rs].
    - [NetUtils.v] models the wire formats, the checksum and the address
      classification of [net_utils.rs], which all of the above use; [Utils.v]
      its socket addresses and the choice of an interface, and [utils.rs];
      [Sockets.v] its socket options, the raw sockets of [icmp_forwarder.rs]
      and the filters of [net_utils.c].
    - [Macros.v] models the derive macros ([macros/src]), whose functions the
      wizard's templates and composer call.
    - The deep link crate: [Varint.v] ([varint.rs]), [DeepLink.v]
      ([types.rs], [encode.rs], [decode.rs], [error.rs]), [Cert.v]
      ([cert.rs]); [Codecs.v] states what base64 and hex promise.

    ** How the code is represented

    Bytes and machine integers are [Z] with every cast and wrap-around written
    out; [usize] is 64 bits wide.  A fallible function returns [result E A].
    What panics in the source (an index, a slice, [unwrap], [assert!], a
    subtraction below zero) goes through the monad [M], whose [Panic] is the
    end of the task; a theorem "never panics" states that the result is [Ret].
    Mutable state is passed explicitly, with an operation returning its result
    and the new state, also where it fails.

    An awaited call on a socket, a timer or a peer is an argument: the outcome
    that the environment gives it ([DirectIo], [RoundEnv], [RequestEnv] and
    the like), and the runs are lists of such outcomes, of arbitrary length.
    So a theorem on all lists covers every behaviour of the environment and
    every interleaving of the steps that the code makes atomic: the rounds of
    the pipes, the critical sections of the limiter, the requests of a tunnel.
    Abandoned futures ([select!], [timeout]) are steps of their own where the
    abandoned call changes state, and a call that is suspended while another
    task acts on the same state is split at its awaits: the write of a UDP
    datagram ([UdpPipe.v]), the writes and the shutdown of an HTTP/1 session
    ([Http1Codec.v]).  A clock is a natural or integer argument of
    the steps that read it.

    Code outside the repository is a parameter with its documented laws as
    hypotheses: base64 and hex ([Codecs.v]), the PEM and DER parsers
    ([Cert.v]), HKDF, SHA-256, AES and CIDR parsing ([Rules.v]), httparse and
    the header checks of the http crate ([ForwardedStream.v], [Http1Codec.v],
    [ReverseProxy.v]), the TOML reader ([Settings.v], [Composer.v]) and its
    printer (the class [TomlLaws] of [WizardSettings.v]), the ACME server
    ([Acme.v], as a function of everything done before), the JSON printer
    ([Services.v]), quiche and its HTTP/3 ([Quic.v], as outcomes), certificate
    loading ([TlsDemux.v]), the certificate calls of BoringSSL (the class
    [BoringSsl] of [QuicConfig.v]), name resolution and the sockets.  Every property
    with such a hypothesis has a witness at a concrete instance.

    ** Fuel

    Recursion that is not structural has fuel, and running out of it is
    [Panic], which the totality theorems exclude: [decode_payload_total] and
    [split_der_certs_total] (fuel: the length of the input, of which every
    round consumes a byte) and [udp_decode_chunk_total] (fuel
    [(len data + 1) * 2 ^ 33], a binary number: every round consumes input or
    lowers the state's measure, of which the bytes still to drop, below
    [2 ^ 32], are a part).  The parsing of the head of a forwarded response
    doubles its room for headers from 32 to at most 128, in three rounds; the
    skipping of IPv6 extension headers consumes bytes in each round.  In the
    reverse proxy the fuel of [chunk_loop] is one more than the bytes it can
    read and that of [relay_remaining] one more than the reads
    ([reverse_proxy_returns]).  [READ_BUDGET] of the QUIC multiplexer is the
    bound of the source's own loop.  Reading ahead for the client random has
    one round more than its buffer has bytes, and every round adds a byte.  A
    loop of the setup wizard has one round more than there are answers left,
    and every round takes one; a wait for the ACME server has the rounds that
    the source counts ([wizard_ends]).  The
    pipes and tunnels have no fuel: they fold over the list of outcomes.

    ** What the theorems show

    - Access control: requests have effects outside the endpoint only with
      credentials that pass the authenticator, which are the ones that are
      passed upstream ([Tunnel]); the registry accepts
      exactly the registered clients and the limiter's counters are the live
      guards ([Auth], [Tunnel]); rules apply by first match, unless one of
      them needs what the connection lacks, and generated prefix rules accept exactly the matching client randoms ([Rules]);
      selected protocols are enabled ones ([TlsDemux]); UDP and TCP targets
      are admitted ones ([UdpForwarder], [TcpForwarder], [SocksForwarder]) and
      the classification of addresses is the special-purpose CIDR table
      ([NetUtils]); so are those of ICMP, whose packets are those of the
      clients' requests ([IcmpForwarder]).  A running core
      has valid settings, whatever was reloaded ([Settings]); a subscription
      is served to every entitled request and to no other ([Services]); a QUIC
      connection is opened only with a token for the address it comes from
      ([Quic]); a TLS connection becomes a session only under a name and rules
      that admit it, its handler panicking only when the codec of an admitted
      connection cannot be made, and reading ahead for its random changes nothing for the
      TLS stack ([Core], [TlsListener]); without an authenticator the endpoint
      listens on a loopback address ([Endpoint]).  The listening loops of the
      tunnels, however their inputs interleave, refine the step relation of
      [Tunnel] over which these theorems are stated ([TunnelSession]); a TCP
      client is followed from its first byte to a session with the certificate
      of the host that its name selects ([TlsAccept]), and a QUIC client is
      shown the leaf and the key of the host it is served by ([QuicConfig]).
    - Data integrity: a pipe delivers what it read, in order and once
      ([TcpForwarder], from the interface lemmas of [Pipe]); the codecs decode
      exactly what was encoded, however the stream is cut ([UdpCodec],
      [IcmpCodec]); an HTTP/1 session refines a specification of two byte
      streams ([Http1Codec]); the reverse proxy removes the chunked coding
      exactly, when the end of the body shows, and sends one clean response
      ([ReverseProxy]); a body read from
      a QUIC stream is the one received ([Quic]); a tunnel over HTTP/2 keeps
      its bytes and its window ([Http2Codec]); a response over HTTP/3 is sent
      in order, and a tunnel over it keeps its bytes ([Http3Codec],
      [ClientTunnel]); requests and bodies of forwarded HTTP ([ForwardedStream]);
      round trips of ICMP, SOCKS5 packets, varints, payloads and URIs.
    - Configuration: what is exported for a client is what the client reads,
      and the clients of a generated prefix are admitted ([ClientConfig],
      [Endpoint]); the settings file that the wizard composes reads back to the
      settings that its templates have ([Composer]); a non-interactive setup makes an endpoint that
      runs on the given address for the given user and host ([Startup], over
      [Wizard] and [Endpoint]), its rules take effect, and no file is
      overwritten without agreement ([Wizard]); a certificate is left out of a
      link only when the system's authorities verify it ([CertVerification]);
      the derived accessors and documentation are those of the types
      ([Macros]); an ACME order sleeps for a bounded time, serves its
      challenge while it is looked at, and returns the key of the request that
      it finalized ([Acme]).
    - Accounting: in every reachable state the gauges, the table of the
      clients and the limiter are those of the open sessions ([Core], from
      [Metrics] and [Tunnel]).
    - Resources: a TCP pipe is closed when its directions are idle or ended,
      and not while one is active and none has ended ([TcpForwarder]); sockets and connections of the UDP pipe correspond, idle ones
      are closed at the timer tick and DNS ones with the last answer
      ([UdpForwarder], from the lemmas of [UdpPipe]); pending ICMP requests
      expire ([IcmpForwarder]); no timer of a QUIC connection is missed
      ([Quic]); the streams of an HTTP/3 session are released exactly
      ([Http3Codec]); a speed test is bounded ([Services]); a tunnel without
      new requests is ended by its timer, over HTTP/1 also a busy one
      ([TunnelSession]); raw sockets own their descriptors, with one leak
      ([Sockets]).
    - Robustness: the parsers return on every input without panicking, and
      so does the reverse proxy unless a chunk size overflows.
    - Errors: theorems of kind "error" state exactly when the code departs
      from its intent, each with the run that shows it: the entry of a refused
      UDP target that stays in the table, the reversed key of a lost SOCKS5
      association, the split chunk and the surplus bytes of a forwarded
      response, the packet dropped by the UDP decoder, the ICMP reply that
      reaches another client, the hostile ICMPv6 packet, the terminator of a
      chunked body in a read of its own, the QUIC token that is made for
      another address, the HTTP/3 session that spins or that late data ends,
      the masked prefix that is exported and then denied, the hello whose
      random is found or not by how it is cut, the wizard that waits for its
      own lock, the descriptor that is leaked, the record that is lost at exit,
      the chunk accepted by an HTTP/1 session that closes, the protocol that is
      disabled and accepted, the foreign intermediates of a certificate, the
      end that a QUIC connection refuses, the deadline beyond the clock, the
      key that belongs to no request.

    ** What is not modelled

    What is not code of the repository: the transports (h2, quiche, rustls),
    the parsing of command lines (clap), of TOML and of PEM, the text of the
    metrics (prometheus); all of them are parameters or outcomes.  What is
    code but computes nothing that another part depends on: accessors,
    constructors that only store their arguments, the trait declarations, the
    [Display] and [Debug] texts of errors other than the one that logs
    credentials, the declarations of command line options, what the wizard
    prints, module declarations, and everything under [cfg(test)].  Memory
    allocation, the scheduling of tasks beyond the interleaving of their
    atomic steps, and the fairness of [select!] are not represented; a
    theorem that something ends states the inputs after which it does.

    This file has the representation itself and the lemmas, tactics and hints
    that the components share. *)

From stdpp Require Export base list gmap strings.
From Stdlib Require Export ZArith Lia.

#[export] Set Default Goal Selector "!".
Open Scope Z_scope.

(** ** Bytes and machine integers

    A Rust byte sequence ([Vec<u8>], [&[u8]], [Bytes], [BytesMut], and the
    contents of a [String]) is the list of its bytes, a byte being a [Z]. *)

Abbreviation bytes := (list Z).

Definition is_byte (b : Z) : Prop := 0 <= b < 256.

Definition wf_bytes (l : bytes) : Prop := Forall is_byte l.

#[export] Instance is_byte_dec b : Decision (is_byte b).
Proof. unfold is_byte. apply _. Defined.

#[export] Instance wf_bytes_dec l : Decision (wf_bytes l).
Proof. unfold wf_bytes. apply _. Defined.

(** [slice.len()] as a [usize]. *)
Definition len {A} (l : list A) : Z := Z.of_nat (length l).
Arguments len : simpl never.

(** [x as u8], [x as u16], [x as u32], [x as u64] ([usize] is 64 bits wide). *)
Definition as_u8 (z : Z) : Z := z mod 2 ^ 8.
Definition as_u16 (z : Z) : Z := z mod 2 ^ 16.
Definition as_u32 (z : Z) : Z := z mod 2 ^ 32.
Definition as_u64 (z : Z) : Z := z mod 2 ^ 64.

(** [x as i64]; [AtomicI64::fetch_add] wraps around in the same way. *)
Definition as_i64 (z : Z) : Z := (z + 2 ^ 63) mod 2 ^ 64 - 2 ^ 63.

(** A string literal of the source, as its UTF-8 bytes. *)
Fixpoint str (s : string) : bytes :=
  match s with
  | EmptyString => []
  | String c s => Z.of_N (Ascii.N_of_ascii c) :: str s
  end.

(** ** Results and panics

    [result] is Rust's [Result]; [M] is a computation that may panic (failed
    [assert!], slice out of range, [unwrap] of [None], [unreachable!]).  A Rust
    function of type [Result<A, E>] that can panic is of type [M (result E A)]. *)

Inductive result (E A : Type) : Type :=
| Ok (a : A)
| Err (e : E).
Arguments Ok {E A} a.
Arguments Err {E A} e.

Inductive M (A : Type) : Type :=
| Ret (a : A)
| Panic.
Arguments Ret {A} a.
Arguments Panic {A}.

Definition bindM {A B} (m : M A) (f : A -> M B) : M B :=
  match m with Ret a => f a | Panic => Panic end.

Definition bindR {E A B} (r : result E A) (f : A -> result E B) : result E B :=
  match r with Ok a => f a | Err e => Err e end.

Definition map_err {E F A} (f : E -> F) (r : result E A) : result F A :=
  match r with Ok a => Ok a | Err e => Err (f e) end.

(** Bind of [M (result E _)]: the [?] operator inside a function that may panic. *)
Definition bindMR {E A B} (m : M (result E A)) (f : A -> M (result E B)) : M (result E B) :=
  match m with
  | Ret (Ok a) => f a
  | Ret (Err e) => Ret (Err e)
  | Panic => Panic
  end.

Declare Scope rust_scope.
Delimit Scope rust_scope with rust.
Notation "'let!' x := m 'in' k" := (bindM m (fun x => k))
  (at level 10, x pattern, k at level 200) : rust_scope.
Notation "'let?' x := r 'in' k" := (bindR r (fun x => k))
  (at level 10, x pattern, k at level 200) : rust_scope.
Notation "'let!?' x := r 'in' k" := (bindMR r (fun x => k))
  (at level 10, x pattern, k at level 200) : rust_scope.
Open Scope rust_scope.

(** [assert!(b)] and [Option::unwrap]. *)
Definition assertM (b : bool) : M unit := if b then Ret tt else Panic.
Definition unwrap {A} (o : option A) : M A :=
  match o with Some a => Ret a | None => Panic end.

(** [a - b] on [usize]: an underflow is a panic (with overflow checks on). *)
Definition usub (a b : Z) : M Z := if b <=? a then Ret (a - b) else Panic.

Definition is_ok {E A} (r : result E A) : bool :=
  match r with Ok _ => true | Err _ => false end.

(** ** Byte-buffer operations (the sequence operations of [Bytes] and slices)

    Each returns [Panic] where the Rust operation panics. *)

(** [buf.split_to(n)]: the first [n] bytes, and what [buf] becomes. *)
Definition split_to (n : Z) (l : bytes) : M (bytes * bytes) :=
  if n <=? len l then Ret (take (Z.to_nat n) l, drop (Z.to_nat n) l) else Panic.

(** [buf.split_off(n)]: the bytes from [n] on. *)
Definition split_off (n : Z) (l : bytes) : M bytes :=
  if n <=? len l then Ret (drop (Z.to_nat n) l) else Panic.

(** [buf.advance(n)]. *)
Definition advance (n : Z) (l : bytes) : M bytes := split_off n l.

(** [l[i]] and [l[a..b]]. *)
Definition index {A} (l : list A) (i : Z) : M A := unwrap (l !! Z.to_nat i).

Definition slice (l : bytes) (a b : Z) : M bytes :=
  if (a <=? b) && (b <=? len l) then Ret (take (Z.to_nat (b - a)) (drop (Z.to_nat a) l))
  else Panic.

(** Big-endian value of a byte sequence and the [n]-byte big-endian encoding
    ([from_be_bytes], [to_be_bytes]). *)
Definition be_val (l : bytes) : Z := fold_left (fun a b => a * 256 + b) l 0.

Fixpoint be_bytes (n : nat) (v : Z) : bytes :=
  match n with
  | O => []
  | S n => (v / 256 ^ Z.of_nat n) mod 256 :: be_bytes n v
  end.

(** [Buf::get_u8], [get_u16], [get_u32]. *)
Definition get_uint (n : Z) (l : bytes) : M (Z * bytes) :=
  let! (h, t) := split_to n l in Ret (be_val h, t).
Definition get_u8 := get_uint 1.
Definition get_u16 := get_uint 2.
Definition get_u32 := get_uint 4.

(** [slice.starts_with(p)]. *)
Fixpoint starts_with (p l : bytes) : bool :=
  match p, l with
  | [], _ => true
  | x :: p, y :: l => (x =? y) && starts_with p l
  | _ :: _, [] => false
  end.

(** [str::strip_prefix]. *)
Definition strip_prefix (p l : bytes) : option bytes :=
  if starts_with p l then Some (drop (length p) l) else None.

(** [str::find] of an ASCII character and [str::split_once]. *)
Fixpoint find_char (c : Z) (l : bytes) : option nat :=
  match l with
  | [] => None
  | x :: l => if x =? c then Some O else S <$> find_char c l
  end.

Definition split_once (c : Z) (l : bytes) : option (bytes * bytes) :=
  (fun i => (take i l, drop (S i) l)) <$> find_char c l.

(** ** UTF-8 validity, as [String::from_utf8] and [str::from_utf8] check it *)

Definition is_cont (b : Z) : bool := (0x80 <=? b) && (b <=? 0xBF).

Definition in_range (lo hi b : Z) : bool := (lo <=? b) && (b <=? hi).

Fixpoint utf8_valid (l : bytes) : bool :=
  match l with
  | [] => true
  | b0 :: l1 =>
      if in_range 0 0x7F b0 then utf8_valid l1
      else if in_range 0xC2 0xDF b0 then
        match l1 with
        | b1 :: l2 => is_cont b1 && utf8_valid l2
        | _ => false
        end
      else if in_range 0xE0 0xEF b0 then
        match l1 with
        | b1 :: b2 :: l3 =>
            (if b0 =? 0xE0 then in_range 0xA0 0xBF b1
             else if b0 =? 0xED then in_range 0x80 0x9F b1
             else is_cont b1) && is_cont b2 && utf8_valid l3
        | _ => false
        end
      else if in_range 0xF0 0xF4 b0 then
        match l1 with
        | b1 :: b2 :: b3 :: l4 =>
            (if b0 =? 0xF0 then in_range 0x90 0xBF b1
             else if b0 =? 0xF4 then in_range 0x80 0x8F b1
             else is_cont b1) && is_cont b2 && is_cont b3 && utf8_valid l4
        | _ => false
        end
      else false
  end.

(** ** Loops

    [iterate step p (inl s)] runs the loop body [step] from the state [s] at most
    [p] times, [inr] being a [break]; the bound is binary, so that a large one costs
    nothing.  [nsteps] is the same loop with a unary bound, to reason about it. *)
Fixpoint iterate {S R} (step : S -> S + R) (p : positive) (x : S + R) : S + R :=
  match x with
  | inr r => inr r
  | inl s =>
      match p with
      | xH => step s
      | xO p => iterate step p (iterate step p (inl s))
      | xI p => iterate step p (iterate step p (step s))
      end
  end.

Fixpoint nsteps {S R} (step : S -> S + R) (n : nat) (x : S + R) : S + R :=
  match n, x with
  | O, _ => x
  | _, inr r => inr r
  | Datatypes.S n, inl s => nsteps step n (step s)
  end.

(** ** Automation *)

Create HintDb tt discriminated.

#[export] Hint Rewrite @length_app @length_take @length_drop @length_replicate
  @length_fmap @length_cons : ttlen.

Ltac len_simpl := unfold len in *; autorewrite with ttlen in *.

Tactic Notation "len_lia" := len_simpl; simpl length in *; lia.

(** Case analysis on the boolean comparisons of the goal. *)
Ltac case_bool :=
  match goal with
  | |- context [?a <=? ?b] => destruct (Z.leb_spec a b)
  | |- context [?a <? ?b] => destruct (Z.ltb_spec a b)
  | |- context [?a =? ?b] => destruct (Z.eqb_spec a b)
  end.

Ltac case_bool_in H :=
  match type of H with
  | context [?a <=? ?b] => destruct (Z.leb_spec a b)
  | context [?a <? ?b] => destruct (Z.ltb_spec a b)
  | context [?a =? ?b] => destruct (Z.eqb_spec a b)
  end.

(** Arithmetic with division and modulo by constants. *)
Ltac div_lia := Z.to_euclidean_division_equations; lia.

(** Closed decidable facts, by evaluating their decision procedure. *)
Ltac by_compute := apply (bool_decide_eq_true_1 _); vm_compute; reflexivity.

Lemma Ret_inj {A} (a b : A) : Ret a = Ret b -> a = b.
Proof. by intros [=]. Qed.

Lemma usub_ok a b : b <= a -> usub a b = Ret (a - b).
Proof. intros H. unfold usub. by rewrite (proj2 (Z.leb_le _ _)). Qed.

(** ** Lemmas on loops *)

Section loops.
Context {S R : Type} (step : S -> S + R).

Lemma nsteps_inr n r : nsteps step n (inr r) = inr r.
Proof. by destruct n. Qed.

Lemma nsteps_add m n x : nsteps step (m + n) x = nsteps step n (nsteps step m x).
Proof.
  revert x. induction m as [|m IH]; intros x; [done|].
  destruct x as [s|r]; simpl; [apply IH|by rewrite nsteps_inr].
Qed.

Lemma iterate_nsteps p x : iterate step p x = nsteps step (Pos.to_nat p) x.
Proof.
  revert x. induction p as [p IH|p IH|]; intros x; (destruct x as [s|r]; [|symmetry; apply nsteps_inr]); cbn [iterate].
  - rewrite !IH, <- nsteps_add, Pos2Nat.inj_xI.
    replace (Datatypes.S (2 * Pos.to_nat p)) with (Datatypes.S (Pos.to_nat p + Pos.to_nat p)) by lia. done.
  - rewrite !IH, <- nsteps_add. f_equal. lia.
  - done.
Qed.

(** A loop whose body decreases a measure stops within that many steps, and any
    invariant of the body leads to its postcondition. *)
Lemma iterate_measure (I : S -> Prop) (Q : R -> Prop) (mu : S -> Z) :
  (forall s, I s -> 0 <= mu s) ->
  (forall s s', I s -> step s = inl s' -> I s' /\ mu s' < mu s) ->
  (forall s r, I s -> step s = inr r -> Q r) ->
  forall p s, I s -> mu s < Z.pos p -> exists r, iterate step p (inl s) = inr r /\ Q r.
Proof.
  intros Hmu Hstep Hend p s Hs Hp. rewrite iterate_nsteps.
  assert (mu s < Z.of_nat (Pos.to_nat p)) as Hn by lia. clear Hp.
  generalize dependent (Pos.to_nat p). clear p. intros n. revert s Hs.
  induction n as [|n IH]; intros s Hs Hn; [specialize (Hmu s Hs); lia|].
  simpl. destruct (step s) as [s'|r] eqn:E.
  - destruct (Hstep s s' Hs E) as [Hs' Hlt]. apply IH; [done|lia].
  - rewrite nsteps_inr. eauto.
Qed.

(** More fuel does not change a result. *)
Lemma nsteps_enough n m s r :
  nsteps step n (inl s) = inr r -> (n <= m)%nat -> nsteps step m (inl s) = inr r.
Proof.
  intros H Hm. replace m with (n + (m - n))%nat by lia. by rewrite nsteps_add, H, nsteps_inr.
Qed.

Lemma iterate_enough n p s r :
  nsteps step n (inl s) = inr r -> Z.of_nat n <= Z.pos p -> iterate step p (inl s) = inr r.
Proof. intros H Hp. rewrite iterate_nsteps. apply (nsteps_enough n); [done|lia]. Qed.

End loops.

(** ** Lemmas on integers *)

Lemma as_i64_small a : - 2 ^ 63 <= a < 2 ^ 63 -> as_i64 a = a.
Proof. intros H. unfold as_i64. rewrite Z.mod_small; lia. Qed.

(** ** Lemmas on lists *)

Lemma len_nonneg {A} (l : list A) : 0 <= len l.
Proof. unfold len. lia. Qed.

Lemma len_nil_inv {A} (l : list A) : len l <= 0 -> l = [].
Proof. destruct l; [done|]. unfold len. simpl. lia. Qed.

Lemma len_app {A} (l k : list A) : len (l ++ k) = len l + len k.
Proof. unfold len. rewrite length_app. lia. Qed.

Lemma len_cons {A} (x : A) (l : list A) : len (x :: l) = 1 + len l.
Proof. unfold len. simpl length. lia. Qed.

Lemma to_nat_len {A} (l : list A) : Z.to_nat (len l) = length l.
Proof. unfold len. lia. Qed.

Lemma split_to_app l k : split_to (len l) (l ++ k) = Ret (l, k).
Proof.
  unfold split_to. rewrite len_app. pose proof (len_nonneg k).
  destruct (Z.leb_spec (len l) (len l + len k)); [|lia].
  by rewrite to_nat_len, take_app_length, drop_app_length.
Qed.

Lemma split_to_app' n l k : n = len l -> split_to n (l ++ k) = Ret (l, k).
Proof. intros ->. apply split_to_app. Qed.

Lemma split_to_ok n l :
  0 <= n <= len l -> exists h t, split_to n l = Ret (h, t) /\ l = h ++ t /\ len h = n.
Proof.
  intros H. unfold split_to. destruct (Z.leb_spec n (len l)); [|lia].
  eexists _, _. split; [done|]. split; [by rewrite take_drop|]. len_lia.
Qed.

Lemma split_to_inv n l h t :
  0 <= n -> split_to n l = Ret (h, t) -> l = h ++ t /\ len h = n.
Proof.
  unfold split_to. intros Hn. case_bool; [|done]. intros [= <- <-].
  split; [by rewrite take_drop|]. len_lia.
Qed.

Lemma split_off_app l k : split_off (len l) (l ++ k) = Ret k.
Proof.
  unfold split_off. rewrite len_app. pose proof (len_nonneg k).
  destruct (Z.leb_spec (len l) (len l + len k)); [|lia].
  by rewrite to_nat_len, drop_app_length.
Qed.

Lemma split_off_app' n l k : n = len l -> split_off n (l ++ k) = Ret k.
Proof. intros ->. apply split_off_app. Qed.

Lemma split_off_ok n l :
  0 <= n <= len l -> exists h t, split_off n l = Ret t /\ l = h ++ t /\ len h = n.
Proof.
  intros H. unfold split_off. destruct (Z.leb_spec n (len l)); [|lia].
  eexists (take (Z.to_nat n) l), _. split; [done|].
  split; [by rewrite take_drop|]. len_lia.
Qed.

Lemma index_app {A} (p : list A) x l : index (p ++ x :: l) (len p) = Ret x.
Proof.
  unfold index. rewrite to_nat_len, lookup_app_r by lia. by rewrite Nat.sub_diag.
Qed.

Lemma index_app_at {A} (p : list A) x l i : i = len p -> index (p ++ x :: l) i = Ret x.
Proof. intros ->. apply index_app. Qed.

Lemma index_ok {A} (l : list A) i :
  0 <= i < len l -> exists h x t, index l i = Ret x /\ l = h ++ x :: t /\ len h = i.
Proof.
  intros H. destruct (lookup_lt_is_Some_2 l (Z.to_nat i)) as [x Hx]; [len_lia|].
  exists (take (Z.to_nat i) l), x, (drop (S (Z.to_nat i)) l).
  unfold index. rewrite Hx. split_and!; [done| |len_lia].
  by rewrite take_drop_middle.
Qed.

Lemma slice_app p m l : slice (p ++ m ++ l) (len p) (len p + len m) = Ret m.
Proof.
  unfold slice. pose proof (len_nonneg m). pose proof (len_nonneg l).
  rewrite !len_app, !(proj2 (Z.leb_le _ _)) by lia. simpl.
  replace (Z.to_nat (len p + len m - len p)) with (length m) by len_lia.
  by rewrite to_nat_len, drop_app_length, take_app_length.
Qed.

Lemma slice_app_at p m l a b :
  a = len p -> b = len p + len m -> slice (p ++ m ++ l) a b = Ret m.
Proof. intros -> ->. apply slice_app. Qed.

Lemma slice_ok l a b :
  0 <= a <= b -> b <= len l ->
  exists p m t, slice l a b = Ret m /\ l = p ++ m ++ t /\ len p = a /\ len m = b - a.
Proof.
  intros Ha Hb.
  exists (take (Z.to_nat a) l), (take (Z.to_nat (b - a)) (drop (Z.to_nat a) l)),
    (drop (Z.to_nat (b - a)) (drop (Z.to_nat a) l)).
  unfold slice. rewrite !(proj2 (Z.leb_le _ _)) by lia.
  split_and!; [done| |len_lia|len_lia]. by rewrite !take_drop.
Qed.

Lemma starts_with_app p l : starts_with p (p ++ l) = true.
Proof. induction p as [|x p IH]; simpl; [done|]. by rewrite Z.eqb_refl, IH. Qed.

Lemma starts_with_spec p l : starts_with p l = true <-> exists k, l = p ++ k.
Proof.
  split.
  - revert l. induction p as [|x p IH]; intros l; simpl; [by exists l|].
    destruct l as [|y l]; [done|]. rewrite andb_true_iff, Z.eqb_eq.
    intros [-> H]. destruct (IH l H) as [k ->]. by exists k.
  - intros [k ->]. apply starts_with_app.
Qed.

Lemma strip_prefix_app p l : strip_prefix p (p ++ l) = Some l.
Proof. unfold strip_prefix. by rewrite starts_with_app, drop_app_length. Qed.

Lemma strip_prefix_spec p l k : strip_prefix p l = Some k <-> l = p ++ k.
Proof.
  split; [|intros ->; apply strip_prefix_app].
  unfold strip_prefix. destruct (starts_with p l) eqn:E; [|done].
  apply starts_with_spec in E as [j ->]. rewrite drop_app_length. by intros [= ->].
Qed.

Lemma find_char_spec c l i :
  find_char c l = Some i -> l = take i l ++ c :: drop (S i) l /\ c ∉ take i l.
Proof.
  revert i. induction l as [|x l IH]; intros i; simpl; [done|].
  case_bool; [intros [= <-]; subst; split; [done|set_solver]|].
  destruct (find_char c l) as [j|]; [|done]. intros [= <-].
  destruct (IH j eq_refl) as [E1 E2]. split; [simpl; by f_equal|]. set_solver.
Qed.

Lemma find_char_None c l : find_char c l = None <-> c ∉ l.
Proof.
  induction l as [|x l IH]; simpl; [set_solver|].
  case_bool; [subst; set_solver|].
  rewrite fmap_None, IH. set_solver.
Qed.

Lemma find_char_app c p l : c ∉ p -> find_char c (p ++ c :: l) = Some (length p).
Proof.
  induction p as [|x p IH]; intros H; simpl; [by rewrite Z.eqb_refl|].
  case_bool; [set_solver|]. rewrite IH by set_solver. done.
Qed.

Lemma split_once_app c p l : c ∉ p -> split_once c (p ++ c :: l) = Some (p, l).
Proof.
  intros H. unfold split_once. rewrite find_char_app by done. simpl.
  rewrite take_app_length. by rewrite (drop_app_ge p (c :: l)), Nat.sub_succ_l, Nat.sub_diag by lia.
Qed.

Lemma split_once_inv c l p q : split_once c l = Some (p, q) -> l = p ++ c :: q /\ c ∉ p.
Proof.
  unfold split_once. destruct (find_char c l) as [i|] eqn:E; [|done].
  apply find_char_spec in E. by intros [= <- <-].
Qed.

Lemma split_once_None c l : split_once c l = None <-> c ∉ l.
Proof. unfold split_once. by rewrite fmap_None, find_char_None. Qed.

Lemma union_Some_l {A} (x : A) (o : option A) : Some x ∪ o = Some x.
Proof. by destruct o. Qed.

Lemma union_None_l {A} (o : option A) : None ∪ o = o.
Proof. by destruct o. Qed.

(** ** Lemmas on big-endian integers *)

Lemma be_val_fold l a :
  fold_left (fun a b => a * 256 + b) l a = a * 256 ^ len l + be_val l.
Proof.
  revert a. induction l as [|x l IH]; intros a.
  - unfold be_val, len. simpl. lia.
  - unfold be_val. simpl fold_left. rewrite !IH, len_cons.
    rewrite Z.pow_add_r by (try lia; apply len_nonneg). lia.
Qed.

Lemma be_val_cons x l : be_val (x :: l) = x * 256 ^ len l + be_val l.
Proof. unfold be_val at 1. simpl fold_left. rewrite be_val_fold. f_equal. Qed.

Lemma be_val_bound l : wf_bytes l -> 0 <= be_val l < 256 ^ len l.
Proof.
  induction 1 as [|x l Hx Hl IH]; [unfold be_val, len; simpl; lia|].
  rewrite be_val_cons, len_cons. unfold is_byte in Hx.
  rewrite Z.pow_add_r by (try lia; apply len_nonneg). nia.
Qed.

Lemma length_be_bytes n v : length (be_bytes n v) = n.
Proof. induction n; simpl; congruence. Qed.
#[export] Hint Rewrite length_be_bytes : ttlen.

Lemma len_be_bytes n v : len (be_bytes n v) = Z.of_nat n.
Proof. unfold len. by rewrite length_be_bytes. Qed.

Lemma be_bytes_wf n v : wf_bytes (be_bytes n v).
Proof.
  induction n as [|n IH]; constructor; [|done].
  unfold is_byte. apply Z.mod_pos_bound. lia.
Qed.

Lemma be_val_be_bytes n v : be_val (be_bytes n v) = v mod 256 ^ Z.of_nat n.
Proof.
  induction n as [|n IH]; [simpl; by rewrite Z.mod_1_r|].
  simpl be_bytes. rewrite be_val_cons, IH, len_be_bytes.
  rewrite Nat2Z.inj_succ, <- Z.add_1_r, Z.pow_add_r by lia. change (256 ^ 1) with 256.
  rewrite Z.rem_mul_r by lia. lia.
Qed.

Lemma be_val_be_bytes_small n v :
  0 <= v < 256 ^ Z.of_nat n -> be_val (be_bytes n v) = v.
Proof. intros H. by rewrite be_val_be_bytes, Z.mod_small. Qed.

Lemma be_bytes_mod n v : be_bytes n (v mod 256 ^ Z.of_nat n) = be_bytes n v.
Proof.
  assert (forall m, (m <= n)%nat -> be_bytes m (v mod 256 ^ Z.of_nat n) = be_bytes m v) as H;
    [|by apply H].
  induction m as [|m IH]; intros Hm; [done|]. simpl. f_equal; [|apply IH; lia].
  replace (Z.of_nat n) with (Z.of_nat m + Z.of_nat (n - m)) by lia.
  rewrite Z.pow_add_r by lia.
  rewrite Z.rem_mul_r by (try apply Z.pow_nonzero; lia).
  rewrite Z.add_comm, Z.mul_comm, Z.div_add_l by (apply Z.pow_nonzero; lia).
  rewrite (Z.div_small (v mod 256 ^ Z.of_nat m))
    by (apply Z.mod_pos_bound; lia).
  rewrite Z.add_0_r.
  destruct (n - m)%nat as [|k] eqn:E; [lia|].
  rewrite Nat2Z.inj_succ, <- Z.add_1_l, Z.pow_add_r by lia.
  change (256 ^ 1) with 256. rewrite Z.rem_mul_r by lia.
  rewrite Z.mul_comm, Z.mod_add by lia. apply Z.mod_mod. lia.
Qed.

Lemma be_val_inj l k :
  wf_bytes l -> wf_bytes k -> length l = length k -> be_val l = be_val k -> l = k.
Proof.
  intros Hl. revert k. induction Hl as [|x l Hx Hl IH]; intros k Hk Hlen Hv.
  { by destruct k. }
  destruct k as [|y k]; [done|]. apply Forall_cons in Hk as [Hy Hk].
  rewrite !be_val_cons in Hv. simpl in Hlen.
  assert (length l = length k) as El by lia.
  pose proof (be_val_bound l Hl). pose proof (be_val_bound k Hk).
  assert (len l = len k) as Ll by (unfold len; lia). rewrite Ll in *.
  assert (x = y) as -> by nia. f_equal. apply IH; [done|done|lia].
Qed.

Lemma be_bytes_be_val l : wf_bytes l -> be_bytes (length l) (be_val l) = l.
Proof.
  intros H. apply be_val_inj; [apply be_bytes_wf|done|apply length_be_bytes|].
  apply be_val_be_bytes_small. by apply be_val_bound.
Qed.

Lemma get_uint_app n l k : n = len l -> get_uint n (l ++ k) = Ret (be_val l, k).
Proof. intros ->. unfold get_uint. by rewrite split_to_app. Qed.

Lemma get_uint_be n m v k :
  n = Z.of_nat m -> 0 <= v < 256 ^ n -> get_uint n (be_bytes m v ++ k) = Ret (v, k).
Proof.
  intros -> H. rewrite get_uint_app by (by rewrite len_be_bytes).
  by rewrite be_val_be_bytes_small.
Qed.

Lemma get_uint_ok n l :
  0 <= n <= len l ->
  exists h t, get_uint n l = Ret (be_val h, t) /\ l = h ++ t /\ len h = n.
Proof.
  intros H. destruct (split_to_ok n l H) as (h & t & E & -> & Hn).
  exists h, t. unfold get_uint. by rewrite E.
Qed.

Lemma lor_add_high v k c : 0 <= k -> 0 <= v < 2 ^ k -> Z.lor v (c * 2 ^ k) = v + c * 2 ^ k.
Proof.
  intros Hk Hv. assert (Z.land v (c * 2 ^ k) = 0) as E.
  { apply Z.bits_inj'. intros n Hn. rewrite Z.land_spec, Z.bits_0.
    destruct (decide (n < k)).
    - rewrite Z.mul_pow2_bits_low by done. apply andb_false_r.
    - rewrite <- (Z.mod_small v (2 ^ k)), Z.mod_pow2_bits_high by lia. done. }
  rewrite <- Z.lxor_lor, <- Z.add_nocarry_lxor by done. done.
Qed.

Lemma land_mask x k : 0 <= k -> Z.land x (2 ^ k - 1) = x mod 2 ^ k.
Proof. intros Hk. rewrite <- Z.land_ones, Z.ones_equiv by done. done. Qed.

Lemma wf_bytes_app l k : wf_bytes (l ++ k) <-> wf_bytes l /\ wf_bytes k.
Proof. apply Forall_app. Qed.

#[export] Hint Resolve be_bytes_wf : tt.

Lemma in_range_spec lo hi b : in_range lo hi b = true <-> lo <= b <= hi.
Proof. unfold in_range. rewrite andb_true_iff, !Z.leb_le. done. Qed.

Lemma is_cont_byte b : is_cont b = true -> is_byte b.
Proof. intros H%in_range_spec. unfold is_byte. lia. Qed.

Lemma utf8_valid_wf l : utf8_valid l = true -> wf_bytes l.
Proof.
  assert (forall n l, (length l <= n)%nat -> utf8_valid l = true -> wf_bytes l) as H;
    [|by apply (H (length l))].
  clear l. induction n as [|n IH]; intros l Hn; [destruct l; [constructor|simpl in Hn; lia]|].
  assert (forall lo hi b, 0 <= lo -> hi < 256 -> in_range lo hi b = true -> is_byte b) as Hr.
  { intros lo hi b ? ? Hb%in_range_spec. unfold is_byte. lia. }
  destruct l as [|b0 l]; [constructor|]. simpl in Hn. cbn [utf8_valid].
  destruct (in_range 0 0x7F b0) eqn:E0; [intros; constructor; [apply (Hr 0 0x7F); (done || lia)|apply IH; [lia|done]]|].
  destruct (in_range 0xC2 0xDF b0) eqn:E1.
  { destruct l as [|b1 l]; [done|]. rewrite andb_true_iff. intros [? ?]. simpl in Hn.
    repeat apply Forall_cons_2; [apply (Hr 0xC2 0xDF); (done || lia)|by apply is_cont_byte|apply IH; [lia|done]]. }
  destruct (in_range 0xE0 0xEF b0) eqn:E2.
  { destruct l as [|b1 [|b2 l]]; [done..|]. rewrite !andb_true_iff. intros [[H1 ?] ?]. simpl in Hn.
    repeat apply Forall_cons_2; [apply (Hr 0xE0 0xEF); (done || lia)| |by apply is_cont_byte|apply IH; [lia|done]].
    destruct (_ =? _) in H1; [|destruct (_ =? _) in H1];
      first [by apply is_cont_byte | refine (Hr _ _ _ _ _ H1); lia]. }
  destruct (in_range 0xF0 0xF4 b0) eqn:E3; [|done].
  destruct l as [|b1 [|b2 [|b3 l]]]; [done..|]. rewrite !andb_true_iff. intros [[[H1 ?] ?] ?]. simpl in Hn.
  repeat apply Forall_cons_2; [apply (Hr 0xF0 0xF4); (done || lia)| |by apply is_cont_byte..|apply IH; [lia|done]].
  destruct (_ =? _) in H1; [|destruct (_ =? _) in H1];
      first [by apply is_cont_byte | refine (Hr _ _ _ _ _ H1); lia].
Qed.
