(* ===== verification/Codecs.v ===== *)
(** * Interfaces of the text codecs the program takes from third-party crates

    The [hex] and [base64] crates are not part of the repository.  What the
    modelled code relies on is stated as two type classes; the components are
    proved against them.  [HexRef] and [Base64Ref] are concrete codecs that
    satisfy the classes, so that every theorem with such a hypothesis can be
    instantiated. *)

From S2P Require Import Prelude.

(** [hex::encode] and [hex::decode]: the documented behaviour used. *)
Definition is_hex_digit (c : Z) : bool :=
  in_range 0x30 0x39 c || in_range 0x41 0x46 c || in_range 0x61 0x66 c.

Class HexLaws (hex_encode : bytes -> bytes) (hex_decode : bytes -> option bytes) : Prop := {
  hex_decode_encode b : wf_bytes b -> hex_decode (hex_encode b) = Some b;
  hex_encode_digits b : wf_bytes b -> Forall (fun c => is_hex_digit c = true) (hex_encode b);
  hex_decode_digits s b :
    hex_decode s = Some b -> Forall (fun c => is_hex_digit c = true) s;
  hex_decode_len s b : hex_decode s = Some b -> len s = 2 * len b
}.

(** [Engine::encode] and [Engine::decode]: decoding inverts encoding, and the
    output uses the base64 alphabets and padding only. *)
Definition is_b64_char (c : Z) : bool :=
  in_range 65 90 c || in_range 97 122 c || in_range 48 57 c
  || bool_decide (c ∈ str "+/-_=").

Class Base64Laws (b64_encode : bytes -> bytes) (b64_decode : bytes -> option bytes) : Prop := {
  b64_decode_encode b : wf_bytes b -> b64_decode (b64_encode b) = Some b;
  b64_encode_chars b : wf_bytes b -> Forall (fun c => is_b64_char c = true) (b64_encode b)
}.

Lemma b64_encode_inj enc dec `{!Base64Laws enc dec} a b :
  wf_bytes a -> wf_bytes b -> enc a = enc b -> a = b.
Proof.
  intros Ha Hb E. apply (f_equal dec) in E.
  rewrite !b64_decode_encode in E by done. by injection E.
Qed.

Lemma hex_digit_not_slash enc dec `{!HexLaws enc dec} s b :
  dec s = Some b -> 0x2F ∉ s.
Proof.
  intros H%hex_decode_digits Hin. rewrite Forall_forall in H. specialize (H _ Hin). done.
Qed.

(** Exhaustive checks over a range of integers. *)
Definition upto (n : Z) : list Z := seqZ 0 n.

Lemma forall_upto (P : Z -> bool) n :
  forallb P (upto n) = true -> forall x, 0 <= x < n -> P x = true.
Proof.
  intros H x Hx. rewrite forallb_forall in H. apply H.
  apply list_elem_of_In, elem_of_seqZ. lia.
Qed.

Lemma forall_upto_prop (P : Z -> Prop) {Hdec : forall x, Decision (P x)} n :
  forallb (fun x => bool_decide (P x)) (upto n) = true -> forall x, 0 <= x < n -> P x.
Proof. intros H x Hx. eapply bool_decide_eq_true_1, (forall_upto _ _ H x Hx). Qed.

Module HexRef.

Definition digit (v : Z) : Z := if v <? 10 then 0x30 + v else 0x57 + v.

Definition value (c : Z) : option Z :=
  if in_range 0x30 0x39 c then Some (c - 0x30)
  else if in_range 0x41 0x46 c then Some (c - 0x37)
  else if in_range 0x61 0x66 c then Some (c - 0x57)
  else None.

Fixpoint hex_encode (l : bytes) : bytes :=
  match l with
  | [] => []
  | b :: l => digit (b / 16) :: digit (b mod 16) :: hex_encode l
  end.

Fixpoint hex_decode (l : bytes) : option bytes :=
  match l with
  | [] => Some []
  | [_] => None
  | x :: y :: l =>
      match value x, value y, hex_decode l with
      | Some h, Some k, Some r => Some (h * 16 + k :: r)
      | _, _, _ => None
      end
  end.

Lemma value_digit v : 0 <= v < 16 -> value (digit v) = Some v.
Proof. apply (forall_upto_prop (fun v => value (digit v) = Some v)). by vm_compute. Qed.

Lemma digit_hex v : 0 <= v < 16 -> is_hex_digit (digit v) = true.
Proof. apply (forall_upto (fun v => is_hex_digit (digit v))). by vm_compute. Qed.

Lemma value_hex c v : value c = Some v -> is_hex_digit c = true.
Proof.
  unfold value, is_hex_digit. destruct (in_range 48 57 c), (in_range 65 70 c), (in_range 97 102 c); done.
Qed.

Lemma hex_decode_spec n s b : (length s <= n)%nat -> hex_decode s = Some b ->
  Forall (fun c => is_hex_digit c = true) s /\ len s = 2 * len b.
Proof.
  revert s b. induction n as [|n IH]; intros s b Hn.
  { destruct s; [|simpl in Hn; lia]. intros [= <-]. by split. }
  destruct s as [|x [|y s]]; simpl; [by intros [= <-]; split|done|].
  destruct (value x) eqn:Ex; [|done]. destruct (value y) eqn:Ey; [|done].
  destruct (hex_decode s) eqn:Es; [|done]. intros [= <-].
  simpl in Hn. destruct (IH s l) as [H1 H2]; [lia|done|].
  rewrite !len_cons. split; [|lia]. repeat constructor; eauto using value_hex.
Qed.

#[global] Instance laws : HexLaws hex_encode hex_decode.
Proof.
  split.
  - induction 1 as [|x l Hx Hl IH]; simpl; [done|]. unfold is_byte in Hx.
    rewrite !value_digit, IH by div_lia. do 2 f_equal. div_lia.
  - induction 1 as [|x l Hx Hl IH]; simpl; [constructor|]. unfold is_byte in Hx.
    repeat constructor; [apply digit_hex; div_lia..|done].
  - intros s b H. by eapply hex_decode_spec in H as [? _].
  - intros s b H. by eapply hex_decode_spec in H as [_ ?].
Qed.

End HexRef.

Module Base64Ref.

Definition char (v : Z) : Z :=
  if v <? 26 then 65 + v else if v <? 52 then 71 + v else if v <? 62 then v - 4
  else if v =? 62 then 45 else 95.

Definition value (c : Z) : option Z :=
  if in_range 65 90 c then Some (c - 65) else if in_range 97 122 c then Some (c - 71)
  else if in_range 48 57 c then Some (c + 4) else if c =? 45 then Some 62
  else if c =? 95 then Some 63 else None.

Fixpoint b64_encode (l : bytes) : bytes :=
  match l with
  | [] => []
  | [a] => [char (a / 4); char (a mod 4 * 16)]
  | [a; b] => [char (a / 4); char (a mod 4 * 16 + b / 16); char (b mod 16 * 4)]
  | a :: b :: c :: l =>
      char (a / 4) :: char (a mod 4 * 16 + b / 16) :: char (b mod 16 * 4 + c / 64)
      :: char (c mod 64) :: b64_encode l
  end.

Fixpoint b64_decode (l : bytes) : option bytes :=
  match l with
  | [] => Some []
  | [_] => None
  | [w; x] =>
      match value w, value x with
      | Some w, Some x => if x mod 16 =? 0 then Some [w * 4 + x / 16] else None
      | _, _ => None
      end
  | [w; x; y] =>
      match value w, value x, value y with
      | Some w, Some x, Some y =>
          if y mod 4 =? 0 then Some [w * 4 + x / 16; x mod 16 * 16 + y / 4] else None
      | _, _, _ => None
      end
  | w :: x :: y :: z :: l =>
      match value w, value x, value y, value z, b64_decode l with
      | Some w, Some x, Some y, Some z, Some r =>
          Some (w * 4 + x / 16 :: x mod 16 * 16 + y / 4 :: y mod 4 * 64 + z :: r)
      | _, _, _, _, _ => None
      end
  end.

Lemma value_char v : 0 <= v < 64 -> value (char v) = Some v.
Proof. apply (forall_upto_prop (fun v => value (char v) = Some v)). by vm_compute. Qed.

Lemma decode_encode n l : (length l <= n)%nat -> wf_bytes l -> b64_decode (b64_encode l) = Some l.
Proof.
  revert l. induction n as [|n IH]; intros l Hn Hwf.
  { destruct l; [done|simpl in Hn; lia]. }
  unfold wf_bytes, is_byte in Hwf.
  destruct l as [|a [|b [|c l]]]; simpl in *; rewrite ?Forall_cons in Hwf; [done|..].
  - destruct Hwf as [Ha _]. rewrite !value_char by div_lia.
    rewrite (proj2 (Z.eqb_eq _ _)) by div_lia. repeat f_equal. div_lia.
  - destruct Hwf as (Ha & Hb & _). rewrite !value_char by div_lia.
    rewrite (proj2 (Z.eqb_eq _ _)) by div_lia. repeat f_equal; div_lia.
  - destruct Hwf as (Ha & Hb & Hc & Hwf). rewrite !value_char by div_lia.
    rewrite IH by (done || lia). repeat f_equal; div_lia.
Qed.

Lemma char_b64 v : 0 <= v < 64 -> is_b64_char (char v) = true.
Proof. apply (forall_upto (fun v => is_b64_char (char v))). by vm_compute. Qed.

Lemma encode_chars n l :
  (length l <= n)%nat -> wf_bytes l -> Forall (fun c => is_b64_char c = true) (b64_encode l).
Proof.
  revert l. induction n as [|n IH]; intros l Hn Hwf.
  { destruct l; [constructor|simpl in Hn; lia]. }
  unfold wf_bytes, is_byte in Hwf.
  destruct l as [|a [|b [|c l]]]; simpl in *; rewrite ?Forall_cons in Hwf;
    repeat apply Forall_cons_2; try apply Forall_nil_2;
    try (apply char_b64; div_lia). apply IH; [lia|]. by destruct Hwf as (_ & _ & _ & ?).
Qed.

#[global] Instance laws : Base64Laws b64_encode b64_decode.
Proof.
  split; intros b Hb; [by apply (decode_encode (length b))|by apply (encode_chars (length b))].
Qed.

End Base64Ref.
