(* ===== verification/Varint.v ===== *)
(** * QUIC variable-length integers ([deeplink/src/varint.rs]) and the errors of
    the deep-link crate ([deeplink/src/error.rs]).

    [encode_varint] and [decode_varint] are translated branch by branch; the
    theorems give the round trip at any offset, the bounds of what the decoder
    returns and the agreement of the encoded size with
    [net_utils::varint_len] of the endpoint. *)

From S2P Require Import Prelude.

(** [std::io::ErrorKind]s that the modelled code produces or tests; the
    diagnostic text of an [io::Error] is not modelled. *)
Inductive ErrorKind : Type :=
| UnexpectedEof
| TimedOut
| WouldBlock
| NotFound
| PermissionDenied
| InvalidData
| InvalidInput
| ConnectionRefused
| Other.

#[export] Instance ErrorKind_eq_dec : EqDecision ErrorKind.
Proof. solve_decision. Defined.

(** [DeepLinkError]; text payloads produced by formatting are dropped, the data
    payloads are kept. *)
Inductive DeepLinkError : Type :=
| InvalidBase64
| TruncatedTlv (tag expected got : Z)
| MissingRequiredField (field : bytes)
| InvalidSubscriptionUrl (url : bytes)
| InvalidProtocol (b : Z)
| UnsupportedVersion (found max_supported : Z)
| TruncatedListEntry (expected got : Z)
| VarintOverflow (value : Z)
| InvalidCertificate
| InvalidUtf8
| InvalidAddress
| InvalidBoolean (b : Z)
| InvalidScheme
| Io (e : ErrorKind).

Definition encode_varint (value : Z) : result DeepLinkError bytes :=
  if value <=? 0x3F then Ok [as_u8 value]
  else if value <=? 0x3FFF then Ok (be_bytes 2 (as_u16 (Z.lor value 0x4000)))
  else if value <=? 0x3FFFFFFF then Ok (be_bytes 4 (as_u32 (Z.lor value 0x80000000)))
  else if value <=? 0x3FFFFFFFFFFFFFFF then
    Ok (be_bytes 8 (Z.lor value 0xC000000000000000))
  else Err (VarintOverflow value).

Definition decode_varint (data : bytes) (offset : Z) : M (result ErrorKind (Z * Z)) :=
  if len data <=? offset then Ret (Err UnexpectedEof)
  else
    let! first := index data offset in
    match Z.shiftr first 6 with
    | 0 => Ret (Ok (Z.land first 0x3F, offset + 1))
    | 1 =>
        if len data <? offset + 2 then Ret (Err UnexpectedEof)
        else
          let! b := slice data offset (offset + 2) in
          Ret (Ok (Z.land (be_val b) 0x3FFF, offset + 2))
    | 2 =>
        if len data <? offset + 4 then Ret (Err UnexpectedEof)
        else
          let! b := slice data offset (offset + 4) in
          Ret (Ok (Z.land (be_val b) 0x3FFFFFFF, offset + 4))
    | 3 =>
        if len data <? offset + 8 then Ret (Err UnexpectedEof)
        else
          let! b := slice data offset (offset + 8) in
          Ret (Ok (Z.land (be_val b) 0x3FFFFFFFFFFFFFFF, offset + 8))
    | _ => Panic
    end.

(** [net_utils::varint_len] of the endpoint library; [None] is [unreachable!()]. *)
Definition MAX_QUIC_VARINT : Z := 4611686018427387903.

Definition varint_len (x : Z) : M Z :=
  if x <=? 63 then Ret 1
  else if x <=? 16383 then Ret 2
  else if x <=? 1073741823 then Ret 4
  else if x <=? MAX_QUIC_VARINT then Ret 8
  else Panic.

(** ** Lemmas *)

(** The bytes that [encode_varint] produces for the class [c] of [n] bytes. *)
Lemma encode_class_head (n : nat) (c v : Z) :
  (0 < n)%nat -> 0 <= c < 4 -> 0 <= v < 2 ^ (8 * Z.of_nat n - 2) ->
  exists b l, be_bytes n (v + c * 2 ^ (8 * Z.of_nat n - 2)) = b :: l /\
    Z.shiftr b 6 = c /\
    be_val (b :: l) mod 2 ^ (8 * Z.of_nat n - 2) = v.
Proof.
  intros Hn Hc Hv. destruct n as [|m]; [lia|].
  set (w := v + c * 2 ^ (8 * Z.of_nat (S m) - 2)).
  exists ((w / 256 ^ Z.of_nat m) mod 256), (be_bytes m w). split; [done|].
  assert (256 ^ Z.of_nat m = 2 ^ (8 * Z.of_nat m)) as E256.
  { change 256 with (2 ^ 8). by rewrite <- Z.pow_mul_r by lia. }
  assert (2 ^ (8 * Z.of_nat (S m) - 2) = 64 * 2 ^ (8 * Z.of_nat m)) as E64.
  { replace (8 * Z.of_nat (S m) - 2) with (6 + 8 * Z.of_nat m) by lia.
    rewrite Z.pow_add_r by lia. done. }
  pose proof (Z.pow_pos_nonneg 2 (8 * Z.of_nat m) ltac:(lia) ltac:(lia)) as Hp.
  assert (w / 256 ^ Z.of_nat m = v / 2 ^ (8 * Z.of_nat m) + 64 * c) as Ew.
  { unfold w. rewrite E256, E64.
    replace (c * (64 * 2 ^ (8 * Z.of_nat m))) with ((64 * c) * 2 ^ (8 * Z.of_nat m)) by lia.
    by rewrite Z.div_add by lia. }
  assert (0 <= v / 2 ^ (8 * Z.of_nat m) < 64) as Hq.
  { split; [apply Z.div_pos; lia|]. apply Z.div_lt_upper_bound; lia. }
  split.
  - rewrite Ew, Z.mod_small by lia. rewrite Z.shiftr_div_pow2 by lia.
    change (2 ^ 6) with 64. div_lia.
  - change (_ :: be_bytes m w) with (be_bytes (S m) w).
    rewrite be_val_be_bytes_small.
    + unfold w. by rewrite Z.mod_add, Z.mod_small by lia.
    + rewrite Nat2Z.inj_succ, Z.pow_succ_r, E256 by lia. unfold w. rewrite E64 in *. nia.
Qed.

(** The four classes of the encoding: size in bytes and two-bit prefix. *)
Definition varint_class (n : nat) (c : Z) : Prop :=
  (n = 1%nat /\ c = 0) \/ (n = 2%nat /\ c = 1) \/ (n = 4%nat /\ c = 2) \/ (n = 8%nat /\ c = 3).

(** The encoder's output, by size class. *)
Lemma encode_varint_class v :
  0 <= v < 2 ^ 62 ->
  exists (n : nat) (c : Z) b l,
    varint_class n c /\
    encode_varint v = Ok (b :: l) /\ length (b :: l) = n /\
    Z.shiftr b 6 = c /\ be_val (b :: l) mod 2 ^ (8 * Z.of_nat n - 2) = v /\
    varint_len v = Ret (Z.of_nat n) /\ wf_bytes (b :: l).
Proof.
  intros Hv.
  assert (forall (n : nat) c, varint_class n c ->
    0 <= v < 2 ^ (8 * Z.of_nat n - 2) -> varint_len v = Ret (Z.of_nat n) ->
    encode_varint v = Ok (be_bytes n (v + c * 2 ^ (8 * Z.of_nat n - 2))) ->
    exists (n : nat) (c : Z) b l,
      varint_class n c /\
      encode_varint v = Ok (b :: l) /\ length (b :: l) = n /\
      Z.shiftr b 6 = c /\ be_val (b :: l) mod 2 ^ (8 * Z.of_nat n - 2) = v /\
      varint_len v = Ret (Z.of_nat n) /\ wf_bytes (b :: l)) as K.
  { intros n c Hnc Hb Hl He.
    destruct (encode_class_head n c v) as (b & l & E & H1 & H2); [unfold varint_class in Hnc; lia..|done|].
    exists n, c, b, l. rewrite <- E. split_and!; try done; auto using be_bytes_wf, length_be_bytes.
    - by rewrite E. }
  unfold encode_varint, varint_len, MAX_QUIC_VARINT in *.
  destruct (Z.leb_spec v 0x3F).
  { apply (K 1%nat 0); [unfold varint_class; lia|simpl; lia|done|].
    unfold as_u8. simpl. rewrite Z.add_0_r, Z.div_1_r. done. }
  destruct (Z.leb_spec v 0x3FFF).
  { apply (K 2%nat 1); [unfold varint_class; lia|simpl; lia|done|]. f_equal.
    change 0x4000 with (1 * 2 ^ 14). rewrite lor_add_high by lia.
    unfold as_u16. rewrite Z.mod_small by lia. done. }
  destruct (Z.leb_spec v 0x3FFFFFFF).
  { apply (K 4%nat 2); [unfold varint_class; lia|simpl; lia|done|]. f_equal.
    change 0x80000000 with (2 * 2 ^ 30). rewrite lor_add_high by lia.
    unfold as_u32. rewrite Z.mod_small by lia. done. }
  destruct (Z.leb_spec v 0x3FFFFFFFFFFFFFFF); [|lia].
  destruct (Z.leb_spec v 4611686018427387903); [|lia].
  apply (K 8%nat 3); [unfold varint_class; lia|simpl; lia|done|]. f_equal.
  change 0xC000000000000000 with (3 * 2 ^ 62). rewrite lor_add_high by lia. done.
Qed.

Lemma decode_varint_class n c b l pre post :
  varint_class n c -> length (b :: l) = n -> Z.shiftr b 6 = c ->
  decode_varint (pre ++ (b :: l) ++ post) (len pre) =
    Ret (Ok (be_val (b :: l) mod 2 ^ (8 * Z.of_nat n - 2), len pre + Z.of_nat n)).
Proof.
  intros Hc Hn Hs. unfold decode_varint.
  rewrite (proj2 (Z.leb_gt _ _)) by (rewrite !len_app, len_cons;
    pose proof (len_nonneg l); pose proof (len_nonneg post); lia).
  change ((b :: l) ++ post) with (b :: (l ++ post)) at 1.
  rewrite index_app. cbn [bindM]. rewrite Hs.
  assert (len (b :: l) = Z.of_nat n) as Hl by (unfold len; lia).
  pose proof (len_nonneg post).
  destruct Hc as [[-> ->]|[[-> ->]|[[-> ->]|[-> ->]]]]; cbv beta iota.
  - destruct l; [|done]. change 0x3F with (2 ^ 6 - 1). rewrite land_mask by lia. done.
  - rewrite (proj2 (Z.ltb_ge _ _)) by (rewrite !len_app, Hl; lia).
    rewrite slice_app_at by (rewrite ?Hl; lia). cbn [bindM].
    change 0x3FFF with (2 ^ 14 - 1). rewrite land_mask by lia. done.
  - rewrite (proj2 (Z.ltb_ge _ _)) by (rewrite !len_app, Hl; lia).
    rewrite slice_app_at by (rewrite ?Hl; lia). cbn [bindM].
    change 0x3FFFFFFF with (2 ^ 30 - 1). rewrite land_mask by lia. done.
  - rewrite (proj2 (Z.ltb_ge _ _)) by (rewrite !len_app, Hl; lia).
    rewrite slice_app_at by (rewrite ?Hl; lia). cbn [bindM].
    change 0x3FFFFFFFFFFFFFFF with (2 ^ 62 - 1). rewrite land_mask by lia. done.
Qed.

(** Encoding then decoding at any offset; shared by the TLV layer. *)
Lemma decode_encode_varint pre post v enc :
  0 <= v -> encode_varint v = Ok enc ->
  decode_varint (pre ++ enc ++ post) (len pre) = Ret (Ok (v, len pre + len enc)).
Proof.
  intros Hv He. assert (v < 2 ^ 62) as Hv2.
  { revert He. unfold encode_varint. repeat case_bool; try done; lia. }
  destruct (encode_varint_class v) as (n & c & b & l & H1 & H2 & H3 & H4 & H5 & _); [lia|].
  rewrite H2 in He. injection He as <-.
  erewrite decode_varint_class by done. rewrite H5. unfold len at 3. by rewrite H3.
Qed.

Lemma encode_varint_ok v : 0 <= v < 2 ^ 62 ->
  exists enc, encode_varint v = Ok enc /\ wf_bytes enc /\ 1 <= len enc <= 8.
Proof.
  intros Hv. destruct (encode_varint_class v Hv) as (n & c & b & l & H1 & H2 & H3 & _ & _ & _ & H4).
  exists (b :: l). unfold len, varint_class in *. split_and!; [done|done|lia|lia].
Qed.

Lemma encode_varint_inv v enc :
  0 <= v -> encode_varint v = Ok enc -> v < 2 ^ 62 /\ wf_bytes enc /\ 1 <= len enc <= 8.
Proof.
  intros H0 He. assert (v < 2 ^ 62) as Hv.
  { revert He. unfold encode_varint. repeat case_bool; try done; lia. }
  split; [done|]. destruct (encode_varint_ok v) as (e & E & ?); [lia|]. rewrite He in E. by simplify_eq.
Qed.

Lemma decode_varint_ok data offset :
  wf_bytes data -> 0 <= offset ->
  exists r, decode_varint data offset = Ret r /\
    match r with
    | Ok (v, o) => 0 <= v < 2 ^ 62 /\ offset < o <= len data /\ o <= offset + 8
    | Err e => e = UnexpectedEof
    end.
Proof.
  intros Hwf Ho. unfold decode_varint. case_bool; [by eexists|].
  destruct (index_ok data offset) as (h & x & t & -> & Hd & Hh); [lia|].
  assert (is_byte x) as Hx.
  { rewrite Hd in Hwf. apply Forall_app in Hwf as [_ Hwf]. by apply Forall_cons in Hwf as [? _]. }
  cbn [bindM].
  assert (forall k m, 0 <= k <= 62 -> 0 <= Z.land m (2 ^ k - 1) < 2 ^ 62) as Hm.
  { intros k m Hk. rewrite land_mask by lia.
    pose proof (Z.mod_pos_bound m (2 ^ k) ltac:(apply Z.pow_pos_nonneg; lia)).
    pose proof (Z.pow_le_mono_r 2 k 62). lia. }
  assert (Z.shiftr x 6 = 0 \/ Z.shiftr x 6 = 1 \/ Z.shiftr x 6 = 2 \/ Z.shiftr x 6 = 3) as Hs.
  { rewrite Z.shiftr_div_pow2 by lia. change (2 ^ 6) with 64. unfold is_byte in Hx. div_lia. }
  destruct Hs as [-> | [-> | [-> | ->]]]; cbv beta iota.
  - eexists; split; [done|]. split; [exact (Hm 6 x ltac:(lia))|lia].
  - case_bool; [by eexists|]. destruct (slice_ok data offset (offset + 2)) as (p & m & u & -> & _); [lia..|].
    eexists; split; [done|]. split; [exact (Hm 14 (be_val m) ltac:(lia))|lia].
  - case_bool; [by eexists|]. destruct (slice_ok data offset (offset + 4)) as (p & m & u & -> & _); [lia..|].
    eexists; split; [done|]. split; [exact (Hm 30 (be_val m) ltac:(lia))|lia].
  - case_bool; [by eexists|]. destruct (slice_ok data offset (offset + 8)) as (p & m & u & -> & _); [lia..|].
    eexists; split; [done|]. split; [exact (Hm 62 (be_val m) ltac:(lia))|lia].
Qed.

(** ** Properties *)

(** Every value below 2^62 is encoded, and decoding the encoding at
    its offset inside any buffer returns the value and the offset just past it. *)
Theorem varint_roundtrip (v : Z) (pre post : bytes) :
  0 <= v < 2 ^ 62 ->
  exists enc, encode_varint v = Ok enc /\
    decode_varint (pre ++ enc ++ post) (len pre) = Ret (Ok (v, len pre + len enc)).
Proof.
  intros Hv. destruct (encode_varint_ok v Hv) as (enc & He & _).
  exists enc. split; [done|]. apply decode_encode_varint; [lia|done].
Qed.

Lemma varint_roundtrip_witness :
  0 <= 15293 < 2 ^ 62 /\
  exists enc, encode_varint 15293 = Ok enc /\
    decode_varint ([7; 8] ++ enc ++ [9]) (len [7; 8]) =
      Ret (Ok (15293, len [7; 8] + len enc)).
Proof. split; [lia|]. apply (varint_roundtrip 15293 [7; 8] [9]). lia. Defined.

(** For every [u64], the encoder succeeds exactly when the value
    is below 2^62, reports the value otherwise, and the size of what it produces
    is the [net_utils::varint_len] the endpoint computes for the same value. *)
Theorem encode_varint_size (v : Z) :
  0 <= v < 2 ^ 64 ->
  match encode_varint v with
  | Ok enc => v < 2 ^ 62 /\ varint_len v = Ret (len enc) /\ wf_bytes enc
  | Err e => 2 ^ 62 <= v /\ e = VarintOverflow v /\ varint_len v = Panic
  end.
Proof.
  intros Hv. destruct (decide (v < 2 ^ 62)) as [H|H].
  - destruct (encode_varint_class v) as (n & c & b & l & _ & -> & H3 & _ & _ & H4 & H5); [lia|].
    rewrite H4. unfold len. by rewrite H3.
  - unfold encode_varint, varint_len, MAX_QUIC_VARINT.
    rewrite !(proj2 (Z.leb_gt _ _)) by lia. split_and!; [lia|done|done].
Qed.

Lemma encode_varint_size_witness :
  0 <= 2 ^ 62 < 2 ^ 64 /\
  match encode_varint (2 ^ 62) with
  | Ok enc => 2 ^ 62 < 2 ^ 62 /\ varint_len (2 ^ 62) = Ret (len enc) /\ wf_bytes enc
  | Err e => 2 ^ 62 <= 2 ^ 62 /\ e = VarintOverflow (2 ^ 62) /\ varint_len (2 ^ 62) = Panic
  end.
Proof. split; [lia|]. apply (encode_varint_size (2 ^ 62)). lia. Defined.

(** On arbitrary bytes and any offset the decoder never panics;
    it reports a truncated integer as [UnexpectedEof], and a decoded integer is
    below 2^62 and consumes between 1 and 8 bytes of the input. *)
Theorem decode_varint_total (data : bytes) (offset : Z) :
  wf_bytes data -> 0 <= offset ->
  exists r, decode_varint data offset = Ret r /\
    match r with
    | Ok (v, o) => 0 <= v < 2 ^ 62 /\ offset < o <= len data /\ o <= offset + 8
    | Err e => e = UnexpectedEof
    end.
Proof. apply decode_varint_ok. Qed.

Lemma decode_varint_total_witness :
  wf_bytes [0x40] /\ 0 <= 0 /\
  exists r, decode_varint [0x40] 0 = Ret r /\
    match r with
    | Ok (v, o) => 0 <= v < 2 ^ 62 /\ 0 < o <= len [0x40] /\ o <= 0 + 8
    | Err e => e = UnexpectedEof
    end.
Proof.
  split; [by_compute|]. split; [lia|].
  apply (decode_varint_total [0x40] 0); [by_compute|lia].
Defined.
