(* ===== verification/DeepLink.v ===== *)
(** * Deep links ([deeplink/src/types.rs], [encode.rs], [decode.rs], [lib.rs])

    [DeepLinkConfig] with its validation and builder, the TLV encoder and the
    stateful TLV parser with the decoder that folds over it, and the [tt://?] URI
    layer.  The [hex] and [base64] crates are parameters: [hex_decode] is the
    result of [hex::decode], [b64_encode] and [b64_decode] are
    [URL_SAFE_NO_PAD.encode] and [.decode].

    The theorems: the payload and URI round trips (up to the normalisation that
    the encoder performs), totality of the decoder on arbitrary bytes, the
    validation invariant of everything it accepts, and what happens to unknown
    and out-of-range tags. *)

From S2P Require Import Prelude Codecs Varint.

(** ** Types *)

Inductive TlvTag : Type :=
| Version
| Hostname
| Address
| CustomSni
| HasIpv6
| Username
| Password
| SkipVerification
| Certificate
| UpstreamProtocol
| AntiDpi
| ClientRandomPrefix
| Name
| DnsUpstreams
| SubscriptionUrl
| ClientRandomAuthKey.

#[export] Instance TlvTag_eq_dec : EqDecision TlvTag.
Proof. solve_decision. Defined.

Definition tag_as_u8 (t : TlvTag) : Z :=
  match t with
  | Version => 0x00
  | Hostname => 0x01
  | Address => 0x02
  | CustomSni => 0x03
  | HasIpv6 => 0x04
  | Username => 0x05
  | Password => 0x06
  | SkipVerification => 0x07
  | Certificate => 0x08
  | UpstreamProtocol => 0x09
  | AntiDpi => 0x0A
  | ClientRandomPrefix => 0x0B
  | Name => 0x0C
  | DnsUpstreams => 0x0D
  | SubscriptionUrl => 0x0E
  | ClientRandomAuthKey => 0x0F
  end.

Definition tag_from_u8 (value : Z) : option TlvTag :=
  match value with
  | 0x00 => Some Version
  | 0x01 => Some Hostname
  | 0x02 => Some Address
  | 0x03 => Some CustomSni
  | 0x04 => Some HasIpv6
  | 0x05 => Some Username
  | 0x06 => Some Password
  | 0x07 => Some SkipVerification
  | 0x08 => Some Certificate
  | 0x09 => Some UpstreamProtocol
  | 0x0A => Some AntiDpi
  | 0x0B => Some ClientRandomPrefix
  | 0x0C => Some Name
  | 0x0D => Some DnsUpstreams
  | 0x0E => Some SubscriptionUrl
  | 0x0F => Some ClientRandomAuthKey
  | _ => None
  end.

Inductive Protocol : Type := Http2 | Http3.

#[export] Instance Protocol_eq_dec : EqDecision Protocol.
Proof. solve_decision. Defined.

Definition protocol_as_u8 (p : Protocol) : Z :=
  match p with Http2 => 0x01 | Http3 => 0x02 end.

Definition protocol_from_u8 (value : Z) : result DeepLinkError Protocol :=
  match value with
  | 0x01 => Ok Http2
  | 0x02 => Ok Http3
  | _ => Err (InvalidProtocol value)
  end.

(** [FromStr] and [Display] of [Protocol]. *)
Definition protocol_from_str (s : bytes) : result DeepLinkError Protocol :=
  if decide (s = str "http2") then Ok Http2
  else if decide (s = str "http3") then Ok Http3
  else Err InvalidAddress.

Definition protocol_to_string (p : Protocol) : bytes :=
  match p with Http2 => str "http2" | Http3 => str "http3" end.

Definition CURRENT_VERSION : Z := 2.

Record DeepLinkConfig : Type := mkConfig {
  hostname : option bytes;
  addresses : list bytes;
  username : option bytes;
  password : option bytes;
  client_random_prefix : option bytes;
  client_random_auth_key : option bytes;
  custom_sni : option bytes;
  has_ipv6 : bool;
  skip_verification : bool;
  certificate : option bytes;
  upstream_protocol : Protocol;
  anti_dpi : bool;
  name : option bytes;
  dns_upstreams : list bytes;
  subscription_url : option bytes
}.

#[export] Instance DeepLinkConfig_eq_dec : EqDecision DeepLinkConfig.
Proof. solve_decision. Defined.

(** [o.as_deref().is_none_or(str::is_empty)]. *)
Definition none_or_empty (o : option bytes) : bool :=
  match o with Some (_ :: _) => false | _ => true end.

Definition validate (self : DeepLinkConfig) : result DeepLinkError unit :=
  match subscription_url self with
  | Some url =>
      if negb (starts_with (str "https://") url) then Err (InvalidSubscriptionUrl url)
      else Ok tt
  | None =>
      if none_or_empty (hostname self) then Err (MissingRequiredField (str "hostname"))
      else if decide (addresses self = []) then Err (MissingRequiredField (str "addresses"))
      else if none_or_empty (username self) then Err (MissingRequiredField (str "username"))
      else if none_or_empty (password self) then Err (MissingRequiredField (str "password"))
      else Ok tt
  end.

(** ** Builder *)

Record DeepLinkConfigBuilder : Type := mkBuilder {
  b_hostname : option bytes;
  b_addresses : option (list bytes);
  b_username : option bytes;
  b_password : option bytes;
  b_client_random_prefix : option bytes;
  b_client_random_auth_key : option bytes;
  b_custom_sni : option bytes;
  b_has_ipv6 : option bool;
  b_skip_verification : option bool;
  b_certificate : option bytes;
  b_upstream_protocol : option Protocol;
  b_anti_dpi : option bool;
  b_name : option bytes;
  b_dns_upstreams : option (list bytes);
  b_subscription_url : option bytes
}.

Definition builder : DeepLinkConfigBuilder :=
  mkBuilder None None None None None None None None None None None None None None None.

Definition set_hostname (x : bytes) (b : DeepLinkConfigBuilder) : DeepLinkConfigBuilder :=
  mkBuilder (Some x) (b_addresses b) (b_username b) (b_password b)
    (b_client_random_prefix b) (b_client_random_auth_key b) (b_custom_sni b) (b_has_ipv6
    b) (b_skip_verification b) (b_certificate b) (b_upstream_protocol b) (b_anti_dpi b)
    (b_name b) (b_dns_upstreams b) (b_subscription_url b).
Definition set_addresses (x : list bytes) (b : DeepLinkConfigBuilder) : DeepLinkConfigBuilder :=
  mkBuilder (b_hostname b) (Some x) (b_username b) (b_password b)
    (b_client_random_prefix b) (b_client_random_auth_key b) (b_custom_sni b) (b_has_ipv6
    b) (b_skip_verification b) (b_certificate b) (b_upstream_protocol b) (b_anti_dpi b)
    (b_name b) (b_dns_upstreams b) (b_subscription_url b).
Definition set_username (x : bytes) (b : DeepLinkConfigBuilder) : DeepLinkConfigBuilder :=
  mkBuilder (b_hostname b) (b_addresses b) (Some x) (b_password b)
    (b_client_random_prefix b) (b_client_random_auth_key b) (b_custom_sni b) (b_has_ipv6
    b) (b_skip_verification b) (b_certificate b) (b_upstream_protocol b) (b_anti_dpi b)
    (b_name b) (b_dns_upstreams b) (b_subscription_url b).
Definition set_password (x : bytes) (b : DeepLinkConfigBuilder) : DeepLinkConfigBuilder :=
  mkBuilder (b_hostname b) (b_addresses b) (b_username b) (Some x)
    (b_client_random_prefix b) (b_client_random_auth_key b) (b_custom_sni b) (b_has_ipv6
    b) (b_skip_verification b) (b_certificate b) (b_upstream_protocol b) (b_anti_dpi b)
    (b_name b) (b_dns_upstreams b) (b_subscription_url b).
Definition set_client_random_prefix (x : option bytes) (b : DeepLinkConfigBuilder) : DeepLinkConfigBuilder :=
  mkBuilder (b_hostname b) (b_addresses b) (b_username b) (b_password b) x
    (b_client_random_auth_key b) (b_custom_sni b) (b_has_ipv6 b) (b_skip_verification b)
    (b_certificate b) (b_upstream_protocol b) (b_anti_dpi b) (b_name b) (b_dns_upstreams
    b) (b_subscription_url b).
Definition set_client_random_auth_key (x : option bytes) (b : DeepLinkConfigBuilder) : DeepLinkConfigBuilder :=
  mkBuilder (b_hostname b) (b_addresses b) (b_username b) (b_password b)
    (b_client_random_prefix b) x (b_custom_sni b) (b_has_ipv6 b) (b_skip_verification b)
    (b_certificate b) (b_upstream_protocol b) (b_anti_dpi b) (b_name b) (b_dns_upstreams
    b) (b_subscription_url b).
Definition set_custom_sni (x : option bytes) (b : DeepLinkConfigBuilder) : DeepLinkConfigBuilder :=
  mkBuilder (b_hostname b) (b_addresses b) (b_username b) (b_password b)
    (b_client_random_prefix b) (b_client_random_auth_key b) x (b_has_ipv6 b)
    (b_skip_verification b) (b_certificate b) (b_upstream_protocol b) (b_anti_dpi b)
    (b_name b) (b_dns_upstreams b) (b_subscription_url b).
Definition set_has_ipv6 (x : bool) (b : DeepLinkConfigBuilder) : DeepLinkConfigBuilder :=
  mkBuilder (b_hostname b) (b_addresses b) (b_username b) (b_password b)
    (b_client_random_prefix b) (b_client_random_auth_key b) (b_custom_sni b) (Some x)
    (b_skip_verification b) (b_certificate b) (b_upstream_protocol b) (b_anti_dpi b)
    (b_name b) (b_dns_upstreams b) (b_subscription_url b).
Definition set_skip_verification (x : bool) (b : DeepLinkConfigBuilder) : DeepLinkConfigBuilder :=
  mkBuilder (b_hostname b) (b_addresses b) (b_username b) (b_password b)
    (b_client_random_prefix b) (b_client_random_auth_key b) (b_custom_sni b) (b_has_ipv6
    b) (Some x) (b_certificate b) (b_upstream_protocol b) (b_anti_dpi b) (b_name b)
    (b_dns_upstreams b) (b_subscription_url b).
Definition set_certificate (x : option bytes) (b : DeepLinkConfigBuilder) : DeepLinkConfigBuilder :=
  mkBuilder (b_hostname b) (b_addresses b) (b_username b) (b_password b)
    (b_client_random_prefix b) (b_client_random_auth_key b) (b_custom_sni b) (b_has_ipv6
    b) (b_skip_verification b) x (b_upstream_protocol b) (b_anti_dpi b) (b_name b)
    (b_dns_upstreams b) (b_subscription_url b).
Definition set_upstream_protocol (x : Protocol) (b : DeepLinkConfigBuilder) : DeepLinkConfigBuilder :=
  mkBuilder (b_hostname b) (b_addresses b) (b_username b) (b_password b)
    (b_client_random_prefix b) (b_client_random_auth_key b) (b_custom_sni b) (b_has_ipv6
    b) (b_skip_verification b) (b_certificate b) (Some x) (b_anti_dpi b) (b_name b)
    (b_dns_upstreams b) (b_subscription_url b).
Definition set_anti_dpi (x : bool) (b : DeepLinkConfigBuilder) : DeepLinkConfigBuilder :=
  mkBuilder (b_hostname b) (b_addresses b) (b_username b) (b_password b)
    (b_client_random_prefix b) (b_client_random_auth_key b) (b_custom_sni b) (b_has_ipv6
    b) (b_skip_verification b) (b_certificate b) (b_upstream_protocol b) (Some x)
    (b_name b) (b_dns_upstreams b) (b_subscription_url b).
Definition set_name (x : option bytes) (b : DeepLinkConfigBuilder) : DeepLinkConfigBuilder :=
  mkBuilder (b_hostname b) (b_addresses b) (b_username b) (b_password b)
    (b_client_random_prefix b) (b_client_random_auth_key b) (b_custom_sni b) (b_has_ipv6
    b) (b_skip_verification b) (b_certificate b) (b_upstream_protocol b) (b_anti_dpi b)
    x (b_dns_upstreams b) (b_subscription_url b).
Definition set_dns_upstreams (x : list bytes) (b : DeepLinkConfigBuilder) : DeepLinkConfigBuilder :=
  mkBuilder (b_hostname b) (b_addresses b) (b_username b) (b_password b)
    (b_client_random_prefix b) (b_client_random_auth_key b) (b_custom_sni b) (b_has_ipv6
    b) (b_skip_verification b) (b_certificate b) (b_upstream_protocol b) (b_anti_dpi b)
    (b_name b) (Some x) (b_subscription_url b).
Definition set_subscription_url (x : option bytes) (b : DeepLinkConfigBuilder) : DeepLinkConfigBuilder :=
  mkBuilder (b_hostname b) (b_addresses b) (b_username b) (b_password b)
    (b_client_random_prefix b) (b_client_random_auth_key b) (b_custom_sni b) (b_has_ipv6
    b) (b_skip_verification b) (b_certificate b) (b_upstream_protocol b) (b_anti_dpi b)
    (b_name b) (b_dns_upstreams b) x.

Section HexCodec.
Variable hex_decode : bytes -> option bytes.

(** The hex check that [build] performs on a present, non-empty string. *)
Definition check_hex (o : option bytes) : result DeepLinkError unit :=
  match o with
  | Some (c :: s) =>
      match hex_decode (c :: s) with Some _ => Ok tt | None => Err InvalidAddress end
  | _ => Ok tt
  end.

Definition build (self : DeepLinkConfigBuilder) : result DeepLinkError DeepLinkConfig :=
  let? _ := check_hex (b_client_random_prefix self) in
  let? _ := check_hex (b_client_random_auth_key self) in
  let config :=
    mkConfig (b_hostname self) (default [] (b_addresses self)) (b_username self)
      (b_password self) (b_client_random_prefix self) (b_client_random_auth_key self)
      (b_custom_sni self) (default true (b_has_ipv6 self))
      (default false (b_skip_verification self)) (b_certificate self)
      (default Http2 (b_upstream_protocol self)) (default false (b_anti_dpi self))
      (b_name self) (default [] (b_dns_upstreams self)) (b_subscription_url self) in
  let? _ := validate config in
  Ok config.

(** ** Encoder *)

Definition encode_tlv (tag : TlvTag) (value : bytes) : result DeepLinkError bytes :=
  let? t := encode_varint (tag_as_u8 tag) in
  let? l := encode_varint (len value) in
  Ok (t ++ l ++ value).

Definition encode_string_field (tag : TlvTag) (value : bytes) := encode_tlv tag value.

Definition encode_bool_field (tag : TlvTag) (value : bool) :=
  encode_tlv tag (if value then [0x01] else [0x00]).

Definition encode_protocol_field (protocol : Protocol) :=
  encode_tlv UpstreamProtocol [protocol_as_u8 protocol].

Fixpoint encode_string_array (strings : list bytes) : result DeepLinkError bytes :=
  match strings with
  | [] => Ok []
  | s :: strings =>
      let? l := encode_varint (len s) in
      let? rest := encode_string_array strings in
      Ok (l ++ s ++ rest)
  end.

(** [if let Some(ref x) = o { payload.extend(f(x)?) }] and the [for] loop over
    the addresses. *)
Definition encode_opt (f : bytes -> result DeepLinkError bytes) (o : option bytes)
    : result DeepLinkError bytes :=
  match o with Some x => f x | None => Ok [] end.

Definition encode_nonempty (f : bytes -> result DeepLinkError bytes) (o : option bytes)
    : result DeepLinkError bytes :=
  match o with Some (c :: x) => f (c :: x) | _ => Ok [] end.

Fixpoint encode_each (f : bytes -> result DeepLinkError bytes) (l : list bytes)
    : result DeepLinkError bytes :=
  match l with
  | [] => Ok []
  | x :: l => let? e := f x in let? rest := encode_each f l in Ok (e ++ rest)
  end.

Definition encode_tlv_payload (config : DeepLinkConfig) : result DeepLinkError bytes :=
  let? _ := validate config in
  let? version_bytes := encode_varint CURRENT_VERSION in
  let? p0 := encode_tlv Version version_bytes in
  let? p1 := encode_opt (encode_string_field Hostname) (hostname config) in
  let? p2 := encode_opt (encode_string_field Username) (username config) in
  let? p3 := encode_opt (encode_string_field Password) (password config) in
  let? p4 := encode_each (encode_string_field Address) (addresses config) in
  let? p5 := encode_nonempty (encode_string_field ClientRandomPrefix)
               (client_random_prefix config) in
  let? p6 := encode_nonempty (encode_string_field ClientRandomAuthKey)
               (client_random_auth_key config) in
  let? p7 := encode_opt (encode_string_field CustomSni) (custom_sni config) in
  let? p8 := if has_ipv6 config then Ok [] else encode_bool_field HasIpv6 false in
  let? p9 := if skip_verification config then encode_bool_field SkipVerification true
             else Ok [] in
  let? p10 := if anti_dpi config then encode_bool_field AntiDpi true else Ok [] in
  let? p11 := encode_opt (encode_tlv Certificate) (certificate config) in
  let? p12 := if decide (upstream_protocol config = Http2) then Ok []
              else encode_protocol_field (upstream_protocol config) in
  let? p13 := encode_opt (encode_string_field Name) (name config) in
  let? p14 := if decide (dns_upstreams config = []) then Ok []
              else let? value := encode_string_array (dns_upstreams config) in
                   encode_tlv DnsUpstreams value in
  let? p15 := encode_opt (encode_string_field SubscriptionUrl) (subscription_url config) in
  Ok (p0 ++ p1 ++ p2 ++ p3 ++ p4 ++ p5 ++ p6 ++ p7 ++ p8 ++ p9 ++ p10 ++ p11 ++ p12
      ++ p13 ++ p14 ++ p15).

(** ** Decoder *)

Definition lift_io {A} (m : M (result ErrorKind A)) : M (result DeepLinkError A) :=
  let! r := m in Ret (map_err Io r).

Definition decode_string (data : bytes) : result DeepLinkError bytes :=
  if utf8_valid data then Ok data else Err InvalidUtf8.

(** The [while offset < data.len()] loop of [decode_string_array]; [fuel] bounds
    the iterations. *)
Fixpoint decode_string_array_loop (fuel : nat) (data : bytes) (offset : Z)
    (result : list bytes) : M (Prelude.result DeepLinkError (list bytes)) :=
  if len data <=? offset then Ret (Ok result)
  else
    match fuel with
    | O => Panic
    | S fuel =>
        let!? (n, offset) := lift_io (decode_varint data offset) in
        if len data <? offset + n then Ret (Err (TruncatedListEntry n (len data - offset)))
        else
          let! s := slice data offset (offset + n) in
          let!? s := Ret (decode_string s) in
          decode_string_array_loop fuel data (offset + n) (result ++ [s])
    end.

Definition decode_string_array (data : bytes) : M (Prelude.result DeepLinkError (list bytes)) :=
  decode_string_array_loop (length data) data 0 [].

Definition decode_bool (data : bytes) : Prelude.result DeepLinkError bool :=
  match data with
  | [0x00] => Ok false
  | [0x01] => Ok true
  | [] => Err (InvalidBoolean 0xFF)
  | byte :: _ => Err (InvalidBoolean byte)
  end.

Definition decode_protocol (data : bytes) : Prelude.result DeepLinkError Protocol :=
  match data with
  | [b] => protocol_from_u8 b
  | [] => Err (InvalidProtocol 0xFF)
  | b :: _ => Err (InvalidProtocol b)
  end.

Record TlvParser : Type := mkParser { data : bytes; offset : Z }.

Definition parser_new (d : bytes) : TlvParser := mkParser d 0.

(** [None] is the end of the data; the parser is returned as [&mut self] leaves it. *)
Definition next_field (self : TlvParser)
    : M (option (Prelude.result DeepLinkError (option TlvTag * bytes)) * TlvParser) :=
  let d := data self in
  if len d <=? offset self then Ret (None, self)
  else
    let! r := decode_varint d (offset self) in
    match r with
    | Err e => Ret (Some (Err (Io e)), self)
    | Ok (tag_u64, o1) =>
        let tag := tag_from_u8 (as_u8 tag_u64) in
        let! r := decode_varint d o1 in
        match r with
        | Err e => Ret (Some (Err (Io e)), mkParser d o1)
        | Ok (length, o2) =>
            if len d <? o2 + length then
              Ret (Some (Err (TruncatedTlv (as_u8 tag_u64) length (len d - o2))), mkParser d o2)
            else
              let! value := slice d o2 (o2 + length) in
              Ret (Some (Ok (tag, value)), mkParser d (o2 + length))
        end
    end.

Definition with_hostname (x : option bytes) (c : DeepLinkConfig) : DeepLinkConfig :=
  mkConfig x (addresses c) (username c) (password c) (client_random_prefix c)
    (client_random_auth_key c) (custom_sni c) (has_ipv6 c) (skip_verification c)
    (certificate c) (upstream_protocol c) (anti_dpi c) (name c) (dns_upstreams c)
    (subscription_url c).
Definition with_addresses (x : list bytes) (c : DeepLinkConfig) : DeepLinkConfig :=
  mkConfig (hostname c) x (username c) (password c) (client_random_prefix c)
    (client_random_auth_key c) (custom_sni c) (has_ipv6 c) (skip_verification c)
    (certificate c) (upstream_protocol c) (anti_dpi c) (name c) (dns_upstreams c)
    (subscription_url c).
Definition with_username (x : option bytes) (c : DeepLinkConfig) : DeepLinkConfig :=
  mkConfig (hostname c) (addresses c) x (password c) (client_random_prefix c)
    (client_random_auth_key c) (custom_sni c) (has_ipv6 c) (skip_verification c)
    (certificate c) (upstream_protocol c) (anti_dpi c) (name c) (dns_upstreams c)
    (subscription_url c).
Definition with_password (x : option bytes) (c : DeepLinkConfig) : DeepLinkConfig :=
  mkConfig (hostname c) (addresses c) (username c) x (client_random_prefix c)
    (client_random_auth_key c) (custom_sni c) (has_ipv6 c) (skip_verification c)
    (certificate c) (upstream_protocol c) (anti_dpi c) (name c) (dns_upstreams c)
    (subscription_url c).
Definition with_client_random_prefix (x : option bytes) (c : DeepLinkConfig) : DeepLinkConfig :=
  mkConfig (hostname c) (addresses c) (username c) (password c) x
    (client_random_auth_key c) (custom_sni c) (has_ipv6 c) (skip_verification c)
    (certificate c) (upstream_protocol c) (anti_dpi c) (name c) (dns_upstreams c)
    (subscription_url c).
Definition with_client_random_auth_key (x : option bytes) (c : DeepLinkConfig) : DeepLinkConfig :=
  mkConfig (hostname c) (addresses c) (username c) (password c) (client_random_prefix c)
    x (custom_sni c) (has_ipv6 c) (skip_verification c) (certificate c)
    (upstream_protocol c) (anti_dpi c) (name c) (dns_upstreams c) (subscription_url c).
Definition with_custom_sni (x : option bytes) (c : DeepLinkConfig) : DeepLinkConfig :=
  mkConfig (hostname c) (addresses c) (username c) (password c) (client_random_prefix c)
    (client_random_auth_key c) x (has_ipv6 c) (skip_verification c) (certificate c)
    (upstream_protocol c) (anti_dpi c) (name c) (dns_upstreams c) (subscription_url c).
Definition with_has_ipv6 (x : bool) (c : DeepLinkConfig) : DeepLinkConfig :=
  mkConfig (hostname c) (addresses c) (username c) (password c) (client_random_prefix c)
    (client_random_auth_key c) (custom_sni c) x (skip_verification c) (certificate c)
    (upstream_protocol c) (anti_dpi c) (name c) (dns_upstreams c) (subscription_url c).
Definition with_skip_verification (x : bool) (c : DeepLinkConfig) : DeepLinkConfig :=
  mkConfig (hostname c) (addresses c) (username c) (password c) (client_random_prefix c)
    (client_random_auth_key c) (custom_sni c) (has_ipv6 c) x (certificate c)
    (upstream_protocol c) (anti_dpi c) (name c) (dns_upstreams c) (subscription_url c).
Definition with_certificate (x : option bytes) (c : DeepLinkConfig) : DeepLinkConfig :=
  mkConfig (hostname c) (addresses c) (username c) (password c) (client_random_prefix c)
    (client_random_auth_key c) (custom_sni c) (has_ipv6 c) (skip_verification c) x
    (upstream_protocol c) (anti_dpi c) (name c) (dns_upstreams c) (subscription_url c).
Definition with_upstream_protocol (x : Protocol) (c : DeepLinkConfig) : DeepLinkConfig :=
  mkConfig (hostname c) (addresses c) (username c) (password c) (client_random_prefix c)
    (client_random_auth_key c) (custom_sni c) (has_ipv6 c) (skip_verification c)
    (certificate c) x (anti_dpi c) (name c) (dns_upstreams c) (subscription_url c).
Definition with_anti_dpi (x : bool) (c : DeepLinkConfig) : DeepLinkConfig :=
  mkConfig (hostname c) (addresses c) (username c) (password c) (client_random_prefix c)
    (client_random_auth_key c) (custom_sni c) (has_ipv6 c) (skip_verification c)
    (certificate c) (upstream_protocol c) x (name c) (dns_upstreams c) (subscription_url
    c).
Definition with_name (x : option bytes) (c : DeepLinkConfig) : DeepLinkConfig :=
  mkConfig (hostname c) (addresses c) (username c) (password c) (client_random_prefix c)
    (client_random_auth_key c) (custom_sni c) (has_ipv6 c) (skip_verification c)
    (certificate c) (upstream_protocol c) (anti_dpi c) x (dns_upstreams c)
    (subscription_url c).
Definition with_dns_upstreams (x : list bytes) (c : DeepLinkConfig) : DeepLinkConfig :=
  mkConfig (hostname c) (addresses c) (username c) (password c) (client_random_prefix c)
    (client_random_auth_key c) (custom_sni c) (has_ipv6 c) (skip_verification c)
    (certificate c) (upstream_protocol c) (anti_dpi c) (name c) x (subscription_url c).
Definition with_subscription_url (x : option bytes) (c : DeepLinkConfig) : DeepLinkConfig :=
  mkConfig (hostname c) (addresses c) (username c) (password c) (client_random_prefix c)
    (client_random_auth_key c) (custom_sni c) (has_ipv6 c) (skip_verification c)
    (certificate c) (upstream_protocol c) (anti_dpi c) (name c) (dns_upstreams c) x.

(** The initial values of the decoder's variables. *)
Definition initial : DeepLinkConfig :=
  mkConfig None [] None None None None None true false None Http2 false None [] None.

Definition hex_or_invalid (s : bytes) : Prelude.result DeepLinkError bytes :=
  match hex_decode s with Some b => Ok b | None => Err InvalidAddress end.

(** The body of the decoder's [match tag]; the fifteen variables are a
    [DeepLinkConfig]. *)
Definition apply_field (c : DeepLinkConfig) (tag : TlvTag) (value : bytes)
    : M (Prelude.result DeepLinkError DeepLinkConfig) :=
  match tag with
  | Version =>
      let!? (v, _) := lift_io (decode_varint value 0) in
      if CURRENT_VERSION <? v then Ret (Err (UnsupportedVersion v CURRENT_VERSION))
      else Ret (Ok c)
  | Hostname => Ret (let? s := decode_string value in Ok (with_hostname (Some s) c))
  | Address =>
      Ret (let? s := decode_string value in Ok (with_addresses (addresses c ++ [s]) c))
  | CustomSni => Ret (let? s := decode_string value in Ok (with_custom_sni (Some s) c))
  | HasIpv6 => Ret (let? b := decode_bool value in Ok (with_has_ipv6 b c))
  | Username => Ret (let? s := decode_string value in Ok (with_username (Some s) c))
  | Password => Ret (let? s := decode_string value in Ok (with_password (Some s) c))
  | SkipVerification =>
      Ret (let? b := decode_bool value in Ok (with_skip_verification b c))
  | Certificate => Ret (Ok (with_certificate (Some value) c))
  | UpstreamProtocol =>
      Ret (let? p := decode_protocol value in Ok (with_upstream_protocol p c))
  | AntiDpi => Ret (let? b := decode_bool value in Ok (with_anti_dpi b c))
  | ClientRandomPrefix =>
      Ret (let? prefix := decode_string value in
           let (prefix_part, mask_part) := default (prefix, []) (split_once 0x2F prefix) in
           let? _ := hex_or_invalid prefix_part in
           let? _ := hex_or_invalid mask_part in
           Ok (with_client_random_prefix (Some prefix) c))
  | ClientRandomAuthKey =>
      Ret (let? auth_key := decode_string value in
           let? _ := hex_or_invalid auth_key in
           Ok (with_client_random_auth_key (Some auth_key) c))
  | Name => Ret (let? s := decode_string value in Ok (with_name (Some s) c))
  | DnsUpstreams =>
      let!? l := decode_string_array value in Ret (Ok (with_dns_upstreams l c))
  | SubscriptionUrl =>
      Ret (let? s := decode_string value in Ok (with_subscription_url (Some s) c))
  end.

(** The [while let Some(field_result) = parser.next_field()] loop. *)
Fixpoint decode_loop (fuel : nat) (parser : TlvParser) (c : DeepLinkConfig)
    : M (Prelude.result DeepLinkError DeepLinkConfig) :=
  let! (field_result, parser) := next_field parser in
  match field_result, fuel with
  | None, _ => Ret (Ok c)
  | Some _, O => Panic
  | Some (Err e), S _ => Ret (Err e)
  | Some (Ok (None, _)), S fuel => decode_loop fuel parser c
  | Some (Ok (Some tag, value)), S fuel =>
      let!? c := apply_field c tag value in decode_loop fuel parser c
  end.

Definition decode_tlv_payload (payload : bytes)
    : M (Prelude.result DeepLinkError DeepLinkConfig) :=
  let!? config := decode_loop (length payload) (parser_new payload) initial in
  Ret (let? _ := validate config in Ok config).

(** ** URI layer *)

Section Base64Codec.
Variable b64_encode : bytes -> bytes.
Variable b64_decode : bytes -> option bytes.

Definition PREFIX : bytes := str "tt://?".

Definition encode_base64url (payload : bytes) : bytes := b64_encode payload.

Definition encode (config : DeepLinkConfig) : Prelude.result DeepLinkError bytes :=
  let? payload := encode_tlv_payload config in
  Ok (PREFIX ++ encode_base64url payload).

Definition decode (uri : bytes) : M (Prelude.result DeepLinkError DeepLinkConfig) :=
  if negb (starts_with (str "tt://") uri) then Ret (Err InvalidScheme)
  else
    match strip_prefix (str "tt://?") uri ∪ strip_prefix (str "tt://") uri with
    | None => Ret (Err InvalidScheme)
    | Some encoded =>
        match b64_decode encoded with
        | None => Ret (Err InvalidBase64)
        | Some payload => decode_tlv_payload payload
        end
    end.

End Base64Codec.
End HexCodec.


(** ** Reference description of a payload: the list of its TLV fields *)

Abbreviation field := (TlvTag * bytes)%type.

Fixpoint encode_fields (l : list field) : result DeepLinkError bytes :=
  match l with
  | [] => Ok []
  | (t, v) :: l => let? e := encode_tlv t v in let? rest := encode_fields l in Ok (e ++ rest)
  end.

Fixpoint apply_fields (hex : bytes -> option bytes) (c : DeepLinkConfig) (l : list field)
    : M (result DeepLinkError DeepLinkConfig) :=
  match l with
  | [] => Ret (Ok c)
  | (t, v) :: l => let!? c := apply_field hex c t v in apply_fields hex c l
  end.

Definition opt_field (t : TlvTag) (o : option bytes) : list field :=
  match o with Some x => [(t, x)] | None => [] end.

(** [Some ""] is dropped by the encoder for the two client-random fields. *)
Definition drop_empty (o : option bytes) : option bytes :=
  match o with Some [] => None | _ => o end.

Definition normalise (c : DeepLinkConfig) : DeepLinkConfig :=
  with_client_random_prefix (drop_empty (client_random_prefix c))
    (with_client_random_auth_key (drop_empty (client_random_auth_key c)) c).

(** The type invariant of Rust strings, on every string of a configuration. *)
Definition opt_utf8 (o : option bytes) : bool :=
  match o with Some s => utf8_valid s | None => true end.

Definition strings_valid (c : DeepLinkConfig) : bool :=
  opt_utf8 (hostname c) && forallb utf8_valid (addresses c) && opt_utf8 (username c)
  && opt_utf8 (password c) && opt_utf8 (client_random_prefix c)
  && opt_utf8 (client_random_auth_key c) && opt_utf8 (custom_sni c) && opt_utf8 (name c)
  && forallb utf8_valid (dns_upstreams c) && opt_utf8 (subscription_url c).

(** The hex format the decoder checks: [prefix[/mask]] and a plain hex key. *)
Definition hex_ok (hex : bytes -> option bytes) (s : bytes) : bool :=
  match hex s with Some _ => true | None => false end.

Definition prefix_hex_ok (hex : bytes -> option bytes) (p : bytes) : bool :=
  let (a, b) := default (p, []) (split_once 0x2F p) in hex_ok hex a && hex_ok hex b.

Definition hex_valid (hex : bytes -> option bytes) (c : DeepLinkConfig) : bool :=
  match drop_empty (client_random_prefix c) with Some p => prefix_hex_ok hex p | None => true end
  && match drop_empty (client_random_auth_key c) with Some k => hex_ok hex k | None => true end.

(** ** Lemmas on the TLV layer *)

Lemma bindR_Ok {E A B} (r : result E A) (f : A -> result E B) b :
  bindR r f = Ok b -> exists a, r = Ok a /\ f a = Ok b.
Proof. destruct r; [eauto|done]. Qed.

Ltac inv_bindR H :=
  let a := fresh "p" in let E := fresh "E" in
  apply bindR_Ok in H as (a & E & H).

Lemma tag_as_u8_bound t : 0 <= tag_as_u8 t < 16.
Proof. destruct t; simpl; lia. Qed.

Lemma tag_roundtrip t : tag_from_u8 (tag_as_u8 t) = Some t.
Proof. by destruct t. Qed.

(** A TLV with an arbitrary tag number, as a newer encoder may write it. *)
Definition encode_raw (n : Z) (value : bytes) : result DeepLinkError bytes :=
  let? t := encode_varint n in
  let? l := encode_varint (len value) in
  Ok (t ++ l ++ value).

Lemma next_field_raw n v enc pre post :
  0 <= n -> encode_raw n v = Ok enc ->
  next_field (mkParser (pre ++ enc ++ post) (len pre)) =
    Ret (Some (Ok (tag_from_u8 (as_u8 n), v)), mkParser (pre ++ enc ++ post) (len (pre ++ enc))).
Proof.
  intros Hn He. unfold encode_raw in He. inv_bindR He. inv_bindR He.
  rename p into te, p0 into le. injection He as <-.
  pose proof (len_nonneg v) as Hv.
  destruct (encode_varint_inv _ _ Hn E) as (_ & _ & Hte).
  unfold next_field. cbn [data offset].
  rewrite (proj2 (Z.leb_gt _ _)) by (rewrite !len_app; pose proof (len_nonneg le);
    pose proof (len_nonneg post); lia).
  rewrite <- !(app_assoc te), (decode_encode_varint pre _ n te) by done.
  cbn [bindM].
  rewrite (app_assoc pre te), <- !(app_assoc le), <- len_app.
  rewrite (decode_encode_varint (pre ++ te) _ (len v) le) by done. cbn [bindM].
  rewrite (proj2 (Z.ltb_ge _ _)) by (rewrite !len_app; pose proof (len_nonneg post); lia).
  rewrite (app_assoc (pre ++ te) le), <- len_app, slice_app. cbn [bindM].
  by rewrite <- len_app, <- !app_assoc.
Qed.

Lemma next_field_encoded t v enc pre post :
  encode_tlv t v = Ok enc ->
  next_field (mkParser (pre ++ enc ++ post) (len pre)) =
    Ret (Some (Ok (Some t, v)), mkParser (pre ++ enc ++ post) (len (pre ++ enc))).
Proof.
  intros He. pose proof (tag_as_u8_bound t).
  rewrite (next_field_raw (tag_as_u8 t) v) by (done || lia).
  unfold as_u8. by rewrite Z.mod_small, tag_roundtrip by (change (2 ^ 8) with 256; lia).
Qed.

Lemma encode_tlv_len t v enc : encode_tlv t v = Ok enc -> (0 < length enc)%nat.
Proof.
  unfold encode_tlv. intros He. inv_bindR He. inv_bindR He. injection He as <-.
  pose proof (tag_as_u8_bound t). apply encode_varint_inv in E as (_ & _ & H2); [|lia]. len_lia.
Qed.

Lemma encode_fields_len l enc : encode_fields l = Ok enc -> (length l <= length enc)%nat.
Proof.
  revert enc. induction l as [|[t v] l IH]; intros enc He; simpl in *; [lia|].
  inv_bindR He. inv_bindR He. injection He as <-. rewrite length_app.
  apply encode_tlv_len in E. specialize (IH _ E0). lia.
Qed.

Lemma decode_loop_fields hex l enc fuel pre c :
  encode_fields l = Ok enc -> (length l <= fuel)%nat ->
  decode_loop hex fuel (mkParser (pre ++ enc) (len pre)) c = apply_fields hex c l.
Proof.
  revert enc fuel pre c. induction l as [|[t v] l IH]; intros enc fuel pre c He Hf; simpl in He.
  - injection He as <-. rewrite app_nil_r.
    destruct fuel; simpl; unfold next_field; simpl; by rewrite Z.leb_refl.
  - inv_bindR He. inv_bindR He. injection He as <-. simpl in Hf.
    destruct fuel as [|fuel]; [lia|]. simpl.
    rewrite (next_field_encoded t v) by done. cbn [bindM].
    destruct (apply_field hex c t v) as [[c'|e]|]; simpl; [|done..].
    rewrite app_assoc. apply IH; [done|lia].
Qed.

Lemma encode_fields_app l1 l2 p1 p2 :
  encode_fields l1 = Ok p1 -> encode_fields l2 = Ok p2 ->
  encode_fields (l1 ++ l2) = Ok (p1 ++ p2).
Proof.
  revert p1. induction l1 as [|[t v] l IH]; intros p1 H1 H2; simpl in *.
  - by injection H1 as <-.
  - inv_bindR H1. inv_bindR H1. injection H1 as <-. rewrite E, (IH _ E0 H2). simpl.
    by rewrite app_assoc.
Qed.

Lemma encode_fields_one t v p : encode_tlv t v = Ok p -> encode_fields [(t, v)] = Ok p.
Proof. simpl. intros ->. simpl. by rewrite app_nil_r. Qed.

Lemma encode_opt_fields t o p :
  encode_opt (encode_tlv t) o = Ok p -> encode_fields (opt_field t o) = Ok p.
Proof. destruct o; simpl; [apply encode_fields_one|done]. Qed.

Lemma encode_nonempty_fields t o p :
  encode_nonempty (encode_tlv t) o = Ok p -> encode_fields (opt_field t (drop_empty o)) = Ok p.
Proof. destruct o as [[|c s]|]; simpl; [done| |done]. apply encode_fields_one. Qed.

Lemma encode_each_fields t l p :
  encode_each (encode_tlv t) l = Ok p -> encode_fields ((fun x => (t, x)) <$> l) = Ok p.
Proof.
  revert p. induction l as [|x l IH]; intros p Hp; simpl in Hp; [done|].
  inv_bindR Hp. inv_bindR Hp. injection Hp as <-. csimpl. by rewrite E, (IH _ E0).
Qed.

Lemma encode_if_fields (b : bool) t v p :
  (if b then encode_tlv t v else Ok []) = Ok p ->
  encode_fields (if b then [(t, v)] else []) = Ok p.
Proof. destruct b; [apply encode_fields_one|done]. Qed.

Lemma encode_if_not_fields (b : bool) t v p :
  (if b then Ok [] else encode_tlv t v) = Ok p ->
  encode_fields (if b then [] else [(t, v)]) = Ok p.
Proof. destruct b; [done|apply encode_fields_one]. Qed.

(** The fields the encoder writes, in order; [dns] is the encoded DNS list. *)
Definition fields_of (c : DeepLinkConfig) (dns : bytes) : list field :=
  [(Version, [2])] ++ opt_field Hostname (hostname c) ++ opt_field Username (username c)
  ++ opt_field Password (password c) ++ ((fun x => (Address, x)) <$> addresses c)
  ++ opt_field ClientRandomPrefix (drop_empty (client_random_prefix c))
  ++ opt_field ClientRandomAuthKey (drop_empty (client_random_auth_key c))
  ++ opt_field CustomSni (custom_sni c)
  ++ (if has_ipv6 c then [] else [(HasIpv6, [0])])
  ++ (if skip_verification c then [(SkipVerification, [1])] else [])
  ++ (if anti_dpi c then [(AntiDpi, [1])] else [])
  ++ opt_field Certificate (certificate c)
  ++ (if bool_decide (upstream_protocol c = Http2) then []
      else [(UpstreamProtocol, [protocol_as_u8 (upstream_protocol c)])])
  ++ opt_field Name (name c)
  ++ (if bool_decide (dns_upstreams c = []) then [] else [(DnsUpstreams, dns)])
  ++ opt_field SubscriptionUrl (subscription_url c).

Lemma encode_payload_fields c p :
  encode_tlv_payload c = Ok p ->
  exists dns, encode_string_array (dns_upstreams c) = Ok dns /\
    encode_fields (fields_of c dns) = Ok p /\ validate c = Ok tt.
Proof.
  unfold encode_tlv_payload, encode_string_field, encode_bool_field, encode_protocol_field.
  intros H. inv_bindR H. destruct p0. inv_bindR H. vm_compute in E0. injection E0 as <-.
  do 16 (let a := fresh "q" in let E := fresh "F" in apply bindR_Ok in H as (a & E & H)).
  injection H as <-.
  assert (exists dns, encode_string_array (dns_upstreams c) = Ok dns /\
    encode_fields (if bool_decide (dns_upstreams c = []) then [] else [(DnsUpstreams, dns)]) = Ok q13)
    as (dns & Hdns & HF).
  { destruct (decide (dns_upstreams c = [])) as [E0|E0].
    - exists []. rewrite (bool_decide_true _ E0), E0. injection F13 as <-. done.
    - inv_bindR F13. exists p. rewrite (bool_decide_false _ E0). split; [done|].
      by apply encode_fields_one. }
  exists dns. split; [done|]. split; [|done]. unfold fields_of.
  repeat apply encode_fields_app; auto using encode_opt_fields, encode_nonempty_fields,
    encode_each_fields, encode_if_fields, encode_if_not_fields, encode_fields_one.
  - destruct (decide (upstream_protocol c = Http2)) as [E0|E0].
    + by rewrite (bool_decide_true _ E0).
    + rewrite (bool_decide_false _ E0). by apply encode_fields_one.
Qed.

(** ** Lemmas on decoding the fields of a configuration *)

Lemma apply_fields_app hex c l1 l2 :
  apply_fields hex c (l1 ++ l2) =
    (let!? c := apply_fields hex c l1 in apply_fields hex c l2).
Proof.
  revert c. induction l1 as [|[t v] l IH]; intros c; simpl; [done|].
  destruct (apply_field hex c t v) as [[c'|e]|]; simpl; [apply IH|done..].
Qed.

Lemma apply_fields_cat hex c l1 l2 c1 r :
  apply_fields hex c l1 = Ret (Ok c1) -> apply_fields hex c1 l2 = r ->
  apply_fields hex c (l1 ++ l2) = r.
Proof. intros H1 H2. by rewrite apply_fields_app, H1. Qed.

Lemma decode_string_valid s : utf8_valid s = true -> decode_string s = Ok s.
Proof. unfold decode_string. by intros ->. Qed.

Lemma decode_string_array_encoded l enc fuel pre acc :
  encode_string_array l = Ok enc -> forallb utf8_valid l = true ->
  (length l <= fuel)%nat ->
  decode_string_array_loop fuel (pre ++ enc) (len pre) acc = Ret (Ok (acc ++ l)).
Proof.
  revert enc fuel pre acc. induction l as [|s l IH]; intros enc fuel pre acc He Hu Hf; simpl in He.
  - injection He as <-. rewrite !app_nil_r. destruct fuel; simpl; by rewrite Z.leb_refl.
  - inv_bindR He. inv_bindR He. injection He as <-. simpl in Hf, Hu.
    apply andb_true_iff in Hu as [Hs Hu]. destruct fuel as [|fuel]; [lia|].
    pose proof (len_nonneg s). pose proof (len_nonneg p0).
    pose proof (encode_varint_inv _ _ H E) as (_ & _ & Hp).
    cbn [decode_string_array_loop].
    rewrite (proj2 (Z.leb_gt _ _)) by (rewrite !len_app; lia).
    unfold lift_io. rewrite (decode_encode_varint pre _ (len s) p) by done. cbn [bindM map_err bindMR].
    rewrite (proj2 (Z.ltb_ge _ _)) by (rewrite !len_app; lia).
    rewrite (app_assoc pre p), <- len_app, slice_app. cbn [bindM].
    rewrite decode_string_valid by done. cbn [bindMR].
    rewrite (app_assoc (pre ++ p) s), <- len_app.
    rewrite (IH p0) by (done || lia). by rewrite <- app_assoc.
Qed.

Lemma encode_string_array_len l enc :
  encode_string_array l = Ok enc -> (length l <= length enc)%nat.
Proof.
  revert enc. induction l as [|s l IH]; intros enc He; simpl in *; [lia|].
  inv_bindR He. inv_bindR He. injection He as <-.
  pose proof (encode_varint_inv _ _ (len_nonneg s) E) as (_ & _ & H).
  specialize (IH _ E0). len_lia.
Qed.

Lemma decode_string_array_roundtrip l enc :
  encode_string_array l = Ok enc -> forallb utf8_valid l = true ->
  decode_string_array enc = Ret (Ok l).
Proof.
  intros He Hu. unfold decode_string_array.
  apply (decode_string_array_encoded l enc (length enc) [] []); auto using encode_string_array_len.
Qed.

Lemma apply_addresses hex l c :
  forallb utf8_valid l = true ->
  apply_fields hex c ((fun x => (Address, x)) <$> l)
    = Ret (Ok (with_addresses (addresses c ++ l) c)).
Proof.
  revert c. induction l as [|s l IH]; intros c Hu; csimpl.
  - rewrite app_nil_r. by destruct c.
  - simpl in Hu. apply andb_true_iff in Hu as [Hs Hu].
    rewrite decode_string_valid by done. simpl. rewrite IH by done. simpl.
    by rewrite <- app_assoc.
Qed.

(** One optional or defaulted field, starting from its default. *)
Ltac field_step x :=
  destruct x; simpl in *; rewrite ?decode_string_valid by done; done.

Lemma step_prefix hex h a u pw ck sni v6 sv cert up ad nm dn url x :
  opt_utf8 x = true ->
  match drop_empty x with Some p => prefix_hex_ok hex p | None => true end = true ->
  apply_fields hex (mkConfig h a u pw None ck sni v6 sv cert up ad nm dn url)
    (opt_field ClientRandomPrefix (drop_empty x)) =
  Ret (Ok (mkConfig h a u pw (drop_empty x) ck sni v6 sv cert up ad nm dn url)).
Proof.
  destruct x as [[|c x]|]; [done| |done].
  cbn [drop_empty opt_utf8 opt_field apply_fields apply_field]. intros Hu Hp.
  rewrite decode_string_valid by done. cbn [bindR]. unfold prefix_hex_ok, hex_or_invalid, hex_ok in *.
  destruct (default (c :: x, []) (split_once 0x2F (c :: x))) as [p m].
  destruct (hex p), (hex m); done.
Qed.

Lemma step_auth_key hex h a u pw cp sni v6 sv cert up ad nm dn url x :
  opt_utf8 x = true ->
  match drop_empty x with Some k => hex_ok hex k | None => true end = true ->
  apply_fields hex (mkConfig h a u pw cp None sni v6 sv cert up ad nm dn url)
    (opt_field ClientRandomAuthKey (drop_empty x)) =
  Ret (Ok (mkConfig h a u pw cp (drop_empty x) sni v6 sv cert up ad nm dn url)).
Proof.
  destruct x as [[|c x]|]; [done| |done].
  cbn [drop_empty opt_utf8 opt_field apply_fields apply_field]. intros Hu Hp.
  rewrite decode_string_valid by done. cbn [bindR]. unfold hex_or_invalid, hex_ok in *.
  by destruct (hex (c :: x)).
Qed.

Lemma step_dns hex h a u pw cp ck sni v6 sv cert up ad nm dn url dns :
  encode_string_array dn = Ok dns -> forallb utf8_valid dn = true ->
  apply_fields hex (mkConfig h a u pw cp ck sni v6 sv cert up ad nm [] url)
    (if bool_decide (dn = []) then [] else [(DnsUpstreams, dns)]) =
  Ret (Ok (mkConfig h a u pw cp ck sni v6 sv cert up ad nm dn url)).
Proof.
  intros He Hu. case_bool_decide; [by subst|].
  simpl. by rewrite (decode_string_array_roundtrip dn).
Qed.

Lemma apply_fields_of hex c dns :
  encode_string_array (dns_upstreams c) = Ok dns ->
  strings_valid c = true -> hex_valid hex c = true ->
  apply_fields hex initial (fields_of c dns) = Ret (Ok (normalise c)).
Proof.
  destruct c as [h a u pw cp ck sni v6 sv cert up ad nm dn url].
  unfold strings_valid, hex_valid, fields_of, normalise. simpl.
  rewrite !andb_true_iff. intros Hdns Hs [Hp Hk].
  destruct Hs as [[[[[[[[[? ?] ?] ?] ?] ?] ?] ?] ?] ?].
  apply (apply_fields_cat hex _ _ _ (mkConfig h [] None None None None None true false None Http2 false None [] None)); [field_step h|].
  apply (apply_fields_cat hex _ _ _ (mkConfig h [] u None None None None true false None Http2 false None [] None)); [field_step u|].
  apply (apply_fields_cat hex _ _ _ (mkConfig h [] u pw None None None true false None Http2 false None [] None)); [field_step pw|].
  apply (apply_fields_cat hex _ _ _ (mkConfig h a u pw None None None true false None Http2 false None [] None)); [by apply (apply_addresses hex a)|].
  apply (apply_fields_cat hex _ _ _ (mkConfig h a u pw (drop_empty cp) None None true false None Http2 false None [] None)); [by apply step_prefix|].
  apply (apply_fields_cat hex _ _ _ (mkConfig h a u pw (drop_empty cp) (drop_empty ck) None true false None Http2 false None [] None)); [by apply step_auth_key|].
  apply (apply_fields_cat hex _ _ _ (mkConfig h a u pw (drop_empty cp) (drop_empty ck) sni true false None Http2 false None [] None)); [field_step sni|].
  apply (apply_fields_cat hex _ _ _ (mkConfig h a u pw (drop_empty cp) (drop_empty ck) sni v6 false None Http2 false None [] None)); [field_step v6|].
  apply (apply_fields_cat hex _ _ _ (mkConfig h a u pw (drop_empty cp) (drop_empty ck) sni v6 sv None Http2 false None [] None)); [field_step sv|].
  apply (apply_fields_cat hex _ _ _ (mkConfig h a u pw (drop_empty cp) (drop_empty ck) sni v6 sv None Http2 ad None [] None)); [field_step ad|].
  apply (apply_fields_cat hex _ _ _ (mkConfig h a u pw (drop_empty cp) (drop_empty ck) sni v6 sv cert Http2 ad None [] None)); [field_step cert|].
  apply (apply_fields_cat hex _ _ _ (mkConfig h a u pw (drop_empty cp) (drop_empty ck) sni v6 sv cert up ad None [] None)); [field_step up|].
  apply (apply_fields_cat hex _ _ _ (mkConfig h a u pw (drop_empty cp) (drop_empty ck) sni v6 sv cert up ad nm [] None)); [field_step nm|].
  apply (apply_fields_cat hex _ _ _ (mkConfig h a u pw (drop_empty cp) (drop_empty ck) sni v6 sv cert up ad nm dn None)); [by apply step_dns|].
  field_step url.
Qed.

(** ** Totality of the decoder *)

Lemma wf_bytes_slice l a b m : wf_bytes l -> slice l a b = Ret m -> wf_bytes m.
Proof.
  unfold slice. destruct (_ && _); [|done]. intros H [= <-].
  by apply Forall_take, Forall_drop.
Qed.

Lemma decode_string_array_total fuel d o acc :
  wf_bytes d -> 0 <= o -> len d - o <= Z.of_nat fuel -> forallb utf8_valid acc = true ->
  exists r, decode_string_array_loop fuel d o acc = Ret r /\
    forall l, r = Ok l -> forallb utf8_valid l = true.
Proof.
  revert o acc. induction fuel as [|fuel IH]; intros o acc Hwf Ho Hf Hacc;
    cbn [decode_string_array_loop]; case_bool; try lia; [by eexists; split; [done|naive_solver]..|].
  destruct (decode_varint_ok d o) as (r & Hr & Hpost); [done|done|].
  unfold lift_io. rewrite Hr. cbn [bindM].
  destruct r as [[n o']|e]; cbn [map_err bindMR]; [|by eexists; split; [done|naive_solver]].
  destruct Hpost as (Hn & Ho' & _).
  case_bool; [by eexists; split; [done|naive_solver]|].
  destruct (slice_ok d o' (o' + n)) as (p & m & t & -> & _); [lia..|]. cbn [bindM].
  unfold decode_string. destruct (utf8_valid m) eqn:Em; cbn [bindMR];
    [|by eexists; split; [done|naive_solver]].
  apply IH; [done|lia|lia|]. rewrite forallb_app, Hacc. simpl. by rewrite Em.
Qed.

Lemma next_field_total d o :
  wf_bytes d -> 0 <= o ->
  exists r p, next_field (mkParser d o) = Ret (r, p) /\
    match r with
    | None => len d <= o
    | Some (Err _) => True
    | Some (Ok (_, v)) =>
        wf_bytes v /\ exists o', p = mkParser d o' /\ o < o' <= len d
    end.
Proof.
  intros Hwf Ho. unfold next_field. cbn [data offset]. case_bool; [by eexists _, _|].
  destruct (decode_varint_ok d o) as (r & -> & H1); [done|done|]. cbn [bindM].
  destruct r as [[tg o1]|e]; [|by eexists _, _].
  destruct (decode_varint_ok d o1) as (r & -> & H2); [done|lia|]. cbn [bindM].
  destruct r as [[n o2]|e]; [|by eexists _, _]. case_bool; [by eexists _, _|].
  destruct (slice_ok d o2 (o2 + n)) as (p & m & t & Hs & _); [lia..|]. rewrite Hs. cbn [bindM].
  eexists _, _. split; [done|]. split; [by eapply wf_bytes_slice|]. eexists; split; [done|]. lia.
Qed.

Lemma apply_field_total hex c t v :
  wf_bytes v -> strings_valid c = true ->
  exists r, apply_field hex c t v = Ret r /\ forall c', r = Ok c' -> strings_valid c' = true.
Proof.
  intros Hwf Hc. unfold strings_valid in Hc. rewrite !andb_true_iff in Hc.
  destruct Hc as [[[[[[[[[? ?] ?] ?] ?] ?] ?] ?] ?] ?].
  assert (forall (f : bytes -> DeepLinkConfig),
    (utf8_valid v = true -> strings_valid (f v) = true) ->
    exists r, Ret (let? s := decode_string v in Ok (f s)) = Ret r /\
      forall c', r = Ok c' -> strings_valid c' = true) as Hstr.
  { intros f Hf. eexists; split; [done|]. unfold decode_string.
    destruct (utf8_valid v) eqn:E; simpl; [intros c' [= <-]; auto|done]. }
  assert (forall A (r : result DeepLinkError A) f, (forall x, strings_valid (f x) = true) ->
    exists r', Ret (let? s := r in Ok (f s)) = Ret r' /\
      forall c', r' = Ok c' -> strings_valid c' = true) as Hany.
  { intros A r f Hf. eexists; split; [done|]. intros c'. destruct r; simpl; [by intros [= <-]|done]. }
  destruct t; simpl apply_field;
    try (apply Hstr; intros Hv; unfold strings_valid; simpl;
         rewrite ?forallb_app; simpl; rewrite !andb_true_iff; by split_and!);
    try (apply Hany; intros x; unfold strings_valid; simpl; rewrite !andb_true_iff; by split_and!).
  - destruct (decode_varint_ok v 0) as (r & Hr & _); [done|lia|].
    unfold lift_io. rewrite Hr. destruct r as [[n o]|e]; simpl; [|by eexists; split].
    case_bool; (eexists; split; [done|]); [done|]. intros c' [= <-].
    unfold strings_valid. rewrite !andb_true_iff. by split_and!.
  - eexists; split; [done|]. intros c' [= <-]. unfold strings_valid. simpl.
    rewrite !andb_true_iff. by split_and!.
  - eexists; split; [done|]. intros c'. unfold decode_string. destruct (utf8_valid v) eqn:E; [|done].
    simpl. destruct (default (v, []) (split_once 47 v)) as [a b].
    destruct (hex_or_invalid hex a), (hex_or_invalid hex b); simpl; try done. intros [= <-].
    unfold strings_valid. simpl. rewrite !andb_true_iff. by split_and!.
  - destruct (decode_string_array_total (length v) v 0 []) as (r & Hr & Hl); [done|lia|len_lia|done|].
    unfold decode_string_array. rewrite Hr. destruct r as [l|e]; simpl; [|by eexists; split].
    eexists; split; [done|]. intros c' [= <-]. unfold strings_valid. simpl.
    rewrite !andb_true_iff. split_and!; auto.
  - eexists; split; [done|]. intros c'. unfold decode_string. destruct (utf8_valid v) eqn:E; [|done].
    simpl. destruct (hex_or_invalid hex v); simpl; [|done]. intros [= <-].
    unfold strings_valid. simpl. rewrite !andb_true_iff. by split_and!.
Qed.

Lemma decode_loop_total hex fuel d o c :
  wf_bytes d -> 0 <= o -> len d - o <= Z.of_nat fuel -> strings_valid c = true ->
  exists r, decode_loop hex fuel (mkParser d o) c = Ret r /\
    forall c', r = Ok c' -> strings_valid c' = true.
Proof.
  revert o c. induction fuel as [|fuel IH]; intros o c Hwf Ho Hf Hc;
    destruct (next_field_total d o) as (r & p & Hr & Hpost); try done;
    cbn [decode_loop]; rewrite Hr; cbn [bindM].
  - destruct r as [[[t v]|e]|]; [destruct Hpost as (? & ? & ? & ?); lia| |].
    + exfalso. unfold next_field in Hr. cbn [data offset] in Hr.
      rewrite (proj2 (Z.leb_le _ _)) in Hr by lia. done.
    + eexists; split; [done|]. by intros c' [= <-].
  - destruct r as [[[[t|] v]|e]|].
    + destruct Hpost as (Hv & o' & -> & Ho').
      destruct (apply_field_total hex c t v) as (r & -> & Hs); [done|done|].
      destruct r as [c'|e]; cbn [bindMR]; [|by eexists; split].
      apply IH; [done|lia|lia|auto].
    + destruct Hpost as (_ & o' & -> & Ho'). apply IH; [done|lia|lia|done].
    + by eexists.
    + eexists; split; [done|]. by intros c' [= <-].
Qed.

(** ** Properties *)

Lemma decode_encoded_payload (hex : bytes -> option bytes) (c : DeepLinkConfig) (p : bytes) :
  strings_valid c = true -> hex_valid hex c = true ->
  encode_tlv_payload c = Ok p ->
  decode_tlv_payload hex p = Ret (Ok (normalise c)).
Proof.
  intros Hs Hh He. destruct (encode_payload_fields c p He) as (dns & Hd & Hf & Hv).
  unfold decode_tlv_payload, parser_new.
  change p with ([] ++ p) at 2. rewrite (decode_loop_fields hex _ p (length p) [])
    by (done || by apply encode_fields_len).
  rewrite (apply_fields_of hex c dns) by done. cbn [bindMR].
  replace (validate (normalise c)) with (validate c) by (by destruct c). by rewrite Hv.
Qed.

(** C17: whatever the encoder accepts, the decoder gives back.  For a
    configuration whose strings are UTF-8 and whose client-random fields are hex,
    decoding the encoded payload yields the same configuration, except that an
    empty client-random prefix or key comes back as absent. *)
Theorem payload_roundtrip (hex : bytes -> option bytes) (c : DeepLinkConfig) (p : bytes) :
  strings_valid c = true -> hex_valid hex c = true ->
  encode_tlv_payload c = Ok p ->
  decode_tlv_payload hex p = Ret (Ok (normalise c)).
Proof. apply decode_encoded_payload. Qed.

Definition sample_config : DeepLinkConfig :=
  mkConfig (Some (str "vpn.example.com")) [str "1.2.3.4:443"; str "vpn.example.com:443"]
    (Some (str "alice")) (Some (str "secret")) (Some (str "5841/7a43")) (Some [])
    (Some (str "example.org")) false true (Some [0x30; 1; 7]) Http3 true None
    [str "8.8.8.8:53"; str "tls://dns"] (Some (str "https://vpn.example.com/sub")).

Lemma payload_roundtrip_witness :
  strings_valid sample_config = true /\ hex_valid HexRef.hex_decode sample_config = true /\
  exists p, encode_tlv_payload sample_config = Ok p /\
    decode_tlv_payload HexRef.hex_decode p = Ret (Ok (normalise sample_config)).
Proof.
  split; [vm_compute; reflexivity|]. split; [vm_compute; reflexivity|].
  eexists. split; [vm_compute; reflexivity|].
  apply (payload_roundtrip HexRef.hex_decode sample_config); vm_compute; reflexivity.
Defined.

(** Certificates are byte vectors. *)
Definition cert_wf (c : DeepLinkConfig) : Prop :=
  match certificate c with Some d => wf_bytes d | None => True end.

Lemma encode_fields_wf l p :
  Forall (fun f => wf_bytes f.2) l -> encode_fields l = Ok p -> wf_bytes p.
Proof.
  intros Hl. revert p. induction Hl as [|[t v] l Hv Hl IH]; intros p He; simpl in He.
  - injection He as <-. constructor.
  - inv_bindR He. inv_bindR He. injection He as <-. apply wf_bytes_app. split; [|by apply IH].
    unfold encode_tlv in E. inv_bindR E. inv_bindR E. injection E as <-.
    pose proof (tag_as_u8_bound t). pose proof (len_nonneg v).
    apply encode_varint_inv in E1 as (_ & ? & _); [|lia].
    apply encode_varint_inv in E2 as (_ & ? & _); [|done]. rewrite !wf_bytes_app. auto.
Qed.

Lemma encode_string_array_wf l p :
  forallb utf8_valid l = true -> encode_string_array l = Ok p -> wf_bytes p.
Proof.
  revert p. induction l as [|s l IH]; intros p Hl He; simpl in *; [injection He as <-; constructor|].
  apply andb_true_iff in Hl as [Hs Hl]. inv_bindR He. inv_bindR He. injection He as <-.
  apply encode_varint_inv in E as (_ & ? & _); [|apply len_nonneg].
  rewrite !wf_bytes_app. auto using utf8_valid_wf.
Qed.

Lemma opt_field_wf t o : opt_utf8 o = true -> Forall (fun f : field => wf_bytes f.2) (opt_field t o).
Proof. destruct o; simpl; repeat constructor. by apply utf8_valid_wf. Qed.

Lemma payload_wf c p :
  strings_valid c = true -> cert_wf c -> encode_tlv_payload c = Ok p -> wf_bytes p.
Proof.
  intros Hs Hc He. destruct (encode_payload_fields c p He) as (dns & Hd & Hf & _).
  unfold strings_valid in Hs. rewrite !andb_true_iff in Hs.
  destruct Hs as [[[[[[[[[? Ha] ?] ?] ?] ?] ?] ?] Hds] ?].
  eapply encode_fields_wf, Hf. unfold fields_of.
  assert (forall o, opt_utf8 o = true -> opt_utf8 (drop_empty o) = true) by (by intros [[|]|]).
  repeat apply Forall_app_2; auto using opt_field_wf.
  - repeat constructor; lia.
  - apply Forall_fmap, Forall_forall. intros x Hx%list_elem_of_In. simpl.
    rewrite forallb_forall in Ha. by apply utf8_valid_wf, Ha.
  - destruct (has_ipv6 c); repeat constructor; lia.
  - destruct (skip_verification c); repeat constructor; lia.
  - destruct (anti_dpi c); repeat constructor; lia.
  - unfold cert_wf in Hc. destruct (certificate c); by repeat constructor.
  - case_bool_decide; repeat constructor; destruct (upstream_protocol c); simpl; lia.
  - case_bool_decide; repeat constructor. by eapply encode_string_array_wf.
Qed.

(** The same through the URI layer: [decode (encode config)] is the
    normalised configuration, and the legacy form without the question mark
    decodes to the same result. *)
Theorem uri_roundtrip (hex : bytes -> option bytes) (enc : bytes -> bytes)
    (dec : bytes -> option bytes) `{!Base64Laws enc dec} (c : DeepLinkConfig) (p : bytes) :
  strings_valid c = true -> cert_wf c -> hex_valid hex c = true ->
  encode_tlv_payload c = Ok p ->
  exists uri, encode enc c = Ok uri /\
    decode hex dec uri = Ret (Ok (normalise c)) /\
    decode hex dec (str "tt://" ++ enc p) = Ret (Ok (normalise c)).
Proof.
  intros Hs Hc Hh He. exists (PREFIX ++ enc p).
  pose proof (payload_wf c p Hs Hc He) as Hp.
  pose proof (b64_decode_encode (b64_encode := enc) (b64_decode := dec) p Hp) as Hde.
  unfold encode, decode. rewrite He. cbn [bindR]. split; [done|].
  assert (starts_with (str "tt://") (PREFIX ++ enc p) = true) as H1.
  { apply starts_with_spec. by exists (0x3F :: enc p). }
  rewrite H1, starts_with_app. cbn [negb].
  change (strip_prefix (str "tt://?") (PREFIX ++ enc p)) with (strip_prefix PREFIX (PREFIX ++ enc p)).
  rewrite (strip_prefix_app PREFIX), union_Some_l, Hde. split; [by apply decode_encoded_payload|].
  destruct (strip_prefix (str "tt://?") (str "tt://" ++ enc p)) as [k|] eqn:E.
  { apply strip_prefix_spec in E. change (str "tt://?") with (str "tt://" ++ [0x3F]) in E.
    rewrite <- app_assoc in E. apply app_inv_head in E.
    pose proof (b64_encode_chars (b64_encode := enc) (b64_decode := dec) p Hp) as Hch.
    rewrite E in Hch. apply Forall_app in Hch as [[Hch _]%Forall_cons_1 _].
    by vm_compute in Hch. }
  rewrite union_None_l, strip_prefix_app, Hde. by apply decode_encoded_payload.
Qed.

Lemma uri_roundtrip_witness :
  exists p, encode_tlv_payload sample_config = Ok p /\
  exists uri, encode Base64Ref.b64_encode sample_config = Ok uri /\
    decode HexRef.hex_decode Base64Ref.b64_decode uri = Ret (Ok (normalise sample_config)) /\
    decode HexRef.hex_decode Base64Ref.b64_decode (str "tt://" ++ Base64Ref.b64_encode p)
      = Ret (Ok (normalise sample_config)).
Proof.
  eexists. split; [vm_compute; reflexivity|].
  apply (uri_roundtrip HexRef.hex_decode Base64Ref.b64_encode Base64Ref.b64_decode
           sample_config); [vm_compute; reflexivity| |vm_compute; reflexivity..].
  change (wf_bytes [0x30; 1; 7]). by_compute.
Defined.

(** On arbitrary bytes the payload decoder terminates without
    panicking, and a configuration it returns satisfies [validate] and holds
    only UTF-8 strings. *)
Theorem decode_payload_total (hex : bytes -> option bytes) (payload : bytes) :
  wf_bytes payload ->
  exists r, decode_tlv_payload hex payload = Ret r /\
    forall c, r = Ok c -> validate c = Ok tt /\ strings_valid c = true.
Proof.
  intros Hwf. unfold decode_tlv_payload, parser_new.
  destruct (decode_loop_total hex (length payload) payload 0 initial) as (r & -> & Hs);
    [done|lia|len_lia|done|].
  destruct r as [c|e]; cbn [bindMR]; [|by eexists; split].
  destruct (validate c) as [[]|e] eqn:Hv; cbn [bindR]; [|by eexists; split].
  eexists; split; [done|]. intros c' [= <-]. auto.
Qed.

Lemma decode_payload_total_witness :
  wf_bytes [5; 1; 0xFF] /\
  exists r, decode_tlv_payload HexRef.hex_decode [5; 1; 0xFF] = Ret r /\
    forall c, r = Ok c -> validate c = Ok tt /\ strings_valid c = true.
Proof.
  split; [by_compute|].
  apply (decode_payload_total HexRef.hex_decode [5; 1; 0xFF]). by_compute.
Defined.

(** The decoder's treatment of a sequence of TLVs with arbitrary tag numbers:
    the tag number is reduced modulo 256 before it is looked up. *)
Fixpoint encode_raws (l : list (Z * bytes)) : result DeepLinkError bytes :=
  match l with
  | [] => Ok []
  | (n, v) :: l => let? e := encode_raw n v in let? rest := encode_raws l in Ok (e ++ rest)
  end.

Fixpoint apply_raws (hex : bytes -> option bytes) (c : DeepLinkConfig) (l : list (Z * bytes))
    : M (result DeepLinkError DeepLinkConfig) :=
  match l with
  | [] => Ret (Ok c)
  | (n, v) :: l =>
      match tag_from_u8 (n mod 256) with
      | None => apply_raws hex c l
      | Some t => let!? c := apply_field hex c t v in apply_raws hex c l
      end
  end.

Lemma decode_loop_raws hex l enc fuel pre c :
  Forall (fun f => 0 <= f.1) l -> encode_raws l = Ok enc -> (length l <= fuel)%nat ->
  decode_loop hex fuel (mkParser (pre ++ enc) (len pre)) c = apply_raws hex c l.
Proof.
  intros Hl. revert enc fuel pre c.
  induction Hl as [|[n v] l Hn Hl IH]; intros enc fuel pre c He Hf; simpl in He.
  - injection He as <-. rewrite app_nil_r.
    destruct fuel; simpl; unfold next_field; simpl; by rewrite Z.leb_refl.
  - inv_bindR He. inv_bindR He. injection He as <-. simpl in Hf.
    destruct fuel as [|fuel]; [lia|]. simpl.
    rewrite (next_field_raw n v) by done. cbn [bindM].
    change (as_u8 n) with (n mod 256). rewrite app_assoc.
    destruct (tag_from_u8 (n mod 256)) as [t|]; [|apply IH; [done|lia]].
    destruct (apply_field hex c t v) as [[c'|e]|]; simpl; [|done..]. apply IH; [done|lia].
Qed.

Lemma encode_raws_len l enc :
  Forall (fun f => 0 <= f.1) l -> encode_raws l = Ok enc -> (length l <= length enc)%nat.
Proof.
  intros Hl. revert enc. induction Hl as [|[n v] l Hn Hl IH]; intros enc He; simpl in *; [lia|].
  inv_bindR He. inv_bindR He. injection He as <-. unfold encode_raw in E. inv_bindR E. inv_bindR E.
  injection E as <-. apply encode_varint_inv in E1 as (_ & _ & H); [|done].
  specialize (IH _ E0). len_lia.
Qed.

(** Unknown tags below 256 are skipped as DEEP_LINK.md requires,
    but a tag number of 256 and above is looked up by its low byte, so it is
    taken for the known tag with that byte instead of being ignored. *)
Theorem decode_raw_tags (hex : bytes -> option bytes) (l : list (Z * bytes)) (enc : bytes) :
  Forall (fun f => 0 <= f.1) l -> encode_raws l = Ok enc ->
  decode_tlv_payload hex enc =
    (let!? c := apply_raws hex initial l in Ret (let? _ := validate c in Ok c)).
Proof.
  intros Hl He. unfold decode_tlv_payload, parser_new.
  change enc with ([] ++ enc) at 2. rewrite (decode_loop_raws hex l enc (length enc) [])
    by (done || by apply encode_raws_len). done.
Qed.

(** A URL under the unassigned tag 0x10E is read as the subscription URL, and an
    unassigned tag 0x10 is skipped. *)
Definition sample_raws : list (Z * bytes) :=
  [(0x10, [1; 2; 3]); (0x10E, str "https://a")].

Lemma decode_raw_tags_witness :
  exists enc, encode_raws sample_raws = Ok enc /\
    decode_tlv_payload HexRef.hex_decode enc =
      Ret (Ok (with_subscription_url (Some (str "https://a")) initial)).
Proof.
  eexists. split; [vm_compute; reflexivity|].
  rewrite (decode_raw_tags HexRef.hex_decode sample_raws);
    [vm_compute; reflexivity|by_compute|vm_compute; reflexivity].
Defined.

(** The builder refuses every client-random prefix with a mask
    ([prefix/mask]), the format that the specification allows and that the
    decoder accepts; what it does build round-trips through the payload. *)
Theorem builder_prefix (enc : bytes -> bytes) (hex : bytes -> option bytes)
    `{!HexLaws enc hex} (b : DeepLinkConfigBuilder) :
  match build hex b with
  | Ok c =>
      validate c = Ok tt /\ hex_valid hex c = true /\
      match b_client_random_prefix b with Some p => 0x2F ∉ p | None => True end
  | Err e =>
      (match b_client_random_prefix b with Some p => 0x2F ∈ p | None => False end ->
       e = InvalidAddress)
  end.
Proof.
  unfold build, check_hex.
  assert (hex [] = Some []) as Hnil.
  { rewrite <- (hex_decode_encode (hex_encode := enc) (hex_decode := hex) []) by constructor.
    f_equal. pose proof (hex_decode_len (hex_encode := enc) (hex_decode := hex) (enc []) []
      (hex_decode_encode [] (Forall_nil_2 _))) as Hl.
    symmetry. apply len_nil_inv. rewrite Hl. done. }
  assert (forall s x, hex s = Some x -> prefix_hex_ok hex s = true) as Hpre.
  { intros s x Hx. unfold prefix_hex_ok, hex_ok.
    rewrite (proj2 (split_once_None _ _)) by (by eapply hex_digit_not_slash).
    simpl. by rewrite Hx, Hnil. }
  destruct b as [h a u pw cp ck sni v6 sv cert up ad nm dn url]. simpl.
  destruct cp as [[|c s]|].
  2: { destruct (hex (c :: s)) as [x|] eqn:E; simpl; [|done].
       pose proof (hex_digit_not_slash enc hex _ _ E) as Hns.
       destruct ck as [[|c' k]|]; simpl; [|destruct (hex (c' :: k)) eqn:Ek; simpl|];
         try (match goal with |- context [validate ?c] => destruct (validate c) as [[]|] eqn:? end);
         simpl; try done; unfold hex_valid; simpl; rewrite (Hpre _ _ E); unfold hex_ok;
         rewrite ?Ek; done. }
  all: destruct ck as [[|c' k]|]; simpl; [|destruct (hex (c' :: k)) eqn:Ek; simpl|];
    try (match goal with |- context [validate ?c] => destruct (validate c) as [[]|] eqn:? end);
    simpl; try (unfold hex_valid, hex_ok; simpl; rewrite ?Ek); set_solver.
Qed.

Definition masked_builder : DeepLinkConfigBuilder :=
  set_client_random_prefix (Some (str "5841/7a43"))
    (set_subscription_url (Some (str "https://a")) builder).

Lemma builder_prefix_witness :
  match build HexRef.hex_decode masked_builder with
  | Ok _ => False
  | Err e => e = InvalidAddress
  end.
Proof.
  pose proof (builder_prefix HexRef.hex_encode HexRef.hex_decode masked_builder) as H.
  destruct (build HexRef.hex_decode masked_builder) as [c|e] eqn:E;
    [vm_compute in E; discriminate|].
  apply H. change (0x2F ∈ str "5841/7a43"). by_compute.
Defined.
