(* ===== verification/Cert.v ===== *)
(** * Certificates in deep links ([deeplink/src/cert.rs])

    The ASN.1 length reader, the splitter of concatenated DER certificates and
    the two PEM conversions.  [rustls_pemfile::certs] and the base64 engine are
    parameters.  The theorems: the splitter terminates without panicking on any
    bytes and loses nothing, and it recovers a concatenation of DER sequences. *)

From S2P Require Import Prelude Codecs Varint.

(** The loop [for i in 0..num_bytes { length = (length << 8) | data[..] }] on
    [usize]: bits shifted out of the 64 are lost. *)
Definition shift_in (length b : Z) : Z := Z.lor (as_u64 (Z.shiftl length 8)) b.

Definition read_asn1_length (data : bytes) (offset : Z) : M (result DeepLinkError (Z * Z)) :=
  if len data <=? offset then Ret (Err InvalidCertificate)
  else
    let! first := index data offset in
    if first <? 0x80 then Ret (Ok (first, offset + 1))
    else
      let num_bytes := Z.land first 0x7F in
      if (num_bytes =? 0) || (len data <? offset + 1 + num_bytes) then
        Ret (Err InvalidCertificate)
      else
        let! b := slice data (offset + 1) (offset + 1 + num_bytes) in
        Ret (Ok (fold_left shift_in b 0, offset + 1 + num_bytes)).

(** [usize::checked_add]. *)
Definition checked_add (a b : Z) : option Z := if a + b <? 2 ^ 64 then Some (a + b) else None.

Fixpoint split_der_loop (fuel : nat) (data : bytes) (offset : Z) (certs : list bytes)
    : M (result DeepLinkError (list bytes)) :=
  if len data <=? offset then Ret (Ok certs)
  else
    match fuel with
    | O => Panic
    | S fuel =>
        let! tag := index data offset in
        if negb (tag =? 0x30) then Ret (Err InvalidCertificate)
        else
          let!? (body_len, hdr_end) := read_asn1_length data (offset + 1) in
          match checked_add hdr_end body_len with
          | None => Ret (Err InvalidCertificate)
          | Some cert_end =>
              if len data <? cert_end then Ret (Err InvalidCertificate)
              else
                let! cert := slice data offset cert_end in
                split_der_loop fuel data cert_end (certs ++ [cert])
          end
    end.

Definition split_der_certs (data : bytes) : M (result DeepLinkError (list bytes)) :=
  split_der_loop (length data) data 0 [].

(** [slice.chunks(n)]. *)
Fixpoint chunks (fuel : nat) (n : nat) (l : bytes) : list bytes :=
  match fuel, l with
  | _, [] => []
  | O, _ => [l]
  | S fuel, _ => take n l :: chunks fuel n (drop n l)
  end.

(** [lines.join(sep)]. *)
Fixpoint join (sep : bytes) (l : list bytes) : bytes :=
  match l with
  | [] => []
  | [x] => x
  | x :: l => x ++ sep ++ join sep l
  end.

Section PemCodec.
Variable pemfile_certs : bytes -> option (list bytes).
Variable b64_encode : bytes -> bytes.

Definition pem_to_der (pem : bytes) : result DeepLinkError bytes :=
  match pemfile_certs pem with
  | None => Err InvalidCertificate
  | Some [] => Err InvalidCertificate
  | Some certs => Ok (concat certs)
  end.

Definition pem_block (cert_der : bytes) : bytes :=
  let b64 := b64_encode cert_der in
  str "-----BEGIN CERTIFICATE-----" ++ [10]
  ++ join [10] (chunks (length b64) 64 b64) ++ [10]
  ++ str "-----END CERTIFICATE-----".

Definition der_to_pem (der : bytes) : M (result DeepLinkError bytes) :=
  let!? certs := split_der_certs der in
  Ret (Ok (join [10] (map pem_block certs) ++ [10])).

End PemCodec.

(** ** Reference: DER sequences *)

(** The length octets: short form, or [k] octets announced by [0x80 + k]. *)
Definition der_length (k : nat) (n : Z) : bytes :=
  match k with O => [n] | _ => (0x80 + Z.of_nat k) :: be_bytes k n end.

Definition der_length_ok (k : nat) (n : Z) : Prop :=
  (k <= 8)%nat /\ 0 <= n < (if decide (k = O) then 128 else Z.min (256 ^ Z.of_nat k) (2 ^ 63)).

Definition der_sequence (k : nat) (body : bytes) : bytes :=
  0x30 :: der_length k (len body) ++ body.
Arguments der_sequence : simpl never.

(** ** Lemmas *)

Lemma shift_in_val b a k :
  wf_bytes b -> len b <= k -> 0 <= k <= 8 -> 0 <= a < 256 ^ (k - len b) ->
  fold_left shift_in b a = fold_left (fun a b => a * 256 + b) b a.
Proof.
  intros Hwf. revert a k. induction Hwf as [|x b Hx Hb IH]; intros a k Hk Hk8 Ha; [done|].
  simpl fold_left. rewrite len_cons in *. pose proof (len_nonneg b).
  assert (256 ^ (k - len b) = 256 * 256 ^ (k - (1 + len b))) as E256.
  { rewrite <- Z.pow_succ_r by lia. f_equal. lia. }
  assert (256 ^ (k - len b) <= 2 ^ 64) as Hle.
  { change (2 ^ 64) with (256 ^ 8). apply Z.pow_le_mono_r; lia. }
  assert (shift_in a x = a * 256 + x) as ->.
  { unfold shift_in, as_u64. rewrite Z.shiftl_mul_pow2 by lia. change (2 ^ 8) with 256.
    rewrite Z.mod_small by lia. unfold is_byte in Hx. rewrite Z.lor_comm.
    change 256 with (2 ^ 8). rewrite lor_add_high by lia. lia. }
  unfold is_byte in Hx. apply (IH _ k); lia.
Qed.

Lemma read_asn1_length_ok data offset :
  wf_bytes data -> 0 <= offset ->
  exists r, read_asn1_length data offset = Ret r /\
    match r with
    | Ok (n, o) => 0 <= n /\ offset < o <= len data
    | Err e => e = InvalidCertificate
    end.
Proof.
  intros Hwf Ho. unfold read_asn1_length. case_bool; [by eexists|].
  destruct (index_ok data offset) as (h & x & t & -> & Hd & Hh); [lia|]. cbn [bindM].
  assert (is_byte x) as Hx.
  { rewrite Hd in Hwf. apply Forall_app in Hwf as [_ Hwf]. by apply Forall_cons in Hwf as [? _]. }
  unfold is_byte in Hx. case_bool; [eexists; split; [done|]; cbv beta iota; lia|].
  change 0x7F with (2 ^ 7 - 1). rewrite land_mask by lia.
  pose proof (Z.mod_pos_bound x (2 ^ 7) ltac:(lia)).
  destruct (Z.eqb_spec (x mod 2 ^ 7) 0); [by eexists|].
  destruct (Z.ltb_spec (len data) (offset + 1 + x mod 2 ^ 7)); [by eexists|]. cbn [orb].
  destruct (slice_ok data (offset + 1) (offset + 1 + x mod 2 ^ 7)) as (p & m & u & -> & E & _); [lia..|].
  cbn [bindM]. eexists; split; [done|]. split; [|lia].
  assert (forall a, 0 <= a -> 0 <= fold_left shift_in m a) as Hf; [|by apply Hf].
  assert (wf_bytes m) as Hm by (rewrite E in Hwf; apply wf_bytes_app in Hwf as [_ Hwf];
    by apply wf_bytes_app in Hwf as [? _]).
  clear -Hm. induction Hm as [|y m Hy Hm IH]; intros a Ha; [done|].
  simpl. apply IH. unfold shift_in. unfold is_byte in Hy. apply Z.lor_nonneg. split; [|lia].
  apply Z.mod_pos_bound. lia.
Qed.

Lemma split_der_loop_ok fuel data offset certs :
  wf_bytes data -> 0 <= offset <= len data -> len data - offset <= Z.of_nat fuel ->
  exists r, split_der_loop fuel data offset certs = Ret r /\
    forall l, r = Ok l -> exists new, l = certs ++ new /\
      concat new = drop (Z.to_nat offset) data /\
      Forall (fun c => starts_with [0x30] c = true) new.
Proof.
  revert offset certs. induction fuel as [|fuel IH]; intros offset certs Hwf Ho Hf;
    cbn [split_der_loop]; case_bool; try lia;
    [eexists; split; [done|]; intros l [= <-]; exists []; rewrite app_nil_r, drop_ge by len_lia; done..|].
  destruct (index_ok data offset) as (h & x & t & -> & Hd & Hh); [lia|]. cbn [bindM].
  case_bool; cbn [negb]; [|by eexists; split]. subst x.
  destruct (read_asn1_length_ok data (offset + 1)) as (r & -> & Hr); [done|lia|].
  destruct r as [[n o]|e]; cbn [bindMR]; [|by eexists; split].
  unfold checked_add. case_bool; [|by eexists; split]. case_bool; [by eexists; split|].
  destruct (slice_ok data offset (o + n)) as (p & m & u & -> & E & Hp & Hm); [lia..|]. cbn [bindM].
  destruct (IH (o + n) (certs ++ [m])) as (r & Hr' & Hpost); [done|lia|lia|].
  exists r. split; [done|]. intros l Hl. destruct (Hpost l Hl) as (new & -> & Hc & Hall).
  exists (m :: new). rewrite <- app_assoc. split; [done|]. split.
  - simpl. rewrite Hc, E.
    replace (Z.to_nat offset) with (length p) by len_lia. rewrite drop_app_length.
    rewrite (app_assoc p m u). replace (Z.to_nat (o + n)) with (length (p ++ m)) by len_lia.
    by rewrite drop_app_length.
  - constructor; [|done]. destruct m as [|y m]; [unfold len in *; simpl in *; lia|].
    rewrite Hd in E. assert (h = p /\ 0x30 = y) as [_ <-]; [|done].
    simpl in E. apply app_inj_1 in E as [-> [= -> _]]; [done|]. unfold len in *. lia.
Qed.

Lemma read_asn1_length_der k n pre post :
  der_length_ok k n ->
  read_asn1_length (pre ++ der_length k n ++ post) (len pre) =
    Ret (Ok (n, len pre + len (der_length k n))).
Proof.
  intros [Hk Hn]. unfold read_asn1_length. pose proof (len_nonneg post).
  destruct k as [|k]; cbn [der_length decide] in *.
  - rewrite (proj2 (Z.leb_gt _ _)) by (rewrite !len_app; unfold len at 3; simpl; lia).
    change ([n] ++ post) with (n :: post). rewrite index_app. cbn [bindM].
    simpl in Hn. rewrite (proj2 (Z.ltb_lt _ _)) by lia. done.
  - set (b := be_bytes (S k) n). assert (len b = Z.of_nat (S k)) as Hb by apply len_be_bytes.
    rewrite (proj2 (Z.leb_gt _ _)) by (rewrite !len_app, len_cons; lia).
    cbn [app]. rewrite index_app. cbn [bindM].
    rewrite (proj2 (Z.ltb_ge _ _)) by lia.
    assert (Z.land (0x80 + Z.of_nat (S k)) 0x7F = Z.of_nat (S k)) as ->.
    { change 0x7F with (2 ^ 7 - 1). rewrite land_mask by lia. change (2 ^ 7) with 128.
      change 0x80 with 128. rewrite Z.add_comm, <- (Z.mul_1_l 128), Z.mod_add by lia.
      apply Z.mod_small. lia. }
    rewrite (proj2 (Z.eqb_neq _ _)) by lia. cbn [orb].
    rewrite (proj2 (Z.ltb_ge _ _)) by (rewrite !len_app, len_cons, len_app; lia).
    change (0x80 + Z.of_nat (S k) :: b ++ post) with ([0x80 + Z.of_nat (S k)] ++ b ++ post).
    assert (len (pre ++ [0x80 + Z.of_nat (S k)]) = len pre + 1) as Hp1 by (by rewrite len_app).
    rewrite app_assoc, slice_app_at by (rewrite Hp1, ?Hb; lia).
    cbn [bindM]. rewrite len_cons, Hb.
    rewrite (shift_in_val b 0 (len b)) by (rewrite ?Hb, ?Z.sub_diag; try lia; apply be_bytes_wf).
    fold (be_val b). unfold b. simpl in Hn. rewrite be_val_be_bytes_small by lia.
    do 3 f_equal; lia.
Qed.

Lemma split_der_sequences l fuel pre certs :
  Forall (fun kb => der_length_ok kb.1 (len kb.2)) l ->
  (length l <= fuel)%nat ->
  len pre + len (concat (map (fun kb => der_sequence kb.1 kb.2) l)) < 2 ^ 64 ->
  split_der_loop fuel (pre ++ concat (map (fun kb => der_sequence kb.1 kb.2) l)) (len pre) certs
    = Ret (Ok (certs ++ map (fun kb => der_sequence kb.1 kb.2) l)).
Proof.
  intros Hl. revert fuel pre certs.
  induction Hl as [|[k body] l Hk Hl IH]; intros fuel pre certs Hf Hsz; cbn [map concat fst snd] in *.
  { rewrite !app_nil_r. destruct fuel; simpl; by rewrite Z.leb_refl. }
  simpl in Hf. destruct fuel as [|fuel]; [lia|].
  set (rest := concat (map (fun kb => der_sequence kb.1 kb.2) l)) in *.
  set (d := der_sequence k body) in *.
  assert (len d = 1 + len (der_length k (len body)) + len body) as Hd
    by (unfold d, der_sequence; rewrite len_cons, len_app; lia).
  rewrite len_app in Hsz. pose proof (len_nonneg rest). pose proof (len_nonneg body).
  pose proof (len_nonneg (der_length k (len body))). pose proof (len_nonneg pre).
  assert (pre ++ d ++ rest =
    (pre ++ [0x30]) ++ der_length k (len body) ++ body ++ rest) as Ed
    by (unfold d, der_sequence; rewrite <- !app_assoc; simpl; by rewrite <- app_assoc).
  cbn [split_der_loop].
  rewrite (proj2 (Z.leb_gt _ _)) by (rewrite !len_app; lia).
  replace (index (pre ++ d ++ rest) (len pre)) with (Ret 0x30) by (symmetry; apply index_app).
  cbn [bindM Z.eqb negb Pos.eqb].
  assert (len pre + 1 = len (pre ++ [0x30])) as -> by (by rewrite len_app).
  rewrite Ed, read_asn1_length_der, <- Ed by done. cbn [bindMR].
  unfold checked_add.
  replace (len (pre ++ [48]) + len (der_length k (len body)) + len body) with (len pre + len d)
    by (rewrite len_app, Hd; change (len [48]) with 1; lia).
  rewrite (proj2 (Z.ltb_lt _ _)) by lia.
  rewrite (proj2 (Z.ltb_ge _ _)) by (rewrite !len_app; lia).
  rewrite slice_app. cbn [bindM]. rewrite app_assoc, <- len_app.
  rewrite IH by (rewrite ?len_app; lia). by rewrite <- app_assoc.
Qed.

(** ** Properties *)

(** On arbitrary bytes the splitter terminates without panicking;
    when it succeeds, the pieces concatenate to exactly the input and each
    starts with the SEQUENCE tag. *)
Theorem split_der_certs_total (data : bytes) :
  wf_bytes data ->
  exists r, split_der_certs data = Ret r /\
    forall certs, r = Ok certs ->
      concat certs = data /\ Forall (fun c => starts_with [0x30] c = true) certs.
Proof.
  intros Hwf. destruct (split_der_loop_ok (length data) data 0 []) as (r & Hr & Hpost);
    [done|split; [lia|apply len_nonneg]|len_lia|].
  exists r. split; [done|]. intros certs Hc.
  by destruct (Hpost certs Hc) as (new & -> & H1 & H2).
Qed.

Lemma split_der_certs_total_witness :
  wf_bytes [0x30; 0x81; 1; 9; 0x30; 0] /\
  exists r, split_der_certs [0x30; 0x81; 1; 9; 0x30; 0] = Ret r /\
    forall certs, r = Ok certs ->
      concat certs = [0x30; 0x81; 1; 9; 0x30; 0] /\
      Forall (fun c => starts_with [0x30] c = true) certs.
Proof.
  split; [by_compute|]. apply (split_der_certs_total [0x30; 0x81; 1; 9; 0x30; 0]). by_compute.
Defined.

(** A chain that [pem_to_der] concatenates is split back into the
    same certificates, for every chain of DER sequences whose length octets use
    the short form or up to eight octets. *)
Theorem pem_der_roundtrip (pemfile_certs : bytes -> option (list bytes)) (pem : bytes)
    (l : list (nat * bytes)) :
  l <> [] -> Forall (fun kb => der_length_ok kb.1 (len kb.2)) l ->
  len (concat (map (fun kb => der_sequence kb.1 kb.2) l)) < 2 ^ 64 ->
  pemfile_certs pem = Some (map (fun kb => der_sequence kb.1 kb.2) l) ->
  exists der, pem_to_der pemfile_certs pem = Ok der /\
    split_der_certs der = Ret (Ok (map (fun kb => der_sequence kb.1 kb.2) l)).
Proof.
  intros Hne Hl Hsz Hp. exists (concat (map (fun kb => der_sequence kb.1 kb.2) l)).
  unfold pem_to_der. rewrite Hp. split; [by destruct l|].
  unfold split_der_certs. apply (split_der_sequences l _ [] []); [done| |done].
  clear. induction l as [|kb l IH]; simpl; [lia|]. rewrite length_app. simpl. lia.
Qed.

Definition sample_chain : list (nat * bytes) := [(O, [1; 2]); (1%nat, replicate 130 7)].

Lemma pem_der_roundtrip_witness :
  exists der,
    pem_to_der (fun _ => Some (map (fun kb => der_sequence kb.1 kb.2) sample_chain)) [] = Ok der /\
    split_der_certs der = Ret (Ok (map (fun kb => der_sequence kb.1 kb.2) sample_chain)).
Proof.
  apply (pem_der_roundtrip
    (fun _ => Some (map (fun kb => der_sequence kb.1 kb.2) sample_chain)) [] sample_chain);
    [done|unfold sample_chain, der_length_ok; repeat constructor; vm_compute; congruence
    |vm_compute; reflexivity|reflexivity].
Defined.
