(* ===== verification/NetUtils.v ===== *)
(** * Network helpers ([lib/src/net_utils.rs])

    Addresses and their fixed-size wire form, the classification of globally
    routable addresses, the IP header skippers, the RFC 1071 checksum, HTTP/3
    frame overhead and the SNI scrubber.  The methods of [std::net] that the code
    calls ([is_private], [is_loopback], ...) are modelled here too.

    The socket options and the [libc] address conversions of the same file are in
    [Utils] and [Sockets]. *)

From S2P Require Import Prelude Codecs Varint.

Definition MIN_IPV4_HEADER_SIZE : Z := 20.
Definition MIN_IPV6_HEADER_SIZE : Z := 40.
Definition MAX_IP_PACKET_SIZE : Z := 2 ^ 16.
Definition UDP_HEADER_SIZE : Z := 8.
Definition MAX_UDP_PAYLOAD_SIZE : Z := MAX_IP_PACKET_SIZE - MIN_IPV4_HEADER_SIZE - UDP_HEADER_SIZE.
Definition PLAIN_DNS_PORT_NUMBER : Z := 53.
Definition IPV4_WIRE_LENGTH : Z := 4.
Definition IPV6_WIRE_LENGTH : Z := 16.
Definition FIXED_LENGTH_IP_WIRE_LENGTH : Z := IPV6_WIRE_LENGTH.
Definition IPV4_PADDING_WIRE_LENGTH : Z := FIXED_LENGTH_IP_WIRE_LENGTH - IPV4_WIRE_LENGTH.
Definition HTTP1_ALPN : bytes := str "http/1.1".
Definition HTTP2_ALPN : bytes := str "h2".
Definition HTTP3_ALPN : bytes := str "h3".
Definition SCRUBBED_PLACEHOLDER : bytes := str "__stripped__".

(** The tunnel, ping, speedtest, reverse-proxy and subscription channels. *)
Inductive Channel : Type :=
| ChTunnel | ChPing | ChSpeedtest | ChReverseProxy | ChSubscription.

#[export] Instance Channel_eq_dec : EqDecision Channel.
Proof. solve_decision. Defined.

(** ** Addresses *)

(** [IpAddr], by its octets. *)
Inductive IpAddr : Type :=
| IpV4 (octets : bytes)
| IpV6 (octets : bytes).

Definition wf_ip (ip : IpAddr) : Prop :=
  match ip with
  | IpV4 o => wf_bytes o /\ length o = 4%nat
  | IpV6 o => wf_bytes o /\ length o = 16%nat
  end.

#[export] Instance wf_ip_dec ip : Decision (wf_ip ip).
Proof. destruct ip; simpl; apply _. Defined.

#[export] Instance IpAddr_eq_dec : EqDecision IpAddr.
Proof. solve_decision. Defined.

#[export] Instance IpAddr_countable : Countable IpAddr.
Proof.
  apply (inj_countable'
    (fun ip => match ip with IpV4 o => inl o | IpV6 o => inr o end)
    (fun s => match s with inl o => IpV4 o | inr o => IpV6 o end)).
  by intros [].
Defined.

Record SocketAddr : Type := mkAddr { addr_ip : IpAddr; addr_port : Z }.

Definition wf_addr (a : SocketAddr) : Prop := wf_ip (addr_ip a) /\ 0 <= addr_port a < 2 ^ 16.

#[export] Instance wf_addr_dec a : Decision (wf_addr a).
Proof. unfold wf_addr. apply _. Defined.

#[export] Instance SocketAddr_eq_dec : EqDecision SocketAddr.
Proof. solve_decision. Defined.

#[export] Instance SocketAddr_countable : Countable SocketAddr.
Proof.
  apply (inj_countable' (fun a => (addr_ip a, addr_port a)) (fun p => mkAddr p.1 p.2)).
  by intros [].
Defined.

Definition is_ipv4 (ip : IpAddr) : bool := match ip with IpV4 _ => true | IpV6 _ => false end.

Inductive TcpDestination : Type :=
| DestAddress (a : SocketAddr)
| DestHostName (host : bytes) (port : Z).

(** ** HTTP/3 framing *)

Definition http3_data_frame_overhead (payload_size : Z) : M Z :=
  let! t := varint_len 0 in let! l := varint_len payload_size in Ret (t + l).

(** ** Fixed-size addresses *)

Definition get_fixed_size_ip (b : bytes) : M (IpAddr * bytes) :=
  let! (ip, rest) := split_to IPV6_WIRE_LENGTH b in
  if forallb (fun x => x =? 0) (take 12 ip) then Ret (IpV4 (drop 12 ip), rest)
  else Ret (IpV6 ip, rest).

(** The bytes that [put_fixed_size_ip] appends. *)
Definition put_fixed_size_ip (ip : IpAddr) : bytes :=
  match ip with
  | IpV4 o => replicate 12 0 ++ o
  | IpV6 o => o
  end.

(** ** IP headers *)

Definition IPPROTO_ICMP : Z := 1.
Definition IPPROTO_ICMPV6 : Z := 58.
Definition IPPROTO_HOPOPTS : Z := 0.
Definition IPPROTO_ROUTING : Z := 43.
Definition IPPROTO_FRAGMENT : Z := 44.
Definition IPPROTO_DSTOPTS : Z := 60.

Definition skip_ipv4_header (packet : bytes) : M (option (Z * bytes)) :=
  if len packet <? MIN_IPV4_HEADER_SIZE then Ret None
  else
    let! (x, packet) := get_u8 packet in
    let header_length := Z.land x 0x0F * 4 in
    if (header_length <? 20) || (len packet + 1 <? header_length) then Ret None
    else
      let! packet := advance (1 + 2 + 2 + 2 + 1) packet in
      let! (next_protocol, packet) := get_u8 packet in
      let! packet := advance (2 + 4 + 4 + (header_length - MIN_IPV4_HEADER_SIZE)) packet in
      Ret (Some (next_protocol, packet)).

(** The extension-header [loop]; every iteration removes at least two bytes. *)
Fixpoint skip_ipv6_extensions (fuel : nat) (next_protocol : Z) (packet : bytes)
    : M (option (Z * bytes)) :=
  if (next_protocol =? IPPROTO_HOPOPTS) || (next_protocol =? IPPROTO_ROUTING)
     || (next_protocol =? IPPROTO_DSTOPTS) then
    if len packet <? 2 then Ret None
    else
      let! (next_protocol, packet) := get_u8 packet in
      let! (header_ext_length, packet) := get_u8 packet in
      let! packet := advance header_ext_length packet in
      match fuel with
      | O => Panic
      | S fuel => skip_ipv6_extensions fuel next_protocol packet
      end
  else if next_protocol =? IPPROTO_FRAGMENT then
    if len packet <? 8 then Ret None
    else
      let! (next_protocol, packet) := get_u8 packet in
      let! packet := advance (8 - 1) packet in
      match fuel with
      | O => Panic
      | S fuel => skip_ipv6_extensions fuel next_protocol packet
      end
  else Ret (Some (next_protocol, packet)).

Definition skip_ipv6_header (packet : bytes) : M (option (Z * bytes)) :=
  if len packet <? MIN_IPV6_HEADER_SIZE then Ret None
  else
    let! packet := advance (4 + 2) packet in
    let! (next_protocol, packet) := get_u8 packet in
    let! packet := advance (1 + 16 + 16) packet in
    skip_ipv6_extensions (length packet) next_protocol packet.

(** ** RFC 1071 checksum *)

(** [for i in (0..bytes.len()).step_by(2)], with [n] iterations left; the sum is
    a [u32]. *)
Fixpoint checksum_loop (n : nat) (b : bytes) (i sum : Z) : M Z :=
  match n with
  | O => Ret sum
  | S n =>
      let! x := index b i in
      let sum := as_u32 (sum + Z.shiftl x 8) in
      let! sum :=
        if (len b mod 2 =? 0) || (i + 1 <? len b - 1) then
          let! y := index b (i + 1) in Ret (as_u32 (sum + y))
        else Ret sum in
      checksum_loop n b (i + 2) sum
  end.

(** [!x] on a [u32]. *)
Definition not_u32 (x : Z) : Z := 2 ^ 32 - 1 - x.

Definition rfc1071_checksum (b : bytes) : M Z :=
  let! sum := checksum_loop (Z.to_nat ((len b + 1) / 2)) b 0 0 in
  Ret (as_u16 (not_u32 (as_u32 (Z.shiftr sum 16 + sum)))).

(** ** Globally routable addresses *)

(** The octet [i] and the 16-bit segment [i] of an address. *)
Definition oct (o : bytes) (i : nat) : Z := nth i o 0.
Definition seg (o : bytes) (i : nat) : Z := oct o (2 * i) * 256 + oct o (2 * i + 1).

(** [std::net::Ipv4Addr] methods. *)
Definition v4_is_private (o : bytes) : bool :=
  (oct o 0 =? 10)
  || ((oct o 0 =? 172) && (16 <=? oct o 1) && (oct o 1 <=? 31))
  || ((oct o 0 =? 192) && (oct o 1 =? 168)).
Definition v4_is_loopback (o : bytes) : bool := oct o 0 =? 127.
Definition v4_is_link_local (o : bytes) : bool := (oct o 0 =? 169) && (oct o 1 =? 254).
Definition v4_is_broadcast (o : bytes) : bool := be_val o =? 0xFFFFFFFF.
Definition v4_is_documentation (o : bytes) : bool :=
  ((oct o 0 =? 192) && (oct o 1 =? 0) && (oct o 2 =? 2))
  || ((oct o 0 =? 198) && (oct o 1 =? 51) && (oct o 2 =? 100))
  || ((oct o 0 =? 203) && (oct o 1 =? 0) && (oct o 2 =? 113)).

(** [std::net::Ipv6Addr] methods. *)
Definition v6_is_multicast (o : bytes) : bool := Z.land (seg o 0) 0xFF00 =? 0xFF00.
Definition v6_is_loopback (o : bytes) : bool := be_val o =? 1.
Definition v6_is_unspecified (o : bytes) : bool := be_val o =? 0.

Definition is_global_ipv4 (o : bytes) : bool :=
  let ip := be_val o in
  if (ip =? 0xc0000009) || (ip =? 0xc000000a) then true
  else
    negb (v4_is_private o)
    && negb (v4_is_loopback o)
    && negb (v4_is_link_local o)
    && negb (v4_is_broadcast o)
    && negb (v4_is_documentation o)
    && negb ((oct o 0 =? 100) && (Z.land (oct o 1) 0xC0 =? 0x40))
    && negb ((oct o 0 =? 192) && (oct o 1 =? 0) && (oct o 2 =? 0))
    && negb ((Z.land (oct o 0) 240 =? 240) && negb (v4_is_broadcast o))
    && negb ((oct o 0 =? 198) && (Z.land (oct o 1) 0xFE =? 18))
    && negb (oct o 0 =? 0).

Definition is_unicast_global_ipv6 (o : bytes) : bool :=
  negb (v6_is_multicast o
        || v6_is_loopback o
        || (Z.land (seg o 0) 0xffc0 =? 0xfe80)
        || (Z.land (seg o 0) 0xfe00 =? 0xfc00)
        || v6_is_unspecified o
        || ((seg o 0 =? 0x2001) && (seg o 1 =? 0xdb8))).

Definition is_global_ipv6 (o : bytes) : bool :=
  if v6_is_multicast o then
    match Z.land (seg o 0) 0x000f with
    | 1 | 2 | 3 | 4 | 5 | 8 => false
    | 0x0e => true
    | _ => false
    end
  else is_unicast_global_ipv6 o.

Definition extract_ipv4_from_ipv6 (o : bytes) : option bytes :=
  let is_mapped :=
    (seg o 0 =? 0) && (seg o 1 =? 0) && (seg o 2 =? 0) && (seg o 3 =? 0) && (seg o 4 =? 0)
    && (seg o 5 =? 0xffff) in
  let is_compat :=
    (seg o 0 =? 0) && (seg o 1 =? 0) && (seg o 2 =? 0) && (seg o 3 =? 0) && (seg o 4 =? 0)
    && (seg o 5 =? 0) && (negb (seg o 6 =? 0) || (1 <? seg o 7)) in
  if is_mapped || is_compat then
    Some [as_u8 (Z.shiftr (seg o 6) 8); as_u8 (seg o 6); as_u8 (Z.shiftr (seg o 7) 8);
          as_u8 (seg o 7)]
  else None.

Definition unmap_ipv6 (ip : IpAddr) : IpAddr :=
  match ip with
  | IpV6 o => match extract_ipv4_from_ipv6 o with Some v4 => IpV4 v4 | None => ip end
  | IpV4 _ => ip
  end.

Definition is_global_ip (ip : IpAddr) : bool :=
  match ip with
  | IpV4 o => is_global_ipv4 o
  | IpV6 o =>
      match extract_ipv4_from_ipv6 o with
      | Some v4 => is_global_ipv4 v4
      | None => is_global_ipv6 o
      end
  end.

(** ** Scrubbing *)

Definition scrub_sni (sni : bytes) : bytes :=
  match find_char 0x2E sni with
  | Some to => SCRUBBED_PLACEHOLDER ++ drop to sni
  | None => sni
  end.

(** A [HeaderMap] is the list of its (lower-case name, value) pairs in iteration
    order; [get] returns the first value under the name. *)
Abbreviation headers := (list (bytes * bytes)).

Definition header_get (h : headers) (n : bytes) : option bytes :=
  snd <$> List.find (fun p => bool_decide (p.1 = n)) h.

(** ** Reference definitions *)

(** CIDR membership of a 32-bit address. *)
Definition in_cidr4 (ip : Z) (net : Z * Z) : bool :=
  ip / 2 ^ (32 - net.2) =? net.1 / 2 ^ (32 - net.2).

(** The blocks of the IANA special-purpose registry that the code lists. *)
Definition special_v4 : list (Z * Z) :=
  [(be_val [10; 0; 0; 0], 8); (be_val [172; 16; 0; 0], 12); (be_val [192; 168; 0; 0], 16);
   (be_val [127; 0; 0; 0], 8); (be_val [169; 254; 0; 0], 16); (be_val [255; 255; 255; 255], 32);
   (be_val [192; 0; 2; 0], 24); (be_val [198; 51; 100; 0], 24); (be_val [203; 0; 113; 0], 24);
   (be_val [100; 64; 0; 0], 10); (be_val [192; 0; 0; 0], 24); (be_val [240; 0; 0; 0], 4);
   (be_val [198; 18; 0; 0], 15); (be_val [0; 0; 0; 0], 8)].

Definition is_global_ipv4_spec (o : bytes) : bool :=
  bool_decide (be_val o = be_val [192; 0; 0; 9]) || bool_decide (be_val o = be_val [192; 0; 0; 10])
  || negb (existsb (in_cidr4 (be_val o)) special_v4).

(** The sum of the 16-bit big-endian words, an odd last byte padded with zero. *)
Fixpoint word_sum (b : bytes) : Z :=
  match b with
  | [] => 0
  | [x] => x * 256
  | x :: y :: b => x * 256 + y + word_sum b
  end.

(** RFC 1071: fold the carries until none is left, then complement. *)
Definition fold_once (s : Z) : Z := s mod 2 ^ 16 + s / 2 ^ 16.
Definition rfc1071_ref (b : bytes) : Z := 65535 - fold_once (fold_once (word_sum b)).

(** The wire form cannot tell an IPv4 address from an IPv6 one that starts with
    twelve zero bytes. *)
Definition wire_canonical (ip : IpAddr) : IpAddr :=
  match ip with
  | IpV6 o => if forallb (fun x => x =? 0) (take 12 o) then IpV4 (drop 12 o) else ip
  | IpV4 _ => ip
  end.

(** ** Lemmas *)

Lemma put_fixed_size_ip_len ip : wf_ip ip -> len (put_fixed_size_ip ip) = 16.
Proof. destruct ip; intros [_ H]; unfold len; simpl; lia. Qed.

Lemma put_fixed_size_ip_wf ip : wf_ip ip -> wf_bytes (put_fixed_size_ip ip).
Proof.
  destruct ip; intros [H _]; [|done]. apply wf_bytes_app. split; [|done].
  repeat constructor; lia.
Qed.

Lemma get_put_fixed_size_ip ip rest :
  wf_ip ip -> get_fixed_size_ip (put_fixed_size_ip ip ++ rest) = Ret (wire_canonical ip, rest).
Proof.
  intros Hwf. unfold get_fixed_size_ip.
  rewrite split_to_app' by (by rewrite put_fixed_size_ip_len). cbn [bindM].
  destruct ip as [o|o]; simpl in Hwf |- *; [done|]. by destruct (forallb _ _).
Qed.

Lemma get_fixed_size_ip_ok b :
  16 <= len b -> exists ip h rest, get_fixed_size_ip b = Ret (ip, rest) /\ b = h ++ rest /\ len h = 16.
Proof.
  intros H. unfold get_fixed_size_ip.
  destruct (split_to_ok 16 b) as (h & t & E & -> & Hh); [lia|].
  unfold IPV6_WIRE_LENGTH. rewrite E. cbn [bindM]. destruct (forallb _ _); eauto 6.
Qed.

Lemma get_fixed_size_ip_wf b ip rest :
  wf_bytes b -> get_fixed_size_ip b = Ret (ip, rest) -> wf_ip ip.
Proof.
  intros Hb. unfold get_fixed_size_ip, split_to, IPV6_WIRE_LENGTH. case_bool; [|done].
  cbn [bindM]. pose proof (Forall_take is_byte 16 b Hb) as Ht.
  destruct (forallb _ _); intros [= <- _]; split.
  - by apply Forall_drop.
  - len_lia.
  - done.
  - len_lia.
Qed.

Lemma be_val4 a b c d : be_val [a; b; c; d] = ((a * 256 + b) * 256 + c) * 256 + d.
Proof. done. Qed.

Ltac bool_arith :=
  apply eq_true_iff_eq; rewrite ?andb_true_iff, ?orb_true_iff, ?Z.eqb_eq, ?Z.leb_le, ?Z.ltb_lt;
  div_lia.

Lemma land_c0 b : 0 <= b < 256 -> (Z.land b 0xC0 =? 0x40) = (b / 64 =? 1).
Proof. apply (forall_upto_prop (fun b => (Z.land b 0xC0 =? 0x40) = (b / 64 =? 1))). by vm_compute. Qed.

Lemma land_f0 b : 0 <= b < 256 -> (Z.land b 240 =? 240) = (b / 16 =? 15).
Proof. apply (forall_upto_prop (fun b => (Z.land b 240 =? 240) = (b / 16 =? 15))). by vm_compute. Qed.

Lemma land_fe b : 0 <= b < 256 -> (Z.land b 0xFE =? 18) = (b / 2 =? 9).
Proof. apply (forall_upto_prop (fun b => (Z.land b 0xFE =? 18) = (b / 2 =? 9))). by vm_compute. Qed.

Lemma in_cidr4_eq ip base p q k :
  32 - p = k -> base / 2 ^ k = q -> in_cidr4 ip (base, p) = (ip / 2 ^ k =? q).
Proof. intros <- <-. done. Qed.

Lemma special_v4_eq a b c d :
  is_byte a -> is_byte b -> is_byte c -> is_byte d ->
  existsb (in_cidr4 (be_val [a; b; c; d])) special_v4 =
    v4_is_private [a; b; c; d] || v4_is_loopback [a; b; c; d] || v4_is_link_local [a; b; c; d]
    || v4_is_broadcast [a; b; c; d] || v4_is_documentation [a; b; c; d]
    || ((a =? 100) && (b / 64 =? 1)) || ((a =? 192) && (b =? 0) && (c =? 0))
    || (a / 16 =? 15) || ((a =? 198) && (b / 2 =? 9)) || (a =? 0).
Proof.
  unfold is_byte. intros Ha Hb Hc Hd.
  unfold special_v4, v4_is_private, v4_is_loopback, v4_is_link_local, v4_is_broadcast,
    v4_is_documentation, existsb. cbn [oct nth].
  set (ip := be_val [a; b; c; d]).
  assert (ip = ((a * 256 + b) * 256 + c) * 256 + d) as Hip by apply be_val4. clearbody ip.
  rewrite (in_cidr4_eq ip _ 8 10 24), (in_cidr4_eq ip _ 12 2753 20),
    (in_cidr4_eq ip _ 16 49320 16), (in_cidr4_eq ip _ 8 127 24), (in_cidr4_eq ip _ 16 43518 16),
    (in_cidr4_eq ip _ 32 4294967295 0), (in_cidr4_eq ip _ 24 12582914 8),
    (in_cidr4_eq ip _ 24 12989284 8), (in_cidr4_eq ip _ 24 13303921 8),
    (in_cidr4_eq ip _ 10 401 22), (in_cidr4_eq ip _ 24 12582912 8), (in_cidr4_eq ip _ 4 15 28),
    (in_cidr4_eq ip _ 15 25353 17), (in_cidr4_eq ip _ 8 0 24) by reflexivity.
  assert (ip / 2 ^ 24 = a) as -> by (change (2 ^ 24) with 16777216; div_lia).
  assert (ip / 2 ^ 20 = a * 16 + b / 16) as -> by (change (2 ^ 20) with 1048576; div_lia).
  assert (ip / 2 ^ 16 = a * 256 + b) as -> by (change (2 ^ 16) with 65536; div_lia).
  assert (ip / 2 ^ 8 = (a * 256 + b) * 256 + c) as -> by (change (2 ^ 8) with 256; div_lia).
  assert (ip / 2 ^ 22 = a * 4 + b / 64) as -> by (change (2 ^ 22) with 4194304; div_lia).
  assert (ip / 2 ^ 28 = a / 16) as -> by (change (2 ^ 28) with 268435456; div_lia).
  assert (ip / 2 ^ 17 = a * 128 + b / 2) as -> by (change (2 ^ 17) with 131072; div_lia).
  replace (ip / 2 ^ 0) with ip by (change (2 ^ 0) with 1; by rewrite Z.div_1_r).
  replace (a * 16 + b / 16 =? 2753) with ((a =? 172) && (16 <=? b) && (b <=? 31)) by bool_arith.
  replace (a * 256 + b =? 49320) with ((a =? 192) && (b =? 168)) by bool_arith.
  replace (a * 256 + b =? 43518) with ((a =? 169) && (b =? 254)) by bool_arith.
  replace ((a * 256 + b) * 256 + c =? 12582914) with ((a =? 192) && (b =? 0) && (c =? 2)) by bool_arith.
  replace ((a * 256 + b) * 256 + c =? 12989284) with ((a =? 198) && (b =? 51) && (c =? 100)) by bool_arith.
  replace ((a * 256 + b) * 256 + c =? 13303921) with ((a =? 203) && (b =? 0) && (c =? 113)) by bool_arith.
  replace ((a * 256 + b) * 256 + c =? 12582912) with ((a =? 192) && (b =? 0) && (c =? 0)) by bool_arith.
  replace (a * 4 + b / 64 =? 401) with ((a =? 100) && (b / 64 =? 1)) by bool_arith.
  replace (a * 128 + b / 2 =? 25353) with ((a =? 198) && (b / 2 =? 9)) by bool_arith.
  rewrite orb_false_r, !orb_assoc. done.
Qed.

Lemma is_global_ipv4_eq o : wf_ip (IpV4 o) -> is_global_ipv4 o = is_global_ipv4_spec o.
Proof.
  intros [Hwf Hlen]. destruct o as [|a [|b [|c [|d [|]]]]]; try done.
  apply Forall_cons in Hwf as [Ha Hwf]. apply Forall_cons in Hwf as [Hb Hwf].
  apply Forall_cons in Hwf as [Hc Hwf]. apply Forall_cons in Hwf as [Hd _].
  unfold is_global_ipv4_spec, is_global_ipv4. rewrite special_v4_eq by done.
  set (ip := be_val [a; b; c; d]).
  change (be_val [192; 0; 0; 9]) with 0xc0000009. change (be_val [192; 0; 0; 10]) with 0xc000000a.
  destruct (Z.eqb_spec ip 0xc0000009) as [->|]; [by rewrite bool_decide_true|].
  destruct (Z.eqb_spec ip 0xc000000a) as [->|]; [by rewrite (bool_decide_true (0xc000000a = 0xc000000a))|].
  rewrite !bool_decide_false by done. cbn [orb oct nth]. unfold is_byte in *.
  rewrite land_c0, land_f0, land_fe by done. rewrite !negb_orb, !negb_andb, negb_involutive.
  destruct (v4_is_broadcast [a; b; c; d]) eqn:Eb; cbn [negb orb andb];
    rewrite ?andb_false_r, ?andb_true_r, ?orb_false_r; try done.
Qed.

Lemma get_u8_cons x l : get_u8 (x :: l) = Ret (x, l).
Proof.
  unfold get_u8, get_uint, split_to. rewrite len_cons. pose proof (len_nonneg l).
  rewrite (proj2 (Z.leb_le _ _)) by lia. done.
Qed.

Lemma advance_ok n l : n <= len l -> advance n l = Ret (drop (Z.to_nat n) l).
Proof. intros H. unfold advance, split_off. by rewrite (proj2 (Z.leb_le _ _)). Qed.

Lemma advance_panic n l : len l < n -> advance n l = Panic.
Proof. intros H. unfold advance, split_off. by rewrite (proj2 (Z.leb_gt _ _)). Qed.

(** The first [n] elements of a long enough list, by name. *)
Lemma destruct_list {A} (n : nat) (l : list A) :
  Z.of_nat n <= len l -> exists h t, l = h ++ t /\ length h = n.
Proof.
  intros H. exists (take n l), (drop n l). rewrite take_drop. split; [done|]. len_lia.
Qed.

Lemma skip_ipv4_header_spec packet :
  wf_bytes packet ->
  exists r, skip_ipv4_header packet = Ret r /\
    forall p payload, r = Some (p, payload) ->
      let hlen := 4 * (oct packet 0 mod 16) in
      20 <= hlen <= len packet /\ payload = drop (Z.to_nat hlen) packet /\ p = oct packet 9.
Proof.
  intros Hwf. unfold skip_ipv4_header, MIN_IPV4_HEADER_SIZE. case_bool; [by eexists|].
  destruct (destruct_list 10 packet) as (h & t & -> & Hh); [lia|].
  do 11 (destruct h as [|? h]; try (simpl in Hh; lia)). clear Hh.
  rewrite len_app in *. change (len [z; z0; z1; z2; z3; z4; z5; z6; z7; z8]) with 10 in *.
  cbn [app]. rewrite get_u8_cons. cbn [bindM].
  apply Forall_cons in Hwf as [Hz _]. unfold is_byte in Hz.
  change 0x0F with (2 ^ 4 - 1). rewrite land_mask by lia. change (2 ^ 4) with 16.
  set (hl := z mod 16 * 4).
  assert (len (z0 :: z1 :: z2 :: z3 :: z4 :: z5 :: z6 :: z7 :: z8 :: t) = 9 + len t) as Hl
    by (rewrite !len_cons; lia).
  rewrite Hl. destruct (Z.ltb_spec hl 20); [by eexists|].
  destruct (Z.ltb_spec (9 + len t + 1) hl); [by eexists|]. cbn [orb].
  rewrite advance_ok by (rewrite Hl; lia). change (Z.to_nat (1 + 2 + 2 + 2 + 1)) with 8%nat.
  cbn [drop bindM]. rewrite get_u8_cons. cbn [bindM]. rewrite advance_ok by lia. cbn [bindM].
  eexists; split; [done|]. intros p payload [= <- <-]. cbn [oct nth]. cbv zeta.
  replace (4 * (z mod 16)) with hl by (unfold hl; lia). split_and!; [lia| | |done]; [len_simpl; lia|].
  replace (Z.to_nat hl) with (10 + Z.to_nat (2 + 4 + 4 + (hl - 20)))%nat by lia. done.
Qed.

Lemma word_sum_nonneg b : wf_bytes b -> 0 <= word_sum b.
Proof.
  assert (forall n b, (length b <= n)%nat -> wf_bytes b -> 0 <= word_sum b) as H;
    [|by apply (H (length b))].
  clear b. induction n as [|n IH]; intros b Hn Hwf; [destruct b; [done|simpl in Hn; lia]|].
  destruct b as [|x [|y b]]; simpl in *; [done|..]; apply Forall_cons in Hwf as [Hx Hwf];
    unfold is_byte in *; [lia|]. apply Forall_cons in Hwf as [Hy Hwf].
  specialize (IH b ltac:(lia) Hwf). lia.
Qed.

Lemma word_sum_bound b : wf_bytes b -> word_sum b <= 65535 * ((len b + 1) / 2).
Proof.
  assert (forall n b, (length b <= n)%nat -> wf_bytes b -> word_sum b <= 65535 * ((len b + 1) / 2)) as H;
    [|by apply (H (length b))].
  clear b. induction n as [|n IH]; intros b Hn Hwf; [destruct b; [done|simpl in Hn; lia]|].
  destruct b as [|x [|y b]]; simpl in *; [done|..]; apply Forall_cons in Hwf as [Hx Hwf];
    unfold is_byte in *; [change ((len [x] + 1) / 2) with 1; lia|]. apply Forall_cons in Hwf as [Hy Hwf].
  specialize (IH b ltac:(lia) Hwf). rewrite !len_cons.
  replace ((1 + (1 + len b) + 1) / 2) with ((len b + 1) / 2 + 1) by div_lia. lia.
Qed.

Lemma checksum_loop_sum n rest pre sum :
  wf_bytes rest -> Z.of_nat n = (len rest + 1) / 2 -> len pre mod 2 = 0 ->
  0 <= sum -> sum + word_sum rest < 2 ^ 32 ->
  checksum_loop n (pre ++ rest) (len pre) sum = Ret (sum + word_sum rest).
Proof.
  revert rest pre sum. induction n as [|n IH]; intros rest pre sum Hwf Hn Hpre Hsum Hlt.
  { pose proof (len_nonneg rest). destruct rest; [simpl; f_equal; lia|].
    rewrite len_cons in Hn. pose proof (len_nonneg rest). div_lia. }
  destruct rest as [|x rest]; [change ((len [] + 1) / 2) with 0 in Hn; lia|].
  apply Forall_cons in Hwf as [Hx Hwf]. unfold is_byte in Hx. cbn [checksum_loop].
  rewrite index_app. cbn [bindM]. rewrite Z.shiftl_mul_pow2 by lia. change (2 ^ 8) with 256.
  unfold as_u32. rewrite !len_app, !len_cons in *. pose proof (len_nonneg rest).
  destruct rest as [|y rest]; simpl word_sum in *.
  - change (len []) with 0 in *. rewrite (proj2 (Z.eqb_neq _ _)) by div_lia.
    rewrite (proj2 (Z.ltb_ge _ _)) by lia. cbn [orb bindM].
    rewrite Z.mod_small by lia. change ((1 + 0 + 1) / 2) with 1 in Hn. destruct n; [done|lia].
  - apply Forall_cons in Hwf as [Hy Hwf]. unfold is_byte in Hy.
    pose proof (word_sum_nonneg rest Hwf). rewrite len_cons in *. pose proof (len_nonneg rest).
    replace ((_ =? 0) || _) with true.
    2:{ symmetry. apply orb_true_iff. rewrite Z.eqb_eq, Z.ltb_lt.
        destruct rest as [|w rest]; [left; change (len []) with 0; div_lia|].
        right. rewrite len_cons. pose proof (len_nonneg rest). lia. }
    replace (pre ++ x :: y :: rest) with ((pre ++ [x]) ++ y :: rest) by (by rewrite <- app_assoc).
    rewrite index_app_at by (by rewrite len_app). cbn [bindM].
    rewrite !Z.mod_small by (rewrite ?Z.mod_small by lia; lia).
    replace ((pre ++ [x]) ++ y :: rest) with ((pre ++ [x; y]) ++ rest) by (by rewrite <- !app_assoc).
    replace (len pre + 2) with (len (pre ++ [x; y])) by (by rewrite len_app).
    rewrite IH; [f_equal; lia|done|div_lia| |lia|lia].
    rewrite len_app. change (len [x; y]) with 2. div_lia.
Qed.

Lemma rfc1071_checksum_val b :
  wf_bytes b -> len b <= 2 ^ 17 ->
  rfc1071_checksum b = Ret (65535 - (word_sum b + word_sum b / 2 ^ 16) mod 2 ^ 16).
Proof.
  intros Hwf Hlen. unfold rfc1071_checksum.
  pose proof (word_sum_nonneg b Hwf) as H0. pose proof (word_sum_bound b Hwf) as H1.
  assert ((len b + 1) / 2 <= 65536) as H2 by (change (2 ^ 17) with 131072 in Hlen; div_lia).
  pose proof (len_nonneg b) as Hb.
  assert (0 <= (len b + 1) / 2) as H3 by div_lia.
  pose proof (checksum_loop_sum (Z.to_nat ((len b + 1) / 2)) b [] 0) as Hl.
  cbn [app] in Hl. change (len []) with 0 in Hl. rewrite Hl by (done || lia). clear Hl.
  cbn [bindM]. rewrite Z.add_0_l, Z.shiftr_div_pow2 by lia. f_equal.
  set (s := word_sum b) in *. unfold as_u16, not_u32, as_u32.
  change (2 ^ 32) with 4294967296. change (2 ^ 16) with 65536 in *.
  rewrite (Z.mod_small (s / 65536 + s)) by div_lia. rewrite (Z.add_comm (s / 65536)). div_lia.
Qed.

Lemma nth_byte o i : wf_bytes o -> 0 <= nth i o 0 < 256.
Proof.
  intros H. destruct (le_lt_dec (length o) i); [rewrite nth_overflow by done; lia|].
  unfold wf_bytes in H. rewrite List.Forall_forall in H. by apply H, nth_In.
Qed.

(** ** Properties *)

(** Reading back a fixed-size address gives the address written, and
    leaves the rest of the buffer; the only exception is an IPv6 address that
    starts with twelve zero bytes, which is read as the IPv4 address of its last
    four bytes. *)
Theorem fixed_size_ip_roundtrip (ip : IpAddr) (rest : bytes) :
  wf_ip ip ->
  len (put_fixed_size_ip ip) = 16 /\
  get_fixed_size_ip (put_fixed_size_ip ip ++ rest) = Ret (wire_canonical ip, rest).
Proof. intros H. split; [by apply put_fixed_size_ip_len|by apply get_put_fixed_size_ip]. Qed.

Lemma fixed_size_ip_roundtrip_witness :
  wf_ip (IpV6 (replicate 15 0 ++ [1])) /\
  get_fixed_size_ip (put_fixed_size_ip (IpV6 (replicate 15 0 ++ [1])) ++ [7])
    = Ret (IpV4 [0; 0; 0; 1], [7]).
Proof.
  split; [by_compute|]. apply (fixed_size_ip_roundtrip (IpV6 (replicate 15 0 ++ [1])) [7]). by_compute.
Defined.

(** C38: the byte-level tests of [is_global_ipv4] hold exactly of the
    addresses that are in none of the special-purpose CIDR blocks, and of the two
    globally reachable addresses 192.0.0.9 and 192.0.0.10, which are in one. *)
Theorem is_global_ipv4_correct (o : bytes) :
  wf_ip (IpV4 o) -> is_global_ipv4 o = is_global_ipv4_spec o.
Proof. apply is_global_ipv4_eq. Qed.

Lemma is_global_ipv4_correct_witness :
  wf_ip (IpV4 [100; 127; 1; 1]) /\
  is_global_ipv4 [100; 127; 1; 1] = is_global_ipv4_spec [100; 127; 1; 1].
Proof. split; [by_compute|]. apply (is_global_ipv4_correct [100; 127; 1; 1]). by_compute. Defined.

(** The routability check sees through IPv4-mapped and
    IPv4-compatible IPv6 addresses: for every IPv4 address other than 0.0.0.0 and
    0.0.0.1 in the compatible form, and every one in the mapped form, the answer
    is that of the embedded IPv4 address. *)
Theorem is_global_ip_unmaps (o : bytes) (mapped : bool) :
  wf_ip (IpV4 o) -> (mapped = false -> 1 < be_val o) ->
  let v6 := IpV6 (replicate 10 0 ++ (if mapped then [255; 255] else [0; 0]) ++ o) in
  unmap_ipv6 v6 = IpV4 o /\ is_global_ip v6 = is_global_ipv4 o.
Proof.
  intros [Hwf Hlen] Hm. destruct o as [|a [|b [|c [|d [|]]]]]; try done.
  apply Forall_cons in Hwf as [Ha Hwf]. apply Forall_cons in Hwf as [Hb Hwf].
  apply Forall_cons in Hwf as [Hc Hwf]. apply Forall_cons in Hwf as [Hd _].
  assert (extract_ipv4_from_ipv6
    (replicate 10 0 ++ (if mapped then [255; 255] else [0; 0]) ++ [a; b; c; d]) = Some [a; b; c; d]) as E.
  { unfold is_byte in *.
    assert (forall x y, 0 <= x < 256 -> 0 <= y < 256 ->
      as_u8 (Z.shiftr (x * 256 + y) 8) = x /\ as_u8 (x * 256 + y) = y) as Hb2.
    { intros x y Hx Hy. unfold as_u8. rewrite Z.shiftr_div_pow2 by lia.
      change (2 ^ 8) with 256. split; div_lia. }
    destruct (Hb2 a b Ha Hb) as [E1 E2]. destruct (Hb2 c d Hc Hd) as [E3 E4].
    unfold extract_ipv4_from_ipv6. cbn [replicate app].
    destruct mapped; unfold seg; cbn [app oct nth Nat.mul Nat.add]; rewrite E1, E2, E3, E4; [done|].
    specialize (Hm eq_refl). rewrite be_val4 in Hm. cbn [Z.eqb andb].
    replace (negb (a * 256 + b =? 0) || (1 <? c * 256 + d)) with true; [done|].
    symmetry. apply orb_true_iff. rewrite negb_true_iff, Z.eqb_neq, Z.ltb_lt. lia. }
  cbv zeta. unfold unmap_ipv6, is_global_ip. by rewrite E.
Qed.

Lemma is_global_ip_unmaps_witness :
  is_global_ip (IpV6 (replicate 10 0 ++ [255; 255] ++ [10; 0; 0; 1])) = false.
Proof.
  rewrite (proj2 (is_global_ip_unmaps [10; 0; 0; 1] true ltac:(by_compute) ltac:(discriminate))).
  vm_compute. reflexivity.
Defined.

(** Skipping an IPv4 header never panics, whatever the packet;
    when it succeeds the header length is the IHL field, is at least 20 and
    within the packet, and the payload and protocol are those of the packet. *)
Theorem skip_ipv4_header_total (packet : bytes) :
  wf_bytes packet ->
  exists r, skip_ipv4_header packet = Ret r /\
    forall p payload, r = Some (p, payload) ->
      let hlen := 4 * (oct packet 0 mod 16) in
      20 <= hlen <= len packet /\ payload = drop (Z.to_nat hlen) packet /\ p = oct packet 9.
Proof. apply skip_ipv4_header_spec. Qed.

Lemma skip_ipv4_header_total_witness :
  exists r, skip_ipv4_header (0x46 :: replicate 30 1) = Ret r /\
    forall p payload, r = Some (p, payload) ->
      let hlen := 4 * (oct (0x46 :: replicate 30 1) 0 mod 16) in
      20 <= hlen <= len (0x46 :: replicate 30 1) /\
      payload = drop (Z.to_nat hlen) (0x46 :: replicate 30 1) /\
      p = oct (0x46 :: replicate 30 1) 9.
Proof. apply (skip_ipv4_header_total (0x46 :: replicate 30 1)). by_compute. Defined.

(** On an IPv6 packet without extension headers the skipper
    returns the next header and the bytes after the 40-byte header; on a packet
    whose first extension header announces more bytes than are left, it panics
    instead of returning [None]. *)
Theorem skip_ipv6_header_behaviour (packet : bytes) :
  wf_bytes packet -> 40 <= len packet ->
  let n := oct packet 6 in
  (n ∉ [IPPROTO_HOPOPTS; IPPROTO_ROUTING; IPPROTO_DSTOPTS; IPPROTO_FRAGMENT] ->
    skip_ipv6_header packet = Ret (Some (n, drop 40 packet))) /\
  (n ∈ [IPPROTO_HOPOPTS; IPPROTO_ROUTING; IPPROTO_DSTOPTS] -> 42 <= len packet ->
    len packet - 42 < oct packet 41 -> skip_ipv6_header packet = Panic).
Proof.
  intros Hwf Hlen. destruct (destruct_list 7 packet) as (h & t & -> & Hh); [lia|].
  do 8 (destruct h as [|? h]; try (simpl in Hh; lia)). clear Hh.
  assert (len ([z; z0; z1; z2; z3; z4; z5] ++ t) = 7 + len t) as Hl
    by (rewrite len_app; done).
  rewrite Hl in *. cbn [app oct nth]. cbv zeta.
  assert (skip_ipv6_header (z :: z0 :: z1 :: z2 :: z3 :: z4 :: z5 :: t) =
    skip_ipv6_extensions (length (drop 33 t)) z5 (drop 33 t)) as ->.
  { unfold skip_ipv6_header, MIN_IPV6_HEADER_SIZE. cbn [app] in Hl.
    rewrite (proj2 (Z.ltb_ge _ _)) by lia. rewrite advance_ok by (rewrite Hl; lia).
    change (Z.to_nat (4 + 2)) with 6%nat. cbn [drop bindM]. rewrite get_u8_cons. cbn [bindM].
    rewrite advance_ok by lia. done. }
  unfold IPPROTO_HOPOPTS, IPPROTO_ROUTING, IPPROTO_DSTOPTS, IPPROTO_FRAGMENT.
  split.
  - intros Hn. replace (drop 40 _) with (drop 33 t) by done.
    destruct (length (drop 33 t)); simpl;
      unfold IPPROTO_HOPOPTS, IPPROTO_ROUTING, IPPROTO_DSTOPTS, IPPROTO_FRAGMENT;
      rewrite !(proj2 (Z.eqb_neq _ _)) by set_solver; done.
  - intros Hn H42 Hext. destruct (drop 33 t) as [|x [|y r]] eqn:Et;
      [apply (f_equal length) in Et; simpl in Et; len_lia..|].
    assert (len r = len t - 35) as Hr.
    { apply (f_equal length) in Et. simpl in Et. len_lia. }
    replace (nth 34 t 0) with y in Hext.
    2:{ rewrite <- (take_drop 33 t), Et, app_nth2 by (rewrite length_take; lia).
        rewrite length_take_le by len_lia. done. }
    cbn [length skip_ipv6_extensions].
    unfold IPPROTO_HOPOPTS, IPPROTO_ROUTING, IPPROTO_DSTOPTS.
    replace ((z5 =? 0) || (z5 =? 43) || (z5 =? 60)) with true.
    2:{ symmetry. rewrite !orb_true_iff, !Z.eqb_eq. set_solver. }
    rewrite (proj2 (Z.ltb_ge _ _)) by (rewrite !len_cons; pose proof (len_nonneg r); lia).
    rewrite !get_u8_cons. cbn [bindM]. by rewrite get_u8_cons; cbn [bindM]; rewrite advance_panic by lia.
Qed.

Definition truncated_ext_packet : bytes := replicate 40 0 ++ [58; 8].

Lemma skip_ipv6_header_behaviour_witness :
  skip_ipv6_header truncated_ext_packet = Panic.
Proof.
  apply (proj2 (skip_ipv6_header_behaviour truncated_ext_packet ltac:(by_compute)
    ltac:(vm_compute; congruence))); [by_compute|vm_compute; congruence|vm_compute; reflexivity].
Defined.

(** For every packet of up to 2^17 bytes the checksum terminates
    without overflow; it is the RFC 1071 checksum whenever one fold of the carries
    leaves none, and is one more than it when the fold carries again, because the
    code folds only once. *)
Theorem rfc1071_checksum_correct (b : bytes) :
  wf_bytes b -> len b <= 2 ^ 17 ->
  rfc1071_checksum b =
    Ret (rfc1071_ref b + if fold_once (word_sum b) <? 2 ^ 16 then 0 else 1).
Proof.
  intros Hwf Hlen. rewrite rfc1071_checksum_val by done. f_equal.
  pose proof (word_sum_nonneg b Hwf) as H0. pose proof (word_sum_bound b Hwf) as H1.
  assert ((len b + 1) / 2 <= 65536) as H2 by (change (2 ^ 17) with 131072 in Hlen; div_lia).
  unfold rfc1071_ref, fold_once. set (s := word_sum b) in *.
  change (2 ^ 16) with 65536. case_bool; div_lia.
Qed.

(** [0xFFFF, 0xFFFF, 1]: the true checksum is 0xFFFE, the code gives 0xFFFF. *)
Lemma rfc1071_checksum_correct_witness :
  rfc1071_checksum [0xFF; 0xFF; 0xFF; 0xFF; 0; 1] = Ret (0xFFFE + 1) /\
  rfc1071_ref [0xFF; 0xFF; 0xFF; 0xFF; 0; 1] = 0xFFFE.
Proof.
  split; [|reflexivity].
  apply (rfc1071_checksum_correct [0xFF; 0xFF; 0xFF; 0xFF; 0; 1]); [by_compute|vm_compute; congruence].
Defined.
