(* ===== verification/Icmp.v ===== *)
(** * ICMP messages (lib/src/icmp_utils.rs)

    The messages of ICMPv4 and ICMPv6 that the endpoint understands, their parser
    and serialiser, and the matching of a reply with the echo request it answers.
    A [Bytes] argument that the source consumes is threaded explicitly. *)

From S2P Require Import Prelude.
From S2P Require Import Varint.
From S2P Require Import NetUtils.

Definition TYPE_SIZE : Z := 1.
Definition CODE_SIZE : Z := 1.
Definition CHECKSUM_SIZE : Z := 2.
Definition ICMP_ID_SIZE : Z := 2.
Definition ICMP_SEQNO_SIZE : Z := 2.
Definition ICMP_MIN_COMMON_HEADER_SIZE : Z := TYPE_SIZE + CODE_SIZE + CHECKSUM_SIZE + 4.
Definition ICMP_V4_MIN_MATCHING_DATA_SIZE : Z := MIN_IPV4_HEADER_SIZE + ICMP_MIN_COMMON_HEADER_SIZE.
Definition ECHO_HEADER_SIZE : Z :=
  TYPE_SIZE + CODE_SIZE + CHECKSUM_SIZE + ICMP_ID_SIZE + ICMP_SEQNO_SIZE.

Record Echo : Type := mkEcho {
  echo_code : Z;
  echo_identifier : Z;
  echo_sequence_number : Z;
  echo_data : bytes;
}.

Inductive DeserializeError : Type :=
| InvalidLength
| MessageType (t : Z)
| DestinationUnreachableCode (c : Z)
| TimeExceededCode (c : Z).

(** [Echo::eq]: the shorter payload is a prefix of the longer one. *)
Definition echo_eq (self other : Echo) : bool :=
  if negb (echo_identifier self =? echo_identifier other)
     || negb (echo_sequence_number self =? echo_sequence_number other) then false
  else if len (echo_data other) <=? len (echo_data self) then
    starts_with (echo_data other) (echo_data self)
  else starts_with (echo_data self) (echo_data other).

(** What [Echo::hash] feeds to the hasher. *)
Definition echo_hash (self : Echo) : Z * Z := (echo_identifier self, echo_sequence_number self).

(** [Echo::serialize]: the checksum is computed over the packet with a zero
    checksum field and then written over bytes 2 and 3. *)
Definition echo_serialize (self : Echo) (type_id : Z) : M bytes :=
  let packet := [type_id; 0] ++ be_bytes 2 0 ++ be_bytes 2 (echo_identifier self)
                ++ be_bytes 2 (echo_sequence_number self) ++ echo_data self in
  let! checksum := rfc1071_checksum packet in
  Ret (take 2 packet ++ be_bytes 2 checksum ++ drop 4 packet).

Inductive LengthCheck : Type :=
| Exact (n : Z)
| LowerBound (n : Z).

(** The macro [deserialize_packet!]; the message type was extracted earlier. *)
Definition deserialize_packet {A B : Type} (func : Z -> bytes -> M (result DeserializeError A))
    (packet : bytes) (length_check : LengthCheck) (out_type : A -> B)
  : M (result DeserializeError B) :=
  let m := 1 + len packet in
  let parse :=
    let! (code, packet) := get_u8 packet in
    let! body := split_off CHECKSUM_SIZE packet in
    let!? x := func code body in
    Ret (Ok (out_type x)) in
  match length_check with
  | Exact n => if negb (n =? m) then Ret (Err InvalidLength) else parse
  | LowerBound n => if m <? n then Ret (Err InvalidLength) else parse
  end.

Definition parse_echo (code : Z) (packet : bytes) : M (result DeserializeError Echo) :=
  let! (identifier, packet) := get_u16 packet in
  let! (sequence_number, packet) := get_u16 packet in
  Ret (Ok (mkEcho code identifier sequence_number packet)).

(** ** ICMPv4 *)

Module V4.

Definition ECHO_REPLY : Z := 0.
Definition DESTINATION_UNREACHABLE : Z := 3.
Definition SOURCE_QUENCH : Z := 4.
Definition REDIRECT : Z := 5.
Definition ECHO : Z := 8.
Definition TIME_EXCEEDED : Z := 11.
Definition PARAMETER_PROBLEM : Z := 12.
Definition TIMESTAMP : Z := 13.
Definition TIMESTAMP_REPLY : Z := 14.
Definition INFORMATION_REQUEST : Z := 15.
Definition INFORMATION_REPLY : Z := 16.

Record v4_DestinationUnreachable : Type := mkDU { du_code : Z; du_data : bytes }.
Record v4_TimeExceeded : Type := mkTE { te_code : Z; te_data : bytes }.
Record v4_ParameterProblem : Type := mkPP { pp_code : Z; pp_pointer : Z; pp_data : bytes }.
Record v4_SourceQuench : Type := mkSQ { sq_code : Z; sq_data : bytes }.
Record v4_Redirect : Type :=
  mkRD { rd_code : Z; rd_gateway_redirect_address : Z; rd_data : bytes }.
Record v4_Timestamp : Type := mkTS {
  ts_code : Z; ts_identifier : Z; ts_sequence_number : Z;
  ts_originate : Z; ts_receive : Z; ts_transmit : Z }.
Record v4_Information : Type := mkInfo { in_code : Z; in_identifier : Z; in_sequence_number : Z }.

Inductive v4_Message : Type :=
| DestinationUnreachable (x : v4_DestinationUnreachable)
| TimeExceeded (x : v4_TimeExceeded)
| ParameterProblem (x : v4_ParameterProblem)
| SourceQuench (x : v4_SourceQuench)
| Redirect (x : v4_Redirect)
| EchoRequest (x : Echo)
| EchoReply (x : Echo)
| Timestamp (x : v4_Timestamp)
| TimestampReply (x : v4_Timestamp)
| InformationRequest (x : v4_Information)
| InformationReply (x : v4_Information).

Definition v4_type_id (self : v4_Message) : Z :=
  match self with
  | DestinationUnreachable _ => DESTINATION_UNREACHABLE
  | TimeExceeded _ => TIME_EXCEEDED
  | ParameterProblem _ => PARAMETER_PROBLEM
  | SourceQuench _ => SOURCE_QUENCH
  | Redirect _ => REDIRECT
  | EchoRequest _ => ECHO
  | EchoReply _ => ECHO_REPLY
  | Timestamp _ => TIMESTAMP
  | TimestampReply _ => TIMESTAMP_REPLY
  | InformationRequest _ => INFORMATION_REQUEST
  | InformationReply _ => INFORMATION_REPLY
  end.

Definition v4_code (self : v4_Message) : Z :=
  match self with
  | DestinationUnreachable x => du_code x
  | TimeExceeded x => te_code x
  | ParameterProblem x => pp_code x
  | SourceQuench x => sq_code x
  | Redirect x => rd_code x
  | EchoRequest x | EchoReply x => echo_code x
  | Timestamp x => ts_code x
  | TimestampReply x => ts_code x
  | InformationRequest x | InformationReply x => in_code x
  end.

Definition v4_len (self : v4_Message) : Z :=
  ICMP_MIN_COMMON_HEADER_SIZE +
  match self with
  | DestinationUnreachable x => len (du_data x)
  | TimeExceeded x => len (te_data x)
  | ParameterProblem x => len (pp_data x)
  | SourceQuench x => len (sq_data x)
  | Redirect x => len (rd_data x)
  | EchoRequest x | EchoReply x => len (echo_data x)
  | Timestamp _ | TimestampReply _ => 4 + 4 + 4
  | InformationRequest _ | InformationReply _ => 0
  end.

Definition v4_parse_destination_unreachable (code : Z) (packet : bytes)
  : M (result DeserializeError v4_DestinationUnreachable) :=
  if (code =? 0) || (code =? 1) || (code =? 2) || (code =? 3) || (code =? 4) || (code =? 5) then
    let! data := split_off 4 packet in Ret (Ok (mkDU code data))
  else Ret (Err (DestinationUnreachableCode code)).

Definition v4_parse_source_quench (code : Z) (packet : bytes)
  : M (result DeserializeError v4_SourceQuench) :=
  let! data := split_off 4 packet in Ret (Ok (mkSQ code data)).

Definition v4_parse_redirect (code : Z) (packet : bytes)
  : M (result DeserializeError v4_Redirect) :=
  let! (gateway, packet) := get_u32 packet in Ret (Ok (mkRD code gateway packet)).

Definition v4_parse_time_exceeded (code : Z) (packet : bytes)
  : M (result DeserializeError v4_TimeExceeded) :=
  if (code =? 0) || (code =? 1) then
    let! data := split_off 4 packet in Ret (Ok (mkTE code data))
  else Ret (Err (TimeExceededCode code)).

Definition v4_parse_parameter_problem (code : Z) (packet : bytes)
  : M (result DeserializeError v4_ParameterProblem) :=
  let! (pointer, packet) := get_u8 packet in
  let! data := split_off 3 packet in Ret (Ok (mkPP code pointer data)).

Definition v4_parse_timestamp (code : Z) (packet : bytes)
  : M (result DeserializeError v4_Timestamp) :=
  let! (identifier, packet) := get_u16 packet in
  let! (sequence_number, packet) := get_u16 packet in
  let! (originate, packet) := get_u32 packet in
  let! (receive, packet) := get_u32 packet in
  let! (transmit, packet) := get_u32 packet in
  Ret (Ok (mkTS code identifier sequence_number originate receive transmit)).

Definition v4_parse_information (code : Z) (packet : bytes)
  : M (result DeserializeError v4_Information) :=
  let! (identifier, packet) := get_u16 packet in
  let! (sequence_number, packet) := get_u16 packet in
  Ret (Ok (mkInfo code identifier sequence_number)).

Definition v4_responded_echo_request (self : v4_Message) : M (option Echo) :=
  let of_icmp_data (icmp_data : bytes) :=
    let! r := skip_ipv4_header icmp_data in
    match r with
    | None => Ret None
    | Some (proto, payload) =>
        if negb (proto =? IPPROTO_ICMP) || (len payload =? 0) then Ret None
        else
          let! (t, payload) := get_u8 payload in
          if negb (t =? ECHO) then Ret None
          else
            let! r := deserialize_packet parse_echo payload (LowerBound ECHO_HEADER_SIZE) EchoRequest in
            match r with Ok (EchoRequest x) => Ret (Some x) | _ => Ret None end
    end in
  match self with
  | DestinationUnreachable x => of_icmp_data (du_data x)
  | TimeExceeded x => of_icmp_data (te_data x)
  | ParameterProblem x => of_icmp_data (pp_data x)
  | SourceQuench x => of_icmp_data (sq_data x)
  | Redirect x => of_icmp_data (rd_data x)
  | EchoReply x => Ret (Some x)
  | _ => Ret None
  end.

Definition v4_serialize (self : v4_Message) : M bytes :=
  match self with
  | EchoRequest x => echo_serialize x (v4_type_id self)
  | _ => Panic
  end.

Definition v4_deserialize (packet : bytes) : M (result DeserializeError v4_Message) :=
  if len packet =? 0 then Ret (Err InvalidLength)
  else
    let! (t, packet) := get_u8 packet in
    let quoting := LowerBound (ICMP_MIN_COMMON_HEADER_SIZE + ICMP_V4_MIN_MATCHING_DATA_SIZE) in
    if t =? ECHO_REPLY then
      deserialize_packet parse_echo packet (LowerBound ECHO_HEADER_SIZE) EchoReply
    else if t =? DESTINATION_UNREACHABLE then
      deserialize_packet v4_parse_destination_unreachable packet quoting DestinationUnreachable
    else if t =? SOURCE_QUENCH then
      deserialize_packet v4_parse_source_quench packet quoting SourceQuench
    else if t =? REDIRECT then
      deserialize_packet v4_parse_redirect packet quoting Redirect
    else if t =? ECHO then
      deserialize_packet parse_echo packet (LowerBound ECHO_HEADER_SIZE) EchoRequest
    else if t =? TIME_EXCEEDED then
      deserialize_packet v4_parse_time_exceeded packet quoting TimeExceeded
    else if t =? PARAMETER_PROBLEM then
      deserialize_packet v4_parse_parameter_problem packet quoting ParameterProblem
    else if t =? TIMESTAMP then
      deserialize_packet v4_parse_timestamp packet (Exact 20) Timestamp
    else if t =? TIMESTAMP_REPLY then
      deserialize_packet v4_parse_timestamp packet (Exact 20) TimestampReply
    else if t =? INFORMATION_REQUEST then
      deserialize_packet v4_parse_information packet (Exact 20) InformationRequest
    else if t =? INFORMATION_REPLY then
      deserialize_packet v4_parse_information packet (Exact 20) InformationReply
    else Ret (Err (MessageType t)).

End V4.

(** ** ICMPv6 *)

Module V6.

Definition DESTINATION_UNREACHABLE6 : Z := 1.
Definition PACKET_TOO_BIG6 : Z := 2.
Definition TIME_EXCEEDED6 : Z := 3.
Definition PARAMETER_PROBLEM6 : Z := 4.
Definition ECHO_REQUEST6 : Z := 128.
Definition ECHO_REPLY6 : Z := 129.

Record v6_DestinationUnreachable : Type := mkDU6 { du6_code : Z; du6_data : bytes }.
Record v6_PacketTooBig : Type := mkPTB { ptb_code : Z; ptb_mtu : Z; ptb_data : bytes }.
Record v6_TimeExceeded : Type := mkTE6 { te6_code : Z; te6_data : bytes }.
Record v6_ParameterProblem : Type := mkPP6 { pp6_code : Z; pp6_pointer : Z; pp6_data : bytes }.

Inductive v6_Message : Type :=
| DestinationUnreachable (x : v6_DestinationUnreachable)
| PacketTooBig (x : v6_PacketTooBig)
| TimeExceeded (x : v6_TimeExceeded)
| ParameterProblem (x : v6_ParameterProblem)
| EchoRequest (x : Echo)
| EchoReply (x : Echo).

Definition v6_type_id (self : v6_Message) : Z :=
  match self with
  | DestinationUnreachable _ => DESTINATION_UNREACHABLE6
  | PacketTooBig _ => PACKET_TOO_BIG6
  | TimeExceeded _ => TIME_EXCEEDED6
  | ParameterProblem _ => PARAMETER_PROBLEM6
  | EchoRequest _ => ECHO_REQUEST6
  | EchoReply _ => ECHO_REPLY6
  end.

Definition v6_code (self : v6_Message) : Z :=
  match self with
  | DestinationUnreachable x => du6_code x
  | PacketTooBig x => ptb_code x
  | TimeExceeded x => te6_code x
  | ParameterProblem x => pp6_code x
  | EchoRequest x | EchoReply x => echo_code x
  end.

Definition v6_len (self : v6_Message) : Z :=
  ICMP_MIN_COMMON_HEADER_SIZE +
  match self with
  | DestinationUnreachable x => len (du6_data x)
  | PacketTooBig x => len (ptb_data x)
  | TimeExceeded x => len (te6_data x)
  | ParameterProblem x => len (pp6_data x)
  | EchoRequest x | EchoReply x => len (echo_data x)
  end.

Definition v6_parse_destination_unreachable (code : Z) (packet : bytes)
  : M (result DeserializeError v6_DestinationUnreachable) :=
  if (code =? 0) || (code =? 1) || (code =? 2) || (code =? 3) || (code =? 4) || (code =? 5)
     || (code =? 6) then
    let! data := split_off 4 packet in Ret (Ok (mkDU6 code data))
  else Ret (Err (DestinationUnreachableCode code)).

Definition v6_parse_packet_too_big (code : Z) (packet : bytes)
  : M (result DeserializeError v6_PacketTooBig) :=
  let! (mtu, packet) := get_u32 packet in Ret (Ok (mkPTB code mtu packet)).

Definition v6_parse_time_exceeded (code : Z) (packet : bytes)
  : M (result DeserializeError v6_TimeExceeded) :=
  if (code =? 0) || (code =? 1) then
    let! data := split_off 4 packet in Ret (Ok (mkTE6 code data))
  else Ret (Err (TimeExceededCode code)).

Definition v6_parse_parameter_problem (code : Z) (packet : bytes)
  : M (result DeserializeError v6_ParameterProblem) :=
  let! (pointer, packet) := get_u32 packet in Ret (Ok (mkPP6 code pointer packet)).

Definition v6_responded_echo_request (self : v6_Message) : M (option Echo) :=
  let of_icmp_data (icmp_data : bytes) :=
    let! r := skip_ipv6_header icmp_data in
    match r with
    | None => Ret None
    | Some (proto, payload) =>
        if negb (proto =? IPPROTO_ICMPV6) || (len payload =? 0) then Ret None
        else
          let! (t, payload) := get_u8 payload in
          if negb (t =? ECHO_REQUEST6) then Ret None
          else
            let! r := deserialize_packet parse_echo payload
                        (LowerBound ICMP_MIN_COMMON_HEADER_SIZE) EchoRequest in
            match r with Ok (EchoRequest x) => Ret (Some x) | _ => Ret None end
    end in
  match self with
  | DestinationUnreachable x => of_icmp_data (du6_data x)
  | PacketTooBig x => of_icmp_data (ptb_data x)
  | TimeExceeded x => of_icmp_data (te6_data x)
  | ParameterProblem x => of_icmp_data (pp6_data x)
  | EchoRequest _ => Ret None
  | EchoReply x => Ret (Some x)
  end.

Definition v6_serialize (self : v6_Message) : M bytes :=
  match self with
  | EchoRequest x => echo_serialize x (v6_type_id self)
  | _ => Panic
  end.

Definition v6_deserialize (packet : bytes) : M (result DeserializeError v6_Message) :=
  if len packet =? 0 then Ret (Err InvalidLength)
  else
    let! (t, packet) := get_u8 packet in
    let quoting := LowerBound (ICMP_MIN_COMMON_HEADER_SIZE + MIN_IPV6_HEADER_SIZE) in
    if t =? DESTINATION_UNREACHABLE6 then
      deserialize_packet v6_parse_destination_unreachable packet quoting DestinationUnreachable
    else if t =? PACKET_TOO_BIG6 then
      deserialize_packet v6_parse_packet_too_big packet quoting PacketTooBig
    else if t =? TIME_EXCEEDED6 then
      deserialize_packet v6_parse_time_exceeded packet quoting TimeExceeded
    else if t =? PARAMETER_PROBLEM6 then
      deserialize_packet v6_parse_parameter_problem packet quoting ParameterProblem
    else if t =? ECHO_REQUEST6 then
      deserialize_packet parse_echo packet (LowerBound ICMP_MIN_COMMON_HEADER_SIZE) EchoRequest
    else if t =? ECHO_REPLY6 then
      deserialize_packet parse_echo packet (LowerBound ICMP_MIN_COMMON_HEADER_SIZE) EchoReply
    else Ret (Err (MessageType t)).

End V6.

(** ** Messages of either version *)

Inductive Message : Type :=
| MsgV4 (m : V4.v4_Message)
| MsgV6 (m : V6.v6_Message).

Definition serialize (self : Message) : M bytes :=
  match self with
  | MsgV4 x => V4.v4_serialize x
  | MsgV6 x => V6.v6_serialize x
  end.

Definition to_echo (self : Message) : option Echo :=
  match self with
  | MsgV4 (V4.EchoRequest x) | MsgV4 (V4.EchoReply x)
  | MsgV6 (V6.EchoRequest x) | MsgV6 (V6.EchoReply x) => Some x
  | _ => None
  end.

Definition responded_echo_request (self : Message) : M (option Echo) :=
  match self with
  | MsgV4 x => V4.v4_responded_echo_request x
  | MsgV6 x => V6.v6_responded_echo_request x
  end.

Definition type_id (self : Message) : Z :=
  match self with MsgV4 x => V4.v4_type_id x | MsgV6 x => V6.v6_type_id x end.

Definition msg_code (self : Message) : Z :=
  match self with MsgV4 x => V4.v4_code x | MsgV6 x => V6.v6_code x end.

Definition msg_len (self : Message) : Z :=
  match self with MsgV4 x => V4.v4_len x | MsgV6 x => V6.v6_len x end.

(** ** Lemmas *)

Lemma get_u16_cons x y l : get_u16 (x :: y :: l) = Ret (x * 256 + y, l).
Proof. apply (get_uint_app 2 [x; y] l). done. Qed.

Lemma get_u32_cons x y z w l :
  get_u32 (x :: y :: z :: w :: l) = Ret (((x * 256 + y) * 256 + z) * 256 + w, l).
Proof. apply (get_uint_app 4 [x; y; z; w] l). done. Qed.

Lemma split_off_2 x y l : split_off 2 (x :: y :: l) = Ret l.
Proof. by apply (split_off_app' 2 [x; y]). Qed.

Lemma split_off_3 x y z l : split_off 3 (x :: y :: z :: l) = Ret l.
Proof. by apply (split_off_app' 3 [x; y; z]). Qed.

Lemma split_off_4 x y z w l : split_off 4 (x :: y :: z :: w :: l) = Ret l.
Proof. by apply (split_off_app' 4 [x; y; z; w]). Qed.

#[export] Hint Rewrite get_u8_cons get_u16_cons get_u32_cons split_off_2 split_off_3 split_off_4
  : ttparse.

(** Run a parser on a buffer whose first bytes are named. *)
Ltac run_parser := repeat (progress (autorewrite with ttparse; cbn [bindM bindMR])).

Definition check_passes (c : LengthCheck) (m : Z) : bool :=
  match c with Exact n => n =? m | LowerBound n => n <=? m end.

Lemma deserialize_packet_cons {A B} f (out : A -> B) check c k1 k2 body :
  deserialize_packet f (c :: k1 :: k2 :: body) check out =
  if check_passes check (4 + len body) then
    let!? x := f c body in Ret (Ok (out x))
  else Ret (Err InvalidLength).
Proof.
  unfold deserialize_packet, CHECKSUM_SIZE. run_parser. rewrite !len_cons.
  replace (1 + (1 + (1 + (1 + len body)))) with (4 + len body) by lia.
  destruct check as [n|n]; simpl.
  - by destruct (n =? 4 + len body).
  - rewrite Z.ltb_antisym. by destruct (n <=? 4 + len body).
Qed.

Lemma deserialize_packet_short {A B} f (out : A -> B) check packet :
  len packet < 3 -> (forall m, m < 4 -> check_passes check m = false) ->
  deserialize_packet f packet check out = Ret (Err InvalidLength).
Proof.
  intros Hp Hc. unfold deserialize_packet. specialize (Hc (1 + len packet) ltac:(lia)).
  destruct check as [n|n]; simpl in Hc; [by rewrite Hc|].
  rewrite Z.ltb_antisym. by rewrite Hc.
Qed.

(** A packet has at least eight bytes, which are named, or is shorter. *)
Lemma packet_cases (p : bytes) :
  (len p < 8) \/ exists t c k1 k2 a b d e body, p = t :: c :: k1 :: k2 :: a :: b :: d :: e :: body.
Proof.
  destruct (Z.ltb_spec (len p) 8); [by left|right].
  destruct (destruct_list 8 p ltac:(lia)) as (h & body & -> & Hh).
  do 9 (destruct h as [|? h]; try (simpl in Hh; lia)). by eexists _, _, _, _, _, _, _, _, body.
Qed.

Lemma deserialize_packet_lt8 {A B} f (out : A -> B) check packet :
  len packet < 7 -> (forall m, m < 8 -> check_passes check m = false) ->
  deserialize_packet f packet check out = Ret (Err InvalidLength).
Proof.
  intros Hp Hc. destruct packet as [|c [|k1 [|k2 body]]];
    [apply deserialize_packet_short; [done|intros; apply Hc; lia]..|].
  rewrite deserialize_packet_cons, Hc; [done|]. rewrite !len_cons in Hp. lia.
Qed.

Ltac icmp_consts := unfold ICMP_V4_MIN_MATCHING_DATA_SIZE, ICMP_MIN_COMMON_HEADER_SIZE,
  ECHO_HEADER_SIZE, MIN_IPV4_HEADER_SIZE, MIN_IPV6_HEADER_SIZE, ICMP_ID_SIZE, ICMP_SEQNO_SIZE,
  TYPE_SIZE, CODE_SIZE, CHECKSUM_SIZE in *.

Definition is_information (m : V4.v4_Message) : bool :=
  match m with V4.InformationRequest _ | V4.InformationReply _ => true | _ => false end.

(** What a successful parse says of the packet. *)
Definition describes4 (packet : bytes) (m : V4.v4_Message) : Prop :=
  V4.v4_type_id m = oct packet 0 /\ V4.v4_code m = oct packet 1 /\
  V4.v4_len m = (if is_information m then 8 else len packet).

Definition describes6 (packet : bytes) (m : V6.v6_Message) : Prop :=
  V6.v6_type_id m = oct packet 0 /\ V6.v6_code m = oct packet 1 /\ V6.v6_len m = len packet.

Ltac icmp_branch :=
  rewrite deserialize_packet_cons; destruct (check_passes _ _) eqn:?; [|by eexists];
  unfold parse_echo, V4.v4_parse_source_quench, V4.v4_parse_redirect,
    V4.v4_parse_parameter_problem, V4.v4_parse_information,
    V4.v4_parse_destination_unreachable, V4.v4_parse_time_exceeded,
    V6.v6_parse_destination_unreachable, V6.v6_parse_time_exceeded,
    V6.v6_parse_packet_too_big, V6.v6_parse_parameter_problem;
  try match goal with |- context [if ?b then _ else Ret (Err _)] => destruct b; [|by eexists] end;
  run_parser; eexists; split; [done|]; intros m [= <-];
  (split; [done|split; [done|]]);
  cbv [V4.v4_len V6.v6_len is_information]; cbn; icmp_consts; rewrite ?len_cons; lia.

Lemma v4_deserialize_spec (packet : bytes) :
  exists r, V4.v4_deserialize packet = Ret r /\ forall m, r = Ok m -> describes4 packet m.
Proof.
  unfold V4.v4_deserialize. destruct packet as [|t rest]; [by eexists|].
  rewrite (proj2 (Z.eqb_neq _ _)) by (rewrite len_cons; pose proof (len_nonneg rest); lia).
  rewrite get_u8_cons. cbn [bindM]. cbv zeta.
  destruct (packet_cases (t :: rest)) as [Hs|(t' & c & k1 & k2 & a & b & d & e & body & E)].
  - rewrite len_cons in Hs. repeat (case_bool; [eexists; split; [apply deserialize_packet_lt8;
      [lia|intros m Hm; icmp_consts; first [apply Z.leb_gt|apply Z.eqb_neq]; lia]|done]|]). by eexists.
  - injection E as -> ->.
    repeat (case_bool; [subst t'; try icmp_branch|]); [..|by eexists].
    all: rewrite deserialize_packet_cons; destruct (check_passes _ _) eqn:Ec; [|by eexists].
    all: unfold check_passes in Ec; apply Z.eqb_eq in Ec; rewrite !len_cons in Ec.
    all: do 12 (destruct body as [|? body]; [change (len []) with 0 in Ec; rewrite ?len_cons in Ec; change (len []) with 0 in Ec; lia|rewrite len_cons in Ec]).
    all: unfold V4.v4_parse_timestamp; run_parser; eexists; split; [done|]; intros m [= <-].
    all: split; [done|split; [done|]]; cbv [V4.v4_len is_information]; icmp_consts; rewrite !len_cons; lia.
Qed.

Lemma v6_deserialize_spec (packet : bytes) :
  exists r, V6.v6_deserialize packet = Ret r /\ forall m, r = Ok m -> describes6 packet m.
Proof.
  unfold V6.v6_deserialize. destruct packet as [|t rest]; [by eexists|].
  rewrite (proj2 (Z.eqb_neq _ _)) by (rewrite len_cons; pose proof (len_nonneg rest); lia).
  rewrite get_u8_cons. cbn [bindM]. cbv zeta.
  destruct (packet_cases (t :: rest)) as [Hs|(t' & c & k1 & k2 & a & b & d & e & body & E)].
  - rewrite len_cons in Hs. repeat (case_bool; [eexists; split; [apply deserialize_packet_lt8;
      [lia|intros m Hm; icmp_consts; first [apply Z.leb_gt|apply Z.eqb_neq]; lia]|done]|]). by eexists.
  - injection E as -> ->. repeat (case_bool; [subst t'; icmp_branch|]). by eexists.
Qed.

(** The eight header bytes and the payload of a serialised echo. *)
Lemma echo_serialize_bytes e t :
  wf_bytes (echo_data e) -> is_byte t -> len (echo_data e) <= 65528 ->
  exists k1 k2, is_byte k1 /\ is_byte k2 /\
    echo_serialize e t = Ret ([t; 0; k1; k2] ++ be_bytes 2 (echo_identifier e)
      ++ be_bytes 2 (echo_sequence_number e) ++ echo_data e).
Proof.
  intros Hwf Ht Hlen. unfold echo_serialize. rewrite rfc1071_checksum_val.
  - cbn [bindM]. set (v := 65535 - _). exists ((v / 256) mod 256), (v mod 256).
    split_and!; [apply Z.mod_pos_bound; lia..|]. cbn [be_bytes].
    change (256 ^ Z.of_nat 1) with 256. change (256 ^ Z.of_nat 0) with 1. by rewrite !Z.div_1_r.
  - rewrite !wf_bytes_app. split_and!; try apply be_bytes_wf; try done.
    repeat constructor; unfold is_byte in *; lia.
  - rewrite !len_app, !len_be_bytes. change (len [t; 0]) with 2. change (2 ^ 17) with 131072. lia.
Qed.

Lemma parse_echo_be code i s d :
  0 <= i < 2 ^ 16 -> 0 <= s < 2 ^ 16 ->
  parse_echo code (be_bytes 2 i ++ be_bytes 2 s ++ d) = Ret (Ok (mkEcho code i s d)).
Proof.
  intros Hi Hs. unfold parse_echo, get_u16. rewrite get_uint_be by done. cbn [bindM].
  rewrite get_uint_be by done. done.
Qed.

Lemma deserialize_echo_be {B} (out : Echo -> B) c k1 k2 i s d n :
  n <= 8 -> 0 <= i < 2 ^ 16 -> 0 <= s < 2 ^ 16 ->
  deserialize_packet parse_echo (c :: k1 :: k2 :: be_bytes 2 i ++ be_bytes 2 s ++ d)
    (LowerBound n) out = Ret (Ok (out (mkEcho c i s d))).
Proof.
  intros Hn Hi Hs. rewrite deserialize_packet_cons.
  replace (check_passes _ _) with true.
  2:{ symmetry. apply Z.leb_le. rewrite !len_app, !len_be_bytes. pose proof (len_nonneg d). lia. }
  by rewrite parse_echo_be.
Qed.

Lemma take_echo_packet k h i s d :
  len h = 4 -> 8 <= k -> take (Z.to_nat k) (h ++ be_bytes 2 i ++ be_bytes 2 s ++ d)
    = h ++ be_bytes 2 i ++ be_bytes 2 s ++ take (Z.to_nat (k - 8)) d.
Proof.
  intros Hh Hk. rewrite !take_app, (take_ge h) by len_lia. f_equal.
  rewrite (take_ge (be_bytes 2 i)) by len_lia. f_equal.
  rewrite (take_ge (be_bytes 2 s)) by len_lia. f_equal. f_equal. len_lia.
Qed.

Lemma starts_with_take n (d : bytes) : starts_with (take n d) d = true.
Proof. apply starts_with_spec. exists (drop n d). by rewrite take_drop. Qed.

(** An echo matches itself with a truncated payload. *)
Lemma echo_eq_truncated e c k :
  echo_eq (mkEcho c (echo_identifier e) (echo_sequence_number e) (take k (echo_data e))) e = true.
Proof.
  unfold echo_eq. cbn. rewrite !Z.eqb_refl. cbn [negb orb].
  case_bool; [|apply starts_with_take].
  rewrite (take_ge (echo_data e)) by len_lia. apply starts_with_spec. exists []. by rewrite app_nil_r.
Qed.

Definition wf_echo (e : Echo) : Prop :=
  0 <= echo_identifier e < 2 ^ 16 /\ 0 <= echo_sequence_number e < 2 ^ 16 /\
  wf_bytes (echo_data e) /\ len (echo_data e) <= 65528.

#[export] Instance wf_echo_dec e : Decision (wf_echo e).
Proof. unfold wf_echo. apply _. Defined.

(** The messages that quote the packet they answer, with the quoted bytes. *)
Definition quoted4 (m : V4.v4_Message) : option bytes :=
  match m with
  | V4.DestinationUnreachable x => Some (V4.du_data x)
  | V4.TimeExceeded x => Some (V4.te_data x)
  | V4.ParameterProblem x => Some (V4.pp_data x)
  | V4.SourceQuench x => Some (V4.sq_data x)
  | V4.Redirect x => Some (V4.rd_data x)
  | _ => None
  end.

Definition quoted6 (m : V6.v6_Message) : option bytes :=
  match m with
  | V6.DestinationUnreachable x => Some (V6.du6_data x)
  | V6.PacketTooBig x => Some (V6.ptb_data x)
  | V6.TimeExceeded x => Some (V6.te6_data x)
  | V6.ParameterProblem x => Some (V6.pp6_data x)
  | _ => None
  end.

(** The two ways to quote a request: an IPv4 header of [4 * ihl] bytes with protocol
    1, and a plain IPv6 header with next header 58. *)
Definition ipv4_header (h : bytes) : Prop :=
  exists v a rest, h = v :: a ++ [IPPROTO_ICMP] ++ rest /\ is_byte v /\
    length a = 8%nat /\ len h = 4 * (v mod 16) /\ 20 <= len h.

Definition ipv6_header (h : bytes) : Prop :=
  exists a rest, h = a ++ [IPPROTO_ICMPV6] ++ rest /\ length a = 6%nat /\ len h = 40.

Lemma skip_ipv4_quoted h p :
  ipv4_header h -> skip_ipv4_header (h ++ p) = Ret (Some (IPPROTO_ICMP, p)).
Proof.
  intros (v & a & rest & -> & Hv & Ha & Hl & H20). unfold skip_ipv4_header, MIN_IPV4_HEADER_SIZE.
  pose proof (len_nonneg p). rewrite len_app, (proj2 (Z.ltb_ge _ _)) by lia.
  do 9 (destruct a as [|? a]; try (simpl in Ha; lia)). clear Ha. cbn [app] in *.
  rewrite get_u8_cons. cbn [bindM]. change 0x0F with (2 ^ 4 - 1). rewrite land_mask by lia.
  change (2 ^ 4) with 16. rewrite !len_cons, ?len_app in *.
  destruct (Z.ltb_spec (v mod 16 * 4) 20); [lia|].
  rewrite (proj2 (Z.ltb_ge _ _)) by lia. cbn [orb].
  rewrite advance_ok by (rewrite !len_cons, len_app; pose proof (len_nonneg rest); lia).
  change (Z.to_nat (1 + 2 + 2 + 2 + 1)) with 8%nat. cbn [drop bindM]. rewrite get_u8_cons.
  cbn [bindM]. unfold advance. by rewrite split_off_app' by lia.
Qed.

Lemma skip_ipv6_quoted h p :
  ipv6_header h -> skip_ipv6_header (h ++ p) = Ret (Some (IPPROTO_ICMPV6, p)).
Proof.
  intros (a & rest & -> & Ha & Hl). unfold skip_ipv6_header, MIN_IPV6_HEADER_SIZE.
  pose proof (len_nonneg p). rewrite len_app, Hl, (proj2 (Z.ltb_ge _ _)) by lia.
  rewrite <- !app_assoc. unfold advance at 1. rewrite split_off_app' by len_lia. cbn [bindM app].
  rewrite get_u8_cons. cbn [bindM]. unfold advance.
  rewrite !len_app in Hl. change (len [IPPROTO_ICMPV6]) with 1 in Hl.
  rewrite split_off_app' by len_lia. cbn [bindM].
  by destruct (length p).
Qed.

(** The request quoted by an error message, for either version. *)
Lemma v4_responded_quoted m h c k1 k2 i s d :
  quoted4 m = Some (h ++ V4.ECHO :: c :: k1 :: k2 :: be_bytes 2 i ++ be_bytes 2 s ++ d) ->
  ipv4_header h -> 0 <= i < 2 ^ 16 -> 0 <= s < 2 ^ 16 ->
  V4.v4_responded_echo_request m = Ret (Some (mkEcho c i s d)).
Proof.
  intros Hq Hh Hi Hs.
  destruct m as [x|x|x|x|x|x|x|x|x|x|x]; try discriminate Hq; apply (inj Some) in Hq;
    unfold V4.v4_responded_echo_request; rewrite Hq, skip_ipv4_quoted by done; cbn [bindM];
    rewrite Z.eqb_refl, (proj2 (Z.eqb_neq _ _)) by (rewrite !len_cons; len_lia);
    cbn [negb orb]; rewrite get_u8_cons; cbn [bindM];
    rewrite Z.eqb_refl; cbn [negb];
    by rewrite deserialize_echo_be.
Qed.

Lemma v6_responded_quoted m h c k1 k2 i s d :
  quoted6 m = Some (h ++ V6.ECHO_REQUEST6 :: c :: k1 :: k2 :: be_bytes 2 i ++ be_bytes 2 s ++ d) ->
  ipv6_header h -> 0 <= i < 2 ^ 16 -> 0 <= s < 2 ^ 16 ->
  V6.v6_responded_echo_request m = Ret (Some (mkEcho c i s d)).
Proof.
  intros Hq Hh Hi Hs.
  destruct m as [x|x|x|x|x|x]; try discriminate Hq; apply (inj Some) in Hq;
    unfold V6.v6_responded_echo_request; rewrite Hq, skip_ipv6_quoted by done; cbn [bindM];
    rewrite Z.eqb_refl, (proj2 (Z.eqb_neq _ _)) by (rewrite !len_cons; len_lia);
    cbn [negb orb]; rewrite get_u8_cons; cbn [bindM];
    rewrite Z.eqb_refl; cbn [negb];
    by rewrite deserialize_echo_be.
Qed.

(** ** Properties *)

(** Parsing an ICMP packet of either version never panics, and a
    parsed message has the type and code bytes of the packet and, but for the
    information messages, the length of the packet. *)
Theorem icmp_deserialize_total (packet : bytes) :
  (exists r, V4.v4_deserialize packet = Ret r /\ forall m, r = Ok m -> describes4 packet m) /\
  (exists r, V6.v6_deserialize packet = Ret r /\ forall m, r = Ok m -> describes6 packet m).
Proof. split; [apply v4_deserialize_spec|apply v6_deserialize_spec]. Qed.

(** The endpoint parses its own echo requests back: identifier, sequence
    number and payload survive; the code is 0 on the wire whatever the record says. *)
Theorem echo_request_roundtrip (e : Echo) :
  wf_echo e ->
  let e0 := mkEcho 0 (echo_identifier e) (echo_sequence_number e) (echo_data e) in
  (exists p, serialize (MsgV4 (V4.EchoRequest e)) = Ret p /\
    V4.v4_deserialize p = Ret (Ok (V4.EchoRequest e0))) /\
  (exists p, serialize (MsgV6 (V6.EchoRequest e)) = Ret p /\
    V6.v6_deserialize p = Ret (Ok (V6.EchoRequest e0))).
Proof.
  intros (Hi & Hs & Hd & Hl). split; cbn [serialize V4.v4_serialize V6.v6_serialize V4.v4_type_id V6.v6_type_id].
  - destruct (echo_serialize_bytes e V4.ECHO) as (k1 & k2 & _ & _ & ->); [done|by_compute|done|].
    eexists; split; [done|]. cbn [app]. unfold V4.v4_deserialize.
    rewrite (proj2 (Z.eqb_neq _ _)) by (rewrite len_cons; len_lia).
    rewrite get_u8_cons. cbn [bindM]. by apply deserialize_echo_be.
  - destruct (echo_serialize_bytes e V6.ECHO_REQUEST6) as (k1 & k2 & _ & _ & ->); [done|by_compute|done|].
    eexists; split; [done|]. cbn [app]. unfold V6.v6_deserialize.
    rewrite (proj2 (Z.eqb_neq _ _)) by (rewrite len_cons; len_lia).
    rewrite get_u8_cons. cbn [bindM]. by apply deserialize_echo_be.
Qed.

Definition sample_echo : Echo := mkEcho 0 7 9 [1; 2; 3].

Lemma echo_request_roundtrip_witness :
  wf_echo sample_echo /\
  exists p, serialize (MsgV4 (V4.EchoRequest sample_echo)) = Ret p /\
    V4.v4_deserialize p = Ret (Ok (V4.EchoRequest sample_echo)).
Proof.
  split; [by_compute|]. apply (proj1 (echo_request_roundtrip sample_echo ltac:(by_compute))).
Defined.

(** An ICMP error that quotes the IP packet of one of the endpoint's
    echo requests, truncated anywhere after its eight header bytes, is recognised
    as a response to that request. *)
Theorem icmp_error_matches_request (e : Echo) (k : Z) (p h : bytes) :
  wf_echo e -> 8 <= k ->
  (forall m, echo_serialize e V4.ECHO = Ret p -> ipv4_header h ->
    quoted4 m = Some (h ++ take (Z.to_nat k) p) ->
    exists e', responded_echo_request (MsgV4 m) = Ret (Some e') /\ echo_eq e' e = true) /\
  (forall m, echo_serialize e V6.ECHO_REQUEST6 = Ret p -> ipv6_header h ->
    quoted6 m = Some (h ++ take (Z.to_nat k) p) ->
    exists e', responded_echo_request (MsgV6 m) = Ret (Some e') /\ echo_eq e' e = true).
Proof.
  intros (Hi & Hs & Hd & Hl) Hk. split; intros m Hp Hh Hq.
  - destruct (echo_serialize_bytes e V4.ECHO) as (k1 & k2 & _ & _ & E); [done|by_compute|done|].
    rewrite E in Hp. apply Ret_inj in Hp as <-. rewrite take_echo_packet in Hq by done. cbn [app] in Hq.
    eexists. split; [by eapply v4_responded_quoted|]. apply echo_eq_truncated.
  - destruct (echo_serialize_bytes e V6.ECHO_REQUEST6) as (k1 & k2 & _ & _ & E); [done|by_compute|done|].
    rewrite E in Hp. apply Ret_inj in Hp as <-. rewrite take_echo_packet in Hq by done. cbn [app] in Hq.
    eexists. split; [by eapply v6_responded_quoted|]. apply echo_eq_truncated.
Qed.

Definition sample_header4 : bytes := 0x45 :: replicate 8 0 ++ [IPPROTO_ICMP] ++ replicate 10 0.
Definition sample_packet4 : bytes := [8; 0; 0xf3; 0xed; 0; 7; 0; 9; 1; 2; 3].

Lemma icmp_error_matches_request_witness :
  exists e', responded_echo_request (MsgV4 (V4.TimeExceeded (V4.mkTE 0
    (sample_header4 ++ take (Z.to_nat 9) sample_packet4)))) = Ret (Some e') /\
    echo_eq e' sample_echo = true.
Proof.
  apply (proj1 (icmp_error_matches_request sample_echo 9 sample_packet4 sample_header4
    ltac:(by_compute) ltac:(lia))); [vm_compute; reflexivity| |reflexivity].
  exists 0x45, (replicate 8 0), (replicate 10 0). split; [reflexivity|].
  split; [by_compute|]. split; [reflexivity|]. split; [reflexivity|]. vm_compute. congruence.
Defined.

(** The equality of echo requests, which keys the table of pending
    requests, is reflexive, symmetric and compatible with the hash, but it is not
    transitive: an empty payload equals every payload. *)
Theorem echo_eq_laws :
  (forall e, echo_eq e e = true) /\
  (forall a b, echo_eq a b = echo_eq b a) /\
  (forall a b, echo_eq a b = true -> echo_hash a = echo_hash b) /\
  ~ (forall a b c, echo_eq a b = true -> echo_eq b c = true -> echo_eq a c = true).
Proof.
  split_and!.
  - intros e. unfold echo_eq. rewrite !Z.eqb_refl. cbn [negb orb].
    assert (starts_with (echo_data e) (echo_data e) = true) as ->; [|by destruct (_ <=? _)].
    apply starts_with_spec. exists []. by rewrite app_nil_r.
  - intros a b. unfold echo_eq. rewrite (Z.eqb_sym (echo_identifier b)), (Z.eqb_sym (echo_sequence_number b)).
    destruct (_ || _); [done|].
    destruct (Z.leb_spec (len (echo_data b)) (len (echo_data a))),
      (Z.leb_spec (len (echo_data a)) (len (echo_data b))); [|done|done|lia].
    apply eq_bool_prop_intro. rewrite !Is_true_true, !starts_with_spec.
    split; intros [k Hk]; (assert (k = []) as ->; [|exists []; by rewrite Hk, !app_nil_r]);
      apply len_nil_inv; rewrite Hk, len_app in *; lia.
  - intros a b. unfold echo_eq, echo_hash. destruct (Z.eqb_spec (echo_identifier a) (echo_identifier b)), (Z.eqb_spec (echo_sequence_number a) (echo_sequence_number b)); cbn [negb orb]; try done. congruence.
  - intros H. specialize (H (mkEcho 0 1 1 [1]) (mkEcho 0 1 1 []) (mkEcho 0 1 1 [2]) eq_refl eq_refl).
    discriminate H.
Qed.
