(* ===== verification/Datagram.v ===== *)
(** * Datagrams and the datagram source of a multiplexed stream

    The datagram types of lib/src/downstream.rs and lib/src/forwarder.rs, the
    decoder interface of lib/src/http_datagram_codec.rs, and [DatagramDecoder] of
    lib/src/http_downstream.rs, which cuts a byte stream into datagrams with a
    decoder.  [ChunkDecoder] states what a decoder promises; the datagram source is
    proved against it, and the UDP and ICMP codecs are instances. *)

From S2P Require Import Prelude.
From S2P Require Import Varint.
From S2P Require Import NetUtils.
From S2P Require Import Icmp.

(** ** Datagrams *)

Record DownUdpDatagramMeta : Type := mkDownMeta {
  dm_source : SocketAddr;
  dm_destination : SocketAddr;
  dm_app_name : option bytes;
}.

Record DownUdpDatagram : Type := mkDownUdp { du_meta : DownUdpDatagramMeta; du_payload : bytes }.

Record DownIcmpDatagram : Type := mkDownIcmp {
  di_peer : IpAddr;
  di_message : Message;
  di_ttl : Z;
}.

Record UdpDatagramMeta : Type := mkMeta { um_source : SocketAddr; um_destination : SocketAddr }.

Record UdpDatagram : Type := mkUdp { ud_meta : UdpDatagramMeta; ud_payload : bytes }.

Record IcmpDatagram : Type := mkIcmp { id_peer : IpAddr; id_message : Message }.

#[export] Instance UdpDatagramMeta_eq_dec : EqDecision UdpDatagramMeta.
Proof. solve_decision. Defined.

#[export] Instance UdpDatagramMeta_countable : Countable UdpDatagramMeta.
Proof.
  apply (inj_countable' (fun a => (um_source a, um_destination a)) (fun p => mkMeta p.1 p.2)).
  by intros [].
Defined.

Definition reversed (self : UdpDatagramMeta) : UdpDatagramMeta :=
  mkMeta (um_destination self) (um_source self).

Definition meta_from (x : DownUdpDatagramMeta) : UdpDatagramMeta :=
  mkMeta (dm_source x) (dm_destination x).

(** ** Decoders *)

Inductive DecodeResult (D : Type) : Type :=
| WantMore
| Complete (d : D) (tail : bytes).
Arguments WantMore {D}.
Arguments Complete {D} d tail.

(** A decoder [decode] for packets of type [P] with wire format [enc]: after it
    consumed the prefix [pre] of a packet [p] it is [at_packet d p pre]; a chunk that
    does not reach the end of the packet is absorbed, and one that reaches it
    completes the packet and hands back the rest.  A packet that is not [eager]
    completes only when a further byte arrives. *)
Class ChunkDecoder {St P D : Type} (decode : St -> bytes -> M (DecodeResult D * St))
    (wf : P -> Prop) (enc : P -> bytes) (out : P -> D) (eager : P -> bool) : Type := {
  at_packet : St -> P -> bytes -> Prop;
  idle : St -> Prop;
  idle_at d p : idle d -> wf p -> at_packet d p [];
  decode_more d p pre data rest :
    wf p -> at_packet d p pre -> enc p = pre ++ data ++ rest -> rest <> [] \/ eager p = false ->
    exists d', decode d data = Ret (WantMore, d') /\ at_packet d' p (pre ++ data);
  decode_done d p pre rem tail :
    wf p -> at_packet d p pre -> enc p = pre ++ rem -> tail <> [] \/ eager p = true ->
    exists d', decode d (rem ++ tail) = Ret (Complete (out p) tail, d') /\ idle d';
  eager_nonempty d p pre : wf p -> at_packet d p pre -> eager p = true -> pre <> enc p;
}.

(** ** The datagram source *)

(** [DatagramDecoder]: the chunks still to come from [source] (then end of file),
    the decoder and [pending_bytes]. *)
Record DatagramDecoder (St : Type) : Type := mkSource {
  ds_source : list bytes;
  ds_decoder : St;
  ds_pending : list bytes;
}.
Arguments mkSource {St}.
Arguments ds_source {St}.
Arguments ds_decoder {St}.
Arguments ds_pending {St}.

Section datagram_source.
Context {St D : Type} (decode : St -> bytes -> M (DecodeResult D * St)).

(** One round of the loop of [read]: [inl] goes round again. *)
Definition read_round (self : DatagramDecoder St)
  : DatagramDecoder St + M (result ErrorKind D * DatagramDecoder St) :=
  let go (chunk : bytes) (source pending : list bytes) :=
    match decode (ds_decoder self) chunk with
    | Panic => inr Panic
    | Ret (WantMore, d) => inl (mkSource source d pending)
    | Ret (Complete datagram tail, d) =>
        inr (Ret (Ok datagram,
          mkSource source d (if len tail =? 0 then pending else tail :: pending)))
    end in
  match ds_pending self with
  | [] =>
      match ds_source self with
      | [] => inr (Ret (Err UnexpectedEof, self))
      | chunk :: source => go chunk source []
      end
  | chunk :: pending => go chunk (ds_source self) pending
  end.

(** Each round takes a chunk, so there is one round per chunk and one for the end. *)
Definition read (self : DatagramDecoder St) : M (result ErrorKind D * DatagramDecoder St) :=
  match nsteps read_round (S (length (ds_pending self) + length (ds_source self))) (inl self) with
  | inr r => r
  | inl _ => Panic
  end.

(** [n] calls of [read], stopping at the first error. *)
Fixpoint read_many (n : nat) (self : DatagramDecoder St) : M (list D * option ErrorKind) :=
  match n with
  | O => Ret ([], None)
  | S n =>
      let! (r, self) := read self in
      match r with
      | Err e => Ret ([], Some e)
      | Ok d => let! (l, e) := read_many n self in Ret (d :: l, e)
      end
  end.

(** The bytes the source has still to decode. *)
Definition stream (self : DatagramDecoder St) : bytes :=
  concat (ds_pending self) ++ concat (ds_source self).

Definition rounds (self : DatagramDecoder St) : nat := length (ds_pending self) + length (ds_source self).

(** ** Lemmas *)

Lemma concat_cons (x : bytes) l : concat (x :: l) = x ++ concat l.
Proof. done. Qed.

(** The next chunk, wherever it is. *)
Lemma read_round_chunk self c :
  (exists p, ds_pending self = c :: p) \/ (ds_pending self = [] /\ exists s, ds_source self = c :: s) ->
  exists source pending, stream self = c ++ concat pending ++ concat source /\
    rounds self = S (length pending + length source) /\
    read_round self = match decode (ds_decoder self) c with
      | Panic => inr Panic
      | Ret (WantMore, d) => inl (mkSource source d pending)
      | Ret (Complete datagram tail, d) =>
          inr (Ret (Ok datagram, mkSource source d (if len tail =? 0 then pending else tail :: pending)))
      end.
Proof.
  unfold read_round, stream, rounds.
  intros [[p Hp]|[Hp [s Hs]]]; rewrite Hp; [|rewrite Hs].
  - exists (ds_source self), p. by rewrite concat_cons, <- app_assoc.
  - by exists s, [].
Qed.

Lemma stream_empty self : rounds self = O -> stream self = [] /\ read_round self = inr (Ret (Err UnexpectedEof, self)).
Proof.
  unfold rounds, stream, read_round. destruct (ds_pending self), (ds_source self); simpl; done || lia.
Qed.

Lemma chunk_cases self :
  rounds self = O \/ exists c, (exists p, ds_pending self = c :: p) \/ (ds_pending self = [] /\ exists s, ds_source self = c :: s).
Proof.
  unfold rounds. destruct (ds_pending self) as [|c p]; [|right; eauto].
  destruct (ds_source self) as [|c s]; [by left|right; eauto].
Qed.

Context {P : Type} {wf : P -> Prop} {enc : P -> bytes} {out : P -> D} {eager : P -> bool}
  {CD : ChunkDecoder decode wf enc out eager}.

(** One round in the middle of a packet: [rem] is the rest of the packet and [rest]
    what follows it. *)
Lemma read_round_packet self p pre rem rest c :
  wf p -> at_packet (ds_decoder self) p pre -> enc p = pre ++ rem ->
  stream self = rem ++ rest -> rest <> [] \/ eager p = true ->
  (exists p, ds_pending self = c :: p) \/ (ds_pending self = [] /\ exists s, ds_source self = c :: s) ->
  (exists self' pre' rem', read_round self = inl self' /\ at_packet (ds_decoder self') p pre' /\
    enc p = pre' ++ rem' /\ stream self' = rem' ++ rest /\ S (rounds self') = rounds self) \/
  (exists self', read_round self = inr (Ret (Ok (out p), self')) /\ idle (ds_decoder self') /\
    stream self' = rest /\ (rounds self' <= rounds self)%nat).
Proof.
  intros Hwf Hat Henc Hst Hrest Hc.
  destruct (read_round_chunk self c Hc) as (source & pending & Hs & Hr & ->).
  rewrite Hs in Hst. clear Hs.
  destruct (app_eq_app _ _ _ _ Hst) as (k & [[Ec El]|[Erem El]]).
  - (* the chunk reaches the end of the packet *)
    destruct (decide (k = [] /\ eager p = false)) as [[-> Hn]|Hk].
    + rewrite app_nil_r in Ec. subst c. simpl in El.
      destruct (decode_more (ds_decoder self) p pre rem [] Hwf Hat) as (d' & -> & Hat');
        [by rewrite app_nil_r|by right|].
      left. eexists _, (pre ++ rem), []. split_and!; [done|done|by rewrite app_nil_r| |done].
      by unfold stream; simpl.
    + subst c. destruct (decode_done (ds_decoder self) p pre rem k Hwf Hat Henc) as (d' & -> & Hi).
      { destruct k; [|by left]. right. destruct (eager p); [done|]. by destruct Hk. }
      right. eexists. split_and!; [done|done| |].
      * unfold stream. simpl. case_bool; simpl.
        -- rewrite (len_nil_inv k) in El by lia. by rewrite El.
        -- rewrite El. by rewrite <- app_assoc.
      * unfold rounds. simpl. case_bool; simpl; unfold rounds in Hr; lia.
  - (* the chunk stays within the packet *)
    destruct (decide (k = [])) as [->|Hk].
    + rewrite app_nil_r in Erem. subst c.
      destruct (eager p) eqn:He.
      * destruct (decode_done (ds_decoder self) p pre rem [] Hwf Hat Henc) as (d' & E & Hi); [by right|].
        rewrite app_nil_r in E. rewrite E. right. eexists. split_and!; [done|done| |].
        -- unfold stream. simpl. by rewrite El.
        -- unfold rounds in *. simpl. lia.
      * destruct (decode_more (ds_decoder self) p pre rem [] Hwf Hat) as (d' & -> & Hat');
          [by rewrite app_nil_r|by right|].
        left. eexists _, (pre ++ rem), []. split_and!; [done|done|by rewrite app_nil_r| |done].
        unfold stream. simpl. done.
    + subst rem. destruct (decode_more (ds_decoder self) p pre c k Hwf Hat) as (d' & -> & Hat');
        [done|by left|].
      left. eexists _, (pre ++ c), k. split_and!; [done|done|by rewrite <- app_assoc| |done].
      unfold stream. simpl. done.
Qed.

Lemma read_packet self p rest :
  wf p -> idle (ds_decoder self) -> stream self = enc p ++ rest -> rest <> [] \/ eager p = true ->
  exists self', read self = Ret (Ok (out p), self') /\ idle (ds_decoder self') /\ stream self' = rest.
Proof.
  intros Hwf Hi Hst Hrest. unfold read. change (length _ + length _)%nat with (rounds self).
  assert (forall n self pre rem, (rounds self <= n)%nat -> at_packet (ds_decoder self) p pre ->
    enc p = pre ++ rem -> stream self = rem ++ rest ->
    exists self', nsteps read_round (S n) (inl self) = inr (Ret (Ok (out p), self')) /\
      idle (ds_decoder self') /\ stream self' = rest) as H.
  { clear self Hi Hst. induction n as [|n IH]; intros self pre rem Hn Hat Henc Hst;
      (destruct (chunk_cases self) as [H0|[c Hc]];
        [exfalso; apply stream_empty in H0 as [H0 _]; rewrite H0 in Hst;
         symmetry in Hst; apply app_nil in Hst as [-> ->]; destruct Hrest as [Hrest|Hrest]; [done|];
         eapply eager_nonempty; eauto; by rewrite Henc, app_nil_r|]);
      (destruct (read_round_packet self p pre rem rest c) as
        [(self' & pre' & rem' & E & Hat' & Henc' & Hst' & Hr)|(self' & E & Hi & Hst' & Hr)]; try done);
      cbn [nsteps]; rewrite E.
    - lia.
    - eauto.
    - apply (IH self' pre' rem'); (done || lia).
    - eauto. }
  destruct (H (rounds self) self [] (enc p)) as (self' & -> & Hi' & Hst'); [lia|by apply idle_at|done|done|].
  eauto.
Qed.

Lemma read_end self : idle (ds_decoder self) -> stream self = [] -> (forall d, idle d -> decode d [] = Ret (WantMore, d)) ->
  exists self', read self = Ret (Err UnexpectedEof, self').
Proof.
  intros Hi Hst Hd. unfold read. change (length _ + length _)%nat with (rounds self).
  remember (rounds self) as n eqn:En. revert self En Hi Hst.
  induction n as [|n IH]; intros self En Hi Hst.
  { destruct (stream_empty self) as [_ E]; [done|]. cbn [nsteps]. rewrite E. eauto. }
  destruct (chunk_cases self) as [H0|[c Hc]]; [lia|].
  destruct (read_round_chunk self c Hc) as (source & pending & Hs & Hr & E).
  rewrite Hs in Hst. apply app_nil in Hst as [-> Hst].
  change (nsteps read_round (S (S n)) (inl self)) with (nsteps read_round (S n) (read_round self)).
  rewrite E, Hd by done.
  apply (IH (mkSource source (ds_decoder self) pending)); [unfold rounds; simpl; lia|done|done].
Qed.

Lemma read_many_packets ps : forall self,
  Forall wf ps -> idle (ds_decoder self) -> stream self = concat (enc <$> ps) ->
  (forall p, last ps = Some p -> eager p = true) -> (forall p, wf p -> enc p <> []) ->
  (forall d, idle d -> decode d [] = Ret (WantMore, d)) ->
  read_many (S (length ps)) self = Ret (out <$> ps, Some UnexpectedEof).
Proof.
  induction ps as [|p ps IH]; intros self Hwf Hi Hst Hlast Hne Hd.
  - cbn [length read_many]. destruct (read_end self Hi Hst Hd) as [self' ->]. done.
  - apply Forall_cons in Hwf as [Hp Hps]. cbn [length]. remember (S (length ps)) as n.
    cbn [read_many]. destruct (read_packet self p (concat (enc <$> ps))) as (self' & -> & Hi' & Hst'); try done.
    { destruct ps as [|q ps]; [right; by apply Hlast|left]. intros Hc.
      apply Forall_cons in Hps as [Hq _]. apply (Hne q Hq). simpl in Hc. by apply app_nil in Hc as [-> _]. }
    cbn [bindM]. subst n. rewrite (IH self'); try done. intros q Hq. apply Hlast.
    destruct ps; [done|]. done.
Qed.

End datagram_source.
