(* ===== verification/UdpCodec.v ===== *)
(** * The UDP datagram codec (lib/src/http_udp_codec.rs)

    The incremental decoder of the packets a client sends over a UDP multiplexer
    stream, as the state machine of the source, and the encoder of the packets sent
    to the client. *)

From S2P Require Import Prelude.
From S2P Require Import Varint.
From S2P Require Import NetUtils.
From S2P Require Import Icmp.
From S2P Require Import Datagram.

Definition UDPPKT_LENGTH_SIZE : Z := 4.
Definition UDPPKT_ADDR_SIZE : Z := 16.
Definition UDPPKT_PORT_SIZE : Z := 2.
Definition UDPPKT_APPLEN_SIZE : Z := 1.
Definition UDPPKT_IN_FIXED_HEADER_SIZE : Z :=
  UDPPKT_LENGTH_SIZE + 2 * (UDPPKT_ADDR_SIZE + UDPPKT_PORT_SIZE) + UDPPKT_APPLEN_SIZE.
Definition UDPPKT_IN_FIXED_HEADER_NO_LENGTH_SIZE : Z :=
  UDPPKT_IN_FIXED_HEADER_SIZE - UDPPKT_LENGTH_SIZE.
Definition UDPPKT_OUT_FIXED_HEADER_SIZE : Z :=
  UDPPKT_LENGTH_SIZE + 2 * (UDPPKT_ADDR_SIZE + UDPPKT_PORT_SIZE).
Definition UDPPKT_OUT_FIXED_HEADER_NO_LENGTH_SIZE : Z :=
  UDPPKT_OUT_FIXED_HEADER_SIZE - UDPPKT_LENGTH_SIZE.
Definition MAX_UDP_IN_PAYLOAD_SIZE : Z :=
  MAX_UDP_PAYLOAD_SIZE - UDPPKT_IN_FIXED_HEADER_NO_LENGTH_SIZE.

Inductive RecvState : Type :=
| Length
| FixedHeader
| AppName (length : Z)
| Payload (length : Z)
| Dropping (remaining : Z).

Record Decoder : Type := mkDecoder {
  dec_state : RecvState;
  dec_total_length : Z;
  dec_buffer : bytes;
  dec_source : option SocketAddr;
  dec_destination : option SocketAddr;
  dec_app_name : option bytes;
}.

Definition decoder_new : Decoder := mkDecoder Length 0 [] None None None.

(** Field assignments. *)
Definition set_state (s : RecvState) (d : Decoder) : Decoder :=
  mkDecoder s (dec_total_length d) (dec_buffer d) (dec_source d) (dec_destination d) (dec_app_name d).
Definition set_total (n : Z) (d : Decoder) : Decoder :=
  mkDecoder (dec_state d) n (dec_buffer d) (dec_source d) (dec_destination d) (dec_app_name d).
Definition set_buffer (b : bytes) (d : Decoder) : Decoder :=
  mkDecoder (dec_state d) (dec_total_length d) b (dec_source d) (dec_destination d) (dec_app_name d).
Definition set_addrs (s t : SocketAddr) (d : Decoder) : Decoder :=
  mkDecoder (dec_state d) (dec_total_length d) (dec_buffer d) (Some s) (Some t) (dec_app_name d).
Definition set_app_name (o : option bytes) (d : Decoder) : Decoder :=
  mkDecoder (dec_state d) (dec_total_length d) (dec_buffer d) (dec_source d) (dec_destination d) o.

Definition buffered_read (self : Decoder) (input : bytes) (cap : Z)
  : M (option (bytes * bytes) * Decoder) :=
  let! _ := assertM ((len (dec_buffer self) <? cap) || (cap =? 0)) in
  let! room := usub cap (len (dec_buffer self)) in
  let to_drain := Z.min (len input) room in
  let! (head, input) := split_to to_drain input in
  let self := set_buffer (dec_buffer self ++ head) self in
  if len (dec_buffer self) <? cap then
    let! _ := assertM (len input =? 0) in Ret (None, self)
  else Ret (Some (dec_buffer self, input), set_buffer [] self).

Definition process_client_length (self : Decoder) (data : bytes) : M (bytes * Decoder) :=
  let! (r, self) := buffered_read self data UDPPKT_LENGTH_SIZE in
  match r with
  | None => Ret ([], self)
  | Some (raw_length, tail) =>
      let! (total_length, _) := get_u32 raw_length in
      let self := set_total total_length self in
      if UDPPKT_IN_FIXED_HEADER_NO_LENGTH_SIZE <=? total_length then
        Ret (tail, set_state FixedHeader self)
      else Ret (tail, set_state (Dropping total_length) self)
  end.

Definition process_client_fixed_header (self : Decoder) (data : bytes) : M (bytes * Decoder) :=
  let! (r, self) := buffered_read self data UDPPKT_IN_FIXED_HEADER_NO_LENGTH_SIZE in
  match r with
  | None => Ret ([], self)
  | Some (header, tail) =>
      let! (sip, header) := get_fixed_size_ip header in
      let! (sport, header) := get_u16 header in
      let! (dip, header) := get_fixed_size_ip header in
      let! (dport, header) := get_u16 header in
      let self := set_addrs (mkAddr sip sport) (mkAddr dip dport) self in
      let! (app_name_length, _) := get_u8 header in
      let! limit := usub MAX_UDP_IN_PAYLOAD_SIZE app_name_length in
      if limit <? dec_total_length self then
        let! n := usub (dec_total_length self) UDPPKT_IN_FIXED_HEADER_NO_LENGTH_SIZE in
        Ret (tail, set_state (Dropping n) self)
      else if UDPPKT_IN_FIXED_HEADER_NO_LENGTH_SIZE + app_name_length <=? dec_total_length self then
        Ret (tail, set_state (AppName app_name_length) self)
      else
        let! n := usub (dec_total_length self) UDPPKT_IN_FIXED_HEADER_NO_LENGTH_SIZE in
        Ret (tail, set_state (Dropping n) self)
  end.

Definition process_client_app_name (self : Decoder) (length : Z) (data : bytes)
  : M (bytes * Decoder) :=
  let! (r, self) := buffered_read self data length in
  match r with
  | None => Ret ([], self)
  | Some (name, tail) =>
      let! n := usub (dec_total_length self) UDPPKT_IN_FIXED_HEADER_NO_LENGTH_SIZE in
      let! payload_length := usub n length in
      if utf8_valid name then
        Ret (tail, set_state (Payload payload_length) (set_app_name (Some name) self))
      else Ret (tail, set_state (Dropping payload_length) self)
  end.

Definition process_client_payload (self : Decoder) (length : Z) (data : bytes)
  : M (option DownUdpDatagram * bytes * Decoder) :=
  let complete (to_send tail : bytes) (self : Decoder) :=
    let! source := unwrap (dec_source self) in
    let! destination := unwrap (dec_destination self) in
    Ret (Some (mkDownUdp (mkDownMeta source destination (dec_app_name self)) to_send), tail,
         set_app_name None (set_state Length self)) in
  if (len (dec_buffer self) =? 0) && (length <=? len data) then
    let! (to_send, data) := split_to length data in
    complete to_send data self
  else
    let! room := usub length (len (dec_buffer self)) in
    let to_drain := Z.min (len data) room in
    let! (head, data) := split_to to_drain data in
    let self := set_buffer (dec_buffer self ++ head) self in
    if len (dec_buffer self) <? length then Ret (None, data, self)
    else complete (dec_buffer self) data (set_buffer [] self).

Definition decode_chunk_once (self : Decoder) (data : bytes)
  : M (option DownUdpDatagram * bytes * Decoder) :=
  match dec_state self with
  | Length => let! (tail, self) := process_client_length self data in Ret (None, tail, self)
  | FixedHeader => let! (tail, self) := process_client_fixed_header self data in Ret (None, tail, self)
  | AppName length =>
      let! (tail, self) := process_client_app_name self length data in Ret (None, tail, self)
  | Payload length => process_client_payload self length data
  | Dropping remaining =>
      let to_drop := Z.min remaining (len data) in
      let! s := if remaining <=? to_drop then Ret Length
                else (let! n := usub remaining to_drop in Ret (Dropping n)) in
      let! (head, _) := split_to to_drop data in
      Ret (None, head, set_state s self)
  end.

(** One round of the loop of [decode_chunk]. *)
Definition decode_round (s : Decoder * bytes)
  : (Decoder * bytes) + M (DecodeResult DownUdpDatagram * Decoder) :=
  let '(self, data) := s in
  if len data =? 0 then inr (Ret (WantMore, self))
  else
    match decode_chunk_once self data with
    | Panic => inr Panic
    | Ret (Some d, tail, self) => inr (Ret (Complete d tail, self))
    | Ret (None, tail, self) => inl (self, tail)
    end.

(** The bound on the number of rounds: each byte of the chunk is consumed or, while a
    packet is dropped, read again at most once per remaining byte (of fewer than
    [2^32]); [udp_decode_chunk_total] shows that it is enough. *)
Definition decode_fuel (data : bytes) : positive := Z.to_pos ((len data + 1) * 2 ^ 33).

Definition udp_decode_chunk (self : Decoder) (data : bytes)
  : M (DecodeResult DownUdpDatagram * Decoder) :=
  match iterate decode_round (decode_fuel data) (inl (self, data)) with
  | inr r => r
  | inl _ => Panic
  end.

(** [Encoder::encode_packet]. *)
Definition udp_encode_packet (datagram : UdpDatagram) : option bytes :=
  let total_length := UDPPKT_OUT_FIXED_HEADER_NO_LENGTH_SIZE + len (ud_payload datagram) in
  let source := um_source (ud_meta datagram) in
  let destination := um_destination (ud_meta datagram) in
  Some (be_bytes 4 (as_u32 total_length)
        ++ put_fixed_size_ip (addr_ip source) ++ be_bytes 2 (addr_port source)
        ++ put_fixed_size_ip (addr_ip destination) ++ be_bytes 2 (addr_port destination)
        ++ ud_payload datagram).

(** ** Reference: the packets of a client *)

Record Packet : Type := mkPacket {
  pk_source : SocketAddr;
  pk_destination : SocketAddr;
  pk_app_name : bytes;
  pk_payload : bytes;
}.

Definition packet_total (p : Packet) : Z := 37 + len (pk_app_name p) + len (pk_payload p).

Definition wf_packet (p : Packet) : Prop :=
  wf_addr (pk_source p) /\ wf_addr (pk_destination p) /\ len (pk_app_name p) < 256 /\
  utf8_valid (pk_app_name p) = true /\
  packet_total p + len (pk_app_name p) <= MAX_UDP_IN_PAYLOAD_SIZE.

#[export] Instance wf_packet_dec p : Decision (wf_packet p).
Proof. unfold wf_packet. apply _. Defined.

Definition addr_bytes (a : SocketAddr) : bytes :=
  put_fixed_size_ip (addr_ip a) ++ be_bytes 2 (addr_port a).

Definition length_field (p : Packet) : bytes := be_bytes 4 (packet_total p).

Definition fixed_header (p : Packet) : bytes :=
  addr_bytes (pk_source p) ++ addr_bytes (pk_destination p) ++ [len (pk_app_name p)].

Definition packet_bytes (p : Packet) : bytes :=
  length_field p ++ fixed_header p ++ pk_app_name p ++ pk_payload p.

Definition canonical_addr (a : SocketAddr) : SocketAddr :=
  mkAddr (wire_canonical (addr_ip a)) (addr_port a).

Definition packet_datagram (p : Packet) : DownUdpDatagram :=
  mkDownUdp (mkDownMeta (canonical_addr (pk_source p)) (canonical_addr (pk_destination p))
    (Some (pk_app_name p))) (pk_payload p).

Definition has_payload (p : Packet) : bool := negb (len (pk_payload p) =? 0).

(** Where the decoder is inside a packet of which it has consumed [pre]. *)
Definition udp_at_packet (d : Decoder) (p : Packet) (pre : bytes) : Prop :=
  match dec_state d with
  | Length => pre = dec_buffer d /\ len (dec_buffer d) < 4
  | FixedHeader =>
      dec_total_length d = packet_total p /\ pre = length_field p ++ dec_buffer d /\
      len (dec_buffer d) < 37
  | AppName n =>
      n = len (pk_app_name p) /\ dec_total_length d = packet_total p /\
      dec_source d = Some (canonical_addr (pk_source p)) /\
      dec_destination d = Some (canonical_addr (pk_destination p)) /\
      pre = length_field p ++ fixed_header p ++ dec_buffer d /\
      (len (dec_buffer d) < n \/ dec_buffer d = [])
  | Payload n =>
      n = len (pk_payload p) /\
      dec_source d = Some (canonical_addr (pk_source p)) /\
      dec_destination d = Some (canonical_addr (pk_destination p)) /\
      dec_app_name d = Some (pk_app_name p) /\
      pre = length_field p ++ fixed_header p ++ pk_app_name p ++ dec_buffer d /\
      (len (dec_buffer d) < n \/ dec_buffer d = [])
  | Dropping _ => False
  end.

Definition udp_idle (d : Decoder) : Prop := dec_state d = Length /\ dec_buffer d = [].

(** ** Lemmas *)

Lemma buffered_read_more d data cap field rest :
  field = dec_buffer d ++ data ++ rest -> cap = len field -> rest <> [] ->
  buffered_read d data cap = Ret (None, set_buffer (dec_buffer d ++ data) d).
Proof.
  intros -> -> Hr. unfold buffered_read. rewrite !len_app.
  assert (0 < len rest) as H by (destruct rest; [done|rewrite len_cons; pose proof (len_nonneg rest); lia]).
  pose proof (len_nonneg data). rewrite (proj2 (Z.ltb_lt _ _)) by lia. cbn [orb assertM bindM].
  rewrite usub_ok by lia. cbn [bindM]. rewrite Z.min_l by lia.
  rewrite <- (app_nil_r data) at 2. rewrite split_to_app. cbn [bindM set_buffer dec_buffer].
  rewrite len_app, (proj2 (Z.ltb_lt _ _)) by lia. done.
Qed.

Lemma buffered_read_done d rem tail cap field :
  field = dec_buffer d ++ rem -> cap = len field ->
  (len (dec_buffer d) < cap \/ dec_buffer d = []) ->
  buffered_read d (rem ++ tail) cap = Ret (Some (field, tail), set_buffer [] d).
Proof.
  intros -> -> Hb. unfold buffered_read. rewrite len_app in *. pose proof (len_nonneg rem).
  replace ((len (dec_buffer d) <? _) || _) with true.
  2:{ symmetry. apply orb_true_iff. destruct Hb as [Hb|Hb]; [left; by apply Z.ltb_lt|].
      rewrite Hb. change (len []) with 0. rewrite Z.ltb_lt, Z.eqb_eq. lia. }
  cbn [assertM bindM]. rewrite usub_ok by lia. cbn [bindM]. rewrite len_app. pose proof (len_nonneg tail).
  rewrite Z.min_r by lia. rewrite split_to_app' by lia. cbn [bindM set_buffer dec_buffer].
  rewrite len_app, (proj2 (Z.ltb_ge _ _)) by lia. done.
Qed.

Lemma round_end k d : nsteps decode_round (S k) (inl (d, [])) = inr (Ret (WantMore, d)).
Proof. apply nsteps_inr. Qed.

Lemma round_once k d data tail d' :
  data <> [] -> decode_chunk_once d data = Ret (None, tail, d') ->
  nsteps decode_round (S k) (inl (d, data)) = nsteps decode_round k (inl (d', tail)).
Proof.
  intros Hd E. cbn [nsteps decode_round]. destruct data as [|x data]; [done|].
  rewrite (proj2 (Z.eqb_neq _ _)) by (rewrite len_cons; pose proof (len_nonneg data); lia). by rewrite E.
Qed.

Lemma round_complete k d data tail d' g :
  data <> [] -> decode_chunk_once d data = Ret (Some g, tail, d') ->
  nsteps decode_round (S k) (inl (d, data)) = inr (Ret (Complete g tail, d')).
Proof.
  intros Hd E. cbn [nsteps decode_round]. destruct data as [|x data]; [done|].
  rewrite (proj2 (Z.eqb_neq _ _)) by (rewrite len_cons; pose proof (len_nonneg data); lia).
  rewrite E. apply nsteps_inr.
Qed.

(** [decode_chunk] stops in state [d'] having absorbed [data]; it completes a packet. *)
Definition absorbs (k : nat) (d : Decoder) (data : bytes) (p : Packet) (pre : bytes) : Prop :=
  exists d', nsteps decode_round k (inl (d, data)) = inr (Ret (WantMore, d')) /\ udp_at_packet d' p pre.

Definition completes (k : nat) (d : Decoder) (data : bytes) (p : Packet) (tail : bytes) : Prop :=
  exists d', nsteps decode_round k (inl (d, data)) = inr (Ret (Complete (packet_datagram p) tail, d'))
    /\ udp_idle d'.

(** A stage of the decoder: it buffers the field [field] of the packet and goes to
    the state [nxt]. *)
Definition stage (d : Decoder) (cap : Z) (field : bytes) (nxt : Decoder) : Prop :=
  cap = len field /\ (len (dec_buffer d) < cap \/ dec_buffer d = []) /\
  (forall data h, buffered_read d data cap = Ret (None, h) -> decode_chunk_once d data = Ret (None, [], h)) /\
  (forall data tail, buffered_read d data cap = Ret (Some (field, tail), set_buffer [] d) ->
    decode_chunk_once d data = Ret (None, tail, nxt)).

Lemma stage_more k d cap field nxt rem_field next_fields data rest p pre :
  stage d cap field nxt -> field = dec_buffer d ++ rem_field -> udp_at_packet d p pre ->
  rem_field ++ next_fields = data ++ rest ->
  (forall r, r <> [] -> rem_field = data ++ r ->
    udp_at_packet (set_buffer (dec_buffer d ++ data) d) p (pre ++ data)) ->
  (forall data', next_fields = data' ++ rest -> data = rem_field ++ data' ->
    absorbs (S k) nxt data' p ((pre ++ rem_field) ++ data')) ->
  absorbs (S (S k)) d data p (pre ++ data).
Proof.
  intros (Hcap & Hb & H1 & H2) Hf Hat Heq Hmore Hnext.
  destruct (decide (data = [])) as [->|Hd].
  { rewrite app_nil_r. exists d. split; [apply round_end|done]. }
  destruct (app_eq_app _ _ _ _ Heq) as (r & [[-> E]|[-> E]]).
  - destruct (decide (r = [])) as [->|Hr].
    + rewrite app_nil_r in *. simpl in E. destruct (Hnext [] (eq_sym E)) as (d' & E' & Hat'); [by rewrite app_nil_r|].
      rewrite app_nil_r in Hat'. exists d'. split; [|done].
      rewrite (round_once _ _ _ [] nxt); [done|done|]. apply H2.
      rewrite <- (app_nil_r data). by apply buffered_read_done.
    + exists (set_buffer (dec_buffer d ++ data) d). split; [|by eapply Hmore].
      rewrite (round_once _ _ _ [] (set_buffer (dec_buffer d ++ data) d)); [apply round_end|done|].
      apply H1. eapply buffered_read_more; done.
  - destruct (Hnext r E eq_refl) as (d' & E' & Hat'). exists d'. rewrite app_assoc. split; [|done].
    rewrite (round_once _ _ _ r nxt); [done|done|]. apply H2. by apply buffered_read_done.
Qed.

Lemma stage_done k d cap field nxt rem_field next_fields tail p :
  stage d cap field nxt -> field = dec_buffer d ++ rem_field ->
  rem_field ++ next_fields ++ tail <> [] ->
  completes k nxt (next_fields ++ tail) p tail ->
  completes (S k) d ((rem_field ++ next_fields) ++ tail) p tail.
Proof.
  intros (Hcap & Hb & H1 & H2) Hf Hne (d' & E & Hi). exists d'. split; [|done].
  rewrite <- app_assoc. rewrite (round_once _ _ _ (next_fields ++ tail) nxt); [done|done|].
  apply H2. by apply buffered_read_done.
Qed.

(** A buffer that is a part of a field of the packet. *)
Lemma field_split (F R b rest : bytes) :
  F ++ R = b ++ rest -> len b < len F \/ b = [] -> exists rem, F = b ++ rem /\ rem ++ R = rest.
Proof.
  intros H Hb. destruct (app_eq_app _ _ _ _ H) as (k & [[E1 E2]|[E1 E2]]).
  - by exists k.
  - assert (k = []) as ->.
    { apply len_nil_inv. rewrite E1 in Hb. destruct Hb as [Hb|Hb].
      - rewrite len_app in Hb. pose proof (len_nonneg k). lia.
      - apply app_nil in Hb as [_ ->]. done. }
    exists []. rewrite app_nil_r in *. by subst.
Qed.

Lemma addr_bytes_len a : wf_addr a -> len (addr_bytes a) = 18.
Proof. intros [Hip _]. unfold addr_bytes. by rewrite len_app, put_fixed_size_ip_len. Qed.

Lemma fixed_header_len p : wf_packet p -> len (fixed_header p) = 37.
Proof. intros (H1 & H2 & _). unfold fixed_header. by rewrite !len_app, !addr_bytes_len. Qed.

Section packet.
Context (p : Packet) (Hwf : wf_packet p).

Lemma payload_more k d pre data rest :
  udp_at_packet d p pre -> dec_state d = Payload (len (pk_payload p)) ->
  packet_bytes p = pre ++ data ++ rest -> rest <> [] \/ has_payload p = false ->
  absorbs (S (S k)) d data p (pre ++ data).
Proof using Hwf.
  intros Hat Hs Henc Hr. pose proof Hat as Hat0. unfold udp_at_packet in Hat. rewrite Hs in Hat.
  destruct Hat as (_ & Hsrc & Hdst & Happ & -> & Hb).
  unfold packet_bytes in Henc. rewrite <- !app_assoc in Henc. do 3 apply app_inv_head in Henc.
  destruct (decide (data = [])) as [->|Hd].
  { rewrite app_nil_r. exists d. split; [apply round_end|done]. }
  assert (rest <> []) as Hrest.
  { destruct Hr as [Hr|Hr]; [done|]. unfold has_payload in Hr. rewrite negb_false_iff, Z.eqb_eq in Hr.
    rewrite (len_nil_inv (pk_payload p)) in Henc by lia. symmetry in Henc.
    apply app_nil in Henc as [_ Henc]. by apply app_nil in Henc as [? _]. }
  exists (set_buffer (dec_buffer d ++ data) d). split.
  - rewrite (round_once _ _ _ [] (set_buffer (dec_buffer d ++ data) d)); [apply round_end|done|].
    unfold decode_chunk_once, process_client_payload. rewrite Hs.
    assert (0 < len rest) by (destruct rest; [done|rewrite len_cons; pose proof (len_nonneg rest); lia]).
    rewrite Henc, !len_app. pose proof (len_nonneg data). pose proof (len_nonneg (dec_buffer d)).
    replace ((len (dec_buffer d) =? 0) && _) with false.
    2:{ symmetry. apply andb_false_iff. rewrite Z.leb_gt, Z.eqb_neq. lia. }
    rewrite usub_ok by lia. cbn [bindM]. rewrite Z.min_l by lia.
    rewrite <- (app_nil_r data) at 2. rewrite split_to_app. cbn [bindM set_buffer dec_buffer].
    rewrite len_app, (proj2 (Z.ltb_lt _ _)) by lia. done.
  - unfold udp_at_packet. cbn [set_buffer dec_state dec_buffer dec_source dec_destination dec_app_name].
    rewrite Hs. split_and!; [done..|by rewrite <- !app_assoc|left].
    rewrite Henc, !len_app. destruct rest; [done|]. rewrite len_cons. pose proof (len_nonneg rest). lia.
Qed.

Lemma payload_done k d pre rem tail :
  udp_at_packet d p pre -> dec_state d = Payload (len (pk_payload p)) ->
  packet_bytes p = pre ++ rem -> tail <> [] \/ has_payload p = true ->
  completes (S k) d (rem ++ tail) p tail.
Proof using Hwf.
  intros Hat Hs Henc Hr. unfold udp_at_packet in Hat. rewrite Hs in Hat.
  destruct Hat as (_ & Hsrc & Hdst & Happ & -> & Hb).
  unfold packet_bytes in Henc. rewrite <- !app_assoc in Henc. do 3 apply app_inv_head in Henc.
  assert (rem ++ tail <> []) as Hne.
  { intros [-> ->]%app_nil. destruct Hr as [?|Hr]; [done|]. rewrite app_nil_r in Henc.
    unfold has_payload in Hr. rewrite negb_true_iff, Z.eqb_neq in Hr. destruct Hb as [Hb|Hb].
    - rewrite Henc in Hb. lia.
    - rewrite Henc, Hb in Hr. by apply Hr. }
  exists (set_app_name None (set_state Length (set_buffer [] d))). split; [|done].
  apply round_complete; [done|]. unfold decode_chunk_once, process_client_payload. rewrite Hs, Hsrc, Hdst.
  pose proof (len_nonneg rem). pose proof (len_nonneg tail). pose proof (len_nonneg (dec_buffer d)).
  destruct (Z.eqb_spec (len (dec_buffer d)) 0) as [E|E].
  - rewrite (len_nil_inv (dec_buffer d)) in Henc by lia. simpl in Henc. rewrite len_app, Henc.
    rewrite (proj2 (Z.leb_le _ _)) by lia. cbn [andb]. rewrite split_to_app. cbn [bindM unwrap].
    unfold packet_datagram. rewrite Happ, Henc. do 3 f_equal.
    destruct d; simpl in *. rewrite (len_nil_inv dec_buffer0) by lia. done.
  - cbn [andb]. rewrite Henc, !len_app, usub_ok by lia. cbn [bindM]. rewrite Z.min_r by lia.
    rewrite split_to_app' by lia. cbn [bindM set_buffer dec_buffer]. rewrite len_app, (proj2 (Z.ltb_ge _ _)) by lia.
    cbn [set_buffer dec_source dec_destination dec_app_name]. rewrite ?Hsrc, ?Hdst. cbn [unwrap bindM].
    unfold packet_datagram. by rewrite Happ, Henc.
Qed.

Lemma app_name_stage d pre :
  udp_at_packet d p pre -> dec_state d = AppName (len (pk_app_name p)) ->
  stage d (len (pk_app_name p)) (pk_app_name p)
    (set_state (Payload (len (pk_payload p))) (set_app_name (Some (pk_app_name p)) (set_buffer [] d))).
Proof using Hwf.
  intros Hat Hs. unfold udp_at_packet in Hat. rewrite Hs in Hat.
  destruct Hat as (_ & Ht & Hsrc & Hdst & -> & Hb). destruct Hwf as (_ & _ & _ & Hu & _).
  split; [done|]. split; [done|]. split; intros data x E;
    unfold decode_chunk_once, process_client_app_name; rewrite Hs, E; [done|]. cbn [bindM].
  cbn [set_buffer dec_total_length]. rewrite Ht.
  unfold packet_total, UDPPKT_IN_FIXED_HEADER_NO_LENGTH_SIZE, UDPPKT_IN_FIXED_HEADER_SIZE,
    UDPPKT_LENGTH_SIZE, UDPPKT_ADDR_SIZE, UDPPKT_PORT_SIZE, UDPPKT_APPLEN_SIZE.
  pose proof (len_nonneg (pk_app_name p)). pose proof (len_nonneg (pk_payload p)).
  rewrite !usub_ok by lia. cbn [bindM]. rewrite usub_ok by lia. cbn [bindM]. rewrite Hu.
  by replace (_ - _ - _) with (len (pk_payload p)) by lia.
Qed.

Lemma payload_state d pre :
  udp_at_packet d p pre -> dec_state d = AppName (len (pk_app_name p)) ->
  udp_at_packet (set_state (Payload (len (pk_payload p)))
    (set_app_name (Some (pk_app_name p)) (set_buffer [] d))) p
    (length_field p ++ fixed_header p ++ pk_app_name p).
Proof.
  intros Hat Hs. unfold udp_at_packet in *. rewrite Hs in Hat. cbn.
  destruct Hat as (_ & Ht & Hsrc & Hdst & -> & Hb). rewrite app_nil_r. split_and!; auto.
Qed.

Lemma app_name_more k d pre data rest :
  udp_at_packet d p pre -> dec_state d = AppName (len (pk_app_name p)) ->
  packet_bytes p = pre ++ data ++ rest -> rest <> [] \/ has_payload p = false ->
  absorbs (S (S (S k))) d data p (pre ++ data).
Proof using Hwf.
  intros Hat Hs Henc Hr. pose proof (app_name_stage d pre Hat Hs) as Hst.
  pose proof (payload_state d pre Hat Hs) as Hnx.
  pose proof Hat as Hat0. unfold udp_at_packet in Hat0. rewrite Hs in Hat0.
  destruct Hat0 as (_ & Ht & Hsrc & Hdst & -> & Hb).
  pose proof Henc as Henc0. unfold packet_bytes in Henc. rewrite <- !app_assoc in Henc. do 2 apply app_inv_head in Henc.
  destruct (field_split _ _ _ _ Henc Hb) as (rem & Ef & Erest).
  eapply stage_more; [exact Hst|exact Ef|exact Hat|exact Erest| |].
  - intros r Hr' ->. unfold udp_at_packet. cbn. rewrite Hs. split_and!; auto; [by rewrite <- !app_assoc|left].
    rewrite Ef, !len_app. destruct r; [done|]. rewrite len_cons. pose proof (len_nonneg r). lia.
  - intros data' E1 E2. rewrite <- !app_assoc, (app_assoc _ rem), <- Ef, !app_assoc.
    apply (payload_more _ _ _ _ rest); [by rewrite <- app_assoc|done| |done].
    unfold packet_bytes. by rewrite E1, <- !app_assoc.
Qed.

Lemma app_name_done k d pre rem tail :
  udp_at_packet d p pre -> dec_state d = AppName (len (pk_app_name p)) ->
  packet_bytes p = pre ++ rem -> tail <> [] \/ has_payload p = true ->
  completes (S (S k)) d (rem ++ tail) p tail.
Proof using Hwf.
  intros Hat Hs Henc Hr. pose proof (app_name_stage d pre Hat Hs) as Hst.
  pose proof (payload_state d pre Hat Hs) as Hnx.
  pose proof Hat as Hat0. unfold udp_at_packet in Hat0. rewrite Hs in Hat0.
  destruct Hat0 as (_ & Ht & Hsrc & Hdst & -> & Hb).
  unfold packet_bytes in Henc. rewrite <- !app_assoc in Henc. do 2 apply app_inv_head in Henc.
  destruct (field_split _ _ _ _ Henc Hb) as (rf & Ef & <-).
  eapply stage_done; [exact Hst|exact Ef| |].
  - intros [_ [Hp ->]%app_nil]%app_nil. destruct Hr as [?|Hr]; [done|]. unfold has_payload in Hr.
    by rewrite Hp in Hr.
  - eapply (payload_done _ _ _ _ _ Hnx); [done| |done]. unfold packet_bytes. by rewrite <- !app_assoc.
Qed.

Lemma get_addr_bytes a k :
  wf_addr a -> (let! (ip, r) := get_fixed_size_ip (addr_bytes a ++ k) in
                let! (port, r) := get_u16 r in Ret (mkAddr ip port, r)) = Ret (canonical_addr a, k).
Proof.
  intros [Hip Hport]. unfold addr_bytes. rewrite <- app_assoc, get_put_fixed_size_ip by done. cbn [bindM].
  unfold get_u16. rewrite get_uint_be by done. done.
Qed.

Lemma fixed_header_stage d pre :
  udp_at_packet d p pre -> dec_state d = FixedHeader ->
  stage d 37 (fixed_header p)
    (set_state (AppName (len (pk_app_name p)))
      (set_addrs (canonical_addr (pk_source p)) (canonical_addr (pk_destination p)) (set_buffer [] d))).
Proof using Hwf.
  intros Hat Hs. unfold udp_at_packet in Hat. rewrite Hs in Hat. destruct Hat as (Ht & -> & Hb).
  pose proof (fixed_header_len p Hwf) as Hl. destruct Hwf as ([Hs1 Hs2] & [Hd1 Hd2] & Ha & Hu & Hmax).
  split; [done|]. split; [by left|]. split; intros data x E;
    unfold decode_chunk_once, process_client_fixed_header; rewrite Hs;
    change UDPPKT_IN_FIXED_HEADER_NO_LENGTH_SIZE with 37; rewrite E; [done|]. cbn [bindM].
  unfold fixed_header, addr_bytes. rewrite <- !app_assoc, get_put_fixed_size_ip by done. cbn [bindM].
  unfold get_u16. rewrite get_uint_be by done. cbn [bindM].
  rewrite get_put_fixed_size_ip by done. cbn [bindM]. rewrite get_uint_be by done. cbn [bindM].
  rewrite get_u8_cons. cbn [bindM set_addrs set_buffer dec_total_length]. rewrite Ht.
  pose proof (len_nonneg (pk_app_name p)). pose proof (len_nonneg (pk_payload p)).
  unfold packet_total in *. rewrite usub_ok by lia. cbn [bindM].
  rewrite (proj2 (Z.ltb_ge _ _)) by lia. rewrite (proj2 (Z.leb_le _ _)) by lia. done.
Qed.

Lemma app_name_state d pre :
  udp_at_packet d p pre -> dec_state d = FixedHeader ->
  udp_at_packet (set_state (AppName (len (pk_app_name p)))
      (set_addrs (canonical_addr (pk_source p)) (canonical_addr (pk_destination p)) (set_buffer [] d)))
    p (length_field p ++ fixed_header p).
Proof.
  intros Hat Hs. unfold udp_at_packet in *. rewrite Hs in Hat. cbn.
  destruct Hat as (Ht & -> & Hb). rewrite app_nil_r. split_and!; auto.
Qed.

Lemma fixed_header_more k d pre data rest :
  udp_at_packet d p pre -> dec_state d = FixedHeader ->
  packet_bytes p = pre ++ data ++ rest -> rest <> [] \/ has_payload p = false ->
  absorbs (S (S (S (S k)))) d data p (pre ++ data).
Proof using Hwf.
  intros Hat Hs Henc Hr. pose proof (fixed_header_stage d pre Hat Hs) as Hst.
  pose proof (app_name_state d pre Hat Hs) as Hnx. pose proof (fixed_header_len p Hwf) as Hl.
  pose proof Hat as Hat0. unfold udp_at_packet in Hat0. rewrite Hs in Hat0.
  destruct Hat0 as (Ht & -> & Hb).
  unfold packet_bytes in Henc. rewrite <- !app_assoc in Henc. apply app_inv_head in Henc.
  rewrite <- Hl in Hb. destruct (field_split _ _ _ _ Henc (or_introl Hb)) as (rem & Ef & Erest).
  eapply stage_more; [exact Hst|exact Ef|exact Hat|exact Erest| |].
  - intros r Hr' ->. unfold udp_at_packet. cbn. rewrite Hs. split_and!; [done|by rewrite <- ?app_assoc|].
    rewrite <- Hl, Ef, !len_app. destruct r; [done|]. rewrite len_cons. pose proof (len_nonneg r). lia.
  - intros data' E1 E2. rewrite <- !app_assoc, (app_assoc _ rem), <- Ef, !app_assoc.
    apply (app_name_more _ _ _ _ rest); [done|done| |done].
    unfold packet_bytes. by rewrite E1, <- !app_assoc.
Qed.

Lemma fixed_header_done k d pre rem tail :
  udp_at_packet d p pre -> dec_state d = FixedHeader ->
  packet_bytes p = pre ++ rem -> tail <> [] \/ has_payload p = true ->
  completes (S (S (S k))) d (rem ++ tail) p tail.
Proof using Hwf.
  intros Hat Hs Henc Hr. pose proof (fixed_header_stage d pre Hat Hs) as Hst.
  pose proof (app_name_state d pre Hat Hs) as Hnx. pose proof (fixed_header_len p Hwf) as Hl.
  pose proof Hat as Hat0. unfold udp_at_packet in Hat0. rewrite Hs in Hat0.
  destruct Hat0 as (Ht & -> & Hb).
  unfold packet_bytes in Henc. rewrite <- !app_assoc in Henc. apply app_inv_head in Henc.
  rewrite <- Hl in Hb. destruct (field_split _ _ _ _ Henc (or_introl Hb)) as (rf & Ef & <-).
  eapply stage_done; [exact Hst|exact Ef| |].
  - intros [-> _]%app_nil. rewrite app_nil_r in Ef. rewrite Ef in Hb. lia.
  - eapply (app_name_done _ _ _ _ _ Hnx); [done| |done]. unfold packet_bytes. by rewrite <- !app_assoc.
Qed.

Lemma packet_total_bound : 37 <= packet_total p < 2 ^ 32.
Proof using Hwf.
  destruct Hwf as (_ & _ & _ & _ & Hmax). change MAX_UDP_IN_PAYLOAD_SIZE with (65471) in Hmax.
  pose proof (len_nonneg (pk_app_name p)). pose proof (len_nonneg (pk_payload p)).
  unfold packet_total in *. lia.
Qed.

Lemma length_stage d pre :
  udp_at_packet d p pre -> dec_state d = Length ->
  stage d 4 (length_field p) (set_state FixedHeader (set_total (packet_total p) (set_buffer [] d))).
Proof using Hwf.
  intros Hat Hs. unfold udp_at_packet in Hat. rewrite Hs in Hat. destruct Hat as (-> & Hb).
  pose proof packet_total_bound as Ht.
  split; [done|]. split; [by left|]. split; intros data x E;
    unfold decode_chunk_once, process_client_length; rewrite Hs;
    change UDPPKT_LENGTH_SIZE with 4; rewrite E; [done|]. cbn [bindM].
  unfold length_field, get_u32. rewrite <- (app_nil_r (be_bytes 4 _)), get_uint_be by (done || lia).
  cbn [bindM]. change UDPPKT_IN_FIXED_HEADER_NO_LENGTH_SIZE with 37.
  rewrite (proj2 (Z.leb_le _ _)) by lia. done.
Qed.

Lemma fixed_header_state d pre :
  udp_at_packet d p pre -> dec_state d = Length ->
  udp_at_packet (set_state FixedHeader (set_total (packet_total p) (set_buffer [] d))) p (length_field p).
Proof. intros Hat Hs. unfold udp_at_packet. cbn [set_state set_total set_buffer dec_state dec_total_length dec_buffer]. rewrite app_nil_r. done. Qed.

Lemma length_more k d pre data rest :
  udp_at_packet d p pre -> dec_state d = Length ->
  packet_bytes p = pre ++ data ++ rest -> rest <> [] \/ has_payload p = false ->
  absorbs (S (S (S (S (S k))))) d data p (pre ++ data).
Proof using Hwf.
  intros Hat Hs Henc Hr. pose proof (length_stage d pre Hat Hs) as Hst.
  pose proof (fixed_header_state d pre Hat Hs) as Hnx.
  pose proof Hat as Hat0. unfold udp_at_packet in Hat0. rewrite Hs in Hat0. destruct Hat0 as (-> & Hb).
  destruct (field_split _ _ _ _ Henc (or_introl Hb)) as (rem & Ef & Erest).
  eapply stage_more; [exact Hst|exact Ef|exact Hat|exact Erest| |].
  - intros r Hr' ->. unfold udp_at_packet. cbn. rewrite Hs. split; [done|].
    change 4 with (len (length_field p)).
    rewrite Ef, !len_app. destruct r; [done|]. rewrite len_cons. pose proof (len_nonneg r). lia.
  - intros data' E1 E2. rewrite <- Ef.
    apply (fixed_header_more _ _ _ _ rest); [done|done| |done].
    unfold packet_bytes. by rewrite E1, <- ?app_assoc.
Qed.

Lemma length_done k d pre rem tail :
  udp_at_packet d p pre -> dec_state d = Length ->
  packet_bytes p = pre ++ rem -> tail <> [] \/ has_payload p = true ->
  completes (S (S (S (S k)))) d (rem ++ tail) p tail.
Proof using Hwf.
  intros Hat Hs Henc Hr. pose proof (length_stage d pre Hat Hs) as Hst.
  pose proof (fixed_header_state d pre Hat Hs) as Hnx.
  pose proof Hat as Hat0. unfold udp_at_packet in Hat0. rewrite Hs in Hat0. destruct Hat0 as (-> & Hb).
  destruct (field_split _ _ _ _ Henc (or_introl Hb)) as (rf & Ef & <-).
  eapply stage_done; [exact Hst|exact Ef| |].
  - intros [-> _]%app_nil. rewrite app_nil_r in Ef. rewrite <- Ef in Hb. done.
  - eapply (fixed_header_done _ _ _ _ _ Hnx); [done| |done]. done.
Qed.

Lemma fuel_enough k d data r :
  (k <= 5)%nat -> nsteps decode_round k (inl (d, data)) = inr r -> udp_decode_chunk d data = r.
Proof.
  intros Hk E. unfold udp_decode_chunk. erewrite iterate_enough; [done|exact E|].
  unfold decode_fuel. pose proof (len_nonneg data). rewrite Z2Pos.id by lia. lia.
Qed.

Lemma udp_decode_more d pre data rest :
  udp_at_packet d p pre -> packet_bytes p = pre ++ data ++ rest ->
  rest <> [] \/ has_payload p = false ->
  exists d', udp_decode_chunk d data = Ret (WantMore, d') /\ udp_at_packet d' p (pre ++ data).
Proof using Hwf.
  intros Hat Henc Hr. assert (absorbs 5 d data p (pre ++ data)) as (d' & E & Hat').
  { destruct (dec_state d) eqn:Hs.
    - by apply (length_more 0 d pre data rest).
    - by apply (fixed_header_more 1 d pre data rest).
    - apply (app_name_more 2 d pre data rest); try done. unfold udp_at_packet in Hat. rewrite Hs in Hat.
      destruct Hat as (-> & _). done.
    - apply (payload_more 3 d pre data rest); try done. unfold udp_at_packet in Hat. rewrite Hs in Hat.
      destruct Hat as (-> & _). done.
    - unfold udp_at_packet in Hat. by rewrite Hs in Hat. }
  exists d'. split; [|done]. by apply (fuel_enough 5).
Qed.

Lemma udp_decode_done d pre rem tail :
  udp_at_packet d p pre -> packet_bytes p = pre ++ rem -> tail <> [] \/ has_payload p = true ->
  exists d', udp_decode_chunk d (rem ++ tail) = Ret (Complete (packet_datagram p) tail, d') /\ udp_idle d'.
Proof using Hwf.
  intros Hat Henc Hr. assert (completes 4 d (rem ++ tail) p tail) as (d' & E & Hi).
  { destruct (dec_state d) eqn:Hs.
    - by apply (length_done 0 d pre rem tail).
    - by apply (fixed_header_done 1 d pre rem tail).
    - apply (app_name_done 2 d pre rem tail); try done. unfold udp_at_packet in Hat. rewrite Hs in Hat.
      destruct Hat as (-> & _). done.
    - apply (payload_done 3 d pre rem tail); try done. unfold udp_at_packet in Hat. rewrite Hs in Hat.
      destruct Hat as (-> & _). done.
    - unfold udp_at_packet in Hat. by rewrite Hs in Hat. }
  exists d'. split; [|done]. apply (fuel_enough 4); [lia|done].
Qed.

End packet.

Lemma udp_unfinished d p pre :
  wf_packet p -> udp_at_packet d p pre -> has_payload p = true -> pre <> packet_bytes p.
Proof.
  intros Hwf Hat Hp ->. unfold has_payload in Hp. rewrite negb_true_iff, Z.eqb_neq in Hp.
  pose proof (len_nonneg (pk_payload p)). pose proof (len_nonneg (pk_app_name p)).
  pose proof (fixed_header_len p Hwf) as Hl. unfold udp_at_packet, packet_bytes in Hat.
  assert (len (length_field p) = 4) as H4 by done.
  destruct (dec_state d); [| | | |done].
  - destruct Hat as [E Hb]. rewrite <- E, !len_app in Hb. lia.
  - destruct Hat as (_ & E & Hb). apply app_inv_head in E. rewrite <- E, !len_app in Hb. lia.
  - destruct Hat as (-> & _ & _ & _ & E & Hb). do 2 apply app_inv_head in E.
    destruct Hb as [Hb|Hb]; rewrite <- E, ?len_app in Hb; [lia|]. apply app_nil in Hb as [_ Hb].
    rewrite Hb in Hp. done.
  - destruct Hat as (-> & _ & _ & _ & E & Hb). do 3 apply app_inv_head in E.
    destruct Hb as [Hb|Hb]; rewrite <- E in Hb; [lia|]. by rewrite Hb in Hp.
Qed.

(** The UDP decoder keeps the promise of [ChunkDecoder]. *)
#[export] Program Instance udp_chunk_decoder :
  ChunkDecoder udp_decode_chunk wf_packet packet_bytes packet_datagram has_payload :=
  {| at_packet := udp_at_packet; idle := udp_idle |}.
Next Obligation. intros d p [Hs Hb] Hwf. unfold udp_at_packet. rewrite Hs, Hb. done. Qed.
Next Obligation. intros d p pre data rest Hwf Hat. by apply udp_decode_more. Qed.
Next Obligation. intros d p pre rem tail Hwf Hat. by apply udp_decode_done. Qed.
Next Obligation. intros d p pre Hwf Hat. by apply udp_unfinished with d. Qed.

(** ** Invariant of the decoder and termination *)

Definition udp_inv (d : Decoder) : Prop :=
  wf_bytes (dec_buffer d) /\
  match dec_state d with
  | Length => len (dec_buffer d) < 4
  | FixedHeader => len (dec_buffer d) < 37 /\ 37 <= dec_total_length d < 2 ^ 32
  | AppName n =>
      (len (dec_buffer d) < n \/ dec_buffer d = []) /\ 0 <= n /\
      37 + n <= dec_total_length d < 2 ^ 32 /\ is_Some (dec_source d) /\ is_Some (dec_destination d)
  | Payload n =>
      (len (dec_buffer d) < n \/ dec_buffer d = []) /\ 0 <= n < 2 ^ 32 /\
      is_Some (dec_source d) /\ is_Some (dec_destination d)
  | Dropping n => dec_buffer d = [] /\ 0 <= n < 2 ^ 32
  end.

Definition rank (s : RecvState) : Z :=
  match s with
  | Length | FixedHeader => 0
  | AppName _ => 2 ^ 32 + 2
  | Payload _ => 2 ^ 32 + 1
  | Dropping n => n + 1
  end.

Definition mu (s : Decoder * bytes) : Z := len s.2 * 2 ^ 33 + rank (dec_state s.1).

Lemma buffered_read_total d data cap :
  wf_bytes (dec_buffer d) -> wf_bytes data -> 0 <= cap ->
  len (dec_buffer d) < cap \/ dec_buffer d = [] ->
  (len (dec_buffer d ++ data) < cap /\
    buffered_read d data cap = Ret (None, set_buffer (dec_buffer d ++ data) d)) \/
  (exists raw tail, buffered_read d data cap = Ret (Some (raw, tail), set_buffer [] d) /\
    len raw = cap /\ wf_bytes raw /\ wf_bytes tail /\ len tail <= len data /\
    (len (dec_buffer d) < cap -> len tail < len data)).
Proof.
  intros Hb Hd Hc Hcap. destruct (Z.ltb_spec (len (dec_buffer d ++ data)) cap) as [Hlt|Hge].
  - left. split; [done|].
    eapply (buffered_read_more d data cap _ (replicate (Z.to_nat (cap - len (dec_buffer d ++ data))) 0)).
    + done.
    + len_lia.
    + intros E%(f_equal length). len_simpl. simpl in E. lia.
  - right. rewrite len_app in Hge. pose proof (len_nonneg (dec_buffer d)).
    destruct (split_to_ok (cap - len (dec_buffer d)) data) as (h & tail & _ & -> & Hh).
    { destruct Hcap as [|E]; [lia|]. rewrite E in *. change (len []) with 0 in *. lia. }
    apply wf_bytes_app in Hd as [Hdh Hdt]. exists (dec_buffer d ++ h), tail.
    rewrite !len_app in *. pose proof (len_nonneg h).
    split_and!; [apply buffered_read_done; [done|rewrite len_app; lia|done]|lia| |done|lia|lia].
    by apply wf_bytes_app.
Qed.

Lemma get_fixed_size_ip_len l :
  16 <= len l -> exists ip rest, get_fixed_size_ip l = Ret (ip, rest) /\ len rest = len l - 16 /\
    (wf_bytes l -> wf_bytes rest).
Proof.
  intros H. destruct (get_fixed_size_ip_ok l H) as (ip & h & rest & -> & -> & Hh). exists ip, rest.
  rewrite len_app in *. split_and!; [done|lia|by intros [_ ?]%wf_bytes_app].
Qed.

Lemma get_uint_len n l :
  0 <= n <= len l -> exists v rest, get_uint n l = Ret (v, rest) /\ len rest = len l - n /\
    (wf_bytes l -> wf_bytes rest /\ 0 <= v < 256 ^ n).
Proof.
  intros H. destruct (get_uint_ok n l H) as (h & t & -> & -> & Hh). exists (be_val h), t.
  rewrite len_app. split_and!; [done|lia|]. intros [Hw Ht]%wf_bytes_app. split; [done|].
  rewrite <- Hh. by apply be_val_bound.
Qed.

(** What one step does from a state that satisfies the invariant. *)
Definition good_step (d : Decoder) (data : bytes) (o : option DownUdpDatagram) (tail : bytes) (d' : Decoder) : Prop :=
  udp_inv d' /\ wf_bytes tail /\ len tail <= len data /\ (o = None -> mu (d', tail) < mu (d, data)).

Ltac unfold_inv := unfold good_step, udp_inv, mu; cbn [set_state set_total set_buffer set_addrs set_app_name
  dec_state dec_total_length dec_buffer dec_source dec_destination dec_app_name rank fst snd].

Ltac finish_inv :=
  split_and!; try done; try lia; try apply Forall_nil; eauto;
  try (by apply wf_bytes_app); try (by left); try (by right); unfold rank; lia.

Lemma length_step d data :
  udp_inv d -> wf_bytes data -> data <> [] -> dec_state d = Length ->
  exists o tail d', decode_chunk_once d data = Ret (o, tail, d') /\ good_step d data o tail d'.
Proof.
  intros [Hb Hi] Hd Hne Hs. rewrite Hs in Hi. unfold decode_chunk_once, process_client_length. rewrite Hs.
  change UDPPKT_LENGTH_SIZE with 4.
  assert (0 < len data) by (destruct data; [done|rewrite len_cons; pose proof (len_nonneg data); lia]).
  destruct (buffered_read_total d data 4 Hb Hd ltac:(lia) (or_introl Hi)) as
    [[Hl ->]|(raw & tail & -> & Hraw & Hwr & Hwt & Hlt & Hlt')]; cbn [bindM].
  - eexists _, _, _. split; [done|]. unfold_inv. rewrite Hs. change (len []) with 0.
    finish_inv.
  - destruct (get_uint_len 4 raw) as (v & r & E & _ & Hv); [lia|]. unfold get_u32. rewrite E. cbn [bindM].
    destruct (Hv Hwr) as [_ Hvb]. change (256 ^ 4) with (2 ^ 32) in Hvb.
    change UDPPKT_IN_FIXED_HEADER_NO_LENGTH_SIZE with 37.
    case_bool; cbn [bindM]; eexists _, _, _; (split; [done|]); unfold_inv; rewrite Hs; change (len []) with 0;
      finish_inv.
Qed.

Lemma fixed_header_step d data :
  udp_inv d -> wf_bytes data -> data <> [] -> dec_state d = FixedHeader ->
  exists o tail d', decode_chunk_once d data = Ret (o, tail, d') /\ good_step d data o tail d'.
Proof.
  intros [Hb Hi] Hd Hne Hs. rewrite Hs in Hi. destruct Hi as [Hl Ht].
  unfold decode_chunk_once, process_client_fixed_header. rewrite Hs.
  change UDPPKT_IN_FIXED_HEADER_NO_LENGTH_SIZE with 37.
  assert (0 < len data) by (destruct data; [done|rewrite len_cons; pose proof (len_nonneg data); lia]).
  destruct (buffered_read_total d data 37 Hb Hd ltac:(lia) (or_introl Hl)) as
    [[Hl' ->]|(raw & tail & -> & Hraw & Hwr & Hwt & Hlt & Hlt')]; cbn [bindM].
  - eexists _, _, _. split; [done|]. unfold_inv. rewrite Hs. change (len []) with 0.
    finish_inv.
  - destruct (get_fixed_size_ip_len raw) as (sip & r1 & -> & Hl1 & Hw1); [lia|]. cbn [bindM].
    unfold get_u16, get_u8.
    destruct (get_uint_len 2 r1) as (sp & r2 & -> & Hl2 & Hw2); [lia|]. cbn [bindM].
    destruct (get_fixed_size_ip_len r2) as (dip & r3 & -> & Hl3 & Hw3); [lia|]. cbn [bindM].
    destruct (get_uint_len 2 r3) as (dp & r4 & -> & Hl4 & Hw4); [lia|]. cbn [bindM].
    destruct (get_uint_len 1 r4) as (n & r5 & -> & Hl5 & Hw5); [lia|]. cbn [bindM].
    assert (0 <= n < 256) as Hn by (apply Hw5, Hw4, Hw3, Hw2, Hw1, Hwr).
    change MAX_UDP_IN_PAYLOAD_SIZE with 65471. rewrite usub_ok by lia.
    cbn [bindM set_addrs set_buffer dec_total_length].
    destruct (Z.ltb_spec (65471 - n) (dec_total_length d)); [rewrite usub_ok by lia|case_bool; [|rewrite usub_ok by lia]]; cbn [bindM];
      eexists _, _, _; (split; [done|]); unfold_inv; rewrite Hs; change (len []) with 0;
      finish_inv.
Qed.

Lemma app_name_step d data n :
  udp_inv d -> wf_bytes data -> data <> [] -> dec_state d = AppName n ->
  exists o tail d', decode_chunk_once d data = Ret (o, tail, d') /\ good_step d data o tail d'.
Proof.
  intros [Hb Hi] Hd Hne Hs. rewrite Hs in Hi. destruct Hi as (Hl & Hn & Ht & Hsrc & Hdst).
  unfold decode_chunk_once, process_client_app_name. rewrite Hs.
  change UDPPKT_IN_FIXED_HEADER_NO_LENGTH_SIZE with 37.
  assert (0 < len data) by (destruct data; [done|rewrite len_cons; pose proof (len_nonneg data); lia]).
  destruct (buffered_read_total d data n Hb Hd Hn Hl) as
    [[Hl' ->]|(raw & tail & -> & Hraw & Hwr & Hwt & Hlt & Hlt')]; cbn [bindM].
  - eexists _, _, _. split; [done|]. unfold_inv. rewrite Hs. change (len []) with 0.
    finish_inv.
  - cbn [set_buffer dec_total_length]. rewrite usub_ok by lia. cbn [bindM]. rewrite usub_ok by lia.
    cbn [bindM]. destruct (utf8_valid raw); cbn [bindM]; eexists _, _, _; (split; [done|]);
      unfold_inv; rewrite Hs; finish_inv.
Qed.

Lemma payload_step d data n :
  udp_inv d -> wf_bytes data -> data <> [] -> dec_state d = Payload n ->
  exists o tail d', decode_chunk_once d data = Ret (o, tail, d') /\ good_step d data o tail d'.
Proof.
  intros [Hb Hi] Hd Hne Hs. rewrite Hs in Hi. destruct Hi as (Hl & Hn & [src Hsrc] & [dst Hdst]).
  unfold decode_chunk_once, process_client_payload. rewrite Hs, Hsrc, Hdst.
  assert (0 < len data) by (destruct data; [done|rewrite len_cons; pose proof (len_nonneg data); lia]).
  pose proof (len_nonneg (dec_buffer d)).
  destruct ((len (dec_buffer d) =? 0) && (n <=? len data)) eqn:Ec.
  - apply andb_true_iff in Ec as [Eb%Z.eqb_eq En%Z.leb_le].
    destruct (split_to_ok n data) as (h & t & -> & -> & Hh); [lia|]. cbn [bindM unwrap].
    apply wf_bytes_app in Hd as [_ Hd]. rewrite len_app in *.
    eexists _, _, _. split; [done|]. unfold_inv.
    rewrite ?len_app; finish_inv.
  - assert (n - len (dec_buffer d) >= 0) as Hroom.
    { destruct Hl as [Hl|Hl]; [lia|]. rewrite Hl in *. change (len []) with 0 in *. lia. }
    rewrite usub_ok by lia. cbn [bindM].
    destruct (split_to_ok (Z.min (len data) (n - len (dec_buffer d))) data) as (h & t & -> & -> & Hh); [lia|].
    apply wf_bytes_app in Hd as [Hdh Hdt]. cbn [bindM set_buffer dec_buffer]. rewrite !len_app in *.
    pose proof (len_nonneg h). pose proof (len_nonneg t).
    destruct (Z.ltb_spec (len (dec_buffer d) + len h) n) as [Hlt|Hge].
    + eexists _, _, _. split; [done|]. unfold_inv. rewrite Hs, !len_app.
      finish_inv.
    + cbn [set_buffer dec_source dec_destination]. rewrite ?Hsrc, ?Hdst. cbn [bindM unwrap].
      eexists _, _, _. split; [done|]. unfold_inv. rewrite ?len_app. finish_inv.
Qed.

Lemma dropping_step d data n :
  udp_inv d -> wf_bytes data -> data <> [] -> dec_state d = Dropping n ->
  exists o tail d', decode_chunk_once d data = Ret (o, tail, d') /\ good_step d data o tail d'.
Proof.
  intros [Hb Hi] Hd Hne Hs. rewrite Hs in Hi. destruct Hi as (Hl & Hn).
  unfold decode_chunk_once. rewrite Hs.
  assert (0 < len data) by (destruct data; [done|rewrite len_cons; pose proof (len_nonneg data); lia]).
  assert (exists h t, split_to (Z.min n (len data)) data = Ret (h, t) /\ wf_bytes h /\ len h = Z.min n (len data))
    as (h & t & -> & Hwh & Hh).
  { destruct (split_to_ok (Z.min n (len data)) data) as (h & t & -> & E & Hh); [lia|].
    rewrite E in Hd. apply wf_bytes_app in Hd as [Hd _]. eauto. }
  destruct (Z.leb_spec n (Z.min n (len data))); [|rewrite usub_ok by lia]; cbn [bindM];
    eexists _, _, _; (split; [done|]); unfold_inv; rewrite Hs, ?Hl, ?Hh; change (len []) with 0;
    finish_inv.
Qed.

Lemma decode_step d data :
  udp_inv d -> wf_bytes data -> data <> [] ->
  exists o tail d', decode_chunk_once d data = Ret (o, tail, d') /\ good_step d data o tail d'.
Proof.
  intros Hi Hd Hne. destruct (dec_state d) eqn:Hs; eauto using length_step, fixed_header_step,
    app_name_step, payload_step, dropping_step.
Qed.

(** The postcondition of [decode_chunk]. *)
Definition decoded_ok (n : Z) (r : M (DecodeResult DownUdpDatagram * Decoder)) : Prop :=
  exists x d, r = Ret (x, d) /\ udp_inv d /\
    forall g tail, x = Complete g tail -> wf_bytes tail /\ len tail <= n.

Lemma udp_decode_loop d data :
  udp_inv d -> wf_bytes data ->
  exists r, iterate decode_round (decode_fuel data) (inl (d, data)) = inr r /\ decoded_ok (len data) r.
Proof.
  intros Hi Hd.
  refine (iterate_measure decode_round
    (fun s => udp_inv s.1 /\ wf_bytes s.2 /\ len s.2 <= len data) (decoded_ok (len data)) mu _ _ _ _ _ _ _).
  - intros [d0 l] ((_ & H) & _ & _). unfold mu. cbn [fst snd] in *. pose proof (len_nonneg l).
    destruct (dec_state d0); simpl rank; lia.
  - intros [d0 l] [d1 l1] (H0 & H1 & H2). cbn [fst snd] in *. unfold decode_round.
    destruct (Z.eqb_spec (len l) 0) as [|Hl]; [done|].
    destruct (decode_step d0 l) as (o & t & d' & -> & Hg1 & Hg2 & Hg3 & Hg4); [done|done|by intros ->|].
    destruct o; [done|]. intros [= <- <-]. split_and!; [done|done|lia|auto].
  - intros [d0 l] r (H0 & H1 & H2). cbn [fst snd] in *. unfold decode_round, decoded_ok.
    destruct (Z.eqb_spec (len l) 0) as [|Hl]; [intros [= <-]; by eexists _, _|].
    destruct (decode_step d0 l) as (o & t & d' & -> & Hg1 & Hg2 & Hg3 & Hg4); [done|done|by intros ->|].
    destruct o; [|done]. intros [= <-]. eexists _, _. split_and!; [done|done|].
    intros g' t' [= <- <-]. split; [done|lia].
  - done.
  - unfold decode_fuel, mu. cbn [fst snd]. pose proof (len_nonneg data).
    rewrite Z2Pos.id by lia. destruct Hi as [_ Hi].
    destruct (dec_state d); simpl rank; lia.
Qed.

Lemma decoder_new_idle : udp_idle decoder_new.
Proof. done. Qed.

Lemma packet_bytes_nonempty p : packet_bytes p <> [].
Proof. done. Qed.

(** A loop of [decode_chunk] that has stopped within its bound stops with the same
    result under a larger one. *)
Lemma udp_decode_prefix k d data d' data' :
  udp_inv d' -> wf_bytes data' ->
  nsteps decode_round k (inl (d, data)) = inl (d', data') ->
  Z.of_nat k <= 2 ^ 33 -> len data' < len data ->
  udp_decode_chunk d data = udp_decode_chunk d' data'.
Proof.
  intros Hi Hd Hk Hb Hl. destruct (udp_decode_loop d' data' Hi Hd) as (r & E & _).
  unfold udp_decode_chunk. rewrite E. rewrite iterate_nsteps in E. rewrite iterate_nsteps.
  assert (nsteps decode_round (k + Pos.to_nat (decode_fuel data')) (inl (d, data)) = inr r) as E'.
  { by rewrite nsteps_add, Hk. }
  erewrite nsteps_enough; [done|exact E'|].
  unfold decode_fuel. pose proof (len_nonneg data'). 
  apply Nat2Z.inj_le. rewrite Nat2Z.inj_add, !positive_nat_Z, !Z2Pos.id by lia. lia.
Qed.

(** ** Properties *)


Definition sample_addr (x port : Z) : SocketAddr := mkAddr (IpV4 [10; 0; 0; x]) port.
Definition sample_packet (x : Z) : Packet :=
  mkPacket (sample_addr 1 (1000 + x)) (sample_addr x 53) (str "app") [x; x + 1].


(** From every state that satisfies the decoder's invariant, which holds
    initially and is preserved, decoding any chunk terminates without a panic (no
    failed assertion, no arithmetic underflow, no slice out of range), even while a
    packet of up to [2^32] bytes is being dropped. *)
Theorem udp_decode_chunk_total :
  udp_inv decoder_new /\
  forall d data, udp_inv d -> wf_bytes data ->
    exists x d', udp_decode_chunk d data = Ret (x, d') /\ udp_inv d' /\
      forall g tail, x = Complete g tail -> wf_bytes tail /\ len tail <= len data.
Proof.
  split; [split; [constructor|done]|].
  intros d data Hi Hd. destruct (udp_decode_loop d data Hi Hd) as (r & E & x & d' & -> & H).
  exists x, d'. split; [|done]. unfold udp_decode_chunk. by rewrite E.
Qed.

Lemma udp_decode_chunk_total_witness :
  exists x d', udp_decode_chunk decoder_new ([0; 0; 0; 3] ++ [1; 2; 3; 4; 5]) = Ret (x, d') /\ udp_inv d' /\
    forall g tail, x = Complete g tail -> wf_bytes tail /\ len tail <= 9.
Proof.
  apply (proj2 udp_decode_chunk_total decoder_new ([0; 0; 0; 3] ++ [1; 2; 3; 4; 5])).
  - apply (proj1 udp_decode_chunk_total).
  - by_compute.
Defined.

(** A packet that is dropped because its length field is smaller than the
    fixed header takes the rest of its chunk with it: the decoder behaves as if the
    chunk had been the dropped bytes themselves, whatever follows them. *)
Theorem udp_dropped_packet_loses_chunk (d : Decoder) (n : Z) (body rest : bytes) :
  udp_idle d -> 0 <= n < 37 -> len body = n -> wf_bytes body -> rest <> [] ->
  udp_decode_chunk d (be_bytes 4 n ++ body ++ rest) = udp_decode_chunk (set_total n d) body.
Proof.
  intros [Hs Hbuf] Hn Hb Hwf Hrest. destruct d as [s t b sr ds an]. simpl in Hs, Hbuf. subst s b.
  assert (decode_chunk_once (mkDecoder Length t [] sr ds an) (be_bytes 4 n ++ body ++ rest)
    = Ret (None, body ++ rest, mkDecoder (Dropping n) n [] sr ds an)) as E1.
  { unfold decode_chunk_once, process_client_length. cbn [dec_state]. change UDPPKT_LENGTH_SIZE with 4.
    rewrite (buffered_read_done _ (be_bytes 4 n) _ _ (be_bytes 4 n)) by (done || by right). cbn [bindM].
    unfold get_u32. rewrite <- (app_nil_r (be_bytes 4 n)), get_uint_be by (done || lia). cbn [bindM].
    change UDPPKT_IN_FIXED_HEADER_NO_LENGTH_SIZE with 37.
    by rewrite (proj2 (Z.leb_gt _ _)) by lia. }
  assert (decode_chunk_once (mkDecoder (Dropping n) n [] sr ds an) (body ++ rest)
    = Ret (None, body, mkDecoder Length n [] sr ds an)) as E2.
  { unfold decode_chunk_once. cbn [dec_state]. rewrite len_app. pose proof (len_nonneg rest).
    rewrite Z.min_l by lia. rewrite Z.leb_refl. cbn [bindM]. by rewrite split_to_app' by lia. }
  assert (body ++ rest <> []) as E by (by intros [_ ->]%app_nil).
  eapply (udp_decode_prefix 2); [split; [constructor|done]|done| |lia|].
  - assert (be_bytes 4 n ++ body ++ rest <> []) as E0 by done.
    rewrite (round_once 1 _ _ _ _ E0 E1). by rewrite (round_once 0 _ _ _ _ E E2).
  - rewrite !len_app, len_be_bytes. pose proof (len_nonneg rest). lia.
Qed.

(** The packet after an empty one, in the same chunk, disappears. *)
Lemma udp_dropped_packet_loses_chunk_witness :
  udp_decode_chunk decoder_new (be_bytes 4 0 ++ [] ++ packet_bytes (sample_packet 7))
    = Ret (WantMore, decoder_new).
Proof.
  rewrite (udp_dropped_packet_loses_chunk decoder_new 0 [] (packet_bytes (sample_packet 7)));
    [reflexivity|split; reflexivity|lia|reflexivity|by_compute|discriminate].
Defined.

(** The packets sent to the client have the documented layout: the length
    field counts the bytes after it, and the addresses, ports and payload are read
    back from their fields. *)
Theorem udp_encode_layout (g : UdpDatagram) :
  wf_addr (um_source (ud_meta g)) -> wf_addr (um_destination (ud_meta g)) ->
  36 + len (ud_payload g) < 2 ^ 32 ->
  exists packet, udp_encode_packet g = Some packet /\
    len packet = 40 + len (ud_payload g) /\
    (let! (total, r) := get_u32 packet in
     let! (sip, r) := get_fixed_size_ip r in
     let! (sport, r) := get_u16 r in
     let! (dip, r) := get_fixed_size_ip r in
     let! (dport, r) := get_u16 r in
     Ret (total, mkAddr sip sport, mkAddr dip dport, r))
    = Ret (36 + len (ud_payload g), canonical_addr (um_source (ud_meta g)),
           canonical_addr (um_destination (ud_meta g)), ud_payload g).
Proof.
  intros [Hs1 Hs2] [Hd1 Hd2] Hl. eexists. split; [done|].
  change UDPPKT_OUT_FIXED_HEADER_NO_LENGTH_SIZE with 36. pose proof (len_nonneg (ud_payload g)).
  unfold as_u32. rewrite Z.mod_small by lia. split.
  - rewrite !len_app, !put_fixed_size_ip_len, !len_be_bytes by done. lia.
  - unfold get_u32, get_u16. rewrite get_uint_be by (done || lia). cbn [bindM].
    rewrite get_put_fixed_size_ip by done. cbn [bindM]. rewrite get_uint_be by done. cbn [bindM].
    rewrite get_put_fixed_size_ip by done. cbn [bindM]. rewrite get_uint_be by done. done.
Qed.

Definition sample_reply : UdpDatagram := mkUdp (mkMeta (sample_addr 8 53) (sample_addr 1 1000)) [1; 2; 3].

Lemma udp_encode_layout_witness :
  exists packet, udp_encode_packet sample_reply = Some packet /\ len packet = 43.
Proof.
  destruct (udp_encode_layout sample_reply) as (packet & E & Hl & _);
    [by_compute|by_compute|vm_compute; reflexivity|]. exists packet. split; [exact E|exact Hl].
Defined.
