(* ===== verification/IcmpCodec.v ===== *)
(** * The ICMP datagram codec (lib/src/http_icmp_codec.rs)

    The decoder of the fixed-size echo requests a client sends over an ICMP
    multiplexer stream, and the encoder of the replies.  The payload of the echo
    request is random: [fill n] stands for the [n] bytes that
    [ring::rand::SystemRandom::fill] writes. *)

From S2P Require Import Prelude.
From S2P Require Import Varint.
From S2P Require Import NetUtils.
From S2P Require Import Icmp.
From S2P Require Import Datagram.

Definition ICMPPKT_ID_SIZE : Z := 2.
Definition ICMPPKT_ADDR_SIZE : Z := 16.
Definition ICMPPKT_SEQNO_SIZE : Z := 2.
Definition ICMPPKT_TTL_SIZE : Z := 1.
Definition ICMPPKT_DATA_SIZE : Z := 2.
Definition ICMPPKT_TYPE_SIZE : Z := 1.
Definition ICMPPKT_CODE_SIZE : Z := 1.
Definition ICMPPKT_REQ_SIZE : Z :=
  ICMPPKT_ID_SIZE + ICMPPKT_ADDR_SIZE + ICMPPKT_SEQNO_SIZE + ICMPPKT_TTL_SIZE + ICMPPKT_DATA_SIZE.
Definition ICMPPKT_REPLY_SIZE : Z :=
  ICMPPKT_ID_SIZE + ICMPPKT_ADDR_SIZE + ICMPPKT_TYPE_SIZE + ICMPPKT_CODE_SIZE + ICMPPKT_SEQNO_SIZE.

(** The decoder is its [buffer]. *)
Definition IcmpDecoder : Type := bytes.

Definition icmp_decoder_new : IcmpDecoder := [].

Definition on_message_chunk (buffer : IcmpDecoder) (chunk : bytes)
  : M (option (bytes * bytes) * IcmpDecoder) :=
  if negb (len buffer =? 0) || (len buffer + len chunk <? ICMPPKT_REQ_SIZE) then
    let! room := usub ICMPPKT_REQ_SIZE (len buffer) in
    let! (head, chunk) := split_to (Z.min (len chunk) room) chunk in
    let buffer := buffer ++ head in
    let! _ := assertM (len buffer <=? ICMPPKT_REQ_SIZE) in
    if len buffer <? ICMPPKT_REQ_SIZE then
      let! _ := assertM (len chunk =? 0) in Ret (None, buffer)
    else Ret (Some (buffer, chunk), [])
  else
    let! (head, chunk) := split_to ICMPPKT_REQ_SIZE chunk in
    Ret (Some (head, chunk), buffer).

Section decoder.
Variable fill : Z -> bytes.

Definition icmp_decode_chunk (self : IcmpDecoder) (data : bytes)
  : M (DecodeResult DownIcmpDatagram * IcmpDecoder) :=
  let! (r, self) := on_message_chunk self data in
  match r with
  | None => Ret (WantMore, self)
  | Some (raw, tail) =>
      let! (identifier, raw) := get_u16 raw in
      let! (destination, raw) := get_fixed_size_ip raw in
      let! (sequence_number, raw) := get_u16 raw in
      let! (ttl, raw) := get_u8 raw in
      let! (data_size, raw) := get_u16 raw in
      let echo := mkEcho 0 identifier sequence_number (fill data_size) in
      Ret (Complete
             (mkDownIcmp destination
                (if is_ipv4 destination then MsgV4 (V4.EchoRequest echo) else MsgV6 (V6.EchoRequest echo))
                ttl) tail, self)
  end.
End decoder.

Definition icmp_encode_packet (datagram : IcmpDatagram) : M (option bytes) :=
  let! r := responded_echo_request (id_message datagram) in
  match r with
  | None => Ret None
  | Some echo =>
      Ret (Some (be_bytes 2 (echo_identifier echo) ++ put_fixed_size_ip (id_peer datagram)
                 ++ [type_id (id_message datagram)] ++ [msg_code (id_message datagram)]
                 ++ be_bytes 2 (echo_sequence_number echo)))
  end.

(** ** Reference: the requests of a client *)

Record Request : Type := mkRequest {
  rq_id : Z; rq_peer : IpAddr; rq_seq : Z; rq_ttl : Z; rq_size : Z }.

Definition wf_request (q : Request) : Prop :=
  0 <= rq_id q < 2 ^ 16 /\ wf_ip (rq_peer q) /\ 0 <= rq_seq q < 2 ^ 16 /\ is_byte (rq_ttl q) /\
  0 <= rq_size q < 2 ^ 16.

#[export] Instance wf_request_dec q : Decision (wf_request q).
Proof. unfold wf_request. apply _. Defined.

Definition request_bytes (q : Request) : bytes :=
  be_bytes 2 (rq_id q) ++ put_fixed_size_ip (rq_peer q) ++ be_bytes 2 (rq_seq q) ++ [rq_ttl q]
  ++ be_bytes 2 (rq_size q).

Definition request_datagram (fill : Z -> bytes) (q : Request) : DownIcmpDatagram :=
  let peer := wire_canonical (rq_peer q) in
  let echo := mkEcho 0 (rq_id q) (rq_seq q) (fill (rq_size q)) in
  mkDownIcmp peer
    (if is_ipv4 peer then MsgV4 (V4.EchoRequest echo) else MsgV6 (V6.EchoRequest echo)) (rq_ttl q).

Definition icmp_at_packet (d : IcmpDecoder) (q : Request) (pre : bytes) : Prop :=
  pre = d /\ len d < 23.

(** ** Lemmas *)

Lemma request_bytes_len q : wf_request q -> len (request_bytes q) = 23.
Proof.
  intros (_ & H & _). unfold request_bytes. by rewrite !len_app, !len_be_bytes, put_fixed_size_ip_len.
Qed.

Lemma on_message_chunk_more d chunk :
  len d + len chunk < 23 -> on_message_chunk d chunk = Ret (None, d ++ chunk).
Proof.
  intros H. unfold on_message_chunk. change ICMPPKT_REQ_SIZE with 23. pose proof (len_nonneg d).
  pose proof (len_nonneg chunk).
  rewrite (proj2 (Z.ltb_lt _ _)) by lia. rewrite orb_true_r, usub_ok by lia. cbn [bindM].
  rewrite Z.min_l by lia. rewrite <- (app_nil_r chunk) at 2. rewrite split_to_app. cbn [bindM].
  rewrite len_app, (proj2 (Z.leb_le _ _)), (proj2 (Z.ltb_lt _ _)) by lia. done.
Qed.

Lemma on_message_chunk_done d rem tail :
  len d < 23 -> len d + len rem = 23 ->
  on_message_chunk d (rem ++ tail) = Ret (Some (d ++ rem, tail), []).
Proof.
  intros Hd H. unfold on_message_chunk. change ICMPPKT_REQ_SIZE with 23. pose proof (len_nonneg d).
  pose proof (len_nonneg tail). rewrite len_app. destruct (Z.eqb_spec (len d) 0) as [E|E].
  - assert (d = []) as -> by (apply len_nil_inv; lia). change (len []) with 0 in *. cbn [negb orb app].
    rewrite (proj2 (Z.ltb_ge _ _)) by lia. by rewrite split_to_app' by lia.
  - cbn [negb orb]. rewrite usub_ok by lia. cbn [bindM]. rewrite Z.min_r by lia.
    rewrite split_to_app' by lia. cbn [bindM].
    rewrite len_app, (proj2 (Z.leb_le _ _)), (proj2 (Z.ltb_ge _ _)) by lia. done.
Qed.

Section instance.
Context (fill : Z -> bytes).

Lemma icmp_decode_done d q rem tail :
  wf_request q -> len d < 23 -> request_bytes q = d ++ rem ->
  icmp_decode_chunk fill d (rem ++ tail) = Ret (Complete (request_datagram fill q) tail, []).
Proof.
  intros Hwf Hd E. pose proof (request_bytes_len q Hwf) as Hl. rewrite E, len_app in Hl.
  unfold icmp_decode_chunk. rewrite on_message_chunk_done by done. cbn [bindM]. rewrite <- E.
  destruct Hwf as (Hi & Hp & Hs & Ht & Hz). unfold request_bytes, get_u16.
  rewrite get_uint_be by done. cbn [bindM]. rewrite get_put_fixed_size_ip by done. cbn [bindM].
  rewrite get_uint_be by done. cbn [bindM app]. rewrite get_u8_cons. cbn [bindM].
  rewrite <- (app_nil_r (be_bytes 2 (rq_size q))), get_uint_be by done. done.
Qed.

(** The ICMP decoder keeps the promise of [ChunkDecoder]. *)
#[export] Program Instance icmp_chunk_decoder :
  ChunkDecoder (icmp_decode_chunk fill) wf_request request_bytes (request_datagram fill) (fun _ => true) :=
  {| at_packet := icmp_at_packet; idle := fun d => d = [] |}.
Next Obligation. by intros d p -> _. Qed.
Next Obligation.
  intros d p pre data rest Hwf [-> Hd] E Hr. pose proof (request_bytes_len p Hwf) as Hl.
  destruct Hr as [Hr|]; [|done]. rewrite E, !len_app in Hl.
  assert (0 < len rest) by (destruct rest; [done|rewrite len_cons; pose proof (len_nonneg rest); lia]).
  exists (d ++ data). unfold icmp_decode_chunk. rewrite on_message_chunk_more by lia.
  split; [done|]. split; [done|]. rewrite len_app. lia.
Qed.
Next Obligation. intros d p pre rem tail Hwf [-> Hd] E _. eexists. split; [by apply icmp_decode_done|done]. Qed.
Next Obligation.
  intros d p pre Hwf [-> Hd] _ ->. pose proof (request_bytes_len p Hwf). lia.
Qed.
End instance.

(** ** Properties *)

(** However the transport cuts the client's byte stream into chunks,
    the datagram source delivers exactly the echo requests of the stream, in order,
    and then the end of file. *)
Theorem icmp_stream_decoded (fill : Z -> bytes) (qs : list Request) (chunks : list bytes) :
  Forall wf_request qs -> concat chunks = concat (request_bytes <$> qs) ->
  read_many (icmp_decode_chunk fill) (S (length qs)) (mkSource chunks icmp_decoder_new [])
    = Ret (request_datagram fill <$> qs, Some UnexpectedEof).
Proof.
  intros Hwf Hc. apply (read_many_packets (icmp_decode_chunk fill) (CD := icmp_chunk_decoder fill)); try done.
  intros d ->. done.
Qed.

Definition sample_request (x : Z) : Request := mkRequest x (IpV4 [8; 8; 8; 8]) (x + 1) 64 3.

Lemma icmp_stream_decoded_witness :
  let fill n := replicate (Z.to_nat n) 0 in
  let qs := [sample_request 1; sample_request 2] in
  let stream := concat (request_bytes <$> qs) in
  read_many (icmp_decode_chunk fill) 3
    (mkSource [take 22 stream; take 2 (drop 22 stream); drop 24 stream] icmp_decoder_new [])
    = Ret (request_datagram fill <$> qs, Some UnexpectedEof).
Proof.
  intros fill qs stream. apply (icmp_stream_decoded fill qs); [by_compute|reflexivity].
Defined.

(** The reply to a request carries back the identifier and the sequence
    number the client chose, the address of the peer and the type and code of the
    message received from it; messages that answer no echo request are dropped. *)
Theorem icmp_reply_encoded (peer : IpAddr) (m : Message) :
  wf_ip peer ->
  (forall e, responded_echo_request m = Ret (Some e) -> wf_echo e ->
    exists packet, icmp_encode_packet (mkIcmp peer m) = Ret (Some packet) /\
      len packet = ICMPPKT_REPLY_SIZE /\
      (let! (i, r) := get_u16 packet in
       let! (ip, r) := get_fixed_size_ip r in
       let! (t, r) := get_u8 r in
       let! (c, r) := get_u8 r in
       let! (s, r) := get_u16 r in Ret (i, ip, t, c, s, r))
      = Ret (echo_identifier e, wire_canonical peer, type_id m, msg_code m, echo_sequence_number e, [])) /\
  (responded_echo_request m = Ret None -> icmp_encode_packet (mkIcmp peer m) = Ret None).
Proof.
  intros Hp. split.
  - intros e E (Hi & Hs & _). unfold icmp_encode_packet. cbn [id_message id_peer]. rewrite E. cbn [bindM].
    eexists. split; [done|]. split; [by rewrite !len_app, !len_be_bytes, put_fixed_size_ip_len|].
    unfold get_u16. rewrite get_uint_be by done. cbn [bindM]. rewrite get_put_fixed_size_ip by done.
    cbn [bindM app]. rewrite get_u8_cons. cbn [bindM]. rewrite get_u8_cons. cbn [bindM].
    rewrite <- (app_nil_r (be_bytes 2 (echo_sequence_number e))), get_uint_be by done. done.
  - intros E. unfold icmp_encode_packet. cbn [id_message]. by rewrite E.
Qed.

Lemma icmp_reply_encoded_witness :
  exists packet, icmp_encode_packet (mkIcmp (IpV4 [8; 8; 8; 8]) (MsgV4 (V4.EchoReply sample_echo)))
    = Ret (Some packet) /\ len packet = 22.
Proof.
  destruct (proj1 (icmp_reply_encoded (IpV4 [8; 8; 8; 8]) (MsgV4 (V4.EchoReply sample_echo))
    ltac:(by_compute)) sample_echo eq_refl ltac:(by_compute)) as (packet & E & Hl & _).
  exists packet. split; [exact E|exact Hl].
Defined.
