(* ===== verification/Rules.v ===== *)
(** * Connection filter rules (lib/src/rules.rs, lib/src/client_random_prefix.rs)

    The rule engine that accepts or denies a TLS connection by the address, the
    client random and the SNI of its client, and the generator of masked client
    random prefixes.  The crates the code calls are parameters: [ipnet] parses a CIDR
    range, [hex_decode] is [hex::decode], [hkdf], [sha256] and [aes_128_ecb] are the
    primitives of [ring] and [boring] ([None] where the call returns an error). *)

From S2P Require Import Prelude.
From S2P Require Import Codecs.
From S2P Require Import Varint.
From S2P Require Import NetUtils.

Inductive RuleAction : Type := AllowAction | DenyAction.

Record Rule : Type := mkRule {
  cidr : option bytes;
  rule_client_random_prefix : option bytes;
  rule_client_random_auth_key : option bytes;
  action : RuleAction;
}.

Record RulesConfig : Type := mkRules { rule : list Rule }.

Record RulesEngine : Type := mkEngine { rules : RulesConfig }.

Inductive RuleEvaluation : Type := Allow | Deny.

(** The loop of the constant-time comparison. *)
Fixpoint diff_loop (n : nat) (i : Z) (ciphertext expected : bytes) (diff : Z) : M Z :=
  match n with
  | O => Ret diff
  | S n =>
      let! c := index ciphertext i in
      let! e := index expected i in
      diff_loop n (i + 1) ciphertext expected (Z.lor diff (Z.lxor c e))
  end.

(** The loop of the masked comparison, with its [break]. *)
Fixpoint masked_loop (n : nat) (i : Z) (client_random mask prefix : bytes) : M bool :=
  match n with
  | O => Ret true
  | S n =>
      let! c := index client_random i in
      let! m := index mask i in
      let! p := index prefix i in
      if negb (Z.land c m =? Z.land p m) then Ret false
      else masked_loop n (i + 1) client_random mask prefix
  end.

Section rules.
Context (ipnet : bytes -> option (IpAddr -> bool)) (hex_decode : bytes -> option bytes)
  (hkdf : bytes -> bytes -> bytes -> option bytes) (sha256 : bytes -> bytes)
  (aes_128_ecb : bytes -> bytes -> option bytes).

Definition is_valid_hex (s : bytes) : bool :=
  negb (len s =? 0) && (len s mod 2 =? 0) && bool_decide (is_Some (hex_decode s)).

(** [hkdf secret salt info] is the 16-byte key, [aes_128_ecb key input] the bytes that
    the unpadded cipher wrote. *)
Definition validate_client_random_auth_key (auth_key client_random sni : bytes) : M bool :=
  if negb (len client_random =? 32) || (len sni =? 0) || (len auth_key =? 0) then Ret false
  else
    let! (random, ciphertext) := split_to 16 client_random in
    match hkdf auth_key random (str "tls13 encryption context") with
    | None => Ret false
    | Some derived_key =>
        let sni_hash := sha256 sni in
        let! sni_hash_prefix := slice sni_hash 0 16 in
        match aes_128_ecb derived_key sni_hash_prefix with
        | None => Ret false
        | Some buf =>
            let expected := take (Z.to_nat (Z.min (len buf) 16)) buf in
            let! diff := diff_loop (length expected) 0 ciphertext expected 0 in
            Ret (diff =? 0)
        end
    end.

(** The prefix of a rule, with or without a mask, against the client random. *)
Definition check_prefix (prefix_str client_random_data : bytes) (matched : bool) : M bool :=
  match split_once 0x2F prefix_str with
  | Some (prefix_part, mask_part) =>
      match hex_decode prefix_part, hex_decode mask_part with
      | Some prefix_bytes, Some mask_bytes =>
          let mask_len := Z.min (Z.min (len mask_bytes) (len prefix_bytes))
                            (len client_random_data) in
          let! loop := masked_loop (Z.to_nat mask_len) 0 client_random_data
                         mask_bytes prefix_bytes in
          Ret (matched && ((0 <? mask_len) && loop))
      | _, _ => Ret false
      end
  | None =>
      match hex_decode prefix_str with
      | Some prefix_bytes => Ret (matched && starts_with prefix_bytes client_random_data)
      | None => Ret false
      end
  end.

(** The part of [matches] after the CIDR check; [matched] is its outcome so far. *)
Definition check_random (self : Rule) (client_random sni : option bytes) (matched : bool) : M bool :=
  match rule_client_random_auth_key self with
  | Some auth_hex =>
      match client_random, sni with
      | Some client_random_data, Some sni_str =>
          match hex_decode auth_hex with
          | Some auth_bytes =>
              let! auth_valid := validate_client_random_auth_key auth_bytes client_random_data sni_str in
              Ret (matched && auth_valid)
          | None => Ret false
          end
      | _, _ => Ret false
      end
  | None =>
      match rule_client_random_prefix self with
      | None => Ret matched
      | Some prefix_str =>
          match client_random with
          | None => Ret false
          | Some client_random_data =>
              check_prefix prefix_str client_random_data matched
          end
      end
  end.

Definition matches (self : Rule) (client_ip : IpAddr) (client_random sni : option bytes) : M bool :=
  match cidr self with
  | None => check_random self client_random sni true
  | Some cidr_str =>
      match ipnet cidr_str with
      | None => Ret false
      | Some contains => check_random self client_random sni (contains client_ip)
      end
  end.

Definition from_config (r : RulesConfig) : RulesEngine := mkEngine r.

Definition default_allow : RulesEngine := mkEngine (mkRules []).

Fixpoint evaluate_rules (l : list Rule) (client_ip : IpAddr) (client_random sni : option bytes)
  : M RuleEvaluation :=
  match l with
  | [] => Ret Allow
  | r :: l =>
      let! m := matches r client_ip client_random sni in
      if m then Ret (match action r with AllowAction => Allow | DenyAction => Deny end)
      else evaluate_rules l client_ip client_random sni
  end.

Definition evaluate (self : RulesEngine) (client_ip : IpAddr) (client_random sni : option bytes)
  : M RuleEvaluation :=
  let rs := rule (rules self) in
  let has_prefix_rule := existsb (fun r => bool_decide (is_Some (rule_client_random_prefix r))) rs in
  let has_auth_key_rule := existsb (fun r => bool_decide (is_Some (rule_client_random_auth_key r))) rs in
  let sni_is_missing := match sni with None => true | Some s => len s =? 0 end in
  if (bool_decide (client_random = None) && (has_prefix_rule || has_auth_key_rule))
     || (sni_is_missing && has_auth_key_rule)
  then Ret Deny
  else evaluate_rules rs client_ip client_random sni.

(** ** Specification *)

(** The client random proves knowledge of the key: its second half is the encryption
    of the hash of the SNI under a key derived from the first half. *)
Definition auth_spec (key client_random sni : bytes) : Prop :=
  len client_random = 32 /\ sni <> [] /\ key <> [] /\
  exists k, hkdf key (take 16 client_random) (str "tls13 encryption context") = Some k /\
    aes_128_ecb k (take 16 (sha256 sni)) = Some (drop 16 client_random).

(** [client_random & mask == prefix & mask] on the bytes all three have. *)
Definition mask_spec (client_random mask prefix : bytes) : Prop :=
  client_random <> [] /\ mask <> [] /\ prefix <> [] /\
  forall i c m p, client_random !! i = Some c -> mask !! i = Some m -> prefix !! i = Some p ->
    Z.land c m = Z.land p m.

Definition prefix_spec (s client_random : bytes) : Prop :=
  (0x2F ∉ s /\ exists p rest, hex_decode s = Some p /\ client_random = p ++ rest) \/
  (exists a b p m, s = a ++ 0x2F :: b /\ 0x2F ∉ a /\ hex_decode a = Some p /\ hex_decode b = Some m /\
    mask_spec client_random m p).

Definition matches_spec (r : Rule) (ip : IpAddr) (client_random sni : option bytes) : Prop :=
  (forall c, cidr r = Some c -> exists contains, ipnet c = Some contains /\ contains ip = true) /\
  match rule_client_random_auth_key r, rule_client_random_prefix r with
  | Some h, _ => exists key cr s, hex_decode h = Some key /\ client_random = Some cr /\ sni = Some s /\
                   auth_spec key cr s
  | None, Some p => exists cr, client_random = Some cr /\ prefix_spec p cr
  | None, None => True
  end.

(** The rules cannot be evaluated: some rule looks at what is missing. *)
Definition undecidable (rs : list Rule) (client_random sni : option bytes) : Prop :=
  (client_random = None /\ exists r, r ∈ rs /\
    (is_Some (rule_client_random_prefix r) \/ is_Some (rule_client_random_auth_key r))) \/
  ((sni = None \/ sni = Some []) /\ exists r, r ∈ rs /\ is_Some (rule_client_random_auth_key r)).

(** The first rule that matches denies. *)
Definition first_match (rs : list Rule) (ip : IpAddr) (client_random sni : option bytes) (a : RuleAction) : Prop :=
  exists l1 r l2, rs = l1 ++ r :: l2 /\ action r = a /\ matches_spec r ip client_random sni /\
    Forall (fun r => ~ matches_spec r ip client_random sni) l1.
End rules.

(** ** The prefix generator *)

Inductive GenError : Type :=
| EmptyMask
| GenInvalidLength (n : Z)
| InvalidPercent (p : Z)
| MaskTooLong (n : Z).

Record GeneratorParams : Type := mkParams { gp_length : Z; gp_percent : Z }.

Definition default_params : GeneratorParams := mkParams 4 70.

Record GeneratedPrefix : Type := mkGenerated { gen_value : bytes; gen_mask : bytes }.

Definition to_masked_hex_string (hex_encode : bytes -> bytes) (self : GeneratedPrefix) : bytes :=
  hex_encode (gen_value self) ++ 0x2F :: hex_encode (gen_mask self).

Definition validate_params (params : GeneratorParams) : result GenError unit :=
  if negb ((1 <=? gp_length params) && (gp_length params <=? 32)) then
    Err (GenInvalidLength (gp_length params))
  else if negb ((1 <=? gp_percent params) && (gp_percent params <=? 100)) then
    Err (InvalidPercent (gp_percent params))
  else Ok tt.

Definition validate_mask (mask : bytes) : result GenError unit :=
  if len mask =? 0 then Err EmptyMask
  else if 32 <? len mask then Err (MaskTooLong (len mask))
  else Ok tt.

(** [draw i b] is the number in [0..100) drawn for the bit [b] of the byte [i]. *)
Definition mask_byte (draw : Z -> Z) (percent : Z) : Z :=
  fold_left (fun byte bit => if draw bit <? percent then Z.lor byte (Z.shiftl 1 bit) else byte)
    [0; 1; 2; 3; 4; 5; 6; 7] 0.

Definition generate_mask (draw : nat -> Z -> Z) (length percent : Z) : bytes :=
  (fun i => mask_byte (draw i) percent) <$> seq 0 (Z.to_nat length).

(** [random i] is the byte drawn for the byte [i] of the value. *)
Definition generate_value (random : nat -> Z) (mask : bytes) : bytes :=
  imap (fun i m => Z.land (random i) m) mask.

Definition generate (draw : nat -> Z -> Z) (random : nat -> Z) (params : GeneratorParams)
  : result GenError GeneratedPrefix :=
  let? _ := validate_params params in
  let mask := generate_mask draw (gp_length params) (gp_percent params) in
  Ok (mkGenerated (generate_value random mask) mask).

Definition generate_with_mask (random : nat -> Z) (mask : bytes) : result GenError GeneratedPrefix :=
  let? _ := validate_mask mask in
  Ok (mkGenerated (generate_value random mask) mask).

(** ** Lemmas *)

Lemma diff_loop_spec n c e cp ep d :
  length e = n -> (n <= length c)%nat -> length cp = length ep ->
  exists v, diff_loop n (len cp) (cp ++ c) (ep ++ e) d = Ret v /\ (v = 0 <-> d = 0 /\ take n c = e).
Proof.
  revert c e cp ep d. induction n as [|n IH]; intros c e cp ep d He Hc Hp; simpl diff_loop.
  { destruct e; [|done]. exists d. split; [done|]. split; [by intros ->|by intros [-> _]]. }
  destruct e as [|y e]; [done|]. destruct c as [|x c]; [simpl in Hc; lia|]. simpl in He, Hc.
  rewrite index_app. cbn [bindM]. rewrite index_app_at by (unfold len; lia). cbn [bindM].
  destruct (IH c e (cp ++ [x]) (ep ++ [y]) (Z.lor d (Z.lxor x y))) as (v & E & Hv);
    [lia|lia|rewrite !length_app; simpl; lia|].
  exists v. rewrite <- !app_assoc in E. rewrite len_app in E. split; [exact E|].
  rewrite Hv, Z.lor_eq_0_iff, Z.lxor_eq_0_iff. simpl. split; [intros [[-> ->] ->]; done|].
  intros [-> [= -> ->]]. done.
Qed.

Lemma masked_loop_spec n c m p cp mp pp :
  (n <= length c)%nat -> (n <= length m)%nat -> (n <= length p)%nat ->
  length cp = length mp -> length cp = length pp ->
  exists b, masked_loop n (len cp) (cp ++ c) (mp ++ m) (pp ++ p) = Ret b /\
    (b = true <-> forall i x y z, (i < n)%nat -> c !! i = Some x -> m !! i = Some y -> p !! i = Some z ->
      Z.land x y = Z.land z y).
Proof.
  revert c m p cp mp pp. induction n as [|n IH]; intros c m p cp mp pp Hc Hm Hp H1 H2; simpl masked_loop.
  { exists true. split; [done|]. split; [intros; lia|done]. }
  destruct c as [|x c]; [simpl in Hc; lia|]. destruct m as [|y m]; [simpl in Hm; lia|].
  destruct p as [|z p]; [simpl in Hp; lia|]. simpl in *.
  rewrite index_app. cbn [bindM]. rewrite index_app_at by (unfold len; lia). cbn [bindM].
  rewrite index_app_at by (unfold len; lia). cbn [bindM].
  destruct (Z.eqb_spec (Z.land x y) (Z.land z y)) as [E|E]; cbn [negb].
  - destruct (IH c m p (cp ++ [x]) (mp ++ [y]) (pp ++ [z])) as (b & Eb & Hb);
      [lia..|rewrite !length_app; simpl; lia|rewrite !length_app; simpl; lia|].
    exists b. rewrite <- !app_assoc in Eb. rewrite len_app in Eb. split; [exact Eb|].
    rewrite Hb. split.
    + intros H i a b' c' Hi. destruct i as [|i]; simpl; [naive_solver|]. apply H. lia.
    + intros H i a b' c' Hi. apply (H (S i)). lia.
  - exists false. split; [done|]. split; [done|]. intros H. exfalso. apply E. by apply (H O); [lia|..].
Qed.

Section auth_proofs.
Context {hkdf : bytes -> bytes -> bytes -> option bytes} {sha256 : bytes -> bytes}
  {aes_128_ecb : bytes -> bytes -> option bytes}.
Hypothesis sha256_len : forall x, len (sha256 x) = 32.
Hypothesis aes_len : forall k x y, aes_128_ecb k x = Some y -> len x = 16 -> len y = 16.

Lemma validate_spec key cr sni :
  exists b, validate_client_random_auth_key hkdf sha256 aes_128_ecb key cr sni = Ret b /\
    (b = true <-> auth_spec hkdf sha256 aes_128_ecb key cr sni).
Proof.
  unfold validate_client_random_auth_key, auth_spec.
  destruct (Z.eqb_spec (len cr) 32) as [Hcr|Hcr]; cbn [negb orb]; [|exists false; naive_solver].
  destruct (Z.eqb_spec (len sni) 0) as [Hs|Hs]; cbn [orb].
  { exists false. rewrite (len_nil_inv sni) by lia. naive_solver. }
  destruct (Z.eqb_spec (len key) 0) as [Hk|Hk].
  { exists false. rewrite (len_nil_inv key) by lia. naive_solver. }
  unfold split_to. rewrite Hcr. cbn [Z.leb Z.compare Pos.compare Pos.compare_cont bindM].
  change (Z.to_nat 16) with 16%nat.
  destruct (hkdf _ _ _) as [k|] eqn:Ek; [|exists false; naive_solver].
  unfold slice. rewrite sha256_len. cbn [Z.leb Z.compare Pos.compare Pos.compare_cont andb bindM].
  change (Z.to_nat (16 - 0)) with 16%nat. change (Z.to_nat 0) with O. rewrite drop_0.
  destruct (aes_128_ecb k (take 16 (sha256 sni))) as [buf|] eqn:Ea; [|exists false; naive_solver].
  assert (len buf = 16) as Hbuf.
  { apply (aes_len _ _ _ Ea). specialize (sha256_len sni). len_lia. }
  rewrite Hbuf. change (Z.to_nat (16 `min` 16)) with 16%nat. rewrite (take_ge buf) by len_lia.
  destruct (diff_loop_spec (length buf) (drop 16 cr) buf [] [] 0) as (v & E & Hv); [done|len_lia|done|].
  change (len []) with 0 in E. cbn [app] in E. rewrite E. cbn [bindM].
  exists (v =? 0). split; [done|]. rewrite Z.eqb_eq, Hv.
  rewrite take_ge by len_lia. split.
  - intros [_ <-]. split_and!; try done; [by intros ->|by intros ->|]. eauto.
  - intros (_ & _ & _ & k' & Hk' & Ha). simplify_eq. split; [done|]. congruence.
Qed.

End auth_proofs.

Lemma masked_match_spec cr mask prefix :
  let n := Z.min (Z.min (len mask) (len prefix)) (len cr) in
  exists b, masked_loop (Z.to_nat n) 0 cr mask prefix = Ret b /\
    ((0 <? n) && b = true <-> mask_spec cr mask prefix).
Proof.
  intros n. destruct (masked_loop_spec (Z.to_nat n) cr mask prefix [] [] []) as (b & E & Hb);
    [unfold n; len_lia..|done|done|].
  exists b. split; [exact E|]. rewrite andb_true_iff, Hb, Z.ltb_lt. unfold mask_spec. split.
  - intros [Hn H]. split_and!; [by intros ->; unfold n in Hn; len_lia..|].
    intros i c m p Hc Hm Hp. apply (H i c m p); try done.
    apply lookup_lt_Some in Hc, Hm, Hp. unfold n. len_lia.
  - intros (H1 & H2 & H3 & H). split; [|eauto].
    destruct cr, mask, prefix; try done. unfold n. len_lia.
Qed.

Lemma prefix_match_spec (hex_decode : bytes -> option bytes) s cr matched :
  exists b, check_prefix hex_decode s cr matched = Ret b /\ (b = true <-> matched = true /\ prefix_spec hex_decode s cr).
Proof.
  unfold prefix_spec, check_prefix. destruct (split_once 0x2F s) as [[a b]|] eqn:Es.
  - assert (s = a ++ 0x2F :: b /\ 0x2F ∉ a) as [-> Ha].
    { unfold split_once in Es. destruct (find_char 0x2F s) as [i|] eqn:Ef; [|done].
      injection Es as <- <-. by apply find_char_spec. }
    destruct (hex_decode a) as [p|] eqn:Ep; [destruct (hex_decode b) as [m|] eqn:Em|].
    + destruct (masked_match_spec cr m p) as (l & -> & Hl). cbn [bindM].
      eexists. split; [done|]. rewrite andb_true_iff, Hl. split.
      * intros [-> H]. split; [done|]. right. by exists a, b, p, m.
      * intros [-> [[H _]|(a' & b' & p' & m' & E & Ha' & Hp & Hm & H)]]; [set_solver|].
        assert (split_once 0x2F (a' ++ 0x2F :: b') = Some (a', b')) as E' by (by apply split_once_app).
        rewrite <- E, Es in E'. simplify_eq. done.
    + exists false. split; [done|]. split; [done|].
      intros [_ [[H _]|(a' & b' & p' & m' & E & Ha' & Hp & Hm & H)]]; [set_solver|].
      assert (split_once 0x2F (a' ++ 0x2F :: b') = Some (a', b')) as E' by (by apply split_once_app).
      rewrite <- E, Es in E'. simplify_eq.
    + exists false. split; [done|]. split; [done|].
      intros [_ [[H _]|(a' & b' & p' & m' & E & Ha' & Hp & Hm & H)]]; [set_solver|].
      assert (split_once 0x2F (a' ++ 0x2F :: b') = Some (a', b')) as E' by (by apply split_once_app).
      rewrite <- E, Es in E'. simplify_eq.
  - apply split_once_None in Es. destruct (hex_decode s) as [p|] eqn:Ep.
    + eexists. split; [done|]. rewrite andb_true_iff, starts_with_spec. split.
      * intros [-> [rest ->]]. split; [done|]. left. eauto.
      * intros [-> [(_ & p' & rest & Hp & ->)|(a' & b' & p' & m' & -> & _)]]; [|set_solver].
        simplify_eq. eauto.
    + exists false. split; [done|]. split; [done|].
      intros [_ [(_ & p' & rest & Hp & ->)|(a' & b' & p' & m' & -> & _)]]; [done|set_solver].
Qed.

Section rules_proofs.
Context {ipnet : bytes -> option (IpAddr -> bool)}
  {hex_decode : bytes -> option bytes} {hkdf : bytes -> bytes -> bytes -> option bytes}
  {sha256 : bytes -> bytes} {aes_128_ecb : bytes -> bytes -> option bytes}.
Hypothesis sha256_len : forall x, len (sha256 x) = 32.
Hypothesis aes_len : forall k x y, aes_128_ecb k x = Some y -> len x = 16 -> len y = 16.

Lemma matches_correct r ip cr sni :
  exists b, matches ipnet hex_decode hkdf sha256 aes_128_ecb r ip cr sni = Ret b /\
    (b = true <-> matches_spec ipnet hex_decode hkdf sha256 aes_128_ecb r ip cr sni).
Proof.
  unfold matches, matches_spec.
  assert (forall matched, exists b,
    check_random hex_decode hkdf sha256 aes_128_ecb r cr sni matched = Ret b /\ (b = true <-> matched = true /\
    match rule_client_random_auth_key r, rule_client_random_prefix r with
    | Some h, _ => exists key c s, hex_decode h = Some key /\ cr = Some c /\ sni = Some s /\
                     auth_spec hkdf sha256 aes_128_ecb key c s
    | None, Some p => exists c, cr = Some c /\ prefix_spec hex_decode p c
    | None, None => True
    end)) as Hcheck.
  { intros matched. unfold check_random. destruct (rule_client_random_auth_key r) as [h|].
    - assert (forall m : M bool, m = Ret false ->
        (forall key c s, hex_decode h = Some key -> cr = Some c -> sni = Some s -> False) ->
        exists b, m = Ret b /\ (b = true <-> matched = true /\ exists key c s, hex_decode h = Some key /\
          cr = Some c /\ sni = Some s /\ auth_spec hkdf sha256 aes_128_ecb key c s)) as Hno.
      { intros m -> H. exists false. split; [done|]. split; [done|].
        intros [_ (key & c & s & H1 & H2 & H3 & _)]. by destruct (H key c s). }
      destruct cr as [c|]; [|by apply Hno]. destruct sni as [s|]; [|by apply Hno].
      destruct (hex_decode h) as [key|]; [|by apply Hno].
      destruct (validate_spec (hkdf := hkdf) sha256_len aes_len key c s) as (b & -> & Hb). cbn [bindM]. eexists. split; [done|].
      rewrite andb_true_iff, Hb. split.
      + intros [-> H]. split; [done|]. by exists key, c, s.
      + intros [-> (key' & c' & s' & [= <-] & [= <-] & [= <-] & H)]. done.
    - destruct (rule_client_random_prefix r) as [p|]; [|exists matched; split; [done|]; split; [done|by intros [? _]]].
      destruct cr as [c|].
      + destruct (prefix_match_spec hex_decode p c matched) as (b & -> & Hb). exists b. split; [done|].
        rewrite Hb. split; [intros [-> H]; eauto|]. intros [-> (c' & [= <-] & H)]. done.
      + exists false. split; [done|]. split; [done|]. by intros [_ (c & ? & _)]. }
  destruct (cidr r) as [c|].
  - destruct (ipnet c) as [f|] eqn:Ef.
    + destruct (Hcheck (f ip)) as (b & -> & Hb). exists b. split; [done|]. rewrite Hb. split.
      * intros [Hf HX]. split; [|done]. intros c' [= <-]. eauto.
      * intros [H HX]. split; [|done]. destruct (H c eq_refl) as (g & Hg & ?). congruence.
    + exists false. split; [done|]. split; [done|]. intros [H _].
      destruct (H c eq_refl) as (g & Hg & _). congruence.
  - destruct (Hcheck true) as (b & -> & Hb). exists b. split; [done|]. rewrite Hb.
    split; [by intros [_ ?]|by intros [_ ?]].
Qed.

Lemma evaluate_rules_spec rs ip cr sni :
  exists v, evaluate_rules ipnet hex_decode hkdf sha256 aes_128_ecb rs ip cr sni = Ret v /\
    (v = Deny <-> first_match ipnet hex_decode hkdf sha256 aes_128_ecb rs ip cr sni DenyAction).
Proof.
  induction rs as [|r rs IH]; simpl.
  { exists Allow. split; [done|]. split; [done|]. by intros ([|] & r0 & l2 & E & _). }
  destruct (matches_correct r ip cr sni) as (b & -> & Hb). cbn [bindM]. destruct b.
  - eexists. split; [done|]. split.
    + intros H. exists [], r, rs. split; [done|]. split; [by destruct (action r)|].
      split; [by apply Hb|constructor].
    + intros (l1 & r' & l2 & E & Ha & Hm & Hl). destruct l1 as [|r1 l1]; simplify_eq/=.
      * by rewrite Ha.
      * apply Forall_cons in Hl as [Hl _]. exfalso. by apply Hl, Hb.
  - destruct IH as (v & -> & Hv). exists v. split; [done|]. rewrite Hv. unfold first_match. split.
    + intros (l1 & r' & l2 & -> & Ha & Hm & Hl). exists (r :: l1), r', l2. split_and!; try done.
      constructor; [|done]. intros Hc%Hb. done.
    + intros (l1 & r' & l2 & E & Ha & Hm & Hl). destruct l1 as [|r1 l1]; simplify_eq/=.
      * by apply Hb in Hm.
      * apply Forall_cons in Hl as [_ Hl]. by exists l1, r', l2.
Qed.
End rules_proofs.

Lemma undecidable_spec rs cr sni :
  (bool_decide (cr = None) &&
     (existsb (fun r => bool_decide (is_Some (rule_client_random_prefix r))) rs
      || existsb (fun r => bool_decide (is_Some (rule_client_random_auth_key r))) rs))
  || (match sni with None => true | Some s => len s =? 0 end
      && existsb (fun r => bool_decide (is_Some (rule_client_random_auth_key r))) rs) = true
  <-> undecidable rs cr sni.
Proof.
  assert (forall P : Rule -> Prop, forall H : (forall r, Decision (P r)),
    existsb (fun r => bool_decide (P r)) rs = true <-> exists r, r ∈ rs /\ P r) as Hex.
  { intros P H. rewrite existsb_exists. split; intros (r & Hr & Hp); exists r.
    - apply bool_decide_eq_true in Hp. by rewrite list_elem_of_In.
    - split; [by apply list_elem_of_In|by apply bool_decide_eq_true]. }
  rewrite orb_true_iff, !andb_true_iff, orb_true_iff, !Hex, bool_decide_eq_true.
  assert (match sni with None => true | Some s => len s =? 0 end = true <-> sni = None \/ sni = Some []) as ->.
  { destruct sni as [s|]; [|naive_solver]. rewrite Z.eqb_eq. split.
    - intros H. right. f_equal. apply len_nil_inv. lia.
    - intros [|[= ->]]; done. }
  unfold undecidable. split.
  - intros [[-> [(r & Hr & Hp)|(r & Hr & Hp)]]|[Hs (r & Hr & Hp)]]; eauto 10.
  - intros [[-> (r & Hr & [Hp|Hp])]|[Hs (r & Hr & Hp)]]; eauto 10.
Qed.

(** The masks and values the generator draws. *)
Lemma mask_byte_wf draw percent : is_byte (mask_byte draw percent).
Proof.
  unfold mask_byte. cbn [fold_left]. unfold is_byte.
  repeat match goal with |- context [draw ?b <? percent] => destruct (draw b <? percent) end;
    vm_compute; intuition congruence.
Qed.

Lemma generate_value_lookup random mask i :
  generate_value random mask !! i = (fun m => Z.land (random i) m) <$> (mask !! i).
Proof. unfold generate_value. by rewrite list_lookup_imap. Qed.

Lemma land_byte a b : is_byte b -> 0 <= a -> is_byte (Z.land a b).
Proof.
  unfold is_byte. intros Hb Ha.
  assert (Z.land a b = Z.land a b mod 2 ^ 8) as ->; [|apply Z.mod_pos_bound; lia].
  rewrite <- land_mask by lia. rewrite <- Z.land_assoc, land_mask, (Z.mod_small b) by lia. done.
Qed.

Lemma generate_value_wf random mask :
  wf_bytes mask -> (forall i, is_byte (random i)) -> wf_bytes (generate_value random mask).
Proof.
  intros Hm Hr. apply Forall_lookup. intros i x Hx. rewrite generate_value_lookup in Hx.
  apply fmap_Some in Hx as (m & Hmi & ->). apply land_byte; [|apply Hr].
  by eapply Forall_lookup_1 in Hm.
Qed.

(** A rule whose prefix is a generated one. *)
Definition prefix_rule (s : bytes) (a : RuleAction) : Rule := mkRule None (Some s) None a.

Lemma generated_mask_spec random mask cr :
  wf_bytes mask -> mask <> [] -> len mask <= len cr ->
  (mask_spec cr mask (generate_value random mask) <->
   forall i c m, cr !! i = Some c -> mask !! i = Some m ->
     Z.land c m = Z.land (random i) m).
Proof.
  intros Hm Hne Hl. unfold mask_spec.
  assert (forall i m, Z.land (Z.land (random i) m) m = Z.land (random i) m) as Hidem.
  { intros i m. by rewrite <- Z.land_assoc, Z.land_diag. }
  split.
  - intros (_ & _ & _ & H) i c m Hc Hmi. rewrite <- Hidem. apply (H i); [done..|].
    by rewrite generate_value_lookup, Hmi.
  - intros H. split_and!; [|done| |].
    + intros ->. by apply Hne, len_nil_inv.
    + intros E. destruct mask; [done|]. discriminate E.
    + intros i c m p Hc Hmi Hp. rewrite generate_value_lookup, Hmi in Hp. injection Hp as <-.
      rewrite Hidem. by apply H.
Qed.

Lemma evaluate_decides (ipnet : bytes -> option (IpAddr -> bool))
    (hex_decode : bytes -> option bytes) (hkdf : bytes -> bytes -> bytes -> option bytes)
    (sha256 : bytes -> bytes) (aes_128_ecb : bytes -> bytes -> option bytes)
    (engine : RulesEngine) (ip : IpAddr) (cr sni : option bytes) :
  (forall x, len (sha256 x) = 32) ->
  (forall k x y, aes_128_ecb k x = Some y -> len x = 16 -> len y = 16) ->
  let rs := rule (rules engine) in
  exists v, evaluate ipnet hex_decode hkdf sha256 aes_128_ecb engine ip cr sni = Ret v /\
    (v = Deny <-> undecidable rs cr sni \/
                  first_match ipnet hex_decode hkdf sha256 aes_128_ecb rs ip cr sni DenyAction).
Proof.
  intros Hsha Haes rs. unfold evaluate. fold rs.
  destruct (_ || _) eqn:E.
  - apply undecidable_spec in E. exists Deny. split; [done|]. split; [by left|done].
  - destruct (evaluate_rules_spec (ipnet := ipnet) (hex_decode := hex_decode) (hkdf := hkdf)
      Hsha Haes rs ip cr sni) as (v & -> & Hv).
    exists v. split; [done|]. rewrite Hv. split; [by right|]. intros [H|H]; [|done].
    apply undecidable_spec in H. congruence.
Qed.

(** ** Properties *)

(** C24: the engine never panics.  It denies exactly when some rule, wherever it stands in
    the list, asks for a client random or an SNI that the connection does not have, or when
    the first rule that matches the connection (by the declarative reading of rules: CIDR,
    key proof, masked or plain prefix) is a deny rule; with no matching rule it allows.  The
    documentation knows only the first match ([denied_before_matching]). *)
Theorem evaluate_first_match (ipnet : bytes -> option (IpAddr -> bool))
    (hex_decode : bytes -> option bytes) (hkdf : bytes -> bytes -> bytes -> option bytes)
    (sha256 : bytes -> bytes) (aes_128_ecb : bytes -> bytes -> option bytes)
    (engine : RulesEngine) (ip : IpAddr) (cr sni : option bytes) :
  (forall x, len (sha256 x) = 32) ->
  (forall k x y, aes_128_ecb k x = Some y -> len x = 16 -> len y = 16) ->
  let rs := rule (rules engine) in
  exists v, evaluate ipnet hex_decode hkdf sha256 aes_128_ecb engine ip cr sni = Ret v /\
    (v = Deny <-> undecidable rs cr sni \/
                  first_match ipnet hex_decode hkdf sha256 aes_128_ecb rs ip cr sni DenyAction).
Proof. apply evaluate_decides. Qed.

(** Stand-ins for the primitives: the laws hold of them. *)
Definition sample_ipnet (s : bytes) : option (IpAddr -> bool) :=
  if bool_decide (s = str "10.0.0.0/8")
  then Some (fun ip => match ip with IpV4 (10 :: _) => true | _ => false end) else None.
Definition sample_sha256 (x : bytes) : bytes := replicate 32 (len x mod 256).
Definition sample_aes (k x : bytes) : option bytes := Some (take 16 (x ++ replicate 16 0)).

Lemma evaluate_first_match_witness :
  exists v, evaluate sample_ipnet HexRef.hex_decode (fun k _ _ => Some k) sample_sha256 sample_aes
      (mkEngine (mkRules [mkRule (Some (str "10.0.0.0/8")) None None DenyAction]))
      (IpV4 [10; 1; 2; 3]) None None = Ret v /\
    (v = Deny <-> undecidable [mkRule (Some (str "10.0.0.0/8")) None None DenyAction] None None \/
       first_match sample_ipnet HexRef.hex_decode (fun k _ _ => Some k) sample_sha256 sample_aes
         [mkRule (Some (str "10.0.0.0/8")) None None DenyAction] (IpV4 [10; 1; 2; 3]) None None DenyAction).
Proof.
  apply (evaluate_first_match sample_ipnet HexRef.hex_decode (fun k _ _ => Some k) sample_sha256 sample_aes
    (mkEngine (mkRules [mkRule (Some (str "10.0.0.0/8")) None None DenyAction]))).
  - intros x. reflexivity.
  - intros k x y [= <-] Hx. len_lia.
Defined.

(** An address is allowed by the first rule, and a later rule has a prefix: a connection
    without a client random is denied. *)
Lemma denied_before_matching :
  let allow := mkRule (Some (str "10.0.0.0/8")) None None AllowAction in
  let later := mkRule None (Some (str "aabb")) None AllowAction in
  let verdict l := evaluate sample_ipnet HexRef.hex_decode (fun k _ _ => Some k) sample_sha256 sample_aes
    (mkEngine (mkRules l)) (IpV4 [10; 1; 2; 3]) None (Some (str "vpn.example")) in
  first_match sample_ipnet HexRef.hex_decode (fun k _ _ => Some k) sample_sha256 sample_aes [allow; later]
    (IpV4 [10; 1; 2; 3]) None (Some (str "vpn.example")) AllowAction /\
  verdict [allow] = Ret Allow /\ verdict [allow; later] = Ret Deny.
Proof.
  intros allow later verdict. split; [|by split]. exists [], allow, [later]. split_and!; [done|done| |done].
  split; [|done]. intros c [= <-]. by eexists.
Qed.

(** A client random is accepted under an authentication key exactly when
    it has 32 bytes, the SNI and the key are not empty, and its second half is the
    encryption of the first 16 bytes of the SNI's hash under the key derived from its
    first half; the byte-wise comparison never reads out of range. *)
Theorem auth_key_correct (hkdf : bytes -> bytes -> bytes -> option bytes)
    (sha256 : bytes -> bytes) (aes_128_ecb : bytes -> bytes -> option bytes) (key cr sni : bytes) :
  (forall x, len (sha256 x) = 32) ->
  (forall k x y, aes_128_ecb k x = Some y -> len x = 16 -> len y = 16) ->
  exists b, validate_client_random_auth_key hkdf sha256 aes_128_ecb key cr sni = Ret b /\
    (b = true <-> auth_spec hkdf sha256 aes_128_ecb key cr sni).
Proof. intros Hsha Haes. by apply validate_spec. Qed.

Lemma auth_key_correct_witness :
  exists b, validate_client_random_auth_key (fun k _ _ => Some k) sample_sha256 sample_aes
      [1; 2] (replicate 16 9 ++ replicate 16 3) (str "abc") = Ret b /\
    (b = true <-> auth_spec (fun k _ _ => Some k) sample_sha256 sample_aes
      [1; 2] (replicate 16 9 ++ replicate 16 3) (str "abc")).
Proof.
  apply (auth_key_correct (fun k _ _ => Some k) sample_sha256 sample_aes).
  - intros x. reflexivity.
  - intros k x y [= <-] Hx. len_lia.
Defined.

(** The rule written from a generated prefix accepts exactly the client
    randoms that agree with the drawn value on every bit of the mask, whatever was
    drawn; it accepts in particular the value padded to a full client random. *)
Theorem generated_prefix_rule (hex_encode : bytes -> bytes) (hex_decode : bytes -> option bytes)
    (Hhex : HexLaws hex_encode hex_decode)
    (ipnet : bytes -> option (IpAddr -> bool)) (hkdf : bytes -> bytes -> bytes -> option bytes)
    (sha256 : bytes -> bytes) (aes_128_ecb : bytes -> bytes -> option bytes)
    (draw : nat -> Z -> Z) (random : nat -> Z) (params : GeneratorParams) (g : GeneratedPrefix)
    (ip : IpAddr) (cr : bytes) (sni : option bytes) (a : RuleAction) :
  (forall i, is_byte (random i)) -> generate draw random params = Ok g -> len cr = 32 ->
  len (gen_mask g) = gp_length params /\
  exists b, matches ipnet hex_decode hkdf sha256 aes_128_ecb
      (prefix_rule (to_masked_hex_string hex_encode g) a) ip (Some cr) sni = Ret b /\
    (b = true <-> forall i c m, cr !! i = Some c -> gen_mask g !! i = Some m ->
      Z.land c m = Z.land (random i) m).
Proof.
  intros Hr Hg Hcr. unfold generate, validate_params in Hg.
  destruct ((1 <=? gp_length params) && (gp_length params <=? 32)) eqn:El; [|done].
  cbn [negb bindR] in Hg. destruct ((1 <=? gp_percent params) && (gp_percent params <=? 100)); [|done].
  cbn [negb bindR] in Hg. injection Hg as <-. cbn [gen_mask gen_value].
  apply andb_true_iff in El as [El1%Z.leb_le El2%Z.leb_le].
  set (mask := generate_mask draw (gp_length params) (gp_percent params)).
  assert (len mask = gp_length params) as Hlen.
  { unfold mask, generate_mask, len. rewrite length_fmap, length_seq. lia. }
  assert (wf_bytes mask) as Hwf.
  { apply Forall_lookup. intros i x Hx. unfold mask, generate_mask in Hx.
    rewrite list_lookup_fmap in Hx. apply fmap_Some in Hx as (j & _ & ->). apply mask_byte_wf. }
  split; [done|]. unfold matches, prefix_rule, check_random.
  cbn [cidr rule_client_random_auth_key rule_client_random_prefix].
  destruct (prefix_match_spec hex_decode (to_masked_hex_string hex_encode (mkGenerated (generate_value random mask) mask))
    cr true) as (b & -> & Hb).
  exists b. split; [done|]. rewrite Hb.
  assert (hex_decode (hex_encode mask) = Some mask) as Em by (by apply hex_decode_encode).
  assert (hex_decode (hex_encode (generate_value random mask)) = Some (generate_value random mask)) as Ev
    by (by apply hex_decode_encode, generate_value_wf).
  pose proof (hex_digit_not_slash hex_encode hex_decode _ _ Ev) as Hns.
  rewrite <- (generated_mask_spec random mask cr); [|done|by intros E; rewrite E in Hlen; change (len []) with 0 in Hlen; lia|lia].
  unfold prefix_spec, to_masked_hex_string. cbn [gen_mask gen_value]. split.
  - intros [_ [[Hn _]|(x & y & p & m & E & Hx & Hp & Hm & H)]]; [set_solver|].
    assert (split_once 0x2F (x ++ 0x2F :: y) = Some (x, y)) as E1 by (by apply split_once_app).
    rewrite <- E, split_once_app in E1 by done. simplify_eq. congruence.
  - intros H. split; [done|]. right. by eexists _, _, _, _.
Qed.

Lemma generated_prefix_rule_witness :
  exists b, matches sample_ipnet HexRef.hex_decode (fun k _ _ => Some k) sample_sha256 sample_aes
      (prefix_rule (to_masked_hex_string HexRef.hex_encode
        (mkGenerated [5; 5] [15; 15])) AllowAction) (IpV4 [1; 2; 3; 4]) (Some (replicate 32 0xf5)) None = Ret b /\
    (b = true <-> forall i c m, replicate 32 0xf5 !! i = Some c -> [15; 15] !! i = Some m ->
      Z.land c m = Z.land 0x35 m).
Proof.
  apply (generated_prefix_rule HexRef.hex_encode HexRef.hex_decode HexRef.laws sample_ipnet
    (fun k _ _ => Some k) sample_sha256 sample_aes (fun _ b => if b <? 4 then 0 else 99)
    (fun _ => 0x35) (mkParams 2 50)
    (mkGenerated [5; 5] [15; 15]) (IpV4 [1; 2; 3; 4]) (replicate 32 0xf5) None AllowAction).
  - intros i. by_compute.
  - reflexivity.
  - reflexivity.
Defined.
