(* ===== verification/Auth.v ===== *)
(** * Authentication and connection limits

    The authenticator of lib/src/authentication/ and the per-client connection
    limiter of lib/src/connection_limiter.rs.  A [HashMap] is a [gmap]; the
    critical sections under the limiter's mutex are the atomic operations below.
    [b64] stands for the standard base64 engine. *)

From S2P Require Import Prelude.
From S2P Require Import Codecs.
From S2P Require Import Varint.

(** The protocols of lib/src/tls_demultiplexer.rs. *)
Inductive TlsProtocol : Type := Http1 | Http2 | Http3.

#[export] Instance TlsProtocol_eq_dec : EqDecision TlsProtocol.
Proof. solve_decision. Defined.

Inductive Source : Type :=
| Sni (s : bytes)
| ProxyBasic (s : bytes).

Inductive Status : Type := Pass | Reject.

#[export] Instance Status_eq_dec : EqDecision Status.
Proof. solve_decision. Defined.

(** The [Authenticator] trait. *)
Record Authenticator : Type := mkAuthenticator {
  authenticate : Source -> Status;
  auth_username : Source -> option bytes;
}.

Definition source_creds (s : Source) : bytes := match s with Sni x | ProxyBasic x => x end.

Record Client : Type := mkClient {
  username : bytes;
  password : bytes;
  max_http2_conns : option Z;
  max_http3_conns : option Z;
}.

#[export] Instance Client_eq_dec : EqDecision Client.
Proof. solve_decision. Defined.

(** The username and the password separated by a colon. *)
Definition userpass (u p : bytes) : bytes := u ++ 0x3A :: p.

(** [iter().map(..).collect()] into a map: a later pair replaces an earlier one. *)
Definition collect {A} (l : list (bytes * A)) : gmap bytes A :=
  fold_left (fun m p => <[p.1 := p.2]> m) l ∅.

Section registry.
Context (b64_encode : bytes -> bytes).

Definition client_key (c : Client) : bytes := b64_encode (userpass (username c) (password c)).

Definition registry_new (clients : list Client) : gmap bytes bytes :=
  collect ((fun c => (client_key c, username c)) <$> clients).

Definition registry_authenticate (self : gmap bytes bytes) (source : Source) : Status :=
  if bool_decide (is_Some (self !! source_creds source)) then Pass else Reject.

Definition registry_username (self : gmap bytes bytes) (source : Source) : option bytes :=
  self !! source_creds source.

(** [RegistryBasedAuthenticator] as an [Authenticator]. *)
Definition RegistryBasedAuthenticator (clients : list Client) : Authenticator :=
  mkAuthenticator (registry_authenticate (registry_new clients))
    (registry_username (registry_new clients)).
End registry.

(** [decode_username] of lib/src/tunnel.rs. *)
Definition decode_username (b64_decode : bytes -> option bytes) (creds : bytes) : option bytes :=
  match b64_decode creds with
  | Some v => if utf8_valid v then
                Some (match find_char 0x3A v with Some i => take i v | None => v end)
              else None
  | None => None
  end.

(** ** The connection limiter *)

Record ClientEntry : Type := mkEntry {
  max_http2 : option Z;
  max_http3 : option Z;
  http2_count : Z;
  http3_count : Z;
}.

Record ConnectionLimiter : Type := mkLimiter {
  lim_clients : gmap bytes ClientEntry;
  default_max_http2 : option Z;
  default_max_http3 : option Z;
}.

(** A guard remembers what to release; dropping it calls [release]. *)
Record ConnectionGuard : Type := mkGuard { guard_creds : bytes; guard_protocol : TlsProtocol }.

Definition limiter_new (b64_encode : bytes -> bytes) (clients : list Client)
    (default2 default3 : option Z) : ConnectionLimiter :=
  mkLimiter
    (collect ((fun c => (client_key b64_encode c,
                         mkEntry (max_http2_conns c) (max_http3_conns c) 0 0)) <$> clients))
    default2 default3.

Definition set_count (protocol : TlsProtocol) (n : Z) (e : ClientEntry) : ClientEntry :=
  match protocol with
  | Http1 | Http2 => mkEntry (max_http2 e) (max_http3 e) n (http3_count e)
  | Http3 => mkEntry (max_http2 e) (max_http3 e) (http2_count e) n
  end.

Definition get_count (protocol : TlsProtocol) (e : ClientEntry) : Z :=
  match protocol with Http1 | Http2 => http2_count e | Http3 => http3_count e end.

(** [max.or(default)]. *)
Definition get_limit (self : ConnectionLimiter) (protocol : TlsProtocol) (e : ClientEntry) : option Z :=
  match protocol with
  | Http1 | Http2 => match max_http2 e with Some n => Some n | None => default_max_http2 self end
  | Http3 => match max_http3 e with Some n => Some n | None => default_max_http3 self end
  end.

Definition with_clients (self : ConnectionLimiter) (m : gmap bytes ClientEntry) : ConnectionLimiter :=
  mkLimiter m (default_max_http2 self) (default_max_http3 self).

Definition try_acquire (self : ConnectionLimiter) (creds : bytes) (protocol : TlsProtocol)
  : option ConnectionGuard * ConnectionLimiter :=
  match lim_clients self !! creds with
  | None => (None, self)
  | Some entry =>
      let current := get_count protocol entry in
      let refused := match get_limit self protocol entry with
                     | Some max => max <=? current
                     | None => false
                     end in
      if refused then (None, self)
      else (Some (mkGuard creds protocol),
            with_clients self (<[creds := set_count protocol (as_u32 (current + 1)) entry]> (lim_clients self)))
  end.

Definition release (self : ConnectionLimiter) (creds : bytes) (protocol : TlsProtocol)
  : ConnectionLimiter :=
  match lim_clients self !! creds with
  | None => self
  | Some entry =>
      with_clients self
        (<[creds := set_count protocol (Z.max 0 (get_count protocol entry - 1)) entry]> (lim_clients self))
  end.

Definition drop_guard (self : ConnectionLimiter) (g : ConnectionGuard) : ConnectionLimiter :=
  release self (guard_creds g) (guard_protocol g).

(** ** Specification of the limiter: the guards that are alive *)

(** HTTP/1 and HTTP/2 connections share a counter. *)
Definition same_class (p q : TlsProtocol) : bool :=
  match p, q with Http3, Http3 => true | Http3, _ | _, Http3 => false | _, _ => true end.

Definition live (gs : list ConnectionGuard) (creds : bytes) (p : TlsProtocol) : Z :=
  len (filter (fun g => guard_creds g = creds /\ same_class p (guard_protocol g) = true) gs).

(** The counters are the numbers of live guards, and within the limits. *)
Definition lim_inv (self : ConnectionLimiter) (gs : list ConnectionGuard) : Prop :=
  len gs < 2 ^ 32 /\
  Forall (fun g => is_Some (lim_clients self !! guard_creds g)) gs /\
  forall creds e p, lim_clients self !! creds = Some e ->
    get_count p e = live gs creds p /\
    forall max, get_limit self p e = Some max -> 0 <= max -> live gs creds p <= max.

Inductive lim_step : ConnectionLimiter * list ConnectionGuard -> ConnectionLimiter * list ConnectionGuard -> Prop :=
| lim_acquire l gs creds p g l' :
    try_acquire l creds p = (Some g, l') -> len gs + 1 < 2 ^ 32 -> lim_step (l, gs) (l', g :: gs)
| lim_refuse l gs creds p l' :
    try_acquire l creds p = (None, l') -> lim_step (l, gs) (l', gs)
| lim_drop l gs1 g gs2 :
    lim_step (l, gs1 ++ g :: gs2) (drop_guard l g, gs1 ++ gs2).

(** ** Lemmas *)

Lemma collect_lookup {A} (l : list (bytes * A)) k v :
  collect l !! k = Some v -> (k, v) ∈ l.
Proof.
  unfold collect. assert (forall m : gmap bytes A, fold_left (fun m p => <[p.1 := p.2]> m) l m !! k = Some v ->
    (k, v) ∈ l \/ m !! k = Some v) as H.
  { induction l as [|[k1 v1] l IH]; intros m Hk; simpl in *; [by right|].
    destruct (IH _ Hk) as [H|H]; [left; set_solver|].
    destruct (decide (k1 = k)) as [->|Hne].
    - rewrite lookup_insert_eq in H. injection H as ->. left. set_solver.
    - rewrite lookup_insert_ne in H by done. by right. }
  intros Hk. destruct (H ∅ Hk) as [?|E]; [done|]. by rewrite lookup_empty in E.
Qed.

Lemma collect_elem {A} (l : list (bytes * A)) k v :
  (k, v) ∈ l -> is_Some (collect l !! k).
Proof.
  unfold collect. assert (forall m : gmap bytes A, is_Some (m !! k) \/ (k, v) ∈ l ->
    is_Some (fold_left (fun m p => <[p.1 := p.2]> m) l m !! k)) as H.
  { induction l as [|[k1 v1] l IH]; intros m Hk; simpl in *; [set_solver|]. apply IH.
    destruct (decide (k1 = k)) as [->|Hne]; [left; rewrite lookup_insert_eq; by eexists|].
    rewrite lookup_insert_ne by done. destruct Hk as [?|Hk]; [by left|right]. set_solver. }
  intros Hk. apply H. by right.
Qed.

Lemma live_cons g gs creds p :
  live (g :: gs) creds p =
    live gs creds p + (if decide (guard_creds g = creds /\ same_class p (guard_protocol g) = true) then 1 else 0).
Proof.
  unfold live. rewrite filter_cons. destruct (decide _); [rewrite len_cons|]; lia.
Qed.

Lemma live_perm gs gs' creds p : gs ≡ₚ gs' -> live gs creds p = live gs' creds p.
Proof. intros H. unfold live, len. by rewrite H. Qed.

Lemma live_bound gs creds p : 0 <= live gs creds p <= len gs.
Proof.
  split; [apply len_nonneg|]. unfold live, len. apply inj_le, length_filter.
Qed.

Lemma get_set_count p q n e :
  get_count p (set_count q n e) = if same_class p q then n else get_count p e.
Proof. by destruct p, q. Qed.

Lemma get_limit_set l p q n e : get_limit l p (set_count q n e) = get_limit l p e.
Proof. by destruct p, q. Qed.

Lemma lim_inv_perm l gs gs' : gs ≡ₚ gs' -> lim_inv l gs -> lim_inv l gs'.
Proof.
  intros Hp (H1 & H2 & H3). split_and!.
  - unfold len in *. by rewrite <- Hp.
  - by rewrite <- Hp.
  - intros creds e p He. rewrite <- (live_perm gs gs') by done. by apply H3.
Qed.

(** The invariant does not depend on the order of the guards. *)
#[export] Instance lim_inv_proper l : Proper ((≡ₚ) ==> iff) (lim_inv l).
Proof. intros gs gs' H. split; apply lim_inv_perm; [done|by symmetry]. Qed.

Lemma lim_inv_acquire l gs creds p g l' :
  lim_inv l gs -> try_acquire l creds p = (Some g, l') -> len gs + 1 < 2 ^ 32 ->
  lim_inv l' (g :: gs) /\ g = mkGuard creds p.
Proof.
  intros (H1 & H2 & H3) Ht Hlen. unfold try_acquire in Ht.
  destruct (lim_clients l !! creds) as [e|] eqn:He; [|done].
  destruct (H3 creds e p He) as [Hc Hl]. pose proof (live_bound gs creds p) as Hb.
  destruct (match get_limit l p e with Some max => max <=? get_count p e | None => false end) eqn:Er; [done|].
  injection Ht as <- <-. split; [|done]. split_and!; [rewrite len_cons; lia| |].
  - constructor; simpl; [rewrite lookup_insert_eq; by eexists|].
    eapply Forall_impl; [exact H2|]. intros g' Hg. simpl. destruct (decide (creds = guard_creds g')) as [E|E].
    + rewrite E, lookup_insert_eq. by eexists.
    + by rewrite lookup_insert_ne.
  - intros creds' e' q He'. simpl in He'. rewrite live_cons. simpl.
    change (get_limit (with_clients l _) q e') with (get_limit l q e').
    destruct (decide (creds = creds')) as [<-|Hne].
    + rewrite lookup_insert_eq in He'. injection He' as <-. rewrite get_set_count, get_limit_set.
      destruct (H3 creds e q He) as [Hcq Hlq].
      assert (same_class q p = true -> get_count q e = get_count p e /\ live gs creds q = live gs creds p /\
        get_limit l q e = get_limit l p e) as Hsame.
      { intros Hs. assert (get_count q e = get_count p e) as E by (by destruct q, p).
        split_and!; [done|congruence|by destruct q, p]. }
      destruct (same_class q p) eqn:Hs.
      * destruct (Hsame eq_refl) as (E1 & E2 & E3). rewrite decide_True by done.
        unfold as_u32. rewrite Z.mod_small by lia. rewrite E2, E3. split; [lia|].
        intros max Hmax Hm. rewrite Hmax in Er. apply Z.leb_gt in Er. lia.
      * rewrite decide_False by (intros [_ ?]; congruence). rewrite Z.add_0_r. done.
    + rewrite lookup_insert_ne in He' by done. rewrite decide_False by naive_solver.
      rewrite Z.add_0_r. by apply H3.
Qed.

Lemma try_acquire_none l creds p l' : try_acquire l creds p = (None, l') -> l' = l.
Proof.
  unfold try_acquire. destruct (lim_clients l !! creds); [|by intros [= ->]].
  destruct (match _ with Some _ => _ | None => _ end); [by intros [= ->]|done].
Qed.

Lemma lim_inv_drop l g gs : lim_inv l (g :: gs) -> lim_inv (drop_guard l g) gs.
Proof.
  intros (H1 & H2 & H3). apply Forall_cons in H2 as [[e He] H2]. rewrite len_cons in H1.
  unfold drop_guard, release. rewrite He. split_and!; [lia| |].
  - eapply Forall_impl; [exact H2|]. intros g' Hg. simpl.
    destruct (decide (guard_creds g = guard_creds g')) as [E|E].
    + rewrite E, lookup_insert_eq. by eexists.
    + by rewrite lookup_insert_ne.
  - intros creds e' q He'. simpl in He'.
    change (get_limit (with_clients l _) q e') with (get_limit l q e').
    destruct (decide (guard_creds g = creds)) as [E|Hne].
    + subst creds. rewrite lookup_insert_eq in He'. injection He' as <-. rewrite get_set_count, get_limit_set.
      destruct (H3 _ e q He) as [Hq Hlq]. rewrite live_cons in Hq, Hlq.
      pose proof (live_bound gs (guard_creds g) q) as Hb.
      destruct (same_class q (guard_protocol g)) eqn:Hs.
      * rewrite decide_True in Hq, Hlq by done.
        assert (get_count (guard_protocol g) e = get_count q e) as -> by (by destruct q, (guard_protocol g)).
        split; [lia|]. intros max Hmax Hm. specialize (Hlq max Hmax Hm). lia.
      * rewrite decide_False in Hq, Hlq by (intros [_ ?]; congruence). rewrite Z.add_0_r in *.
        split; [lia|]. intros max Hmax Hm. specialize (Hlq max Hmax Hm). lia.
    + rewrite lookup_insert_ne in He' by done. destruct (H3 creds e' q He') as [Hq Hlq].
      rewrite live_cons, decide_False in Hq, Hlq by naive_solver. rewrite Z.add_0_r in *. done.
Qed.

Lemma lim_inv_new b64_encode clients d2 d3 : lim_inv (limiter_new b64_encode clients d2 d3) [].
Proof.
  split_and!; [done|done|]. intros creds e p He. simpl in He. apply collect_lookup in He.
  apply list_elem_of_fmap in He as (c & [= -> ->] & _). by destruct p.
Qed.

Lemma lim_step_inv s s' : lim_step s s' -> lim_inv s.1 s.2 -> lim_inv s'.1 s'.2.
Proof.
  intros [l gs creds p g l' Ht Hlen|l gs creds p l' Ht|l gs1 g gs2] Hi; simpl in *.
  - by eapply lim_inv_acquire.
  - by rewrite (try_acquire_none _ _ _ _ Ht).
  - apply lim_inv_drop. by rewrite Permutation_middle.
Qed.

Lemma lim_reachable_inv b64_encode clients d2 d3 l gs :
  rtc lim_step (limiter_new b64_encode clients d2 d3, []) (l, gs) -> lim_inv l gs.
Proof.
  intros H. change (lim_inv (l, gs).1 (l, gs).2). remember (limiter_new _ _ _ _, []) as s eqn:Es.
  assert (lim_inv s.1 s.2) as Hs by (subst; apply lim_inv_new). clear Es.
  induction H as [s|s s1 s' Hstep _ IH]; [done|]. apply IH. by eapply lim_step_inv.
Qed.

Lemma try_acquire_refuses l gs creds p :
  lim_inv l gs ->
  ((try_acquire l creds p).1 = None <->
   lim_clients l !! creds = None \/
   exists e max, lim_clients l !! creds = Some e /\ get_limit l p e = Some max /\ max <= live gs creds p).
Proof.
  intros (_ & _ & H3). unfold try_acquire. destruct (lim_clients l !! creds) as [e|] eqn:He; [|naive_solver].
  destruct (H3 creds e p He) as [Hc _]. rewrite Hc. destruct (get_limit l p e) as [max|] eqn:El.
  - destruct (Z.leb_spec max (live gs creds p)); simpl.
    + split; [intros _; right; eauto|done].
    + split; [done|]. intros [?|(e' & max' & [= <-] & Hm & Hle)]; [done|].
      rewrite El in Hm. injection Hm as <-. lia.
  - simpl. split; [done|]. intros [?|(e' & max' & [= <-] & Hm & _)]; [done|]. congruence.
Qed.

Section registry_proofs.
Context {enc : bytes -> bytes} {dec : bytes -> option bytes} {Hb64 : Base64Laws enc dec}.

Lemma registry_new_spec clients creds u :
  registry_new enc clients !! creds = Some u -> exists c, c ∈ clients /\ creds = client_key enc c /\ u = username c.
Proof.
  intros H%collect_lookup. apply list_elem_of_fmap in H as (c & [= -> ->] & Hc). eauto.
Qed.

Lemma registry_pass_iff clients s :
  authenticate (RegistryBasedAuthenticator enc clients) s = Pass <->
  exists c, c ∈ clients /\ source_creds s = client_key enc c.
Proof.
  simpl. unfold registry_authenticate. case_bool_decide as H.
  - split; [|done]. intros _. destruct H as [u Hu]. apply registry_new_spec in Hu as (c & ? & ? & _). eauto.
  - split; [done|]. intros (c & Hc & E). exfalso. apply H. rewrite E.
    apply (collect_elem _ _ (username c)). apply list_elem_of_fmap. by exists c.
Qed.

Lemma userpass_inj u p u' p' :
  0x3A ∉ u -> 0x3A ∉ u' -> userpass u p = userpass u' p' -> u = u' /\ p = p'.
Proof.
  intros Hu Hu' E. unfold userpass in E.
  assert (split_once 0x3A (u ++ 0x3A :: p) = Some (u, p)) as E1 by (by apply split_once_app).
  rewrite E, split_once_app in E1 by done. by simplify_eq.
Qed.
End registry_proofs.

(** A client whose name can be told from its password. *)
Definition wf_client (c : Client) : Prop :=
  0x3A ∉ username c /\ utf8_valid (username c) = true /\ wf_bytes (password c).

#[export] Instance wf_client_dec c : Decision (wf_client c).
Proof. unfold wf_client. apply _. Defined.

Lemma userpass_wf u p : utf8_valid u = true -> wf_bytes p -> wf_bytes (userpass u p).
Proof.
  intros Hu%utf8_valid_wf Hp. apply wf_bytes_app. split; [done|]. constructor; [by_compute|done].
Qed.

(** ** Properties *)

(** In every reachable state of the limiter, under any interleaving of
    acquisitions, refusals and drops of guards, the counters of a client are the
    numbers of its live guards (HTTP/1 and HTTP/2 together, HTTP/3 apart), they never
    exceed the configured limit, and a slot is refused exactly when the credentials
    are unknown or the limit is reached. *)
Theorem limiter_correct (b64_encode : bytes -> bytes) (clients : list Client) (d2 d3 : option Z)
    (l : ConnectionLimiter) (gs : list ConnectionGuard) :
  rtc lim_step (limiter_new b64_encode clients d2 d3, []) (l, gs) ->
  (forall creds e p, lim_clients l !! creds = Some e ->
    get_count p e = live gs creds p /\
    forall max, get_limit l p e = Some max -> 0 <= max -> live gs creds p <= max) /\
  (forall creds p, (try_acquire l creds p).1 = None <->
    lim_clients l !! creds = None \/
    exists e max, lim_clients l !! creds = Some e /\ get_limit l p e = Some max /\ max <= live gs creds p).
Proof.
  intros H%lim_reachable_inv. split; [apply H|]. intros creds p. by apply try_acquire_refuses.
Qed.

Definition sample_client : Client := mkClient (str "alice") (str "secret") (Some 1) None.
Definition sample_limiter : ConnectionLimiter :=
  limiter_new Base64Ref.b64_encode [sample_client] None None.
Definition sample_creds : bytes := Base64Ref.b64_encode (str "alice:secret").

(** One connection is accepted and the second refused. *)
Lemma limiter_correct_witness :
  (try_acquire (try_acquire sample_limiter sample_creds Http2).2 sample_creds Http1).1 = None.
Proof.
  assert (rtc lim_step (sample_limiter, [])
    ((try_acquire sample_limiter sample_creds Http2).2, [mkGuard sample_creds Http2])) as H.
  { eapply rtc_l; [|apply rtc_refl].
    apply (lim_acquire sample_limiter [] sample_creds Http2); [vm_compute; reflexivity|vm_compute; reflexivity]. }
  apply (proj2 (limiter_correct _ _ _ _ _ _ H) sample_creds Http1). right.
  exists (mkEntry (Some 1) None 1 0), 1. split; [vm_compute; reflexivity|].
  split; [reflexivity|]. vm_compute. congruence.
Defined.

(** The registry authenticates a source exactly when its credentials are
    the base64 encoding of the name and the password of a registered client.  (It does
    so for SNI sources as well as for proxy-basic ones.) *)
Theorem registry_authenticates (enc : bytes -> bytes) (dec : bytes -> option bytes)
    (Hb64 : Base64Laws enc dec) (clients : list Client) (u p : bytes) (s : Source) :
  Forall wf_client clients -> 0x3A ∉ u -> utf8_valid u = true -> wf_bytes p ->
  source_creds s = enc (userpass u p) ->
  (authenticate (RegistryBasedAuthenticator enc clients) s = Pass <->
   exists c, c ∈ clients /\ username c = u /\ password c = p).
Proof.
  intros Hcl Hu Hutf Hp Hs. rewrite registry_pass_iff, Hs. split.
  - intros (c & Hc & E). rewrite Forall_forall in Hcl. destruct (Hcl c Hc) as (H1 & H2 & H3).
    apply (b64_encode_inj enc dec) in E; [|by apply userpass_wf..].
    apply userpass_inj in E as [-> ->]; [|done..]. eauto.
  - intros (c & Hc & <- & <-). eauto.
Qed.

Lemma registry_authenticates_witness :
  authenticate (RegistryBasedAuthenticator Base64Ref.b64_encode [sample_client]) (Sni sample_creds) = Pass.
Proof.
  apply (registry_authenticates Base64Ref.b64_encode Base64Ref.b64_decode Base64Ref.laws [sample_client]
    (str "alice") (str "secret") (Sni sample_creds)); [by_compute|by_compute|reflexivity|by_compute|reflexivity|].
  exists sample_client. split; [by_compute|]. split; reflexivity.
Defined.

(** For credentials of a registered client, the name the metrics decode
    from the credentials is the name the registry returns. *)
Theorem decode_username_agrees (enc : bytes -> bytes) (dec : bytes -> option bytes)
    (Hb64 : Base64Laws enc dec) (clients : list Client) (c : Client) (s : Source) :
  Forall wf_client clients -> c ∈ clients -> utf8_valid (userpass (username c) (password c)) = true ->
  source_creds s = client_key enc c ->
  auth_username (RegistryBasedAuthenticator enc clients) s = Some (username c) /\
  decode_username dec (source_creds s) = Some (username c).
Proof.
  intros Hcl Hc Hutf Hs. rewrite Forall_forall in Hcl. destruct (Hcl c Hc) as (H1 & H2 & H3).
  rewrite Hs. split.
  - simpl. unfold registry_username. rewrite Hs.
    destruct (collect_elem ((fun c => (client_key enc c, username c)) <$> clients) (client_key enc c) (username c))
      as [u Hu]; [apply list_elem_of_fmap; by exists c|].
    fold (registry_new enc clients) in Hu. rewrite Hu.
    apply (registry_new_spec (enc := enc)) in Hu as (c' & Hc' & E & ->). destruct (Hcl c' Hc') as (H1' & H2' & H3').
    apply (b64_encode_inj enc dec) in E; [|by apply userpass_wf..].
    apply userpass_inj in E as [-> _]; done.
  - unfold decode_username, client_key. rewrite b64_decode_encode by (by apply userpass_wf).
    rewrite Hutf. unfold userpass. rewrite find_char_app by done. by rewrite take_app_length.
Qed.

Lemma decode_username_agrees_witness :
  decode_username Base64Ref.b64_decode sample_creds = Some (str "alice").
Proof.
  apply (decode_username_agrees Base64Ref.b64_encode Base64Ref.b64_decode Base64Ref.laws
    [sample_client] sample_client (ProxyBasic sample_creds)); [by_compute|by_compute|reflexivity|reflexivity].
Defined.
