(* ===== verification/Tunnel.v ===== *)
(** * Tunnels: admission, authentication and dispatch of client requests

    lib/src/tunnel.rs, the request side of lib/src/http_downstream.rs and
    lib/src/http_demultiplexer.rs, and the admission of tunnels in lib/src/core.rs.
    The asynchronous peers of a request (the connector, the pipe, the response) are
    represented by the results their calls give; the order in which a handler calls
    them is recorded as a trace of events. *)

From S2P Require Import Prelude.
From S2P Require Import Codecs.
From S2P Require Import Varint.
From S2P Require Import NetUtils.
From S2P Require Import Rules.
From S2P Require Import Auth.

(** ** Errors and their presentation to the client *)

Inductive ConnectionError : Type :=
| Io (e : ErrorKind)
| Authentication
| Timeout
| HostUnreachable
| DnsNonroutable
| DnsLoopback
| OtherError.

Definition PROXY_AUTHENTICATION_REQUIRED : Z := 407.
Definition BAD_STATUS_CODE : Z := 502.
Definition WARNING_HEADER_NAME : bytes := str "X-Warning".
Definition DNS_WARNING_HEADER_NAME : bytes := str "X-Adguard-Vpn-Error".
Definition AUTHORIZATION_FAILURE_EXTRA_HEADER : bytes * bytes :=
  (str "proxy-authenticate", str "Basic realm=Authorization Required").

Definition tunnel_error_to_status_code (error : ConnectionError) (auth_failure_status_code : Z) : Z :=
  match error with
  | Authentication => auth_failure_status_code
  | _ => BAD_STATUS_CODE
  end.

Definition tunnel_error_to_warn_header (error : ConnectionError) (hostname : bytes)
    (auth_failure_status_code : Z) : headers :=
  match error with
  | Io _ => [(WARNING_HEADER_NAME, str "300 - Connection failed for some reason")]
  | Authentication =>
      if auth_failure_status_code =? PROXY_AUTHENTICATION_REQUIRED
      then [AUTHORIZATION_FAILURE_EXTRA_HEADER] else []
  | Timeout => [(WARNING_HEADER_NAME, str "302 - Connection timed out")]
  | HostUnreachable => [(WARNING_HEADER_NAME, str "301 - Remote host is unreachable")]
  | DnsNonroutable =>
      [(DNS_WARNING_HEADER_NAME, hostname);
       (WARNING_HEADER_NAME, str "310 - DNS: resolved address in non-routable network")]
  | DnsLoopback =>
      [(DNS_WARNING_HEADER_NAME, hostname);
       (WARNING_HEADER_NAME, str "311 - DNS: resolved address in loopback")]
  | OtherError => [(WARNING_HEADER_NAME, str "300 - Connection failed for some reason")]
  end.

(** ** Requests *)

Record HttpRequest : Type := mkHttpRequest {
  req_method : bytes;
  req_authority : option bytes;
  req_path : bytes;
  req_headers : headers;
}.

Definition is_connect (r : HttpRequest) : bool := bool_decide (req_method r = str "CONNECT").

(** [PendingRequest::auth_info] of lib/src/http_codec.rs; [to_str] is
    [http::HeaderValue::to_str]. *)
Definition auth_info (to_str : bytes -> option bytes) (r : HttpRequest) : result ErrorKind (option Source) :=
  match header_get (req_headers r) (str "proxy-authorization") with
  | None => Ok None
  | Some header =>
      match to_str header with
      | None => Err Other
      | Some s =>
          match strip_prefix (str "Basic ") s with
          | Some s => Ok (Some (ProxyBasic s))
          | None => Err Other
          end
      end
  end.

(** The settings [HttpDemux] looks at. *)
Record DemuxSettings : Type := mkDemux {
  subscription_path : option bytes;
  ping_enable : bool;
  ping_path : option bytes;
  speedtest_enable : bool;
  speedtest_path : option bytes;
  reverse_proxy_path_mask : option bytes;
}.

Definition check_subscription (s : DemuxSettings) (r : HttpRequest) : bool :=
  match subscription_path s with Some p => bool_decide (req_path r = p) | None => false end.

Definition check_ping (s : DemuxSettings) (r : HttpRequest) : bool :=
  if negb (ping_enable s) then false
  else match ping_path s with Some p => starts_with p (req_path r) | None => false end.

Definition check_speedtest (s : DemuxSettings) (r : HttpRequest) : bool :=
  if negb (speedtest_enable s) then false
  else match speedtest_path s with Some p => starts_with p (req_path r) | None => false end.

Definition check_reverse_proxy_path (s : DemuxSettings) (r : HttpRequest) : bool :=
  match reverse_proxy_path_mask s with Some p => starts_with p (req_path r) | None => false end.

Definition http_demux_select (s : DemuxSettings) (r : HttpRequest) : Channel :=
  if check_subscription s r then ChSubscription
  else if check_ping s r then ChPing
  else if check_speedtest s r then ChSpeedtest
  else if check_reverse_proxy_path s r then ChReverseProxy
  else ChTunnel.

(** The status with which an authentication failure of the request is answered;
    [from_u16] is [http::StatusCode::from_u16]. *)
Definition auth_failure_code (from_u16 : Z -> option Z) (connect_code : Z) (non_connect : option Z)
    (r : HttpRequest) : Z :=
  let effective_code :=
    if is_connect r then connect_code
    else match non_connect with Some c => c | None => connect_code end in
  match from_u16 effective_code with Some c => c | None => PROXY_AUTHENTICATION_REQUIRED end.

(** What an authenticated request is promoted to. *)
Inductive Promoted : Type :=
| HealthCheckDone
| UnexpectedMethod
| TcpConnect
| DatagramMultiplexer.

Definition HEALTH_CHECK_AUTHORITY : bytes := str "_check".
Definition UDP_AUTHORITY : bytes := str "_udp2".
Definition ICMP_AUTHORITY : bytes := str "_icmp".

Definition promote_to_next_state (r : HttpRequest) : Promoted :=
  match req_authority r with
  | Some a =>
      if bool_decide (a = HEALTH_CHECK_AUTHORITY) && is_connect r then HealthCheckDone
      else if (bool_decide (a = UDP_AUTHORITY) || bool_decide (a = ICMP_AUTHORITY)) && is_connect r
        then DatagramMultiplexer
      else if bool_decide (a = HEALTH_CHECK_AUTHORITY) || bool_decide (a = UDP_AUTHORITY)
              || bool_decide (a = ICMP_AUTHORITY) then UnexpectedMethod
      else TcpConnect
  | None => TcpConnect
  end.

(** ** Authentication of requests *)

Inductive AuthenticationPolicy : Type :=
| DefaultPolicy
| Authenticated (s : Source).

(** A tunnel: its policy, the slot it holds and the protocol of its downstream. *)
Record TunnelState : Type := mkTunnel {
  tn_policy : AuthenticationPolicy;
  tn_guard : option ConnectionGuard;
  tn_protocol : TlsProtocol;
}.

(** The decision of the request task in [listen_inner]. *)
Definition authorize (info : result ErrorKind (option Source)) (policy : AuthenticationPolicy)
    (authenticator : option Authenticator) : result ConnectionError (option Source) :=
  match info, policy, authenticator with
  | Ok (Some source), _, Some a =>
      match authenticate a source with
      | Pass => Ok (Some source)
      | Reject => Err Authentication
      end
  | Ok None, Authenticated x, Some _ => Ok (Some x)
  | Ok x, policy, None =>
      Ok (match x with
          | Some s => Some s
          | None => match policy with DefaultPolicy => None | Authenticated y => Some y end
          end)
  | Ok None, DefaultPolicy, Some _ => Err Authentication
  | Err e, _, _ => Err (Io e)
  end.

(** The lazy acquisition of the connection slot; [None] is "limit exceeded". *)
Definition acquire_slot (authenticator : option Authenticator) (limiter : option ConnectionLimiter)
    (t : TunnelState) (info : result ErrorKind (option Source))
  : option TunnelState * option ConnectionLimiter :=
  match tn_guard t, limiter, info with
  | None, Some lim, Ok (Some source) =>
      let authenticated := match authenticator with
                           | Some a => bool_decide (authenticate a source = Pass)
                           | None => false
                           end in
      if authenticated then
        match try_acquire lim (source_creds source) (tn_protocol t) with
        | (Some g, lim) => (Some (mkTunnel (tn_policy t) (Some g) (tn_protocol t)), Some lim)
        | (None, lim) => (None, Some lim)
        end
      else (Some t, limiter)
  | _, _, _ => (Some t, limiter)
  end.

(** What happens to a request: the tunnel is closed, the request fails, or it is
    promoted with the credentials given to the forwarder. *)
Inductive Outcome : Type :=
| TunnelClosed
| RequestFailed (e : ConnectionError)
| RequestPromoted (forwarder_auth : option Source).

Definition handle_request (authenticator : option Authenticator) (limiter : option ConnectionLimiter)
    (t : TunnelState) (info : result ErrorKind (option Source))
  : Outcome * option TunnelState * option ConnectionLimiter :=
  match acquire_slot authenticator limiter t info with
  | (None, limiter) => (TunnelClosed, None, limiter)
  | (Some t, limiter) =>
      match authorize info (tn_policy t) authenticator with
      | Ok fa => (RequestPromoted fa, Some t, limiter)
      | Err e => (RequestFailed e, Some t, limiter)
      end
  end.

(** ** Admission of a tunnel (Core::on_tunnel_request) *)

Definition open_tunnel (authenticator : option Authenticator) (limiter : option ConnectionLimiter)
    (protocol : TlsProtocol) (sni_auth_creds : option bytes)
  : option TunnelState * option ConnectionLimiter :=
  match authenticator, sni_auth_creds with
  | Some a, Some credentials =>
      let auth := Sni credentials in
      match authenticate a auth with
      | Pass =>
          match limiter with
          | None => (Some (mkTunnel (Authenticated auth) None protocol), None)
          | Some lim =>
              match try_acquire lim credentials protocol with
              | (Some g, lim) => (Some (mkTunnel (Authenticated auth) (Some g) protocol), Some lim)
              | (None, lim) => (None, Some lim)
              end
          end
      | Reject => (None, limiter)
      end
  | _, _ => (Some (mkTunnel DefaultPolicy None protocol), limiter)
  end.

(** Core::evaluate_connection_rules; [evaluate_engine] is the engine of the settings. *)
Definition evaluate_connection_rules
    (rules_engine : option (IpAddr -> option bytes -> option bytes -> M RuleEvaluation))
    (client_ip : option IpAddr) (client_random sni : option bytes) : M (result unit unit) :=
  match rules_engine with
  | None => Ret (Ok tt)
  | Some engine =>
      match client_ip with
      | None => Ret (Ok tt)
      | Some ip =>
          let! r := engine ip client_random sni in
          match r with Deny => Ret (Err tt) | Allow => Ret (Ok tt) end
      end
  end.

(** ** The TCP and datagram handlers, as traces of calls *)

Record TcpConnectionMeta : Type := mkTcpMeta {
  tm_client_address : IpAddr;
  tm_destination : TcpDestination;
  tm_auth : option Source;
  tm_tls_domain : bytes;
  tm_user_agent : option bytes;
}.

Record UdpMultiplexerMeta : Type := mkUdpMeta {
  um_client_address : IpAddr;
  um_auth : option Source;
  um_tls_domain : bytes;
  um_user_agent : option bytes;
}.

(** The calls that leave the handlers: to the connector, to the authenticator of the
    forwarder, the success response to a health check, the promotion, which answers the
    client with success, the making of a multiplexer, and the exchange. *)
Inductive Event : Type :=
| EvConnect (m : TcpConnectionMeta)
| EvCheckAuth (client_address : IpAddr) (tls_domain : bytes) (auth : Source) (user_agent : option bytes)
| EvHealthCheck
| EvPromote
| EvMakeUdp (m : UdpMultiplexerMeta)
| EvMakeIcmp
| EvExchange.

(** What a handler did and how it no_calls.  A call may panic, which ends the task of the
    request where it is. *)
Definition Traced (A : Type) : Type := list Event * M A.

Definition no_calls {A} (x : A) : Traced A := ([], Ret x).

Definition call {A B} (ev : Event) (x : M A) (k : A -> Traced B) : Traced B :=
  match x with
  | Panic => ([ev], Panic)
  | Ret a => let (tr, r) := k a in (ev :: tr, r)
  end.

(** The results of the calls a request makes: [te_connect m] is [None] when the
    connection establishment timeout elapses. *)
Record TcpEnv : Type := mkTcpEnv {
  te_destination : result ErrorKind TcpDestination;
  te_client_address : result ErrorKind IpAddr;
  te_user_agent : option bytes;
  te_connect : TcpConnectionMeta -> M (option (result ConnectionError unit));
  te_promote : M (result ErrorKind unit);
  te_exchange : M (result ErrorKind unit);
}.

(** The error carries whether the request is handed back, to be failed. *)
Definition on_tcp_connect_request (env : TcpEnv) (forwarder_auth : option Source) (tls_domain : bytes)
  : Traced (result (bool * ConnectionError) unit) :=
  match te_destination env with
  | Err e => no_calls (Err (true, Io e))
  | Ok destination =>
      match te_client_address env with
      | Err e => no_calls (Err (true, Io e))
      | Ok client_address =>
          let meta := mkTcpMeta client_address destination forwarder_auth tls_domain (te_user_agent env) in
          call (EvConnect meta) (te_connect env meta) (fun r =>
            match match r with Some r => r | None => Err Timeout end with
            | Err e => no_calls (Err (true, e))
            | Ok _ =>
                call EvPromote (te_promote env) (fun r =>
                  match r with
                  | Err e => no_calls (Err (false, Io e))
                  | Ok _ =>
                      call EvExchange (te_exchange env) (fun r =>
                        match r with
                        | Ok _ => no_calls (Ok tt)
                        | Err e => no_calls (Err (false, Io e))
                        end)
                  end)
            end)
      end
  end.

(** Which halves the datagram multiplexer request was promoted to. *)
Inductive PipeHalves : Type := UdpHalves | IcmpHalves.

Record MuxEnv : Type := mkMuxEnv {
  me_client_address : result ErrorKind IpAddr;
  me_user_agent : option bytes;
  me_check_auth : Source -> M (result ConnectionError unit);
  me_promote : M (result ErrorKind PipeHalves);
  me_make_udp : UdpMultiplexerMeta -> M (result ErrorKind unit);
  me_make_icmp : M (result ErrorKind (option unit));
  me_exchange : M (result ErrorKind unit);
}.

(** [pipe.exchange] at the end of the handler. *)
Definition mux_exchange (env : MuxEnv) : Traced (result (bool * ConnectionError) unit) :=
  call EvExchange (me_exchange env) (fun r =>
    match r with
    | Ok _ => no_calls (Ok tt)
    | Err e => no_calls (Err (false, Io e))
    end).

(** From [promote_to_next_state] on. *)
Definition mux_promoted (env : MuxEnv) (client_address : IpAddr) (forwarder_auth : option Source) (tls_domain : bytes)
  : Traced (result (bool * ConnectionError) unit) :=
  call EvPromote (me_promote env) (fun r =>
    match r with
    | Err e => no_calls (Err (false, Io e))
    | Ok UdpHalves =>
        let meta := mkUdpMeta client_address forwarder_auth tls_domain (me_user_agent env) in
        call (EvMakeUdp meta) (me_make_udp env meta) (fun r =>
          match r with
          | Err e => no_calls (Err (false, Io e))
          | Ok _ => mux_exchange env
          end)
    | Ok IcmpHalves =>
        call EvMakeIcmp (me_make_icmp env) (fun r =>
          match r with
          | Err e => no_calls (Err (false, Io e))
          | Ok None => no_calls (Err (false, OtherError))
          | Ok (Some _) => mux_exchange env
          end)
    end).

Definition on_datagram_mux_request (env : MuxEnv) (forwarder_auth : option Source) (tls_domain : bytes)
  : Traced (result (bool * ConnectionError) unit) :=
  match me_client_address env with
  | Err e => no_calls (Err (true, Io e))
  | Ok client_address =>
      match forwarder_auth with
      | Some auth =>
          call (EvCheckAuth client_address tls_domain auth (me_user_agent env)) (me_check_auth env auth) (fun r =>
            match r with
            | Err e => no_calls (Err (true, e))
            | Ok _ => mux_promoted env client_address forwarder_auth tls_domain
            end)
      | None => mux_promoted env client_address forwarder_auth tls_domain
      end
  end.

(** What the calls of a request would answer, whichever handler it gets to. *)
Record RequestEnv : Type := mkRequestEnv {
  rq_tcp : TcpEnv;
  rq_mux : MuxEnv;
  rq_health_check : M (result ErrorKind unit);
  rq_tls_domain : bytes;
}.

(** The error a handler hands the request back with, to be answered. *)
Definition answered (r : result (bool * ConnectionError) unit) : option ConnectionError :=
  match r with Err (true, e) => Some e | _ => None end.

Definition answer (x : Traced (result (bool * ConnectionError) unit)) : Traced (option ConnectionError) :=
  (x.1, let! r := x.2 in Ret (answered r)).

(** A request from its arrival to the end of its handler: the calls made for it and the
    error it is answered with, and the tunnel and the limiter afterwards.  The success of a
    health check is its response; a failure to send it is only logged. *)
Definition serve_request (to_str : bytes -> option bytes) (authenticator : option Authenticator)
    (limiter : option ConnectionLimiter) (t : TunnelState) (r : HttpRequest) (env : RequestEnv)
  : Traced (option ConnectionError) * option TunnelState * option ConnectionLimiter :=
  match handle_request authenticator limiter t (auth_info to_str r) with
  | (TunnelClosed, t, limiter) => (no_calls (Some Authentication), t, limiter)
  | (RequestFailed e, t, limiter) => (no_calls (Some e), t, limiter)
  | (RequestPromoted forwarder_auth, t, limiter) =>
      (match promote_to_next_state r with
       | HealthCheckDone => call EvHealthCheck (rq_health_check env) (fun _ => no_calls None)
       | UnexpectedMethod => no_calls None
       | TcpConnect => answer (on_tcp_connect_request (rq_tcp env) forwarder_auth (rq_tls_domain env))
       | DatagramMultiplexer => answer (on_datagram_mux_request (rq_mux env) forwarder_auth (rq_tls_domain env))
       end, t, limiter)
  end.

(** ** The tunnels of an endpoint *)

(** The steps of the endpoint: a tunnel is opened, a request arrives on one, one is
    closed and drops its guard. *)
Definition close_tunnel (limiter : option ConnectionLimiter) (t : TunnelState) : option ConnectionLimiter :=
  match limiter, tn_guard t with
  | Some lim, Some g => Some (drop_guard lim g)
  | _, _ => limiter
  end.

Definition opt_list {A} (o : option A) : list A := match o with Some x => [x] | None => [] end.

Inductive tun_step (a : option Authenticator)
  : option ConnectionLimiter * list TunnelState -> option ConnectionLimiter * list TunnelState -> Prop :=
| tun_open lim ts protocol creds t lim' :
    open_tunnel a lim protocol creds = (t, lim') -> len ts + 1 < 2 ^ 32 ->
    tun_step a (lim, ts) (lim', opt_list t ++ ts)
| tun_request lim ts1 t ts2 info o t' lim' :
    handle_request a lim t info = (o, t', lim') ->
    tun_step a (lim, ts1 ++ t :: ts2) (lim', ts1 ++ opt_list t' ++ ts2)
| tun_close lim ts1 t ts2 :
    tun_step a (lim, ts1 ++ t :: ts2) (close_tunnel lim t, ts1 ++ ts2).

(** What holds of every reachable endpoint: the guards of the tunnels are the live
    guards of the limiter, and every tunnel that counts as authenticated passed the
    authenticator. *)
Definition guards (ts : list TunnelState) : list ConnectionGuard := omap tn_guard ts.

Definition tun_inv (a : option Authenticator) (s : option ConnectionLimiter * list TunnelState) : Prop :=
  len s.2 < 2 ^ 32 /\
  (forall lim, s.1 = Some lim -> lim_inv lim (guards s.2)) /\
  (forall t x, t ∈ s.2 -> tn_policy t = Authenticated x ->
    exists au, a = Some au /\ authenticate au x = Pass).

(** ** Lemmas *)

Lemma guards_app ts1 ts2 : guards (ts1 ++ ts2) = guards ts1 ++ guards ts2.
Proof. apply omap_app. Qed.

Lemma guards_cons t ts : guards (t :: ts) = opt_list (tn_guard t) ++ guards ts.
Proof. unfold guards. simpl. by destruct (tn_guard t). Qed.

Lemma guards_len ts : len (guards ts) <= len ts.
Proof.
  induction ts as [|t ts IH]; [done|]. rewrite guards_cons, len_cons, len_app.
  destruct (tn_guard t); simpl opt_list; [change (len [c]) with 1|change (len []) with 0]; lia.
Qed.

Lemma guards_middle ts1 t ts2 : guards (ts1 ++ t :: ts2) ≡ₚ opt_list (tn_guard t) ++ guards (ts1 ++ ts2).
Proof. rewrite !guards_app, guards_cons, !app_assoc. f_equiv. apply Permutation_app_comm. Qed.

(** The ways a tunnel is opened, and what a request does to its tunnel. *)
Lemma open_tunnel_cases a lim protocol creds t lim' :
  open_tunnel a lim protocol creds = (t, lim') ->
  (lim' = lim /\ (t = None \/ exists p, t = Some (mkTunnel p None protocol) /\
     forall x, p = Authenticated x -> lim = None /\ exists au, a = Some au /\ authenticate au x = Pass)) \/
  (exists l l' c g au, lim = Some l /\ lim' = Some l' /\ try_acquire l c protocol = (Some g, l') /\
     t = Some (mkTunnel (Authenticated (Sni c)) (Some g) protocol) /\ a = Some au /\ authenticate au (Sni c) = Pass).
Proof.
  unfold open_tunnel. destruct a as [au|]; [|intros [= <- <-]; left; naive_solver].
  destruct creds as [c|]; [|intros [= <- <-]; left; naive_solver].
  destruct (authenticate au (Sni c)) eqn:Ea; [|intros [= <- <-]; left; naive_solver].
  destruct lim as [l|]; [|intros [= <- <-]; left; split; [done|right; eexists; split; [done|]]; naive_solver].
  destruct (try_acquire l c protocol) as [[g|] l'] eqn:Et; intros [= <- <-].
  - right. by exists l, l', c, g, au.
  - left. rewrite (try_acquire_none _ _ _ _ Et). naive_solver.
Qed.

Lemma acquire_slot_cases a lim t info t' lim' :
  acquire_slot a lim t info = (t', lim') ->
  (lim' = lim /\ (t' = None /\ tn_guard t = None \/ t' = Some t)) \/
  (exists l l' s g au, lim = Some l /\ lim' = Some l' /\ info = Ok (Some s) /\ tn_guard t = None /\
     try_acquire l (source_creds s) (tn_protocol t) = (Some g, l') /\
     t' = Some (mkTunnel (tn_policy t) (Some g) (tn_protocol t)) /\ a = Some au /\ authenticate au s = Pass).
Proof.
  unfold acquire_slot. destruct (tn_guard t) eqn:Hg; [intros [= <- <-]; by left; split; [|right]|].
  destruct lim as [l|]; [|intros [= <- <-]; by left; split; [|right]].
  destruct info as [[s|]|]; [|intros [= <- <-]; by left; split; [|right]..].
  destruct a as [au|]; [|intros [= <- <-]; by left; split; [|right]].
  case_bool_decide as Ha; [|intros [= <- <-]; by left; split; [|right]].
  destruct (try_acquire l _ _) as [[g|] l'] eqn:Et; intros [= <- <-].
  - right. by exists l, l', s, g, au.
  - left. rewrite (try_acquire_none _ _ _ _ Et). split; [done|]. by left.
Qed.

Lemma handle_request_tunnel a lim t info o t' lim' :
  handle_request a lim t info = (o, t', lim') ->
  exists t1, acquire_slot a lim t info = (t1, lim') /\ t' = t1 /\
    (forall t2, t1 = Some t2 -> tn_policy t2 = tn_policy t).
Proof.
  unfold handle_request. destruct (acquire_slot a lim t info) as [t1 l1] eqn:E. intros H.
  assert (forall t2, t1 = Some t2 -> tn_policy t2 = tn_policy t) as Hp.
  { intros t2 ->. apply acquire_slot_cases in E as [(_ & [[? _]|[= ->]])|
      (l & l' & s & g & au & _ & _ & _ & _ & _ & [= ->] & _)]; done. }
  exists t1. destruct t1 as [t2|]; [|by injection H as <- <- <-].
  destruct (authorize _ _ _); by injection H as <- <- <-.
Qed.

Lemma tun_step_inv a s s' : tun_step a s s' -> tun_inv a s -> tun_inv a s'.
Proof.
  intros Hstep (Hlen & Hlim & Hpol). destruct Hstep as [lim ts protocol creds t lim' Ho Hb
    |lim ts1 t ts2 info o t' lim' Hr|lim ts1 t ts2]; unfold tun_inv; cbn [fst snd] in *.
  - destruct (open_tunnel_cases _ _ _ _ _ _ Ho) as
      [(-> & Ht)|(l & l' & c & g & au & -> & -> & Et & -> & -> & Hau)].
    + assert (guards (opt_list t ++ ts) = guards ts) as Hg by (destruct Ht as [->|(p & -> & _)]; done).
      split_and!; [destruct t; simpl; [rewrite len_cons|]; lia|intros l0 Hl0; rewrite Hg; by apply Hlim|].
      intros t0 x Hin Hx. apply elem_of_app in Hin as [Hin|Hin]; [|by eapply Hpol].
      destruct Ht as [->|(p & -> & Hp)]; [set_solver|]. apply list_elem_of_singleton in Hin as ->.
      simpl in Hx. by apply Hp.
    + cbn [opt_list app]. split_and!; [rewrite len_cons; lia| |].
      * intros lim [= <-]. rewrite guards_cons. simpl. pose proof (guards_len ts).
        by apply (lim_inv_acquire l (guards ts) c protocol g l'); [apply Hlim|done|lia].
      * intros t0 x [->|Hin]%elem_of_cons Hx; [|by eapply Hpol]. simpl in Hx. injection Hx as <-. eauto.
  - destruct (handle_request_tunnel _ _ _ _ _ _ _ Hr) as (t1 & Ha & -> & Hp).
    assert (forall t0 x, t0 ∈ ts1 ++ opt_list t1 ++ ts2 -> tn_policy t0 = Authenticated x ->
      exists au, a = Some au /\ authenticate au x = Pass) as Hpol'.
    { intros t0 x Hin Hx. apply elem_of_app in Hin as [Hin|Hin]; [apply (Hpol t0); set_solver|].
      apply elem_of_app in Hin as [Hin|Hin]; [|apply (Hpol t0); set_solver].
      destruct t1 as [t2|]; [|set_solver]. apply list_elem_of_singleton in Hin as ->.
      apply (Hpol t); [set_solver|]. by rewrite <- (Hp t2). }
    rewrite len_app, len_cons in Hlen.
    split_and!; [rewrite !len_app; destruct t1; simpl; [rewrite len_cons|]; change (len []) with 0; lia| |done].
    intros l0 Hl0. destruct (acquire_slot_cases _ _ _ _ _ _ Ha) as
      [(-> & Ht)|(l & l' & s & g & au & -> & -> & _ & Hg & Et & -> & _ & _)].
    + subst lim. specialize (Hlim l0 eq_refl).
      destruct Ht as [[-> Hg]| -> ]; [|done].
      rewrite guards_middle, Hg in Hlim. exact Hlim.
    + injection Hl0 as <-. specialize (Hlim l eq_refl). rewrite guards_middle, Hg in Hlim. simpl in Hlim.
      pose proof (guards_len (ts1 ++ ts2)) as Hgl. rewrite len_app in Hgl.
      destruct (lim_inv_acquire _ _ _ _ _ _ Hlim Et) as [Hi _]; [lia|].
      cbn [opt_list app]. by rewrite guards_middle.
  - rewrite len_app, len_cons in Hlen. split_and!; [rewrite len_app; lia| |].
    + intros l0 Hl0. unfold close_tunnel in Hl0. destruct lim as [l|]; [|done].
      specialize (Hlim l eq_refl). rewrite guards_middle in Hlim.
      destruct (tn_guard t) as [g|]; injection Hl0 as <-; [by apply lim_inv_drop|done].
    + intros t0 x Hin. apply Hpol. set_solver.
Qed.

Lemma tun_reachable_inv a b64 clients d2 d3 (with_limits : bool) s :
  rtc (tun_step a) (if with_limits then Some (limiter_new b64 clients d2 d3) else None, []) s -> tun_inv a s.
Proof.
  intros H. remember (_, []) as s0 eqn:E0.
  assert (tun_inv a s0) as Hi.
  { subst. split_and!; [done| |simpl; intros t x Hin; set_solver].
    simpl. destruct with_limits; [|done]. intros lim [= <-]. apply lim_inv_new. }
  clear E0. induction H as [s|s s1 s' Hs _ IH]; [done|]. apply IH. by eapply tun_step_inv.
Qed.

(** The credentials with which a request is promoted. *)
Lemma authorize_ok info policy a fa :
  authorize info policy (Some a) = Ok fa ->
  exists s, fa = Some s /\
    ((info = Ok (Some s) /\ authenticate a s = Pass) \/ (info = Ok None /\ policy = Authenticated s)).
Proof.
  unfold authorize. destruct info as [[s|]|e]; [|destruct policy as [|s]|by destruct policy].
  - destruct policy; (destruct (authenticate a s) eqn:E; [|done]); intros [= <-]; eauto.
  - done.
  - intros [= <-]. eauto.
Qed.

Lemma promoted_authenticated a b64 clients d2 d3 (with_limits : bool) lim ts t info fa t' lim' :
  rtc (tun_step (Some a))
    (if with_limits then Some (limiter_new b64 clients d2 d3) else None, []) (lim, ts) ->
  t ∈ ts -> handle_request (Some a) lim t info = (RequestPromoted fa, t', lim') ->
  exists s, fa = Some s /\ authenticate a s = Pass /\
    (info = Ok (Some s) \/ info = Ok None /\ tn_policy t = Authenticated s).
Proof.
  intros Hr Ht Hh. destruct (tun_reachable_inv _ _ _ _ _ _ _ Hr) as (_ & _ & Hpol).
  unfold handle_request in Hh. destruct (acquire_slot _ _ _ _) as [[t1|] l1] eqn:Ea; [|done].
  destruct (authorize _ _ _) as [fa'|] eqn:Eu; [|done]. injection Hh as <- _ _.
  assert (tn_policy t1 = tn_policy t) as Et.
  { apply acquire_slot_cases in Ea as [(_ & [[? _]|[= ->]])|
      (l & l' & s' & g & au & _ & _ & _ & _ & _ & [= ->] & _)]; done. }
  apply authorize_ok in Eu as (s & -> & [[Hi Hp]|[Hi Hp]]); [eauto|].
  exists s. split; [done|]. rewrite Et in Hp. destruct (Hpol t s Ht Hp) as (au & [= <-] & Hau). eauto.
Qed.

(** The handlers use the credentials they are given and no others. *)
Definition event_uses (fa : option Source) (ev : Event) : Prop :=
  match ev with
  | EvConnect m => tm_auth m = fa
  | EvCheckAuth _ _ s _ => fa = Some s
  | EvMakeUdp m => um_auth m = fa
  | _ => True
  end.

Definition uses_only (fa : option Source) (tr : list Event) : Prop := Forall (event_uses fa) tr.

Lemma call_trace {A B} (P : Event -> Prop) ev (x : M A) (k : A -> Traced B) :
  P ev -> (forall a, Forall P (k a).1) -> Forall P (call ev x k).1.
Proof.
  intros Hev Hk. destruct x as [a|]; cbn; [|by repeat constructor].
  specialize (Hk a). destruct (k a). by constructor.
Qed.

(** A statement about all events of a handler follows the calls it can make. *)
Ltac trace_events :=
  repeat match goal with
  | |- Forall _ (call _ _ _).1 => apply call_trace; [try done|intros ?]
  | |- Forall _ (no_calls _).1 => constructor
  | |- Forall _ (match ?x with _ => _ end).1 => destruct x
  end.

Lemma mux_exchange_events (P : Event -> Prop) env : P EvExchange -> Forall P (mux_exchange env).1.
Proof. intros H. unfold mux_exchange. trace_events. Qed.

Lemma tcp_uses_only env fa tls_domain : uses_only fa (on_tcp_connect_request env fa tls_domain).1.
Proof. unfold uses_only, on_tcp_connect_request. trace_events. Qed.

Lemma mux_uses_only env fa tls_domain : uses_only fa (on_datagram_mux_request env fa tls_domain).1.
Proof.
  unfold uses_only, on_datagram_mux_request, mux_promoted. trace_events; by apply mux_exchange_events.
Qed.

(** What a served request does beyond its decision is done by a handler, with the
    credentials it was promoted with. *)
Lemma serve_request_handle to_str a lim t r env x t' lim' :
  serve_request to_str a lim t r env = (x, t', lim') ->
  exists o : Outcome, handle_request a lim t (auth_info to_str r) = (o, t', lim') /\
    (x.1 <> [] -> exists fa, o = RequestPromoted fa /\ uses_only fa x.1).
Proof.
  unfold serve_request. intros Hs. destruct (handle_request _ _ _ _) as [[o t1] l1].
  destruct o as [|e|fa]; injection Hs as <- <- <-; [by eexists..|].
  exists (RequestPromoted fa). split; [done|]. intros _. exists fa. split; [done|].
  destruct (promote_to_next_state r); [by apply call_trace; [|constructor]|constructor|apply tcp_uses_only|apply mux_uses_only].
Qed.

(** ** Properties *)

(** C1: on an endpoint with an authenticator, whatever tunnels were opened and
    whatever requests they carried before, a request has any effect outside the endpoint
    (connecting to a peer, asking the upstream proxy, answering with success, a health
    check included, making a multiplexer, exchanging data) only with credentials that pass
    the authenticator, its own or those the whole connection was authenticated with; and
    these are the ones that the connector, the authenticator of the forwarder and the UDP
    multiplexer are given. *)
Theorem served_requests_authenticated (a : Authenticator) (b64 : bytes -> bytes) (to_str : bytes -> option bytes)
    (clients : list Client) (d2 d3 : option Z) (with_limits : bool)
    (lim : option ConnectionLimiter) (ts : list TunnelState) (t : TunnelState)
    (r : HttpRequest) (env : RequestEnv) (tr : list Event) (failed : M (option ConnectionError)) t' lim' :
  rtc (tun_step (Some a))
    (if with_limits then Some (limiter_new b64 clients d2 d3) else None, []) (lim, ts) ->
  t ∈ ts -> serve_request to_str (Some a) lim t r env = ((tr, failed), t', lim') -> tr <> [] ->
  exists s, authenticate a s = Pass /\
    (auth_info to_str r = Ok (Some s) \/ auth_info to_str r = Ok None /\ tn_policy t = Authenticated s) /\
    uses_only (Some s) tr.
Proof.
  intros Hr Ht (o & Eh & Ho)%serve_request_handle Hne. destruct (Ho Hne) as (fa & -> & Hu).
  apply (promoted_authenticated _ _ _ _ _ _ _ _ _ _ _ _ _ Hr Ht) in Eh as (s & -> & Hp & Hs). eauto.
Qed.

Definition sample_auth : Authenticator := RegistryBasedAuthenticator Base64Ref.b64_encode [sample_client].

Definition sample_tunnel : TunnelState := mkTunnel (Authenticated (Sni sample_creds)) None Http2.

Definition sample_request_env : RequestEnv :=
  mkRequestEnv
    (mkTcpEnv (Ok (DestHostName (str "example.org") 443)) (Ok (IpV4 [192; 0; 2; 1])) None (fun _ => Ret (Some (Ok tt)))
       (Ret (Ok tt)) (Ret (Ok tt)))
    (mkMuxEnv (Ok (IpV4 [192; 0; 2; 1])) None (fun _ => Ret (Ok tt)) (Ret (Ok UdpHalves)) (fun _ => Ret (Ok tt))
       (Ret (Ok None)) (Ret (Ok tt)))
    (Ret (Ok tt)) (str "vpn.example").

Definition sample_udp_request : HttpRequest := mkHttpRequest (str "CONNECT") (Some UDP_AUTHORITY) [] [].

Lemma served_requests_authenticated_witness :
  exists s, authenticate sample_auth s = Pass /\
    (auth_info Some sample_udp_request = Ok (Some s) \/
     auth_info Some sample_udp_request = Ok None /\ tn_policy sample_tunnel = Authenticated s) /\
    uses_only (Some s) (serve_request Some (Some sample_auth) None sample_tunnel sample_udp_request sample_request_env).1.1.1.
Proof.
  apply (served_requests_authenticated sample_auth Base64Ref.b64_encode Some [sample_client] None None false
    None [sample_tunnel] sample_tunnel sample_udp_request sample_request_env _ (Ret None) (Some sample_tunnel) None).
  - eapply rtc_l; [|apply rtc_refl].
    apply (tun_open (Some sample_auth) None [] Http2 (Some sample_creds) (Some sample_tunnel) None);
      [vm_compute; reflexivity|vm_compute; reflexivity].
  - left.
  - vm_compute. reflexivity.
  - vm_compute. discriminate.
Defined.

(** On an endpoint with connection limits, under any interleaving of
    opening tunnels, serving requests and closing tunnels, the number of tunnels that
    hold a slot of a client is what the limiter counts and is within the client's
    limit; and a request whose own credentials pass is promoted only on a tunnel that
    holds a slot. *)
Theorem tunnels_within_limits (a : Authenticator) (b64 : bytes -> bytes) (clients : list Client)
    (d2 d3 : option Z) (lim : ConnectionLimiter) (ts : list TunnelState) :
  rtc (tun_step (Some a)) (Some (limiter_new b64 clients d2 d3), []) (Some lim, ts) ->
  (forall creds e p, lim_clients lim !! creds = Some e ->
    get_count p e = live (guards ts) creds p /\
    forall max, get_limit lim p e = Some max -> 0 <= max -> live (guards ts) creds p <= max) /\
  (forall t s fa t' lim', handle_request (Some a) (Some lim) t (Ok (Some s)) = (RequestPromoted fa, Some t', lim') ->
    is_Some (tn_guard t')).
Proof.
  intros Hr. destruct (tun_reachable_inv _ _ _ _ _ true _ Hr) as (_ & Hlim & _). split.
  - by apply Hlim.
  - intros t s fa t' lim' Hh. unfold handle_request, acquire_slot in Hh.
    destruct (tn_guard t) as [g|] eqn:Hg.
    + destruct (authorize _ _ _); [|done]. injection Hh as _ <- _. rewrite Hg. eauto.
    + case_bool_decide as Hp.
      * destruct (try_acquire _ _ _) as [[g|] l']; [|done]. destruct (authorize _ _ _); [|done].
        injection Hh as _ <- _. simpl. eauto.
      * exfalso. destruct (authorize _ _ _) as [fa'|] eqn:Eu; [|done].
        apply authorize_ok in Eu as (s' & _ & [[[= <-] ?]|[? _]]); done.
Qed.

Definition sample_held : TunnelState :=
  mkTunnel (Authenticated (Sni sample_creds)) (Some (mkGuard sample_creds Http2)) Http2.

Lemma tunnels_within_limits_witness :
  get_count Http2 (mkEntry (Some 1) None 1 0) = live (guards [sample_held]) sample_creds Http2 /\
  live (guards [sample_held]) sample_creds Http2 <= 1.
Proof.
  destruct (proj1 (tunnels_within_limits sample_auth Base64Ref.b64_encode [sample_client] None None
    (try_acquire sample_limiter sample_creds Http2).2 [sample_held]
    (rtc_l _ _ _ _ (tun_open (Some sample_auth) (Some sample_limiter) [] Http2 (Some sample_creds)
       (Some sample_held) (Some (try_acquire sample_limiter sample_creds Http2).2)
       ltac:(vm_compute; reflexivity) ltac:(vm_compute; reflexivity)) (rtc_refl _ _)))
    sample_creds (mkEntry (Some 1) None 1 0) Http2 ltac:(vm_compute; reflexivity)) as [Hc Hm].
  split; [exact Hc|]. apply Hm; [reflexivity|lia].
Defined.

(** The TCP handler answers the client only after the peer connection is
    established: the request is promoted only after a successful connect, data is
    exchanged only after the promotion, the connector gets the credentials the request
    was authorised with, and a failure hands the request back for an error response
    exactly when it was not promoted; it panics only in a call that it made. *)
Theorem tcp_connect_order (env : TcpEnv) (fa : option Source) (tls_domain : bytes) :
  let '(tr, r) := on_tcp_connect_request env fa tls_domain in
  (EvPromote ∈ tr -> exists m, te_connect env m = Ret (Some (Ok tt)) /\ tm_auth m = fa /\
                               te_destination env = Ok (tm_destination m)) /\
  (EvExchange ∈ tr -> EvPromote ∈ tr /\ te_promote env = Ret (Ok tt)) /\
  (forall m, EvConnect m ∈ tr -> tm_auth m = fa /\ te_destination env = Ok (tm_destination m)) /\
  (forall b e, r = Ret (Err (b, e)) -> (b = true <-> EvPromote ∉ tr)) /\
  (r = Ret (Ok tt) -> EvExchange ∈ tr) /\
  (r = Panic -> (exists m, EvConnect m ∈ tr /\ te_connect env m = Panic) \/
                EvPromote ∈ tr /\ te_promote env = Panic \/ EvExchange ∈ tr /\ te_exchange env = Panic).
Proof.
  unfold on_tcp_connect_request. destruct (te_destination env) as [dst|e] eqn:Ed.
  2:{ split_and!; try set_solver; done. }
  destruct (te_client_address env) as [ip|e] eqn:Ec.
  2:{ split_and!; try set_solver; done. }
  set (m := mkTcpMeta ip dst fa tls_domain (te_user_agent env)).
  destruct (te_connect env m) as [[[[]|e]|]|] eqn:Ecn; cbn [call no_calls];
    [destruct (te_promote env) as [[[]|e]|] eqn:Ep; cbn [call no_calls];
       [destruct (te_exchange env) as [[[]|e]|] eqn:Ee; cbn [call no_calls]|..]|..].
  all: split_and!; try set_solver; try done.
  all: try (intros _; exists m; done).
  all: try (intros b e' [= <- <-]; split; [done|set_solver]).
  all: try (intros m' Hm; repeat (apply elem_of_cons in Hm as [Hm|Hm]); try done; try set_solver; injection Hm as ->; done).
  all: intros _; left; exists m; split; [left|done].
Qed.

(** How a request reaches a handler: the subscription path wins, then
    ping, speedtest and the reverse proxy when enabled, and a tunnel request gets to
    the multiplexers only as a CONNECT to their reserved authorities, every other use
    of these being refused. *)
Theorem request_routing (s : DemuxSettings) (r : HttpRequest) :
  (http_demux_select s r = ChTunnel <->
    check_subscription s r = false /\ check_ping s r = false /\ check_speedtest s r = false /\
    check_reverse_proxy_path s r = false) /\
  (http_demux_select s r = ChSubscription <-> subscription_path s = Some (req_path r)) /\
  (promote_to_next_state r = DatagramMultiplexer <->
    is_connect r = true /\ (req_authority r = Some UDP_AUTHORITY \/ req_authority r = Some ICMP_AUTHORITY)) /\
  (promote_to_next_state r = TcpConnect <->
    req_authority r ∉ [Some HEALTH_CHECK_AUTHORITY; Some UDP_AUTHORITY; Some ICMP_AUTHORITY]).
Proof.
  split_and!.
  - unfold http_demux_select. destruct (check_subscription s r), (check_ping s r), (check_speedtest s r),
      (check_reverse_proxy_path s r); naive_solver.
  - unfold http_demux_select. destruct (check_subscription s r) eqn:E.
    + split; [|done]. intros _. unfold check_subscription in E. destruct (subscription_path s); [|done].
      apply bool_decide_eq_true in E. by rewrite E.
    + split; [by destruct (check_ping s r), (check_speedtest s r), (check_reverse_proxy_path s r)|].
      intros Hs. unfold check_subscription in E. rewrite Hs in E. by rewrite bool_decide_true in E.
  - unfold promote_to_next_state. destruct (req_authority r) as [au|]; [|naive_solver].
    destruct (is_connect r); repeat case_bool_decide; subst; naive_solver.
  - unfold promote_to_next_state. destruct (req_authority r) as [au|]; [|set_solver].
    destruct (is_connect r); repeat case_bool_decide; subst; set_solver.
Qed.
