(* ===== verification/Socks5.v ===== *)
(** * The SOCKS5 client (lib/src/socks5_client.rs)

    The handshake as a program over the two byte streams of the connection: it
    consumes the bytes the server sends and produces the bytes written to it, and a write
    fails when the connection breaks.  The UDP
    socket of an association is represented by the results of [bind] and [connect] and
    by the packets it receives. *)

From S2P Require Import Prelude.
From S2P Require Import Varint.
From S2P Require Import NetUtils.
From S2P Require Import Icmp.

Definition PROTOCOL_VERSION : Z := 5.
Definition RESERVED : Z := 0.
Definition MAX_AUTH_METHODS_NUM : Z := 255.
Definition MAX_DOMAIN_NAME_LENGTH : Z := 255.
Definition ADDRESS_TYPE_IP_V4 : Z := 1.
Definition ADDRESS_TYPE_DOMAIN_NAME : Z := 3.
Definition ADDRESS_TYPE_IP_V6 : Z := 4.
Definition UDP_HEADER_FRAG : Z := 0.
Definition AUTHENTICATION_STATUS_SUCCESS : Z := 0.
Definition AUTHENTICATION_CODE_NO_AUTH : Z := 0.
Definition AUTHENTICATION_CODE_USERNAME_PASSWORD : Z := 2.
Definition AUTHENTICATION_CODE_EXTENDED_AUTH : Z := 0x80.
Definition AUTHENTICATION_CODE_NO_ACCEPTABLE : Z := 0xff.
Definition USERNAME_PASSWORD_AUTHENTICATION_VER : Z := 1.
Definition EXTENDED_AUTHENTICATION_TERM_TYPE_CODE : Z := 0.
Definition EXTENDED_AUTHENTICATION_TERM_VAL_LENGTH : Z := 0.

Inductive SocksError : Type :=
| SocksIo (e : ErrorKind)
| SocksProtocol
| SocksAuthentication.

Inductive AuthenticationMethod : Type :=
| NoAuth
| UsernamePasswordMethod
| ExtendedAuth
| NoAcceptable.

Definition method_to_u8 (self : AuthenticationMethod) : Z :=
  match self with
  | NoAuth => AUTHENTICATION_CODE_NO_AUTH
  | UsernamePasswordMethod => AUTHENTICATION_CODE_USERNAME_PASSWORD
  | ExtendedAuth => AUTHENTICATION_CODE_EXTENDED_AUTH
  | NoAcceptable => AUTHENTICATION_CODE_NO_ACCEPTABLE
  end.

Definition method_from_u8 (x : Z) : option AuthenticationMethod :=
  if x =? AUTHENTICATION_CODE_NO_AUTH then Some NoAuth
  else if x =? AUTHENTICATION_CODE_USERNAME_PASSWORD then Some UsernamePasswordMethod
  else if x =? AUTHENTICATION_CODE_EXTENDED_AUTH then Some ExtendedAuth
  else if x =? AUTHENTICATION_CODE_NO_ACCEPTABLE then Some NoAcceptable
  else None.

Inductive ExtendedAuthenticationValue : Type :=
| Domain (x : bytes)
| ClientAddress (x : IpAddr)
| UserAgent (x : bytes)
| BasicProxyAuth (x : bytes)
| SniAuth.

Definition type_code (self : ExtendedAuthenticationValue) : Z :=
  match self with
  | Domain _ => 1 | ClientAddress _ => 2 | UserAgent _ => 3 | BasicProxyAuth _ => 4 | SniAuth => 5
  end.

Inductive SocksAuth : Type :=
| UsernamePassword (u p : bytes)
| Extended (values : list ExtendedAuthenticationValue).

Definition to_method (self : SocksAuth) : AuthenticationMethod :=
  match self with UsernamePassword _ _ => UsernamePasswordMethod | Extended _ => ExtendedAuth end.

Inductive Address : Type :=
| IpAddress (ip : IpAddr)
| DomainName (x : bytes).

Definition address_type (self : Address) : Z :=
  match self with
  | IpAddress (IpV4 _) => ADDRESS_TYPE_IP_V4
  | IpAddress (IpV6 _) => ADDRESS_TYPE_IP_V6
  | DomainName _ => ADDRESS_TYPE_DOMAIN_NAME
  end.

Inductive SocksRequest : Type :=
| Connect (a : Address) (port : Z)
| UdpAssociate.

Definition command_code (self : SocksRequest) : Z :=
  match self with Connect _ _ => 1 | UdpAssociate => 3 end.

Inductive ReplyCode : Type :=
| Succeeded | GeneralFailure | NotAllowed | NetworkUnreachable | HostUnreachableReply
| ConnectionRefusedReply | TtlExpired | CommandNotSupported | AddressTypeNotSupported.

Definition reply_from_u8 (x : Z) : option ReplyCode :=
  match x with
  | 0 => Some Succeeded | 1 => Some GeneralFailure | 2 => Some NotAllowed
  | 3 => Some NetworkUnreachable | 4 => Some HostUnreachableReply | 5 => Some ConnectionRefusedReply
  | 6 => Some TtlExpired | 7 => Some CommandNotSupported | 8 => Some AddressTypeNotSupported
  | _ => None
  end.

Record Reply : Type := mkReply { reply_code : ReplyCode; bound_address : Address; bound_port : Z }.

(** ** The connection: a state and error monad over its two streams *)

(** What the server sends, what was written, and how many bytes more can be written before
    a write fails; [None] when no write does. *)
Record Conn : Type := mkStream { conn_in : bytes; conn_out : bytes; conn_breaks : option (nat * ErrorKind) }.

(** A connection that does not break. *)
Abbreviation mkConn i o := (mkStream i o None).

Definition IOm (A : Type) : Type := Conn -> result SocksError A * Conn.

Definition ret {A} (a : A) : IOm A := fun c => (Ok a, c).
Definition fail {A} (e : SocksError) : IOm A := fun c => (Err e, c).
Definition bindIO {A B} (m : IOm A) (f : A -> IOm B) : IOm B :=
  fun c => match m c with (Ok a, c) => f a c | (Err e, c) => (Err e, c) end.

Notation "'let$' x := m 'in' k" := (bindIO m (fun x => k))
  (at level 10, x pattern, k at level 200) : rust_scope.

(** [read_exact] of [n] bytes; the server closing early is [UnexpectedEof]. *)
Definition read_exact (n : Z) : IOm bytes := fun c =>
  if n <=? len (conn_in c)
  then (Ok (take (Z.to_nat n) (conn_in c)), mkStream (drop (Z.to_nat n) (conn_in c)) (conn_out c) (conn_breaks c))
  else (Err (SocksIo UnexpectedEof), mkStream [] (conn_out c) (conn_breaks c)).

Definition read_u8 : IOm Z := let$ b := read_exact 1 in ret (be_val b).
Definition read_u16 : IOm Z := let$ b := read_exact 2 in ret (be_val b).

(** [write_all], which may have written a part when it fails. *)
Definition write_all (b : bytes) : IOm unit := fun c =>
  match conn_breaks c with
  | None => (Ok tt, mkStream (conn_in c) (conn_out c ++ b) None)
  | Some (n, e) =>
      if (length b <=? n)%nat then (Ok tt, mkStream (conn_in c) (conn_out c ++ b) (Some ((n - length b)%nat, e)))
      else (Err (SocksIo e), mkStream (conn_in c) (conn_out c ++ take n b) (Some (O, e)))
  end.

(** ** Writers *)

Definition write_selection_message (methods : list AuthenticationMethod) : IOm unit :=
  if MAX_AUTH_METHODS_NUM <? len methods then fail SocksProtocol
  else write_all ([PROTOCOL_VERSION; as_u8 (len methods)] ++ (method_to_u8 <$> methods)).

Definition write_extended_authentication_value (value : ExtendedAuthenticationValue)
  : result SocksError bytes :=
  let text (x : bytes) :=
    if 65535 <? len x then Err SocksProtocol
    else Ok (type_code value :: be_bytes 2 (as_u16 (len x)) ++ x) in
  match value with
  | Domain x => text x
  | ClientAddress (IpV4 o) => Ok (type_code value :: be_bytes 2 IPV4_WIRE_LENGTH ++ o)
  | ClientAddress (IpV6 o) => Ok (type_code value :: be_bytes 2 IPV6_WIRE_LENGTH ++ o)
  | UserAgent x => text x
  | BasicProxyAuth x => text x
  | SniAuth => Ok (type_code value :: be_bytes 2 0)
  end.

Definition write_extended_authentication_term_value : bytes :=
  EXTENDED_AUTHENTICATION_TERM_TYPE_CODE :: be_bytes 2 EXTENDED_AUTHENTICATION_TERM_VAL_LENGTH.

Fixpoint extended_values (values : list ExtendedAuthenticationValue) : result SocksError bytes :=
  match values with
  | [] => Ok []
  | v :: values =>
      let? b := write_extended_authentication_value v in
      let? rest := extended_values values in
      Ok (b ++ rest)
  end.

Definition authentication_message (auth : SocksAuth) : result SocksError bytes :=
  match auth with
  | UsernamePassword username password =>
      Ok ([USERNAME_PASSWORD_AUTHENTICATION_VER] ++ [as_u8 (len username)] ++ username
          ++ [as_u8 (len password)] ++ password)
  | Extended values =>
      let? b := extended_values values in
      Ok ([USERNAME_PASSWORD_AUTHENTICATION_VER] ++ b ++ write_extended_authentication_term_value)
  end.

Definition write_authentication_message (auth : SocksAuth) : IOm unit :=
  match authentication_message auth with
  | Ok buf => write_all buf
  | Err e => fail e
  end.

Definition request_message (command : Z) (destination : Address) (port : Z) : result SocksError bytes :=
  let head := [PROTOCOL_VERSION; command; RESERVED; address_type destination] in
  match destination with
  | IpAddress (IpV4 o) | IpAddress (IpV6 o) => Ok (head ++ o ++ be_bytes 2 port)
  | DomainName x =>
      if len x <=? MAX_DOMAIN_NAME_LENGTH then Ok (head ++ [as_u8 (len x)] ++ x ++ be_bytes 2 port)
      else Err SocksProtocol
  end.

Definition write_request (command : Z) (destination : Address) (port : Z) : IOm unit :=
  match request_message command destination port with
  | Ok buf => write_all buf
  | Err e => fail e
  end.

(** ** Readers *)

Definition read_version : IOm unit :=
  let$ version := read_u8 in
  if negb (version =? PROTOCOL_VERSION) then fail SocksProtocol else ret tt.

Definition read_selection_response : IOm AuthenticationMethod :=
  let$ _ := read_version in
  let$ method := read_u8 in
  match method_from_u8 method with Some m => ret m | None => fail SocksProtocol end.

Definition read_authentication_response : IOm unit :=
  let$ version := read_u8 in
  if negb (version =? USERNAME_PASSWORD_AUTHENTICATION_VER) then fail SocksProtocol
  else
    let$ status := read_u8 in
    if negb (status =? AUTHENTICATION_STATUS_SUCCESS) then fail SocksAuthentication else ret tt.

Definition read_address : IOm Address :=
  let$ t := read_u8 in
  if t =? ADDRESS_TYPE_IP_V4 then
    let$ b := read_exact IPV4_WIRE_LENGTH in ret (IpAddress (IpV4 b))
  else if t =? ADDRESS_TYPE_IP_V6 then
    let$ b := read_exact IPV6_WIRE_LENGTH in ret (IpAddress (IpV6 b))
  else if t =? ADDRESS_TYPE_DOMAIN_NAME then
    let$ length := read_u8 in
    let$ b := read_exact length in
    if utf8_valid b then ret (DomainName b) else fail SocksProtocol
  else fail SocksProtocol.

Definition read_reply : IOm Reply :=
  let$ _ := read_version in
  let$ c := read_u8 in
  match reply_from_u8 c with
  | None => fail SocksProtocol
  | Some code =>
      let$ reserved := read_u8 in
      if negb (reserved =? RESERVED) then fail SocksProtocol
      else
        let$ address := read_address in
        let$ port := read_u16 in
        ret (mkReply code address port)
  end.

(** ** The handshake *)

Inductive ConnectResult : Type :=
| TcpConnection
| UdpAssociation (bound : SocketAddr)
| Failure (code : ReplyCode).

(** The UDP socket: its local address once bound, and connecting it. *)
Record UdpEnv : Type := mkUdpEnv {
  udp_bind : result ErrorKind SocketAddr;
  udp_connect : SocketAddr -> result ErrorKind unit;
}.

Definition lift {A} (r : result ErrorKind A) : IOm A :=
  match r with Ok a => ret a | Err e => fail (SocksIo e) end.

(** The authentication step of [connect_inner]. *)
Definition negotiate (auth : option SocksAuth) : IOm unit :=
  let$ _ := write_selection_message
              [match auth with Some a => to_method a | None => NoAuth end; NoAuth] in
  let$ m := read_selection_response in
  match m, auth with
  | NoAuth, _ => ret tt
  | UsernamePasswordMethod, Some (UsernamePassword u p) =>
      let$ _ := write_authentication_message (UsernamePassword u p) in read_authentication_response
  | ExtendedAuth, Some (Extended values) =>
      let$ _ := write_authentication_message (Extended values) in read_authentication_response
  | NoAcceptable, _ => fail SocksAuthentication
  | _, _ => fail SocksAuthentication
  end.

(** The destination of the request: for UDP the address of a freshly bound socket. *)
Definition request_destination (env : UdpEnv) (request : SocksRequest) : IOm (Address * Z) :=
  match request with
  | Connect d p => ret (d, p)
  | UdpAssociate => let$ a := lift (udp_bind env) in ret (IpAddress (addr_ip a), addr_port a)
  end.

(** What the reply makes of the connection. *)
Definition conclude (env : UdpEnv) (request : SocksRequest) (reply : Reply) : IOm ConnectResult :=
  match reply_code reply with
  | Succeeded =>
      match request with
      | Connect _ _ => ret TcpConnection
      | UdpAssociate =>
          match bound_address reply with
          | IpAddress x =>
              let bound := mkAddr x (bound_port reply) in
              let$ _ := lift (udp_connect env bound) in ret (UdpAssociation bound)
          | DomainName _ => fail SocksProtocol
          end
      end
  | code => ret (Failure code)
  end.

Definition connect_inner (env : UdpEnv) (auth : option SocksAuth) (request : SocksRequest)
  : IOm ConnectResult :=
  let$ _ := negotiate auth in
  let$ (destination, port) := request_destination env request in
  let$ _ := write_request (command_code request) destination port in
  let$ reply := read_reply in
  conclude env request reply.

(** ** UDP packets of an association *)

Definition udp_buffer_size (address_size data_cap : Z) : Z := 2 + 1 + 1 + address_size + 2 + data_cap.

(** The packet [send_to] sends. *)
Definition send_to_packet (data : bytes) (destination : SocketAddr) : bytes :=
  [RESERVED; RESERVED; UDP_HEADER_FRAG]
  ++ match addr_ip destination with
     | IpV4 o => ADDRESS_TYPE_IP_V4 :: o
     | IpV6 o => ADDRESS_TYPE_IP_V6 :: o
     end
  ++ be_bytes 2 (addr_port destination) ++ data.

(** [recv_from] into a buffer of [cap] bytes, when the socket receives [packet]: the
    returned length, the source and the bytes written to the buffer. *)
Definition recv_from (packet : bytes) (cap : Z) : M (result SocksError (Z * SocketAddr * bytes)) :=
  let buf := take (Z.to_nat (udp_buffer_size IPV6_WIRE_LENGTH cap)) packet in
  if len buf <? udp_buffer_size IPV4_WIRE_LENGTH 0 then Ret (Err SocksProtocol)
  else
    let! (r1, buf) := get_u8 buf in
    if negb (RESERVED =? r1) then Ret (Err SocksProtocol)
    else
    let! (r2, buf) := get_u8 buf in
    if negb (RESERVED =? r2) then Ret (Err SocksProtocol)
    else
    let! (frag, buf) := get_u8 buf in
    if negb (UDP_HEADER_FRAG =? frag) then Ret (Err SocksProtocol)
    else
    let! (t, buf) := get_u8 buf in
    let finish (ip : IpAddr) (buf : bytes) :=
      if len buf <? 2 then Ret (Err SocksProtocol)
      else
        let! (port, buf) := get_u16 buf in
        let n := len buf in
        Ret (Ok (n, mkAddr ip port, take (Z.to_nat (Z.min n cap)) buf)) in
    if t =? ADDRESS_TYPE_IP_V4 then
      let! (o, buf) := split_to IPV4_WIRE_LENGTH buf in finish (IpV4 o) buf
    else if t =? ADDRESS_TYPE_IP_V6 then
      if len buf <? IPV6_WIRE_LENGTH then Ret (Err SocksProtocol)
      else let! (o, buf) := split_to IPV6_WIRE_LENGTH buf in finish (IpV6 o) buf
    else Ret (Err SocksProtocol).

(** ** Lemmas *)

Lemma read_exact_app {br} b rest out :
  read_exact (len b) (mkStream (b ++ rest) out br) = (Ok b, mkStream rest out br).
Proof.
  unfold read_exact. cbn [conn_in conn_out conn_breaks]. rewrite len_app. pose proof (len_nonneg rest).
  rewrite (proj2 (Z.leb_le _ _)) by lia. by rewrite to_nat_len, take_app_length, drop_app_length.
Qed.

Lemma read_exact_app' {br} n b rest out :
  n = len b -> read_exact n (mkStream (b ++ rest) out br) = (Ok b, mkStream rest out br).
Proof. intros ->. apply read_exact_app. Qed.

Lemma read_u8_cons {br} x rest out : read_u8 (mkStream (x :: rest) out br) = (Ok x, mkStream rest out br).
Proof. pose proof (read_exact_app' (br := br) 1 [x] rest out eq_refl) as H. cbn [app] in H. unfold read_u8, bindIO. by rewrite H. Qed.

Lemma read_u16_be v rest out :
  0 <= v < 2 ^ 16 -> read_u16 (mkConn (be_bytes 2 v ++ rest) out) = (Ok v, mkConn rest out).
Proof.
  intros Hv. unfold read_u16, bindIO. rewrite (read_exact_app' 2) by (by rewrite len_be_bytes).
  unfold ret. by rewrite be_val_be_bytes_small.
Qed.

Lemma read_u8_nil {br} out : read_u8 (mkStream [] out br) = (Err (SocksIo UnexpectedEof), mkStream [] out br).
Proof. done. Qed.

Lemma bind_ok {A B} (m : IOm A) (f : A -> IOm B) c a c' :
  m c = (Ok a, c') -> bindIO m f c = f a c'.
Proof. intros H. unfold bindIO. by rewrite H. Qed.

Lemma bind_err {A B} (m : IOm A) (f : A -> IOm B) c e c' :
  m c = (Err e, c') -> bindIO m f c = (Err e, c').
Proof. intros H. unfold bindIO. by rewrite H. Qed.

(** Addresses that can be sent. *)
Definition wf_address (a : Address) : Prop :=
  match a with
  | IpAddress ip => wf_ip ip
  | DomainName x => utf8_valid x = true /\ len x <= 255
  end.

#[export] Instance wf_address_dec a : Decision (wf_address a).
Proof. destruct a; apply _. Defined.

Lemma read_address_ok a port command rest out msg :
  wf_address a -> request_message command a port = Ok msg ->
  exists body, msg = [5; command; 0] ++ body ++ be_bytes 2 port /\
    read_address (mkConn (body ++ rest) out) = (Ok a, mkConn rest out).
Proof.
  intros Hwf Hm. unfold request_message in Hm. destruct a as [[o|o]|x].
  - injection Hm as <-. exists (ADDRESS_TYPE_IP_V4 :: o). split; [done|].
    unfold read_address. simpl app. rewrite (bind_ok _ _ _ _ _ (read_u8_cons _ _ _)).
    destruct Hwf as [_ Hl]. rewrite Z.eqb_refl. rewrite (bind_ok _ _ _ o (mkConn rest out)); [done|].
    apply read_exact_app'. unfold len. by rewrite Hl.
  - injection Hm as <-. exists (ADDRESS_TYPE_IP_V6 :: o). split; [done|].
    unfold read_address. simpl app. rewrite (bind_ok _ _ _ _ _ (read_u8_cons _ _ _)).
    destruct Hwf as [_ Hl]. change (ADDRESS_TYPE_IP_V6 =? ADDRESS_TYPE_IP_V4) with false. rewrite Z.eqb_refl.
    rewrite (bind_ok _ _ _ o (mkConn rest out)); [done|].
    apply read_exact_app'. unfold len. by rewrite Hl.
  - destruct Hwf as [Hu Hl]. destruct (Z.leb_spec (len x) MAX_DOMAIN_NAME_LENGTH); [|done].
    injection Hm as <-. pose proof (len_nonneg x). exists (ADDRESS_TYPE_DOMAIN_NAME :: as_u8 (len x) :: x).
    split; [done|].
    unfold read_address. simpl app. rewrite (bind_ok _ _ _ _ _ (read_u8_cons _ _ _)).
    change (ADDRESS_TYPE_DOMAIN_NAME =? ADDRESS_TYPE_IP_V4) with false.
    change (ADDRESS_TYPE_DOMAIN_NAME =? ADDRESS_TYPE_IP_V6) with false. rewrite Z.eqb_refl.
    rewrite (bind_ok _ _ _ _ _ (read_u8_cons _ _ _)).
    rewrite (bind_ok _ _ _ x (mkConn rest out)); [by rewrite Hu|].
    apply read_exact_app'. unfold as_u8. rewrite Z.mod_small; lia.
Qed.

Lemma read_reply_ok c code a port msg rest out :
  reply_from_u8 c = Some code -> wf_address a -> 0 <= port < 2 ^ 16 ->
  request_message c a port = Ok msg ->
  read_reply (mkConn (msg ++ rest) out) = (Ok (mkReply code a port), mkConn rest out).
Proof.
  intros Hc Ha Hp Hm. destruct (read_address_ok a port c (be_bytes 2 port ++ rest) out msg Ha Hm) as (body & -> & Hr).
  unfold read_reply, read_version. rewrite <- !app_assoc. cbn [app].
  rewrite (bind_ok _ _ _ tt (mkConn (c :: 0 :: body ++ be_bytes 2 port ++ rest) out));
    [|by rewrite (bind_ok _ _ _ _ _ (read_u8_cons _ _ _))].
  rewrite (bind_ok _ _ _ _ _ (read_u8_cons _ _ _)), Hc.
  rewrite (bind_ok _ _ _ _ _ (read_u8_cons _ _ _)).
  change (negb (0 =? RESERVED)) with false. cbn iota.
  rewrite (bind_ok _ _ _ _ _ Hr). rewrite (bind_ok _ _ _ _ _ (read_u16_be _ _ _ Hp)). done.
Qed.

(** What the client offers and what the server may choose. *)
Definition offered (auth : option SocksAuth) : AuthenticationMethod :=
  match auth with Some a => to_method a | None => NoAuth end.

Definition greeting (auth : option SocksAuth) : bytes := [5; 2; method_to_u8 (offered auth); 0].

(** The server's part of the negotiation, and what the client writes in it. *)
Inductive negotiation (auth : option SocksAuth) : bytes -> bytes -> Prop :=
| neg_none : negotiation auth [5; 0] []
| neg_auth a msg :
    auth = Some a -> authentication_message a = Ok msg ->
    negotiation auth [5; method_to_u8 (to_method a); 1; 0] msg.

Lemma write_greeting auth i o :
  write_selection_message [offered auth; NoAuth] (mkConn i o) = (Ok tt, mkConn i (o ++ greeting auth)).
Proof. done. Qed.

Lemma read_selection_cons m rest out :
  read_selection_response (mkConn (5 :: m :: rest) out) =
    match method_from_u8 m with Some x => (Ok x, mkConn rest out) | None => (Err SocksProtocol, mkConn rest out) end.
Proof.
  unfold read_selection_response, read_version.
  rewrite (bind_ok _ _ _ tt (mkConn (m :: rest) out)); [|by rewrite (bind_ok _ _ _ _ _ (read_u8_cons _ _ _))].
  rewrite (bind_ok _ _ _ _ _ (read_u8_cons _ _ _)). by destruct (method_from_u8 m).
Qed.

Lemma negotiate_ok auth srv cl rest out :
  negotiation auth srv cl ->
  negotiate auth (mkConn (srv ++ rest) out) = (Ok tt, mkConn rest (out ++ greeting auth ++ cl)).
Proof.
  intros H. unfold negotiate. fold (offered auth).
  rewrite (bind_ok _ _ _ _ _ (write_greeting auth _ _)). cbn [conn_in conn_out].
  destruct H as [|a msg -> Hm]; cbn [app].
  - rewrite (bind_ok _ _ _ NoAuth (mkConn rest (out ++ greeting auth))); [by rewrite app_nil_r|].
    by rewrite read_selection_cons.
  - rewrite (bind_ok _ _ _ (to_method a) (mkConn (1 :: 0 :: rest) (out ++ greeting (Some a))));
      [|rewrite read_selection_cons; by destruct a].
    assert (forall i o, write_authentication_message a (mkConn i o) = (Ok tt, mkConn i (o ++ msg))) as Hw
      by (intros i o; unfold write_authentication_message; by rewrite Hm).
    assert (forall o, read_authentication_response (mkConn (1 :: 0 :: rest) o) = (Ok tt, mkConn rest o)) as Hr.
    { intros o. unfold read_authentication_response. rewrite (bind_ok _ _ _ _ _ (read_u8_cons _ _ _)).
      change (negb (1 =? USERNAME_PASSWORD_AUTHENTICATION_VER)) with false. cbn iota.
      by rewrite (bind_ok _ _ _ _ _ (read_u8_cons _ _ _)). }
    destruct a as [u p|vs]; cbn [to_method]; rewrite (bind_ok _ _ _ _ _ (Hw _ _)); cbn [conn_in conn_out];
      rewrite Hr, <- app_assoc; done.
Qed.

(** Without the server choosing the offered method, the negotiation writes only the
    greeting. *)
Lemma negotiate_silent auth ci co r c' :
  (forall a, auth = Some a -> ~ exists rest, ci = 5 :: method_to_u8 (to_method a) :: rest) ->
  negotiate auth (mkConn ci co) = (r, c') -> conn_out c' = co ++ greeting auth.
Proof.
  intros Hno. unfold negotiate. fold (offered auth).
  rewrite (bind_ok _ _ _ _ _ (write_greeting auth _ _)). cbn [conn_in conn_out].
  set (o := co ++ greeting auth). destruct ci as [|v [|m rest]].
  - unfold bindIO, read_selection_response, read_version, bindIO. rewrite read_u8_nil. by intros [= <- <-].
  - unfold bindIO at 1, read_selection_response, read_version, bindIO. rewrite read_u8_cons.
    destruct (negb _); [by intros [= <- <-]|]. unfold ret. rewrite read_u8_nil. by intros [= <- <-].
  - destruct (Z.eqb_spec v 5) as [->|Hv].
    2:{ unfold bindIO at 1, read_selection_response, read_version, bindIO. rewrite read_u8_cons.
        change PROTOCOL_VERSION with 5. rewrite (proj2 (Z.eqb_neq _ _)) by done. by intros [= <- <-]. }
    unfold bindIO at 1. rewrite read_selection_cons. destruct (method_from_u8 m) as [x|] eqn:Em; [|by intros [= <- <-]].
    assert (forall a, auth = Some a -> m <> method_to_u8 (to_method a)) as Hm.
    { intros a Ha ->. apply (Hno a Ha). eauto. }
    unfold method_from_u8 in Em. destruct x; [by intros [= <- <-]| | |by intros [= <- <-]];
      (destruct auth as [[u p|vs]|]; [..|by intros [= <- <-]]); try (by intros [= <- <-]); exfalso.
    + apply (Hm _ eq_refl). cbn. destruct (Z.eqb_spec m AUTHENTICATION_CODE_NO_AUTH); [done|].
      destruct (Z.eqb_spec m AUTHENTICATION_CODE_USERNAME_PASSWORD); [done|].
      repeat (destruct (Z.eqb _ _) in Em; try done).
    + apply (Hm _ eq_refl). cbn. destruct (Z.eqb_spec m AUTHENTICATION_CODE_NO_AUTH); [done|].
      destruct (Z.eqb_spec m AUTHENTICATION_CODE_USERNAME_PASSWORD); [done|].
      destruct (Z.eqb_spec m AUTHENTICATION_CODE_EXTENDED_AUTH); [done|].
      by destruct (Z.eqb _ _) in Em.
Qed.

(** Computations that write nothing. *)
Definition silent {A} (m : IOm A) : Prop := forall c, conn_out (m c).2 = conn_out c.

Lemma silent_ret {A} (a : A) : silent (ret a).
Proof. done. Qed.

Lemma silent_fail {A} e : silent (@fail A e).
Proof. done. Qed.

Lemma silent_bind {A B} (m : IOm A) (f : A -> IOm B) : silent m -> (forall a, silent (f a)) -> silent (bindIO m f).
Proof.
  intros Hm Hf c. unfold bindIO. specialize (Hm c). destruct (m c) as [[a|e] c']; simpl in *; [|done].
  by rewrite Hf.
Qed.

Lemma silent_read_exact n : silent (read_exact n).
Proof. intros c. unfold read_exact. by destruct (_ <=? _). Qed.

Lemma silent_lift {A} (r : result ErrorKind A) : silent (lift r).
Proof. by destruct r. Qed.

#[export] Hint Resolve silent_ret silent_fail silent_bind silent_read_exact silent_lift : tt.

Lemma silent_read_u8 : silent read_u8.
Proof. unfold read_u8. auto with tt. Qed.

Lemma silent_read_u16 : silent read_u16.
Proof. unfold read_u16. auto with tt. Qed.

#[export] Hint Resolve silent_read_u8 silent_read_u16 : tt.

Ltac solve_silent :=
  repeat first [apply silent_bind; [auto with tt|intros] | auto with tt; fail
               | match goal with |- silent (if ?b then _ else _) => destruct b end
               | match goal with |- silent (match ?x with _ => _ end) => destruct x end];
  auto with tt.

Lemma silent_read_reply : silent read_reply.
Proof.
  unfold read_reply, read_version. apply silent_bind; [solve_silent|]. intros _. unfold read_address. solve_silent.
Qed.

Lemma silent_destination env request : silent (request_destination env request).
Proof. unfold request_destination. solve_silent. Qed.

Lemma silent_conclude env request reply : silent (conclude env request reply).
Proof. unfold conclude. cbv zeta. solve_silent. Qed.

Lemma write_all_in b c r c' : write_all b c = (r, c') -> conn_in c' = conn_in c.
Proof. unfold write_all. destruct (conn_breaks c) as [[n e]|]; [destruct (_ <=? _)%nat|]; by intros [= <- <-]. Qed.

(** *** Connections that break *)

(** A computation on a connection that breaks does what it does on one that does not, up to
    the error of the write that breaks it. *)
Definition tracks {A} (m : IOm A) : Prop := forall i o,
  let c := (m (mkConn i o)).2 in
  conn_breaks c = None /\ o `prefix_of` conn_out c /\
  forall n e,
    (exists n', m (mkStream i o (Some (n, e))) = ((m (mkConn i o)).1, mkStream (conn_in c) (conn_out c) (Some (n', e)))) \/
    (exists c', m (mkStream i o (Some (n, e))) = (Err (SocksIo e), c') /\ conn_out c' `prefix_of` conn_out c).

Lemma tracks_ret {A} (a : A) : tracks (ret a).
Proof. intros i o. cbn. split_and!; [done|done|]. intros n e. left. by exists n. Qed.

Lemma tracks_fail {A} e : tracks (@fail A e).
Proof. intros i o. cbn. split_and!; [done|done|]. intros n e'. left. by exists n. Qed.

Lemma tracks_lift {A} (r : result ErrorKind A) : tracks (lift r).
Proof. destruct r; [apply tracks_ret|apply tracks_fail]. Qed.

Lemma tracks_read_exact n : tracks (read_exact n).
Proof.
  intros i o. unfold read_exact. cbn [conn_in conn_out conn_breaks]. destruct (_ <=? _); cbn;
    (split_and!; [done|done|]); intros k e; left; by exists k.
Qed.

Lemma tracks_write_all b : tracks (write_all b).
Proof.
  intros i o. cbn. split_and!; [done|by apply prefix_app_r|]. intros n e. unfold write_all. cbn [conn_breaks conn_in conn_out].
  destruct (_ <=? _)%nat; [left; by eexists|right]. eexists. split; [done|]. cbn. apply prefix_app.
  exists (drop n b). by rewrite take_drop.
Qed.

Lemma tracks_bind {A B} (m : IOm A) (f : A -> IOm B) : tracks m -> (forall a, tracks (f a)) -> tracks (bindIO m f).
Proof.
  intros Hm Hf i o. specialize (Hm i o). unfold bindIO. destruct (m (mkConn i o)) as [r c]. cbn [fst snd] in *.
  destruct Hm as (Hb & Hp & Hm). destruct c as [ci co br]. cbn in *. subst br. destruct r as [a|e0].
  - specialize (Hf a ci co). destruct (f a (mkConn ci co)) as [r2 c2]. cbn [fst snd] in *. destruct Hf as (Hb2 & Hp2 & Hf).
    split_and!; [done|by etrans|]. intros n e. destruct (Hm n e) as [[n' ->]|(c' & -> & Hc)]; [apply Hf|].
    right. exists c'. split; [done|by etrans].
  - split_and!; [done|done|]. intros n e. destruct (Hm n e) as [[n' ->]|(c' & -> & Hc)]; [left; by exists n'|right; by exists c'].
Qed.

#[export] Hint Resolve tracks_ret tracks_fail tracks_lift tracks_read_exact tracks_write_all : tt.

Ltac solve_tracks :=
  repeat first [solve [auto with tt]
               | apply tracks_bind; [|intros]
               | match goal with |- tracks (if ?b then _ else _) => destruct b end
               | match goal with |- tracks (match ?x with _ => _ end) => destruct x end].

Lemma tracks_negotiate auth : tracks (negotiate auth).
Proof.
  unfold negotiate, write_selection_message, read_selection_response, read_version,
    write_authentication_message, read_authentication_response, read_u8. solve_tracks.
Qed.

Lemma tracks_destination env request : tracks (request_destination env request).
Proof. unfold request_destination. solve_tracks. Qed.

#[export] Hint Resolve tracks_negotiate tracks_destination : tt.

Lemma tracks_connect_inner env auth request : tracks (connect_inner env auth request).
Proof.
  unfold connect_inner, write_request, read_reply, read_version, read_address, conclude, read_u8, read_u16. cbv zeta. solve_tracks.
Qed.

(** A completed negotiation was completed by the server. *)
Lemma read_u8_inv c x c' : read_u8 c = (Ok x, c') -> conn_in c = x :: conn_in c'.
Proof.
  destruct c as [[|y ci] co br]; [rewrite read_u8_nil; done|]. rewrite read_u8_cons. by intros [= <- <-].
Qed.

Lemma read_auth_response_inv c c' :
  read_authentication_response c = (Ok tt, c') -> conn_in c = 1 :: 0 :: conn_in c'.
Proof.
  unfold read_authentication_response, bindIO. destruct (read_u8 c) as [[v|] c1] eqn:E1; [|done].
  destruct (Z.eqb_spec v USERNAME_PASSWORD_AUTHENTICATION_VER) as [->|]; [|done]. cbn [negb].
  destruct (read_u8 c1) as [[s|] c2] eqn:E2; [|done].
  destruct (Z.eqb_spec s AUTHENTICATION_STATUS_SUCCESS) as [->|]; [|done]. cbn [negb]. intros [= <-].
  apply read_u8_inv in E1, E2. by rewrite E1, E2.
Qed.

Lemma read_selection_inv c m c' :
  read_selection_response c = (Ok m, c') -> conn_in c = 5 :: method_to_u8 m :: conn_in c'.
Proof.
  unfold read_selection_response, read_version, bindIO. destruct (read_u8 c) as [[v|] c1] eqn:E1; [|done].
  destruct (Z.eqb_spec v PROTOCOL_VERSION) as [->|]; [|done]. cbn [negb]. unfold ret at 1.
  destruct (read_u8 c1) as [[x|] c2] eqn:E2; [|done].
  destruct (method_from_u8 x) as [m'|] eqn:Em; [|done]. intros [= <- <-].
  apply read_u8_inv in E1, E2. rewrite E1, E2. do 2 f_equal. unfold method_from_u8 in Em.
  repeat match type of Em with context [x =? ?k] => destruct (Z.eqb_spec x k) as [->|]; [by simplify_eq|] end. done.
Qed.

Lemma negotiate_inv auth c c' :
  negotiate auth c = (Ok tt, c') -> exists srv cl, negotiation auth srv cl /\ conn_in c = srv ++ conn_in c'.
Proof.
  unfold negotiate. fold (offered auth). unfold bindIO at 1, write_selection_message.
  change (MAX_AUTH_METHODS_NUM <? len [offered auth; NoAuth]) with false. cbv iota.
  destruct (write_all _ c) as [[[]|e] c0] eqn:Ew; [|done]. apply write_all_in in Ew as <-.
  unfold bindIO at 1. destruct (read_selection_response _) as [[m|] c1] eqn:E1; [|done].
  apply read_selection_inv in E1. cbn [conn_in] in E1.
  assert (forall a, auth = Some a -> m = to_method a ->
    (let$ _ := write_authentication_message a in read_authentication_response) c1 = (Ok tt, c') ->
    exists srv cl, negotiation auth srv cl /\ conn_in c0 = srv ++ conn_in c') as Ha.
  { intros a Ha -> H. unfold bindIO, write_authentication_message in H.
    destruct (authentication_message a) as [msg|] eqn:Em; [|done].
    destruct (write_all msg c1) as [[[]|e] c2] eqn:Ew; [|done]. apply write_all_in in Ew as Ein.
    apply read_auth_response_inv in H. rewrite Ein in H.
    exists [5; method_to_u8 (to_method a); 1; 0], msg. split; [by econstructor|]. by rewrite E1, H. }
  destruct m; [|destruct auth as [[u p|vs]|]; try done; by apply Ha..|done].
  intros [= <-]. exists [5; 0], []. split; [constructor|done].
Qed.

(** ** Properties *)

(** Against a server that accepts (with or without the offered
    authentication) and replies with any reply code, the handshake writes exactly the
    greeting, the authentication message if asked for, and the request, and returns the
    connection or the failure code; the bytes after the reply are left unread for the
    tunnel. *)
Theorem socks5_connect_ok (env : UdpEnv) (auth : option SocksAuth) (dst : Address) (port : Z)
    (srv cl req reply rest : bytes) (c : Z) (code : ReplyCode) (bound : Address) (bport : Z) :
  negotiation auth srv cl -> request_message 1 dst port = Ok req ->
  reply_from_u8 c = Some code -> wf_address bound -> 0 <= bport < 2 ^ 16 ->
  request_message c bound bport = Ok reply ->
  connect_inner env auth (Connect dst port) (mkConn (srv ++ reply ++ rest) []) =
    (Ok (match code with Succeeded => TcpConnection | f => Failure f end),
     mkConn rest (greeting auth ++ cl ++ req)).
Proof.
  intros Hn Hreq Hc Ha Hp Hrep. unfold connect_inner.
  rewrite (bind_ok _ _ _ _ _ (negotiate_ok auth srv cl (reply ++ rest) [] Hn)). cbn [app].
  rewrite (bind_ok _ _ _ (dst, port) _ eq_refl). cbn [command_code].
  rewrite (bind_ok _ _ _ tt (mkConn (reply ++ rest) ((greeting auth ++ cl) ++ req)));
    [|unfold write_request; by rewrite Hreq].
  rewrite (bind_ok _ _ _ _ _ (read_reply_ok c code bound bport reply rest _ Hc Ha Hp Hrep)).
  rewrite <- app_assoc. cbn [reply_code]. by destruct code.
Qed.

Definition sample_socks_auth : SocksAuth := UsernamePassword (str "u") (str "pw").

Lemma socks5_connect_ok_witness :
  connect_inner (mkUdpEnv (Err Other) (fun _ => Err Other)) (Some sample_socks_auth)
      (Connect (DomainName (str "a.b")) 443)
      (mkConn ([5; 2; 1; 0] ++ ([5; 0; 0; 1] ++ [10; 0; 0; 1] ++ be_bytes 2 80) ++ [9; 9]) []) =
    (Ok TcpConnection,
     mkConn [9; 9] ([5; 2; 2; 0] ++ [1; 1; 117; 2; 112; 119] ++ [5; 1; 0; 3; 3; 97; 46; 98; 1; 187])).
Proof.
  apply (socks5_connect_ok (mkUdpEnv (Err Other) (fun _ => Err Other)) (Some sample_socks_auth)
    (DomainName (str "a.b")) 443 [5; 2; 1; 0] [1; 1; 117; 2; 112; 119] [5; 1; 0; 3; 3; 97; 46; 98; 1; 187]
    ([5; 0; 0; 1] ++ [10; 0; 0; 1] ++ be_bytes 2 80) [9; 9] 0 Succeeded (IpAddress (IpV4 [10; 0; 0; 1])) 80).
  - apply (neg_auth (Some sample_socks_auth) sample_socks_auth); reflexivity.
  - reflexivity.
  - reflexivity.
  - by_compute.
  - lia.
  - reflexivity.
Defined.

(** The handshake on a connection that does not break. *)
Lemma unbroken_handshake env auth request stream r c' :
  connect_inner env auth request (mkConn stream []) = (r, c') ->
  (is_ok r = true -> exists srv cl rest, negotiation auth srv cl /\ stream = srv ++ rest) /\
  ((forall a, auth = Some a -> ~ exists rest, stream = 5 :: method_to_u8 (to_method a) :: rest) ->
   conn_out c' = greeting auth \/
   exists d p msg, request_message (command_code request) d p = Ok msg /\ conn_out c' = greeting auth ++ msg).
Proof.
  unfold connect_inner, bindIO at 1. destruct (negotiate auth (mkConn stream [])) as [[[]|e] c1] eqn:En.
  2:{ intros [= <- <-]. split; [done|]. intros Hno. left. by apply (negotiate_silent auth stream [] _ _ Hno) in En. }
  intros H. split.
  { intros _. apply negotiate_inv in En as (srv & cl & Hn & E). cbn [conn_in] in E. eauto 10. }
  intros Hno. apply (negotiate_silent auth stream [] _ _ Hno) in En as Hout. cbn [app] in Hout.
  unfold bindIO at 1 in H.
  pose proof (silent_destination env request c1) as Hs.
  destruct (request_destination env request c1) as [[[d p]|e] c2] eqn:Ed.
  2:{ injection H as <- <-. left. simpl in Hs. congruence. }
  simpl in Hs. unfold bindIO at 1, write_request in H.
  destruct (request_message (command_code request) d p) as [msg|] eqn:Em.
  2:{ injection H as <- <-. left. congruence. }
  assert (conn_breaks c2 = None) as Hb.
  { pose proof (proj1 (tracks_negotiate auth stream [])) as H1. rewrite En in H1. cbn in H1. destruct c1 as [i1 o1 b1].
    cbn in H1. subst b1. pose proof (proj1 (tracks_destination env request i1 o1)) as H2. by rewrite Ed in H2. }
  unfold write_all in H. rewrite Hb in H. right. exists d, p, msg. split; [done|]. rewrite <- Hout, <- Hs.
  assert (silent (let$ reply := read_reply in conclude env request reply)) as Hr
    by (apply silent_bind; [apply silent_read_reply|intros; apply silent_conclude]).
  specialize (Hr (mkConn (conn_in c2) (conn_out c2 ++ msg))). cbn [conn_out] in Hr. rewrite <- Hr.
  apply (f_equal snd) in H. simpl in H. by rewrite <- H.
Qed.

(** C37: whatever the server sends, and wherever the connection breaks, the client never
    succeeds without a completed negotiation, and unless the server chose the offered method
    it never writes the credentials: only the greeting, or the greeting and the request, or
    the part of them that was written before the connection broke. *)
Theorem socks5_handshake_safe (env : UdpEnv) (auth : option SocksAuth) (request : SocksRequest)
    (stream : bytes) (breaks : option (nat * ErrorKind)) (r : result SocksError ConnectResult) (c' : Conn) :
  connect_inner env auth request (mkStream stream [] breaks) = (r, c') ->
  (is_ok r = true -> exists srv cl rest, negotiation auth srv cl /\ stream = srv ++ rest) /\
  ((forall a, auth = Some a -> ~ exists rest, stream = 5 :: method_to_u8 (to_method a) :: rest) ->
   exists out,
     (out = greeting auth \/
      exists d p msg, request_message (command_code request) d p = Ok msg /\ out = greeting auth ++ msg) /\
     (conn_out c' `prefix_of` out) /\ (breaks = None -> conn_out c' = out)).
Proof.
  destruct (connect_inner env auth request (mkConn stream [])) as [r0 c0] eqn:E0.
  destruct (unbroken_handshake _ _ _ _ _ _ E0) as [Hok Hsafe]. intros E.
  assert ((is_ok r = true -> is_ok r0 = true) /\ (conn_out c' `prefix_of` conn_out c0) /\ (breaks = None -> conn_out c' = conn_out c0))
    as (H1 & H2 & H3).
  { destruct breaks as [[n e]|]; [|rewrite E0 in E; by injection E as <- <-].
    destruct (tracks_connect_inner env auth request stream []) as (_ & _ & Ht). rewrite E0 in Ht. cbn [fst snd] in Ht.
    destruct (Ht n e) as [[n' E']|(c1 & E' & Hp)]; rewrite E in E'; injection E' as -> ->; by split_and!. }
  split; [by auto|]. intros Hno. exists (conn_out c0). split_and!; [by apply Hsafe|done|done].
Qed.

(** A server that asks for a password although none was offered gets nothing, here over a
    connection that breaks in the greeting. *)
Lemma socks5_handshake_safe_witness :
  exists out,
    (out = greeting (Some (Extended [SniAuth])) \/
     exists d p msg, request_message 3 d p = Ok msg /\ out = greeting (Some (Extended [SniAuth])) ++ msg) /\
    ([5; 2] `prefix_of` out) /\
    (Some (2%nat, Other) = None -> [5; 2] = out).
Proof.
  apply (proj2 (socks5_handshake_safe (mkUdpEnv (Err Other) (fun _ => Err Other)) (Some (Extended [SniAuth]))
    UdpAssociate [5; 2; 1; 0] (Some (2%nat, Other)) (Err (SocksIo Other)) (mkStream [5; 2; 1; 0] [5; 2] (Some (O, Other))) eq_refl)).
  intros a [= <-] [rest [=]].
Defined.

(** *** UDP packets *)

Lemma recv_from_total packet cap : exists r, recv_from packet cap = Ret r.
Proof.
  unfold recv_from. set (buf := take _ packet). unfold udp_buffer_size, IPV4_WIRE_LENGTH, IPV6_WIRE_LENGTH.
  destruct (Z.ltb_spec (len buf) (2 + 1 + 1 + 4 + 2 + 0)) as [|Hl]; [eauto|].
  destruct (destruct_list 4 buf ltac:(lia)) as (h & t & Eb & Hh). rewrite Eb in *. clear Eb buf.
  do 5 (destruct h as [|? h]; try (simpl in Hh; lia)). clear Hh. cbn [app] in *. rewrite !len_cons in Hl.
  do 3 (rewrite get_u8_cons; cbn [bindM]; destruct (negb _); [eauto|]).
  rewrite get_u8_cons. cbn [bindM].
  assert (forall ip b, exists r, (if len b <? 2 then Ret (Err SocksProtocol)
    else let! (port, b) := get_u16 b in
         Ret (Ok (len b, mkAddr ip port, take (Z.to_nat (Z.min (len b) cap)) b))) = Ret r) as Hf.
  { intros ip b. destruct (Z.ltb_spec (len b) 2); [eauto|].
    destruct (get_uint_ok 2 b) as (x & y & E & _); [lia|]. unfold get_u16. rewrite E. cbn [bindM]. eauto. }
  destruct (_ =? ADDRESS_TYPE_IP_V4).
  - destruct (split_to_ok 4 t) as (o & b & -> & _); [lia|]. cbn [bindM]. apply Hf.
  - destruct (_ =? ADDRESS_TYPE_IP_V6); [|eauto].
    destruct (Z.ltb_spec (len t) 16); [eauto|].
    destruct (split_to_ok 16 t) as (o & b & -> & _); [lia|]. cbn [bindM]. apply Hf.
Qed.

(** The room that the receive buffer has beyond the caller's: it is made for the longer
    header of an IPv6 source. *)
Definition udp_slack (a : SocketAddr) : Z :=
  match addr_ip a with IpV4 _ => IPV6_WIRE_LENGTH - IPV4_WIRE_LENGTH | IpV6 _ => 0 end.

Lemma take_sent_packet data a cap :
  wf_addr a -> 0 <= cap ->
  take (Z.to_nat (udp_buffer_size IPV6_WIRE_LENGTH cap)) (send_to_packet data a)
  = send_to_packet (take (Z.to_nat (cap + udp_slack a)) data) a.
Proof.
  intros [Hip _] Hcap. unfold send_to_packet, udp_slack, udp_buffer_size, IPV4_WIRE_LENGTH, IPV6_WIRE_LENGTH.
  destruct (addr_ip a) as [o|o]; destruct Hip as [_ Ho];
    rewrite !app_assoc, take_app_ge by (rewrite !length_app, length_cons, length_be_bytes; simpl length; lia);
    f_equal; f_equal; rewrite !length_app, length_cons, length_be_bytes; simpl length; lia.
Qed.

Lemma recv_from_sent packet data a cap :
  wf_addr a -> take (Z.to_nat (udp_buffer_size IPV6_WIRE_LENGTH cap)) packet = send_to_packet data a ->
  recv_from packet cap = Ret (Ok (len data, a, take (Z.to_nat (Z.min (len data) cap)) data)).
Proof.
  intros [Hip Hport] E. unfold recv_from. rewrite E. clear E. pose proof (len_nonneg data).
  unfold send_to_packet, udp_buffer_size, IPV4_WIRE_LENGTH, IPV6_WIRE_LENGTH.
  destruct (addr_ip a) as [o|o] eqn:Eip; destruct Hip as [_ Ho];
    (rewrite (proj2 (Z.ltb_ge _ _)) by (rewrite !len_app, len_cons, len_be_bytes; unfold len in *; simpl length; lia));
    cbn [app]; (do 3 (rewrite get_u8_cons; cbn [bindM]; rewrite Z.eqb_refl; cbn [negb]));
    rewrite get_u8_cons; cbn [bindM].
  1: rewrite Z.eqb_refl.
  2: change (ADDRESS_TYPE_IP_V6 =? ADDRESS_TYPE_IP_V4) with false; rewrite Z.eqb_refl;
     rewrite (proj2 (Z.ltb_ge _ _)) by (rewrite len_app; unfold len in *; lia).
  all: rewrite split_to_app' by (unfold len; by rewrite Ho); cbn [bindM];
    rewrite (proj2 (Z.ltb_ge _ _)) by (rewrite len_app, len_be_bytes; lia);
    unfold get_u16; rewrite get_uint_be by done; cbn [bindM]; rewrite <- Eip; by destruct a.
Qed.

(** Parsing a received packet never panics; a packet in the format the
    client sends is read back as its address and the first [cap] bytes of its data.  The
    returned length is that of the data when it fits, and may exceed the caller's buffer
    otherwise, by the room made for the longer header of an IPv6 source. *)
Theorem socks5_udp_roundtrip (packet : bytes) (data : bytes) (a : SocketAddr) (cap : Z) :
  0 <= cap ->
  (exists r, recv_from packet cap = Ret r) /\
  (wf_addr a ->
    recv_from (send_to_packet data a) cap =
      Ret (Ok (Z.min (len data) (cap + udp_slack a), a, take (Z.to_nat cap) data))).
Proof.
  intros Hcap. split; [apply recv_from_total|]. intros Ha.
  rewrite (recv_from_sent _ _ a cap Ha (take_sent_packet data a cap Ha Hcap)).
  assert (0 <= udp_slack a) as Hs by (unfold udp_slack; destruct (addr_ip a); done).
  assert (len (take (Z.to_nat (cap + udp_slack a)) data) = Z.min (len data) (cap + udp_slack a)) as ->
    by (unfold len; rewrite length_take; lia).
  do 2 f_equal. f_equal. rewrite take_take. destruct (Z.le_ge_cases (len data) cap).
  - rewrite !take_ge; [done| |]; unfold len in *; lia.
  - f_equal. lia.
Qed.

Lemma socks5_udp_roundtrip_witness :
  recv_from (send_to_packet [1; 2; 3] (mkAddr (IpV4 [8; 8; 8; 8]) 53)) 2
    = Ret (Ok (3, mkAddr (IpV4 [8; 8; 8; 8]) 53, [1; 2])).
Proof.
  apply (proj2 (socks5_udp_roundtrip [] [1; 2; 3] (mkAddr (IpV4 [8; 8; 8; 8]) 53) 2 ltac:(lia))). by_compute.
Defined.

(** The user name as a server reads it from the authentication message. *)
Definition server_username (msg : bytes) : M bytes :=
  let! (_, msg) := get_u8 msg in
  let! (n, msg) := get_u8 msg in
  let! (u, _) := split_to n msg in Ret u.

(** A server reads the user name that was configured exactly when it has
    fewer than 256 bytes: a longer one is sent with its length taken modulo 256 and no
    error, so that the server sees a truncated name. *)
Theorem socks5_username_length (u p msg : bytes) :
  authentication_message (UsernamePassword u p) = Ok msg ->
  server_username msg = Ret (take (Z.to_nat (len u mod 256)) u) /\
  (server_username msg = Ret u <-> len u < 256).
Proof.
  intros [= <-]. pose proof (len_nonneg u) as Hu. unfold server_username. cbn [app].
  rewrite get_u8_cons. cbn [bindM]. rewrite get_u8_cons. cbn [bindM]. unfold as_u8. change (2 ^ 8) with 256.
  pose proof (Z.mod_pos_bound (len u) 256 ltac:(lia)) as Hm.
  assert (len u mod 256 <= len u) as Hle by (apply Z.mod_le; lia).
  unfold split_to. rewrite len_app. pose proof (len_nonneg (as_u8 (len p) :: p)).
  rewrite (proj2 (Z.leb_le _ _)) by (unfold as_u8 in *; change (2 ^ 8) with 256 in *; lia). cbn [bindM].
  rewrite take_app_le by (unfold len in *; lia). split; [done|]. split.
  - intros E. apply Ret_inj in E. apply (f_equal len) in E.
    assert (len (take (Z.to_nat (len u mod 256)) u) = len u mod 256) as El.
    { unfold len at 1. rewrite length_take. unfold len in *. lia. }
    lia.
  - intros Hlt. rewrite Z.mod_small by lia. rewrite to_nat_len. by rewrite firstn_all.
Qed.

Lemma socks5_username_length_witness :
  server_username ([1] ++ [as_u8 257] ++ replicate 257 65 ++ [as_u8 1] ++ [66]) = Ret [65].
Proof.
  apply (proj1 (socks5_username_length (replicate 257 65) [66]
    ([1] ++ [as_u8 257] ++ replicate 257 65 ++ [as_u8 1] ++ [66]) eq_refl)).
Defined.
