(* ===== verification/UdpPipe.v ===== *)
(** * The UDP pipe between a client and a forwarder

    lib/src/udp_pipe.rs over the interface [UdpDatagramPipeShared], [Source] and [Sink]
    of lib/src/forwarder.rs and lib/src/datagram_pipe.rs.

    The two halves of the pipe run in one task ([future::try_select]), so a round of a
    half is atomic between its suspension points.  A round takes the outcomes of the
    calls it awaits as arguments; a round abandoned when the timer cancels
    [exchange_once] is a step of its own.  The clock readings are arguments too. *)

From S2P Require Import Prelude.
From S2P Require Import Codecs.
From S2P Require Import Varint.
From S2P Require Import NetUtils.
From S2P Require Import Icmp.
From S2P Require Import Datagram.

(** ** The interface of a multiplexer *)

Inductive SendStatus : Type := Sent | Dropped.

Inductive UdpDatagramReadStatus : Type :=
| Read (d : UdpDatagram)
| UdpClose (meta : UdpDatagramMeta) (e : ErrorKind).

Inductive SimplexDirection : Type := Incoming | Outgoing.

(** What leaves the pipe. *)
Inductive Output : Type :=
| ToTarget (destination : SocketAddr) (payload : bytes)
| ToClient (d : UdpDatagram)
| Metrics (direction : SimplexDirection) (n : Z).

(** A multiplexer with state [St]; [Io] are the outcomes of the system calls of a
    round and [Ev] the events its source waits for.  [source_read] answers [None] when
    the events are used up and it waits on. *)
Class UdpMultiplexer (St Io Ev : Type) : Type := {
  on_new_udp_connection : Io -> St -> DownUdpDatagramMeta -> result ErrorKind unit * St;
  on_connection_closed : St -> UdpDatagramMeta -> St;
  sink_write : Io -> St -> DownUdpDatagram -> result ErrorKind SendStatus * St * list Output;
  source_read : list Ev -> St -> option (result ErrorKind UdpDatagramReadStatus) * St;
}.

(** What the pipe relies on: [carries st m] says that the multiplexer holds a socket
    for the forward-oriented [m], and [fw_inv] is the invariant it maintains. *)
Class UdpMultiplexerLaws (St Io Ev : Type) `{UdpMultiplexer St Io Ev} : Type := {
  carries : St -> UdpDatagramMeta -> Prop;
  fw_inv : St -> Prop;
  new_law io st d r st' : fw_inv st -> on_new_udp_connection io st d = (r, st') ->
    fw_inv st' /\ forall m, carries st' m -> carries st m \/ (r = Ok tt /\ m = meta_from d);
  closed_law st m m' : fw_inv st ->
    fw_inv (on_connection_closed st m) /\
    (carries (on_connection_closed st m) m' <-> carries st m' /\ m' <> reversed m);
  write_law io st d r st' outs : fw_inv st -> sink_write io st d = (r, st', outs) ->
    fw_inv st' /\ (forall m, carries st' m <-> carries st m);
}.

(** A multiplexer that reports the loss of a socket under the key the pipe uses. *)
Class ForwardCloses (St Io Ev : Type) `{UdpMultiplexerLaws St Io Ev} : Prop := {
  read_law evs st r st' : fw_inv st -> source_read evs st = (r, st') ->
    fw_inv st' /\ (forall m, carries st' m -> carries st m) /\
    (forall m e, r = Some (Ok (UdpClose m e)) -> ~ carries st' m);
}.

(** ** The connections *)

(** [PlainDnsInfo] is its counter; identifiers for the log are left out. *)
Record UdpConnection : Type := mkConnection {
  last_activity : Z;
  plain_dns_info : option Z;
}.

Inductive UdpConnectionStatus : Type := Continue | Done.

Definition register_outgoing_packet (now : Z) (self : UdpConnection) : UdpConnection :=
  mkConnection now (match plain_dns_info self with
                    | Some pending_queries => Some (as_u64 (pending_queries + 1))
                    | None => None
                    end).

Definition register_incoming_packet (now : Z) (self : UdpConnection)
  : UdpConnectionStatus * UdpConnection :=
  match plain_dns_info self with
  | None => (Continue, mkConnection now None)
  | Some pending_queries =>
      let pending_queries := Z.max 0 (pending_queries - 1) in
      (if pending_queries =? 0 then Done else Continue, mkConnection now (Some pending_queries))
  end.

Section pipe.
Context {St Io Ev : Type} `{UdpMultiplexer St Io Ev}.

(** [UdpPipeShared]: the table of connections, by their forward-oriented key. *)
Record PipeShared : Type := mkPipe {
  udp_connections : gmap UdpDatagramMeta UdpConnection;
  forwarder_shared : St;
}.

Definition pipe_new (st : St) : PipeShared := mkPipe ∅ st.

(** ** From the client to the target *)

Definition left_on_udp_packet (io : Io) (now now' : Z) (self : PipeShared) (meta : DownUdpDatagramMeta)
  : result ErrorKind unit * PipeShared :=
  match udp_connections self !! meta_from meta with
  | Some conn =>
      (Ok tt, mkPipe (<[meta_from meta := register_outgoing_packet now conn]> (udp_connections self))
                     (forwarder_shared self))
  | None =>
      let is_plain_dns := addr_port (dm_destination meta) =? PLAIN_DNS_PORT_NUMBER in
      let conns := <[meta_from meta := mkConnection now (if is_plain_dns then Some 0 else None)]>
                     (udp_connections self) in
      match on_new_udp_connection io (forwarder_shared self) meta with
      | (Err e, fw) => (Err e, mkPipe conns fw)
      | (Ok _, fw) =>
          match conns !! meta_from meta with
          | Some c => (Ok tt, mkPipe (<[meta_from meta := register_outgoing_packet now' c]> conns) fw)
          | None => (Ok tt, mkPipe conns fw)
          end
      end
  end.

(** What the round makes of the outcome of the write. *)
Definition left_written (self : PipeShared) (d : DownUdpDatagram) (w : result ErrorKind SendStatus * St * list Output)
  : result ErrorKind unit * PipeShared * list Output :=
  match w with
  | (Err e, fw, outs) => (Err e, mkPipe (udp_connections self) fw, outs)
  | (Ok Sent, fw, outs) =>
      (Ok tt, mkPipe (udp_connections self) fw, outs ++ [Metrics Outgoing (len (du_payload d))])
  | (Ok Dropped, fw, outs) => (Ok tt, mkPipe (udp_connections self) fw, outs)
  end.

(** One round of [LeftPipe::exchange] with the datagram it read, when its calls do not
    suspend; an error ends the exchange. *)
Definition left_round (io : Io) (now now' : Z) (self : PipeShared) (d : DownUdpDatagram)
  : result ErrorKind unit * PipeShared * list Output :=
  match left_on_udp_packet io now now' self (du_meta d) with
  | (Err _, self) => (Ok tt, self, [])
  | (Ok _, self) =>
      left_written self d (sink_write io (forwarder_shared self) d)
  end.

(** A round abandoned while it waits for [on_new_udp_connection]. *)
Definition left_cancelled (now : Z) (self : PipeShared) (meta : DownUdpDatagramMeta) : PipeShared :=
  match udp_connections self !! meta_from meta with
  | Some _ => self
  | None =>
      mkPipe (<[meta_from meta := mkConnection now
                  (if addr_port (dm_destination meta) =? PLAIN_DNS_PORT_NUMBER then Some 0 else None)]>
                (udp_connections self)) (forwarder_shared self)
  end.

(** ** From the target to the client *)

Definition right_on_udp_packet (now : Z) (self : PipeShared) (meta : UdpDatagramMeta)
  : UdpConnectionStatus * PipeShared :=
  match udp_connections self !! meta with
  | None => (Continue, self)
  | Some conn =>
      let (status, conn) := register_incoming_packet now conn in
      (status, mkPipe (<[meta := conn]> (udp_connections self)) (forwarder_shared self))
  end.

(** One round of [RightPipe::exchange] with what the source read; [written] is the
    outcome of the write to the client. *)
Definition right_round (written : result ErrorKind SendStatus) (now : Z) (self : PipeShared)
    (status : UdpDatagramReadStatus) : result ErrorKind unit * PipeShared * list Output :=
  match status with
  | UdpClose meta e =>
      (Ok tt, mkPipe (delete meta (udp_connections self)) (forwarder_shared self), [])
  | Read datagram =>
      let meta := ud_meta datagram in
      match written with
      | Err e => (Err e, self, [])
      | Ok status =>
          let outs := match status with
                      | Sent => [ToClient datagram; Metrics Incoming (len (ud_payload datagram))]
                      | Dropped => []
                      end in
          match right_on_udp_packet now self (reversed meta) with
          | (Continue, self) => (Ok tt, self, outs)
          | (Done, self) =>
              (Ok tt, mkPipe (delete (reversed meta) (udp_connections self))
                             (on_connection_closed (forwarder_shared self) meta), outs)
          end
      end
  end.

(** A round with the read: the events of the source, then the rest of the round. *)
Definition right_exchange (evs : list Ev) (written : result ErrorKind SendStatus) (now : Z)
    (self : PipeShared) : result ErrorKind unit * PipeShared * list Output :=
  match source_read evs (forwarder_shared self) with
  | (None, fw) => (Ok tt, mkPipe (udp_connections self) fw, [])
  | (Some (Err e), fw) => (Err e, mkPipe (udp_connections self) fw, [])
  | (Some (Ok status), fw) => right_round written now (mkPipe (udp_connections self) fw) status
  end.

(** ** Expiry *)

Definition expired (last_unexpired_timestamp : Z) (conns : gmap UdpDatagramMeta UdpConnection)
  : list UdpDatagramMeta :=
  fst <$> filter (fun p => last_activity p.2 < last_unexpired_timestamp) (map_to_list conns).

Definition expire (self : PipeShared) (meta : UdpDatagramMeta) : PipeShared :=
  mkPipe (delete meta (udp_connections self))
         (on_connection_closed (forwarder_shared self) (reversed meta)).

Definition on_timer_tick (now timeout : Z) (self : PipeShared) : PipeShared :=
  fold_left expire (expired (now - timeout) (udp_connections self)) self.

(** ** Runs *)

(** The steps of [DuplexPipe::exchange] while it has not ended.  A round that is suspended
    in the write of its datagram has registered it, and rounds of the other direction run
    before it is resumed, or before the timer abandons it.  (When one of these closes the
    connection, a datagram in the hands of the kernel may still leave through its socket;
    such a write, which changes no table, is not a step.) *)
Inductive pipe_step (timeout : Z) : PipeShared -> list Output -> PipeShared -> Prop :=
| step_left io now now' self d self' outs :
    left_round io now now' self d = (Ok tt, self', outs) -> pipe_step timeout self outs self'
| step_suspend io now now' self meta self' :
    left_on_udp_packet io now now' self meta = (Ok tt, self') -> pipe_step timeout self [] self'
| step_resume io self d self' outs :
    left_written self d (sink_write io (forwarder_shared self) d) = (Ok tt, self', outs) -> pipe_step timeout self outs self'
| step_right evs written now self self' outs :
    right_exchange evs written now self = (Ok tt, self', outs) -> pipe_step timeout self outs self'
| step_cancel now self meta : pipe_step timeout self [] (left_cancelled now self meta)
| step_tick now self : pipe_step timeout self [] (on_timer_tick now timeout self).

Inductive pipe_run (timeout : Z) : PipeShared -> list Output -> PipeShared -> Prop :=
| run_refl self : pipe_run timeout self [] self
| run_step self outs self' outs' self'' :
    pipe_run timeout self outs self' -> pipe_step timeout self' outs' self'' ->
    pipe_run timeout self (outs ++ outs') self''.

End pipe.
Arguments PipeShared : clear implicits.
Arguments mkPipe {St}.
Arguments udp_connections {St}.
Arguments forwarder_shared {St}.

(** ** No socket without a connection *)

Lemma reversed_involutive m : reversed (reversed m) = m.
Proof. by destruct m. Qed.

Section pipe_proofs.
Context {St Io Ev : Type} `{UdpMultiplexerLaws St Io Ev}.
Implicit Types self : PipeShared St.

(** Every socket of the multiplexer belongs to a connection of the table, and so is
    subject to expiry. *)
Definition pipe_inv self : Prop :=
  fw_inv (forwarder_shared self) /\
  forall m, carries (forwarder_shared self) m -> is_Some (udp_connections self !! m).

Lemma pipe_inv_intro conns fw :
  fw_inv fw -> (forall m, carries fw m -> is_Some (conns !! m)) -> pipe_inv (mkPipe conns fw).
Proof. done. Qed.

Lemma is_Some_insert {A} (conns : gmap UdpDatagramMeta A) k m x :
  is_Some (conns !! m) -> is_Some (<[k := x]> conns !! m).
Proof. rewrite lookup_insert_is_Some'. auto. Qed.

Lemma left_on_udp_packet_inv io now now' self meta r self' :
  pipe_inv self -> left_on_udp_packet io now now' self meta = (r, self') -> pipe_inv self'.
Proof.
  intros [Hf Hc] E. unfold left_on_udp_packet in E.
  destruct (udp_connections self !! meta_from meta) as [c|] eqn:Ec.
  - injection E as <- <-. apply pipe_inv_intro; [done|]. intros m Hm. apply is_Some_insert. auto.
  - destruct (on_new_udp_connection _ _ _) as [[[]|e] fw] eqn:En;
      pose proof (new_law _ _ _ _ _ Hf En) as [Hf' Hn].
    + rewrite lookup_insert_eq in E. injection E as <- <-. apply pipe_inv_intro; [done|].
      intros m [Hm|[_ ->]]%Hn; [by do 2 apply is_Some_insert; auto|]. rewrite lookup_insert_eq. eauto.
    + injection E as <- <-. apply pipe_inv_intro; [done|].
      intros m [Hm|[? _]]%Hn; [apply is_Some_insert; auto|done].
Qed.

Lemma left_written_inv io self d r self' outs :
  pipe_inv self -> left_written self d (sink_write io (forwarder_shared self) d) = (r, self', outs) -> pipe_inv self'.
Proof.
  intros [Hf Hc] E. destruct (sink_write _ _ _) as [[w fw] o] eqn:Ew. apply (write_law _ _ _ _ _ _ Hf) in Ew as [Hf' Hw].
  assert (pipe_inv (mkPipe (udp_connections self) fw)) as Hp.
  { apply pipe_inv_intro; [done|]. intros m Hm%Hw. auto. }
  destruct w as [[]|]; by injection E as <- <- <-.
Qed.

Lemma left_round_inv io now now' self d r self' outs :
  pipe_inv self -> left_round io now now' self d = (r, self', outs) -> pipe_inv self'.
Proof.
  intros Hi E. unfold left_round in E.
  destruct (left_on_udp_packet _ _ _ _ _) as [[[]|e] s1] eqn:El;
    apply (left_on_udp_packet_inv _ _ _ _ _ _ _ Hi) in El; [|by injection E as <- <- <-]. by eapply left_written_inv.
Qed.

Lemma left_cancelled_inv now self meta : pipe_inv self -> pipe_inv (left_cancelled now self meta).
Proof.
  intros [Hf Hc]. unfold left_cancelled. destruct (udp_connections self !! _); [done|].
  apply pipe_inv_intro; [done|]. intros m Hm. apply is_Some_insert. auto.
Qed.

Lemma right_round_inv written now self status r self' outs :
  pipe_inv self -> (forall m e, status = UdpClose m e -> ~ carries (forwarder_shared self) m) ->
  right_round written now self status = (r, self', outs) -> pipe_inv self'.
Proof.
  intros [Hf Hc] Hclose E. destruct status as [d|m e]; simpl in E.
  - destruct written as [s|]; [|by injection E as <- <- <-].
    unfold right_on_udp_packet in E. destruct (udp_connections self !! _) as [c|] eqn:Ec; [|by injection E as <- <- <-].
    destruct (register_incoming_packet now c) as [[] c'].
    + injection E as <- <- <-. apply pipe_inv_intro; [done|]. intros m Hm. apply is_Some_insert. auto.
    + injection E as <- <- <-. cbn [udp_connections forwarder_shared].
      pose proof (closed_law _ (ud_meta d) (ud_meta d) Hf) as [Hf' _]. apply pipe_inv_intro; [done|].
      intros m Hm. apply (closed_law _ _ _ Hf) in Hm as [Hm Hne]. rewrite lookup_delete_ne by done.
      apply is_Some_insert. auto.
  - injection E as <- <- <-. apply pipe_inv_intro; [done|]. intros m' Hm'.
    rewrite lookup_delete_ne; [auto|]. intros ->. by apply (Hclose m' e).
Qed.

Lemma right_exchange_inv `{!ForwardCloses St Io Ev} evs written now self r self' outs :
  pipe_inv self -> right_exchange evs written now self = (r, self', outs) -> pipe_inv self'.
Proof.
  intros [Hf Hc] E. unfold right_exchange in E. destruct (source_read _ _) as [s fw] eqn:Es.
  pose proof (read_law _ _ _ _ Hf Es) as (Hf' & Hsub & Hclose).
  assert (pipe_inv (mkPipe (udp_connections self) fw)) as Hp by (apply pipe_inv_intro; auto).
  destruct s as [[status|]|]; [|by injection E as <- <- <-..].
  eapply right_round_inv; [exact Hp| |exact E]. intros m e ->. by eapply Hclose.
Qed.

(** The timer removes the listed connections and closes their sockets. *)
Lemma expire_all l self m :
  fw_inv (forwarder_shared self) ->
  let self' := fold_left expire l self in
  fw_inv (forwarder_shared self') /\
  udp_connections self' !! m = (if decide (m ∈ l) then None else udp_connections self !! m) /\
  (carries (forwarder_shared self') m <-> carries (forwarder_shared self) m /\ m ∉ l).
Proof.
  revert self. induction l as [|k l IH]; intros self Hf; cbn [fold_left].
  { split; [done|]. split; [done|]. set_solver. }
  pose proof (closed_law _ (reversed k) m Hf) as [Hf' Hcl]. rewrite reversed_involutive in Hcl.
  destruct (IH (expire self k) Hf') as (Hi & El & Ec). split; [done|]. split.
  - rewrite El. unfold expire. cbn [udp_connections]. destruct (decide (m = k)) as [->|].
    + rewrite lookup_delete_eq, (decide_True (P := k ∈ k :: l)) by set_solver. by destruct (decide _).
    + rewrite lookup_delete_ne by done. destruct (decide (m ∈ l)), (decide (m ∈ k :: l)); set_solver.
  - rewrite Ec. unfold expire. cbn [forwarder_shared]. rewrite Hcl. set_solver.
Qed.

Lemma elem_of_expired t conns m :
  m ∈ expired t conns <-> exists c, conns !! m = Some c /\ last_activity c < t.
Proof.
  unfold expired. rewrite list_elem_of_fmap. split.
  - intros ([k c] & -> & [Hlt Hin]%list_elem_of_filter). apply elem_of_map_to_list in Hin. eauto.
  - intros (c & Hc & Hlt). exists (m, c). split; [done|].
    apply list_elem_of_filter. split; [done|]. by apply elem_of_map_to_list.
Qed.

Lemma tick_spec now timeout self m :
  fw_inv (forwarder_shared self) ->
  let self' := on_timer_tick now timeout self in
  fw_inv (forwarder_shared self') /\
  (forall c, udp_connections self' !! m = Some c <->
     udp_connections self !! m = Some c /\ now - timeout <= last_activity c) /\
  (carries (forwarder_shared self') m <-> carries (forwarder_shared self) m /\
     forall c, udp_connections self !! m = Some c -> now - timeout <= last_activity c).
Proof.
  intros Hf. unfold on_timer_tick.
  destruct (expire_all (expired (now - timeout) (udp_connections self)) self m Hf) as (Hi & El & Ec).
  split; [done|]. rewrite El, Ec, elem_of_expired. split.
  - intros c. destruct (decide _) as [Hex|Hnx].
    + apply elem_of_expired in Hex as (c' & Hc' & Hlt). split; [done|]. intros [Hc ?]. simplify_eq. lia.
    + rewrite elem_of_expired in Hnx. split; [|tauto]. intros Hc. split; [done|].
      destruct (Z.le_gt_cases (now - timeout) (last_activity c)); [done|]. destruct Hnx. eauto.
  - apply and_iff_compat_l. split.
    + intros Hn c Hc. destruct (Z.le_gt_cases (now - timeout) (last_activity c)); [done|]. destruct Hn. eauto.
    + intros Hall (c & Hc & Hlt). specialize (Hall c Hc). lia.
Qed.

Lemma tick_inv now timeout self : pipe_inv self -> pipe_inv (on_timer_tick now timeout self).
Proof.
  intros [Hf Hc]. split; [by apply (tick_spec now timeout self (mkMeta (mkAddr (IpV4 []) 0) (mkAddr (IpV4 []) 0)) Hf)|].
  intros m Hm. destruct (tick_spec now timeout self m Hf) as (_ & Ht & Hcar).
  apply Hcar in Hm as [Hm Hall]. destruct (Hc m Hm) as [c Hlook]. exists c. apply Ht. auto.
Qed.

Lemma run_inv `{!ForwardCloses St Io Ev} timeout self outs self' :
  pipe_run timeout self outs self' -> pipe_inv self -> pipe_inv self'.
Proof.
  induction 1 as [|? ? ? ? ? ? IH Hs]; [done|]. intros Hi. specialize (IH Hi). destruct Hs.
  - eapply left_round_inv; [exact IH|eassumption].
  - eapply left_on_udp_packet_inv; [exact IH|eassumption].
  - eapply left_written_inv; [exact IH|eassumption].
  - eapply right_exchange_inv; [exact IH|eassumption].
  - by apply left_cancelled_inv.
  - by apply tick_inv.
Qed.

Lemma new_inv st : fw_inv st -> (forall m, ~ carries st m) -> pipe_inv (pipe_new st).
Proof. intros Hf Hn. split; [done|]. intros m Hm. by destruct (Hn m). Qed.

(** What a run sends to targets is what the sink of the multiplexer may send. *)
Lemma left_written_outs io self d r self' outs (P : Output -> Prop) :
  pipe_inv self -> (forall dir n, P (Metrics dir n)) ->
  (forall st r st' outs, fw_inv st -> sink_write io st d = (r, st', outs) -> Forall P outs) ->
  left_written self d (sink_write io (forwarder_shared self) d) = (r, self', outs) -> Forall P outs.
Proof.
  intros [Hf Hc] Hm Hw E. destruct (sink_write _ _ _) as [[w fw] o] eqn:Ew. apply (Hw _ _ _ _ Hf) in Ew as Ho.
  destruct w as [[]|]; injection E as <- <- <-; try done. apply Forall_app. auto.
Qed.

Lemma left_round_outs io now now' self d r self' outs (P : Output -> Prop) :
  pipe_inv self -> (forall dir n, P (Metrics dir n)) ->
  (forall st r st' outs, fw_inv st -> sink_write io st d = (r, st', outs) -> Forall P outs) ->
  left_round io now now' self d = (r, self', outs) -> Forall P outs.
Proof.
  intros Hi Hm Hw E. unfold left_round in E.
  destruct (left_on_udp_packet _ _ _ _ _) as [[[]|e] s1] eqn:El;
    apply (left_on_udp_packet_inv _ _ _ _ _ _ _ Hi) in El; [|by injection E as <- <- <-]. by eapply left_written_outs.
Qed.

Lemma right_exchange_outs evs written now self r self' outs (P : Output -> Prop) :
  (forall dir n, P (Metrics dir n)) -> (forall d, P (ToClient d)) ->
  right_exchange evs written now self = (r, self', outs) -> Forall P outs.
Proof.
  intros Hm Hd E. unfold right_exchange in E. destruct (source_read _ _) as [[[[d|m e]|]|] fw];
    [|by injection E as <- <- <-..]. cbn [right_round] in E.
  destruct written as [s|]; [|by injection E as <- <- <-].
  destruct (right_on_udp_packet _ _ _) as [[] s1]; injection E as <- <- <-; destruct s; auto.
Qed.

Lemma run_outs `{!ForwardCloses St Io Ev} timeout self outs self' (P : Output -> Prop) :
  (forall dir n, P (Metrics dir n)) -> (forall d, P (ToClient d)) ->
  (forall io st d r st' outs, fw_inv st -> sink_write io st d = (r, st', outs) -> Forall P outs) ->
  pipe_inv self -> pipe_run timeout self outs self' -> Forall P outs.
Proof.
  intros Hm Hd Hw Hi Hrun. induction Hrun as [|self outs s1 outs' s2 Hrun IH Hs]; [constructor|].
  apply Forall_app. split; [auto|]. pose proof (run_inv _ _ _ _ Hrun Hi) as Hi1. destruct Hs; try constructor.
  - eapply left_round_outs; [exact Hi1|done|intros; by eapply Hw|eassumption].
  - eapply left_written_outs; [exact Hi1|done|intros; by eapply Hw|eassumption].
  - eapply right_exchange_outs; [done..|eassumption].
Qed.

(** ** Plain DNS *)

(** The answers of a DNS connection are counted against its queries. *)
Lemma left_round_counts io now now' self d c q r self' outs :
  udp_connections self !! meta_from (du_meta d) = Some c -> plain_dns_info c = Some q -> 0 <= q < 2 ^ 64 - 1 ->
  left_round io now now' self d = (r, self', outs) ->
  udp_connections self' !! meta_from (du_meta d) = Some (mkConnection now (Some (q + 1))).
Proof.
  intros Hc Hq Hlt E. unfold left_round, left_on_udp_packet in E. rewrite Hc in E. cbn [forwarder_shared] in E.
  assert (register_outgoing_packet now c = mkConnection now (Some (q + 1))) as Hr.
  { unfold register_outgoing_packet, as_u64. by rewrite Hq, Z.mod_small by lia. }
  rewrite Hr in E. destruct (sink_write _ _ _) as [[[[]|] fw] o]; injection E as <- <- <-; simpl;
    by rewrite lookup_insert_eq.
Qed.

End pipe_proofs.

(** A sequence of answers read from the target, as rounds of the right half. *)
Fixpoint right_rounds {St Io Ev} `{UdpMultiplexer St Io Ev} (self : PipeShared St)
    (l : list (SendStatus * Z * UdpDatagram)) : result ErrorKind unit * PipeShared St :=
  match l with
  | [] => (Ok tt, self)
  | (s, now, d) :: l =>
      match right_round (Ok s) now self (Read d) with
      | (Ok _, self, _) => right_rounds self l
      | (Err e, self, _) => (Err e, self)
      end
  end.

Section dns.
Context {St Io Ev : Type} `{UdpMultiplexer St Io Ev}.
Implicit Types self : PipeShared St.

Lemma right_rounds_dns m c q self (l : list (SendStatus * Z * UdpDatagram)) :
  udp_connections self !! m = Some c -> plain_dns_info c = Some q -> len l <= q ->
  Forall (fun p => ud_meta p.2 = reversed m) l -> l <> [] ->
  exists now', right_rounds self l = (Ok tt,
    if len l =? q then mkPipe (delete m (udp_connections self))
                         (on_connection_closed (forwarder_shared self) (reversed m))
    else mkPipe (<[m := mkConnection now' (Some (q - len l))]> (udp_connections self)) (forwarder_shared self)).
Proof.
  revert c q self. induction l as [|[[s now] d] l IH]; intros c q self Hc Hq Hl Hall Hne; [done|].
  apply Forall_cons in Hall as [Hd Hall]. simpl in Hd. rewrite len_cons in Hl. pose proof (len_nonneg l).
  cbn [right_rounds right_round]. unfold right_on_udp_packet.
  rewrite Hd, reversed_involutive, Hc. unfold register_incoming_packet. rewrite Hq, Z.max_r by lia.
  rewrite len_cons. destruct (Z.eqb_spec (q - 1) 0) as [E0|E0].
  - assert (l = []) as -> by (apply len_nil_inv; lia). cbn [right_rounds udp_connections forwarder_shared].
    exists 0. change (len []) with 0. rewrite (proj2 (Z.eqb_eq _ _)) by lia. by rewrite delete_insert_eq.
  - destruct l as [|p l].
    + exists now. change (len []) with 0. rewrite (proj2 (Z.eqb_neq _ _)) by lia. by rewrite Z.add_0_r.
    + destruct (IH (mkConnection now (Some (q - 1))) (q - 1)
        (mkPipe (<[m:=mkConnection now (Some (q - 1))]> (udp_connections self)) (forwarder_shared self)))
        as [now' ->]; [cbn [udp_connections]; by rewrite lookup_insert_eq|done|lia|done|done|].
      exists now'. cbn [udp_connections forwarder_shared].
      rewrite delete_insert_eq, insert_insert_eq.
      replace (1 + len (p :: l) =? q) with (len (p :: l) =? q - 1) by (case_bool; case_bool; lia || done).
      replace (q - 1 - len (p :: l)) with (q - (1 + len (p :: l))) by lia. done.
Qed.

End dns.
