(* ===== verification/UdpForwarder.v ===== *)
(** * The direct UDP forwarder

    lib/src/udp_forwarder.rs: one connected socket per client and target, waited on by
    the source of the pipe.  The multiplexer implements the interface of the pipe. *)

From S2P Require Import Prelude.
From S2P Require Import Codecs.
From S2P Require Import Varint.
From S2P Require Import NetUtils.
From S2P Require Import Icmp.
From S2P Require Import Datagram.
From S2P Require Import UdpPipe.

(** A socket: its descriptor and the peer it is connected to. *)
Record Connection : Type := mkSocket {
  socket : Z;
  peer : SocketAddr;
  being_listened : bool;
}.

(** The multiplexer of an endpoint whose setting [allow_private_network_connections]
    is [allow].  [wake_full] tells whether the wake channel, of capacity one, holds a
    message; [polled] is the set of sockets in the current [select_all]. *)
Record DirectMux (allow : bool) : Type := mkDirect {
  connections : gmap UdpDatagramMeta Connection;
  wake_full : bool;
  pending_closures : list (UdpDatagramMeta * ErrorKind);
  polled : list (UdpDatagramMeta * Z);
}.
Arguments mkDirect {allow}.
Arguments connections {allow}.
Arguments wake_full {allow}.
Arguments pending_closures {allow}.
Arguments polled {allow}.

(** The outcomes of the system calls of a round: creating the socket, sending, and
    whether the receiver of the wake channel is gone. *)
Record DirectIo : Type := mkDirectIo {
  io_socket : result ErrorKind Z;
  io_send : result ErrorKind unit;
  io_wake_closed : bool;
}.

(** What the source can wake up for; [recv] is the outcome of [try_recv_buf]. *)
Inductive PollEvent : Type :=
| Readable (m : UdpDatagramMeta) (recv : result ErrorKind bytes)
| WaitFailed (m : UdpDatagramMeta) (e : ErrorKind)
| Woken
| WakeSenderDropped.

Inductive PollStatus : Type :=
| PendingRead (m : UdpDatagramMeta)
| SocketError (m : UdpDatagramMeta) (e : ErrorKind).

Section direct.
Context {allow : bool}.
Implicit Types self : DirectMux allow.

Definition make_multiplexer : DirectMux allow := mkDirect ∅ false [] [].

Definition with_connections self (m : gmap UdpDatagramMeta Connection) : DirectMux allow :=
  mkDirect m (wake_full self) (pending_closures self) (polled self).

Definition direct_on_new_udp_connection (io : DirectIo) self (meta : DownUdpDatagramMeta)
  : result ErrorKind unit * DirectMux allow :=
  let dest_ip := addr_ip (dm_destination meta) in
  if negb allow && negb (is_global_ip dest_ip) then (Err PermissionDenied, self)
  else
    match connections self !! meta_from meta with
    | Some _ => (Err Other, self)
    | None =>
        match io_socket io with
        | Err e => (Err e, self)
        | Ok s =>
            (Ok tt, with_connections self
                      (<[meta_from meta := mkSocket s (dm_destination meta) false]> (connections self)))
        end
    end.

Definition direct_on_connection_closed self (meta : UdpDatagramMeta) : DirectMux allow :=
  with_connections self (delete (reversed meta) (connections self)).

(** [MultiplexerSink::write]. *)
Definition direct_write (io : DirectIo) self (d : DownUdpDatagram)
  : result ErrorKind SendStatus * DirectMux allow * list Output :=
  let meta := meta_from (du_meta d) in
  match connections self !! meta with
  | None => (Err NotFound, self, [])
  | Some conn =>
      match io_send io with
      | Err e => (Err e, self, [])
      | Ok _ =>
          let outs := [ToTarget (peer conn) (du_payload d)] in
          if being_listened conn then (Ok Sent, self, outs)
          else if io_wake_closed io then (Err Other, self, outs)
          else
            (Ok Sent,
             mkDirect (<[meta := mkSocket (socket conn) (peer conn) true]> (connections self)) true
               (pending_closures self) (polled self), outs)
      end
  end.

Definition direct_on_socket_error self (meta : UdpDatagramMeta) (error : ErrorKind) : DirectMux allow :=
  match connections self !! meta with
  | Some _ =>
      mkDirect (delete meta (connections self)) (wake_full self)
        (pending_closures self ++ [(meta, error)]) (polled self)
  | None => self
  end.

Definition read_pending_socket self (meta : UdpDatagramMeta) (recv : result ErrorKind bytes)
  : option UdpDatagramReadStatus * DirectMux allow :=
  match connections self !! meta with
  | None => (None, self)
  | Some _ =>
      match recv with
      | Ok buffer => (Some (Read (mkUdp (reversed meta) buffer)), self)
      | Err WouldBlock => (None, self)
      | Err e => (None, direct_on_socket_error self meta e)
      end
  end.

(** The sockets that a poll waits on. *)
Definition start_poll self : DirectMux allow :=
  mkDirect (connections self) (wake_full self) (pending_closures self)
    ((fun p => (p.1, socket p.2)) <$> map_to_list (connections self)).

(** [poll_events] woken by [ev]; [Woken] happens only when the channel holds a message. *)
Definition poll_events (ev : PollEvent) self : result ErrorKind (option PollStatus) * DirectMux allow :=
  match ev with
  | Readable m _ => (Ok (Some (PendingRead m)), self)
  | WaitFailed m e => (Ok (Some (SocketError m e)), self)
  | Woken => (Ok None, mkDirect (connections self) false (pending_closures self) (polled self))
  | WakeSenderDropped => (Err UnexpectedEof, self)
  end.

(** [MultiplexerSource::read]: the loop goes round once per event. *)
Fixpoint direct_read (evs : list PollEvent) self
  : option (result ErrorKind UdpDatagramReadStatus) * DirectMux allow :=
  match pending_closures self with
  | (meta, error) :: rest =>
      (Some (Ok (UdpClose meta error)), mkDirect (connections self) (wake_full self) rest (polled self))
  | [] =>
      let self := start_poll self in
      match evs with
      | [] => (None, self)
      | ev :: evs =>
          match poll_events ev self with
          | (Err e, self) => (Some (Err e), self)
          | (Ok None, self) => direct_read evs self
          | (Ok (Some (PendingRead meta)), self) =>
              match read_pending_socket self meta
                      (match ev with Readable _ recv => recv | _ => Err WouldBlock end) with
              | (Some x, self) => (Some (Ok x), self)
              | (None, self) => direct_read evs self
              end
          | (Ok (Some (SocketError meta e)), self) => direct_read evs (direct_on_socket_error self meta e)
          end
      end
  end.

#[export] Instance direct_mux : UdpMultiplexer (DirectMux allow) DirectIo PollEvent := {
  on_new_udp_connection := direct_on_new_udp_connection;
  on_connection_closed := direct_on_connection_closed;
  sink_write := direct_write;
  source_read := direct_read;
}.

(** ** The laws of the interface *)

(** Targets that the settings admit. *)
Definition admitted (a : SocketAddr) : Prop := allow = true \/ is_global_ip (addr_ip a) = true.

(** A socket is connected to the target of its key, which is admitted. *)
Definition sound_connections (conns : gmap UdpDatagramMeta Connection) : Prop :=
  map_Forall (fun m c => peer c = um_destination m /\ admitted (peer c)) conns.

(** The source waits on every socket that was written to, or will be woken up. *)
Definition listening self : Prop :=
  map_Forall (fun m c => being_listened c = true -> (m, socket c) ∈ polled self \/ wake_full self = true)
    (connections self).

Definition direct_inv self : Prop :=
  pending_closures self = [] /\ sound_connections (connections self) /\ listening self.

(** Inside [read]: a closure waits only for the next round, and its socket is gone. *)
Definition reading self : Prop :=
  sound_connections (connections self) /\
  (pending_closures self = [] \/
   exists m e, pending_closures self = [(m, e)] /\ connections self !! m = None /\ listening self).

Lemma start_poll_listening self : listening (start_poll self).
Proof.
  intros m c Hc _. left. apply list_elem_of_fmap. exists (m, c). split; [done|]. by apply elem_of_map_to_list.
Qed.

Lemma delete_listening self k w p pc :
  listening self -> wake_full self = w -> polled self = p ->
  listening (mkDirect (delete k (connections self)) w pc p).
Proof.
  intros Hl <- <- m c Hc Hb. cbn [connections] in Hc. apply lookup_delete_Some in Hc as [_ Hc]. exact (Hl m c Hc Hb).
Qed.

Lemma on_socket_error_reading self m e :
  pending_closures self = [] -> sound_connections (connections self) -> listening self ->
  reading (direct_on_socket_error self m e) /\
  connections (direct_on_socket_error self m e) ⊆ connections self.
Proof.
  intros Hp Hs Hl. unfold direct_on_socket_error. destruct (connections self !! m) eqn:E.
  - split; [|apply delete_subseteq]. split; [by apply map_Forall_delete|]. right. exists m, e.
    split; [simpl; by rewrite Hp|]. split; [apply lookup_delete_eq|]. by apply delete_listening.
  - split; [|done]. split; auto.
Qed.

Lemma read_pending_reading self m recv x self' :
  pending_closures self = [] -> sound_connections (connections self) -> listening self ->
  read_pending_socket self m recv = (x, self') ->
  reading self' /\ connections self' ⊆ connections self /\
  (x <> None -> self' = self /\ exists d, x = Some (Read d)).
Proof.
  intros Hp Hs Hl E. assert (reading self) as Hr by (split; auto). unfold read_pending_socket in E.
  destruct (connections self !! m); [|by injection E as <- <-].
  destruct recv as [b|k]; [injection E as <- <-; eauto 10|].
  pose proof (on_socket_error_reading self m k Hp Hs Hl) as [Hr' Hsub].
  by destruct k; injection E as <- <-.
Qed.

Lemma direct_read_inv evs self r self' :
  reading self -> direct_read evs self = (r, self') ->
  direct_inv self' /\ connections self' ⊆ connections self /\
  (forall m e, r = Some (Ok (UdpClose m e)) -> connections self' !! m = None).
Proof.
  revert self. induction evs as [|ev evs IH]; intros self [Hs Hp] E; cbn [direct_read] in E;
    (destruct Hp as [Hp|(m & e & Hp & Hm & Hl)]; rewrite Hp in E;
      [|injection E as <- <-; split; [done|]; split; [done|]; by intros ? ? [= -> ->]]).
  - injection E as <- <-. split; [|done]. split; [done|]. split; [done|]. apply start_poll_listening.
  - pose proof (start_poll_listening self) as Hl. destruct ev as [m recv|m e| |]; cbn [poll_events] in E.
    + destruct (read_pending_socket _ _ _) as [x s1] eqn:Er.
      apply (read_pending_reading (start_poll self) m recv x s1 Hp Hs Hl) in Er as (Hr & Hsub & Hx). destruct x as [x|].
      * injection E as <- <-. destruct (Hx ltac:(done)) as [-> [d [= ->]]]. done.
      * apply (IH _ Hr) in E as (Hi & Hsub' & Hc). split; [done|]. split; [by trans (connections s1)|done].
    + pose proof (on_socket_error_reading (start_poll self) m e Hp Hs Hl) as [Hr Hsub].
      apply (IH _ Hr) in E as (Hi & Hsub' & Hc). split; [done|]. split; [by etrans|done].
    + apply IH in E; [exact E|]. split; [done|]. by left.
    + by injection E as <- <-.
Qed.

Lemma refused_false a :
  negb allow && negb (is_global_ip (addr_ip a)) = false <-> admitted a.
Proof. unfold admitted. destruct allow, (is_global_ip _); simpl; intuition congruence. Qed.

#[export] Instance direct_laws : UdpMultiplexerLaws (DirectMux allow) DirectIo PollEvent.
Proof.
  refine {| carries self m := is_Some (connections self !! m); fw_inv := direct_inv |}.
  - intros io st d r st' Hi E. simpl in E. unfold direct_on_new_udp_connection in E.
    destruct (negb allow && _) eqn:Ea; [injection E as <- <-; by auto|].
    destruct (connections st !! _) eqn:Ec; [injection E as <- <-; by auto|].
    destruct (io_socket io) as [s|]; injection E as <- <-; [|by auto]. destruct Hi as (Hp & Hs & Hl). split.
    + split; [done|]. split.
      * apply map_Forall_insert_2; [|done]. split; [done|]. by apply refused_false.
      * intros m c Hc. cbn [connections with_connections] in Hc. apply lookup_insert_Some in Hc as [[<- <-]|[_ Hc]]; [done|]. exact (Hl m c Hc).
    + intros m. simpl. rewrite lookup_insert_is_Some'. intros [<-|]; auto.
  - intros st m m' (Hp & Hs & Hl). simpl. split.
    + split; [done|]. split; [by apply map_Forall_delete|]. by apply delete_listening.
    + rewrite lookup_delete_is_Some. naive_solver.
  - intros io st d r st' outs (Hp & Hs & Hl) E. simpl in E. unfold direct_write in E.
    destruct (connections st !! _) as [c|] eqn:Ec; [|by injection E as <- <- <-].
    destruct (io_send io); [|by injection E as <- <- <-].
    destruct (being_listened c) eqn:Eb; [by injection E as <- <- <-|].
    destruct (io_wake_closed io); injection E as <- <- <-; [done|]. split.
    + split; [done|]. split; [apply map_Forall_insert_2; [|done]; exact (Hs _ _ Ec)|].
      intros m c' _ _. by right.
    + intros m. simpl. rewrite lookup_insert_is_Some'. split; [intros [<-|]; [by rewrite Ec|done]|auto].
Defined.

#[export] Instance direct_closes : ForwardCloses (DirectMux allow) DirectIo PollEvent.
Proof.
  constructor. intros evs st r st' (Hp & Hs & Hl) E.
  apply direct_read_inv in E as (Hi & Hsub & Hc); [|split; auto]. split; [done|]. split.
  - intros m [c Hm]. exists c. by eapply lookup_weaken.
  - intros m e ->. simpl. rewrite (Hc m e eq_refl). by intros [? ?].
Qed.

End direct.

(** ** The pipe over direct sockets *)

Notation DirectPipe allow := (PipeShared (DirectMux allow)).

Lemma make_multiplexer_inv allow : pipe_inv (pipe_new (make_multiplexer (allow := allow))).
Proof.
  apply new_inv.
  - split; [done|]. split; [apply map_Forall_empty|]. intros m c Hc. cbn [connections make_multiplexer] in Hc. by rewrite lookup_empty in Hc.
  - intros m [c Hc]. cbn in Hc. by rewrite lookup_empty in Hc.
Qed.

Lemma direct_run_inv allow timeout outs (self : DirectPipe allow) :
  pipe_run timeout (pipe_new make_multiplexer) outs self -> pipe_inv self.
Proof. intros Hr. eapply run_inv; [exact Hr|]. apply make_multiplexer_inv. Qed.

(** A failed read closes the socket and reports it at once. *)
Definition closed_socket {allow} (st : DirectMux allow) (m : UdpDatagramMeta) : DirectMux allow :=
  mkDirect (delete m (connections st)) (wake_full st) [] (polled (start_poll st)).

Lemma read_error_closes allow (st : DirectMux allow) m e :
  pending_closures st = [] -> is_Some (connections st !! m) -> e <> WouldBlock ->
  direct_read [Readable m (Err e)] st = (Some (Ok (UdpClose m e)), closed_socket st m).
Proof.
  intros Hp [c Hc] He. cbn [direct_read]. rewrite Hp. cbn [poll_events].
  assert (read_pending_socket (start_poll st) m (Err e) = (None, direct_on_socket_error (start_poll st) m e)) as ->.
  { unfold read_pending_socket. cbn [connections start_poll]. rewrite Hc. by destruct e. }
  unfold direct_on_socket_error. cbn [connections start_poll pending_closures]. rewrite Hc, Hp. done.
Qed.

(** The sink sends only to admitted targets. *)
Definition admitted_output (allow : bool) (o : Output) : Prop :=
  forall a p, o = ToTarget a p -> admitted (allow := allow) a.

Lemma direct_write_outs allow io (st : DirectMux allow) d r st' outs :
  direct_inv st -> direct_write io st d = (r, st', outs) -> Forall (admitted_output allow) outs.
Proof.
  intros (_ & Hs & _) E. unfold direct_write in E.
  destruct (connections st !! _) as [c|] eqn:Ec; [|by injection E as <- <- <-].
  assert (Forall (admitted_output allow) [ToTarget (peer c) (du_payload d)]) as Ho.
  { constructor; [|done]. intros a p [= <- <-]. by apply (Hs _ _ Ec). }
  destruct (io_send io); [|by injection E as <- <- <-].
  destruct (being_listened c); [by injection E as <- <- <-|].
  by destruct (io_wake_closed io); injection E as <- <- <-.
Qed.

(** ** Properties *)

(** C18: in every state that a pipe over the direct forwarder reaches, by any
    interleaving of packets, answers, socket errors, cancellations and ticks, every
    open socket belongs to a connection of the table; a tick therefore closes exactly
    the sockets and connections that were idle for longer than the timeout, and leaves
    the others as they were. *)
Theorem udp_idle_sockets_closed (allow : bool) (timeout now : Z) (outs : list Output)
    (self : DirectPipe allow) (m : UdpDatagramMeta) :
  pipe_run timeout (pipe_new make_multiplexer) outs self ->
  let self' := on_timer_tick now timeout self in
  (is_Some (connections (forwarder_shared self) !! m) -> is_Some (udp_connections self !! m)) /\
  (is_Some (connections (forwarder_shared self') !! m) <->
     is_Some (connections (forwarder_shared self) !! m) /\
     exists c, udp_connections self !! m = Some c /\ now - timeout <= last_activity c) /\
  (forall c, udp_connections self' !! m = Some c <->
     udp_connections self !! m = Some c /\ now - timeout <= last_activity c).
Proof.
  intros Hr. apply direct_run_inv in Hr as [Hf Hc]. split; [apply Hc|].
  destruct (tick_spec now timeout self m Hf) as (_ & Ht & Hcar). split; [|done].
  etrans; [exact Hcar|]. split.
  - intros [Hm Hall]. split; [done|]. destruct (Hc m Hm) as [c Hlook]. exists c. auto.
  - intros [Hm (c' & Hc' & Hle)]. split; [done|]. intros c'' Hc''. by simplify_eq.
Qed.

(** C2: whatever the client sends, a run of the pipe with the direct
    forwarder sends datagrams only to targets that the settings admit: unless private
    networks are allowed, only to global addresses.  Also the round in which the
    exchange fails sends nothing else. *)
Theorem udp_targets_admitted (allow : bool) (timeout : Z) (outs : list Output) (self : DirectPipe allow) :
  pipe_run timeout (pipe_new make_multiplexer) outs self ->
  Forall (admitted_output allow) outs /\
  (forall io now now' d r self' outs',
     left_round io now now' self d = (r, self', outs') -> Forall (admitted_output allow) outs').
Proof.
  intros Hr. split.
  - eapply run_outs; [done|done| |apply make_multiplexer_inv|exact Hr].
    intros io st d r st' o Hi E. exact (direct_write_outs allow io st d r st' o Hi E).
  - intros io now now' d r self' outs' E. eapply left_round_outs; [by eapply direct_run_inv|done| |exact E].
    intros st r' st' o Hi E'. exact (direct_write_outs allow io st d r' st' o Hi E').
Qed.

(** A datagram for a target that the settings refuse is dropped and the
    exchange goes on, but its connection stays in the table; the next datagram of the
    same client and target ends the whole exchange with [NotFound]. *)
Theorem udp_refused_target_ends_exchange (io : DirectIo) (now now' : Z) (self : DirectPipe false)
    (d : DownUdpDatagram) :
  let k := meta_from (du_meta d) in
  udp_connections self !! k = None -> connections (forwarder_shared self) !! k = None ->
  is_global_ip (addr_ip (um_destination k)) = false ->
  exists self1, left_round io now now' self d = (Ok tt, self1, []) /\
    forall io2 t t' d2, meta_from (du_meta d2) = k ->
      exists self2, left_round io2 t t' self1 d2 = (Err NotFound, self2, []).
Proof.
  intros k Hk Hs Hg. unfold left_round at 1, left_on_udp_packet at 1. fold k. rewrite Hk.
  cbn [on_new_udp_connection direct_mux]. unfold direct_on_new_udp_connection.
  change (um_destination k) with (dm_destination (du_meta d)) in Hg. rewrite Hg. cbn [negb andb].
  eexists. split; [done|]. intros io2 t t' d2 Hd2. unfold left_round, left_on_udp_packet.
  rewrite Hd2. cbn [udp_connections forwarder_shared]. rewrite lookup_insert_eq.
  cbn [sink_write direct_mux forwarder_shared udp_connections]. unfold direct_write.
  rewrite Hd2, Hs. eauto.
Qed.

(** When reading a socket fails, the connection is removed from the
    table in the same round, so that the next datagram of the client opens a new
    socket, is sent, and has the source wait on it. *)
Theorem udp_socket_error_recovers (allow : bool) (timeout : Z) (outs : list Output) (self : DirectPipe allow)
    (m : UdpDatagramMeta) (e : ErrorKind) (written : result ErrorKind SendStatus) (now t t' s : Z)
    (d : DownUdpDatagram) :
  pipe_run timeout (pipe_new make_multiplexer) outs self ->
  is_Some (connections (forwarder_shared self) !! m) -> e <> WouldBlock ->
  meta_from (du_meta d) = m -> admitted (allow := allow) (um_destination m) ->
  exists self1 self2,
    right_exchange [Readable m (Err e)] written now self = (Ok tt, self1, []) /\
    udp_connections self1 !! m = None /\ connections (forwarder_shared self1) !! m = None /\
    left_round (mkDirectIo (Ok s) (Ok tt) false) t t' self1 d =
      (Ok tt, self2, [ToTarget (um_destination m) (du_payload d); Metrics Outgoing (len (du_payload d))]) /\
    connections (forwarder_shared self2) !! m = Some (mkSocket s (um_destination m) true) /\
    wake_full (forwarder_shared self2) = true.
Proof.
  intros Hr [c Hc] He Hd Ha. apply direct_run_inv in Hr as [(Hp & _) _].
  assert (direct_read [Readable m (Err e)] (forwarder_shared self) =
    (Some (Ok (UdpClose m e)), closed_socket (forwarder_shared self) m)) as Er by by apply read_error_closes.
  unfold right_exchange. cbn [source_read direct_mux]. rewrite Er. cbn [right_round].
  eexists _, _. split; [reflexivity|]. cbn [udp_connections forwarder_shared].
  split; [apply lookup_delete_eq|]. split; [apply lookup_delete_eq|]. split.
  - unfold left_round, left_on_udp_packet. rewrite Hd. cbn [udp_connections forwarder_shared].
    rewrite lookup_delete_eq. cbn [on_new_udp_connection direct_mux]. unfold direct_on_new_udp_connection.
    change (dm_destination (du_meta d)) with (um_destination (meta_from (du_meta d))). rewrite Hd.
    rewrite (proj2 (refused_false (allow := allow) _) Ha). cbn [connections closed_socket]. rewrite lookup_delete_eq.
    cbn [io_socket]. rewrite lookup_insert_eq. cbn [sink_write direct_mux forwarder_shared].
    unfold direct_write. rewrite Hd. cbn [connections with_connections]. rewrite lookup_insert_eq. reflexivity.
  - cbn. by rewrite lookup_insert_eq.
Qed.

(** A connection to port 53 counts one query per datagram of the client and
    one answer per datagram of the target; it and its socket are closed with the answer
    to the last pending query and not before. *)
Theorem udp_dns_connection_lifetime (allow : bool) (self : PipeShared (DirectMux allow)) (m : UdpDatagramMeta)
    (c : UdpConnection) (q : Z) :
  udp_connections self !! m = Some c -> plain_dns_info c = Some q -> 0 < q < 2 ^ 64 - 1 ->
  (forall io now now' d r self' outs, meta_from (du_meta d) = m ->
     left_round io now now' self d = (r, self', outs) ->
     udp_connections self' !! m = Some (mkConnection now (Some (q + 1)))) /\
  (forall l, Forall (fun p => ud_meta p.2 = reversed m) l -> len l <= q ->
     exists self', right_rounds self l = (Ok tt, self') /\
       (len l = q -> udp_connections self' !! m = None /\ connections (forwarder_shared self') !! m = None) /\
       (len l < q -> forwarder_shared self' = forwarder_shared self /\
          exists now, udp_connections self' !! m = Some (mkConnection now (Some (q - len l))))).
Proof.
  intros Hc Hq Hb. split.
  - intros io now now' d r self' outs <- E. eapply left_round_counts; [exact Hc|exact Hq|lia|exact E].
  - intros l Hall Hl. destruct l as [|p l].
    { exists self. split; [done|]. change (len []) with 0. split; [lia|]. intros _. split; [done|].
      exists (last_activity c). rewrite Hc, Z.sub_0_r, <- Hq. by destruct c. }
    destruct (right_rounds_dns m c q self (p :: l) Hc Hq Hl Hall ltac:(done)) as [now ->].
    eexists. split; [reflexivity|]. destruct (Z.eqb_spec (len (p :: l)) q) as [E|E]; (split; [intros E'|intros Hlt]).
    + cbn [udp_connections forwarder_shared on_connection_closed direct_mux direct_on_connection_closed
           connections with_connections]. by rewrite reversed_involutive, !lookup_delete_eq.
    + lia.
    + lia.
    + split; [done|]. exists now. cbn [udp_connections]. by rewrite lookup_insert_eq.
Qed.

(** *** Witnesses *)

Definition sample_client_addr : SocketAddr := mkAddr (IpV4 [10; 0; 0; 2]) 5000.
Definition sample_target (last port : Z) : SocketAddr := mkAddr (IpV4 [8; 8; 8; last]) port.
Definition private_target : SocketAddr := mkAddr (IpV4 [192; 168; 0; 1]) 80.

Definition sample_datagram (target : SocketAddr) : DownUdpDatagram :=
  mkDownUdp (mkDownMeta sample_client_addr target None) [1; 2; 3].

Definition sample_io : DirectIo := mkDirectIo (Ok 7) (Ok tt) false.

(** The pipe after the client sent one datagram to [target] at time [now]. *)
Definition one_datagram (target : SocketAddr) (now : Z) : DirectPipe false :=
  (left_round sample_io now now (pipe_new make_multiplexer) (sample_datagram target)).1.2.

Lemma one_datagram_run : pipe_run 100 (pipe_new make_multiplexer)
  [ToTarget (sample_target 8 53) [1; 2; 3]; Metrics Outgoing 3] (one_datagram (sample_target 8 53) 5).
Proof.
  apply (run_step 100 _ [] _ [ToTarget (sample_target 8 53) [1; 2; 3]; Metrics Outgoing 3] _ (run_refl 100 _)).
  apply (step_left 100 sample_io 5 5 _ (sample_datagram (sample_target 8 53))). vm_compute. reflexivity.
Defined.

Lemma udp_idle_sockets_closed_witness :
  let m := mkMeta sample_client_addr (sample_target 8 53) in
  is_Some (connections (forwarder_shared (on_timer_tick 100 100 (one_datagram (sample_target 8 53) 5))) !! m) /\
  ~ is_Some (connections (forwarder_shared (on_timer_tick 106 100 (one_datagram (sample_target 8 53) 5))) !! m).
Proof.
  intros m. split.
  - apply (proj1 (proj2 (udp_idle_sockets_closed false 100 100 _ _ m one_datagram_run))).
    split; [vm_compute; eauto|]. exists (mkConnection 5 (Some 1)). split; [vm_compute; reflexivity|vm_compute; discriminate].
  - intros Hs. apply (proj1 (proj2 (udp_idle_sockets_closed false 100 106 _ _ m one_datagram_run))) in Hs.
    destruct Hs as [_ (c & Hc & Hle)]. vm_compute in Hc. injection Hc as <-. cbn in Hle. lia.
Defined.

Lemma udp_targets_admitted_witness :
  Forall (admitted_output false) [ToTarget (sample_target 8 53) [1; 2; 3]; Metrics Outgoing 3].
Proof. apply (proj1 (udp_targets_admitted false 100 _ _ one_datagram_run)). Defined.

Lemma udp_refused_target_ends_exchange_witness :
  exists self1, left_round sample_io 0 0 (pipe_new (make_multiplexer (allow := false))) (sample_datagram private_target)
      = (Ok tt, self1, []) /\
    exists self2, left_round sample_io 1 1 self1 (sample_datagram private_target) = (Err NotFound, self2, []).
Proof.
  destruct (udp_refused_target_ends_exchange sample_io 0 0 (pipe_new (make_multiplexer (allow := false)))
    (sample_datagram private_target)) as (self1 & E & H); [reflexivity..|].
  exists self1. split; [exact E|]. apply H. reflexivity.
Defined.

Lemma udp_socket_error_recovers_witness :
  exists self1 self2,
    right_exchange [Readable (mkMeta sample_client_addr (sample_target 8 53)) (Err Other)] (Ok Sent) 6
      (one_datagram (sample_target 8 53) 5) = (Ok tt, self1, []) /\
    left_round (mkDirectIo (Ok 9) (Ok tt) false) 7 7 self1 (sample_datagram (sample_target 8 53)) =
      (Ok tt, self2, [ToTarget (sample_target 8 53) [1; 2; 3]; Metrics Outgoing 3]).
Proof.
  destruct (udp_socket_error_recovers false 100 _ _ (mkMeta sample_client_addr (sample_target 8 53)) Other
    (Ok Sent) 6 7 7 9 (sample_datagram (sample_target 8 53)) one_datagram_run)
    as (s1 & s2 & E1 & _ & _ & E2 & _); [vm_compute; eauto|done|reflexivity|right; reflexivity|].
  exists s1, s2. split; [exact E1|exact E2].
Defined.

Lemma udp_dns_connection_lifetime_witness :
  let m := mkMeta sample_client_addr (sample_target 8 53) in
  exists self', right_rounds (one_datagram (sample_target 8 53) 5) [(Sent, 6, mkUdp (reversed m) [9])] = (Ok tt, self') /\
    udp_connections self' !! m = None.
Proof.
  intros m. destruct (proj2 (udp_dns_connection_lifetime false (one_datagram (sample_target 8 53) 5) m
    (mkConnection 5 (Some 1)) 1 eq_refl eq_refl ltac:(lia)) [(Sent, 6, mkUdp (reversed m) [9])])
    as (self' & E & Hd & _); [by repeat constructor|vm_compute; discriminate|].
  exists self'. split; [exact E|]. by apply Hd.
Defined.
