(* ===== verification/SocksForwarder.v ===== *)
(** * The SOCKS5 forwarder

    lib/src/socks5_forwarder.rs: TCP connections and UDP associations through a SOCKS5
    proxy.  One association serves all the targets of a client address, so unlike the
    direct forwarder its sink is not tied to the target a connection was opened for. *)

From S2P Require Import Prelude.
From S2P Require Import Codecs.
From S2P Require Import Varint.
From S2P Require Import NetUtils.
From S2P Require Import Icmp.
From S2P Require Import Datagram.
From S2P Require Import Auth.
From S2P Require Import Tunnel.
From S2P Require Import Socks5.
From S2P Require Import UdpPipe.

(** ** Credentials for the proxy *)

(** [b64_decode] is the standard base64 engine; [None] is the error. *)
Definition make_auth (b64_decode : bytes -> option bytes) (auth : Source) : option SocksAuth :=
  match auth with
  | Sni x => Some (UsernamePassword x x)
  | ProxyBasic x =>
      match b64_decode x with
      | None => None
      | Some credentials =>
          if utf8_valid credentials then
            match split_once 0x3A credentials with
            | Some (u, p) => Some (UsernamePassword u p)
            | None => None
            end
          else None
      end
  end.

Definition make_extended_auth (auth : Source) (tls_domain : bytes) (client_address : IpAddr)
    (user_agent : option bytes) : SocksAuth :=
  Extended ([Domain tls_domain; ClientAddress client_address]
            ++ match user_agent with Some u => [UserAgent u] | None => [] end
            ++ match auth with Sni _ => [SniAuth] | ProxyBasic x => [BasicProxyAuth x] end).

(** The settings of the forwarder. *)
Record SocksSettings : Type := mkSocksSettings {
  extended_auth : bool;
  allow_private : bool;
}.

Definition proxy_auth (b64_decode : bytes -> option bytes) (settings : SocksSettings) (auth : Source)
    (tls_domain : bytes) (client_address : IpAddr) (user_agent : option bytes) : option SocksAuth :=
  if extended_auth settings then Some (make_extended_auth auth tls_domain client_address user_agent)
  else make_auth b64_decode auth.

(** ** TCP *)

Definition ip_is_loopback (ip : IpAddr) : bool :=
  match ip with IpV4 o => v4_is_loopback o | IpV6 o => v6_is_loopback o end.

Definition socks_connect_outcome (r : result SocksError ConnectResult) : M (result ConnectionError unit) :=
  match r with
  | Ok TcpConnection => Ret (Ok tt)
  | Ok (UdpAssociation _) => Panic
  | Ok (Failure HostUnreachableReply) => Ret (Err HostUnreachable)
  | Ok (Failure NetworkUnreachable) => Ret (Err HostUnreachable)
  | Ok (Failure ConnectionRefusedReply) => Ret (Err (Tunnel.Io ConnectionRefused))
  | Ok (Failure TtlExpired) => Ret (Err Timeout)
  | Ok (Failure _) => Ret (Err OtherError)
  | Err (SocksIo e) => Ret (Err (Tunnel.Io e))
  | Err SocksProtocol => Ret (Err OtherError)
  | Err SocksAuthentication => Ret (Err Authentication)
  end.

(** The address check before the proxy is contacted. *)
Definition private_refusal (settings : SocksSettings) (destination : TcpDestination) : option ConnectionError :=
  if allow_private settings then None
  else match destination with
       | DestAddress addr =>
           if negb (is_global_ip (addr_ip addr)) then
             Some (if ip_is_loopback (addr_ip addr) then DnsLoopback else DnsNonroutable)
           else None
       | DestHostName _ _ => None
       end.

Definition connect_request (destination : TcpDestination) : SocksRequest :=
  match destination with
  | DestAddress x => Connect (IpAddress (addr_ip x)) (addr_port x)
  | DestHostName h p => Connect (DomainName h) p
  end.

(** The credentials of a connection, if it has any; the outer [None] is an error. *)
Definition connector_auth (b64_decode : bytes -> option bytes) (settings : SocksSettings)
    (meta : TcpConnectionMeta) : option (option SocksAuth) :=
  match tm_auth meta with
  | None => Some None
  | Some x =>
      match proxy_auth b64_decode settings x (tm_tls_domain meta) (tm_client_address meta) (tm_user_agent meta) with
      | Some a => Some (Some a)
      | None => None
      end
  end.

(** [TcpConnector::connect]; [stream] is the connection to the proxy, or the error of
    [TcpStream::connect], and the result comes with the connection afterwards. *)
Definition socks_tcp_connect (b64_decode : bytes -> option bytes) (settings : SocksSettings) (env : UdpEnv)
    (stream : result ErrorKind Conn) (meta : TcpConnectionMeta)
  : M (result ConnectionError unit * option Conn) :=
  match private_refusal settings (tm_destination meta) with
  | Some e => Ret (Err e, None)
  | None =>
      match stream with
      | Err e => Ret (Err (Tunnel.Io e), None)
      | Ok conn =>
          match connector_auth b64_decode settings meta with
          | None => Ret (Err OtherError, Some conn)
          | Some auth =>
              let (r, conn) := connect_inner env auth (connect_request (tm_destination meta)) conn in
              let! o := socks_connect_outcome r in
              Ret (o, Some conn)
          end
      end
  end.

(** [DatagramMuxAuthenticator::check_auth]. *)
Definition check_auth (b64_decode : bytes -> option bytes) (settings : SocksSettings) (env : UdpEnv)
    (stream : result ErrorKind Conn) (client_address : IpAddr) (tls_domain : bytes) (auth : Source)
    (user_agent : option bytes) : M (result ConnectionError unit) :=
  match stream with
  | Err e => Ret (Err (Tunnel.Io e))
  | Ok conn =>
      match proxy_auth b64_decode settings auth tls_domain client_address user_agent with
      | None => Ret (Err (Tunnel.Io Other))
      | Some a =>
          match fst (connect_inner env (Some a) UdpAssociate conn) with
          | Ok TcpConnection => Panic
          | Ok (UdpAssociation _) => Ret (Ok tt)
          | Ok (Failure _) => Ret (Err OtherError)
          | Err (SocksIo e) => Ret (Err (Tunnel.Io e))
          | Err SocksProtocol => Ret (Err OtherError)
          | Err SocksAuthentication => Ret (Err Authentication)
          end
      end
  end.

Definition socks_to_io_error (err : SocksError) : ErrorKind :=
  match err with SocksIo e => e | SocksProtocol => Other | SocksAuthentication => Other end.

(** ** UDP associations *)

Record Association : Type := mkAssoc { peers : gset SocketAddr }.

(** The multiplexer; [associations] is keyed by the client's address. *)
Record SocksMux (allow : bool) : Type := mkSocks {
  associations : gmap SocketAddr Association;
  pending_read : option SocketAddr;
  socks_closures : list (UdpDatagramMeta * ErrorKind);
}.
Arguments mkSocks {allow}.
Arguments associations {allow}.
Arguments pending_read {allow}.
Arguments socks_closures {allow}.

(** The outcomes of a round: the connection to the proxy, its answer to the UDP
    ASSOCIATE request (a failure code or the association), a closed waker, and the
    send. *)
Record SocksIoResults : Type := mkSocksIo {
  io_stream : result ErrorKind unit;
  io_associate : result SocksError (option ReplyCode);
  io_waker_closed : bool;
  io_send_to : result SocksError unit;
}.

(** [SocksRecv] is the outcome of [recv_from] on the socket that was readable. *)
Inductive SocksEvent : Type :=
| SocksReadable (source : SocketAddr)
| SocksRecv (r : result SocksError (Z * SocketAddr * bytes))
| SocksWaitFailed (source : SocketAddr) (e : ErrorKind)
| SocksWoken
| SocksWakeSenderDropped.

Section socks.
Context {allow : bool}.
Implicit Types self : SocksMux allow.

Definition make_udp_datagram_multiplexer : SocksMux allow := mkSocks ∅ None [].

Definition with_associations self (m : gmap SocketAddr Association) : SocksMux allow :=
  mkSocks m (pending_read self) (socks_closures self).

Definition socks_on_new_udp_connection (io : SocksIoResults) self (meta : DownUdpDatagramMeta)
  : result ErrorKind unit * SocksMux allow :=
  if negb allow && negb (is_global_ip (addr_ip (dm_destination meta))) then (Err PermissionDenied, self)
  else
    match associations self !! dm_source meta with
    | Some x =>
        (Ok tt, with_associations self
                  (<[dm_source meta := mkAssoc ({[dm_destination meta]} ∪ peers x)]> (associations self)))
    | None =>
        match io_stream io with
        | Err e => (Err e, self)
        | Ok _ =>
            match io_associate io with
            | Err SocksAuthentication => (Err Other, with_associations self ∅)
            | Err e => (Err (socks_to_io_error e), self)
            | Ok (Some _) => (Err Other, self)
            | Ok None =>
                let self := with_associations self
                              (<[dm_source meta := mkAssoc {[dm_destination meta]}]> (associations self)) in
                if io_waker_closed io
                then (Err Other, with_associations self (delete (dm_source meta) (associations self)))
                else (Ok tt, self)
            end
        end
    end.

Definition socks_on_connection_closed self (meta : UdpDatagramMeta) : SocksMux allow :=
  match associations self !! um_destination meta with
  | None => self
  | Some x =>
      let rest := peers x ∖ {[um_source meta]} in
      let removed := delete (um_destination meta) (associations self) in
      with_associations self
        (if bool_decide (rest = ∅) then removed else <[um_destination meta := mkAssoc rest]> removed)
  end.

(** [DatagramSink::write]: the socket is found by the client's address alone. *)
Definition socks_write (io : SocksIoResults) self (d : DownUdpDatagram)
  : result ErrorKind SendStatus * SocksMux allow * list Output :=
  let meta := meta_from (du_meta d) in
  match associations self !! um_source meta with
  | None => (Err NotFound, self, [])
  | Some _ =>
      match io_send_to io with
      | Ok _ => (Ok Sent, self, [ToTarget (um_destination meta) (du_payload d)])
      | Err e => (Err (socks_to_io_error e), self, [])
      end
  end.

(** A lost association closes each of its peers, with the peer as the source. *)
Definition socks_on_socket_error self (source : SocketAddr) (error : ErrorKind) : SocksMux allow :=
  match associations self !! source with
  | None => self
  | Some a =>
      mkSocks (delete source (associations self)) (pending_read self)
        (socks_closures self ++ ((fun p => (mkMeta p source, error)) <$> elements (peers a)))
  end.

(** The datagram of a readable association. *)
Definition socks_datagram (source : SocketAddr) (n : Z) (p : SocketAddr) (data : bytes) : UdpDatagramReadStatus :=
  Read (mkUdp (mkMeta p source)
          (take (Z.to_nat n) (data ++ replicate (Z.to_nat (MAX_UDP_PAYLOAD_SIZE - len data)) 0))).

Definition socks_poll_events (ev : SocksEvent) self
  : result ErrorKind (option (SocketAddr * ErrorKind)) * SocksMux allow :=
  match ev with
  | SocksReadable source => (Ok None, mkSocks (associations self) (Some source) (socks_closures self))
  | SocksWaitFailed source e => (Ok (Some (source, e)), self)
  | SocksWakeSenderDropped => (Err UnexpectedEof, self)
  | SocksWoken | SocksRecv _ => (Ok None, self)
  end.

(** [DatagramSource::read]; a pending read takes its outcome from the next event. *)
Fixpoint socks_read (evs : list SocksEvent) self
  : option (result ErrorKind UdpDatagramReadStatus) * SocksMux allow :=
  let taken := mkSocks (associations self) None (socks_closures self) in
  let pending := match pending_read self with
                 | Some source => if decide (is_Some (associations self !! source)) then Some source else None
                 | None => None
                 end in
  match pending, evs with
  | Some _, [] => (None, taken)
  | Some source, SocksRecv (Ok (n, p, data)) :: _ => (Some (Ok (socks_datagram source n p data)), taken)
  | Some source, SocksRecv (Err e) :: evs => socks_read evs (socks_on_socket_error taken source (socks_to_io_error e))
  | Some _, _ :: evs => socks_read evs self
  | None, evs =>
      match socks_closures taken with
      | (meta, error) :: rest =>
          (Some (Ok (UdpClose meta error)), mkSocks (associations taken) (pending_read taken) rest)
      | [] =>
          match evs with
          | [] => (None, taken)
          | ev :: evs =>
              match socks_poll_events ev taken with
              | (Err e, self) => (Some (Err e), self)
              | (Ok None, self) => socks_read evs self
              | (Ok (Some (source, e)), self) => socks_read evs (socks_on_socket_error self source e)
              end
          end
      end
  end.

#[export] Instance socks_mux : UdpMultiplexer (SocksMux allow) SocksIoResults SocksEvent := {
  on_new_udp_connection := socks_on_new_udp_connection;
  on_connection_closed := socks_on_connection_closed;
  sink_write := socks_write;
  source_read := socks_read;
}.

End socks.

(** ** The laws of the interface *)

Section socks_laws.
Context {allow : bool}.
Implicit Types self : SocksMux allow.

Definition socks_carries self (m : UdpDatagramMeta) : Prop :=
  exists a, associations self !! um_source m = Some a /\ um_destination m ∈ peers a.

Lemma socks_carries_insert self k a m :
  socks_carries (with_associations self (<[k := a]> (associations self))) m <->
  (um_source m = k /\ um_destination m ∈ peers a) \/ (um_source m <> k /\ socks_carries self m).
Proof.
  unfold socks_carries. cbn [associations with_associations]. destruct (decide (um_source m = k)) as [<-|Hne].
  - rewrite lookup_insert_eq. naive_solver.
  - rewrite lookup_insert_ne by done. naive_solver.
Qed.

Lemma socks_carries_delete self k m :
  socks_carries (with_associations self (delete k (associations self))) m <->
  um_source m <> k /\ socks_carries self m.
Proof.
  unfold socks_carries. cbn [associations with_associations]. destruct (decide (um_source m = k)) as [<-|Hne].
  - rewrite lookup_delete_eq. naive_solver.
  - rewrite lookup_delete_ne by done. naive_solver.
Qed.

Lemma socks_new_law io self d r self' :
  socks_on_new_udp_connection io self d = (r, self') ->
  forall m, socks_carries self' m -> socks_carries self m \/ (r = Ok tt /\ m = meta_from d).
Proof.
  unfold socks_on_new_udp_connection. intros E m Hm.
  destruct (negb allow && _); [injection E as <- <-; by left|].
  destruct (associations self !! dm_source d) as [x|] eqn:Ea.
  - injection E as <- <-. apply socks_carries_insert in Hm as [[Hs Hd]|[_ Hm]]; [|by left].
    cbn [peers] in Hd. apply elem_of_union in Hd as [Hd%elem_of_singleton|Hd].
    + right. split; [done|]. destruct m; simpl in *. by subst.
    + left. exists x. by rewrite Hs.
  - destruct (io_stream io); [|injection E as <- <-; by left].
    destruct (io_associate io) as [[code|]|[]]; try (injection E as <- <-; by left).
    + destruct (io_waker_closed io); injection E as <- <-.
      * apply socks_carries_delete in Hm as [Hne Hm]. apply socks_carries_insert in Hm as [[? _]|[_ Hm]]; [done|by left].
      * apply socks_carries_insert in Hm as [[Hs Hd]|[_ Hm]]; [|by left]. cbn [peers] in Hd.
        apply elem_of_singleton in Hd. right. split; [done|]. destruct m; simpl in *. by subst.
    + injection E as <- <-. destruct Hm as (x & Hl & _). cbn in Hl. by rewrite lookup_empty in Hl.
Qed.

Lemma socks_closed_law self m m' :
  socks_carries (socks_on_connection_closed self m) m' <-> socks_carries self m' /\ m' <> reversed m.
Proof.
  unfold socks_on_connection_closed.
  assert (m' = reversed m <-> um_source m' = um_destination m /\ um_destination m' = um_source m) as ->.
  { destruct m, m'; unfold reversed; simpl. naive_solver. }
  destruct (associations self !! um_destination m) as [x|] eqn:Ea.
  - destruct (bool_decide_reflect (peers x ∖ {[um_source m]} = ∅)) as [He|He].
    + rewrite socks_carries_delete. split.
      * intros [Hne Hm]. split; [done|]. tauto.
      * intros [Hm Hne]. split; [|done]. intros Hs. destruct Hm as (a & Hl & Hin). rewrite Hs, Ea in Hl.
        injection Hl as <-. apply Hne. split; [done|]. set_solver.
    + rewrite insert_delete_eq, socks_carries_insert. cbn [peers]. rewrite elem_of_difference, elem_of_singleton. split.
      * intros [[Hs [Hin Hne]]|[Hne Hm]]; [|tauto]. split; [|tauto]. exists x. by rewrite Hs.
      * intros [Hm Hne]. destruct (decide (um_source m' = um_destination m)) as [Hs|Hs]; [left|by right].
        split; [done|]. destruct Hm as (a & Hl & Hin). rewrite Hs, Ea in Hl. injection Hl as <-. tauto.
  - split; [|tauto]. intros Hm. split; [done|]. intros [Hs _]. destruct Hm as (a & Hl & _). by rewrite Hs, Ea in Hl.
Qed.

#[export] Instance socks_mux_laws : UdpMultiplexerLaws (SocksMux allow) SocksIoResults SocksEvent.
Proof.
  refine {| carries := socks_carries; fw_inv _ := True |}.
  - intros io st d r st' _ E. split; [done|]. eapply socks_new_law, E.
  - intros st m m' _. split; [done|]. apply socks_closed_law.
  - intros io st d r st' outs _ E. simpl in E. unfold socks_write in E. split; [done|].
    destruct (associations st !! _); [|by injection E as <- <- <-].
    by destruct (io_send_to io); injection E as <- <- <-.
Defined.

End socks_laws.

Notation SocksPipe allow := (PipeShared (SocksMux allow)).

(** A CONNECT request never ends in an association, nor a UDP ASSOCIATE request in a
    TCP connection: the [unreachable!] arms are. *)
Lemma conclude_kind env request reply c r c' :
  conclude env request reply c = (Ok r, c') ->
  match r, request with TcpConnection, UdpAssociate | UdpAssociation _, Connect _ _ => False | _, _ => True end.
Proof.
  unfold conclude, bindIO, lift, ret, fail. destruct (reply_code reply), request; intros E; try by inversion E.
  destruct (bound_address reply); [|done]. by destruct (udp_connect env _); inversion E.
Qed.

Lemma connect_inner_kind env auth request c r c' :
  connect_inner env auth request c = (Ok r, c') ->
  match r, request with TcpConnection, UdpAssociate | UdpAssociation _, Connect _ _ => False | _, _ => True end.
Proof.
  unfold connect_inner, bindIO. destruct (negotiate auth c) as [[]c1]; [|done].
  destruct (request_destination env request c1) as [[[d p]|] c2]; [|done].
  destruct (write_request _ d p c2) as [[] c3]; [|done]. destruct (read_reply c3) as [[reply|] c4]; [|done].
  apply conclude_kind.
Qed.

Lemma make_auth_basic enc dec `{!Base64Laws enc dec} u p :
  0x3A ∉ u -> wf_bytes (userpass u p) -> utf8_valid (userpass u p) = true ->
  make_auth dec (ProxyBasic (enc (userpass u p))) = Some (UsernamePassword u p).
Proof.
  intros Hu Hw Hv. simpl. rewrite b64_decode_encode by done. rewrite Hv. unfold userpass.
  by rewrite split_once_app by done.
Qed.

(** ** Properties *)

(** The connector never panics; without permission for private networks
    it refuses every non-global address without contacting the proxy; and it reports a
    connection only after the proxy completed the handshake for it. *)
Theorem socks_tcp_connect_safe (b64_decode : bytes -> option bytes) (settings : SocksSettings) (env : UdpEnv)
    (stream : result ErrorKind Conn) (meta : TcpConnectionMeta) :
  exists o c, socks_tcp_connect b64_decode settings env stream meta = Ret (o, c) /\
    (forall a, tm_destination meta = DestAddress a -> allow_private settings = false ->
       is_global_ip (addr_ip a) = false ->
       c = None /\ o = Err (if ip_is_loopback (addr_ip a) then DnsLoopback else DnsNonroutable)) /\
    (o = Ok tt -> exists conn conn' auth, stream = Ok conn /\ c = Some conn' /\
       connect_inner env auth (connect_request (tm_destination meta)) conn = (Ok TcpConnection, conn')).
Proof.
  unfold socks_tcp_connect. destruct (private_refusal settings (tm_destination meta)) as [e|] eqn:Er.
  { exists (Err e), None. split; [done|]. split; [|done]. intros a Ha Hp Hg. unfold private_refusal in Er.
    rewrite Hp, Ha, Hg in Er. injection Er as <-. done. }
  assert (forall a, tm_destination meta = DestAddress a -> allow_private settings = false ->
    is_global_ip (addr_ip a) = false -> False) as Hno.
  { intros a Ha Hp Hg. unfold private_refusal in Er. by rewrite Hp, Ha, Hg in Er. }
  destruct stream as [conn|e]; [|eexists _, _; split; [done|]; split; [|done]; intros; by destruct (Hno a)].
  destruct (connector_auth b64_decode settings meta) as [auth|];
    [|eexists _, _; split; [done|]; split; [|done]; intros; by destruct (Hno a)].
  destruct (connect_inner env auth _ conn) as [r conn'] eqn:Ec.
  assert (exists o, socks_connect_outcome r = Ret o /\ (o = Ok tt -> r = Ok TcpConnection)) as (o & -> & Ho).
  { destruct r as [[| |code]|[]]; simpl; try (eexists; by split).
    - apply connect_inner_kind in Ec. by destruct (tm_destination meta).
    - destruct code; eexists; (split; [reflexivity|done]). }
  exists o, (Some conn'). split; [done|]. split; [intros; by destruct (Hno a)|].
  intros Hok. rewrite (Ho Hok) in Ec. eauto 10.
Qed.

(** The restriction to global targets does not hold for UDP through
    the proxy.  Once a client has an association, its first datagram for a private
    target is refused, but every later one for the same target is sent to it. *)
Theorem socks_udp_reaches_private_target (io io2 : SocksIoResults) (t t' t2 t2' : Z) (self : SocksPipe false)
    (d d2 : DownUdpDatagram) :
  let k := meta_from (du_meta d) in
  udp_connections self !! k = None ->
  is_Some (associations (forwarder_shared self) !! um_source k) ->
  is_global_ip (addr_ip (um_destination k)) = false ->
  meta_from (du_meta d2) = k -> io_send_to io2 = Ok tt ->
  exists self1 self2,
    left_round io t t' self d = (Ok tt, self1, []) /\
    left_round io2 t2 t2' self1 d2 =
      (Ok tt, self2, [ToTarget (um_destination k) (du_payload d2); Metrics Outgoing (len (du_payload d2))]).
Proof.
  intros k Hk [a Ha] Hg Hd2 Hs. unfold left_round at 1, left_on_udp_packet at 1. fold k. rewrite Hk.
  cbn [on_new_udp_connection socks_mux]. unfold socks_on_new_udp_connection.
  change (um_destination k) with (dm_destination (du_meta d)) in *. rewrite Hg. cbn [negb andb].
  eexists _, _. split; [done|]. unfold left_round, left_on_udp_packet.
  rewrite Hd2. cbn [udp_connections forwarder_shared]. rewrite lookup_insert_eq.
  cbn [sink_write socks_mux forwarder_shared udp_connections]. unfold socks_write.
  rewrite Hd2, Ha, Hs. reflexivity.
Qed.

(** When an association fails, the closures are reported with the target
    as the source, which is not the key of the pipe: the connections of the client stay
    in the table, and its next datagram ends the exchange with [NotFound]. *)
Theorem socks_lost_association_ends_exchange (allow : bool) (self : SocksPipe allow) (m : UdpDatagramMeta)
    (a : Association) (e : SocksError) (written : result ErrorKind SendStatus) (now : Z) :
  is_Some (udp_connections self !! m) -> associations (forwarder_shared self) !! um_source m = Some a ->
  um_destination m ∈ peers a -> um_destination m <> um_source m ->
  pending_read (forwarder_shared self) = None -> socks_closures (forwarder_shared self) = [] ->
  exists self1,
    right_exchange [SocksReadable (um_source m); SocksRecv (Err e)] written now self = (Ok tt, self1, []) /\
    is_Some (udp_connections self1 !! m) /\
    forall io t t' d, meta_from (du_meta d) = m ->
      exists self2, left_round io t t' self1 d = (Err NotFound, self2, []).
Proof.
  intros [c Hc] Ha Hin Hne Hpr Hcl. unfold right_exchange. cbn [source_read socks_mux socks_read].
  rewrite Hpr. cbn [socks_closures]. rewrite Hcl. cbn [socks_poll_events associations pending_read].
  rewrite decide_True by (rewrite Ha; eauto).
  unfold socks_on_socket_error. cbn [associations socks_closures pending_read]. rewrite Ha. cbn [app].
  destruct (elements (peers a)) as [|p ps] eqn:Ep.
  { apply elem_of_elements in Hin. rewrite Ep in Hin. by apply not_elem_of_nil in Hin. }
  cbn [fmap list_fmap right_round udp_connections forwarder_shared pending_read].
  assert (mkMeta p (um_source m) <> m) as Hkey by (destruct m; simpl in *; intros [= -> ->]; done).
  eexists. split; [reflexivity|]. cbn [udp_connections]. rewrite lookup_delete_ne by done. split; [eauto|].
  intros io t t' d Hd. unfold left_round, left_on_udp_packet. rewrite Hd.
  cbn [udp_connections forwarder_shared]. rewrite lookup_delete_ne by done. rewrite Hc.
  cbn [sink_write socks_mux forwarder_shared udp_connections]. unfold socks_write. rewrite Hd.
  cbn [associations]. rewrite lookup_delete_eq. eauto.
Qed.

(** *** Witnesses *)

Definition sample_source : SocketAddr := mkAddr (IpV4 [10; 0; 0; 2]) 5000.
Definition public_target : SocketAddr := mkAddr (IpV4 [8; 8; 8; 8]) 443.
Definition router_target : SocketAddr := mkAddr (IpV4 [192; 168; 0; 1]) 80.

Definition socks_datagram_to (target : SocketAddr) : DownUdpDatagram :=
  mkDownUdp (mkDownMeta sample_source target None) [1; 2].

Definition socks_io_ok : SocksIoResults := mkSocksIo (Ok tt) (Ok None) false (Ok tt).

(** The pipe after a datagram to a public target. *)
Definition associated : SocksPipe false :=
  (left_round socks_io_ok 0 0 (pipe_new make_udp_datagram_multiplexer) (socks_datagram_to public_target)).1.2.

Lemma socks_udp_reaches_private_target_witness :
  exists self1 self2,
    left_round socks_io_ok 1 1 associated (socks_datagram_to router_target) = (Ok tt, self1, []) /\
    left_round socks_io_ok 2 2 self1 (socks_datagram_to router_target) =
      (Ok tt, self2, [ToTarget router_target [1; 2]; Metrics Outgoing 2]).
Proof.
  apply (socks_udp_reaches_private_target socks_io_ok socks_io_ok 1 1 2 2 associated
    (socks_datagram_to router_target) (socks_datagram_to router_target));
    [vm_compute; reflexivity|vm_compute; eauto|vm_compute; reflexivity|reflexivity|reflexivity].
Defined.

Lemma socks_lost_association_ends_exchange_witness :
  exists self1,
    right_exchange [SocksReadable sample_source; SocksRecv (Err SocksProtocol)] (Ok Sent) 1 associated
      = (Ok tt, self1, []) /\
    exists self2, left_round socks_io_ok 2 2 self1 (socks_datagram_to public_target) = (Err NotFound, self2, []).
Proof.
  destruct (socks_lost_association_ends_exchange false associated (mkMeta sample_source public_target)
    (mkAssoc {[public_target]}) SocksProtocol (Ok Sent) 1) as (self1 & E & _ & H);
    [vm_compute; eauto|vm_compute; reflexivity|cbn [peers um_destination]; by apply elem_of_singleton_2|by intros [=]|reflexivity|reflexivity|].
  exists self1. split; [exact E|]. by apply H.
Defined.
