(* ===== verification/Pipe.v ===== *)
(** * TCP pipes

    lib/src/pipe.rs: a simplex pipe moves the chunks of a source to a sink that may
    accept only a part of what it is given, and a duplex pipe runs two of them under a
    common idle timeout.  Sources and sinks are the traits of the source file, here
    classes; a call that may suspend answers [None] when the timeout elapses first. *)

From Stdlib Require Import Sorting.Sorted.
From S2P Require Import Prelude.
From S2P Require Import Codecs.
From S2P Require Import Varint.

Inductive Data : Type :=
| Chunk (b : bytes)
| Eof.

(** The capacity of the buffer that a TCP stream is read into. *)
Definition READ_CHUNK_SIZE : Z := 64 * 1024.

(** [REnv] and [WEnv] are what the environment answers during a round. *)
Class Source (Src REnv : Type) : Type := {
  src_read : REnv -> Src -> option (result ErrorKind Data) * Src;
  src_consume : Src -> Z -> result ErrorKind unit * Src;
}.

Class Sink (Snk WEnv : Type) : Type := {
  snk_write : WEnv -> Snk -> bytes -> M (result ErrorKind bytes * Snk);
  snk_eof : Snk -> result ErrorKind unit * Snk;
  snk_flush : WEnv -> Snk -> option (result ErrorKind unit) * Snk;
  snk_wait_writable : WEnv -> Snk -> option (result ErrorKind unit) * Snk;
}.

(** [produced] is what the source has handed out. *)
Class SourceLaws (Src REnv : Type) `{Source Src REnv} : Type := {
  produced : Src -> bytes;
  read_chunk_law env s r s' : src_read env s = (r, s') ->
    produced s' = produced s ++ match r with Some (Ok (Chunk b)) => b | _ => [] end;
  consume_law s n r s' : src_consume s n = (r, s') -> produced s' = produced s;
}.

(** [accepted] is what the sink has taken over, [ended] that it was told of the end:
    a write takes a prefix and hands the rest back, or fails after a prefix.  A sink may
    not be able to take a chunk of any size: it does not panic for those that [fits],
    among which are the chunks that sockets are read in. *)
Class SinkLaws (Snk WEnv : Type) `{Sink Snk WEnv} : Type := {
  accepted : Snk -> bytes;
  ended : Snk -> bool;
  fits : bytes -> Prop;
  fits_suffix k rest : fits (k ++ rest) -> fits rest;
  fits_chunk data : len data <= READ_CHUNK_SIZE -> fits data;
  write_total_law env s data : fits data -> exists r s', snk_write env s data = Ret (r, s');
  write_prefix_law env s data r s' : snk_write env s data = Ret (r, s') ->
    exists k rest, data = k ++ rest /\ accepted s' = accepted s ++ k /\ forall x, r = Ok x -> x = rest;
  eof_law s r s' : snk_eof s = (r, s') -> accepted s' = accepted s /\ (r = Ok tt -> ended s' = true);
  flush_law env s r s' : snk_flush env s = (r, s') -> accepted s' = accepted s /\ ended s' = ended s;
  wait_law env s r s' : snk_wait_writable env s = (r, s') -> accepted s' = accepted s;
}.

(** The two laws of a write together. *)
Lemma write_any `{SinkLaws Snk WEnv} env s data : fits data ->
  exists r s' k rest, snk_write env s data = Ret (r, s') /\ data = k ++ rest /\
    accepted s' = accepted s ++ k /\ forall x, r = Ok x -> x = rest.
Proof.
  intros (r & s' & E)%(write_total_law env s). destruct (write_prefix_law _ _ _ _ _ E) as (k & rest & Hs).
  by exists r, s', k, rest.
Qed.

(** The chunks of a source fit its sink: because the sink takes any chunk, or because the
    source reads no larger ones. *)
Class Feeds (Src REnv Snk WEnv : Type) `{Source Src REnv} `{SinkLaws Snk WEnv} : Prop :=
  feeds env s b s' : src_read env s = (Some (Ok (Chunk b)), s') -> fits b.

Class TakesAny (Snk WEnv : Type) `{SinkLaws Snk WEnv} : Prop := takes_any b : fits b.

Class ReadsChunks (Src REnv : Type) `{Source Src REnv} : Prop :=
  chunk_size env s b s' : src_read env s = (Some (Ok (Chunk b)), s') -> len b <= READ_CHUNK_SIZE.

#[export] Instance feeds_any `{Source Src REnv} `{TakesAny Snk WEnv} : Feeds Src REnv Snk WEnv | 1.
Proof. intros env s b s' _. apply takes_any. Qed.

#[export] Instance feeds_chunks `{ReadsChunks Src REnv} `{SinkLaws Snk WEnv} : Feeds Src REnv Snk WEnv | 2.
Proof. intros env s b s' E. by eapply fits_chunk, chunk_size. Qed.

Inductive ExchangeOnceStatus : Type := TimedOut | Finished.

Section simplex.
Context {Src REnv Snk WEnv : Type} `{Source Src REnv} `{Sink Snk WEnv}.

(** [metered] is the sum that [update_metrics] was given. *)
Record SimplexPipe : Type := mkSimplex {
  sp_source : Src;
  sp_sink : Snk;
  metered : Z;
  pending_chunk : option Data;
  last_activity : Z;
}.

Definition simplex_new (source : Src) (sink : Snk) (now : Z) : SimplexPipe :=
  mkSimplex source sink 0 None now.

(** The environment of one round of [exchange]: the clock, the source, and the sink at
    its flush, its wait, its write and its last flush. *)
Record RoundEnv : Type := mkRound {
  re_now : Z;
  re_read : REnv;
  re_flush : WEnv;
  re_wait : WEnv;
  re_write : WEnv;
  re_last_flush : WEnv;
}.

(** The future of a round: the data to send, [None] when the timeout elapsed. *)
Definition next_data (env : RoundEnv) (self : SimplexPipe) : option (result ErrorKind Data) * SimplexPipe :=
  match snk_flush (re_flush env) (sp_sink self) with
  | (None, snk) => (None, mkSimplex (sp_source self) snk (metered self) (pending_chunk self) (last_activity self))
  | (Some (Err e), snk) =>
      (Some (Err e), mkSimplex (sp_source self) snk (metered self) (pending_chunk self) (last_activity self))
  | (Some (Ok _), snk) =>
      match pending_chunk self with
      | None =>
          let (r, src) := src_read (re_read env) (sp_source self) in
          (r, mkSimplex src snk (metered self) None (last_activity self))
      | Some pending =>
          match snk_wait_writable (re_wait env) snk with
          | (Some (Ok _), snk) =>
              (Some (Ok pending), mkSimplex (sp_source self) snk (metered self) None (last_activity self))
          | (Some (Err e), snk) =>
              (Some (Err e), mkSimplex (sp_source self) snk (metered self) (Some pending) (last_activity self))
          | (None, snk) =>
              (None, mkSimplex (sp_source self) snk (metered self) (Some pending) (last_activity self))
          end
      end
  end.

(** What a round does with a chunk. *)
Definition send_chunk (env : RoundEnv) (self : SimplexPipe) (b : bytes)
  : M (result ErrorKind unit * SimplexPipe) :=
  let! (r, snk) := snk_write (re_write env) (sp_sink self) b in
  match r with
  | Err e =>
      Ret (Err e, mkSimplex (sp_source self) snk (metered self) (pending_chunk self) (last_activity self))
  | Ok unsent_data =>
      let! sent := usub (len b) (len unsent_data) in
      let (r, src) := src_consume (sp_source self) sent in
      let self := mkSimplex src snk (metered self + sent) (pending_chunk self) (last_activity self) in
      match r with
      | Err e => Ret (Err e, self)
      | Ok _ =>
          Ret (Ok tt,
            if len unsent_data =? 0 then self
            else mkSimplex src snk (metered self) (Some (Chunk unsent_data)) (last_activity self))
      end
  end.

(** The end of the source; [None] when the last flush has not completed. *)
Definition finish (env : RoundEnv) (self : SimplexPipe) : option (result ErrorKind ExchangeOnceStatus) * SimplexPipe :=
  match snk_eof (sp_sink self) with
  | (Err e, snk) =>
      (Some (Err e), mkSimplex (sp_source self) snk (metered self) (pending_chunk self) (last_activity self))
  | (Ok _, snk) =>
      let (r, snk) := snk_flush (re_last_flush env) snk in
      (match r with Some (Ok _) => Some (Ok Finished) | Some (Err e) => Some (Err e) | None => None end,
       mkSimplex (sp_source self) snk (metered self) (pending_chunk self) (last_activity self))
  end.

(** [exchange], a round per environment; [None] when it has not returned by then,
    which includes a call abandoned in the middle. *)
Fixpoint exchange (envs : list RoundEnv) (self : SimplexPipe)
  : M (option (result ErrorKind ExchangeOnceStatus) * SimplexPipe) :=
  match envs with
  | [] => Ret (None, self)
  | env :: envs =>
      let self := mkSimplex (sp_source self) (sp_sink self) (metered self) (pending_chunk self) (re_now env) in
      match next_data env self with
      | (None, self) => Ret (Some (Ok TimedOut), self)
      | (Some (Err e), self) => Ret (Some (Err e), self)
      | (Some (Ok (Chunk b)), self) =>
          let! (r, self) := send_chunk env self b in
          match r with
          | Err e => Ret (Some (Err e), self)
          | Ok _ => exchange envs self
          end
      | (Some (Ok Eof), self) => Ret (finish env self)
      end
  end.

End simplex.
Arguments SimplexPipe : clear implicits.
Arguments RoundEnv : clear implicits.

(** ** The duplex pipe *)

Section duplex.
Context {Src1 REnv1 Snk1 WEnv1 : Type} `{Source Src1 REnv1} `{Sink Snk1 WEnv1}.
Context {Src2 REnv2 Snk2 WEnv2 : Type} `{Source Src2 REnv2} `{Sink Snk2 WEnv2}.

Record DuplexPipe : Type := mkDuplex {
  left_pipe : SimplexPipe Src1 Snk1;
  right_pipe : SimplexPipe Src2 Snk2;
}.

(** One call of [exchange_once]: the rounds of the two futures, which of them is polled
    to its end first when both have ended, and the clock at the check that follows. *)
Record DuplexCall : Type := mkCall {
  dc_left : list (RoundEnv REnv1 WEnv1);
  dc_right : list (RoundEnv REnv2 WEnv2);
  left_first : bool;
  dc_now : Z;
}.

(** Whether a future with the outcome [r] is the one that [try_select] returns: a timeout
    beside an end or an error is a round that was still waiting when it was dropped or
    awaited further. *)
Definition selected (r other : option (result ErrorKind ExchangeOnceStatus)) : bool :=
  match r, other with
  | None, _ => false
  | Some (Ok TimedOut), Some (Ok Finished | Err _) => false
  | Some _, _ => true
  end.

(** What is made of the first future and of the other one, which is awaited only after
    the first has finished. *)
Definition conclude_once (first another : option (result ErrorKind ExchangeOnceStatus))
  : option (result ErrorKind ExchangeOnceStatus) :=
  match first with
  | None => None
  | Some (Ok Finished) =>
      match another with
      | None => None
      | Some (Ok Finished) => Some (Ok Finished)
      | Some (Ok TimedOut) => Some (Err Varint.TimedOut)
      | Some (Err e) => Some (Err e)
      end
  | Some (Ok TimedOut) => Some (Ok TimedOut)
  | Some (Err e) => Some (Err e)
  end.

Definition exchange_once (call : DuplexCall) (self : DuplexPipe)
  : M (option (result ErrorKind ExchangeOnceStatus) * DuplexPipe) :=
  let! (r1, lp) := exchange (dc_left call) (left_pipe self) in
  let! (r2, rp) := exchange (dc_right call) (right_pipe self) in
  Ret (if selected r1 r2 && (left_first call || negb (selected r2 r1)) then conclude_once r1 r2
       else conclude_once r2 r1,
       mkDuplex lp rp).

(** [DuplexPipe::exchange], an element of [calls] per iteration; [None] when it has not
    returned by then. *)
Fixpoint duplex_exchange (timeout : Z) (calls : list DuplexCall) (self : DuplexPipe)
  : M (option (result ErrorKind unit) * DuplexPipe) :=
  match calls with
  | [] => Ret (None, self)
  | call :: calls =>
      let! (r, self) := exchange_once call self in
      match r with
      | None => Ret (None, self)
      | Some (Err e) => Ret (Some (Err e), self)
      | Some (Ok Finished) => Ret (Some (Ok tt), self)
      | Some (Ok TimedOut) =>
          let expiration_deadline := dc_now call - timeout in
          if (last_activity (left_pipe self) <? expiration_deadline)
             && (last_activity (right_pipe self) <? expiration_deadline)
          then Ret (Some (Err Varint.TimedOut), self)
          else duplex_exchange timeout calls self
      end
  end.

End duplex.
Arguments DuplexPipe : clear implicits.
Arguments DuplexCall : clear implicits.

(** ** Integrity of the stream *)

Section integrity.
Context {Src REnv Snk WEnv : Type} `{SourceLaws Src REnv} `{SinkLaws Snk WEnv} `{!Feeds Src REnv Snk WEnv}.
Implicit Types self : SimplexPipe Src Snk.
Implicit Types env : RoundEnv REnv WEnv.
Implicit Types envs : list (RoundEnv REnv WEnv).

Definition pending_bytes self : bytes :=
  match pending_chunk self with Some (Chunk b) => b | _ => [] end.

(** What was read is what was sent, then what is pending; the meter counts what was
    sent. *)
Definition intact self : Prop :=
  produced (sp_source self) = accepted (sp_sink self) ++ pending_bytes self /\
  metered self = len (accepted (sp_sink self)) /\ pending_chunk self <> Some Eof /\ fits (pending_bytes self).

(** What remains true after an error: the sink has a prefix of what was read. *)
Definition in_order self : Prop :=
  exists rest, produced (sp_source self) = accepted (sp_sink self) ++ rest.

(** After the data of a round was taken: as before, with the data in hand. *)
Definition in_hand self (b : bytes) : Prop :=
  pending_chunk self = None /\ produced (sp_source self) = accepted (sp_sink self) ++ b /\
  metered self = len (accepted (sp_sink self)) /\ fits b.

Lemma fits_nil : fits (Snk := Snk) (WEnv := WEnv) [].
Proof. by apply fits_chunk. Qed.
#[local] Hint Resolve fits_nil : core.

Lemma in_hand_intact self : in_hand self [] -> intact self.
Proof. intros (Hp & Hs & Hm & Hf). unfold intact, pending_bytes. rewrite Hp. done. Qed.

Lemma intact_in_order self : intact self -> in_order self.
Proof. intros [H' _]. by eexists. Qed.

Lemma next_data_ok env self r self' :
  intact self -> next_data env self = (r, self') ->
  match r with
  | Some (Ok (Chunk b)) => in_hand self' b
  | Some (Ok Eof) => in_hand self' []
  | _ => intact self'
  end.
Proof.
  intros (Hs & Hm & Hp & Hf) E. unfold next_data in E.
  destruct (snk_flush _ _) as [f snk] eqn:Ef. apply flush_law in Ef as [Ea _].
  assert (forall last, intact (mkSimplex (sp_source self) snk (metered self) (pending_chunk self) last)) as Hi.
  { intros last. split; simpl; by rewrite Ea. }
  destruct f as [[[]|e]|]; [|injection E as <- <-; apply Hi..].
  unfold pending_bytes in Hs, Hf. destruct (pending_chunk self) as [[b|]|] eqn:Ep; [|done|].
  - destruct (snk_wait_writable _ _) as [w snk'] eqn:Ew. apply wait_law in Ew as Ea'. rewrite <- Ea, <- Ea' in Hs, Hm.
    by destruct w as [[[]|e]|]; injection E as <- <-.
  - destruct (src_read _ _) as [d src] eqn:Er. pose proof (read_chunk_law _ _ _ _ Er) as Eb. rewrite app_nil_r in Hs.
    injection E as <- <-. rewrite Hs, <- Ea in Eb. rewrite <- Ea in Hm.
    destruct d as [[[b|]|e]|]; repeat split; try done. by eapply feeds.
Qed.

Lemma send_chunk_ok env self b :
  in_hand self b ->
  exists r self', send_chunk env self b = Ret (r, self') /\ in_order self' /\ (r = Ok tt -> intact self').
Proof.
  intros (Hp & Hs & Hm & Hf). unfold send_chunk.
  destruct (write_any (re_write env) (sp_sink self) b Hf) as (r & snk & k & rest & -> & -> & Ek & Hr).
  apply fits_suffix in Hf. cbn [bindM].
  destruct r as [x|e].
  2:{ eexists _, _. split; [done|]. split; [|done]. exists rest. simpl. by rewrite Hs, Ek, app_assoc. }
  rewrite (Hr x eq_refl). clear Hr x. pose proof (len_nonneg k). rewrite len_app.
  rewrite usub_ok by lia. cbn [bindM]. destruct (src_consume _ _) as [c src] eqn:Ec. apply consume_law in Ec.
  assert (produced src = accepted snk ++ rest) as Hs' by by rewrite Ec, Hs, Ek, app_assoc.
  destruct c as [[]|]; [|by eexists _, _; split; [done|]; split; [exists rest|]].
  replace (len k + len rest - len rest) with (len k) by lia.
  assert (metered self + len k = len (accepted snk)) as Hm' by (rewrite Ek, len_app; lia).
  eexists _, _. split; [done|]. destruct (Z.eqb_spec (len rest) 0) as [E|E].
  - assert (rest = []) as -> by (apply len_nil_inv; lia). split; [by exists []|]. intros _.
    by apply in_hand_intact.
  - split; [by exists rest|]. done.
Qed.

(** What [exchange] guarantees about its outcome. *)
Definition exchange_post (r : option (result ErrorKind ExchangeOnceStatus)) self : Prop :=
  match r with
  | None | Some (Ok TimedOut) => intact self
  | Some (Ok Finished) => intact self /\ pending_chunk self = None /\ ended (sp_sink self) = true
  | Some (Err _) => in_order self
  end.

Lemma exchange_post_in_order r self : exchange_post r self -> in_order self.
Proof. destruct r as [[[]|]|]; simpl; [|intros [? _]|done|]; auto using intact_in_order. Qed.

Lemma finish_ok env self r self' : in_hand self [] -> finish env self = (r, self') -> exchange_post r self'.
Proof.
  intros (Hp & Hs & Hm & Hf) E. unfold finish in E.
  destruct (snk_eof _) as [c snk] eqn:Ee. apply eof_law in Ee as [Ea Ee].
  destruct c as [[]|e]; [|injection E as <- <-; exists []; simpl; by rewrite Ea].
  destruct (snk_flush _ _) as [f snk'] eqn:Ef. apply flush_law in Ef as [Ea' Ee'].
  assert (intact (mkSimplex (sp_source self) snk' (metered self) (pending_chunk self) (last_activity self))) as Hi.
  { apply in_hand_intact. repeat split; [done|..|done]; simpl; by rewrite Ea', Ea. }
  injection E as <- <-. destruct f as [[[]|]|]; [|by apply intact_in_order|done].
  split; [done|]. split; [done|]. simpl. rewrite Ee'. auto.
Qed.

Lemma exchange_ok envs self :
  intact self -> exists r self', exchange envs self = Ret (r, self') /\ exchange_post r self'.
Proof.
  revert self. induction envs as [|env envs IH]; intros self Hi; cbn [exchange].
  { by eexists _, _. }
  destruct (next_data env _) as [d s1] eqn:En. apply next_data_ok in En; [|exact Hi].
  destruct d as [[[b|]|e]|]; [| | |by eexists _, _].
  - destruct (send_chunk_ok env s1 b En) as ([[]|e] & s2 & -> & Ho & Hs2); cbn [bindM]; [|by eexists _, _].
    apply IH. auto.
  - destruct (finish env s1) as [r s2] eqn:Ef. eexists _, _. split; [done|]. by eapply finish_ok.
  - eexists _, _. split; [done|]. by apply intact_in_order.
Qed.

(** Everything that was read has been written and metered, and the end was passed on. *)
Definition complete self : Prop :=
  produced (sp_source self) = accepted (sp_sink self) /\ ended (sp_sink self) = true /\
  metered self = len (accepted (sp_sink self)).

Lemma finished_complete self : exchange_post (Some (Ok Finished)) self -> complete self.
Proof.
  intros ((Hs & Hm & _ & _) & Hp & He). split; [|done]. unfold pending_bytes in Hs. rewrite Hp, app_nil_r in Hs. done.
Qed.

End integrity.

Section duplex_integrity.
Context {Src1 REnv1 Snk1 WEnv1 : Type} `{SourceLaws Src1 REnv1} `{SinkLaws Snk1 WEnv1} `{!Feeds Src1 REnv1 Snk1 WEnv1}.
Context {Src2 REnv2 Snk2 WEnv2 : Type} `{SourceLaws Src2 REnv2} `{SinkLaws Snk2 WEnv2} `{!Feeds Src2 REnv2 Snk2 WEnv2}.
Implicit Types self : DuplexPipe Src1 Snk1 Src2 Snk2.
Implicit Types call : DuplexCall REnv1 WEnv1 REnv2 WEnv2.

(** What [exchange_once] makes of the two outcomes, as what it implies of them. *)
Lemma exchange_once_ok call self :
  intact (left_pipe self) -> intact (right_pipe self) ->
  exists r self', exchange_once call self = Ret (r, self') /\
    in_order (left_pipe self') /\ in_order (right_pipe self') /\
    (r = Some (Ok TimedOut) -> intact (left_pipe self') /\ intact (right_pipe self')) /\
    (r = Some (Ok Finished) -> complete (left_pipe self') /\ complete (right_pipe self')).
Proof.
  intros Hl Hr. unfold exchange_once.
  destruct (exchange_ok (dc_left call) _ Hl) as (r1 & l & -> & P1). cbn [bindM].
  destruct (exchange_ok (dc_right call) _ Hr) as (r2 & r & -> & P2). cbn [bindM].
  eexists _, _. split; [done|]. cbn [left_pipe right_pipe].
  split; [by eapply exchange_post_in_order|]. split; [by eapply exchange_post_in_order|].
  destruct r1 as [[[]|]|], r2 as [[[]|]|], (left_first call); cbn; (split; intros ?; try done);
    by split; apply finished_complete.
Qed.

Lemma duplex_exchange_ok timeout calls self :
  intact (left_pipe self) -> intact (right_pipe self) ->
  exists r self', duplex_exchange timeout calls self = Ret (r, self') /\
    in_order (left_pipe self') /\ in_order (right_pipe self') /\
    (r = Some (Ok tt) -> complete (left_pipe self') /\ complete (right_pipe self')).
Proof.
  revert self. induction calls as [|call calls IH]; intros self Hl Hr; cbn [duplex_exchange].
  { eexists _, _. split; [done|]. split_and!; [by apply intact_in_order..|done]. }
  destruct (exchange_once_ok call self Hl Hr) as (r & s1 & -> & Ol & Or & Ht & Hf). cbn [bindM].
  destruct r as [[[]|e]|]; [|eexists _, _; split; [done|]; split_and!; [done..|]; intros; try done..].
  - destruct (Ht eq_refl) as [Hl' Hr']. destruct (_ && _); [|by apply IH].
    eexists _, _. split; [done|]. by split_and!.
  - by apply Hf.
Qed.

End duplex_integrity.

(** ** The idle timeout *)

Section idle.
Context {Src REnv Snk WEnv : Type} `{Source Src REnv} `{Sink Snk WEnv}.
Implicit Types self : SimplexPipe Src Snk.
Implicit Types env : RoundEnv REnv WEnv.

(** The instants at which the rounds of a call began: the first when it was made, each
    further one when the chunk of the previous round had been written. *)
Fixpoint starts (envs : list (RoundEnv REnv WEnv)) self : list Z :=
  match envs with
  | [] => []
  | env :: envs =>
      re_now env ::
      match next_data env (mkSimplex (sp_source self) (sp_sink self) (metered self) (pending_chunk self) (re_now env)) with
      | (Some (Ok (Chunk b)), self) =>
          match send_chunk env self b with
          | Ret (Ok _, self) => starts envs self
          | _ => []
          end
      | _ => []
      end
  end.

Lemma next_data_activity env self r self' : next_data env self = (r, self') -> last_activity self' = last_activity self.
Proof.
  unfold next_data. destruct (snk_flush _ _) as [[[]|] ?]; [|by intros [= <- <-]..].
  destruct (pending_chunk self); [destruct (snk_wait_writable _ _) as [[[]|] ?]|destruct (src_read _ _)];
    by intros [= <- <-].
Qed.

Lemma send_chunk_activity env self b r self' :
  send_chunk env self b = Ret (r, self') -> last_activity self' = last_activity self.
Proof.
  unfold send_chunk. destruct (snk_write _ _ _) as [[[rest|] snk]|]; cbn [bindM]; [|by intros [= <- <-]|done].
  destruct (usub _ _); cbn [bindM]; [|done]. destruct (src_consume _ _) as [[] ?]; [|by intros [= <- <-]].
  destruct (_ =? _); by intros [= <- <-].
Qed.

Lemma finish_activity env self r self' : finish env self = (r, self') -> last_activity self' = last_activity self.
Proof.
  unfold finish. destruct (snk_eof _) as [[] ?]; [destruct (snk_flush _ _)|]; by intros [= <- <-].
Qed.

(** [last_activity] is the instant of the latest start. *)
Lemma exchange_starts envs self r self' :
  exchange envs self = Ret (r, self') -> envs <> [] -> StronglySorted Z.le (re_now <$> envs) ->
  last_activity self' ∈ starts envs self /\ Forall (fun t => t <= last_activity self') (starts envs self).
Proof.
  revert self. induction envs as [|env envs IH]; intros self E Hne Hs; [done|]. cbn [exchange starts] in *.
  inversion Hs as [|? ? Hs' Hall]; subst.
  assert (last_activity self' = re_now env ->
    last_activity self' ∈ [re_now env] /\ Forall (fun t => t <= last_activity self') [re_now env]) as Hone.
  { intros ->. split; [left|]. by constructor. }
  destruct (next_data env _) as [d s1] eqn:En. apply next_data_activity in En. cbn [last_activity] in En.
  destruct d as [[[b|]|e]|].
  - destruct (send_chunk env s1 b) as [[[[]|e] s2]|] eqn:Ec; cbn [bindM] in E; [| |done].
    + apply send_chunk_activity in Ec. rewrite En in Ec. destruct envs as [|env' envs].
      { cbn in E. injection E as _ <-. by apply Hone. }
      destruct (IH s2 E ltac:(done) Hs') as [Hin Hle]. split; [by right|]. constructor; [|done].
      rewrite Forall_forall in Hall, Hle. cbn [starts] in Hle.
      etransitivity; [|apply Hle; left]. apply Hall. cbn. left.
    + injection E as _ <-. apply Hone. rewrite (send_chunk_activity _ _ _ _ _ Ec). done.
  - injection E as E. apply finish_activity in E. apply Hone. by rewrite E.
  - injection E as _ <-. by apply Hone.
  - injection E as _ <-. by apply Hone.
Qed.

Lemma exchange_idle_since envs self r self' (limit : Z) :
  exchange envs self = Ret (r, self') -> envs <> [] -> StronglySorted Z.le (re_now <$> envs) ->
  (last_activity self' <? limit) = forallb (fun t => t <? limit) (starts envs self).
Proof.
  intros E Hne Hs. destruct (exchange_starts envs self r self' E Hne Hs) as [Hin Hle].
  rewrite Forall_forall in Hle. apply eq_bool_prop_intro. rewrite !Is_true_true, Z.ltb_lt, forallb_forall. split.
  - intros Hl t Ht. apply Z.ltb_lt. apply list_elem_of_In in Ht. specialize (Hle t Ht). lia.
  - intros Hall. apply Z.ltb_lt, Hall. by apply list_elem_of_In.
Qed.

End idle.

Section duplex_idle.
Context {Src1 REnv1 Snk1 WEnv1 : Type} `{Source Src1 REnv1} `{Sink Snk1 WEnv1}.
Context {Src2 REnv2 Snk2 WEnv2 : Type} `{Source Src2 REnv2} `{Sink Snk2 WEnv2}.
Implicit Types self : DuplexPipe Src1 Snk1 Src2 Snk2.
Implicit Types call : DuplexCall REnv1 WEnv1 REnv2 WEnv2.

(** A call as the clock makes it: both futures are polled, and time does not go back. *)
Definition timely call : Prop :=
  dc_left call <> [] /\ dc_right call <> [] /\
  StronglySorted Z.le (re_now <$> dc_left call) /\ StronglySorted Z.le (re_now <$> dc_right call).

(** All instants at which a direction made progress in a call, its beginning included. *)
Definition call_starts call self : list Z :=
  starts (dc_left call) (left_pipe self) ++ starts (dc_right call) (right_pipe self).

Lemma duplex_timed_out timeout call calls self self' :
  timely call -> exchange_once call self = Ret (Some (Ok TimedOut), self') ->
  duplex_exchange timeout (call :: calls) self =
    if forallb (fun t => t <? dc_now call - timeout) (call_starts call self)
    then Ret (Some (Err Varint.TimedOut), self') else duplex_exchange timeout calls self'.
Proof.
  intros (Hnl & Hnr & Hsl & Hsr) E. cbn [duplex_exchange]. rewrite E. cbn [bindM].
  unfold exchange_once in E.
  destruct (exchange (dc_left call) _) as [[r1 l]|] eqn:El; cbn [bindM] in E; [|done].
  destruct (exchange (dc_right call) _) as [[r2 r]|] eqn:Er; cbn [bindM] in E; [|done].
  apply Ret_inj in E. injection E as _ <-. cbn [left_pipe right_pipe]. unfold call_starts.
  rewrite forallb_app, <- (exchange_idle_since _ _ _ _ _ El Hnl Hsl), <- (exchange_idle_since _ _ _ _ _ Er Hnr Hsr).
  done.
Qed.

Abbreviation Outcome := (option (result ErrorKind ExchangeOnceStatus)).

(** A direction without an error. *)
Definition quiet (r : Outcome) : Prop := match r with Some (Err _) => False | _ => True end.

(** A direction that has reached its end, or has begun no round since [limit]. *)
Definition ended_or_idle (r : Outcome) (ts : list Z) (limit : Z) : Prop :=
  r = Some (Ok Finished) \/ Forall (fun t => t < limit) ts.

(** A call under a real clock.  The two futures are polled for the first time within
    [slack] of each other.  A call that a timeout ends, and no error, has a direction whose
    last round waited for the timeout: the timer fires later than that, by more than
    [slack], and the check comes after it.  A future that was waiting beside it, and was
    dropped, has the same outcome, but no such bound. *)
Record punctual (timeout slack : Z) call self : Prop := {
  pu_timely : timely call;
  pu_together a b : head (dc_left call) = Some a -> head (dc_right call) = Some b -> Z.abs (re_now a - re_now b) <= slack;
  pu_waited r1 lp r2 rp :
    exchange (dc_left call) (left_pipe self) = Ret (r1, lp) -> exchange (dc_right call) (right_pipe self) = Ret (r2, rp) ->
    quiet r1 -> quiet r2 -> r1 = Some (Ok TimedOut) \/ r2 = Some (Ok TimedOut) ->
    r1 = Some (Ok TimedOut) /\
      Forall (fun t => t < dc_now call - timeout - slack) (starts (dc_left call) (left_pipe self)) \/
    r2 = Some (Ok TimedOut) /\
      Forall (fun t => t < dc_now call - timeout - slack) (starts (dc_right call) (right_pipe self));
}.

(** All calls of an exchange, each from the state that the previous ones left. *)
Fixpoint punctual_run (timeout slack : Z) (calls : list (DuplexCall REnv1 WEnv1 REnv2 WEnv2)) self : Prop :=
  match calls with
  | [] => True
  | call :: calls =>
      punctual timeout slack call self /\
      forall self', exchange_once call self = Ret (Some (Ok TimedOut), self') -> punctual_run timeout slack calls self'
  end.

(** The calls after which the exchange goes on: each ended by a timeout, and a direction
    had begun a round within the timeout before the check. *)
Inductive continued (timeout : Z)
  : list (DuplexCall REnv1 WEnv1 REnv2 WEnv2) -> DuplexPipe Src1 Snk1 Src2 Snk2 -> DuplexPipe Src1 Snk1 Src2 Snk2 -> Prop :=
| continued_nil self : continued timeout [] self self
| continued_cons call calls self self1 self2 :
    exchange_once call self = Ret (Some (Ok TimedOut), self1) ->
    Exists (fun t => dc_now call - timeout <= t) (call_starts call self) ->
    continued timeout calls self1 self2 -> continued timeout (call :: calls) self self2.

Lemma exchange_once_inv call self r self' :
  exchange_once call self = Ret (r, self') ->
  exists r1 lp r2 rp, exchange (dc_left call) (left_pipe self) = Ret (r1, lp) /\
    exchange (dc_right call) (right_pipe self) = Ret (r2, rp) /\ self' = mkDuplex lp rp /\
    r = if selected r1 r2 && (left_first call || negb (selected r2 r1)) then conclude_once r1 r2 else conclude_once r2 r1.
Proof.
  unfold exchange_once. destruct (exchange (dc_left call) _) as [[r1 lp]|]; cbn [bindM]; [|done].
  destruct (exchange (dc_right call) _) as [[r2 rp]|]; cbn [bindM]; [|done]. intros E. apply Ret_inj in E. injection E as <- <-.
  by exists r1, lp, r2, rp.
Qed.

(** Whether the check finds the pipe idle. *)
Lemma idle_test (ts : list Z) (limit : Z) :
  if forallb (fun t => t <? limit) ts then Forall (fun t => t < limit) ts else Exists (fun t => limit <= t) ts.
Proof.
  induction ts as [|x ts IH]; cbn; [constructor|]. destruct (Z.ltb_spec x limit); cbn; [|by constructor].
  destruct (forallb _ ts); by constructor.
Qed.

Lemma continued_run timeout slack before rest self self1 :
  continued timeout before self self1 -> punctual_run timeout slack (before ++ rest) self ->
  duplex_exchange timeout (before ++ rest) self = duplex_exchange timeout rest self1 /\ punctual_run timeout slack rest self1.
Proof.
  induction 1 as [|call calls self self1 self2 E Hrecent _ IH]; cbn [app punctual_run]; [done|]. intros [Hp Hrun].
  rewrite (duplex_timed_out timeout call _ self self1 (pu_timely _ _ _ _ Hp) E).
  pose proof (idle_test (call_starts call self) (dc_now call - timeout)) as Ht. destruct (forallb _ _).
  - rewrite Exists_exists in Hrecent. rewrite Forall_forall in Ht. destruct Hrecent as (t & Hin & Hle). specialize (Ht t Hin). lia.
  - by apply IH, Hrun.
Qed.

(** How an exchange can end with [ErrorKind::TimedOut]. *)
Lemma duplex_closed timeout slack calls self self' :
  0 <= slack -> punctual_run timeout slack calls self ->
  duplex_exchange timeout calls self = Ret (Some (Err Varint.TimedOut), self') ->
  exists before call after self1 r1 lp r2 rp,
    calls = before ++ call :: after /\ continued timeout before self self1 /\
    exchange (dc_left call) (left_pipe self1) = Ret (r1, lp) /\ exchange (dc_right call) (right_pipe self1) = Ret (r2, rp) /\
    (r1 = Some (Err Varint.TimedOut) \/ r2 = Some (Err Varint.TimedOut) \/
     (r1 = Some (Ok TimedOut) \/ r2 = Some (Ok TimedOut)) /\
     ended_or_idle r1 (starts (dc_left call) (left_pipe self1)) (dc_now call - timeout) /\
     ended_or_idle r2 (starts (dc_right call) (right_pipe self1)) (dc_now call - timeout)).
Proof.
  intros Hs. revert self. induction calls as [|call calls IH]; intros self Hrun E; [done|]. destruct Hrun as [Hp Hrun].
  destruct (exchange_once call self) as [[r s1]|] eqn:Eo; [|cbn [duplex_exchange] in E; by rewrite Eo in E].
  destruct (exchange_once_inv _ _ _ _ Eo) as (r1 & lp & r2 & rp & E1 & E2 & -> & Er).
  destruct r as [[[]|e]|].
  - rewrite (duplex_timed_out timeout call calls self _ (pu_timely _ _ _ _ Hp) Eo) in E.
    pose proof (idle_test (call_starts call self) (dc_now call - timeout)) as Ht. destruct (forallb _ _).
    + exists [], call, calls, self, r1, lp, r2, rp. split_and!; [done|constructor|done|done|].
      apply Forall_app in Ht as [Hl Hr]. right; right. split; [|by split; right].
      destruct r1 as [[[]|]|], r2 as [[[]|]|], (left_first call); try discriminate Er; auto.
    + destruct (IH _ (Hrun _ eq_refl) E) as (before & call' & after & self1 & Hrest). exists (call :: before), call', after, self1.
      destruct Hrest as (r1' & lp' & r2' & rp' & -> & Hc & Hrest). exists r1', lp', r2', rp'. split; [done|].
      split; [by eapply continued_cons|done].
  - cbn [duplex_exchange] in E. by rewrite Eo in E.
  - cbn [duplex_exchange] in E. rewrite Eo in E. cbn [bindM] in E. injection E as -> _.
    exists [], call, calls, self, r1, lp, r2, rp. split_and!; [done|constructor|done|done|].
    destruct r1 as [[[]|e1]|], r2 as [[[]|e2]|], (left_first call); try discriminate Er;
      try (injection Er as <-; by auto);
      (right; right; destruct (pu_waited _ _ _ _ Hp _ _ _ _ E1 E2) as [[? Hw]|[? Hw]]; [done|done|by auto|..]; try done;
       (split; [by auto|]); split; first [by left|right; eapply Forall_impl; [exact Hw|cbn; lia]]).
  - cbn [duplex_exchange] in E. by rewrite Eo in E.
Qed.

(** A direction that begins one round, begins it with the call. *)
Lemma starts_first {Src REnv Snk WEnv} `{Source Src REnv} `{Sink Snk WEnv} (envs : list (RoundEnv REnv WEnv))
    (p : SimplexPipe Src Snk) t : starts envs p = [t] -> re_now <$> head envs = Some t.
Proof. destruct envs; [done|]. by intros [= <- _]. Qed.

(** When an exchange ends with [ErrorKind::TimedOut] at the latest. *)
Lemma duplex_closes timeout slack before call after self self1 r1 lp r2 rp :
  punctual_run timeout slack (before ++ call :: after) self -> continued timeout before self self1 ->
  exchange (dc_left call) (left_pipe self1) = Ret (r1, lp) -> exchange (dc_right call) (right_pipe self1) = Ret (r2, rp) ->
  quiet r1 -> quiet r2 -> r1 = Some (Ok TimedOut) \/ r2 = Some (Ok TimedOut) ->
  (r1 = Some (Ok Finished) \/ r2 = Some (Ok Finished) \/
   length (starts (dc_left call) (left_pipe self1)) = 1%nat /\ length (starts (dc_right call) (right_pipe self1)) = 1%nat) ->
  duplex_exchange timeout (before ++ call :: after) self = Ret (Some (Err Varint.TimedOut), mkDuplex lp rp).
Proof.
  intros Hrun Hc E1 E2 Q1 Q2 Ht Hend. destruct (continued_run _ _ _ _ _ _ Hc Hrun) as [-> [Hp _]].
  assert (exchange_once call self1 = Ret
    (if selected r1 r2 && (left_first call || negb (selected r2 r1)) then conclude_once r1 r2 else conclude_once r2 r1,
     mkDuplex lp rp)) as Eo by (unfold exchange_once; by rewrite E1; cbn [bindM]; rewrite E2).
  assert ((r1 = Some (Ok Finished) \/ r2 = Some (Ok Finished)) \/ ~ (r1 = Some (Ok Finished) \/ r2 = Some (Ok Finished))) as [Hf|Hf]
    by (clear; destruct r1 as [[[]|]|], r2 as [[[]|]|]; intuition congruence).
  { cbn [duplex_exchange]. rewrite Eo. cbn [bindM].
    destruct Ht as [-> | ->], Hf as [Hf | Hf]; try discriminate Hf; subst; by destruct (left_first call). }
  destruct Hend as [H'|[H'|[L1 L2]]]; [by destruct Hf; auto..|].
  assert (exchange_once call self1 = Ret (Some (Ok TimedOut), mkDuplex lp rp)) as Eo'.
  { rewrite Eo. do 2 f_equal. destruct r1 as [[[]|]|], r2 as [[[]|]|]; try done; try (by destruct Hf; auto);
      by destruct (left_first call), Ht. }
  rewrite (duplex_timed_out timeout call after self1 _ (pu_timely _ _ _ _ Hp) Eo').
  unfold call_starts. destruct (starts (dc_left call) _) as [|t [|? ?]] eqn:S1; try discriminate L1.
  destruct (starts (dc_right call) _) as [|t' [|? ?]] eqn:S2; try discriminate L2.
  assert (Z.abs (t - t') <= slack) as Hd.
  { pose proof (starts_first _ _ _ S1) as F1. pose proof (starts_first _ _ _ S2) as F2.
    destruct (head (dc_left call)) as [a|] eqn:Ha; [|done]. destruct (head (dc_right call)) as [b|] eqn:Hb; [|done].
    injection F1 as <-. injection F2 as <-. by eapply pu_together. }
  assert (t < dc_now call - timeout /\ t' < dc_now call - timeout) as [Hl Hr].
  { destruct (pu_waited _ _ _ _ Hp _ _ _ _ E1 E2 Q1 Q2 Ht) as [[_ Hw]|[_ Hw]]; rewrite ?S1, ?S2 in Hw;
      apply Forall_cons in Hw as [Hw _]; lia. }
  cbn [app forallb]. rewrite !(proj2 (Z.ltb_lt _ _)) by done. done.
Qed.

End duplex_idle.
