(* ===== verification/TcpForwarder.v ===== *)
(** * The direct TCP forwarder

    lib/src/tcp_forwarder.rs: the choice of the peer address and the two halves of a
    TCP stream as a source and a sink of pipes. *)

From S2P Require Import Prelude.
From S2P Require Import Codecs.
From S2P Require Import Varint.
From S2P Require Import NetUtils.
From S2P Require Import Auth.
From S2P Require Import Tunnel.
From S2P Require Import Pipe.

(** ** Connecting *)

(** An I/O error: its kind, and whether the raw OS error is [ENETUNREACH] or
    [EHOSTUNREACH]. *)
Record IoError : Type := mkIoError { io_kind : ErrorKind; io_unreachable : bool }.

Definition io_to_connection_error (error : IoError) : ConnectionError :=
  if io_unreachable error then HostUnreachable
  else match io_kind error with Varint.TimedOut => Timeout | e => Tunnel.Io e end.

Definition addr_is_loopback (ip : IpAddr) : bool :=
  match ip with IpV4 o => v4_is_loopback o | IpV6 o => v6_is_loopback o end.

Inductive SelectionStatus : Type :=
| SelLoopback
| SelNonRoutable
| SelSuitable (a : SocketAddr).

Section connect.
Context (ipv6_available allow_private_network : bool).

(** The loop over the resolved addresses. *)
Fixpoint select_address (resolved : list SocketAddr) (status : option SelectionStatus)
  : option SelectionStatus :=
  match resolved with
  | [] => status
  | a :: resolved =>
      let ip := addr_ip a in
      if match ip with IpV6 _ => negb ipv6_available | IpV4 _ => false end
      then select_address resolved status
      else if is_global_ip ip || allow_private_network then Some (SelSuitable a)
      else if match status with None => addr_is_loopback ip | Some _ => false end
      then select_address resolved (Some SelLoopback)
      else select_address resolved (Some SelNonRoutable)
  end.

(** The part of [connect] before the connection is made; [lookup_host] resolves. *)
Definition choose_peer (lookup_host : bytes -> Z -> result IoError (list SocketAddr))
    (destination : TcpDestination) : result ConnectionError SocketAddr :=
  match destination with
  | DestAddress peer =>
      if negb allow_private_network && negb (is_global_ip (addr_ip peer)) then
        Err (if addr_is_loopback (addr_ip peer) then DnsLoopback else DnsNonroutable)
      else Ok peer
  | DestHostName host port =>
      match lookup_host host port with
      | Err e => Err (io_to_connection_error e)
      | Ok resolved =>
          match select_address resolved None with
          | None => Err (io_to_connection_error (mkIoError Other false))
          | Some SelLoopback => Err DnsLoopback
          | Some SelNonRoutable => Err DnsNonroutable
          | Some (SelSuitable x) => Ok x
          end
      end
  end.

(** [connect]; [tcp_connect] is [TcpStream::connect] with [set_nodelay]. *)
Definition connect (lookup_host : bytes -> Z -> result IoError (list SocketAddr))
    (tcp_connect : SocketAddr -> result IoError unit) (destination : TcpDestination)
  : result ConnectionError SocketAddr :=
  match choose_peer lookup_host destination with
  | Err e => Err e
  | Ok peer =>
      match tcp_connect peer with
      | Ok _ => Ok peer
      | Err e => Err (io_to_connection_error e)
      end
  end.

(** The addresses the endpoint may use, in the order of the resolver. *)
Definition usable (a : SocketAddr) : bool :=
  match addr_ip a with IpV6 _ => ipv6_available | IpV4 _ => true end.

Definition suitable (a : SocketAddr) : bool := is_global_ip (addr_ip a) || allow_private_network.

(** The first suitable address wins; otherwise the verdict is "loopback" only when
    the one usable address is a loopback address. *)
Lemma select_address_spec l status :
  (forall a, status <> Some (SelSuitable a)) ->
  select_address l status =
    match List.find (fun a => usable a && suitable a) l with
    | Some a => Some (SelSuitable a)
    | None =>
        match List.filter usable l with
        | [] => status
        | [a] => Some (match status with
                       | None => if addr_is_loopback (addr_ip a) then SelLoopback else SelNonRoutable
                       | Some _ => SelNonRoutable
                       end)
        | _ :: _ :: _ => Some SelNonRoutable
        end
    end.
Proof.
  revert status. induction l as [|a l IH]; intros status Hs; [done|]. cbn [select_address List.find List.filter].
  assert (match addr_ip a with IpV6 _ => negb ipv6_available | IpV4 _ => false end = negb (usable a)) as ->.
  { unfold usable. by destruct (addr_ip a). }
  fold (suitable a). destruct (usable a); cbn [negb andb]; [|by apply IH].
  destruct (suitable a); [done|].
  destruct (match status with None => _ | Some _ => _ end) eqn:El; rewrite IH by done;
    (destruct (List.find _ l); [done|]; destruct (List.filter _ l) as [|? []]; [|done|done]);
    destruct status; by rewrite ?El.
Qed.

End connect.

(** ** The halves of a stream *)

(** [StreamRx]: what was read from the socket; a round brings the outcomes of
    [read_buf], each the bytes at hand (none at the end of the stream) or an error.  A
    read takes no more of them than the buffer has room for. *)
Record StreamRx : Type := mkRx { rx_read : bytes }.

Definition read_buf (capacity : Z) (available : bytes) : bytes :=
  if len available <=? capacity then available else take (Z.to_nat capacity) available.

Lemma read_buf_le capacity available : 0 <= capacity -> len (read_buf capacity available) <= capacity.
Proof.
  intros Hc. unfold read_buf. destruct (Z.leb_spec (len available) capacity); [done|].
  unfold len. rewrite length_take. lia.
Qed.

Fixpoint rx_loop (outcomes : list (result ErrorKind bytes)) (self : StreamRx)
  : option (result ErrorKind Data) * StreamRx :=
  match outcomes with
  | [] => (None, self)
  | Ok [] :: _ => (Some (Ok Eof), self)
  | Ok available :: _ =>
      let buffer := read_buf READ_CHUNK_SIZE available in
      (Some (Ok (Chunk buffer)), mkRx (rx_read self ++ buffer))
  | Err WouldBlock :: outcomes => rx_loop outcomes self
  | Err e :: _ => (Some (Err e), self)
  end.

#[export] Instance stream_source : Source StreamRx (list (result ErrorKind bytes)) := {
  src_read := rx_loop;
  src_consume self _ := (Ok tt, self);
}.

(** [StreamTx]: the bytes that the socket took, and whether it was shut down. *)
Record StreamTx : Type := mkTx { tx_written : bytes; eof_pending : bool; tx_shutdown : bool }.

(** The answers of the socket in a round: the outcomes of [try_write] ([WouldBlock]
    when they are used up), of waiting, of flushing and of the shutdown. *)
Record TxEnv : Type := mkTxEnv {
  tx_try_write : list (result ErrorKind Z);
  tx_writable : option (result ErrorKind unit);
  tx_flush : option (result ErrorKind unit);
  tx_do_shutdown : option (result ErrorKind unit);
}.

Fixpoint tx_write_loop (outcomes : list (result ErrorKind Z)) (self : StreamTx) (data : bytes)
  : M (result ErrorKind bytes * StreamTx) :=
  if len data =? 0 then Ret (Ok data, self)
  else
    match outcomes with
    | [] | Err WouldBlock :: _ => Ret (Ok data, self)
    | Err e :: _ => Ret (Err e, self)
    | Ok n :: outcomes =>
        (* the socket takes at most what it is given *)
        let n := Z.max 0 (Z.min n (len data)) in
        let! rest := advance n data in
        tx_write_loop outcomes
          (mkTx (tx_written self ++ take (Z.to_nat n) data) (eof_pending self) (tx_shutdown self)) rest
    end.

Definition tx_write (env : TxEnv) (self : StreamTx) (data : bytes) : M (result ErrorKind bytes * StreamTx) :=
  if eof_pending self then Ret (Err Other, self) else tx_write_loop (tx_try_write env) self data.

Definition tx_eof (self : StreamTx) : result ErrorKind unit * StreamTx :=
  (Ok tt, mkTx (tx_written self) true (tx_shutdown self)).

Definition tx_wait_writable (env : TxEnv) (self : StreamTx) : option (result ErrorKind unit) * StreamTx :=
  if eof_pending self then (Some (Err Other), self) else (tx_writable env, self).

Definition tx_do_flush (env : TxEnv) (self : StreamTx) : option (result ErrorKind unit) * StreamTx :=
  match tx_flush env with
  | Some (Ok _) =>
      if eof_pending self then
        (tx_do_shutdown env,
         mkTx (tx_written self) (eof_pending self)
           (tx_shutdown self || match tx_do_shutdown env with Some (Ok _) => true | _ => false end))
      else (Some (Ok tt), self)
  | r => (r, self)
  end.

#[export] Instance stream_sink : Sink StreamTx TxEnv := {
  snk_write := tx_write;
  snk_eof := tx_eof;
  snk_flush := tx_do_flush;
  snk_wait_writable := tx_wait_writable;
}.

#[export] Instance stream_source_laws : SourceLaws StreamRx (list (result ErrorKind bytes)).
Proof.
  refine {| produced := rx_read |}.
  - intros env s r s' E. simpl in E. induction env as [|[[|x b]|[]] env IH]; cbn [rx_loop] in E;
      try (injection E as <- <-; by rewrite ?app_nil_r); by apply IH.
  - intros s n r s' E. by injection E as <- <-.
Defined.

#[export] Instance stream_reads_chunks : ReadsChunks StreamRx (list (result ErrorKind bytes)).
Proof.
  intros env s b s' E. cbn [src_read stream_source] in E.
  induction env as [|[[|x a]|[]] env IH]; cbn [rx_loop] in E; try done; [|by apply IH].
  injection E as <- _. apply read_buf_le. done.
Qed.

Lemma tx_write_loop_ok outcomes self data :
  exists r self' k rest, tx_write_loop outcomes self data = Ret (r, self') /\ data = k ++ rest /\
    tx_written self' = tx_written self ++ k /\ forall x, r = Ok x -> x = rest.
Proof.
  revert self data. induction outcomes as [|o outcomes IH]; intros self data; cbn [tx_write_loop].
  { destruct (len data =? 0); eexists _, _, [], data; rewrite app_nil_r; split_and!; try done; by intros x [= <-]. }
  destruct (len data =? 0).
  { eexists _, _, [], data. rewrite app_nil_r. split_and!; try done. by intros x [= <-]. }
  destruct o as [n|e].
  - set (m := Z.max 0 (Z.min n (len data))). pose proof (len_nonneg data).
    unfold advance, split_off. rewrite (proj2 (Z.leb_le m (len data))) by lia. cbn [bindM].
    destruct (IH (mkTx (tx_written self ++ take (Z.to_nat m) data) (eof_pending self) (tx_shutdown self))
      (drop (Z.to_nat m) data)) as (r & s' & k & rest & -> & Ek & Ew & Hr).
    eexists _, _, (take (Z.to_nat m) data ++ k), rest. simpl in Ew. split_and!; [done| | |done].
    + by rewrite <- app_assoc, <- Ek, take_drop.
    + by rewrite Ew, <- app_assoc.
  - destruct e; eexists _, _, [], data; rewrite app_nil_r; split_and!; try done; by intros x [= <-].
Qed.

#[export] Instance stream_sink_laws : SinkLaws StreamTx TxEnv.
Proof.
  refine {| accepted := tx_written; ended := eof_pending; fits _ := True |}; [done..| | | | |].
  - intros env s data _. simpl. unfold tx_write. destruct (eof_pending s); [by eexists _, _|].
    destruct (tx_write_loop_ok (tx_try_write env) s data) as (r & s' & _ & _ & E & _). by eexists _, _.
  - intros env s data r s' E. simpl in E. unfold tx_write in E. destruct (eof_pending s).
    { injection E as <- <-. exists [], data. by rewrite app_nil_r. }
    destruct (tx_write_loop_ok (tx_try_write env) s data) as (r1 & s1 & k & rest & E1 & Hs).
    rewrite E in E1. apply Ret_inj in E1. injection E1 as <- <-. by exists k, rest.
  - intros s r s' E. by injection E as <- <-.
  - intros env s r s' E. simpl in E. unfold tx_do_flush in E.
    destruct (tx_flush env) as [[[]|]|]; [|by injection E as <- <-..].
    destruct (eof_pending s) eqn:Ee; injection E as <- <-; simpl; by rewrite ?Ee.
  - intros env s r s' E. simpl in E. unfold tx_wait_writable in E.
    by destruct (eof_pending s); injection E as <- <-.
Defined.

#[export] Instance stream_takes_any : TakesAny StreamTx TxEnv.
Proof. by intros b. Qed.

(** A call of the duplex pipe between two streams, and a direction of it before any
    data. *)
Abbreviation TcpCall :=
  (DuplexCall (list (result ErrorKind bytes)) TxEnv (list (result ErrorKind bytes)) TxEnv).

Definition new_direction (now : Z) : SimplexPipe StreamRx StreamTx :=
  simplex_new (mkRx []) (mkTx [] false false) now.

(** ** Properties *)

(** Without permission for private networks a connection is made only to
    a global address; for a host name, to the first usable resolved address that is
    admitted.  When there is none, the client is told "loopback" exactly when the single
    usable address is a loopback address: a name with two loopback addresses, such as
    localhost, is reported as non-routable. *)
Theorem tcp_connect_selection (ipv6 : bool) (lookup_host : bytes -> Z -> result IoError (list SocketAddr))
    (tcp_connect : SocketAddr -> result IoError unit) (destination : TcpDestination) :
  (forall peer, connect ipv6 false lookup_host tcp_connect destination = Ok peer ->
     is_global_ip (addr_ip peer) = true /\ tcp_connect peer = Ok tt) /\
  (forall h p l, destination = DestHostName h p -> lookup_host h p = Ok l ->
     choose_peer ipv6 false lookup_host destination =
       match List.find (fun a => usable ipv6 a && is_global_ip (addr_ip a)) l, List.filter (usable ipv6) l with
       | Some a, _ => Ok a
       | None, [] => Err (Tunnel.Io Other)
       | None, [a] => Err (if addr_is_loopback (addr_ip a) then DnsLoopback else DnsNonroutable)
       | None, _ :: _ :: _ => Err DnsNonroutable
       end).
Proof.
  assert (forall l, List.find (fun a => usable ipv6 a && suitable false a) l =
                    List.find (fun a => usable ipv6 a && is_global_ip (addr_ip a)) l) as Hf.
  { induction l as [|a l IH]; [done|]. simpl. unfold suitable at 1. by rewrite orb_false_r, IH. }
  assert (forall h p l, destination = DestHostName h p -> lookup_host h p = Ok l ->
     choose_peer ipv6 false lookup_host destination =
       match List.find (fun a => usable ipv6 a && is_global_ip (addr_ip a)) l, List.filter (usable ipv6) l with
       | Some a, _ => Ok a
       | None, [] => Err (Tunnel.Io Other)
       | None, [a] => Err (if addr_is_loopback (addr_ip a) then DnsLoopback else DnsNonroutable)
       | None, _ :: _ :: _ => Err DnsNonroutable
       end) as Hsel.
  { intros h p l -> Hl. unfold choose_peer. rewrite Hl, select_address_spec, Hf by done.
    destruct (List.find _ l); [done|]. destruct (List.filter _ l) as [|a []]; [done| |done].
    by destruct (addr_is_loopback (addr_ip a)). }
  split; [|done]. intros peer. unfold connect.
  destruct (choose_peer _ _ _ _) as [x|] eqn:Ec; [|done]. destruct (tcp_connect x) as [[]|] eqn:Et; [|done].
  intros [= <-]. split; [|done]. destruct destination as [a|h p].
  - unfold choose_peer in Ec. destruct (is_global_ip (addr_ip a)) eqn:Eg; [|done]. by injection Ec as <-.
  - destruct (lookup_host h p) as [l|] eqn:El; [|unfold choose_peer in Ec; by rewrite El in Ec].
    generalize (Hsel h p l eq_refl El).
    destruct (List.find _ l) as [a|] eqn:Ef; [|by destruct (List.filter _ l) as [|? []]].
    intros [= <-]. apply find_some in Ef as [_ Ef]. by apply andb_true_iff in Ef as [_ ?].
Qed.

(** C3: whatever the sockets answer, however the two directions interleave and
    however often a direction times out or is abandoned and started again, a duplex pipe
    between TCP streams never panics; at every point, also after an error, the bytes
    written in each direction are a prefix of the bytes read, in order and without loss or
    duplication; and success means that in both directions everything was written and
    metered and the end of the stream was passed on. *)
Theorem tcp_pipe_integrity (now timeout : Z) (calls : list TcpCall) :
  exists r self,
    duplex_exchange timeout calls (mkDuplex (new_direction now) (new_direction now)) = Ret (r, self) /\
    (exists rest, rx_read (sp_source (left_pipe self)) = tx_written (sp_sink (left_pipe self)) ++ rest) /\
    (exists rest, rx_read (sp_source (right_pipe self)) = tx_written (sp_sink (right_pipe self)) ++ rest) /\
    (r = Some (Ok tt) ->
       Forall (fun p => rx_read (sp_source p) = tx_written (sp_sink p) /\ eof_pending (sp_sink p) = true /\
                        metered p = len (tx_written (sp_sink p))) [left_pipe self; right_pipe self]).
Proof.
  destruct (duplex_exchange_ok timeout calls (mkDuplex (new_direction now) (new_direction now)))
    as (r & self & E & Hl & Hr & Hok); [done..|].
  exists r, self. split_and!; [exact E|exact Hl|exact Hr|]. intros Hs.
  destruct (Hok Hs). by repeat apply Forall_cons_2.
Qed.


(** A round at [now] in which the source brings [outcomes]. *)
Definition sample_round (now : Z) (outcomes : list (result ErrorKind bytes))
  : RoundEnv (list (result ErrorKind bytes)) TxEnv :=
  let tx := mkTxEnv [Ok 100] (Some (Ok tt)) (Some (Ok tt)) None in
  mkRound now outcomes tx tx tx tx.

Ltac timely_tac :=
  split_and!; try done; cbn;
  repeat first [apply Sorted.SSorted_nil | apply Sorted.SSorted_cons | apply Forall_nil_2 | apply Forall_cons_2 | lia].

Definition sample_pipe : DuplexPipe StreamRx StreamTx StreamRx StreamTx := mkDuplex (new_direction 0) (new_direction 0).

Definition sample_busy_call : TcpCall := mkCall [sample_round 0 [Ok [1; 2]]; sample_round 5 []] [sample_round 0 []] true 14.

Definition sample_idle_call : TcpCall := mkCall [sample_round 14 []] [sample_round 14 []] true 26.

Lemma sample_punctual : punctual_run 10 1 [sample_busy_call; sample_idle_call] sample_pipe.
Proof.
  split; [|intros self' E; apply Ret_inj in E; injection E as <-; split; [|done]]; split; [timely_tac| | |timely_tac| |].
  - by intros a b [= <-] [= <-].
  - intros r1 lp r2 rp E1 E2 _ _ _. apply Ret_inj in E2. injection E2 as <- _. right. split; [done|]. cbn.
    apply Forall_cons_2; [lia|done].
  - by intros a b [= <-] [= <-].
  - intros r1 lp r2 rp E1 E2 _ _ _. apply Ret_inj in E1. injection E1 as <- _. left. split; [done|]. cbn.
    apply Forall_cons_2; [lia|done].
Defined.


(** Calls whose timer fires after exactly the timeout of 10 and a unit for the way to the
    check. *)
Definition exact_call (i : nat) : TcpCall :=
  mkCall [sample_round (11 * Z.of_nat i) []] [sample_round (11 * Z.of_nat i + 1) []] true (11 * Z.of_nat i + 11).

(** The lateness of the timers matters: each call sets the activity of both directions
    anew, so that with exact ones the second direction, polled an instant after the first,
    keeps an idle pipe open in every call. *)
Lemma exact_timers_keep_pipe (n k : nat) (left_at right_at : Z) :
  exists self', duplex_exchange 10 (exact_call <$> seq k n) (mkDuplex (new_direction left_at) (new_direction right_at)) = Ret (None, self').
Proof.
  revert k left_at right_at. induction n as [|n IH]; intros k l r; [by eexists|].
  cbn [seq]. rewrite fmap_cons. cbn [duplex_exchange]. change (exchange_once (exact_call k) _) with
    (Ret (Some (Ok (E := ErrorKind) TimedOut), mkDuplex (new_direction (11 * Z.of_nat k)) (new_direction (11 * Z.of_nat k + 1)))).
  cbn [bindM left_pipe right_pipe]. rewrite (proj2 (Z.ltb_ge (last_activity (new_direction (11 * Z.of_nat k + 1))) _)) by (cbn; lia).
  rewrite andb_false_r. apply IH.
Qed.
