(* ===== verification/ForwardedStream.v ===== *)
(** * Plain HTTP requests forwarded to a peer

    lib/src/http_forwarded_stream.rs: a request that is not CONNECT is rewritten as an
    HTTP/1 request for its target (the source), and the HTTP/1 response is parsed and
    handed to the client's codec (the sink).  [httparse] is a parameter, the client's
    stream an instance of the pipe interface. *)

From S2P Require Import Prelude.
From S2P Require Import Codecs.
From S2P Require Import Varint.
From S2P Require Import NetUtils.
From S2P Require Import Auth.
From S2P Require Import Tunnel.
From S2P Require Import Pipe.

Definition INITIAL_RESPONSE_HEADERS_BUFFER_SIZE : Z := 32.
Definition MAX_RESPONSE_HEADERS_NUM : Z := 128.
Definition CRLF : bytes := [13; 10].
Definition ENCODED_CHUNK_SUFFIX : bytes := CRLF.

Inductive BodyLength : Type :=
| Determined (n : Z)
| Chunked.

Inductive Version : Type := HTTP_09 | HTTP_10 | HTTP_11 | HTTP_2 | HTTP_3.

#[export] Instance Version_eq_dec : EqDecision Version.
Proof. solve_decision. Defined.

(** ** The request *)

(** [http::request::Parts], with the parts of its URI. *)
Record RequestHeaders : Type := mkRequestHeaders {
  rq_method : bytes;
  rq_path : bytes;
  rq_path_and_query : option bytes;
  rq_authority : option bytes;
  rq_version : Version;
  rq_headers : list (bytes * bytes);
}.

Definition version_major_digit (v : Version) : Z := match v with HTTP_09 => 0 | _ => 1 end.

Definition version_minor_digit (v : Version) : Z :=
  match v with HTTP_09 => 0 | HTTP_10 => 0 | HTTP_11 => 1 | HTTP_2 => 1 | HTTP_3 => 1 end.

(** [str::parse::<u64>]: decimal digits after an optional plus sign. *)
Definition is_digit (c : Z) : bool := (0x30 <=? c) && (c <=? 0x39).

Definition parse_u64 (s : bytes) : option Z :=
  let digits := match s with 0x2B :: r => r | r => r end in
  if negb (len digits =? 0) && forallb is_digit digits then
    let v := fold_left (fun a c => a * 10 + (c - 0x30)) digits 0 in
    if v <? 2 ^ 64 then Some v else None
  else None.

Definition header_line (name value : bytes) : bytes := name ++ str ": " ++ value ++ CRLF.

Section request.
(** [to_str] is [http::HeaderValue::to_str]. *)
Context (to_str : bytes -> option bytes).

Definition request_line (r : RequestHeaders) : bytes :=
  rq_method r ++ str " "
  ++ (if bool_decide (rq_method r = str "OPTIONS") then str "*"
      else match rq_path_and_query r with Some x => x | None => rq_path r end)
  ++ str " HTTP/" ++ [0x30 + version_major_digit (rq_version r)] ++ str "."
  ++ [0x30 + version_minor_digit (rq_version r)] ++ CRLF.

(** The body length after a header that is copied. *)
Definition note_body_length (name value : bytes) (body_length : option BodyLength)
  : result ErrorKind (option BodyLength) :=
  if bool_decide (name = str "content-length") then
    match body_length with
    | None =>
        match to_str value with
        | None => Err Other
        | Some s => match parse_u64 s with Some n => Ok (Some (Determined n)) | None => Err Other end
        end
    | Some (Determined _) => Err Other
    | Some Chunked => Ok body_length
    end
  else if bool_decide (name = str "transfer-encoding") && bool_decide (value = str "chunked")
  then Ok (Some Chunked)
  else Ok body_length.

(** The loop over the headers: what was serialized, whether the host was inserted, and
    the length of the body. *)
Fixpoint serialize_headers (target_host : bytes) (headers : list (bytes * bytes)) (serialized : bytes)
    (host_inserted : bool) (body_length : option BodyLength)
  : result ErrorKind (bytes * bool * option BodyLength) :=
  match headers with
  | [] => Ok (serialized, host_inserted, body_length)
  | (name, value) :: headers =>
      if bool_decide (name = str "proxy-authorization") then
        serialize_headers target_host headers serialized host_inserted body_length
      else if bool_decide (name = str "proxy-connection") then
        serialize_headers target_host headers serialized host_inserted body_length
      else if bool_decide (name = str "host") then
        if host_inserted then Err Other
        else serialize_headers target_host headers (serialized ++ header_line (str "host") target_host) true body_length
      else
        match note_body_length name value body_length with
        | Err e => Err e
        | Ok body_length =>
            serialize_headers target_host headers (serialized ++ header_line name value) host_inserted body_length
        end
  end.

Definition serialize_request (r : RequestHeaders) : result ErrorKind (bytes * BodyLength) :=
  match rq_authority r with
  | None => Err Other
  | Some target_host =>
      match serialize_headers target_host (rq_headers r) (request_line r) false None with
      | Err e => Err e
      | Ok (serialized, host_inserted, body_length) =>
          let serialized :=
            (if host_inserted then serialized else serialized ++ header_line (str "host") target_host) ++ CRLF in
          let body_length :=
            if bool_decide (rq_method r = str "HEAD") then Some (Determined 0)
            else match body_length with
                 | Some b => Some b
                 | None => match rq_version r with HTTP_2 | HTTP_3 => Some Chunked | _ => None end
                 end in
          Ok (serialized, match body_length with Some b => b | None => Determined 0 end)
      end
  end.

(** The headers that the peer should see. *)
Definition forwarded_headers (target_host : bytes) (headers : list (bytes * bytes)) : list (bytes * bytes) :=
  mbind (fun '(name, value) =>
    if bool_decide (name = str "proxy-authorization") || bool_decide (name = str "proxy-connection") then []
    else if bool_decide (name = str "host") then [(str "host", target_host)] else [(name, value)]) headers.

Definition with_host (target_host : bytes) (l : list (bytes * bytes)) : list (bytes * bytes) :=
  if bool_decide (str "host" ∈ l.*1) then l else l ++ [(str "host", target_host)].

Definition header_block (l : list (bytes * bytes)) : bytes := mjoin ((fun '(n, v) => header_line n v) <$> l).

Lemma header_block_app l k : header_block (l ++ k) = header_block l ++ header_block k.
Proof. unfold header_block. by rewrite fmap_app, join_app. Qed.

Lemma header_block_one n v : header_block [(n, v)] = header_line n v.
Proof. unfold header_block. simpl. by rewrite app_nil_r. Qed.

Lemma serialize_headers_spec host headers s hi bl s' hi' bl' :
  serialize_headers host headers s hi bl = Ok (s', hi', bl') ->
  s' = s ++ header_block (forwarded_headers host headers) /\
  (hi = true -> str "host" ∉ (forwarded_headers host headers).*1 /\ hi' = true) /\
  (hi = false -> hi' = bool_decide (str "host" ∈ (forwarded_headers host headers).*1) /\
     length (base.filter (fun h => h.1 = str "host") (forwarded_headers host headers)) = if hi' then 1%nat else 0%nat).
Proof.
  revert s hi bl. induction headers as [|[n v] headers IH]; intros s hi bl E; cbn [serialize_headers] in E.
  { injection E as <- <- <-. rewrite app_nil_r. split; [done|].
    split; intros ->; (split; [|done]); [apply not_elem_of_nil|]. symmetry. apply bool_decide_eq_false, not_elem_of_nil. }
  unfold forwarded_headers. rewrite bind_cons. fold (forwarded_headers host headers).
  destruct (bool_decide_reflect (n = str "proxy-authorization")); [by apply IH in E|].
  destruct (bool_decide_reflect (n = str "proxy-connection")); [by apply IH in E|]. cbn [orb].
  destruct (bool_decide_reflect (n = str "host")) as [->|Hn].
  - destruct hi; [done|]. apply IH in E as (-> & Ht & _). destruct (Ht eq_refl) as [Hni ->].
    split; [by rewrite header_block_app, header_block_one, app_assoc|]. split; [done|]. intros _. split.
    + symmetry. apply bool_decide_eq_true. set_solver.
    + cbn [app]. rewrite filter_cons_True by done. cbn [length]. f_equal.
      destruct (base.filter _ _) as [|x l] eqn:Ef; [done|]. destruct Hni.
      assert (x ∈ base.filter (fun h => h.1 = str "host") (forwarded_headers host headers)) as Hx by (rewrite Ef; left).
      apply list_elem_of_filter in Hx as [<- Hx]. by apply list_elem_of_fmap_2.
  - destruct (note_body_length _ _ _); [|done]. apply IH in E as (-> & Ht & Hf).
    split; [by rewrite header_block_app, header_block_one, app_assoc|]. cbn [app]. split.
    + intros Hh. destruct (Ht Hh) as [Hni ->]. split; [|done]. cbn. rewrite not_elem_of_cons. auto.
    + intros Hh. destruct (Hf Hh) as [-> Hl]. split.
      * apply bool_decide_ext. cbn. rewrite elem_of_cons. naive_solver.
      * by rewrite filter_cons_False.
Qed.

End request.

(** ** The source: the request and its body *)

Section source.
Context {Src REnv : Type} `{Source Src REnv}.

Inductive SourceState : Type :=
| WantSendRequest (request : Src) (serialized_request : bytes) (body_length : BodyLength)
| TransferringBody (source : Src) (body_length : BodyLength) (sent_bytes : Z)
| SourceDone.

Record ForwardedStreamSource : Type := mkFwdSource {
  fs_state : SourceState;
  skip_consume_bytes : Z;
}.

Definition on_read_request (request : Src) (serialized_request : bytes) (body_length : BodyLength)
  : Data * ForwardedStreamSource :=
  (Chunk serialized_request,
   mkFwdSource (match body_length with
                | Determined 0 => SourceDone
                | _ => TransferringBody request body_length 0
                end) (len serialized_request)).

(** [read_body]: the state is [Done] while it waits for the body, and stays so when
    the read fails or is abandoned. *)
Definition read_body (env : REnv) (self : ForwardedStreamSource) (source : Src) (body_length : BodyLength)
    (sent_bytes : Z) : option (result ErrorKind Data) * ForwardedStreamSource :=
  let done := mkFwdSource SourceDone (skip_consume_bytes self) in
  match src_read env source with
  | (None, _) => (None, done)
  | (Some (Err e), _) => (Some (Err e), done)
  | (Some (Ok result), source) =>
      let going (sent : Z) :=
        mkFwdSource (TransferringBody source body_length sent) (skip_consume_bytes self) in
      match result, body_length with
      | Chunk b, Determined n =>
          if sent_bytes <? n then
            let to_send := Z.min (len b) (n - sent_bytes) in
            (Some (Ok (Chunk (take (Z.to_nat to_send) b))), going (sent_bytes + to_send))
          else (Some (Ok Eof), done)
      | Eof, Determined _ => (Some (Ok Eof), done)
      | Chunk b, Chunked => (Some (Ok (Chunk b)), going (sent_bytes + len b))
      | Eof, Chunked => (Some (Ok Eof), done)
      end
  end.

Definition fs_read (env : REnv) (self : ForwardedStreamSource)
  : option (result ErrorKind Data) * ForwardedStreamSource :=
  match fs_state self with
  | WantSendRequest request serialized body_length =>
      let (d, self) := on_read_request request serialized body_length in (Some (Ok d), self)
  | SourceDone => (Some (Ok Eof), self)
  | TransferringBody source body_length sent_bytes => read_body env self source body_length sent_bytes
  end.

Definition fs_consume (self : ForwardedStreamSource) (size : Z)
  : result ErrorKind unit * ForwardedStreamSource :=
  let to_sub := if 0 <? skip_consume_bytes self then Z.min (skip_consume_bytes self) size else 0 in
  let self := mkFwdSource (fs_state self) (skip_consume_bytes self - to_sub) in
  let size := size - to_sub in
  if (0 <? to_sub) && (size =? 0) then (Ok tt, self)
  else
    match fs_state self with
    | TransferringBody source body_length sent =>
        let (r, source) := src_consume source size in
        (r, mkFwdSource (TransferringBody source body_length sent) (skip_consume_bytes self))
    | _ => (Ok tt, self)
    end.

End source.
Arguments SourceState : clear implicits.
Arguments ForwardedStreamSource : clear implicits.

(** ** The sink: the response and its body *)

(** A parsed response: its status and its headers. *)
Record HttpResponse : Type := mkResponse { rs_status : Z; rs_headers : list (bytes * bytes) }.

Inductive ParseResult (A : Type) : Type :=
| Complete (a : A)
| Partial
| TooManyHeaders
| ParseError.
Arguments Complete {A}.
Arguments Partial {A}.
Arguments TooManyHeaders {A}.
Arguments ParseError {A}.

(** What the client is sent besides the body. *)
Inductive ClientEvent : Type :=
| Intermediate (r : HttpResponse)
| Final (r : HttpResponse) (eof : bool)
| BadGateway.

Definition to_lower (s : bytes) : bytes :=
  (fun c => if (0x41 <=? c) && (c <=? 0x5A) then c + 32 else c) <$> s.

Definition is_space (c : Z) : bool := (c =? 0x20) || ((9 <=? c) && (c <=? 13)).

Fixpoint trim_start (s : bytes) : bytes :=
  match s with [] => [] | c :: r => if is_space c then trim_start r else s end.

Definition trim_end (s : bytes) : bytes := rev (trim_start (rev s)).

(** [str::split] at a character. *)
Fixpoint split_char (c : Z) (s : bytes) : list bytes :=
  match s with
  | [] => [[]]
  | x :: r => if x =? c then [] :: split_char c r
              else match split_char c r with [] => [[x]] | w :: ws => (x :: w) :: ws end
  end.

Section sink.
Context {Snk WEnv : Type} `{Sink Snk WEnv}.
(** [httparse::Response::parse] with room for the given number of headers,
    [httparse::parse_chunk_size], and whether [http::response::Builder] accepts the
    headers. *)
Context (parse_http : Z -> bytes -> ParseResult (Z * HttpResponse))
  (parse_chunk_size : bytes -> ParseResult (Z * Z)) (build_ok : HttpResponse -> bool).
Context (request_method : bytes) (request_version : Version).

Inductive SinkState : Type :=
| Idle
| WaitingResponse (headers_buffer : bytes)
| TransferringBodyNonEncoded (sink : Snk) (body_length : option Z) (sent_bytes : Z)
| WaitingChunkPrefix (buffer : bytes) (sink : Snk)
| TransferringBodyChunked (sink : Snk) (remaining_chunk_size : option Z)
| WaitingChunkSuffix (buffer : bytes) (terminating_chunk : bool) (sink : Snk).

Record ForwardedStreamSink : Type := mkFwdSink { fk_state : SinkState; fake_unsent : bool }.

(** The loop over the headers of a response: the headers to drop, those kept, and the
    length of the body. *)
Fixpoint convert_headers (l : list (bytes * bytes)) (drop_headers : list bytes) (kept : list (bytes * bytes))
    (body_length : option BodyLength) : result ErrorKind (list (bytes * bytes) * option BodyLength) :=
  match l with
  | [] => Ok (kept, body_length)
  | (name, value) :: l =>
      let x := to_lower name in
      if bool_decide (x ∈ drop_headers) then convert_headers l drop_headers kept body_length
      else if bool_decide (x = str "connection") then
        let more := if utf8_valid value then
                      (fun w => to_lower (trim_end (trim_start w))) <$>
                        base.filter (fun w => w <> str "close") (split_char 0x2C value)
                    else [] in
        convert_headers l (drop_headers ++ more) kept body_length
      else if bool_decide (x = str "transfer-encoding")
              && match request_version with HTTP_2 | HTTP_3 => true | _ => false end then
        convert_headers l (drop_headers ++ [str "content-length"; str "transfer-encoding"]) kept
          (if bool_decide (value = str "chunked") then Some Chunked else body_length)
      else
        match (match body_length with
               | None =>
                   if bool_decide (x = str "content-length") then
                     if utf8_valid value then
                       match parse_u64 value with Some n => Ok (Some (Determined n)) | None => Err Other end
                     else Err Other
                   else Ok None
               | b => Ok b
               end) with
        | Err e => Err e
        | Ok body_length => convert_headers l drop_headers (kept ++ [(trim_end name, value)]) body_length
        end
  end.

Definition convert_response (response : HttpResponse) : result ErrorKind (HttpResponse * option BodyLength) :=
  match convert_headers (rs_headers response)
          [str "proxy-connection"; str "keep-alive"; str "upgrade"] [] None with
  | Err e => Err e
  | Ok (kept, body_length) =>
      let code := rs_status response in
      let body_length :=
        if bool_decide (request_method = str "HEAD") || ((100 <=? code) && (code <? 200)) || (code =? 204) || (code =? 304)
        then Some (Determined 0) else body_length in
      let r := mkResponse code kept in
      if build_ok r then Ok (r, body_length) else Err Other
  end.

(** The parsing loop: the room for headers is doubled up to the maximum. *)
Fixpoint parse_loop (fuel : nat) (room : Z) (data : bytes) : ParseResult (Z * HttpResponse) :=
  match fuel with
  | O => ParseError
  | S fuel =>
      match parse_http room data with
      | TooManyHeaders => if room <? MAX_RESPONSE_HEADERS_NUM then parse_loop fuel (2 * room) data else ParseError
      | r => r
      end
  end.

(** [parse_response]; the buffer is given back for an incomplete head.  Three rounds
    reach the maximal room. *)
Definition parse_response (headers_buffer data : bytes)
  : M (result ErrorKind (option (HttpResponse * option BodyLength) * bytes) * bytes) :=
  let data := headers_buffer ++ data in
  match parse_loop 3 INITIAL_RESPONSE_HEADERS_BUFFER_SIZE data with
  | Complete (pos, response) =>
      match convert_response response with
      | Err e => Ret (Err e, [])
      | Ok x => let! tail := split_off pos data in Ret (Ok (Some x, tail), [])
      end
  | Partial => Ret (Ok (None, []), data)
  | _ => Ret (Err Other, [])
  end.

(** [on_response_headers_chunk]; [respond] is the outcome of [send_response] and
    [respond_1xx] of [send_intermediate_response]. *)
Definition on_response_headers_chunk (respond : result ErrorKind Snk) (respond_1xx : result ErrorKind unit)
    (self : ForwardedStreamSink) (headers_buffer data : bytes)
  : M (result ErrorKind bytes * ForwardedStreamSink * list ClientEvent) :=
  let! (r, buffer) := parse_response headers_buffer data in
  let waiting := mkFwdSink (WaitingResponse buffer) (fake_unsent self) in
  match r with
  | Err e => Ret (Err e, waiting, [])
  | Ok (None, tail) => Ret (Ok tail, waiting, [])
  | Ok (Some (response, body_length), tail) =>
      if (100 <=? rs_status response) && (rs_status response <? 200) then
        match respond_1xx with
        | Err e => Ret (Err e, waiting, [])
        | Ok _ => Ret (Ok tail, waiting, [Intermediate response])
        end
      else
        match respond with
        | Err e => Ret (Err e, mkFwdSink Idle (fake_unsent self), [])
        | Ok sink =>
            let eof := match body_length with Some (Determined 0) => true | _ => false end in
            Ret (Ok tail,
                 mkFwdSink (match body_length with
                            | Some Chunked => WaitingChunkPrefix [] sink
                            | Some (Determined n) => TransferringBodyNonEncoded sink (Some n) 0
                            | None => TransferringBodyNonEncoded sink None 0
                            end) (negb (len tail =? 0)),
                 [Final response eof])
        end
  end.

Definition on_non_encoded_chunk (env : WEnv) (self : ForwardedStreamSink) (sink : Snk)
    (body_length : option Z) (sent_bytes : Z) (data : bytes)
  : M (result ErrorKind bytes * ForwardedStreamSink) :=
  let put (sink : Snk) (sent : Z) :=
    mkFwdSink (TransferringBodyNonEncoded sink body_length sent) (fake_unsent self) in
  match match body_length with
        | None => Ok (len data)
        | Some n => if n <=? sent_bytes then Err UnexpectedEof else Ok (Z.min (len data) (n - sent_bytes))
        end with
  | Err e => Ret (Err e, self)
  | Ok to_send =>
      if to_send =? 0 then Ret (Ok data, self)
      else
        let chunk_size := len data in
        let! part := slice data 0 to_send in
        let! (w, sink) := snk_write env sink part in
        match w with
        | Err e => Ret (Err e, put sink sent_bytes)
        | Ok unsent =>
            let! d := usub chunk_size (len unsent) in
            let sent := sent_bytes + d in
            let! (closed, sink) :=
              if bool_decide (Some sent = body_length) then
                let! _ := assertM (len unsent =? 0) in
                let! _ := assertM (len data =? to_send) in
                Ret (snk_eof sink)
              else Ret (Ok tt, sink) in
            match closed with
            | Err e => Ret (Err e, put sink sent)
            | Ok _ =>
                let! k := usub to_send (len unsent) in
                let! rest := split_off k data in
                Ret (Ok rest, put sink sent)
            end
        end
  end.

Definition on_encoded_chunk_prefix (self : ForwardedStreamSink) (buffer : bytes) (sink : Snk) (data : bytes)
  : M (result ErrorKind bytes * ForwardedStreamSink) :=
  let data := buffer ++ data in
  match parse_chunk_size data with
  | Complete (pos, chunk_size) =>
      let! tail := split_off pos data in
      Ret (Ok tail,
           mkFwdSink (if chunk_size =? 0 then WaitingChunkSuffix [] true sink
                      else TransferringBodyChunked sink (Some chunk_size)) (negb (len tail =? 0)))
  | Partial => Ret (Ok [], mkFwdSink (WaitingChunkPrefix data sink) (fake_unsent self))
  | _ => Ret (Err Other, mkFwdSink (WaitingChunkPrefix [] sink) (fake_unsent self))
  end.

(** [on_encoded_chunk]: the state is taken and put back only at the end of the chunk. *)
Definition on_encoded_chunk (env : WEnv) (self : ForwardedStreamSink) (sink : Snk)
    (remaining_chunk_size : option Z) (data : bytes) : M (result ErrorKind bytes * ForwardedStreamSink) :=
  let! size := unwrap remaining_chunk_size in
  let to_send := Z.min (len data) size in
  let! part := slice data 0 to_send in
  let! (w, sink) := snk_write env sink part in
  match w with
  | Err e => Ret (Err e, mkFwdSink Idle (fake_unsent self))
  | Ok unsent =>
      let remaining := Z.max 0 (size - to_send) in
      let state := if 0 <? remaining then Idle else WaitingChunkSuffix [] false sink in
      let! k := usub to_send (len unsent) in
      let! rest := split_off k data in
      Ret (Ok rest, mkFwdSink state (negb (len data =? 0)))
  end.

Definition on_encoded_chunk_suffix (self : ForwardedStreamSink) (buffer : bytes) (terminating_chunk : bool)
    (sink : Snk) (data : bytes) : M (result ErrorKind bytes * ForwardedStreamSink) :=
  let! room := usub (len ENCODED_CHUNK_SUFFIX) (len buffer) in
  let! (read, data) := split_to (Z.min (len data) room) data in
  let suffix := buffer ++ read in
  if negb (starts_with suffix ENCODED_CHUNK_SUFFIX) then Ret (Err Other, mkFwdSink Idle (fake_unsent self))
  else if len suffix <? len ENCODED_CHUNK_SUFFIX then
    Ret (Ok data, mkFwdSink (WaitingChunkSuffix suffix terminating_chunk sink) (fake_unsent self))
  else if terminating_chunk then
    let (r, _) := snk_eof sink in
    Ret (match r with Ok _ => Ok [] | Err e => Err e end, mkFwdSink Idle (fake_unsent self))
  else Ret (Ok data, mkFwdSink (WaitingChunkPrefix [] sink) (fake_unsent self)).

(** [write]. *)
Definition fk_write (respond : result ErrorKind Snk) (respond_1xx : result ErrorKind unit) (env : WEnv)
    (self : ForwardedStreamSink) (data : bytes)
  : M (result ErrorKind bytes * ForwardedStreamSink * list ClientEvent) :=
  match fk_state self with
  | Idle => Ret (Err Other, self, [])
  | WaitingResponse buffer =>
      let! (r, self, evs) := on_response_headers_chunk respond respond_1xx self buffer data in
      match r, fk_state self with
      | Err e, WaitingResponse _ => Ret (Err e, mkFwdSink Idle (fake_unsent self), evs ++ [BadGateway])
      | _, _ => Ret (r, self, evs)
      end
  | TransferringBodyNonEncoded sink body_length sent =>
      let! (r, self) := on_non_encoded_chunk env self sink body_length sent data in Ret (r, self, [])
  | WaitingChunkPrefix buffer sink =>
      let! (r, self) := on_encoded_chunk_prefix self buffer sink data in Ret (r, self, [])
  | TransferringBodyChunked sink remaining =>
      let! (r, self) := on_encoded_chunk env self sink remaining data in Ret (r, self, [])
  | WaitingChunkSuffix buffer terminating sink =>
      let! (r, self) := on_encoded_chunk_suffix self buffer terminating sink data in Ret (r, self, [])
  end.

Definition inner_sink (st : SinkState) : option Snk :=
  match st with
  | Idle | WaitingResponse _ => None
  | TransferringBodyNonEncoded s _ _ | WaitingChunkPrefix _ s | TransferringBodyChunked s _
  | WaitingChunkSuffix _ _ s => Some s
  end.

(** [eof]. *)
Definition fk_eof (self : ForwardedStreamSink) : result ErrorKind unit * ForwardedStreamSink * list ClientEvent :=
  let idle := mkFwdSink Idle (fake_unsent self) in
  match fk_state self with
  | WaitingResponse _ => (Ok tt, idle, [BadGateway])
  | st => match inner_sink st with
          | Some sink => (fst (snk_eof sink), idle, [])
          | None => (Ok tt, idle, [])
          end
  end.

(** [wait_writable]. *)
Definition fk_wait_writable (env : WEnv) (self : ForwardedStreamSink)
  : option (result ErrorKind unit) * ForwardedStreamSink :=
  if fake_unsent self then (Some (Ok tt), mkFwdSink (fk_state self) false)
  else
    match fk_state self with
    | Idle | WaitingResponse _ => (Some (Err Other), self)
    | WaitingChunkPrefix _ _ | WaitingChunkSuffix _ _ _ => (Some (Ok tt), self)
    | TransferringBodyNonEncoded sink b s =>
        let (r, sink) := snk_wait_writable env sink in
        (r, mkFwdSink (TransferringBodyNonEncoded sink b s) false)
    | TransferringBodyChunked sink b =>
        let (r, sink) := snk_wait_writable env sink in
        (r, mkFwdSink (TransferringBodyChunked sink b) false)
    end.

(** [flush]. *)
Definition fk_flush (env : WEnv) (self : ForwardedStreamSink)
  : option (result ErrorKind unit) * ForwardedStreamSink :=
  match fk_state self with
  | Idle | WaitingResponse _ => (Some (Ok tt), self)
  | TransferringBodyNonEncoded sink b s =>
      let (r, sink) := snk_flush env sink in (r, mkFwdSink (TransferringBodyNonEncoded sink b s) (fake_unsent self))
  | WaitingChunkPrefix b sink =>
      let (r, sink) := snk_flush env sink in (r, mkFwdSink (WaitingChunkPrefix b sink) (fake_unsent self))
  | TransferringBodyChunked sink b =>
      let (r, sink) := snk_flush env sink in (r, mkFwdSink (TransferringBodyChunked sink b) (fake_unsent self))
  | WaitingChunkSuffix b t sink =>
      let (r, sink) := snk_flush env sink in (r, mkFwdSink (WaitingChunkSuffix b t sink) (fake_unsent self))
  end.

End sink.
Arguments SinkState : clear implicits.
Arguments ForwardedStreamSink : clear implicits.

(** [into_forwarded]: the two ends for a request; [None] when it is answered with
    "bad request". *)
Definition into_forwarded {Src Snk} (to_str : bytes -> option bytes) (r : RequestHeaders) (body : Src)
  : option (ForwardedStreamSource Src * ForwardedStreamSink Snk) :=
  match serialize_request to_str r with
  | Err _ => None
  | Ok (serialized_request, body_length) =>
      Some (mkFwdSource (WantSendRequest body serialized_request body_length) 0,
            mkFwdSink (WaitingResponse []) false)
  end.

(** ** The body of a request *)

Section body_proofs.
Context {Src REnv : Type} `{Source Src REnv}.

(** The body of a request read by the pipe: the chunks up to the first that is not one. *)
Fixpoint read_all (envs : list REnv) (self : ForwardedStreamSource Src) : bytes :=
  match envs with
  | [] => []
  | env :: envs =>
      match fs_read env self with
      | (Some (Ok (Chunk b)), self) => b ++ read_all envs self
      | _ => []
      end
  end.

(** What the client's stream delivers in the same rounds. *)
Fixpoint drain (envs : list REnv) (source : Src) : bytes :=
  match envs with
  | [] => []
  | env :: envs =>
      match src_read env source with
      | (Some (Ok (Chunk b)), source) => b ++ drain envs source
      | _ => []
      end
  end.

Lemma read_all_done envs skip : read_all envs (mkFwdSource SourceDone skip) = [].
Proof. by destruct envs. Qed.

Lemma read_all_prefix envs : forall source n m skip,
  0 <= m <= n ->
  read_all envs (mkFwdSource (TransferringBody source (Determined n) m) skip) =
    take (Z.to_nat (n - m)) (drain envs source).
Proof.
  induction envs as [|env envs IH]; intros source n m skip Hm; cbn [read_all drain]; [by rewrite take_nil|].
  cbn [fs_read fs_state]. unfold read_body. destruct (src_read env source) as [[[[b|]|e]|] src];
    [|by rewrite take_nil..]. pose proof (len_nonneg b).
  destruct (Z.ltb_spec m n) as [Hlt|Hge].
  - cbn [skip_consume_bytes]. rewrite IH by lia. rewrite take_app. f_equal.
    + destruct (Z.le_gt_cases (len b) (n - m)).
      * rewrite Z.min_l by lia. rewrite to_nat_len, firstn_all, take_ge by (unfold len in *; lia). done.
      * rewrite Z.min_r by lia. done.
    + f_equal. unfold len in *. lia.
  - replace (Z.to_nat (n - m)) with 0%nat by lia. done.
Qed.

End body_proofs.

(** ** Decoding a chunked response *)

(** What is used of [httparse::parse_chunk_size]: it reads back the size line of a
    chunk, which is [size_line n] here, and says how long the line is. *)
Class ChunkSizeLaws (parse_chunk_size : bytes -> ParseResult (Z * Z)) (size_line : Z -> bytes) : Prop := {
  parse_size_line n rest : 0 <= n < 2 ^ 64 -> parse_chunk_size (size_line n ++ rest) = Complete (len (size_line n), n);
}.

Section chunked.
Context {Snk WEnv : Type} `{SinkLaws Snk WEnv}.
Context {parse_chunk_size : bytes -> ParseResult (Z * Z)} {size_line : Z -> bytes}
  {Hparse : ChunkSizeLaws parse_chunk_size size_line}.
Context (parse_http : Z -> bytes -> ParseResult (Z * HttpResponse)) (build_ok : HttpResponse -> bool)
  (request_method : bytes) (request_version : Version).
Context (respond : result ErrorKind Snk) (respond_1xx : result ErrorKind unit) (env : WEnv).

Notation write := (fk_write parse_http parse_chunk_size build_ok request_method request_version
  respond respond_1xx env).

(** The pipe writes what was handed back again, while there is any. *)
Fixpoint write_out (fuel : nat) (self : ForwardedStreamSink Snk) (data : bytes)
  : M (result ErrorKind bytes * ForwardedStreamSink Snk) :=
  match fuel with
  | O => Ret (Ok data, self)
  | S fuel =>
      let! (r, self, _) := write self data in
      match r with
      | Ok [] => Ret (Ok [], self)
      | Ok rest => write_out fuel self rest
      | Err e => Ret (Err e, self)
      end
  end.

Definition encode_chunk (b : bytes) : bytes := size_line (len b) ++ b ++ CRLF.

Definition encode_chunks (l : list bytes) : bytes := mjoin (encode_chunk <$> l).

(** The client's stream takes everything, in this round. *)
Definition takes_all : Prop := forall s d, exists s', snk_write env s d = Ret (Ok [], s').

Lemma takes_all_accepted s d s' : snk_write env s d = Ret (Ok [], s') -> accepted s' = accepted s ++ d.
Proof.
  intros (k & rest & -> & Ek & Hp)%write_prefix_law. by rewrite <- (Hp [] eq_refl), app_nil_r.
Qed.

Lemma write_prefix fu sink n rest :
  0 <= n < 2 ^ 64 ->
  write (mkFwdSink (WaitingChunkPrefix [] sink) fu) (size_line n ++ rest) =
    Ret (Ok rest, mkFwdSink (if n =? 0 then WaitingChunkSuffix [] true sink
                             else TransferringBodyChunked sink (Some n)) (negb (len rest =? 0)), []).
Proof.
  intros Hn. cbn [fk_write fk_state]. unfold on_encoded_chunk_prefix. cbn [app].
  rewrite parse_size_line by done. by rewrite split_off_app.
Qed.

Lemma write_payload fu sink sink' b rest :
  b <> [] -> snk_write env sink b = Ret (Ok [], sink') ->
  write (mkFwdSink (TransferringBodyChunked sink (Some (len b))) fu) (b ++ rest) =
    Ret (Ok rest, mkFwdSink (WaitingChunkSuffix [] false sink') true, []).
Proof.
  intros Hb Hw. assert (0 < len b) by (destruct b; [done|]; rewrite len_cons; pose proof (len_nonneg b); lia).
  pose proof (len_nonneg rest). cbn [fk_write fk_state]. unfold on_encoded_chunk. cbn [unwrap bindM].
  rewrite len_app, Z.min_r by lia. rewrite (slice_app_at [] b rest) by (simpl; unfold len; simpl; lia). cbn [bindM].
  rewrite Hw. cbn [bindM]. rewrite Z.max_l, (proj2 (Z.ltb_ge 0 0)) by lia. change (len []) with 0.
  rewrite usub_ok by lia. cbn [bindM]. rewrite Z.sub_0_r, split_off_app. cbn [bindM].
  by rewrite (proj2 (Z.eqb_neq _ _)) by lia.
Qed.

Lemma write_suffix fu sink rest :
  write (mkFwdSink (WaitingChunkSuffix [] false sink) fu) (CRLF ++ rest) =
    Ret (Ok rest, mkFwdSink (WaitingChunkPrefix [] sink) fu, []).
Proof.
  cbn [fk_write fk_state]. unfold on_encoded_chunk_suffix, ENCODED_CHUNK_SUFFIX. change (len []) with 0.
  rewrite usub_ok by done. cbn [bindM]. rewrite Z.sub_0_r, len_app, Z.min_r by (pose proof (len_nonneg rest); lia).
  rewrite split_to_app. reflexivity.
Qed.

Lemma write_terminator fu sink sink' :
  snk_eof sink = (Ok tt, sink') ->
  write (mkFwdSink (WaitingChunkSuffix [] true sink) fu) CRLF = Ret (Ok [], mkFwdSink Idle fu, []).
Proof.
  intros E. cbn [fk_write fk_state]. unfold on_encoded_chunk_suffix, ENCODED_CHUNK_SUFFIX.
  cbn [bindM usub]. change (split_to (Z.min (len CRLF) (len CRLF - len [])) CRLF) with (Ret (CRLF, @nil Z)).
  cbn. by rewrite E.
Qed.

Lemma write_out_step fuel self data self' rest :
  write self data = Ret (Ok rest, self', []) -> rest <> [] -> write_out (S fuel) self data = write_out fuel self' rest.
Proof. intros E Hr. cbn [write_out]. rewrite E. cbn [bindM]. by destruct rest. Qed.

Lemma write_out_last fuel self data self' :
  write self data = Ret (Ok [], self', []) -> write_out (S fuel) self data = Ret (Ok [], self').
Proof. intros E. cbn [write_out]. by rewrite E. Qed.

Lemma CRLF_app_neq rest : CRLF ++ rest <> [].
Proof. done. Qed.

Lemma encode_chunk_neq b rest : encode_chunk b ++ rest <> [].
Proof. unfold encode_chunk. by intros [[_ [_ E]%app_eq_nil]%app_eq_nil _]%app_eq_nil. Qed.

(** A chunk of a body: not empty, and of a size that fits the size line. *)
Definition wf_chunk (b : bytes) : Prop := b <> [] /\ len b < 2 ^ 64.

Lemma write_out_chunk fuel fu sink sink' b rest :
  wf_chunk b -> snk_write env sink b = Ret (Ok [], sink') ->
  write_out (3 + fuel) (mkFwdSink (WaitingChunkPrefix [] sink) fu) (encode_chunk b ++ rest) =
    match rest with
    | [] => Ret (Ok [], mkFwdSink (WaitingChunkPrefix [] sink') true)
    | _ => write_out fuel (mkFwdSink (WaitingChunkPrefix [] sink') true) rest
    end.
Proof.
  intros [Hb Hs] Hw. unfold encode_chunk. rewrite <- !app_assoc. pose proof (len_nonneg b).
  assert (len b <> 0) as Hl by (intros E; apply Hb, len_nil_inv; lia).
  change (3 + fuel)%nat with (S (S (S fuel))).
  erewrite write_out_step; [|apply write_prefix; lia|by destruct b]. rewrite (proj2 (Z.eqb_neq _ _)) by done.
  erewrite write_out_step; [|by apply write_payload|apply CRLF_app_neq].
  destruct rest as [|x rest].
  - erewrite write_out_last; [done|]. apply (write_suffix true sink' []).
  - erewrite write_out_step; [done|apply write_suffix|done].
Qed.

Lemma write_out_chunks l : forall fu sink,
  takes_all -> Forall wf_chunk l -> l <> [] ->
  exists sink', write_out (3 * length l) (mkFwdSink (WaitingChunkPrefix [] sink) fu) (encode_chunks l) =
    Ret (Ok [], mkFwdSink (WaitingChunkPrefix [] sink') true) /\ accepted sink' = accepted sink ++ mjoin l.
Proof.
  induction l as [|b l IH]; intros fu sink Ht Hall Hne; [done|]. apply Forall_cons in Hall as [Hb Hall].
  destruct (Ht sink b) as [sink1 Hw]. pose proof (takes_all_accepted _ _ _ Hw) as Ha.
  replace (3 * length (b :: l))%nat with (3 + 3 * length l)%nat by (simpl length; lia).
  unfold encode_chunks. rewrite fmap_cons. cbn [mjoin list_join]. rewrite (write_out_chunk _ _ _ _ _ _ Hb Hw).
  destruct l as [|b' l].
  - exists sink1. split; [done|]. rewrite Ha. cbn. by rewrite app_nil_r.
  - destruct (IH true sink1 Ht Hall ltac:(done)) as (sink' & E & Ea).
    exists sink'. split; [|rewrite Ea, Ha; by rewrite <- app_assoc].
    change (mjoin (encode_chunk <$> b' :: l)) with (encode_chunks (b' :: l)).
    destruct (encode_chunks (b' :: l)) as [|x y] eqn:Ec; [|exact E].
    by destruct (encode_chunk_neq b' (encode_chunks l)).
Qed.

End chunked.

(** ** Properties *)

(** The request that a peer receives is the request line, the client's
    headers in order and an empty line; the client's proxy credentials are never part of
    it, and there is exactly one host header, which names the target. *)
Theorem serialize_request_headers (to_str : bytes -> option bytes) (r : RequestHeaders) (s : bytes)
    (body_length : BodyLength) :
  serialize_request to_str r = Ok (s, body_length) ->
  exists host, rq_authority r = Some host /\
    let hs := with_host host (forwarded_headers host (rq_headers r)) in
    s = request_line r ++ header_block hs ++ CRLF /\
    str "proxy-authorization" ∉ hs.*1 /\
    base.filter (fun h => h.1 = str "host") hs = [(str "host", host)].
Proof.
  unfold serialize_request. destruct (rq_authority r) as [host|]; [|done]. intros E. exists host. split; [done|].
  destruct (serialize_headers _ _ _ _ _ _) as [[[s' hi] bl]|] eqn:Es; [|done]. injection E as <- <-.
  apply serialize_headers_spec in Es as (-> & _ & Hf). destruct (Hf eq_refl) as [-> Hl]. clear Hf.
  set (hs := forwarded_headers host (rq_headers r)) in *.
  assert (forall h, h ∈ hs -> h.1 <> str "proxy-authorization" /\ (h.1 = str "host" -> h = (str "host", host))) as Hhs.
  { intros h. unfold hs, forwarded_headers. rewrite list_elem_of_bind. intros ([n v] & Hh & _).
    destruct (bool_decide_reflect (n = str "proxy-authorization")); [by apply not_elem_of_nil in Hh|].
    destruct (bool_decide_reflect (n = str "proxy-connection")); [by apply not_elem_of_nil in Hh|]. cbn [orb] in Hh.
    destruct (bool_decide_reflect (n = str "host")); apply list_elem_of_singleton in Hh as ->; done. }
  assert (forall l, (forall h, h ∈ l -> h ∈ hs \/ h = (str "host", host)) ->
    length (base.filter (fun h => h.1 = str "host") l) = 1%nat ->
    str "proxy-authorization" ∉ l.*1 /\ base.filter (fun h => h.1 = str "host") l = [(str "host", host)]) as Hend.
  { intros l Hin H1. split.
    - intros ([n v] & E & Hm)%list_elem_of_fmap. destruct (Hin _ Hm) as [Hm'|[= -> ->]]; [|done].
      destruct (Hhs _ Hm') as [Hne _]. by rewrite E in Hne.
    - destruct (base.filter _ l) as [|h [|]] eqn:Ef; try done. f_equal.
      assert (h ∈ base.filter (fun h => h.1 = str "host") l) as Hh by (rewrite Ef; left).
      apply list_elem_of_filter in Hh as [Hn Hm]. destruct (Hin _ Hm) as [Hm'| ->]; [|done]. by apply Hhs. }
  unfold with_host. destruct (bool_decide_reflect (str "host" ∈ hs.*1)).
  - split; [by rewrite <- app_assoc|]. apply Hend; auto.
  - split; [by rewrite header_block_app, header_block_one, <- !app_assoc|]. apply Hend.
    + intros h [Hh|Hh%list_elem_of_singleton]%elem_of_app; auto.
    + by rewrite filter_app, length_app, Hl.
Qed.

(** A chunked response that arrives with its chunks complete is decoded:
    when the client's stream takes what it is given, it receives the concatenation of the
    chunks, and the terminating chunk ends it. *)
Theorem chunked_response_decoded {Snk WEnv} (H : Sink Snk WEnv) (HL : SinkLaws Snk WEnv)
    (parse_http : Z -> bytes -> ParseResult (Z * HttpResponse)) (parse_chunk_size : bytes -> ParseResult (Z * Z))
    (build_ok : HttpResponse -> bool) (method : bytes) (version : Version) (size_line : Z -> bytes)
    (Hparse : ChunkSizeLaws parse_chunk_size size_line) (respond : result ErrorKind Snk)
    (respond_1xx : result ErrorKind unit) (env : WEnv) (l : list bytes) (fu : bool) (sink : Snk) :
  takes_all env -> Forall wf_chunk l -> l <> [] ->
  (forall s, exists s', snk_eof s = (Ok tt, s')) ->
  let write := write_out (parse_chunk_size := parse_chunk_size) parse_http build_ok method version respond respond_1xx env in
  exists sink', write (3 * length l)%nat (mkFwdSink (WaitingChunkPrefix [] sink) fu)
      (encode_chunks (size_line := size_line) l) = Ret (Ok [], mkFwdSink (WaitingChunkPrefix [] sink') true) /\
    accepted sink' = accepted sink ++ mjoin l /\
    write 2%nat (mkFwdSink (WaitingChunkPrefix [] sink') true) (size_line 0 ++ CRLF) =
      Ret (Ok [], mkFwdSink Idle true).
Proof.
  intros Ht Hall Hne He write. destruct (write_out_chunks (Hparse := Hparse) parse_http build_ok method version respond
    respond_1xx env l fu sink Ht Hall Hne) as (sink' & E & Ea).
  exists sink'. split; [exact E|]. split; [exact Ea|]. unfold write. destruct (He sink') as [s' Hs'].
  erewrite write_out_step; [|by apply write_prefix|done]. cbn [Z.eqb].
  erewrite write_out_last; [done|]. eapply write_terminator, Hs'.
Qed.

(** A chunk that does not arrive whole is lost: after its first part was
    passed on, the sink forgets the response, and every further write fails. *)
Theorem split_chunk_fails {Snk WEnv} (H : Sink Snk WEnv)
    (parse_http : Z -> bytes -> ParseResult (Z * HttpResponse)) (parse_chunk_size : bytes -> ParseResult (Z * Z))
    (build_ok : HttpResponse -> bool) (method : bytes) (version : Version) (respond : result ErrorKind Snk)
    (respond_1xx : result ErrorKind unit) (env : WEnv) (sink sink' : Snk) (fu : bool) (n : Z) (data : bytes) :
  len data < n -> snk_write env sink data = Ret (Ok [], sink') ->
  let write := fk_write parse_http parse_chunk_size build_ok method version respond respond_1xx in
  exists self, write env (mkFwdSink (TransferringBodyChunked sink (Some n)) fu) data = Ret (Ok [], self, []) /\
    fk_state self = Idle /\ forall env' data', write env' self data' = Ret (Err Other, self, []).
Proof.
  intros Hlt Hw write. eexists. cbn [write fk_write fk_state]. unfold write, fk_write, on_encoded_chunk.
  cbn [fk_state unwrap bindM]. rewrite Z.min_l by lia. pose proof (len_nonneg data).
  replace (slice data 0 (len data)) with (Ret data)
    by (rewrite <- (app_nil_r data) at 2; symmetry; apply (slice_app_at [] data []); simpl; unfold len; simpl; lia).
  cbn [bindM]. rewrite Hw. cbn [bindM]. rewrite Z.max_r, (proj2 (Z.ltb_lt _ _)) by lia. change (len []) with 0.
  rewrite usub_ok by lia. cbn [bindM]. rewrite Z.sub_0_r.
  replace (split_off (len data) data) with (Ret (@nil Z)) by (rewrite <- (app_nil_r data) at 2; by rewrite split_off_app).
  cbn [bindM]. split; [reflexivity|]. done.
Qed.

(** A response with a declared length panics when the peer sends more than
    it declared while the client's stream takes less: with [u] surplus bytes in the first
    read and [u] bytes not taken, the count of sent bytes is that of the whole body. *)
Theorem surplus_body_panics {Snk WEnv} (H : Sink Snk WEnv)
    (parse_http : Z -> bytes -> ParseResult (Z * HttpResponse)) (parse_chunk_size : bytes -> ParseResult (Z * Z))
    (build_ok : HttpResponse -> bool) (method : bytes) (version : Version) (respond : result ErrorKind Snk)
    (respond_1xx : result ErrorKind unit) (env : WEnv) (sink sink' : Snk) (fu : bool)
    (body surplus unsent : bytes) :
  body <> [] -> unsent <> [] -> len surplus = len unsent ->
  snk_write env sink body = Ret (Ok unsent, sink') ->
  fk_write parse_http parse_chunk_size build_ok method version respond respond_1xx env
    (mkFwdSink (TransferringBodyNonEncoded sink (Some (len body)) 0) fu) (body ++ surplus) = Panic.
Proof.
  intros Hb Hu Hs Hw. pose proof (len_nonneg body). pose proof (len_nonneg surplus).
  assert (len body <> 0) by (intros E; apply Hb, len_nil_inv; lia).
  assert (len unsent <> 0) by (intros E; apply Hu, len_nil_inv; lia).
  cbn [fk_write fk_state]. unfold on_non_encoded_chunk. rewrite (proj2 (Z.leb_gt _ _)) by lia.
  rewrite len_app, Z.sub_0_r, Z.min_r by lia. rewrite (proj2 (Z.eqb_neq _ _)) by lia.
  rewrite (slice_app_at [] body surplus) by (simpl; unfold len; simpl; lia). cbn [bindM]. rewrite Hw. cbn [bindM].
  rewrite usub_ok by lia. cbn [bindM]. rewrite bool_decide_eq_true_2 by (f_equal; lia).
  by rewrite (proj2 (Z.eqb_neq _ _)) by lia.
Qed.

(** When an informational response and the final one arrive together, the
    first is passed on, but the pipe cannot hand over the rest: waiting for the sink to
    become writable fails. *)
Theorem informational_response_fails {Snk WEnv} (H : Sink Snk WEnv)
    (parse_http : Z -> bytes -> ParseResult (Z * HttpResponse)) (parse_chunk_size : bytes -> ParseResult (Z * Z))
    (build_ok : HttpResponse -> bool) (method : bytes) (version : Version) (respond : result ErrorKind Snk)
    (env env' : WEnv) (head tail : bytes) (r r' : HttpResponse) (b : option BodyLength) :
  parse_http INITIAL_RESPONSE_HEADERS_BUFFER_SIZE (head ++ tail) = Complete (len head, r) ->
  convert_response build_ok method version r = Ok (r', b) -> 100 <= rs_status r' < 200 ->
  exists self,
    fk_write parse_http parse_chunk_size build_ok method version respond (Ok tt) env
      (mkFwdSink (WaitingResponse []) false) (head ++ tail) = Ret (Ok tail, self, [Intermediate r']) /\
    fk_wait_writable env' self = (Some (Err Other), self).
Proof.
  intros Hp Hc Hr. cbn [fk_write fk_state]. unfold on_response_headers_chunk, parse_response. cbn [app].
  cbn [parse_loop]. rewrite Hp, Hc, split_off_app. cbn [bindM].
  rewrite (proj2 (Z.leb_le _ _)), (proj2 (Z.ltb_lt _ _)) by lia. cbn [andb fk_state].
  eexists. split; [reflexivity|]. done.
Qed.

(** Of a request body with a declared length exactly the bytes that the
    client sent first are forwarded, in order and up to that length; but a read that is
    abandoned, as the pipe does on every idle timeout, ends the body for good. *)
Theorem request_body_prefix {Src REnv} (H : Source Src REnv) (envs : list REnv) (n : Z) (source : Src) (skip : Z) :
  0 <= n ->
  read_all envs (mkFwdSource (TransferringBody source (Determined n) 0) skip) =
    take (Z.to_nat n) (drain envs source) /\
  (forall env env' b m, fst (src_read env source) = None ->
     let self := mkFwdSource (TransferringBody source b m) skip in
     fst (fs_read env self) = None /\ fst (fs_read env' (snd (fs_read env self))) = Some (Ok Eof)).
Proof.
  intros Hn. split; [rewrite read_all_prefix by lia; by rewrite Z.sub_0_r|].
  intros env env' b m Hr. cbn [fs_read fs_state]. unfold read_body.
  by destruct (src_read env source) as [[]].
Qed.

(** *** Witnesses *)

(** A stream that takes [n] bytes at a time, or all when [n] is absent. *)
Record Sponge : Type := mkSponge { soaked : bytes; sponge_closed : bool }.

Definition sponge_write (n : option Z) (s : Sponge) (d : bytes) : M (result ErrorKind bytes * Sponge) :=
  let k := match n with Some n => Z.to_nat n | None => length d end in
  Ret (Ok (drop k d), mkSponge (soaked s ++ take k d) (sponge_closed s)).

#[export] Instance sponge_sink : Sink Sponge (option Z) := {
  snk_write := sponge_write;
  snk_eof s := (Ok tt, mkSponge (soaked s) true);
  snk_flush _ s := (Some (Ok tt), s);
  snk_wait_writable _ s := (Some (Ok tt), s);
}.

#[export] Instance sponge_laws : SinkLaws Sponge (option Z).
Proof.
  refine {| accepted := soaked; ended := sponge_closed; fits _ := True |}; [done..| | | | |].
  - intros env s data _. by eexists _, _.
  - intros env s data r s' E. simpl in E. unfold sponge_write in E. apply Ret_inj in E. injection E as <- <-.
    eexists _, _. split; [by rewrite take_drop|]. split; [done|]. by intros x [= <-].
  - intros s r s' E. by injection E as <- <-.
  - intros env s r s' E. by injection E as <- <-.
  - intros env s r s' E. by injection E as <- <-.
Defined.

Lemma sponge_takes_all : takes_all (Snk := Sponge) None.
Proof. intros s d. eexists. simpl. unfold sponge_write. by rewrite drop_all. Defined.

(** Size lines as sixteen hexadecimal digits, and a parser for them. *)
Definition hex_size_line (n : Z) : bytes := HexRef.hex_encode (be_bytes 8 n) ++ CRLF.

Definition parse_hex_size (data : bytes) : ParseResult (Z * Z) :=
  match find_char 13 data with
  | None => Partial
  | Some i =>
      match HexRef.hex_decode (take i data) with
      | Some b => Complete (Z.of_nat i + 2, be_val b)
      | None => ParseError
      end
  end.

#[export] Instance hex_size_laws : ChunkSizeLaws parse_hex_size hex_size_line.
Proof.
  constructor. intros n rest Hn. unfold hex_size_line, parse_hex_size. rewrite <- app_assoc.
  pose proof (be_bytes_wf 8 n) as Hw. pose proof (hex_encode_digits (be_bytes 8 n) Hw) as Hd.
  change (CRLF ++ rest) with (13 :: 10 :: rest). rewrite find_char_app.
  - rewrite take_app_length, (hex_decode_encode _ Hw), be_val_be_bytes_small by done.
    do 2 f_equal.
  - intros Hin. rewrite Forall_forall in Hd. specialize (Hd 13 Hin). done.
Qed.

Definition sample_request_headers : RequestHeaders :=
  mkRequestHeaders (str "GET") (str "/x") None (Some (str "example.org")) HTTP_11
    [(str "proxy-authorization", str "Basic eA=="); (str "accept", str "*/*")].

Lemma serialize_request_headers_witness :
  exists host, rq_authority sample_request_headers = Some host /\
    base.filter (fun h => h.1 = str "host") (with_host host (forwarded_headers host (rq_headers sample_request_headers)))
      = [(str "host", host)].
Proof.
  destruct (serialize_request_headers Some sample_request_headers
    (request_line sample_request_headers ++ header_line (str "accept") (str "*/*")
      ++ header_line (str "host") (str "example.org") ++ CRLF) (Determined 0) eq_refl) as (h & Ha & _ & _ & Hf).
  exists h. split; [exact Ha|exact Hf].
Defined.

Lemma chunked_response_decoded_witness :
  exists sink', accepted sink' = [] ++ mjoin [[1; 2; 3]; [4]] /\
    write_out (fun _ _ => Partial) (fun _ => true) [] HTTP_2 (Err Other) (Ok tt) None (parse_chunk_size := parse_hex_size)
      (3 * 2)%nat (mkFwdSink (WaitingChunkPrefix [] (mkSponge [] false)) false)
      (encode_chunks (size_line := hex_size_line) [[1; 2; 3]; [4]])
    = Ret (Ok [], mkFwdSink (WaitingChunkPrefix [] sink') true).
Proof.
  destruct (chunked_response_decoded sponge_sink sponge_laws (fun _ _ => Partial) parse_hex_size (fun _ => true) []
    HTTP_2 hex_size_line hex_size_laws (Err Other) (Ok tt) None [[1; 2; 3]; [4]] false (mkSponge [] false))
    as (s & E & Ha & _).
  - apply sponge_takes_all.
  - repeat constructor; done.
  - done.
  - intros s. eexists. reflexivity.
  - exists s. split; [exact Ha|exact E].
Defined.

Lemma split_chunk_fails_witness :
  exists self, fk_write (fun _ _ => Partial) parse_hex_size (fun _ => true) [] HTTP_2 (Err Other) (Ok tt) None
    (mkFwdSink (TransferringBodyChunked (mkSponge [] false) (Some 5)) false) [1; 2; 3] = Ret (Ok [], self, []) /\
    fk_state self = Idle.
Proof.
  destruct (split_chunk_fails sponge_sink (fun _ _ => Partial) parse_hex_size (fun _ => true) [] HTTP_2 (Err Other)
    (Ok tt) None (mkSponge [] false) (mkSponge [1; 2; 3] false) false 5 [1; 2; 3] ltac:(vm_compute; reflexivity) eq_refl)
    as (self & E & Hi & _).
  exists self. split; [exact E|exact Hi].
Defined.

Lemma surplus_body_panics_witness :
  fk_write (fun _ _ => Partial) parse_hex_size (fun _ => true) [] HTTP_2 (Err Other) (Ok tt) (Some 3)
    (mkFwdSink (TransferringBodyNonEncoded (mkSponge [] false) (Some 5) 0) false) ([1; 2; 3; 4; 5] ++ [6; 7]) = Panic.
Proof.
  apply (surplus_body_panics sponge_sink (fun _ _ => Partial) parse_hex_size (fun _ => true) [] HTTP_2 (Err Other)
    (Ok tt) (Some 3) (mkSponge [] false) (mkSponge [1; 2; 3] false) false [1; 2; 3; 4; 5] [6; 7] [4; 5]); done.
Defined.

Lemma informational_response_fails_witness :
  exists self,
    fk_write (fun _ _ => Complete (3, mkResponse 103 [])) parse_hex_size (fun _ => true) [] HTTP_2 (Err Other) (Ok tt) None
      (mkFwdSink (WaitingResponse []) false) ([1; 2; 3] ++ [4; 5]) =
      Ret (Ok [4; 5], self, [Intermediate (mkResponse 103 [])]) /\
    fk_wait_writable (Snk := Sponge) None self = (Some (Err Other), self).
Proof.
  apply (informational_response_fails sponge_sink (fun _ _ => Complete (3, mkResponse 103 [])) parse_hex_size
    (fun _ => true) [] HTTP_2 (Err Other) None None [1; 2; 3] [4; 5] (mkResponse 103 []) (mkResponse 103 [])
    (Some (Determined 0))); [reflexivity|reflexivity|simpl; lia].
Defined.

(** A source that delivers the chunks of its environment. *)
#[export] Instance listed_source : Source unit (option Data) := {
  src_read env s := (match env with Some d => Some (Ok d) | None => None end, s);
  src_consume s _ := (Ok tt, s);
}.

Lemma request_body_prefix_witness :
  read_all [Some (Chunk [1; 2]); Some (Chunk [3; 4]); Some Eof]
    (mkFwdSource (TransferringBody tt (Determined 3) 0) 0) = [1; 2; 3].
Proof.
  apply (proj1 (request_body_prefix listed_source [Some (Chunk [1; 2]); Some (Chunk [3; 4]); Some Eof] 3 tt 0
    ltac:(lia))).
Defined.
