(* ===== verification/TlsDemux.v ===== *)
(** * Selection of the service of a TLS or QUIC connection

    lib/src/tls_demultiplexer.rs: the server name and the application protocols of the
    client hello choose a channel, a protocol and a host.  Certificates and keys are
    opaque; loading them is a parameter. *)

From S2P Require Import Prelude.
From S2P Require Import Codecs.
From S2P Require Import Varint.
From S2P Require Import NetUtils.
From S2P Require Import Auth.

Definition DEFAULT_PROTOCOL : TlsProtocol := Http1.

Definition as_alpn (self : TlsProtocol) : bytes :=
  match self with Http1 => HTTP1_ALPN | Http2 => HTTP2_ALPN | Http3 => HTTP3_ALPN end.

Definition from_alpn (alpn : bytes) : option TlsProtocol :=
  if bool_decide (alpn = HTTP1_ALPN) then Some Http1
  else if bool_decide (alpn = HTTP2_ALPN) then Some Http2
  else if bool_decide (alpn = HTTP3_ALPN) then Some Http3
  else None.

(** The derived order of [Protocol]. *)
Definition protocol_rank (p : TlsProtocol) : Z := match p with Http1 => 1 | Http2 => 2 | Http3 => 3 end.

(** [Iterator::max]. *)
Definition max_protocol (l : list TlsProtocol) : option TlsProtocol :=
  fold_left (fun m p => match m with
                        | Some q => Some (if protocol_rank q <=? protocol_rank p then p else q)
                        | None => Some p
                        end) l None.

Section demux.
Context {Identity : Type}.

(** A configured host, and the host made from it. *)
Record TlsHostInfo : Type := mkHostInfo {
  hi_hostname : bytes;
  hi_cert_chain_path : bytes;
  hi_private_key_path : bytes;
  hi_allowed_sni : list bytes;
}.

Record Host : Type := mkHost { identity : Identity; allowed_sni : list bytes }.

Record TlsHostsSettings : Type := mkHostsSettings {
  ths_main : list TlsHostInfo;
  ths_ping : list TlsHostInfo;
  ths_speedtest : list TlsHostInfo;
  ths_reverse_proxy : list TlsHostInfo;
  ths_built : bool;
}.

(** The listener settings that matter here. *)
Record ProtocolSettings : Type := mkProtocols {
  ps_http1 : bool;
  ps_http2 : bool;
  ps_quic : bool;
  ps_reverse_proxy : bool;
}.

Record TlsDemux : Type := mkTlsDemux {
  main_hosts : gmap bytes Host;
  reverse_proxy_hosts : gmap bytes Host;
  ping_hosts : gmap bytes Host;
  speedtest_hosts : gmap bytes Host;
  tunnel_protocols : list TlsProtocol;
  allowed_sni_to_main_host : gmap bytes bytes;
}.

Record ConnectionMeta : Type := mkConnectionMeta {
  cm_sni : bytes;
  cm_protocol : TlsProtocol;
  cm_channel : Channel;
  cm_identity : Identity;
  cm_sni_auth_creds : option bytes;
}.

(** [load] loads the certificate chain and the key of a host. *)
Context (load : TlsHostInfo -> result ErrorKind Identity).

Fixpoint make_entries (l : list TlsHostInfo) : result ErrorKind (list (bytes * Host)) :=
  match l with
  | [] => Ok []
  | x :: l =>
      match load x with
      | Err e => Err e
      | Ok i =>
          match make_entries l with
          | Err e => Err e
          | Ok r => Ok ((hi_hostname x, mkHost i (hi_allowed_sni x)) :: r)
          end
      end
  end.

Definition make_hosts (l : list TlsHostInfo) : result ErrorKind (gmap bytes Host) :=
  match make_entries l with Ok r => Ok (collect r) | Err e => Err e end.

Definition allowed_entries (hosts : gmap bytes Host) : list (bytes * bytes) :=
  mbind (fun '(hostname, host) => (fun sni => (sni, hostname)) <$> allowed_sni host) (map_to_list hosts).

Definition demux_new (settings : ProtocolSettings) (tls_settings : TlsHostsSettings) : result ErrorKind TlsDemux :=
  let? main := make_hosts (ths_main tls_settings) in
  let? ping := make_hosts (ths_ping tls_settings) in
  let? speedtest := make_hosts (ths_speedtest tls_settings) in
  let? reverse := if ps_reverse_proxy settings then make_hosts (ths_reverse_proxy tls_settings) else Ok ∅ in
  Ok (mkTlsDemux main reverse ping speedtest
        ((if ps_http1 settings then [Http1] else []) ++ (if ps_http2 settings then [Http2] else [])
         ++ (if ps_quic settings then [Http3] else []))
        (collect (allowed_entries main))).

Definition select_tunnel_channel_protocol (self : TlsDemux) (parsed : list TlsProtocol) (advertised : list bytes)
  : result unit TlsProtocol :=
  match max_protocol (base.filter (fun p => p ∈ tunnel_protocols self) parsed) with
  | Some x => Ok x
  | None =>
      if bool_decide (DEFAULT_PROTOCOL ∈ tunnel_protocols self) && (len advertised =? 0)
      then Ok DEFAULT_PROTOCOL else Err tt
  end.

Definition parse_alpn (alpn : list bytes) : list TlsProtocol :=
  omap from_alpn (base.filter (fun a => utf8_valid a = true) alpn).

(** The protocol of the channels that accept every parsed one. *)
Definition any_protocol (parsed : list TlsProtocol) : TlsProtocol :=
  match max_protocol parsed with Some p => p | None => DEFAULT_PROTOCOL end.

Definition select (self : TlsDemux) (alpn : list bytes) (sni : bytes) : M (result unit ConnectionMeta) :=
  let parsed := parse_alpn alpn in
  let meta (r : result unit TlsProtocol) (channel : Channel) (host : Host) (auth : option bytes) :=
    match r with
    | Err e => Ret (Err e)
    | Ok p => Ret (Ok (mkConnectionMeta sni p channel (identity host) auth))
    end in
  if (len parsed =? 0) && negb (len alpn =? 0) then Ret (Err tt)
  else
    match main_hosts self !! sni with
    | Some h => meta (select_tunnel_channel_protocol self parsed alpn) ChTunnel h None
    | None =>
    match reverse_proxy_hosts self !! sni with
    | Some h =>
        match max_protocol (base.filter (fun p => p <> Http2) parsed) with
        | Some x => meta (Ok x) ChReverseProxy h None
        | None => if len alpn =? 0 then meta (Ok DEFAULT_PROTOCOL) ChReverseProxy h None else Ret (Err tt)
        end
    | None =>
    match ping_hosts self !! sni with
    | Some h => meta (Ok (any_protocol parsed)) ChPing h None
    | None =>
    match speedtest_hosts self !! sni with
    | Some h => meta (Ok (any_protocol parsed)) ChSpeedtest h None
    | None =>
    match match split_once 0x2E sni with
          | Some (a, b) => match main_hosts self !! b with Some h => Some (h, a) | None => None end
          | None => None
          end with
    | Some (host, auth_creds) =>
        meta (select_tunnel_channel_protocol self parsed alpn) ChTunnel host (Some auth_creds)
    | None =>
    match allowed_sni_to_main_host self !! sni with
    | Some main_hostname =>
        let! host := unwrap (main_hosts self !! main_hostname) in
        meta (select_tunnel_channel_protocol self parsed alpn) ChTunnel host None
    | None => Ret (Err tt)
    end end end end end end.

(** ** Proofs *)

Lemma max_protocol_app l p : max_protocol (l ++ [p]) =
  match max_protocol l with Some q => Some (if protocol_rank q <=? protocol_rank p then p else q) | None => Some p end.
Proof. unfold max_protocol. by rewrite fold_left_app. Qed.

Lemma max_protocol_spec l :
  match max_protocol l with
  | None => l = []
  | Some p => p ∈ l /\ forall q, q ∈ l -> protocol_rank q <= protocol_rank p
  end.
Proof.
  induction l as [|x l IH] using rev_ind; [done|]. rewrite max_protocol_app.
  destruct (max_protocol l) as [p|].
  - destruct IH as [Hin Hmax]. destruct (Z.leb_spec (protocol_rank p) (protocol_rank x)).
    + split; [set_solver|]. intros q [Hq|Hq]%elem_of_app; [apply Hmax in Hq; lia|].
      apply list_elem_of_singleton in Hq as ->. lia.
    + split; [set_solver|]. intros q [Hq|Hq]%elem_of_app; [auto|]. apply list_elem_of_singleton in Hq as ->. lia.
  - subst l. split; [set_solver|]. intros q Hq. apply list_elem_of_singleton in Hq as ->. lia.
Qed.

Lemma from_alpn_as_alpn p : from_alpn (as_alpn p) = Some p.
Proof. by destruct p. Qed.

Lemma parse_alpn_In alpn p : p ∈ parse_alpn alpn -> as_alpn p ∈ alpn.
Proof.
  unfold parse_alpn. rewrite list_elem_of_omap. intros (a & Ha & E). apply list_elem_of_filter in Ha as [_ Ha].
  unfold from_alpn in E. repeat (case_bool_decide; [simplify_eq; done|]). done.
Qed.

(** The table of alternative names points to main hosts. *)
Definition demux_ok (self : TlsDemux) : Prop :=
  forall sni h, allowed_sni_to_main_host self !! sni = Some h -> is_Some (main_hosts self !! h).

Lemma demux_new_ok settings tls_settings self :
  demux_new settings tls_settings = Ok self -> demux_ok self.
Proof.
  unfold demux_new. destruct (make_hosts (ths_main tls_settings)) as [main|]; [|done].
  cbn [bindR]. destruct (make_hosts (ths_ping _)); [|done]. cbn [bindR].
  destruct (make_hosts (ths_speedtest _)); [|done]. cbn [bindR].
  destruct (if ps_reverse_proxy settings then _ else _); [|done]. intros [= <-] sni h Hs. simpl in *.
  apply collect_lookup in Hs. unfold allowed_entries in Hs. apply list_elem_of_bind in Hs as ([n x] & Hin & Hm).
  apply list_elem_of_fmap in Hin as (s & [= -> ->] & _). apply elem_of_map_to_list in Hm. eauto.
Qed.

Lemma tunnel_protocol_spec self parsed alpn p :
  select_tunnel_channel_protocol self parsed alpn = Ok p ->
  p ∈ tunnel_protocols self /\
  (p ∈ parsed /\ (forall q, q ∈ parsed -> q ∈ tunnel_protocols self -> protocol_rank q <= protocol_rank p) \/
   alpn = [] /\ p = DEFAULT_PROTOCOL).
Proof.
  unfold select_tunnel_channel_protocol.
  pose proof (max_protocol_spec (base.filter (fun p => p ∈ tunnel_protocols self) parsed)) as Hm.
  destruct (max_protocol _) as [x|].
  - intros [= <-]. destruct Hm as [[Ht Hp]%list_elem_of_filter Hmax]. split; [done|]. left. split; [done|].
    intros q Hq Ht'. apply Hmax. by apply list_elem_of_filter.
  - destruct (bool_decide_reflect (DEFAULT_PROTOCOL ∈ tunnel_protocols self)); [|done]. cbn [andb].
    destruct (Z.eqb_spec (len alpn) 0); [|done]. intros [= <-]. split; [done|]. right. split; [|done].
    apply len_nil_inv. lia.
Qed.

End demux.
Arguments TlsDemux : clear implicits.
Arguments ConnectionMeta : clear implicits.

(** The client advertised the protocol, or it is the default one and nothing was. *)
Definition advertised (alpn : list bytes) (p : TlsProtocol) : Prop :=
  as_alpn p ∈ alpn \/ alpn = [] /\ p = DEFAULT_PROTOCOL.

(** What a selected connection satisfies. *)
Record selected_ok {Identity} (self : TlsDemux Identity) (alpn : list bytes) (sni : bytes)
    (meta : ConnectionMeta Identity) : Prop := {
  so_advertised : advertised alpn (cm_protocol meta);
  so_enabled : cm_channel meta = ChTunnel -> cm_protocol meta ∈ tunnel_protocols self;
  so_best q : cm_channel meta = ChTunnel -> q ∈ parse_alpn alpn -> q ∈ tunnel_protocols self ->
    protocol_rank q <= protocol_rank (cm_protocol meta);
  so_creds creds : cm_sni_auth_creds meta = Some creds ->
    cm_channel meta = ChTunnel /\ 0x2E ∉ creds /\ main_hosts self !! sni = None /\
    exists host, sni = creds ++ 0x2E :: host /\ is_Some (main_hosts self !! host);
}.

Section select_proofs.
Context {Identity : Type}.
Implicit Types self : TlsDemux Identity.

Lemma selected_tunnel self alpn sni p i auth :
  select_tunnel_channel_protocol self (parse_alpn alpn) alpn = Ok p ->
  (forall creds, auth = Some creds -> 0x2E ∉ creds /\ main_hosts self !! sni = None /\
     exists host, sni = creds ++ 0x2E :: host /\ is_Some (main_hosts self !! host)) ->
  selected_ok self alpn sni (mkConnectionMeta sni p ChTunnel i auth).
Proof.
  intros Hp Ha. apply tunnel_protocol_spec in Hp as (Ht & Hp). constructor; simpl; [| |intros q _|]; auto.
  - destruct Hp as [[Hin _]|[-> ->]]; [left; by apply parse_alpn_In|by right].
  - destruct Hp as [[_ Hmax]|[-> ->]]; [auto|]. intros Hq. by apply not_elem_of_nil in Hq.
Qed.

Lemma selected_other self alpn sni p ch i :
  ch <> ChTunnel -> advertised alpn p -> selected_ok self alpn sni (mkConnectionMeta sni p ch i None).
Proof. intros Hch Ha. by constructor. Qed.

Lemma max_filter_advertised (P : TlsProtocol -> Prop) `{forall p, Decision (P p)} alpn p :
  max_protocol (base.filter P (parse_alpn alpn)) = Some p -> advertised alpn p.
Proof.
  intros E. pose proof (max_protocol_spec (base.filter P (parse_alpn alpn))) as Hm. rewrite E in Hm.
  destruct Hm as [[_ Hin]%list_elem_of_filter _]. left. by apply parse_alpn_In.
Qed.

Lemma any_protocol_advertised alpn :
  (parse_alpn alpn = [] -> alpn = []) -> advertised alpn (any_protocol (parse_alpn alpn)).
Proof.
  intros Hnil. unfold any_protocol. pose proof (max_protocol_spec (parse_alpn alpn)) as Hm.
  destruct (max_protocol _) as [p|]; [left; apply parse_alpn_In; tauto|right; auto].
Qed.

End select_proofs.

Lemma select_spec {Identity} (self : TlsDemux Identity) (alpn : list bytes) (sni : bytes) :
  demux_ok self ->
  exists r, select self alpn sni = Ret r /\ forall meta, r = Ok meta -> selected_ok self alpn sni meta.
Proof.
  intros Hok. unfold select.
  assert (forall auth h, (forall creds, auth = Some creds -> 0x2E ∉ creds /\ main_hosts self !! sni = None /\
     exists host, sni = creds ++ 0x2E :: host /\ is_Some (main_hosts self !! host)) ->
    exists r, match select_tunnel_channel_protocol self (parse_alpn alpn) alpn with
              | Err e => Ret (Err e)
              | Ok p => Ret (Ok (mkConnectionMeta sni p ChTunnel (identity h) auth))
              end = Ret r /\ forall meta, r = Ok meta -> selected_ok self alpn sni meta) as Htun.
  { intros auth h Ha. destruct (select_tunnel_channel_protocol _ _ _) as [p|] eqn:Et;
      (eexists; split; [done|]); [|done]. intros meta [= <-]. by apply selected_tunnel. }
  destruct ((len (parse_alpn alpn) =? 0) && negb (len alpn =? 0)) eqn:Ea; [by eexists|].
  assert (parse_alpn alpn = [] -> alpn = []) as Hnil.
  { intros E. rewrite E in Ea. apply len_nil_inv. destruct (Z.eqb_spec (len alpn) 0); [lia|done]. }
  pose proof (any_protocol_advertised alpn Hnil) as Hany.
  destruct (main_hosts self !! sni) as [h|] eqn:Em; [by apply Htun|].
  destruct (reverse_proxy_hosts self !! sni) as [h|].
  { destruct (max_protocol _) as [p|] eqn:Ep.
    - eexists. split; [done|]. intros meta [= <-]. apply selected_other; [done|]. by eapply max_filter_advertised.
    - destruct (Z.eqb_spec (len alpn) 0); eexists; (split; [done|]); [|done].
      intros meta [= <-]. apply selected_other; [done|]. right. split; [apply len_nil_inv; lia|done]. }
  destruct (ping_hosts self !! sni); [eexists; split; [done|]; intros meta [= <-]; by apply selected_other|].
  destruct (speedtest_hosts self !! sni); [eexists; split; [done|]; intros meta [= <-]; by apply selected_other|].
  destruct (match split_once _ sni with Some _ => _ | None => _ end) as [[h a]|] eqn:Es.
  { apply Htun. intros creds [= <-]. destruct (split_once 46 sni) as [[x y]|] eqn:Eo; [|done].
    destruct (main_hosts self !! y) eqn:Ey; [|done]. injection Es as -> ->. apply split_once_inv in Eo as [-> Hni]. eauto. }
  destruct (allowed_sni_to_main_host self !! sni) as [n|] eqn:El; [|by eexists].
  destruct (Hok _ _ El) as [h Hh]. rewrite Hh. cbn [unwrap bindM]. by apply Htun.
Qed.

(** ** Properties *)

(** For a demultiplexer made from settings, selection never panics.  The
    protocol it selects was advertised by the client, or is HTTP/1.1 when nothing was;
    on the tunnel channel it is enabled and no better advertised one is.  Credentials are
    taken from the server name only when it is a label in front of a main host and not
    itself a main host. *)
Theorem tls_select_correct {Identity} (load : TlsHostInfo -> result ErrorKind Identity)
    (settings : ProtocolSettings) (tls_settings : TlsHostsSettings) (self : TlsDemux Identity)
    (alpn : list bytes) (sni : bytes) :
  demux_new load settings tls_settings = Ok self ->
  exists r, select self alpn sni = Ret r /\ forall meta, r = Ok meta -> selected_ok self alpn sni meta.
Proof. intros Hok%demux_new_ok. by apply select_spec. Qed.

Definition sample_hosts : TlsHostsSettings :=
  mkHostsSettings [mkHostInfo (str "vpn.example.org") [] [] [str "cdn.example.net"]] [] [] [] true.

Lemma tls_select_correct_witness :
  exists self r, demux_new (fun x => Ok (hi_hostname x)) (mkProtocols true true false false) sample_hosts = Ok self /\
    select self [str "h2"; str "http/1.1"] (str "YTpi.vpn.example.org") = Ret r /\
    r = Ok (mkConnectionMeta (str "YTpi.vpn.example.org") Http2 ChTunnel (str "vpn.example.org") (Some (str "YTpi"))) /\
    forall meta, r = Ok meta -> selected_ok self [str "h2"; str "http/1.1"] (str "YTpi.vpn.example.org") meta.
Proof.
  destruct (demux_new (fun x => Ok (hi_hostname x)) (mkProtocols true true false false) sample_hosts) as [self|] eqn:E;
    [|vm_compute in E; discriminate].
  destruct (tls_select_correct _ _ _ _ [str "h2"; str "http/1.1"] (str "YTpi.vpn.example.org") E) as (r & Er & Hr).
  exists self, r. split; [reflexivity|]. split; [exact Er|]. split; [|exact Hr].
  vm_compute in E. injection E as <-. vm_compute in Er. injection Er as <-. reflexivity.
Defined.
