(* ===== verification/TlsListener.v ===== *)
(** * The client random of a TLS connection

    lib/src/tls_listener.rs: before the TLS library sees a connection, the listener reads
    ahead until it can parse the first record, takes the client random out of it for the
    filtering rules, and hands the connection on as a stream that yields the bytes read
    ahead first.  The record parser of the [tls_parser] crate is a parameter. *)

From S2P Require Import Prelude.
From S2P Require Import Varint.

(** ** The socket *)

(** What happens on a TCP connection, in order. *)
Inductive Arrival : Type :=
| Data (d : bytes)
| Closed
| Failed (e : ErrorKind).

(** A read into a buffer of [n] bytes, [None] while there is nothing to read; at the end of
    the stream every read gives no bytes. *)
Definition tcp_read (n : Z) (s : list Arrival) : option (result ErrorKind bytes * list Arrival) :=
  match s with
  | [] => None
  | Data d :: s =>
      let rest := drop (Z.to_nat n) d in
      Some (Ok (take (Z.to_nat n) d), if bool_decide (rest = []) then s else Data rest :: s)
  | Closed :: s => Some (Ok [], Closed :: s)
  | Failed e :: s => Some (Err e, s)
  end.

(** ** Reading ahead *)

Definition MAX_PREBUFFER_LEN : Z := 16 * 1024.
Definition READ_CHUNK_LEN : Z := 1024.

Inductive ClientRandomExtraction : Type :=
| Found (client_random : bytes)
| NeedMoreData
| NotFound.

(** A message of a record: a client hello with its random, or another one. *)
Inductive TlsMessage : Type :=
| ClientHello (random : bytes)
| OtherMessage.

Inductive ParsedRecord : Type :=
| Plaintext (msg : list TlsMessage)
| Incomplete
| Malformed.

Record PrebufferedTcpStream : Type := mkPrebuffered {
  prebuffer : bytes;
  prebuffer_pos : Z;
  ps_stream : list Arrival;
}.

Definition prebuffered_new (buffer : bytes) (stream : list Arrival) : PrebufferedTcpStream := mkPrebuffered buffer 0 stream.

Section listener.
Context (parse_tls_plaintext : bytes -> ParsedRecord).

Fixpoint find_client_random (msg : list TlsMessage) : ClientRandomExtraction :=
  match msg with
  | [] => NotFound
  | ClientHello random :: msg => if 32 <=? len random then Found (take 32 random) else find_client_random msg
  | OtherMessage :: msg => find_client_random msg
  end.

Definition extract_client_random (data : bytes) : ClientRandomExtraction :=
  match parse_tls_plaintext data with
  | Plaintext msg => find_client_random msg
  | Incomplete => NeedMoreData
  | Malformed => NotFound
  end.

(** How reading ahead ends: with the stream and the client random, or it waits for more. *)
Inductive ReadAhead : Type :=
| Waiting
| ReadDone (r : result ErrorKind (PrebufferedTcpStream * option bytes)).

Definition ready (buffer : bytes) (stream : list Arrival) (client_random : option bytes) : ReadAhead :=
  ReadDone (Ok (prebuffered_new buffer stream, client_random)).

(** A round of the loop. *)
Definition ahead_round (s : bytes * list Arrival) : (bytes * list Arrival) + ReadAhead :=
  let (buffer, stream) := s in
  if len buffer <? MAX_PREBUFFER_LEN then
    match extract_client_random buffer with
    | Found cr => inr (ready buffer stream (Some cr))
    | NotFound => inr (ready buffer stream None)
    | NeedMoreData =>
        let remaining := MAX_PREBUFFER_LEN - len buffer in
        let read_len := Z.min READ_CHUNK_LEN remaining in
        match tcp_read read_len stream with
        | None => inr Waiting
        | Some (Err e, _) => inr (ReadDone (Err e))
        | Some (Ok tmp, stream) =>
            if len tmp =? 0 then inr (ready buffer stream None) else inl (buffer ++ tmp, stream)
        end
    end
  else inr (ready buffer stream None).

(** Every round but the last adds a byte. *)
Definition read_client_random_and_wrap_stream (stream : list Arrival) : M ReadAhead :=
  match iterate ahead_round 16385 (inl ([], stream)) with inr r => Ret r | inl _ => Panic end.

End listener.

(** [poll_read] into a buffer with room for [remaining] bytes; [None] is pending. *)
Definition poll_read (remaining : Z) (self : PrebufferedTcpStream) : option (result ErrorKind bytes * PrebufferedTcpStream) :=
  if prebuffer_pos self <? len (prebuffer self) then
    let available := len (prebuffer self) - prebuffer_pos self in
    let to_copy := Z.min available remaining in
    Some (Ok (take (Z.to_nat to_copy) (drop (Z.to_nat (prebuffer_pos self)) (prebuffer self))),
          mkPrebuffered (prebuffer self) (prebuffer_pos self + to_copy) (ps_stream self))
  else
    match tcp_read remaining (ps_stream self) with
    | None => None
    | Some (r, stream) => Some (r, mkPrebuffered (prebuffer self) (prebuffer_pos self) stream)
    end.

(** ** Proofs *)

(** What the client has sent, until the stream ends or fails. *)
Fixpoint stream_bytes (s : list Arrival) : bytes :=
  match s with Data d :: s => d ++ stream_bytes s | _ => [] end.

(** Data has at least a byte. *)
Definition arrivals_ok (s : list Arrival) : Prop := Forall (fun a => a <> Data []) s.

(** What a reader of the stream has still to get. *)
Definition unread (self : PrebufferedTcpStream) : bytes :=
  drop (Z.to_nat (prebuffer_pos self)) (prebuffer self) ++ stream_bytes (ps_stream self).

Definition prebuffered_ok (self : PrebufferedTcpStream) : Prop :=
  0 <= prebuffer_pos self <= len (prebuffer self) /\ arrivals_ok (ps_stream self).

Lemma tcp_read_bytes n s d s' :
  arrivals_ok s -> tcp_read n s = Some (Ok d, s') ->
  stream_bytes s = d ++ stream_bytes s' /\ arrivals_ok s' /\ (0 <= n -> len d <= n) /\
  (0 < n -> d = [] -> stream_bytes s = []).
Proof.
  intros Hs. destruct s as [|[d0| |e] s]; [done| | |done]; cbn [tcp_read]; apply Forall_cons in Hs as [Hd Hs].
  - intros [= <- <-]. case_bool_decide as Hr.
    + assert (take (Z.to_nat n) d0 = d0) as Ht by (by rewrite <- (take_drop (Z.to_nat n) d0) at 2; rewrite Hr, app_nil_r).
      split_and!; [by rewrite Ht|done| |].
      * intros Hn. len_lia.
      * intros Hn Hnil. exfalso. apply Hd. by rewrite <- Ht, Hnil.
    + split_and!; [cbn [stream_bytes]; by rewrite app_assoc, take_drop| |intros Hn; len_lia|].
      * constructor; [by intros [= ?]|done].
      * intros Hn Ht. destruct d0 as [|b d0]; [done|]. replace (Z.to_nat n) with (S (Z.to_nat n - 1)) in Ht by lia. done.
  - intros [= <- <-]. split_and!; [done|by constructor|intros; len_lia|done].
Qed.

Section listener_proofs.
Context (parse : bytes -> ParsedRecord).
(** The parser works on streams: more data does not change what it made of a record. *)
Context (parse_streaming : forall d e, parse d <> Incomplete -> parse (d ++ e) = parse d).
Abbreviation extract := (extract_client_random parse).

Lemma find_decides msg : find_client_random msg <> NeedMoreData.
Proof. induction msg as [|[r|] msg IH]; cbn; [done| |done]. by destruct (_ <=? _). Qed.

Lemma extract_streaming d e : extract d <> NeedMoreData -> extract (d ++ e) = extract d.
Proof.
  unfold extract_client_random. intros H. rewrite parse_streaming; [done|]. intros E. by rewrite E in H.
Qed.

(** Two prefixes of what the client sends that decide, decide the same. *)
Lemma extract_agree p q T : p `prefix_of` T -> q `prefix_of` T -> extract p <> NeedMoreData -> extract q <> NeedMoreData ->
  extract p = extract q.
Proof.
  intros Hp Hq Dp Dq. destruct (prefix_weak_total _ _ _ Hp Hq) as [[k ->]|[k ->]]; [symmetry|]; by apply extract_streaming.
Qed.

Definition random_of (x : ClientRandomExtraction) : option bytes := match x with Found r => Some r | _ => None end.

(** A prefix that decides, well before the limit. *)
Definition decided (T p : bytes) : Prop :=
  p `prefix_of` T /\ extract p <> NeedMoreData /\ len p <= MAX_PREBUFFER_LEN - READ_CHUNK_LEN.

Definition reading (T : bytes) (s : bytes * list Arrival) : Prop :=
  T = s.1 ++ stream_bytes s.2 /\ arrivals_ok s.2 /\ len s.1 <= MAX_PREBUFFER_LEN /\
  (s.1 = [] \/ exists q, q `prefix_of` s.1 /\ len s.1 <= len q + READ_CHUNK_LEN /\ extract q = NeedMoreData).

Definition read_ok (T : bytes) (r : ReadAhead) : Prop :=
  match r with
  | Waiting => forall p, ~ decided T p
  | ReadDone (Err _) => True
  | ReadDone (Ok (w, cr)) =>
      unread w = T /\ prebuffered_ok w /\ len (prebuffer w) <= MAX_PREBUFFER_LEN /\
      (forall x, cr = Some x -> exists p, p `prefix_of` T /\ extract p = Found x) /\
      (forall p, decided T p -> cr = random_of (extract p))
  end.

Lemma undecided_prefix p q : p `prefix_of` q -> extract q = NeedMoreData -> extract p = NeedMoreData.
Proof.
  intros [k ->] Hq. destruct (extract p) eqn:E; [|done|]; exfalso;
    (rewrite (extract_streaming p k) in Hq; [congruence|by rewrite E]).
Qed.

Lemma unread_new buffer stream : unread (prebuffered_new buffer stream) = buffer ++ stream_bytes stream.
Proof. done. Qed.

Lemma ready_ok T buffer stream cr :
  T = buffer ++ stream_bytes stream -> arrivals_ok stream -> len buffer <= MAX_PREBUFFER_LEN ->
  (forall x, cr = Some x -> exists p, p `prefix_of` T /\ extract p = Found x) ->
  (forall p, decided T p -> cr = random_of (extract p)) -> read_ok T (ready buffer stream cr).
Proof.
  intros -> Hs Hl Hx Hd. split_and!; [by rewrite unread_new| |done|done|done].
  split; [cbn; pose proof (len_nonneg buffer); lia|done].
Qed.

Lemma decided_in_prefix T p q : decided T p -> q `prefix_of` T -> len p <= len q -> extract q <> NeedMoreData.
Proof.
  intros (Hp & Hd & _) Hq Hl E. apply Hd. eapply undecided_prefix; [|exact E].
  destruct (prefix_weak_total _ _ _ Hp Hq) as [H|H]; [done|].
  by rewrite (prefix_length_eq _ _ H) by (unfold len in Hl; lia).
Qed.

Lemma read_round_end T s r : reading T s -> ahead_round parse s = inr r -> read_ok T r.
Proof.
  destruct s as [buffer stream]. intros (HT & Hs & Hl & Hq) E. cbn in *.
  assert (buffer `prefix_of` T) as Hb by (rewrite HT; by apply prefix_app_r).
  destruct (Z.ltb_spec (len buffer) MAX_PREBUFFER_LEN) as [Hlt|Hge].
  - destruct (extract buffer) as [x| |] eqn:Ex.
    + injection E as <-. apply ready_ok; [done..| |]; [by intros ? [= <-]; exists buffer|].
      intros p (Hp & Hd & _). rewrite (extract_agree p buffer T) by (done || by rewrite Ex). by rewrite Ex.
    + assert (stream_bytes stream = [] -> forall p, ~ decided T p) as Hnone.
      { intros Hnil p Hp. rewrite Hnil, app_nil_r in HT. eapply (decided_in_prefix T p buffer); [done|done| |done].
        destruct Hp as (Hp & _). apply prefix_length in Hp. rewrite HT in Hp. unfold len. lia. }
      destruct (tcp_read _ stream) as [[[tmp|e] stream']|] eqn:Er.
      * destruct (tcp_read_bytes _ _ _ _ Hs Er) as (Hst & Hs' & _ & Hn). destruct (Z.eqb_spec (len tmp) 0) as [H0|]; [|done].
        injection E as <-. assert (tmp = []) as -> by (apply len_nil_inv; lia). rewrite Hst in HT.
        apply ready_ok; [done..|].
        intros p Hp. exfalso. eapply Hnone; [|done]. apply Hn; [unfold READ_CHUNK_LEN; lia|done].
      * injection E as <-. done.
      * injection E as <-. assert (stream_bytes stream = []) as Hnil by (by destruct stream as [|[]]). exact (Hnone Hnil).
    + injection E as <-. apply ready_ok; [done..|].
      intros p (Hp & Hd & _). rewrite (extract_agree p buffer T) by (done || by rewrite Ex). by rewrite Ex.
  - injection E as <-. apply ready_ok; [done..|]. intros p Hp. exfalso.
    destruct Hq as [->|(q & Hq & Hlq & Eq)]; [by unfold MAX_PREBUFFER_LEN in Hge; cbn in Hge|].
    eapply (decided_in_prefix T p q); [done|by etrans| |done]. destruct Hp as (_ & _ & Hp). lia.
Qed.

Lemma read_round_next T s s' :
  reading T s -> ahead_round parse s = inl s' ->
  reading T s' /\ MAX_PREBUFFER_LEN - len s'.1 < MAX_PREBUFFER_LEN - len s.1.
Proof.
  destruct s as [buffer stream]. intros (HT & Hs & Hl & Hq) E. cbn in *.
  destruct (Z.ltb_spec (len buffer) MAX_PREBUFFER_LEN) as [Hlt|Hge]; [|done].
  destruct (extract buffer) as [x| |] eqn:Ex; [done| |done].
  destruct (tcp_read _ stream) as [[[tmp|e] stream']|] eqn:Er; [|done..].
  destruct (tcp_read_bytes _ _ _ _ Hs Er) as (Hst & Hs' & Hn & _). destruct (Z.eqb_spec (len tmp) 0) as [|H0]; [done|].
  injection E as <-. pose proof (len_nonneg tmp). assert (len tmp <= Z.min READ_CHUNK_LEN (MAX_PREBUFFER_LEN - len buffer)) as Ht
    by (apply Hn; unfold READ_CHUNK_LEN; lia).
  cbn. rewrite len_app. split; [|lia]. split_and!; cbn.
  - by rewrite HT, Hst, app_assoc.
  - done.
  - rewrite len_app. lia.
  - right. exists buffer. split_and!; [by apply prefix_app_r|rewrite len_app; lia|done].
Qed.

Lemma read_ahead_ok stream :
  arrivals_ok stream -> exists r, read_client_random_and_wrap_stream parse stream = Ret r /\ read_ok (stream_bytes stream) r.
Proof.
  intros Hs. unfold read_client_random_and_wrap_stream.
  destruct (iterate_measure (ahead_round parse) (reading (stream_bytes stream)) (read_ok (stream_bytes stream))
    (fun s => MAX_PREBUFFER_LEN - len s.1)) with (p := 16385%positive) (s := ([] : bytes, stream)) as (r & -> & Hr).
  - intros s (_ & _ & Hl & _). lia.
  - apply read_round_next.
  - apply read_round_end.
  - split_and!; [done|done|done|by left].
  - done.
  - by exists r.
Qed.

End listener_proofs.

(** ** The stream handed on *)

Lemma poll_read_bytes n self d self' :
  prebuffered_ok self -> 0 <= n -> poll_read n self = Some (Ok d, self') ->
  unread self = d ++ unread self' /\ prebuffered_ok self' /\ len d <= n /\ (0 < n -> d = [] -> unread self = []).
Proof.
  intros [Hpos Hs] Hn. unfold poll_read. destruct (Z.ltb_spec (prebuffer_pos self) (len (prebuffer self))) as [Hlt|Hge].
  - intros [= <- <-]. set (k := Z.min _ n). assert (0 <= k <= n) as Hk by lia.
    unfold unread. cbn [prebuffer prebuffer_pos ps_stream]. split_and!.
    + rewrite Z2Nat.inj_add, <- drop_drop by lia. by rewrite app_assoc, take_drop.
    + split; cbn; [lia|done].
    + len_lia.
    + intros Hn' Hnil. exfalso. apply (f_equal length) in Hnil. revert Hnil. unfold len in *.
      rewrite length_take, length_drop. cbn [length]. lia.
  - destruct (tcp_read n (ps_stream self)) as [[r stream]|] eqn:Er; [|done]. intros [= -> <-].
    destruct (tcp_read_bytes _ _ _ _ Hs Er) as (Hst & Hs' & Hl & Hz). unfold unread. cbn [prebuffer prebuffer_pos ps_stream].
    rewrite !drop_ge by len_lia. split_and!; [done|by split|by apply Hl|done].
Qed.

(** The bytes that reads of the given sizes get, up to an error or a read that waits. *)
Fixpoint read_all (sizes : list Z) (self : PrebufferedTcpStream) : bytes * PrebufferedTcpStream :=
  match sizes with
  | [] => ([], self)
  | n :: sizes =>
      match poll_read n self with
      | Some (Ok d, self) => let (ds, self) := read_all sizes self in (d ++ ds, self)
      | _ => ([], self)
      end
  end.

Lemma read_all_unread sizes self :
  prebuffered_ok self -> Forall (fun n => 0 <= n) sizes ->
  let (ds, self') := read_all sizes self in unread self = ds ++ unread self'.
Proof.
  intros Hok Hsz. revert self Hok. induction Hsz as [|n sizes Hn _ IH]; intros self Hok; [done|]. cbn [read_all].
  destruct (poll_read n self) as [[[d|e] self1]|] eqn:E; [|done..].
  destruct (poll_read_bytes _ _ _ _ Hok Hn E) as (Hu & Hok1 & _). specialize (IH self1 Hok1).
  destruct (read_all sizes self1) as [ds self2]. by rewrite Hu, IH, app_assoc.
Qed.

(** A read that waits or fails has nothing left to get. *)
Lemma poll_read_stuck n self : prebuffered_ok self ->
  match poll_read n self with Some (Ok _, _) => True | _ => unread self = [] end.
Proof.
  intros [Hpos Hs]. unfold poll_read. destruct (Z.ltb_spec (prebuffer_pos self) (len (prebuffer self))); [done|].
  unfold unread. destruct (ps_stream self) as [|[d| |e] s]; cbn; [|done|done|]; by rewrite drop_ge by len_lia.
Qed.

Lemma read_all_complete sizes self :
  prebuffered_ok self -> Forall (fun n => 0 < n) sizes -> len (unread self) <= len sizes ->
  (read_all sizes self).1 = unread self.
Proof.
  intros Hok Hsz. revert self Hok. induction Hsz as [|n sizes Hn _ IH]; intros self Hok Hl.
  { symmetry. by apply len_nil_inv. }
  cbn [read_all]. pose proof (poll_read_stuck n self Hok) as Hstuck.
  destruct (poll_read n self) as [[[d|e] self1]|] eqn:E; [|by rewrite Hstuck..].
  destruct (poll_read_bytes n self d self1) as (Hu & Hok1 & _ & Hz); [done|lia|done|].
  specialize (IH self1 Hok1). destruct (read_all sizes self1) as [ds self2]. cbn in *. rewrite Hu. f_equal. apply IH.
  rewrite len_cons in Hl. destruct d as [|b d].
  - rewrite Hz in Hu by done. cbn in Hu. rewrite <- Hu. apply len_nonneg.
  - rewrite Hu, len_app, len_cons in Hl. pose proof (len_nonneg d). lia.
Qed.

(** ** Properties *)

(** C32: reading ahead is invisible to the TLS library and, well before the limit, to the network:
    it returns without overrunning its buffer; the library then reads, whatever the sizes
    of its reads, the bytes that the client sent, and all of them with enough reads; the client random that the rules
    are given is one the parser finds in a prefix of these bytes; and if some prefix of at
    most 15 KiB has a complete first record, it is the client random of that prefix, however
    the network cuts the bytes, and the listener does not wait for more. *)
Theorem client_random_transparent (parse : bytes -> ParsedRecord) (stream : list Arrival) (sizes : list Z) :
  (forall d e, parse d <> Incomplete -> parse (d ++ e) = parse d) ->
  arrivals_ok stream -> Forall (fun n => 0 <= n) sizes ->
  exists r, read_client_random_and_wrap_stream parse stream = Ret r /\
  match r with
  | ReadDone (Ok (wrapped, client_random)) =>
      (let (ds, rest) := read_all sizes wrapped in stream_bytes stream = ds ++ unread rest) /\
      (Forall (fun n => 0 < n) sizes -> len (stream_bytes stream) <= len sizes ->
         (read_all sizes wrapped).1 = stream_bytes stream) /\
      len (prebuffer wrapped) <= MAX_PREBUFFER_LEN /\
      (forall x, client_random = Some x ->
         exists p, p `prefix_of` stream_bytes stream /\ extract_client_random parse p = Found x) /\
      (forall p, p `prefix_of` stream_bytes stream -> parse p <> Incomplete ->
         len p <= MAX_PREBUFFER_LEN - READ_CHUNK_LEN -> client_random = random_of (extract_client_random parse p))
  | ReadDone (Err _) => True
  | Waiting =>
      forall p, p `prefix_of` stream_bytes stream -> len p <= MAX_PREBUFFER_LEN - READ_CHUNK_LEN -> parse p = Incomplete
  end.
Proof.
  intros Hparse Hs Hsz. destruct (read_ahead_ok parse Hparse stream Hs) as (r & -> & Hr). exists r. split; [done|].
  assert (forall p, parse p <> Incomplete -> extract_client_random parse p <> NeedMoreData) as Hdec.
  { intros p Hp. unfold extract_client_random. destruct (parse p) as [msg| |]; [apply find_decides|done|done]. }
  destruct r as [|[[w cr]|e]]; [| |done]; cbn in Hr.
  - intros p Hp Hl. destruct (parse p) as [msg| |] eqn:E; [|done|];
      (exfalso; apply (Hr p); split_and!; [done|apply Hdec; by rewrite E|done]).
  - destruct Hr as (Hu & Hok & Hl & Hx & Hd). split_and!; [| |done|done|].
    + rewrite <- Hu. by apply read_all_unread.
    + intros Hpos Hlen. rewrite <- Hu in Hlen |- *. by apply read_all_complete.
    + intros p Hp Hne Hlp. apply Hd. split_and!; auto.
Qed.

Module ListenerSample.

Definition hello (n : Z) : bytes := replicate (Z.to_nat n) 22.

(** A record is complete with [n] bytes. *)
Definition parse (n : Z) (d : bytes) : ParsedRecord :=
  if len d <? n then Incomplete else Plaintext [OtherMessage; ClientHello (replicate 32 7)].

Lemma parse_streaming n d e : parse n d <> Incomplete -> parse n (d ++ e) = parse n d.
Proof.
  unfold parse. destruct (Z.ltb_spec (len d) n); [done|]. intros _. pose proof (len_nonneg e).
  destruct (Z.ltb_spec (len (d ++ e)) n) as [H1|]; [rewrite len_app in H1; lia|done].
Qed.

(** A hello of 1500 bytes in two segments, and one of 16000 bytes, at once and in two. *)
Definition small : list Arrival := [Data (hello 1400); Data (hello 200)].
Definition large : list Arrival := [Data (hello 17000)].
Definition large_cut : list Arrival := [Data (hello 16000); Data (hello 1000)].

Definition random (n : Z) (s : list Arrival) : option (option bytes) :=
  match read_client_random_and_wrap_stream (parse n) s with Ret (ReadDone (Ok (_, cr))) => Some cr | _ => None end.

End ListenerSample.

Lemma client_random_transparent_witness :
  exists w cr, read_client_random_and_wrap_stream (ListenerSample.parse 1500) ListenerSample.small = Ret (ReadDone (Ok (w, cr))) /\
    cr = Some (replicate 32 7) /\
    (let (ds, rest) := read_all [5; 0; 3000; 4000] w in stream_bytes ListenerSample.small = ds ++ unread rest).
Proof.
  destruct (client_random_transparent (ListenerSample.parse 1500) ListenerSample.small [5; 0; 3000; 4000]
    (ListenerSample.parse_streaming 1500)) as (r & E & Hr); [by repeat constructor|by repeat constructor|].
  assert (match r with ReadDone (Ok (_, cr)) => cr = Some (replicate 32 7) | _ => False end) as Hcr.
  { pose proof E as E'. vm_compute in E'. injection E' as <-. reflexivity. }
  destruct r as [|[[w cr]|e]]; [destruct Hcr| |destruct Hcr].
  exists w, cr. split; [exact E|]. split; [exact Hcr|]. destruct Hr as (H & _). exact H.
Defined.

(** Above 15 KiB the network decides: with a record of 16000 bytes the buffer is filled to
    its limit by the last read and not looked at again, so that the client random is lost,
    unless the bytes happen to be cut at the end of the record. *)
Lemma large_hello_depends_on_cutting :
  stream_bytes ListenerSample.large = stream_bytes ListenerSample.large_cut /\
  ListenerSample.random 16000 ListenerSample.large = Some None /\
  ListenerSample.random 16000 ListenerSample.large_cut = Some (Some (replicate 32 7)).
Proof. split; [by_compute|]. split; vm_compute; reflexivity. Qed.
