(* ===== verification/IcmpForwarder.v ===== *)
(** * The ICMP forwarder

    lib/src/icmp_forwarder.rs, with the generic datagram pipe of lib/src/datagram_pipe.rs
    that serves it: the table of pending echo requests, its deadlines, the dispatch of
    replies to the queues of the clients, and the access control of the sink.  Raw sockets
    are the outcomes of their calls.

    The table is a [HashMap] keyed by [Echo], whose equality is not transitive.  Only what
    the standard library promises of such a map is used: a lookup finds an entry whose key
    equals the given one, if there is any; an insertion replaces the value of such an entry,
    keeping its key, or adds one.  The order in which entries are probed is arbitrary: it is
    the order of the list, and an insertion may rearrange it. *)

From S2P Require Import Prelude.
From S2P Require Import Codecs.
From S2P Require Import Varint.
From S2P Require Import NetUtils.
From S2P Require Import Icmp.
From S2P Require Import Datagram.
From S2P Require Import UdpPipe.

(** ** The hash map and the ordered map *)

Section hash_map.
Context {V : Type}.

Fixpoint hm_get (l : list (Echo * V)) (k : Echo) : option V :=
  match l with
  | [] => None
  | (k', v) :: l => if echo_eq k' k then Some v else hm_get l k
  end.

Fixpoint hm_remove (l : list (Echo * V)) (k : Echo) : list (Echo * V) :=
  match l with
  | [] => []
  | (k', v) :: l => if echo_eq k' k then l else (k', v) :: hm_remove l k
  end.

(** Replace the value of the entry found, [None] when there is none. *)
Fixpoint hm_replace (l : list (Echo * V)) (k : Echo) (v : V) : option (list (Echo * V)) :=
  match l with
  | [] => None
  | (k', v') :: l => if echo_eq k' k then Some ((k', v) :: l) else cons (k', v') <$> hm_replace l k v
  end.

(** [rehash] is the order of the buckets after the insertion. *)
Definition hm_insert (rehash : list (Echo * V) -> list (Echo * V)) (l : list (Echo * V)) (k : Echo) (v : V)
  : list (Echo * V) :=
  match hm_replace l k v with Some l' => l' | None => rehash ((k, v) :: l) end.

End hash_map.

(** [BTreeMap<Instant, LinkedList<Echo>>], by ascending instants: append to the list of
    an instant, and whether the instant is new. *)
Fixpoint bt_push (d : Z) (e : Echo) (l : list (Z * list Echo)) : list (Z * list Echo) * bool :=
  match l with
  | [] => ([(d, [e])], true)
  | (d', es) :: l' =>
      if d <? d' then ((d, [e]) :: l, true)
      else if d =? d' then ((d', es ++ [e]) :: l', false)
      else let (l'', fresh) := bt_push d e l' in ((d', es) :: l'', fresh)
  end.

(** ** State *)

(** The bounded queue of a client; it is open while the client's source is alive. *)
Record Queue : Type := mkQueue {
  q_items : list (IpAddr * Message);
  q_capacity : Z;
  q_open : bool;
}.

(** [waker_tx] names the queue of the client. *)
Record ReplyWaiter : Type := mkWaiter { original_peer : IpAddr; waker_tx : Z }.

Record Listeners : Type := mkListeners {
  reply_waiters : list (Echo * ReplyWaiter);
  deadlines : list (Z * list Echo);
}.

(** [core_settings.icmp] and what else of the settings is used. *)
Record IcmpSettings : Type := mkIcmpSettings {
  request_timeout : Z;
  recv_message_queue_capacity : Z;
  icmp_allow_private : bool;
  icmp_ipv6_available : bool;
}.

(** [sockets_v4], [sockets_v6]: whether the sockets are open; [woken]: a permit of
    [deadline_waker]. *)
Record ForwarderShared : Type := mkForwarder {
  sockets_v4 : bool;
  sockets_v6 : bool;
  listeners : Listeners;
  queues : gmap Z Queue;
  woken : bool;
}.

Definition icmp_forwarder_new : ForwarderShared := mkForwarder false false (mkListeners [] []) ∅ false.

Definition with_listeners (self : ForwarderShared) (l : Listeners) : ForwarderShared :=
  mkForwarder (sockets_v4 self) (sockets_v6 self) l (queues self) (woken self).

Definition with_queues (self : ForwarderShared) (q : gmap Z Queue) : ForwarderShared :=
  mkForwarder (sockets_v4 self) (sockets_v6 self) (listeners self) q (woken self).

(** [init_sockets]; the outcomes of opening the two sockets. *)
Definition init_sockets (settings : IcmpSettings) (open4 open6 : result ErrorKind unit) (self : ForwarderShared)
  : result ErrorKind unit * ForwarderShared :=
  match open4 with
  | Err e => (Err e, self)
  | Ok _ =>
      let self := mkForwarder true (sockets_v6 self) (listeners self) (queues self) (woken self) in
      if icmp_ipv6_available settings then
        match open6 with
        | Err e => (Err e, self)
        | Ok _ => (Ok tt, mkForwarder true true (listeners self) (queues self) (woken self))
        end
      else (Ok tt, mkForwarder true false (listeners self) (queues self) (woken self))
  end.

(** [make_multiplexer] for a client with the fresh name [c]; [mpsc::channel] panics when
    the capacity is zero. *)
Definition icmp_make_multiplexer (settings : IcmpSettings) (c : Z) (self : ForwarderShared) : M ForwarderShared :=
  let! _ := assertM (0 <? recv_message_queue_capacity settings) in
  Ret (with_queues self (<[c := mkQueue [] (recv_message_queue_capacity settings) true]> (queues self))).

(** ** The sink *)

(** What the environment decides during a write: the outcome of sending, the clock, and
    the order of the buckets. *)
Record IcmpWriteEnv : Type := mkIcmpEnv {
  iw_send : result ErrorKind unit;
  iw_now : Z;
  iw_rehash : list (Echo * ReplyWaiter) -> list (Echo * ReplyWaiter);
}.

(** A packet given to a raw socket. *)
Record SentPacket : Type := mkSent { sent_peer : IpAddr; sent_ttl : Z; sent_bytes : bytes }.

(** An [Instant] on Linux: the seconds of the monotonic clock as an [i64], and
    nanoseconds; times are counted in nanoseconds here. *)
Definition INSTANT_MAX : Z := 2 ^ 63 * 10 ^ 9 - 1.

(** [Instant + Duration] panics when the sum is no [Instant]. *)
Definition instant_add (t d : Z) : M Z :=
  let! _ := assertM (t + d <=? INSTANT_MAX) in
  Ret (t + d).

(** The registration of a sent request: the deadline, then the entries under the lock. *)
Definition register_request (settings : IcmpSettings) (env : IcmpWriteEnv) (c : Z) (peer : IpAddr) (echo : Echo)
    (self : ForwarderShared) : M ForwarderShared :=
  let! deadline := instant_add (iw_now env) (request_timeout settings) in
  let (dl, fresh) := bt_push deadline echo (deadlines (listeners self)) in
  Ret (mkForwarder (sockets_v4 self) (sockets_v6 self)
         (mkListeners (hm_insert (iw_rehash env) (reply_waiters (listeners self)) echo (mkWaiter peer c)) dl)
         (queues self)
         (if fresh && (len dl =? 1) then true else woken self)).

(** [write] up to the end of the call of [send_to]: [None] when the datagram is dropped,
    else the echo with the outcome of the call. *)
Definition icmp_send (settings : IcmpSettings) (env : IcmpWriteEnv) (self : ForwarderShared)
    (datagram : DownIcmpDatagram) : M (option (result ErrorKind Echo) * list SentPacket) :=
  let peer := di_peer datagram in
  if negb (icmp_allow_private settings) && negb (is_global_ip peer) then Ret (None, [])
  else
    match to_echo (di_message datagram) with
    | None => Ret (None, [])
    | Some echo =>
        if negb (if is_ipv4 peer then sockets_v4 self else sockets_v6 self) then Ret (None, [])
        else
          let! serialized := serialize (di_message datagram) in
          let outs := [mkSent peer (di_ttl datagram) serialized] in
          match iw_send env with
          | Err e => Ret (Some (Err e), outs)
          | Ok _ => Ret (Some (Ok echo), outs)
          end
    end.

Definition icmp_write (settings : IcmpSettings) (env : IcmpWriteEnv) (c : Z) (self : ForwarderShared)
    (datagram : DownIcmpDatagram)
  : M (result ErrorKind SendStatus * ForwarderShared * list SentPacket) :=
  let! (r, outs) := icmp_send settings env self datagram in
  match r with
  | None => Ret (Ok Dropped, self, outs)
  | Some (Err e) => Ret (Err e, self, outs)
  | Some (Ok echo) =>
      let! self := register_request settings env c (di_peer datagram) echo self in
      Ret (Ok Sent, self, outs)
  end.

(** ** Replies *)

Inductive TrySendError : Type := QueueClosed | QueueFull.

Definition try_send (q : Queue) (m : IpAddr * Message) : result TrySendError Queue :=
  if negb (q_open q) then Err QueueClosed
  else if q_capacity q <=? len (q_items q) then Err QueueFull
  else Ok (mkQueue (q_items q ++ [m]) (q_capacity q) (q_open q)).

(** The body of the loop of [listen] for a received message; the queue of a waiter that
    cannot take it loses the waiter. *)
Definition dispatch_reply (peer : IpAddr) (reply : Message) (self : ForwarderShared) : M ForwarderShared :=
  let! r := responded_echo_request reply in
  match r with
  | None => Ret self
  | Some request =>
      match hm_get (reply_waiters (listeners self)) request with
      | None => Ret self
      | Some waiter =>
          let! q := unwrap (queues self !! waker_tx waiter) in
          match try_send q (peer, reply) with
          | Ok q => Ret (with_queues self (<[waker_tx waiter := q]> (queues self)))
          | Err _ =>
              Ret (with_listeners self
                     (mkListeners (hm_remove (reply_waiters (listeners self)) request)
                        (deadlines (listeners self))))
          end
      end
  end.

(** [listen_socket] and [listen_v4]/[listen_v6] for one received packet: [None] is a
    packet that is dropped. *)
Definition receive_packet (peer : IpAddr) (packet : bytes) : M (option Message) :=
  if is_ipv4 peer then
    let! r := skip_ipv4_header packet in
    match r with
    | None => Ret None
    | Some (proto, payload) =>
        if proto =? IPPROTO_ICMP then
          let! m := V4.v4_deserialize payload in
          match m with Ok x => Ret (Some (MsgV4 x)) | Err _ => Ret None end
        else Ret None
    end
  else
    let! m := V6.v6_deserialize packet in
    match m with Ok x => Ret (Some (MsgV6 x)) | Err _ => Ret None end.

Definition on_packet (peer : IpAddr) (packet : bytes) (self : ForwarderShared) : M ForwarderShared :=
  let! m := receive_packet peer packet in
  match m with None => Ret self | Some reply => dispatch_reply peer reply self end.

(** ** Maintenance *)

Definition closest_deadline (self : ForwarderShared) : option Z := fst <$> head (deadlines (listeners self)).

(** The body of the loop of [maintain_listeners], woken at [now]. *)
Definition maintain_listeners (now : Z) (self : ForwarderShared) : ForwarderShared :=
  let l := listeners self in
  let expired := base.filter (fun p => p.1 <= now) (deadlines l) in
  with_listeners self
    (mkListeners (fold_left hm_remove (mbind snd expired) (reply_waiters l))
       (base.filter (fun p => ~ p.1 <= now) (deadlines l))).

(** ** The source *)

(** [read]: [None] while the queue is empty; the sink of the same client keeps its sender
    open. *)
Definition icmp_read (c : Z) (self : ForwarderShared) : M (option IcmpDatagram * ForwarderShared) :=
  let! q := unwrap (queues self !! c) in
  match q_items q with
  | [] => Ret (None, self)
  | (peer, message) :: items =>
      Ret (Some (mkIcmp peer message),
           with_queues self (<[c := mkQueue items (q_capacity q) (q_open q)]> (queues self)))
  end.

(** The client's source is dropped. *)
Definition icmp_source_dropped (c : Z) (self : ForwarderShared) : ForwarderShared :=
  with_queues self (alter (fun q => mkQueue [] (q_capacity q) false) c (queues self)).

(** ** The generic pipe *)

Section generic_pipe.
Context {D St Env Out : Type} (datagram_len : D -> Z)
  (write : Env -> St -> D -> M (result ErrorKind SendStatus * St * list Out)).

(** [GenericSimplexPipe::exchange]: the outcomes of [source.read], each with what the
    environment decides during the write that follows; the sum given to [update_metrics]
    and what was sent.  [None] when it has not returned by then. *)
Fixpoint generic_exchange (reads : list (result ErrorKind D * Env)) (st : St) (metered : Z)
  : M (option ErrorKind * St * Z * list Out) :=
  match reads with
  | [] => Ret (None, st, metered, [])
  | (Err e, _) :: _ => Ret (Some e, st, metered, [])
  | (Ok d, env) :: reads =>
      let! (r, st, outs) := write env st d in
      match r with
      | Err e => Ret (Some e, st, metered, outs)
      | Ok status =>
          let metered := match status with Sent => metered + datagram_len d | Dropped => metered end in
          let! (r, st, metered, outs') := generic_exchange reads st metered in
          Ret (r, st, metered, outs ++ outs')
      end
  end.

End generic_pipe.

(** [GenericDuplexPipe::exchange]: neither half returns but with an error, and the first
    error ends both. *)
Definition generic_duplex (left_first : bool) (left right : option ErrorKind) : option ErrorKind :=
  match left, right with
  | Some e, Some e' => Some (if left_first then e else e')
  | Some e, None | None, Some e => Some e
  | None, None => None
  end.

(** ** Steps of the forwarder *)

Definition is_echo_request (m : Message) : bool :=
  match m with MsgV4 (V4.EchoRequest _) | MsgV6 (V6.EchoRequest _) => true | _ => false end.

(** The forwarder and its clients, step by step; a step is labelled with the datagram that
    a client wrote, if it is a write, with what was sent and, when a request was registered,
    with the client, the echo and the time.  A write that panics has left its packet, and
    nothing of the shared state is touched. *)
Inductive icmp_step (s : IcmpSettings) (self : ForwarderShared)
  : option (Z * DownIcmpDatagram) -> list SentPacket -> option (Z * Echo * Z) -> ForwarderShared -> Prop :=
| step_init open4 open6 r self' :
    init_sockets s open4 open6 self = (r, self') -> icmp_step s self None [] None self'
| step_client c self' :
    queues self !! c = None -> icmp_make_multiplexer s c self = Ret self' -> icmp_step s self None [] None self'
| step_write_sent c env d echo self' outs :
    is_Some (queues self !! c) -> (forall l, iw_rehash env l ≡ₚ l) ->
    to_echo (di_message d) = Some echo ->
    icmp_write s env c self d = Ret (Ok Sent, self', outs) ->
    icmp_step s self (Some (c, d)) outs (Some (c, echo, iw_now env)) self'
| step_write_other c env d r self' outs :
    is_Some (queues self !! c) -> r <> Ok Sent -> icmp_write s env c self d = Ret (r, self', outs) ->
    icmp_step s self (Some (c, d)) outs None self'
| step_write_panic c env d r outs :
    is_Some (queues self !! c) -> icmp_send s env self d = Ret (r, outs) -> icmp_write s env c self d = Panic ->
    icmp_step s self (Some (c, d)) outs None self
| step_packet peer packet self' :
    on_packet peer packet self = Ret self' -> icmp_step s self None [] None self'
| step_maintain now : icmp_step s self None [] None (maintain_listeners now self)
| step_read c d self' : icmp_read c self = Ret (d, self') -> icmp_step s self None [] None self'
| step_drop c : icmp_step s self None [] None (icmp_source_dropped c self).

(** The states reached, with all datagrams written by clients, all packets sent and all
    requests registered. *)
Inductive icmp_run (s : IcmpSettings)
  : ForwarderShared -> list (Z * DownIcmpDatagram) -> list SentPacket -> list (Z * Echo * Z) -> Prop :=
| run_start : icmp_run s icmp_forwarder_new [] [] []
| run_step self written outs hist w outs' ev self' :
    icmp_run s self written outs hist -> icmp_step s self w outs' ev self' ->
    icmp_run s self' (written ++ option_list w) (outs ++ outs') (match ev with Some e => e :: hist | None => hist end).

Definition icmp_reach (s : IcmpSettings) (self : ForwarderShared) (outs : list SentPacket)
    (hist : list (Z * Echo * Z)) : Prop :=
  exists written, icmp_run s self written outs hist.

(** [p] is the packet of the request that [d] is. *)
Definition packet_of (d : DownIcmpDatagram) (p : SentPacket) : Prop :=
  sent_peer p = di_peer d /\ sent_ttl p = di_ttl d /\ is_echo_request (di_message d) = true /\
  serialize (di_message d) = Ret (sent_bytes p).

(** ** Lemmas on the maps *)

Lemma echo_eq_refl e : echo_eq e e = true.
Proof. apply echo_eq_laws. Qed.

Lemma echo_eq_sym a b : echo_eq a b = echo_eq b a.
Proof. apply echo_eq_laws. Qed.

Lemma echo_eq_hash a b : echo_eq a b = true -> echo_hash a = echo_hash b.
Proof. apply echo_eq_laws. Qed.

Section hash_map_lemmas.
Context {V : Type}.
Implicit Types l : list (Echo * V).

Lemma hm_split l k :
  Forall (fun p => echo_eq p.1 k = false) l \/
  exists l1 k' v' l2, l = l1 ++ (k', v') :: l2 /\ echo_eq k' k = true /\
    Forall (fun p => echo_eq p.1 k = false) l1.
Proof.
  induction l as [|[k' v'] l IH]; [by left|]. destruct (echo_eq k' k) eqn:E; [by right; eexists [], _, _, _|].
  destruct IH as [IH|(l1 & k2 & v2 & l2 & -> & E2 & H1)]; [left; by constructor|].
  right. exists ((k', v') :: l1), k2, v2, l2. split; [done|]. split; [done|]. by constructor.
Qed.

Lemma hm_none l k : Forall (fun p => echo_eq p.1 k = false) l ->
  hm_get l k = None /\ hm_remove l k = l /\ forall v, hm_replace l k v = None.
Proof.
  induction 1 as [|[k' v'] l E _ (Hg & Hr & Hp)]; [done|]. cbn in *. rewrite E, Hr.
  split_and!; [done|done|]. intros v. by rewrite Hp.
Qed.

Lemma hm_found l1 k' v' l2 k : echo_eq k' k = true -> Forall (fun p => echo_eq p.1 k = false) l1 ->
  hm_get (l1 ++ (k', v') :: l2) k = Some v' /\ hm_remove (l1 ++ (k', v') :: l2) k = l1 ++ l2 /\
  forall v, hm_replace (l1 ++ (k', v') :: l2) k v = Some (l1 ++ (k', v) :: l2).
Proof.
  intros E. induction 1 as [|[k1 v1] l1 E1 _ (Hg & Hr & Hp)]; cbn in *; [by rewrite E|].
  rewrite E1, Hr. split_and!; [done|done|]. intros v. by rewrite Hp.
Qed.

(** The keys of the map: no two are equal to each other. *)
Fixpoint distinct_keys (l : list (Echo * V)) : Prop :=
  match l with
  | [] => True
  | p :: l => Forall (fun q => echo_eq q.1 p.1 = false) l /\ distinct_keys l
  end.

Lemma distinct_perm l l' : l ≡ₚ l' -> distinct_keys l -> distinct_keys l'.
Proof.
  induction 1 as [|p l l' Hp IH|p q l|l l1 l2 _ IH1 _ IH2]; cbn; [done| | |auto].
  - intros [Hf Hd]. split; [|auto]. rewrite Forall_forall in *. intros q Hq. apply Hf. by rewrite Hp.
  - rewrite !Forall_cons. intros ([E Hp] & Hq & Hd). rewrite (echo_eq_sym q.1). done.
Qed.

#[export] Instance distinct_keys_proper : Proper ((≡ₚ) ==> iff) distinct_keys.
Proof. intros l l' Hp. split; by apply distinct_perm. Qed.

Lemma distinct_middle l1 p l2 : distinct_keys (l1 ++ p :: l2) <-> distinct_keys (p :: l1 ++ l2).
Proof. by rewrite Permutation_middle. Qed.

Lemma distinct_remove l k : distinct_keys l -> distinct_keys (hm_remove l k).
Proof.
  intros Hd. destruct (hm_split l k) as [Hn|(l1 & k' & v' & l2 & -> & E & H1)].
  - by rewrite (proj1 (proj2 (hm_none l k Hn))).
  - rewrite (proj1 (proj2 (hm_found l1 k' v' l2 k E H1))). by apply distinct_middle in Hd as [_ ?].
Qed.

(** Removing a key that is in the map removes that entry. *)
Lemma remove_own l p : distinct_keys l -> p ∈ hm_remove l p.1 -> False.
Proof.
  intros Hd Hp. destruct (hm_split l p.1) as [Hn|(l1 & k' & v' & l2 & -> & E & H1)].
  - rewrite (proj1 (proj2 (hm_none l p.1 Hn))) in Hp. rewrite Forall_forall in Hn.
    specialize (Hn p Hp). by rewrite echo_eq_refl in Hn.
  - rewrite (proj1 (proj2 (hm_found l1 k' v' l2 p.1 E H1))) in Hp.
    apply distinct_middle in Hd as [Hf _]. rewrite Forall_forall in Hf. specialize (Hf p Hp). cbn in Hf.
    by rewrite echo_eq_sym, E in Hf.
Qed.

Lemma remove_subset l k : hm_remove l k ⊆ l.
Proof.
  induction l as [|[k' v'] l IH]; [done|]. cbn. destruct (echo_eq k' k); set_solver.
Qed.

Lemma hm_get_elem l k v : hm_get l k = Some v -> exists k', (k', v) ∈ l /\ echo_eq k' k = true.
Proof.
  destruct (hm_split l k) as [Hn|(l1 & k' & v' & l2 & -> & E & H1)].
  - by rewrite (proj1 (hm_none l k Hn)).
  - rewrite (proj1 (hm_found l1 k' v' l2 k E H1)). intros [= <-]. exists k'. split; [|done]. set_solver.
Qed.

Lemma distinct_removes l ks : distinct_keys l -> distinct_keys (fold_left hm_remove ks l).
Proof. revert l. induction ks as [|k ks IH]; intros l Hd; [done|]. by apply IH, distinct_remove. Qed.

Lemma removes_subset l ks : fold_left hm_remove ks l ⊆ l.
Proof.
  revert l. induction ks as [|k ks IH]; intros l; [done|]. cbn. etransitivity; [apply IH|apply remove_subset].
Qed.

Lemma removes_own l ks p : distinct_keys l -> p.1 ∈ ks -> p ∈ fold_left hm_remove ks l -> False.
Proof.
  revert l. induction ks as [|k ks IH]; intros l Hd Hk Hp; [set_solver|]. cbn in Hp.
  apply elem_of_cons in Hk as [<-|Hk].
  - apply removes_subset in Hp. by apply (remove_own l p).
  - by apply (IH (hm_remove l k)); [apply distinct_remove|..].
Qed.

(** An insertion keeps the keys apart, and a lookup of the inserted key finds the value. *)
Lemma insert_spec rehash l k v :
  (forall l, rehash l ≡ₚ l) -> distinct_keys l ->
  distinct_keys (hm_insert rehash l k v) /\ hm_get (hm_insert rehash l k v) k = Some v /\
  forall p, p ∈ hm_insert rehash l k v ->
    p ∈ l \/ p = (k, v) \/ (p.2 = v /\ echo_eq p.1 k = true /\ exists v', (p.1, v') ∈ l).
Proof.
  intros Hr Hd. unfold hm_insert. destruct (hm_split l k) as [Hn|(l1 & k' & v' & l2 & -> & E & H1)].
  - rewrite (proj2 (proj2 (hm_none l k Hn))). assert (distinct_keys (rehash ((k, v) :: l))) as Hd'.
    { eapply distinct_perm; [symmetry; apply Hr|]. done. }
    split_and!; [done| |].
    + destruct (hm_split (rehash ((k, v) :: l)) k) as [Hn'|(l1 & k' & v' & l2 & El & E & H1)].
      { rewrite Forall_forall in Hn'. specialize (Hn' (k, v)). cbn in Hn'. rewrite echo_eq_refl in Hn'.
        discriminate Hn'. rewrite Hr. left. }
      rewrite El, (proj1 (hm_found l1 k' v' l2 k E H1)).
      assert ((k', v') ∈ (k, v) :: l) as Hi by (rewrite <- Hr, El; set_solver).
      apply elem_of_cons in Hi as [[= _ ->]|Hi]; [done|]. rewrite Forall_forall in Hn. specialize (Hn _ Hi).
      cbn in Hn. congruence.
    + intros p. rewrite Hr. set_solver.
  - rewrite (proj2 (proj2 (hm_found l1 k' v' l2 k E H1))). split_and!.
    + apply distinct_middle. by apply distinct_middle in Hd.
    + by rewrite (proj1 (hm_found l1 k' v l2 k E H1)).
    + intros p. rewrite elem_of_app, elem_of_cons. intros [Hp|[->|Hp]]; [set_solver| |set_solver].
      right; right. cbn. split_and!; [done|done|]. exists v'. set_solver.
Qed.

End hash_map_lemmas.

Lemma bt_push_elem d e l d' es :
  (d', es) ∈ l -> exists es', (d', es') ∈ (bt_push d e l).1 /\ es ⊆ es'.
Proof.
  induction l as [|[d1 es1] l IH]; [set_solver|]. cbn. intros Hi.
  destruct (d <? d1); [exists es; cbn; set_solver|].
  destruct (d =? d1).
  - apply elem_of_cons in Hi as [[= -> ->]|Hi]; cbn; [exists (es1 ++ [e]); set_solver|exists es; set_solver].
  - destruct (bt_push d e l) as [l'' fr]. cbn in *.
    apply elem_of_cons in Hi as [[= -> ->]|Hi]; [exists es1; set_solver|].
    destruct (IH Hi) as (es' & ? & ?). exists es'. set_solver.
Qed.

Lemma bt_push_new d e l : exists es, (d, es) ∈ (bt_push d e l).1 /\ e ∈ es.
Proof.
  induction l as [|[d1 es1] l IH]; cbn; [exists [e]; set_solver|].
  destruct (d <? d1); [exists [e]; cbn; set_solver|].
  destruct (Z.eqb_spec d d1) as [->|]; [exists (es1 ++ [e]); cbn; set_solver|].
  destruct (bt_push d e l) as [l'' fr]. cbn in *. destruct IH as (es & ? & ?). exists es. set_solver.
Qed.

Lemma bt_push_keys d e l d' : d' ∈ (bt_push d e l).1.*1 <-> d' = d \/ d' ∈ l.*1.
Proof.
  induction l as [|[d1 es1] l IH]; cbn; [by rewrite elem_of_cons|].
  destruct (d <? d1); cbn; [by rewrite !elem_of_cons|].
  destruct (Z.eqb_spec d d1) as [->|]; cbn; [rewrite !elem_of_cons; tauto|].
  destruct (bt_push d e l) as [l'' fr]. cbn in *. rewrite !elem_of_cons. tauto.
Qed.

(** ** The invariant *)

Record icmp_inv (s : IcmpSettings) (self : ForwarderShared) (hist : list (Z * Echo * Z)) : Prop := {
  inv_distinct : distinct_keys (reply_waiters (listeners self));
  inv_deadline k w : (k, w) ∈ reply_waiters (listeners self) ->
    exists d es, (d, es) ∈ deadlines (listeners self) /\ k ∈ es;
  inv_sent k w : (k, w) ∈ reply_waiters (listeners self) ->
    exists e t, (waker_tx w, e, t) ∈ hist /\ echo_hash e = echo_hash k;
  inv_queue k w : (k, w) ∈ reply_waiters (listeners self) -> is_Some (queues self !! waker_tx w);
  inv_time d : d ∈ (deadlines (listeners self)).*1 ->
    exists c e t, (c, e, t) ∈ hist /\ d = t + request_timeout s;
}.

(** Steps that leave the listeners alone and close no queue for good. *)
Lemma inv_same_listeners s self self' hist :
  icmp_inv s self hist -> listeners self' = listeners self ->
  (forall c, is_Some (queues self !! c) -> is_Some (queues self' !! c)) -> icmp_inv s self' hist.
Proof.
  intros [Hd Hk Hs Hq Ht] El Hqs. split; rewrite El; [exact Hd|exact Hk|exact Hs| |exact Ht].
  intros k w Hw. by eapply Hqs, Hq.
Qed.

(** Steps that only take waiters away. *)
Lemma inv_fewer s self hist ws ds :
  icmp_inv s self hist -> distinct_keys ws -> ws ⊆ reply_waiters (listeners self) ->
  ds ⊆ deadlines (listeners self) ->
  (forall k w d es, (k, w) ∈ ws -> (d, es) ∈ deadlines (listeners self) -> k ∈ es -> (d, es) ∈ ds) ->
  icmp_inv s (with_listeners self (mkListeners ws ds)) hist.
Proof.
  intros [Hd Hk Hs Hq Ht] Hdw Hw Hds Hkeep. split; cbn; [done|..].
  - intros k w Hi. destruct (Hk k w (Hw _ Hi)) as (d & es & Hde & Hke). eauto.
  - intros k w Hi. eapply Hs, Hw, Hi.
  - intros k w Hi. eapply Hq, Hw, Hi.
  - intros d Hi. apply Ht. apply list_elem_of_fmap in Hi as ([d' es] & -> & Hi). apply (list_elem_of_fmap_2 fst). auto.
Qed.

(** Only echo requests are serialised, the others panic. *)
Lemma serialize_request m b : serialize m = Ret b -> is_echo_request m = true.
Proof. by destruct m as [[]|[]]. Qed.

Lemma icmp_send_cases s env self d r outs :
  icmp_send s env self d = Ret (r, outs) ->
  (forall echo, r = Some (Ok echo) -> to_echo (di_message d) = Some echo) /\
  (outs = [] \/
   exists p, outs = [p] /\ packet_of d p /\ (icmp_allow_private s = true \/ is_global_ip (sent_peer p) = true)).
Proof.
  unfold icmp_send. destruct (negb (icmp_allow_private s) && negb (is_global_ip (di_peer d))) eqn:Ea.
  { intros [= <- <-]. split; [done|by left]. }
  assert (icmp_allow_private s = true \/ is_global_ip (di_peer d) = true) as Ha.
  { destruct (icmp_allow_private s), (is_global_ip (di_peer d)); auto. }
  destruct (to_echo (di_message d)) as [echo|] eqn:Ee; [|intros [= <- <-]; split; [done|by left]].
  destruct (if is_ipv4 (di_peer d) then sockets_v4 self else sockets_v6 self); cbn [negb];
    [|intros [= <- <-]; split; [done|by left]].
  destruct (serialize (di_message d)) as [b|] eqn:Es; cbn [bindM]; [|done].
  pose proof (serialize_request _ _ Es) as Hq.
  destruct (iw_send env); intros [= <- <-]; (split; [congruence|right]); (eexists; split; [done|]); by repeat split.
Qed.

Lemma register_request_inv s env c peer echo self self' :
  register_request s env c peer echo self = Ret self' ->
  iw_now env + request_timeout s <= INSTANT_MAX /\
  reply_waiters (listeners self') = hm_insert (iw_rehash env) (reply_waiters (listeners self)) echo (mkWaiter peer c) /\
  deadlines (listeners self') = (bt_push (iw_now env + request_timeout s) echo (deadlines (listeners self))).1 /\
  queues self' = queues self.
Proof.
  unfold register_request, instant_add. destruct (Z.leb_spec (iw_now env + request_timeout s) INSTANT_MAX);
    cbn [assertM bindM]; [|done]. destruct (bt_push _ _ _). by intros [= <-].
Qed.

Lemma icmp_write_cases s env c self d r self' outs :
  icmp_write s env c self d = Ret (r, self', outs) ->
  (r <> Ok Sent /\ self' = self \/
   r = Ok Sent /\ exists echo, to_echo (di_message d) = Some echo /\
     register_request s env c (di_peer d) echo self = Ret self') /\
  exists sent, icmp_send s env self d = Ret (sent, outs).
Proof.
  unfold icmp_write. destruct (icmp_send s env self d) as [[sent outs1]|] eqn:Es; cbn [bindM]; [|done].
  apply icmp_send_cases in Es as [He _].
  destruct sent as [[echo|e]|]; [|by intros [= <- <- <-]; split; [left|eexists]..].
  destruct (register_request _ _ _ _ _ _) as [self1|] eqn:Er; cbn [bindM]; [|done].
  intros [= <- <- <-]. split; [right|by eexists]. split; [done|]. exists echo. split; [by apply He|done].
Qed.

Lemma inv_register s env c peer echo self self' hist :
  (forall l, iw_rehash env l ≡ₚ l) -> is_Some (queues self !! c) -> icmp_inv s self hist ->
  register_request s env c peer echo self = Ret self' ->
  icmp_inv s self' ((c, echo, iw_now env) :: hist).
Proof.
  intros Hr Hc [Hd Hk Hs Hq Ht] (_ & Ew & Ed & Eq)%register_request_inv.
  set (t := iw_now env + request_timeout s) in *.
  pose proof (bt_push_elem t echo (deadlines (listeners self))) as Hold.
  pose proof (bt_push_new t echo (deadlines (listeners self))) as Hnew.
  pose proof (bt_push_keys t echo (deadlines (listeners self))) as Hkeys.
  rewrite <- Ed in Hold, Hnew, Hkeys.
  destruct (insert_spec (iw_rehash env) _ echo (mkWaiter peer c) Hr Hd) as (Hd' & _ & Hin).
  rewrite <- Ew in Hd', Hin.
  assert (forall k w, (k, w) ∈ reply_waiters (listeners self) ->
    exists d es, (d, es) ∈ deadlines (listeners self') /\ k ∈ es) as Hk'.
  { intros k w Hw. destruct (Hk k w Hw) as (d & es & Hde & Hke). destruct (Hold d es Hde) as (es' & ? & ?).
    exists d, es'. auto. }
  split; [done|..].
  - intros k w Hi. destruct (Hin _ Hi) as [H|[[= -> ->]|(_ & _ & v & H)]]; eauto.
  - intros k w Hi. destruct (Hin _ Hi) as [H|[[= -> ->]|(Ew' & E & _)]].
    + destruct (Hs _ _ H) as (e & t' & ? & ?). exists e, t'. split; [by right|done].
    + exists echo, (iw_now env). split; [left|done].
    + cbn in Ew', E. subst w. exists echo, (iw_now env). split; [left|]. symmetry. by apply echo_eq_hash.
  - rewrite Eq. intros k w Hi. destruct (Hin _ Hi) as [H|[[= -> ->]|(Ew' & _)]]; [eauto|done|]. cbn in Ew'. by subst w.
  - intros d Hi. apply Hkeys in Hi as [->|Hi]; [exists c, echo, (iw_now env); split; [left|done]|].
    destruct (Ht d Hi) as (c' & e & t' & ? & ?). exists c', e, t'. split; [by right|done].
Qed.

Lemma inv_dispatch s peer reply self self' hist :
  icmp_inv s self hist -> dispatch_reply peer reply self = Ret self' -> icmp_inv s self' hist.
Proof.
  intros Hinv. unfold dispatch_reply. destruct (responded_echo_request reply) as [[request|]|]; cbn [bindM];
    [|by intros [= <-]|done].
  destruct (hm_get _ request) as [w|]; [|by intros [= <-]].
  destruct (queues self !! waker_tx w) as [q|]; cbn [unwrap bindM]; [|done].
  destruct (try_send q (peer, reply)) as [q'|e]; intros [= <-].
  - eapply inv_same_listeners; [done|done|]. intros c Hc. cbn. by apply lookup_insert_is_Some'; right.
  - apply inv_fewer; [done|by apply distinct_remove, Hinv|apply remove_subset|done|done].
Qed.

Lemma inv_maintain s now self hist : icmp_inv s self hist -> icmp_inv s (maintain_listeners now self) hist.
Proof.
  intros Hinv. unfold maintain_listeners. pose proof (inv_distinct _ _ _ Hinv) as Hd.
  apply inv_fewer; [done|by apply distinct_removes|apply removes_subset|by intros p [_ ?]%list_elem_of_filter|].
  intros k w d es Hw Hde Hke. apply list_elem_of_filter. split; [|done]. cbn. intros Hle.
  eapply (removes_own (reply_waiters (listeners self)) _ (k, w) Hd); [|exact Hw].
  apply list_elem_of_bind. exists (d, es). split; [done|]. by apply list_elem_of_filter.
Qed.

Lemma icmp_step_inv s self w outs ev self' hist :
  icmp_inv s self hist -> icmp_step s self w outs ev self' ->
  icmp_inv s self' (match ev with Some e => e :: hist | None => hist end).
Proof.
  intros Hinv Hst. destruct Hst as [o4 o6 r self' E|c self' Hc E|c env d echo self' outs Hc Hr He E
    |c env d r self' outs Hc Hr E|c env d r outs Hc Es E|peer packet self' E|now|c d self' E|c].
  - unfold init_sockets in E. assert (listeners self' = listeners self /\ queues self' = queues self) as [El Eq].
    { destruct o4; [destruct (icmp_ipv6_available s); [destruct o6|]|]; by injection E as _ <-. }
    eapply inv_same_listeners; [done|done|]. intros c. by rewrite Eq.
  - unfold icmp_make_multiplexer in E. destruct (assertM _); cbn [bindM] in E; [|done]. injection E as <-.
    eapply inv_same_listeners; [done|done|]. intros c' Hc'. cbn. apply lookup_insert_is_Some'. by right.
  - apply icmp_write_cases in E as [[[E _]|(_ & e & Ee & Er)] _]; [done|].
    rewrite He in Ee. injection Ee as <-. by eapply inv_register.
  - apply icmp_write_cases in E as [[[_ ->]|[E _]] _]; done.
  - done.
  - unfold on_packet in E. destruct (receive_packet peer packet) as [[m|]|]; cbn [bindM] in E; [|by injection E as <-|done].
    by eapply inv_dispatch.
  - by apply inv_maintain.
  - unfold icmp_read in E. destruct (queues self !! c) as [q|]; cbn [unwrap bindM] in E; [|done].
    destruct (q_items q) as [|[p m] items]; injection E as _ <-; [done|].
    eapply inv_same_listeners; [done|done|]. intros c' Hc'. cbn. apply lookup_insert_is_Some'. by right.
  - eapply inv_same_listeners; [done|done|]. intros c' Hc'. cbn. by rewrite lookup_alter_is_Some.
Qed.

Lemma reach_step s self outs hist w outs' ev self' :
  icmp_reach s self outs hist -> icmp_step s self w outs' ev self' ->
  icmp_reach s self' (outs ++ outs') (match ev with Some e => e :: hist | None => hist end).
Proof. intros [written Hr] Hst. eexists. by eapply run_step. Qed.

Lemma icmp_reach_inv s self outs hist : icmp_reach s self outs hist -> icmp_inv s self hist.
Proof.
  intros [written Hrun]. induction Hrun as [|self written outs hist w outs' ev self' _ IH Hst]; [|by eapply icmp_step_inv].
  split; cbn; set_solver.
Qed.

(** The exchange of a client is a sequence of steps of the forwarder. *)
Lemma icmp_exchange_reaches s c reads self outs hist metered r self' metered' outs' :
  icmp_reach s self outs hist -> is_Some (queues self !! c) ->
  Forall (fun p => forall l, iw_rehash p.2 l ≡ₚ l) reads ->
  generic_exchange (fun d => msg_len (di_message d)) (fun env self d => icmp_write s env c self d) reads self metered
    = Ret (r, self', metered', outs') ->
  exists hist', icmp_reach s self' (outs ++ outs') hist'.
Proof.
  revert self outs hist metered outs'. induction reads as [|[d env] reads IH]; intros self outs hist metered outs' Hr Hc Hf E;
    cbn [generic_exchange] in E.
  { injection E as _ <- _ <-. rewrite app_nil_r. eauto. }
  apply Forall_cons in Hf as [Henv Hf]. destruct d as [d|e]; [|injection E as _ <- _ <-; rewrite app_nil_r; eauto].
  destruct (icmp_write s env c self d) as [[[w self1] o1]|] eqn:Ew; cbn [bindM] in E; [|done].
  pose proof (icmp_write_cases _ _ _ _ _ _ _ _ Ew) as [Hcases _].
  assert (exists ev, icmp_step s self (Some (c, d)) o1 ev self1) as [ev Hst].
  { destruct Hcases as [[Hn ->]|(-> & echo & He & Er)].
    - exists None. by eapply step_write_other.
    - eexists. by eapply step_write_sent. }
  assert (is_Some (queues self1 !! c)) as Hc1.
  { destruct Hcases as [[_ ->]|(_ & echo & _ & (_ & _ & _ & ->)%register_request_inv)]; done. }
  pose proof (reach_step _ _ _ _ _ _ _ _ Hr Hst) as Hr1.
  destruct w as [status|e]; [|injection E as _ <- _ <-; eauto].
  destruct (generic_exchange _ _ reads self1 _) as [[[[r2 self2] m2] o2]|] eqn:E2; cbn [bindM] in E; [|done].
  injection E as <- <- <- <-. rewrite app_assoc. exact (IH self1 (outs ++ o1) _ _ o2 Hr1 Hc1 Hf E2).
Qed.

(** What a dispatch does when the waiter's queue takes the message. *)
Lemma dispatch_delivers peer reply request self w q :
  responded_echo_request reply = Ret (Some request) ->
  hm_get (reply_waiters (listeners self)) request = Some w -> queues self !! waker_tx w = Some q ->
  q_open q = true -> len (q_items q) < q_capacity q ->
  dispatch_reply peer reply self =
    Ret (with_queues self
           (<[waker_tx w := mkQueue (q_items q ++ [(peer, reply)]) (q_capacity q) true]> (queues self))).
Proof.
  intros Hr Hg Hq Ho Hl. unfold dispatch_reply. rewrite Hr. cbn [bindM]. rewrite Hg, Hq. cbn [unwrap bindM].
  unfold try_send. rewrite Ho, (proj2 (Z.leb_gt _ _)) by done. done.
Qed.

Lemma echo_serialize_ok e t :
  wf_bytes (echo_data e) -> len (echo_data e) < 2 ^ 16 -> is_byte t -> exists b, echo_serialize e t = Ret b.
Proof.
  intros Hw Hl Ht. unfold echo_serialize. rewrite rfc1071_checksum_val; [cbn [bindM]; eauto|..].
  - rewrite !wf_bytes_app. split_and!; [|apply be_bytes_wf..|done]. apply Forall_cons. split; [done|].
    apply Forall_singleton. done.
  - rewrite !len_app, !len_be_bytes. change (len [t; 0]) with 2. lia.
Qed.

(** What a step sends is the packet of the datagram that it writes. *)
Lemma icmp_step_sends s self w outs ev self' :
  icmp_step s self w outs ev self' ->
  outs = [] \/ exists c d p, w = Some (c, d) /\ outs = [p] /\ packet_of d p /\
    (icmp_allow_private s = true \/ is_global_ip (sent_peer p) = true).
Proof.
  assert (forall env (c : Z) d r self outs, icmp_send s env self d = Ret (r, outs) ->
    outs = [] \/ exists c' d' p, Some (c, d) = Some (c', d') /\ outs = [p] /\ packet_of d' p /\
      (icmp_allow_private s = true \/ is_global_ip (sent_peer p) = true)) as Hs.
  { intros env c d r st o [_ [->|(p & -> & Hp)]]%icmp_send_cases; [by left|right]. by exists c, d, p. }
  destruct 1; try (by left).
  - match goal with E : icmp_write _ _ _ _ _ = Ret _ |- _ => apply icmp_write_cases in E as [_ [sent E]] end. by eapply Hs.
  - match goal with E : icmp_write _ _ _ _ _ = Ret _ |- _ => apply icmp_write_cases in E as [_ [sent E]] end. by eapply Hs.
  - by eapply Hs.
Qed.

(** ** Properties *)

(** C28: in every reachable state, whatever the order in which the hash map
    probes its entries, no two pending requests have equal keys, and after a maintenance
    pass each of them still has a deadline after the present, set by a request that was
    sent the request timeout before it; a pass after the timeout of the last request
    leaves no waiter and no deadline behind. *)
Theorem icmp_requests_expire (s : IcmpSettings) (self : ForwarderShared) (outs : list SentPacket)
    (hist : list (Z * Echo * Z)) (now : Z) :
  icmp_reach s self outs hist ->
  let self' := maintain_listeners now self in
  distinct_keys (reply_waiters (listeners self')) /\
  (forall k w, (k, w) ∈ reply_waiters (listeners self') ->
     exists c e t, (c, e, t) ∈ hist /\ now < t + request_timeout s /\
       exists es, (t + request_timeout s, es) ∈ deadlines (listeners self') /\ k ∈ es) /\
  ((forall c e t, (c, e, t) ∈ hist -> t + request_timeout s <= now) ->
     listeners self' = mkListeners [] []).
Proof.
  intros Hreach self'. pose proof (inv_maintain s now self hist (icmp_reach_inv _ _ _ _ Hreach)) as [Hd Hk _ _ Ht].
  fold self' in Hd, Hk, Ht.
  assert (forall d es, (d, es) ∈ deadlines (listeners self') -> now < d) as Hlater.
  { intros d es Hi. apply list_elem_of_filter in Hi as [Hi _]. cbn in Hi. lia. }
  assert (forall k w, (k, w) ∈ reply_waiters (listeners self') ->
     exists c e t, (c, e, t) ∈ hist /\ now < t + request_timeout s /\
       exists es, (t + request_timeout s, es) ∈ deadlines (listeners self') /\ k ∈ es) as Hmain.
  { intros k w Hw. destruct (Hk k w Hw) as (d & es & Hde & Hke).
    destruct (Ht d (list_elem_of_fmap_2 fst _ _ Hde)) as (c & e & t & Hh & ->).
    exists c, e, t. split; [done|]. split; [by eapply Hlater|]. by exists es. }
  split_and!; [done|done|]. intros Hall. destruct (listeners self') as [ws ds]. cbn in *. f_equal.
  - destruct ws as [|[k w] ws]; [done|]. destruct (Hmain k w) as (c & e & t & Hh & Hlt & _); [left|].
    specialize (Hall c e t Hh). lia.
  - destruct ds as [|[d es] ds]; [done|]. destruct (Ht d) as (c & e & t & Hh & ->); [left|].
    specialize (Hall c e t Hh). specialize (Hlater _ es ltac:(left)). lia.
Qed.

(** In every reachable state a received message is either dropped or put at
    the end of the queue of one client that has sent an echo request with the identifier
    and the sequence number of the answered one; and right after a client's request was
    sent, a reply that carries it goes to that client, if its queue has room. *)
Theorem icmp_reply_routing (s : IcmpSettings) (self : ForwarderShared) (outs : list SentPacket)
    (hist : list (Z * Echo * Z)) (peer : IpAddr) (reply : Message) (request : Echo) :
  icmp_reach s self outs hist -> responded_echo_request reply = Ret (Some request) ->
  (exists self', dispatch_reply peer reply self = Ret self' /\
     (queues self' = queues self \/
      exists c q e t, (c, e, t) ∈ hist /\ echo_hash e = echo_hash request /\ queues self !! c = Some q /\
        queues self' = <[c := mkQueue (q_items q ++ [(peer, reply)]) (q_capacity q) (q_open q)]> (queues self))) /\
  (forall env c q d self1 outs1,
     (forall l, iw_rehash env l ≡ₚ l) -> queues self !! c = Some q -> q_open q = true ->
     len (q_items q) < q_capacity q -> to_echo (di_message d) = Some request ->
     icmp_write s env c self d = Ret (Ok Sent, self1, outs1) ->
     exists self2, dispatch_reply peer reply self1 = Ret self2 /\
       queues self2 !! c = Some (mkQueue (q_items q ++ [(peer, reply)]) (q_capacity q) true)).
Proof.
  intros Hreach Hr. pose proof (icmp_reach_inv _ _ _ _ Hreach) as Hinv. split.
  - unfold dispatch_reply. rewrite Hr. cbn [bindM]. destruct (hm_get _ request) as [w|] eqn:Eg; [|by eexists; auto].
    apply hm_get_elem in Eg as (k & Hk & Ek). destruct (inv_queue _ _ _ Hinv _ _ Hk) as [q Hq].
    rewrite Hq. cbn [unwrap bindM]. unfold try_send.
    destruct (q_open q) eqn:Eo; cbn [negb]; [|by eexists; split; [done|left]].
    destruct (_ <=? _); [by eexists; split; [done|left]|]. eexists. split; [done|]. right.
    destruct (inv_sent _ _ _ Hinv _ _ Hk) as (e & t & Hh & Ehash). exists (waker_tx w), q, e, t.
    split_and!; [done| |done|by rewrite Eo]. rewrite Ehash. by apply echo_eq_hash.
  - intros env c q d self1 outs1 Hre Hq Ho Hl He Hw.
    apply icmp_write_cases in Hw as [[[Hw _]|(_ & e & Ee & (_ & Ew & _ & Eq)%register_request_inv)] _]; [done|].
    rewrite He in Ee. injection Ee as <-.
    destruct (insert_spec (iw_rehash env) (reply_waiters (listeners self)) request (mkWaiter (di_peer d) c) Hre
      (inv_distinct _ _ _ Hinv)) as (_ & Hg & _).
    eexists. split.
    + apply (dispatch_delivers _ _ request _ (mkWaiter (di_peer d) c) q); [done|by rewrite Ew|by rewrite Eq|done|done].
    + cbn. by rewrite lookup_insert_eq.
Qed.

(** A write of a well-formed echo request ends before the registration. *)
Lemma icmp_send_ret s env self d e :
  is_echo_request (di_message d) = true -> to_echo (di_message d) = Some e ->
  wf_bytes (echo_data e) -> len (echo_data e) < 2 ^ 16 -> exists r, icmp_send s env self d = Ret r.
Proof.
  intros Hd He Hw Hl. unfold icmp_send. destruct (_ && _); [eauto|].
  assert (exists b, serialize (di_message d) = Ret b) as [b Eb].
  { destruct (di_message d) as [[]|[]]; try discriminate Hd; injection He as ->; by apply echo_serialize_ok. }
  rewrite He. destruct (if is_ipv4 _ then _ else _); cbn [negb]; [|eauto].
  rewrite Eb. cbn [bindM]. destruct (iw_send env); eauto.
Qed.

(** C27: the packets that the forwarder sends are, in their order, the packets of echo
    requests that its clients wrote, at most one for each, with the peer, the time to live
    and the serialised message of that request; their peers are admitted, private networks
    only when the settings allow them.  Writing an echo request panics exactly when it was
    sent and the deadline of its reply, the present plus the configured timeout, is beyond
    the largest [Instant]. *)
Theorem icmp_targets_admitted (s : IcmpSettings) (self : ForwarderShared)
    (written : list (Z * DownIcmpDatagram)) (outs : list SentPacket) (hist : list (Z * Echo * Z)) :
  icmp_run s self written outs hist ->
  (exists requests, (requests `sublist_of` written) /\ Forall2 (fun w => packet_of w.2) requests outs) /\
  Forall (fun p => icmp_allow_private s = true \/ is_global_ip (sent_peer p) = true) outs /\
  (forall env c d e, is_echo_request (di_message d) = true -> to_echo (di_message d) = Some e ->
     wf_bytes (echo_data e) -> len (echo_data e) < 2 ^ 16 ->
     icmp_write s env c self d = Panic <->
     (exists outs', icmp_send s env self d = Ret (Some (Ok e), outs')) /\
     INSTANT_MAX < iw_now env + request_timeout s).
Proof.
  intros Hrun. apply and_assoc. split.
  - induction Hrun as [|self written outs hist w outs' ev self' _ [(reqs & Hsub & Hall) Hadm] Hst].
    { split; [exists []|done]. split; [done|constructor]. }
    destruct (icmp_step_sends _ _ _ _ _ _ Hst) as [->|(c & d & p & -> & -> & Hp & Ha)].
    + rewrite app_nil_r. split; [exists reqs|done]. split; [by apply sublist_inserts_r|done].
    + split; [exists (reqs ++ [(c, d)])|apply Forall_app; split; [done|by apply Forall_singleton]].
      split; [by apply sublist_app|]. apply Forall2_app; [done|]. by constructor.
  - intros env c d e Hd He Hw Hl. destruct (icmp_send_ret s env self d e Hd He Hw Hl) as [[r o] Es].
    unfold icmp_write, register_request, instant_add. rewrite Es. cbn [bindM].
    apply icmp_send_cases in Es as [Hr _]. destruct r as [[e'|k]|].
    + specialize (Hr e' eq_refl). rewrite He in Hr. injection Hr as <-.
      destruct (Z.leb_spec (iw_now env + request_timeout s) INSTANT_MAX); cbn [assertM bindM];
        [destruct (bt_push _ _ _); cbn [bindM]; split; [done|lia]|].
      split; [|done]. intros _. split; [by eexists|done].
    + split; [done|]. by intros [[? ?] _].
    + split; [done|]. by intros [[? ?] _].
Qed.

(** The entry of a pending request is taken over by a request with an equal key, when no
    other entry has the same identifier and sequence number. *)
Lemma insert_takes_over {V} rehash1 rehash2 (l : list (Echo * V)) e1 e2 w1 w2 :
  (forall l, rehash1 l ≡ₚ l) -> (forall l, rehash2 l ≡ₚ l) -> distinct_keys l ->
  (forall k w, (k, w) ∈ l -> echo_hash k <> echo_hash e1) -> echo_eq e1 e2 = true ->
  hm_get (hm_insert rehash2 (hm_insert rehash1 l e1 w1) e2 w2) e1 = Some w2.
Proof.
  intros Hr1 Hr2 Hd Hh E12.
  destruct (insert_spec rehash1 l e1 w1 Hr1 Hd) as (Hd1 & Hg1 & Hin). set (l1 := hm_insert rehash1 l e1 w1) in *.
  destruct (hm_split l1 e2) as [Hn|(a & k' & v' & b & El & E & Ha)].
  - apply hm_get_elem in Hg1 as (k & Hk & Ek). exfalso. destruct (Hin _ Hk) as [H|[[= ->]|(_ & _ & v & H)]].
    + apply (Hh k w1 H). by apply echo_eq_hash.
    + rewrite Forall_forall in Hn. specialize (Hn _ Hk). cbn in Hn. congruence.
    + apply (Hh k v H). by apply echo_eq_hash.
  - assert (k' = e1) as ->.
    { assert ((k', v') ∈ l1) as Hk by (rewrite El; set_solver).
      assert (echo_hash k' = echo_hash e1) as Hk'.
      { rewrite (echo_eq_hash k' e2 E). symmetry. by apply echo_eq_hash. }
      destruct (Hin _ Hk) as [H|[[= -> _]|(_ & _ & v & H)]]; [by destruct (Hh k' v' H)|done|by destruct (Hh k' v H)]. }
    rewrite El in Hd1 |- *. unfold hm_insert. rewrite (proj2 (proj2 (hm_found a e1 v' b e2 E Ha))).
    apply hm_found; [apply echo_eq_refl|]. apply distinct_middle in Hd1 as [Hf _]. by apply Forall_app in Hf as [? _].
Qed.

(** The key of the table has neither the client nor the peer, and its
    equality compares payloads only up to the shorter one; so when a second client sends a
    request with the same identifier and sequence number and, for instance, no payload,
    the reply to the first client's request is put into the queue of the second. *)
Theorem icmp_reply_misrouted (s : IcmpSettings) (self self1 self2 : ForwarderShared) (outs o1 o2 : list SentPacket)
    (hist : list (Z * Echo * Z)) (env1 env2 : IcmpWriteEnv) (c1 c2 : Z) (d1 d2 : DownIcmpDatagram) (e1 e2 : Echo)
    (q : Queue) (peer : IpAddr) (reply : Message) :
  icmp_reach s self outs hist ->
  (forall k w, (k, w) ∈ reply_waiters (listeners self) -> echo_hash k <> echo_hash e1) ->
  (forall l, iw_rehash env1 l ≡ₚ l) -> (forall l, iw_rehash env2 l ≡ₚ l) ->
  to_echo (di_message d1) = Some e1 -> to_echo (di_message d2) = Some e2 -> echo_eq e1 e2 = true -> c1 <> c2 ->
  icmp_write s env1 c1 self d1 = Ret (Ok Sent, self1, o1) ->
  icmp_write s env2 c2 self1 d2 = Ret (Ok Sent, self2, o2) ->
  responded_echo_request reply = Ret (Some e1) ->
  queues self !! c2 = Some q -> q_open q = true -> len (q_items q) < q_capacity q ->
  exists self3, dispatch_reply peer reply self2 = Ret self3 /\
    queues self3 !! c2 = Some (mkQueue (q_items q ++ [(peer, reply)]) (q_capacity q) true) /\
    queues self3 !! c1 = queues self !! c1.
Proof.
  intros Hreach Hfree Hr1 Hr2 He1 He2 E12 Hc Hw1 Hw2 Hr Hq Ho Hl.
  apply icmp_write_cases in Hw1 as [[[Hw1 _]|(_ & e & Ee & (_ & Ew1 & _ & Eq1)%register_request_inv)] _]; [done|].
  rewrite He1 in Ee. injection Ee as <-.
  apply icmp_write_cases in Hw2 as [[[Hw2 _]|(_ & e & Ee & (_ & Ew2 & _ & Eq2)%register_request_inv)] _]; [done|].
  rewrite He2 in Ee. injection Ee as <-.
  pose proof (insert_takes_over (iw_rehash env1) (iw_rehash env2) (reply_waiters (listeners self)) e1 e2
    (mkWaiter (di_peer d1) c1) (mkWaiter (di_peer d2) c2) Hr1 Hr2
    (inv_distinct _ _ _ (icmp_reach_inv _ _ _ _ Hreach)) Hfree E12) as Hg.
  rewrite <- Ew1, <- Ew2 in Hg. rewrite Eq1 in Eq2.
  eexists. split; [apply (dispatch_delivers peer reply e1 _ (mkWaiter (di_peer d2) c2) q); by rewrite ?Eq2|].
  cbn [queues with_queues waker_tx]. by rewrite Eq2, lookup_insert_eq, lookup_insert_ne.
Qed.

(** An ICMPv6 error message that quotes a packet whose hop-by-hop header is longer than
    what is quoted. *)
Definition hostile_packet : bytes :=
  [3; 0; 0; 0; 0; 0; 0; 0] ++ (0x60 :: replicate 5 0 ++ [0; 64] ++ replicate 32 0) ++ [58; 255].

(** Such a packet, which any host can send, panics the task that receives
    ICMP for all clients. *)
Theorem icmp_hostile_packet_panics (o : bytes) (self : ForwarderShared) :
  on_packet (IpV6 o) hostile_packet self = Panic.
Proof. reflexivity. Qed.

(** *** Witnesses *)

Definition sample_icmp_settings : IcmpSettings := mkIcmpSettings 3 2 false true.

Definition sample_echo (data : bytes) : Echo := mkEcho 0 7 1 data.

Definition sample_ping (data : bytes) : DownIcmpDatagram :=
  mkDownIcmp (IpV4 [8; 8; 8; 8]) (MsgV4 (V4.EchoRequest (sample_echo data))) 64.

Definition sample_icmp_env (now : Z) : IcmpWriteEnv := mkIcmpEnv (Ok tt) now (fun l => l).

(** Two clients. *)
Definition sample_forwarder : ForwarderShared :=
  mkForwarder true true (mkListeners [] [])
    (<[2 := mkQueue [] 2 true]> (<[1 := mkQueue [] 2 true]> ∅)) false.

Definition after_ping (now c : Z) (data : bytes) (self : ForwarderShared) : ForwarderShared :=
  match register_request sample_icmp_settings (sample_icmp_env now) c (IpV4 [8; 8; 8; 8]) (sample_echo data) self with
  | Ret self => self
  | Panic => self
  end.

Lemma sample_forwarder_run : icmp_run sample_icmp_settings sample_forwarder [] [] [].
Proof.
  pose (self0 := mkForwarder true true (mkListeners [] []) ∅ false).
  pose (self1 := with_queues self0 (<[1 := mkQueue [] 2 true]> ∅)).
  apply (run_step _ self1 [] [] [] None [] None); [|by apply (step_client _ _ 2)].
  apply (run_step _ self0 [] [] [] None [] None); [|by apply (step_client _ _ 1)].
  apply (run_step _ icmp_forwarder_new [] [] [] None [] None); [apply run_start|].
  by apply (step_init _ _ (Ok tt) (Ok tt) (Ok tt)).
Defined.

Lemma sample_forwarder_reached : icmp_reach sample_icmp_settings sample_forwarder [] [].
Proof. exists []. apply sample_forwarder_run. Defined.

(** The packet of a sample request. *)
Definition sample_packet (data : bytes) : SentPacket :=
  mkSent (IpV4 [8; 8; 8; 8]) 64
    (match serialize (di_message (sample_ping data)) with Ret b => b | Panic => [] end).

Lemma sample_ping_run :
  icmp_run sample_icmp_settings (after_ping 10 1 [1; 2] sample_forwarder) [(1, sample_ping [1; 2])]
    [sample_packet [1; 2]] [(1, sample_echo [1; 2], 10)].
Proof.
  apply (run_step _ sample_forwarder [] [] [] (Some (1, sample_ping [1; 2])) _ (Some (1, sample_echo [1; 2], 10)));
    [apply sample_forwarder_run|].
  apply (step_write_sent _ _ 1 (sample_icmp_env 10) (sample_ping [1; 2])).
  - eexists. vm_compute. reflexivity.
  - done.
  - done.
  - vm_compute. reflexivity.
Defined.

Lemma sample_ping_reached :
  exists outs, icmp_reach sample_icmp_settings (after_ping 10 1 [1; 2] sample_forwarder) outs
    [(1, sample_echo [1; 2], 10)].
Proof. eexists. eexists. apply sample_ping_run. Defined.

Lemma icmp_requests_expire_witness :
  listeners (maintain_listeners 13 (after_ping 10 1 [1; 2] sample_forwarder)) = mkListeners [] [].
Proof.
  destruct sample_ping_reached as [outs Hr].
  apply (icmp_requests_expire sample_icmp_settings _ outs _ 13 Hr).
  intros c e t. rewrite elem_of_cons, elem_of_nil. intros [[= _ _ ->]|[]]. done.
Defined.

Lemma icmp_reply_routing_witness :
  exists self2, dispatch_reply (IpV4 [8; 8; 8; 8]) (MsgV4 (V4.EchoReply (sample_echo [1; 2])))
                  (after_ping 10 1 [1; 2] sample_forwarder) = Ret self2 /\
    queues self2 !! 1 = Some (mkQueue [(IpV4 [8; 8; 8; 8], MsgV4 (V4.EchoReply (sample_echo [1; 2])))] 2 true).
Proof.
  apply (proj2 (icmp_reply_routing sample_icmp_settings sample_forwarder [] [] (IpV4 [8; 8; 8; 8])
    (MsgV4 (V4.EchoReply (sample_echo [1; 2]))) (sample_echo [1; 2]) sample_forwarder_reached eq_refl)
    (sample_icmp_env 10) 1 (mkQueue [] 2 true) (sample_ping [1; 2]) (after_ping 10 1 [1; 2] sample_forwarder)
    [sample_packet [1; 2]]).
  - done.
  - vm_compute. reflexivity.
  - done.
  - done.
  - done.
  - vm_compute. reflexivity.
Defined.

Lemma icmp_targets_admitted_witness :
  exists requests, requests `sublist_of` [(1, sample_ping [1; 2])] /\
    Forall2 (fun w => packet_of w.2) requests [sample_packet [1; 2]].
Proof. apply (icmp_targets_admitted _ _ _ _ _ sample_ping_run). Defined.

(** The timeout of the settings file is not checked: with the largest number of seconds it
    can hold, the first request panics the task of its client, after it was sent. *)
Lemma icmp_timeout_overflow_panics :
  icmp_write (mkIcmpSettings ((2 ^ 63 - 1) * 10 ^ 9) 2 false true) (sample_icmp_env (10 ^ 9)) 1 sample_forwarder
    (sample_ping []) = Panic.
Proof. vm_compute. reflexivity. Qed.

Lemma icmp_reply_misrouted_witness :
  exists self3, dispatch_reply (IpV4 [8; 8; 8; 8]) (MsgV4 (V4.EchoReply (sample_echo [1; 2])))
                  (after_ping 11 2 [] (after_ping 10 1 [1; 2] sample_forwarder)) = Ret self3 /\
    queues self3 !! 2 = Some (mkQueue [(IpV4 [8; 8; 8; 8], MsgV4 (V4.EchoReply (sample_echo [1; 2])))] 2 true) /\
    queues self3 !! 1 = Some (mkQueue [] 2 true).
Proof.
  apply (icmp_reply_misrouted sample_icmp_settings sample_forwarder (after_ping 10 1 [1; 2] sample_forwarder)
    (after_ping 11 2 [] (after_ping 10 1 [1; 2] sample_forwarder)) []
    [sample_packet [1; 2]]
    [sample_packet []]
    [] (sample_icmp_env 10) (sample_icmp_env 11) 1 2 (sample_ping [1; 2]) (sample_ping [])
    (sample_echo [1; 2]) (sample_echo []) (mkQueue [] 2 true)); try done.
  - apply sample_forwarder_reached.
  - intros k w. cbn. by rewrite elem_of_nil.
Defined.
