(* ===== verification/Http1Codec.v ===== *)
(** * The HTTP/1 codec

    lib/src/http1_codec.rs: requests and responses on the wire, and the session that
    carries one request over a transport, with a channel of one chunk in each direction.
    [httparse] and the [http] crate are parameters; the transport and the two ends of the
    channels are the outcomes of their calls and the steps of the environment. *)

From S2P Require Import Prelude.
From S2P Require Import Codecs.
From S2P Require Import Varint.
From S2P Require Import NetUtils.
From S2P Require Import Auth.
From S2P Require Import Tunnel.
From S2P Require Import Pipe.
From S2P Require Import ForwardedStream.
From S2P Require Import UdpPipe.

Definition MAX_RAW_HEADERS_SIZE : Z := 1024.
Definition MAX_HEADERS_NUM : Z := 32.

(** ** The wire format *)

(** [http::response::Parts]. *)
Record ResponseHeaders : Type := mkResponseHeaders {
  rp_version : Version;
  rp_status : Z;
  rp_headers : list (bytes * bytes);
}.

Definition h1_version_minor_digit (v : Version) : M Z :=
  match v with HTTP_10 => Ret 0 | HTTP_11 => Ret 1 | _ => Panic end.

Definition httparse_to_http_version (v : Z) : M Version :=
  if v =? 0 then Ret HTTP_10 else if v =? 1 then Ret HTTP_11 else Panic.

Definition encode_headers (l : list (bytes * bytes)) : bytes := header_block l ++ CRLF.

Definition encode_request (r : RequestHeaders) : M bytes :=
  let! minor := h1_version_minor_digit (rq_version r) in
  Ret (rq_method r ++ [0x20]
       ++ match rq_path_and_query r with Some x => x | None => str "/" end
       ++ str " HTTP/1." ++ [0x30 + minor] ++ CRLF
       ++ match rq_authority r with Some host => str "Host: " ++ host ++ CRLF | None => [] end
       ++ encode_headers (rq_headers r)).

(** [StatusCode::as_str]: three decimal digits. *)
Definition status_str (s : Z) : bytes := [0x30 + s / 100; 0x30 + s / 10 mod 10; 0x30 + s mod 10].

Section wire.
(** [StatusCode::canonical_reason], empty when there is none. *)
Context (canonical_reason : Z -> bytes).

Definition encode_response (r : ResponseHeaders) : M bytes :=
  let! minor := h1_version_minor_digit (rp_version r) in
  Ret (str "HTTP/1." ++ [0x30 + minor] ++ [0x20] ++ status_str (rp_status r) ++ [0x20]
       ++ canonical_reason (rp_status r) ++ CRLF ++ encode_headers (rp_headers r)).

End wire.

Inductive DecodeStatus (Headers : Type) : Type :=
| DecodePartial (b : bytes)
| DecodeComplete (h : Headers) (tail : bytes).
Arguments DecodePartial {Headers}.
Arguments DecodeComplete {Headers}.

(** What [httparse::Request] holds after a complete parse. *)
Record ParsedRequest : Type := mkParsed {
  pq_method : option bytes;
  pq_path : option bytes;
  pq_version : option Z;
  pq_headers : list (bytes * bytes);
}.

Record ParsedResponse : Type := mkParsedResponse {
  ps_version : option Z;
  ps_code : option Z;
  ps_headers : list (bytes * bytes);
}.

(** [http::Uri], by its parts. *)
Record Uri : Type := mkUri { uri_path : bytes; uri_path_and_query : option bytes; uri_authority : option bytes }.

Section decode.
(** [httparse::Request::parse] and [httparse::Response::parse] with room for a number of
    headers; [Uri::from_str]; the [https] URI made of an authority and a path; whether the
    builders of the [http] crate accept the parts. *)
Context (parse_request : Z -> bytes -> ParseResult (Z * ParsedRequest))
  (parse_response : Z -> bytes -> ParseResult (Z * ParsedResponse))
  (uri_from_str : bytes -> option Uri) (uri_build : bytes -> bytes -> option Uri)
  (request_ok : RequestHeaders -> bool) (response_ok : ResponseHeaders -> bool).

(** The loop over the headers: the first [host] header gives the URI its authority when
    it has none. *)
Fixpoint take_host (path : bytes) (l : list (bytes * bytes)) (uri : Uri) (kept : list (bytes * bytes))
  : result ErrorKind (Uri * list (bytes * bytes)) :=
  match l with
  | [] => Ok (uri, kept)
  | (name, value) :: l =>
      if bool_decide (to_lower name = str "host") && bool_decide (uri_authority uri = None) then
        match uri_build value path with
        | Some uri => take_host path l uri kept
        | None => Err Other
        end
      else take_host path l uri (kept ++ [(to_lower name, value)])
  end.

Definition request_of_parsed (p : ParsedRequest) : M (result ErrorKind RequestHeaders) :=
  match pq_version p with
  | None => Ret (Err Other)
  | Some v =>
      let! version := httparse_to_http_version v in
      match pq_method p, pq_path p with
      | None, _ | _, None => Ret (Err Other)
      | Some method, Some path =>
          match uri_from_str path with
          | None => Ret (Err Other)
          | Some uri =>
              match take_host path (pq_headers p) uri [] with
              | Err e => Ret (Err e)
              | Ok (uri, kept) =>
                  let r := mkRequestHeaders method (uri_path uri) (uri_path_and_query uri) (uri_authority uri)
                             version kept in
                  Ret (if request_ok r then Ok r else Err Other)
              end
          end
      end
  end.

Definition decode_request (buffer : bytes) (headers_num_cap raw_buffer_cap : Z)
  : M (result ErrorKind (DecodeStatus RequestHeaders)) :=
  match parse_request headers_num_cap buffer with
  | Complete (idx, p) =>
      let!? r := request_of_parsed p in
      let! tail := split_off idx buffer in
      Ret (Ok (DecodeComplete r tail))
  | Partial => Ret (if len buffer <? raw_buffer_cap then Ok (DecodePartial buffer) else Err Other)
  | TooManyHeaders | ParseError => Ret (Err Other)
  end.

Definition decode_response (buffer : bytes) (headers_num_cap raw_buffer_cap : Z)
  : M (result ErrorKind (DecodeStatus ResponseHeaders)) :=
  match parse_response headers_num_cap buffer with
  | Complete (idx, p) =>
      match ps_version p with
      | None => Ret (Err Other)
      | Some v =>
          let! version := httparse_to_http_version v in
          match ps_code p with
          | None => Ret (Err Other)
          | Some code =>
              let r := mkResponseHeaders version code ((fun h => (to_lower h.1, h.2)) <$> ps_headers p) in
              if response_ok r then
                let! tail := split_off idx buffer in
                Ret (Ok (DecodeComplete r tail))
              else Ret (Err Other)
          end
      end
  | Partial => Ret (if len buffer <? raw_buffer_cap then Ok (DecodePartial buffer) else Err Other)
  | TooManyHeaders | ParseError => Ret (Err Other)
  end.

End decode.

(** ** The session *)

Inductive H1State : Type :=
| WaitingRequest (buffer : bytes)
| RequestInProgress (buffer : bytes).

(** Where [listen] is suspended: at its [select!]; in the write of a chunk that it took
    from the download channel; or at one of the four awaits of [graceful_shutdown], the
    write of the chunk that [try_recv] took, the flush, the wait for room in the upload
    channel and the shutdown of the transport.  The stream runs in another task: all its
    calls can come while the codec is suspended at any of them. *)
Inductive Phase : Type :=
| Selecting
| WritingDownload (chunk : bytes)
| ClosingWrite (chunk : bytes)
| ClosingFlush
| ClosingReserve
| ClosingShutdown.

Definition phase_closing (p : Phase) : bool :=
  match p with Selecting | WritingDownload _ => false | _ => true end.

(** What was taken from the download channel and is being written. *)
Definition in_flight (p : Phase) : bytes :=
  match p with WritingDownload chunk | ClosingWrite chunk => chunk | _ => [] end.

Definition phase_idle (p : Phase) : bool := match p with WritingDownload _ | ClosingWrite _ => false | _ => true end.

Lemma phase_idle_flight p : phase_idle p = true -> in_flight p = [].
Proof. by destruct p. Qed.

(** The state of [Http1Codec] with its two channels.  [hc_in] and [hc_out] are the bytes
    read from and written to the transport so far; [hc_down] and [hc_up] are the contents
    of the channels, which hold one message; [hc_down_sender] and [hc_up_receiver] tell
    whether the other ends are alive, [hc_taken] that they were given to a stream, and
    [hc_eof] is a permit of [download_eof]; [hc_phase] is where [listen] is suspended. *)
Record Http1Codec : Type := mkH1 {
  hc_state : H1State;
  hc_in : bytes;
  hc_out : bytes;
  hc_down : option bytes;
  hc_down_sender : bool;
  hc_eof : bool;
  hc_up : option bytes;
  hc_up_receiver : bool;
  hc_taken : bool;
  hc_phase : Phase;
}.

Definition h1_initial : Http1Codec := mkH1 (WaitingRequest []) [] [] None true false None true false Selecting.

(** [Http1Codec::new]; the argument is [upload_buffer_size] of the HTTP/1 settings, absent
    when the protocol is disabled. *)
Definition h1_new (upload_buffer_size : option Z) : M Http1Codec :=
  let! _ := unwrap upload_buffer_size in
  Ret h1_initial.

Definition set_h1_state (x : H1State) (s : Http1Codec) : Http1Codec :=
  mkH1 x (hc_in s) (hc_out s) (hc_down s) (hc_down_sender s) (hc_eof s) (hc_up s) (hc_up_receiver s) (hc_taken s) (hc_phase s).
Definition set_h1_in (x : bytes) (s : Http1Codec) : Http1Codec :=
  mkH1 (hc_state s) x (hc_out s) (hc_down s) (hc_down_sender s) (hc_eof s) (hc_up s) (hc_up_receiver s) (hc_taken s) (hc_phase s).
Definition set_h1_out (x : bytes) (s : Http1Codec) : Http1Codec :=
  mkH1 (hc_state s) (hc_in s) x (hc_down s) (hc_down_sender s) (hc_eof s) (hc_up s) (hc_up_receiver s) (hc_taken s) (hc_phase s).
Definition set_h1_down (x : option bytes) (s : Http1Codec) : Http1Codec :=
  mkH1 (hc_state s) (hc_in s) (hc_out s) x (hc_down_sender s) (hc_eof s) (hc_up s) (hc_up_receiver s) (hc_taken s) (hc_phase s).
Definition set_h1_up (x : option bytes) (s : Http1Codec) : Http1Codec :=
  mkH1 (hc_state s) (hc_in s) (hc_out s) (hc_down s) (hc_down_sender s) (hc_eof s) x (hc_up_receiver s) (hc_taken s) (hc_phase s).
Definition set_h1_eof (x : bool) (s : Http1Codec) : Http1Codec :=
  mkH1 (hc_state s) (hc_in s) (hc_out s) (hc_down s) (hc_down_sender s) x (hc_up s) (hc_up_receiver s) (hc_taken s) (hc_phase s).
Definition set_h1_taken (s : Http1Codec) : Http1Codec :=
  mkH1 (hc_state s) (hc_in s) (hc_out s) (hc_down s) (hc_down_sender s) (hc_eof s) (hc_up s) (hc_up_receiver s) true (hc_phase s).
Definition set_h1_phase (x : Phase) (s : Http1Codec) : Http1Codec :=
  mkH1 (hc_state s) (hc_in s) (hc_out s) (hc_down s) (hc_down_sender s) (hc_eof s) (hc_up s) (hc_up_receiver s) (hc_taken s) x.

Definition take_buffer (s : Http1Codec) : bytes * Http1Codec :=
  match hc_state s with
  | WaitingRequest b => (b, set_h1_state (WaitingRequest []) s)
  | RequestInProgress b => (b, set_h1_state (RequestInProgress []) s)
  end.

(** [write_all_buf]: everything is written, or an error comes after [n] bytes. *)
Inductive WriteOutcome : Type := WroteAll | WriteFailed (n : nat) (e : ErrorKind).

Definition write_all_buf (w : WriteOutcome) (data : bytes) (s : Http1Codec) : result ErrorKind unit * Http1Codec :=
  match w with
  | WroteAll => (Ok tt, set_h1_out (hc_out s ++ data) s)
  | WriteFailed n e => (Err e, set_h1_out (hc_out s ++ take n data) s)
  end.

Inductive RequestStatus : Type :=
| StatusPartial
| StatusComplete (request : RequestHeaders) (client_address : IpAddr)
| StatusNeedRespond (response : ResponseHeaders).

(** What [listen] returns: a new stream, or the end. *)
Inductive Listened : Type := NewStream (request : RequestHeaders) (client_address : IpAddr) | NoMore.

(** The answers of the environment to the calls of one iteration: [le_read] of
    [read_buf], [le_peer] of [peer_addr], [le_write] of the write, and those of
    [graceful_shutdown]. *)
Record ListenEnv : Type := mkListenEnv {
  le_read : result ErrorKind bytes;
  le_peer : result ErrorKind IpAddr;
  le_write : WriteOutcome;
  le_flush : result ErrorKind unit;
  le_shutdown : result ErrorKind unit;
}.

Section session.
Context (parse_request : Z -> bytes -> ParseResult (Z * ParsedRequest))
  (uri_from_str : bytes -> option Uri) (uri_build : bytes -> bytes -> option Uri)
  (request_ok : RequestHeaders -> bool) (canonical_reason : Z -> bytes).

Definition expectation_failed (version : Version) : ResponseHeaders :=
  mkResponseHeaders version 417 [(str "connection", str "close")].

Definition on_request_headers_chunk (env : ListenEnv) (buffer : bytes) (s : Http1Codec)
  : M (result ErrorKind RequestStatus * Http1Codec) :=
  let! r := decode_request parse_request uri_from_str uri_build request_ok buffer MAX_HEADERS_NUM MAX_RAW_HEADERS_SIZE in
  match r with
  | Err e => Ret (Err e, s)
  | Ok (DecodePartial b) => Ret (Ok StatusPartial, set_h1_state (WaitingRequest b) s)
  | Ok (DecodeComplete request tail) =>
      if bool_decide (rq_method request = str "CONNECT")
         && bool_decide (is_Some (header_get (rq_headers request) (str "expect")))
      then Ret (Ok (StatusNeedRespond (expectation_failed (rq_version request))), s)
      else
        let s := set_h1_state (RequestInProgress tail) s in
        match le_peer env with
        | Err e => Ret (Err e, s)
        | Ok ip =>
            let! _ := assertM (negb (hc_taken s)) in
            Ret (Ok (StatusComplete request ip), set_h1_taken s)
        end
  end.

(** The synchronous start of [graceful_shutdown]: [try_recv], up to its first await. *)
Definition h1_graceful_shutdown (s : Http1Codec) : Http1Codec :=
  match hc_down s with
  | Some chunk => set_h1_phase (ClosingWrite chunk) (set_h1_down None s)
  | None => set_h1_phase ClosingFlush s
  end.

(** The branches of the [select!], and the completion of the call that is awaited after
    it. *)
Inductive ListenEvent : Type := EvReadable | EvDownload | EvDownloadEof | EvAwaited.

Definition upload_room (s : Http1Codec) : bool := negb (hc_up_receiver s) || bool_decide (hc_up s = None).

(** When an event can come.  Reading waits for room in the upload channel, and so does
    handing over what was read: both waits are conditions of the branch, for nothing but
    the codec fills that channel.  [graceful_shutdown] waits for the room as well. *)
Definition h1_ready (ev : ListenEvent) (s : Http1Codec) : bool :=
  match hc_phase s, ev with
  | Selecting, EvReadable => match hc_state s with WaitingRequest _ => true | RequestInProgress _ => upload_room s end
  | Selecting, EvDownload => bool_decide (is_Some (hc_down s)) || negb (hc_down_sender s)
  | Selecting, EvDownloadEof => hc_eof s
  | (WritingDownload _ | ClosingWrite _ | ClosingFlush | ClosingShutdown), EvAwaited => true
  | ClosingReserve, EvAwaited => upload_room s
  | _, _ => false
  end.

(** The future [wait_read]. *)
Definition wait_read (env : ListenEnv) (s : Http1Codec) : result ErrorKind bytes * Http1Codec :=
  let (buffer, s) := take_buffer s in
  if (len buffer =? 0) || match hc_state s with WaitingRequest _ => true | _ => false end then
    match le_read env with
    | Err e => (Err e, s)
    | Ok chunk =>
        let s := set_h1_in (hc_in s ++ chunk) s in
        (Ok (if len chunk =? 0 then [] else buffer ++ chunk), s)
    end
  else (Ok buffer, s).

Definition end_of (r : result ErrorKind unit) : result ErrorKind Listened :=
  match r with Ok _ => Ok NoMore | Err e => Err e end.

(** What follows the await at which [listen] is suspended, up to the next one. *)
Definition h1_resume (env : ListenEnv) (s : Http1Codec) : option (result ErrorKind Listened) * Http1Codec :=
  match hc_phase s with
  | Selecting => (None, s)
  | WritingDownload chunk =>
      let (r, s) := write_all_buf (le_write env) chunk s in
      match r with Ok _ => (None, set_h1_phase Selecting s) | Err e => (Some (Err e), s) end
  | ClosingWrite chunk =>
      let (r, s) := write_all_buf (le_write env) chunk s in
      match r with Ok _ => (None, set_h1_phase ClosingFlush s) | Err e => (Some (Err e), s) end
  | ClosingFlush =>
      match le_flush env with Ok _ => (None, set_h1_phase ClosingReserve s) | Err e => (Some (Err e), s) end
  | ClosingReserve => (None, set_h1_phase ClosingShutdown s)
  | ClosingShutdown => (Some (end_of (le_shutdown env)), s)
  end.

(** [listen] from one suspension to the next; [None] when it goes on.  A refused request
    is answered in one step: no stream was handed out that could run meanwhile. *)
Definition listen_round (ev : ListenEvent) (env : ListenEnv) (s : Http1Codec)
  : M (option (result ErrorKind Listened) * Http1Codec) :=
  match ev with
  | EvReadable =>
      let (r, s) := wait_read env s in
      match r with
      | Err e => Ret (Some (Err e), s)
      | Ok [] => Ret (None, h1_graceful_shutdown s)
      | Ok b =>
          match hc_state s with
          | WaitingRequest _ =>
              let! (r, s) := on_request_headers_chunk env b s in
              match r with
              | Err e => Ret (Some (Err e), s)
              | Ok StatusPartial => Ret (None, s)
              | Ok (StatusComplete request ip) => Ret (Some (Ok (NewStream request ip)), s)
              | Ok (StatusNeedRespond response) =>
                  let! encoded := encode_response canonical_reason response in
                  let (r, s) := write_all_buf (le_write env) encoded s in
                  Ret (Some (end_of r), s)
              end
          | RequestInProgress _ =>
              if hc_up_receiver s then Ret (None, set_h1_up (Some b) s) else Ret (Some (Err UnexpectedEof), s)
          end
      end
  | EvDownload =>
      match hc_down s with
      | Some b => Ret (None, set_h1_phase (WritingDownload b) (set_h1_down None s))
      | None =>
          if hc_eof s then Ret (None, h1_graceful_shutdown (set_h1_eof false s))
          else Ret (Some (Err UnexpectedEof), s)
      end
  | EvDownloadEof => Ret (None, h1_graceful_shutdown (set_h1_eof false s))
  | EvAwaited => Ret (h1_resume env s)
  end.

(** ** The ends given to the stream *)

(** [StreamSink::write]: all or nothing, by the room in the channel.  The receiver is
    alive as long as the codec. *)
Definition sink_write (data : bytes) (s : Http1Codec) : result ErrorKind bytes * Http1Codec :=
  match hc_down s with
  | None => (Ok [], set_h1_down (Some data) s)
  | Some _ => (Ok data, s)
  end.

(** The [write] of [DroppingSink]. *)
Definition dropping_write (data : bytes) (s : Http1Codec) : result ErrorKind SendStatus * Http1Codec :=
  match hc_down s with
  | None => (Ok Sent, set_h1_down (Some data) s)
  | Some _ => (Ok Dropped, s)
  end.

Definition sink_eof (s : Http1Codec) : result ErrorKind unit * Http1Codec := (Ok tt, set_h1_eof true s).

(** [send_response]; [insert_connection_close] is set for CONNECT requests. *)
Definition send_response (insert_connection_close : bool) (response : ResponseHeaders) (eof : bool) (s : Http1Codec)
  : M (result ErrorKind unit * Http1Codec) :=
  let response :=
    if insert_connection_close && negb (bool_decide (is_Some (header_get (rp_headers response) (str "connection"))))
    then mkResponseHeaders (rp_version response) (rp_status response)
           (rp_headers response ++ [(str "connection", str "close")])
    else response in
  let! encoded := encode_response canonical_reason response in
  match hc_down s with
  | Some _ => Ret (Err Other, s)
  | None =>
      let s := set_h1_down (Some encoded) s in
      Ret (if eof then sink_eof s else (Ok tt, s))
  end.

(** [send_intermediate_response]. *)
Definition send_intermediate_response (response : ResponseHeaders) (s : Http1Codec)
  : M (result ErrorKind unit * Http1Codec) :=
  let! encoded := encode_response canonical_reason response in
  match hc_down s with
  | Some _ => Ret (Err Other, s)
  | None => Ret (Ok tt, set_h1_down (Some encoded) s)
  end.

Definition sink_dropped (s : Http1Codec) : Http1Codec :=
  mkH1 (hc_state s) (hc_in s) (hc_out s) (hc_down s) false (hc_eof s) (hc_up s) (hc_up_receiver s) (hc_taken s)
    (hc_phase s).

(** [StreamSource::read]: [None] while the channel is empty. *)
Definition source_read (s : Http1Codec) : option bytes * Http1Codec := (hc_up s, set_h1_up None s).

Definition source_dropped (s : Http1Codec) : Http1Codec :=
  mkH1 (hc_state s) (hc_in s) (hc_out s) (hc_down s) (hc_down_sender s) (hc_eof s) None false (hc_taken s)
    (hc_phase s).

End session.

(** ** Specification: two byte streams

    What the session promises its user and the transport: the bytes that arrive after the
    request head are delivered in order, and the bytes that are accepted are transmitted
    in order.  [ObsClosing] is the moment at which the session starts to close. *)

Inductive Obs : Type :=
| ObsReceived (b : bytes)
| ObsDelivered (b : bytes)
| ObsAccepted (b : bytes)
| ObsTransmitted (b : bytes)
| ObsClosing.

(** What was received and not delivered, and what was accepted and not transmitted. *)
Record AbsStream : Type := mkAbs { abs_inbound : bytes; abs_outbound : bytes }.

Inductive abs_step : AbsStream -> Obs -> AbsStream -> Prop :=
| abs_received b i o : abs_step (mkAbs i o) (ObsReceived b) (mkAbs (i ++ b) o)
| abs_delivered b i o : abs_step (mkAbs (b ++ i) o) (ObsDelivered b) (mkAbs i o)
| abs_accepted b i o : abs_step (mkAbs i o) (ObsAccepted b) (mkAbs i (o ++ b))
| abs_transmitted b i o : abs_step (mkAbs i (b ++ o)) (ObsTransmitted b) (mkAbs i o)
| abs_closing a : abs_step a ObsClosing a.

Inductive abs_run : AbsStream -> list Obs -> AbsStream -> Prop :=
| abs_run_nil a : abs_run a [] a
| abs_run_cons a o a' l a'' : abs_step a o a' -> abs_run a' l a'' -> abs_run a (o :: l) a''.

Lemma abs_run_app a l a' k a'' : abs_run a l a' -> abs_run a' k a'' -> abs_run a (l ++ k) a''.
Proof. induction 1 as [|a o a' l a1 Hs _ IH]; [done|]. intros Hk. econstructor; eauto. Qed.

Lemma abs_run_one a o a' : abs_step a o a' -> abs_run a [o] a'.
Proof. intros H. econstructor; [done|constructor]. Qed.

Definition obs_received (l : list Obs) : bytes := l ≫= fun o => match o with ObsReceived b => b | _ => [] end.
Definition obs_delivered (l : list Obs) : bytes := l ≫= fun o => match o with ObsDelivered b => b | _ => [] end.
Definition obs_accepted (l : list Obs) : bytes := l ≫= fun o => match o with ObsAccepted b => b | _ => [] end.
Definition obs_transmitted (l : list Obs) : bytes := l ≫= fun o => match o with ObsTransmitted b => b | _ => [] end.

(** The observations before the session starts to close, and those after. *)
Fixpoint before_closing (l : list Obs) : list Obs :=
  match l with [] | ObsClosing :: _ => [] | o :: l => o :: before_closing l end.
Fixpoint after_closing (l : list Obs) : list Obs :=
  match l with [] => [] | ObsClosing :: l => l | _ :: l => after_closing l end.

Lemma closing_open l : ObsClosing ∉ l -> before_closing l = l /\ after_closing l = [].
Proof.
  induction l as [|o l IH]; [done|]. rewrite not_elem_of_cons. intros [Ho Hl]. destruct (IH Hl) as [H1 H2].
  destruct o; cbn; by rewrite ?H1, ?H2.
Qed.

Lemma after_closing_app l k : ObsClosing ∈ l -> after_closing (l ++ k) = after_closing l ++ k.
Proof.
  induction l as [|o l IH]; [by intros ?%elem_of_nil|]. rewrite elem_of_cons. intros [<-|Hl]; [done|].
  destruct o; cbn; by rewrite ?(IH Hl).
Qed.

Lemma after_closing_here l k : ObsClosing ∉ l -> after_closing (l ++ ObsClosing :: k) = k.
Proof.
  induction l as [|o l IH]; [done|]. rewrite not_elem_of_cons. intros [Ho Hl].
  destruct o; cbn; by rewrite ?(IH Hl).
Qed.

Lemma accepted_cut l : obs_accepted l = obs_accepted (before_closing l) ++ obs_accepted (after_closing l).
Proof.
  unfold obs_accepted. induction l as [|o l IH]; [done|].
  destruct o; cbn [before_closing after_closing]; rewrite ?bind_cons, ?IH, <- ?app_assoc; done.
Qed.

(** In a run of the specification both streams are first in, first out. *)
Lemma abs_run_fifo a l a' :
  abs_run a l a' ->
  abs_inbound a ++ obs_received l = obs_delivered l ++ abs_inbound a' /\
  abs_outbound a ++ obs_accepted l = obs_transmitted l ++ abs_outbound a'.
Proof.
  unfold obs_received, obs_delivered, obs_accepted, obs_transmitted.
  induction 1 as [a|a o a' l a'' Hs _ [IH1 IH2]]; [cbn; by rewrite !app_nil_r|].
  destruct Hs; rewrite !bind_cons; cbn [abs_inbound abs_outbound app] in *; rewrite <- ?app_assoc in *;
    split; congruence.
Qed.

(** ** Runs of the session *)

Section runs.
Context (parse_request : Z -> bytes -> ParseResult (Z * ParsedRequest))
  (uri_from_str : bytes -> option Uri) (uri_build : bytes -> bytes -> option Uri)
  (request_ok : RequestHeaders -> bool) (canonical_reason : Z -> bytes).

Notation round := (listen_round parse_request uri_from_str uri_build request_ok canonical_reason).

(** The bytes of the stream that a round received, and those it wrote. *)
Definition round_received (s s' : Http1Codec) : bytes :=
  match hc_state s with
  | RequestInProgress _ => drop (length (hc_in s)) (hc_in s')
  | WaitingRequest _ => match hc_state s' with RequestInProgress b => b | WaitingRequest _ => [] end
  end.

Definition round_transmitted (s s' : Http1Codec) : bytes := drop (length (hc_out s)) (hc_out s').

(** A refused request is answered by the codec itself. *)
Definition round_obs (s s' : Http1Codec) : list Obs :=
  [ObsReceived (round_received s s')]
  ++ (match hc_state s with WaitingRequest _ => [ObsAccepted (round_transmitted s s')] | _ => [] end)
  ++ [ObsTransmitted (round_transmitted s s')]
  ++ (if phase_closing (hc_phase s') && negb (phase_closing (hc_phase s)) then [ObsClosing] else []).

(** The end of the session, when the round ended it. *)
Definition round_end (r : option (result ErrorKind Listened)) : option (result ErrorKind unit) :=
  match r with
  | None | Some (Ok (NewStream _ _)) => None
  | Some (Ok NoMore) => Some (Ok tt)
  | Some (Err e) => Some (Err e)
  end.

(** The interleavings of the codec with the stream it handed out, with what was observed
    and how the session ended, if it did. *)
Inductive h1_run : Http1Codec -> list Obs -> option (result ErrorKind unit) -> Prop :=
| run_new upload_buffer_size s : h1_new upload_buffer_size = Ret s -> h1_run s [] None
| run_listen s obs ev env r s' :
    h1_run s obs None -> h1_ready ev s = true -> round ev env s = Ret (r, s') ->
    h1_run s' (obs ++ round_obs s s') (round_end r)
| run_write s obs data rest s' :
    h1_run s obs None -> hc_taken s = true -> hc_down_sender s = true -> sink_write data s = (Ok rest, s') ->
    h1_run s' (obs ++ [ObsAccepted (if bool_decide (rest = []) then data else [])]) None
| run_datagram s obs data st s' :
    h1_run s obs None -> hc_taken s = true -> hc_down_sender s = true -> dropping_write data s = (Ok st, s') ->
    h1_run s' (obs ++ [ObsAccepted (match st with Sent => data | Dropped => [] end)]) None
| run_respond s obs close response eof r s' :
    h1_run s obs None -> hc_taken s = true -> hc_down_sender s = true -> send_response canonical_reason close response eof s = Ret (r, s') ->
    h1_run s' (obs ++ [ObsAccepted (match r with Ok _ => default [] (hc_down s') | Err _ => [] end)]) None
| run_intermediate s obs response r s' :
    h1_run s obs None -> hc_taken s = true -> hc_down_sender s = true -> send_intermediate_response canonical_reason response s = Ret (r, s') ->
    h1_run s' (obs ++ [ObsAccepted (match r with Ok _ => default [] (hc_down s') | Err _ => [] end)]) None
| run_eof s obs r s' :
    h1_run s obs None -> hc_taken s = true -> hc_down_sender s = true -> sink_eof s = (r, s') -> h1_run s' obs None
| run_sink_dropped s obs : h1_run s obs None -> hc_taken s = true -> h1_run (sink_dropped s) obs None
| run_read s obs b s' :
    h1_run s obs None -> hc_taken s = true -> hc_up_receiver s = true -> source_read s = (b, s') ->
    h1_run s' (obs ++ [ObsDelivered (default [] b)]) None
| run_source_dropped s obs : h1_run s obs None -> hc_taken s = true -> h1_run (source_dropped s) obs None.

(** ** Lemmas *)

(** The abstraction: what the codec holds in each direction. *)
Definition h1_abs (s : Http1Codec) (a : AbsStream) : Prop :=
  abs_outbound a = in_flight (hc_phase s) ++ default [] (hc_down s) /\
  (hc_up_receiver s = true ->
     abs_inbound a = default [] (hc_up s) ++ match hc_state s with RequestInProgress b => b | _ => [] end) /\
  match hc_state s with
  | WaitingRequest b =>
      hc_taken s = false /\ hc_down s = None /\ hc_up s = None /\
      (phase_closing (hc_phase s) = false -> hc_in s = b) /\ hc_eof s = false /\ hc_down_sender s = true /\
      phase_idle (hc_phase s) = true
  | RequestInProgress _ => True
  end.

Lemma write_all_buf_spec w data s r s' :
  write_all_buf w data s = (r, s') ->
  exists k rest, data = k ++ rest /\ s' = set_h1_out (hc_out s ++ k) s /\ (r = Ok tt -> rest = []).
Proof.
  destruct w as [|n e]; intros [= <- <-].
  - exists data, []. by rewrite app_nil_r.
  - exists (take n data), (drop n data). by rewrite take_drop.
Qed.

Lemma graceful_shutdown_spec s :
  exists p d, h1_graceful_shutdown s = set_h1_phase p (set_h1_down d s) /\ phase_closing p = true /\
    in_flight p ++ default [] d = default [] (hc_down s) /\ d = None.
Proof.
  unfold h1_graceful_shutdown. destruct s as [st i o [chunk|] ds e u ur tk ph]; cbn.
  - exists (ClosingWrite chunk), None. cbn. by rewrite app_nil_r.
  - by exists ClosingFlush, None.
Qed.

Lemma abs_progress a x k rest : abs_outbound a = k ++ rest ->
  abs_run a [ObsReceived x; ObsTransmitted k] (mkAbs (abs_inbound a ++ x) rest).
Proof. destruct a as [i o]. cbn. intros ->. econstructor; [constructor|]. apply abs_run_one. constructor. Qed.

Lemma abs_answer a x k : abs_outbound a = [] ->
  abs_run a [ObsReceived x; ObsAccepted k; ObsTransmitted k] (mkAbs (abs_inbound a ++ x) []).
Proof.
  destruct a as [i o]. cbn. intros ->. econstructor; [constructor|]. econstructor; [constructor|].
  apply abs_run_one. replace ([] ++ k) with (k ++ []) by apply app_nil_r. constructor.
Qed.

Lemma abs_mark a l a' (c : bool) : abs_run a l a' -> abs_run a (l ++ if c then [ObsClosing] else []) a'.
Proof.
  intros Hr. eapply abs_run_app; [exact Hr|]. destruct c; [apply abs_run_one; constructor|constructor].
Qed.

(** The start of the closing moves what the channel held into the write. *)
Lemma shutdown_abs s a : h1_abs s a -> in_flight (hc_phase s) = [] -> h1_abs (h1_graceful_shutdown s) a.
Proof.
  intros (Ho & Hi & Hw) Hf. rewrite Hf in Ho. unfold h1_graceful_shutdown, h1_abs.
  destruct (hc_down s) as [d|] eqn:Ed; cbn in *.
  - rewrite app_nil_r. split_and!; [done..|]. destruct (hc_state s); [naive_solver|done].
  - rewrite Ed. split_and!; [done..|]. destruct (hc_state s); naive_solver.
Qed.

(** What a round does to the two streams, given the bytes received and transmitted. *)
Definition round_post (a : AbsStream) (s : Http1Codec) (r : option (result ErrorKind Listened)) (s' : Http1Codec) : Prop :=
  exists a', abs_run a (round_obs s s') a' /\ (round_end r = None -> h1_abs s' a') /\
    (round_end r = Some (Ok tt) -> abs_outbound a' = default [] (hc_down s')).

Lemma post_in_progress a s r s' b x k rest :
  hc_state s = RequestInProgress b -> hc_in s' = hc_in s ++ x -> hc_out s' = hc_out s ++ k ->
  abs_outbound a = k ++ rest ->
  (round_end r = None -> h1_abs s' (mkAbs (abs_inbound a ++ x) rest)) ->
  (round_end r = Some (Ok tt) -> rest = default [] (hc_down s')) -> round_post a s r s'.
Proof.
  intros Es Ei Eo Ea Hn Hend. eexists. split; [|by split; [exact Hn|]].
  unfold round_obs, round_received, round_transmitted. rewrite Es, Ei, Eo, !drop_app_length.
  apply (abs_mark _ [ObsReceived x; ObsTransmitted k]). by apply abs_progress.
Qed.

Lemma post_waiting a s r s' b k :
  h1_abs s a -> hc_state s = WaitingRequest b -> hc_out s' = hc_out s ++ k ->
  (round_end r = None ->
     h1_abs s' (mkAbs (abs_inbound a ++ match hc_state s' with RequestInProgress b => b | _ => [] end) [])) ->
  (round_end r = Some (Ok tt) -> hc_down s' = None) ->
  round_post a s r s'.
Proof.
  intros (Ho & _ & Hw) Es Eo Hn Hend. rewrite Es in Hw. destruct Hw as (_ & Hd & _ & _ & _ & _ & Hf).
  rewrite Hd, (phase_idle_flight _ Hf) in Ho.
  eexists. split; [|split; [exact Hn|intros He; by rewrite (Hend He)]].
  unfold round_obs, round_received, round_transmitted. rewrite Es, Eo, !drop_app_length.
  apply (abs_mark _ [ObsReceived _; ObsAccepted k; ObsTransmitted k]). by apply abs_answer.
Qed.

(** A round that starts the closing. *)
Lemma post_shutdown a s s1 x :
  h1_abs s1 (mkAbs (abs_inbound a ++ x) (abs_outbound a)) -> in_flight (hc_phase s1) = [] ->
  (exists b, hc_state s = RequestInProgress b) -> hc_in s1 = hc_in s ++ x -> hc_out s1 = hc_out s ->
  round_post a s None (h1_graceful_shutdown s1).
Proof.
  intros Ha Hf [b Es] Ei Eo. apply (post_in_progress a s _ _ b x [] (abs_outbound a)); [done|..|done| |done].
  - destruct (graceful_shutdown_spec s1) as (p & d & -> & _). exact Ei.
  - destruct (graceful_shutdown_spec s1) as (p & d & -> & _). cbn. by rewrite app_nil_r.
  - intros _. by apply shutdown_abs.
Qed.

Lemma decode_request_spec buffer cap limit r :
  decode_request parse_request uri_from_str uri_build request_ok buffer cap limit = Ret (Ok r) ->
  match r with
  | DecodePartial b => b = buffer /\ len buffer < limit
  | DecodeComplete _ tail =>
      exists head idx p, buffer = head ++ tail /\ parse_request cap buffer = Complete (idx, p) /\
        Z.to_nat idx = length head
  end.
Proof.
  unfold decode_request. destruct (parse_request cap buffer) as [[idx p]| | |] eqn:Ep; [| |done|done].
  - destruct (request_of_parsed _ _ _ _) as [[req|e]|]; cbn [bindMR]; [|done|done].
    unfold split_off. destruct (Z.leb_spec idx (len buffer)) as [Hi|]; cbn [bindM]; [|done]. intros [= <-].
    exists (take (Z.to_nat idx) buffer), idx, p. split_and!; [by rewrite take_drop|done|].
    rewrite length_take. unfold len in Hi. lia.
  - destruct (Z.ltb_spec (len buffer) limit); by intros [= <-].
Qed.

(** The end of [on_request_headers_chunk], by its outcome. *)
Lemma headers_chunk_spec env buffer s r s' :
  on_request_headers_chunk parse_request uri_from_str uri_build request_ok env buffer s = Ret (r, s') ->
  hc_out s' = hc_out s /\
  match r with
  | Ok StatusPartial => s' = set_h1_state (WaitingRequest buffer) s
  | Ok (StatusComplete _ _) => exists tail head idx p,
      s' = set_h1_taken (set_h1_state (RequestInProgress tail) s) /\ buffer = head ++ tail /\
      parse_request MAX_HEADERS_NUM buffer = Complete (idx, p) /\ Z.to_nat idx = length head
  | Ok (StatusNeedRespond _) => s' = s
  | Err _ => True
  end.
Proof.
  unfold on_request_headers_chunk.
  destruct (decode_request _ _ _ _ _ _ _) as [[st|e]|] eqn:Ed; cbn [bindM]; [|by intros [= <- <-]|done].
  apply decode_request_spec in Ed. destruct st as [b|request tail]; [destruct Ed as [-> _]; by intros [= <- <-]|].
  destruct Ed as (head & idx & p & Eb & Ep & Hi).
  destruct (_ && _); [by intros [= <- <-]|]. destruct (le_peer env) as [ip|e]; [|by intros [= <- <-]].
  destruct (assertM _); cbn [bindM]; [|done]. intros [= <- <-]. split; [done|]. by exists tail, head, idx, p.
Qed.

Lemma readable_waiting a env s b r s' :
  h1_abs s a -> hc_phase s = Selecting -> hc_state s = WaitingRequest b -> round EvReadable env s = Ret (r, s') ->
  round_post a s r s'.
Proof.
  intros Ha Hph Es E. cbn [listen_round] in E. unfold wait_read, take_buffer in E. rewrite Es in E. cbn [hc_state set_h1_state] in E.
  rewrite orb_true_r in E. destruct (le_read env) as [chunk|e].
  2:{ injection E as <- <-. apply (post_waiting a s _ _ b []); [done|done|by rewrite app_nil_r|done|done]. }
  pose proof Ha as (_ & Hin & Hw). rewrite Es in Hw, Hin. destruct Hw as (Ht & Hd & Hu & Hi & He & Hs & _).
  rewrite Hph in Hi. specialize (Hi eq_refl).
  destruct (len chunk =? 0) eqn:El.
  - injection E as <- <-. unfold h1_graceful_shutdown. cbn [hc_down set_h1_in set_h1_state]. rewrite Hd.
    apply (post_waiting a s _ _ b []); [done|done|by rewrite app_nil_r| |done]. intros _. unfold h1_abs. cbn.
    rewrite Hd. split_and!; [done| |done..]. intros Hr. by rewrite (Hin Hr), Hu.
  - destruct (b ++ chunk) as [|x y] eqn:Eb.
    { apply app_eq_nil in Eb as [_ ->]. done. }
    cbn [hc_state set_h1_in set_h1_state] in E.
    destruct (on_request_headers_chunk _ _ _ _ _ _ _) as [[o s1]|] eqn:Eh; cbn [bindM] in E; [|done].
    apply headers_chunk_spec in Eh as [Eo Eh]. cbn in Eo.
    destruct o as [[|request ip|response]|e].
    + injection E as <- <-. subst s1. apply (post_waiting a s _ _ b []); [done|done|by rewrite app_nil_r| |done].
      intros _. unfold h1_abs. cbn. rewrite Hph, Hd, Hi. split_and!; [done| |done..].
      intros Hr. rewrite (Hin Hr), Hu. done.
    + injection E as <- <-. destruct Eh as (tail & head & idx & p & -> & _).
      apply (post_waiting a s _ _ b []); [done|done|by rewrite app_nil_r| |done].
      intros _. split_and!; cbn; [by rewrite Hph, Hd| |done]. intros Hr. by rewrite (Hin Hr), Hu.
    + destruct (encode_response _ _) as [encoded|]; cbn [bindM] in E; [|done].
      destruct (write_all_buf _ _ _) as [w s2] eqn:Ew. apply write_all_buf_spec in Ew as (k & rest & _ & -> & _).
      injection E as <- <-. subst s1. apply (post_waiting a s _ _ b k); [done|done|done|by destruct w|done].
    + injection E as <- <-. apply (post_waiting a s _ _ b []); [done|done|by rewrite app_nil_r|done|done].
Qed.

Lemma readable_in_progress a env s b r s' :
  h1_abs s a -> hc_phase s = Selecting -> hc_state s = RequestInProgress b -> upload_room s = true ->
  round EvReadable env s = Ret (r, s') -> round_post a s r s'.
Proof.
  intros Ha Hph Es Hready E. pose proof Ha as (Ho & Hin & _). unfold upload_room in Hready. rewrite Es in Hin. rewrite Hph in Ho.
  cbn [in_flight app] in Ho.
  cbn [listen_round] in E. unfold wait_read, take_buffer in E. rewrite Es in E. cbn [hc_state set_h1_state] in E.
  assert (forall x s1, hc_in s1 = hc_in s ++ x -> hc_out s1 = hc_out s -> hc_down s1 = hc_down s -> hc_phase s1 = Selecting ->
    hc_up_receiver s1 = hc_up_receiver s -> hc_state s1 = RequestInProgress [] ->
    (if hc_up_receiver s1 then Ret (None, set_h1_up (Some (b ++ x)) s1) else Ret (Some (Err UnexpectedEof), s1))
      = Ret (r, s') -> round_post a s r s') as Hgive.
  { intros x s1 Ei Eo Ed Ep Er Est E1. rewrite Er in E1.
    destruct (hc_up_receiver s) eqn:Erc; cbn [negb orb] in Hready; injection E1 as <- <-;
      (eapply (post_in_progress a s _ _ b x []); [done|done|by rewrite app_nil_r|done| |done]); [|done].
    apply bool_decide_eq_true in Hready. intros _. unfold h1_abs. cbn. rewrite Est, Ed, Ep, (Hin eq_refl), Hready. cbn.
    by rewrite app_nil_r. }
  assert (b = [] -> round_post a s None (h1_graceful_shutdown (set_h1_in (hc_in s ++ []) (set_h1_state (RequestInProgress []) s)))) as Hshut.
  { intros ->. apply (post_shutdown a s _ []); [|cbn; by rewrite Hph|by eexists|done|done].
    destruct a. unfold h1_abs. cbn in *. rewrite Hph, app_nil_r. by split_and!. }
  rewrite orb_false_r in E. destruct (Z.eqb_spec (len b) 0) as [Hb|Hb].
  - assert (b = []) as -> by (apply len_nil_inv; lia). destruct (le_read env) as [chunk|e].
    2:{ injection E as <- <-. eapply (post_in_progress a s _ _ [] [] []); [done|by rewrite app_nil_r..|done|done|done]. }
    destruct (Z.eqb_spec (len chunk) 0) as [Hc|Hc].
    + assert (chunk = []) as -> by (apply len_nil_inv; lia). injection E as <- <-. by apply Hshut.
    + destruct ([] ++ chunk) as [|x y] eqn:Ec; cbn [app] in Ec; subst chunk; [done|].
      eapply (Hgive (x :: y)); [..|exact E]; done.
  - destruct b as [|x y]; [done|].
    eapply (Hgive [] (set_h1_state (RequestInProgress []) s)); [by rewrite app_nil_r|done..|].
    rewrite app_nil_r. exact E.
Qed.

(** The completion of an awaited call. *)
Lemma resume_in_progress a env s b r s' :
  h1_abs s a -> hc_state s = RequestInProgress b -> h1_resume env s = (r, s') -> round_post a s r s'.
Proof.
  intros Ha Es E. pose proof Ha as (Ho & Hin & _). unfold h1_resume in E.
  assert (forall p, in_flight (hc_phase s) = [] -> in_flight p = [] -> round_post a s None (set_h1_phase p s)) as Hmove.
  { intros p Hf Hp. apply (post_in_progress a s _ _ b [] [] (abs_outbound a)); [done|by rewrite app_nil_r..|done| |done].
    intros _. unfold h1_abs. cbn. rewrite Hp, app_nil_r, Ho, Hf, Es. rewrite Es in Hin. by split_and!. }
  assert (forall chunk w s1, in_flight (hc_phase s) = chunk -> write_all_buf (le_write env) chunk s = (w, s1) -> forall p, in_flight p = [] ->
    match w with Ok _ => (@None (result ErrorKind Listened), set_h1_phase p s1) | Err e => (Some (Err e), s1) end = (r, s') ->
    round_post a s r s') as Hwrite.
  { intros chunk w s1 Hf Ew p Hp E1. apply write_all_buf_spec in Ew as (k & rest & -> & -> & Hr). rewrite Hf, <- app_assoc in Ho.
    destruct w as [[]|e]; injection E1 as <- <-;
      (eapply (post_in_progress a s _ _ b [] k); [done|by rewrite app_nil_r|done|exact Ho| |done]); [|done].
    intros _. rewrite (Hr eq_refl). unfold h1_abs. cbn. rewrite Hp, Es, app_nil_r. rewrite Es in Hin. by split_and!. }
  assert (forall e : result ErrorKind Listened, e <> Ok NoMore -> in_flight (hc_phase s) = [] ->
    (forall q i, e <> Ok (NewStream q i)) -> round_post a s (Some e) s) as Hstop.
  { intros e He _ Hn. apply (post_in_progress a s _ _ b [] [] (abs_outbound a)); [done|by rewrite app_nil_r..|done| |];
      destruct e as [[]|]; naive_solver. }
  destruct (hc_phase s) as [|chunk|chunk| | |] eqn:Ep.
  - injection E as <- <-. apply (post_in_progress a s _ _ b [] [] (abs_outbound a)); [done|by rewrite app_nil_r..|done| |done].
    intros _. rewrite app_nil_r. by destruct a.
  - destruct (write_all_buf _ _ _) as [w s1] eqn:Ew. by eapply (Hwrite chunk w s1 eq_refl Ew Selecting).
  - destruct (write_all_buf _ _ _) as [w s1] eqn:Ew. by eapply (Hwrite chunk w s1 eq_refl Ew ClosingFlush).
  - destruct (le_flush env); injection E as <- <-; [by apply Hmove|by apply Hstop].
  - injection E as <- <-. by apply Hmove.
  - injection E as <- <-. destruct (le_shutdown env) as [[]|]; [|by apply Hstop].
    apply (post_in_progress a s _ _ b [] [] (abs_outbound a)); [done|by rewrite app_nil_r..|done|done|]. intros _. by rewrite Ho.
Qed.

Lemma resume_waiting a env s b r s' :
  h1_abs s a -> hc_phase s <> Selecting -> hc_state s = WaitingRequest b -> h1_resume env s = (r, s') ->
  round_post a s r s' /\ hc_state s' = hc_state s /\ hc_taken s' = false /\ hc_in s' = hc_in s /\ phase_closing (hc_phase s') = true.
Proof.
  intros Ha Hc Es E. pose proof Ha as (Ho & Hin & Hw). rewrite Es in Hw, Hin. destruct Hw as (Ht & Hd & Hu & Hi & He & Hs & Hf).
  rewrite (phase_idle_flight _ Hf), Hd in Ho. cbn in Ho.
  assert (forall p, phase_idle p = true -> phase_closing p = true -> round_post a s None (set_h1_phase p s)) as Hmove.
  { intros p Hp Hpc. apply (post_waiting a s _ _ b []); [done|done|by rewrite app_nil_r| |done]. intros _. unfold h1_abs. cbn.
    rewrite Es, (phase_idle_flight _ Hp), Hd, !app_nil_r. rewrite app_nil_r in Hin. split_and!; first [done|congruence]. }
  assert (forall e, round_end e <> None -> round_post a s e s) as Hstop.
  { intros e Hne. apply (post_waiting a s _ _ b []); [done|done|by rewrite app_nil_r|done|done]. }
  unfold h1_resume in E. destruct (hc_phase s) as [|chunk|chunk| | |] eqn:Ep; [done|done|done|..].
  - destruct (le_flush env); injection E as <- <-; (split; [|cbn; by rewrite ?Ep]); [by apply Hmove|by apply Hstop].
  - injection E as <- <-. split; [|by cbn]. by apply Hmove.
  - injection E as <- <-. split; [|by rewrite Ep]. apply Hstop. by destruct (le_shutdown env) as [[]|].
Qed.

Lemma waiting_ready a ev s b :
  h1_abs s a -> hc_state s = WaitingRequest b -> h1_ready ev s = true ->
  (ev = EvReadable /\ hc_phase s = Selecting) \/ (ev = EvAwaited /\ hc_phase s <> Selecting).
Proof.
  intros (_ & _ & Hw) Es Hready. rewrite Es in Hw. destruct Hw as (_ & Hd & _ & _ & He & Hs & _). unfold h1_ready in Hready.
  destruct (hc_phase s), ev; cbn; rewrite ?Hd, ?Hs, ?He in Hready; try done; auto.
Qed.

Lemma round_sim a ev env s r s' :
  h1_abs s a -> h1_ready ev s = true -> round ev env s = Ret (r, s') -> round_post a s r s'.
Proof.
  intros Ha Hready E. pose proof Ha as (Ho & Hin & Hw). destruct (hc_state s) as [b|b] eqn:Es.
  - destruct (waiting_ready _ _ _ _ Ha Es Hready) as [[-> Hp]|[-> Hp]]; [by eapply readable_waiting|].
    injection E as E. by eapply resume_waiting.
  - destruct ev; cbn [listen_round] in E; [| | |injection E as E; by eapply resume_in_progress];
      (destruct (hc_phase s) eqn:Ep; unfold h1_ready in Hready; rewrite Ep in Hready; try done).
    + rewrite Es in Hready. by eapply readable_in_progress.
    + destruct (hc_down s) as [d|] eqn:Ed.
      * injection E as <- <-. apply (post_in_progress a s _ _ b [] [] (abs_outbound a)); [done|by rewrite app_nil_r..|done| |done].
        intros _. unfold h1_abs. cbn. rewrite app_nil_r, Ho, Es, app_nil_r. by split_and!.
      * destruct (hc_eof s); injection E as <- <-.
        -- apply (post_shutdown a s _ []); [|cbn; by rewrite Ep|by eexists|by rewrite app_nil_r|done].
           unfold h1_abs. cbn. rewrite Ep, app_nil_r, Ho, Es, Ed. by split_and!.
        -- eapply (post_in_progress a s _ _ b [] []); [done|by rewrite app_nil_r..|done|done|done].
    + injection E as <- <-. apply (post_shutdown a s _ []); [|cbn; by rewrite Ep|by eexists|by rewrite app_nil_r|done].
      unfold h1_abs. cbn. rewrite Ep, app_nil_r, Ho, Es. by split_and!.
Qed.

Lemma in_progress a s : h1_abs s a -> hc_taken s = true -> exists b, hc_state s = RequestInProgress b.
Proof. intros (_ & _ & H) Ht. destruct (hc_state s) as [b|b]; [destruct H; congruence|by exists b]. Qed.

(** A step that only accepts bytes into the empty download channel. *)
Lemma accepted_sim a s data :
  h1_abs s a -> hc_taken s = true -> hc_down s = None ->
  exists a', abs_run a [ObsAccepted data] a' /\ h1_abs (set_h1_down (Some data) s) a' /\
    h1_abs (set_h1_eof true (set_h1_down (Some data) s)) a'.
Proof.
  intros Ha Ht Hd. destruct (in_progress a s Ha Ht) as [b Es]. destruct a as [i o], Ha as (Ho & Hi & _).
  rewrite Es in Hi. rewrite Hd in Ho. cbn in Ho, Hi. rewrite app_nil_r in Ho. subst o.
  exists (mkAbs i (in_flight (hc_phase s) ++ data)). split; [apply abs_run_one; constructor|].
  split; (split_and!; cbn; [done|by rewrite Es|by rewrite Es]).
Qed.

Lemma idle_sim a s : h1_abs s a -> exists a', abs_run a [ObsAccepted []] a' /\ h1_abs s a'.
Proof.
  intros Ha. exists a. split; [|done]. destruct a as [i o]. apply abs_run_one.
  pose proof (abs_accepted [] i o) as H. by rewrite app_nil_r in H.
Qed.

Lemma send_response_spec close response eof s r s' :
  send_response canonical_reason close response eof s = Ret (r, s') ->
  (hc_down s = None /\ r = Ok tt /\ exists data, hc_down s' = Some data /\
     (s' = set_h1_down (Some data) s \/ s' = set_h1_eof true (set_h1_down (Some data) s))) \/
  (r = Err Other /\ s' = s).
Proof.
  unfold send_response. destruct (encode_response _ _) as [e|]; cbn [bindM]; [|done].
  destruct (hc_down s); [intros [= <- <-]; by right|].
  destruct eof; intros [= <- <-]; left; (split_and!; [done|done|]); eexists; (split; [reflexivity|]); auto.
Qed.

Lemma send_intermediate_spec response s r s' :
  send_intermediate_response canonical_reason response s = Ret (r, s') ->
  (hc_down s = None /\ r = Ok tt /\ exists data, hc_down s' = Some data /\
     (s' = set_h1_down (Some data) s \/ s' = set_h1_eof true (set_h1_down (Some data) s))) \/
  (r = Err Other /\ s' = s).
Proof.
  unfold send_intermediate_response. destruct (encode_response _ _) as [e|]; cbn [bindM]; [|done].
  destruct (hc_down s); intros [= <- <-]; [by right|]. left. split_and!; [done|done|]. eexists. split; [reflexivity|auto].
Qed.

Lemma respond_sim a s (r : result ErrorKind unit) s' :
  h1_abs s a -> hc_taken s = true ->
  (hc_down s = None /\ r = Ok tt /\ exists data, hc_down s' = Some data /\
     (s' = set_h1_down (Some data) s \/ s' = set_h1_eof true (set_h1_down (Some data) s))) \/
  (r = Err Other /\ s' = s) ->
  exists a', abs_run a [ObsAccepted (match r with Ok _ => default [] (hc_down s') | Err _ => [] end)] a' /\ h1_abs s' a'.
Proof.
  intros Ha Ht [(Hd & -> & data & Hd' & Hs)|[-> ->]]; [|by apply idle_sim]. rewrite Hd'. cbn [default].
  destruct (accepted_sim a s data Ha Ht Hd) as (a' & H1 & H2 & H3). exists a'. split; [done|]. by destruct Hs as [->| ->].
Qed.

(** What a run satisfies: the abstract run with the same observations. *)
Lemma run_sim s obs e :
  h1_run s obs e ->
  exists a, abs_run (mkAbs [] []) obs a /\ (e = None -> h1_abs s a) /\
    (e = Some (Ok tt) -> abs_outbound a = default [] (hc_down s)).
Proof.
  assert (forall s' a obs l, abs_run (mkAbs [] []) obs a -> (exists a', abs_run a l a' /\ h1_abs s' a') ->
    exists a', abs_run (mkAbs [] []) (obs ++ l) a' /\ (@None (result ErrorKind unit) = None -> h1_abs s' a') /\
      (@None (result ErrorKind unit) = Some (Ok tt) -> abs_outbound a' = default [] (hc_down s'))) as Hgo.
  { intros s' a obs0 l H (a' & H1 & H2). exists a'. split; [by eapply abs_run_app|done]. }
  induction 1 as [size s Hnew|s obs ev env r s' _ (a & Hr & Ha & _) Hready E|s obs data rest s' _ (a & Hr & Ha & _) Ht _ E
    |s obs data st s' _ (a & Hr & Ha & _) Ht _ E|s obs close response eof r s' _ (a & Hr & Ha & _) Ht _ E
    |s obs response r s' _ (a & Hr & Ha & _) Ht _ E|s obs r s' _ (a & Hr & Ha & _) Ht _ E
    |s obs _ (a & Hr & Ha & _) Ht|s obs b s' _ (a & Hr & Ha & _) Ht Hrc E|s obs _ (a & Hr & Ha & _) Ht];
    try specialize (Ha eq_refl).
  - destruct size; [injection Hnew as <-|done]. exists (mkAbs [] []). split_and!; [constructor| |done].
    intros _. unfold h1_abs. by split_and!.
  - destruct (round_sim _ _ _ _ _ _ Ha Hready E) as (a' & H1 & H2 & H3). exists a'. split; [by eapply abs_run_app|done].
  - apply (Hgo _ a); [done|]. unfold sink_write in E. destruct (hc_down s) as [d|] eqn:Ed; injection E as <- <-.
    + destruct (bool_decide_reflect (data = [])) as [->|]; by apply idle_sim.
    + destruct (accepted_sim a s data Ha Ht Ed) as (a' & H1 & H2 & _). by exists a'.
  - apply (Hgo _ a); [done|]. unfold dropping_write in E. destruct (hc_down s) as [d|] eqn:Ed; injection E as <- <-.
    + by apply idle_sim.
    + destruct (accepted_sim a s data Ha Ht Ed) as (a' & H1 & H2 & _). by exists a'.
  - apply (Hgo _ a); [done|]. eapply respond_sim; eauto using send_response_spec.
  - apply (Hgo _ a); [done|]. eapply respond_sim; eauto using send_intermediate_spec.
  - injection E as <- <-. exists a. split_and!; [done| |done]. destruct (in_progress a s Ha Ht) as [b Es].
    destruct Ha as (Ho & Hi & _). intros _. unfold h1_abs. cbn. rewrite Es in *. by split_and!.
  - exists a. split_and!; [done| |done]. destruct (in_progress a s Ha Ht) as [b Es].
    destruct Ha as (Ho & Hi & _). intros _. unfold h1_abs. cbn. rewrite Es in *. by split_and!.
  - apply (Hgo _ a); [done|]. injection E as <- <-. destruct (in_progress a s Ha Ht) as [b Es].
    destruct a as [i o], Ha as (Ho & Hi & _). specialize (Hi Hrc). rewrite Es in Hi. cbn in Hi. subst i.
    eexists. split; [apply abs_run_one; constructor|]. unfold h1_abs. cbn. rewrite Es. by split_and!.
  - exists a. split_and!; [done| |done]. destruct (in_progress a s Ha Ht) as [b Es].
    destruct Ha as (Ho & Hi & _). intros _. unfold h1_abs. cbn. rewrite Es in *. by split_and!.
Qed.

(** The request head that opened the stream: the parser accepted a prefix of the input,
    and everything after it belongs to the stream. *)
Definition head_of (input received : bytes) : Prop :=
  exists head tail rest idx p, input = head ++ received /\ received = tail ++ rest /\
    parse_request MAX_HEADERS_NUM (head ++ tail) = Complete (idx, p) /\ Z.to_nat idx = length head.

Lemma in_progress_round ev env s b r s' :
  hc_state s = RequestInProgress b -> round ev env s = Ret (r, s') ->
  hc_taken s' = hc_taken s /\ (exists x, hc_in s' = hc_in s ++ x) /\ exists b', hc_state s' = RequestInProgress b'.
Proof.
  intros Es E.
  assert (forall s1 x b1, hc_in s1 = hc_in s ++ x -> hc_taken s1 = hc_taken s -> hc_state s1 = RequestInProgress b1 ->
    (s' = s1 \/ (exists d, s' = set_h1_up d s1) \/ s' = h1_graceful_shutdown s1) ->
    hc_taken s' = hc_taken s /\ (exists x, hc_in s' = hc_in s ++ x) /\ exists b', hc_state s' = RequestInProgress b') as Hgo.
  { intros s1 x b1 Hi Ht Hs [->|[[d ->]| ->]]; cbn; eauto.
    destruct (graceful_shutdown_spec s1) as (p & d & -> & _). cbn. eauto. }
  assert (hc_in s = hc_in s ++ []) as Hnil by (by rewrite app_nil_r).
  destruct ev; cbn [listen_round] in E.
  - unfold wait_read, take_buffer in E. rewrite Es in E. cbn [hc_state set_h1_state] in E. rewrite orb_false_r in E.
    destruct (len b =? 0).
    + destruct (le_read env) as [chunk|e]; [|injection E as <- <-; by eapply (Hgo (set_h1_state _ s)); eauto].
      destruct (if len chunk =? 0 then [] else b ++ chunk) as [|x y].
      * injection E as <- <-. eapply Hgo; [..|by eauto]; done.
      * cbn [hc_state set_h1_in set_h1_state] in E.
        destruct (hc_up_receiver _); injection E as <- <-;
          eapply (Hgo (set_h1_in (hc_in s ++ chunk) (set_h1_state (RequestInProgress []) s))); by eauto.
    + destruct b as [|x y].
      * injection E as <- <-. eapply (Hgo (set_h1_state (RequestInProgress []) s)); by eauto.
      * cbn [hc_state set_h1_state] in E.
        destruct (hc_up_receiver _); injection E as <- <-; eapply (Hgo (set_h1_state (RequestInProgress []) s)); by eauto.
  - destruct (hc_down s) as [d|].
    + injection E as <- <-. eapply (Hgo (set_h1_phase (WritingDownload d) (set_h1_down None s))); by eauto.
    + destruct (hc_eof s); injection E as <- <-; [|eapply (Hgo s); by eauto].
      eapply (Hgo (set_h1_eof false s)); by eauto.
  - injection E as <- <-. eapply (Hgo (set_h1_eof false s)); by eauto.
  - injection E as E. unfold h1_resume in E. destruct (hc_phase s) as [|chunk|chunk| | |].
    + injection E as <- <-. eapply (Hgo s); by eauto.
    + destruct (write_all_buf _ _ _) as [w s1] eqn:Ew. apply write_all_buf_spec in Ew as (k & rest & _ & -> & _).
      destruct w; injection E as <- <-; [eapply (Hgo (set_h1_phase Selecting (set_h1_out (hc_out s ++ k) s)))
        |eapply (Hgo (set_h1_out (hc_out s ++ k) s))]; by eauto.
    + destruct (write_all_buf _ _ _) as [w s1] eqn:Ew. apply write_all_buf_spec in Ew as (k & rest & _ & -> & _).
      destruct w; injection E as <- <-; [eapply (Hgo (set_h1_phase ClosingFlush (set_h1_out (hc_out s ++ k) s)))
        |eapply (Hgo (set_h1_out (hc_out s ++ k) s))]; by eauto.
    + destruct (le_flush env); injection E as <- <-; [eapply (Hgo (set_h1_phase ClosingReserve s))|eapply (Hgo s)]; by eauto.
    + injection E as <- <-. eapply (Hgo (set_h1_phase ClosingShutdown s)); by eauto.
    + injection E as <- <-. eapply (Hgo s); by eauto.
Qed.

(** A round while the head is awaited: it goes on with a bounded buffer, or it hands out
    the stream that the parser delimited. *)
Lemma waiting_round ev env s b a r s' :
  h1_abs s a -> hc_state s = WaitingRequest b -> len b < MAX_RAW_HEADERS_SIZE ->
  h1_ready ev s = true -> round ev env s = Ret (r, s') ->
  (hc_taken s' = true -> head_of (hc_in s') (round_received s s')) /\
  (round_end r = None -> forall b', hc_state s' = WaitingRequest b' -> len b' < MAX_RAW_HEADERS_SIZE).
Proof.
  intros Ha Es Hb Hready E. destruct (waiting_ready _ _ _ _ Ha Es Hready) as [[-> Hp]|[-> Hp]].
  2:{ injection E as E. destruct (resume_waiting _ _ _ _ _ _ Ha Hp Es E) as (_ & Est & Ht & _).
      split; [congruence|]. intros _ b'. rewrite Est, Es. intros [= <-]. done. }
  destruct Ha as (_ & _ & Hw). rewrite Es, Hp in Hw. destruct Hw as (Ht & Hd & _ & Hi & He & Hs & _).
  specialize (Hi eq_refl).
  cbn [listen_round] in E. unfold wait_read, take_buffer in E. rewrite Es in E. cbn [hc_state set_h1_state] in E.
  rewrite orb_true_r in E.
  destruct (le_read env) as [chunk|e]; [|injection E as <- <-; cbn; split; [congruence|done]].
  destruct (if len chunk =? 0 then [] else b ++ chunk) as [|x y] eqn:Eb.
  { injection E as <- <-. unfold h1_graceful_shutdown. cbn [hc_down set_h1_in set_h1_state]. rewrite Hd. cbn.
    split; [congruence|]. intros _ b' [= <-]. unfold MAX_RAW_HEADERS_SIZE, len. cbn. lia. }
  destruct (len chunk =? 0); [done|]. cbn [hc_state set_h1_in set_h1_state] in E. rewrite <- Eb in E.
  unfold on_request_headers_chunk in E.
  destruct (decode_request _ _ _ _ _ _ _) as [[st|e]|] eqn:Ed; cbn [bindM] in E;
    [|injection E as <- <-; cbn; split; [congruence|done]|done].
  apply decode_request_spec in Ed. destruct st as [b'|request tail]; cbn [bindM] in E.
  { destruct Ed as [-> Hlen]. injection E as <- <-. split; [cbn; congruence|]. cbn. intros _ b' [= <-]. done. }
  destruct Ed as (head & idx & p & Ebuf & Ep & Hidx).
  destruct (_ && _); cbn [bindM] in E.
  { destruct (encode_response _ _); cbn [bindM] in E; [|done].
    destruct (write_all_buf _ _ _) as [w s2] eqn:Ew. apply write_all_buf_spec in Ew as (k & rest & _ & -> & _).
    injection E as <- <-. cbn. split; [congruence|by destruct w]. }
  destruct (le_peer env) as [ip|e]; cbn [bindM] in E; [|injection E as <- <-; cbn; split; [congruence|done]].
  destruct (assertM _); cbn [bindM] in E; [|done]. injection E as <- <-. split; [|done]. intros _. unfold round_received.
  rewrite Es. cbn. exists head, tail, [], idx, p. rewrite app_nil_r. rewrite <- Ebuf. split_and!; [congruence|done|done|done].
Qed.

Lemma obs_received_round l s s' : obs_received (l ++ round_obs s s') = obs_received l ++ round_received s s'.
Proof.
  unfold obs_received, round_obs. rewrite !bind_app. f_equal.
  destruct (hc_state s), (_ && _); cbn; by rewrite !app_nil_r.
Qed.

Lemma obs_received_other l o : (forall b, o <> ObsReceived b) -> obs_received (l ++ [o]) = obs_received l.
Proof. intros H. unfold obs_received. rewrite bind_app. destruct o; [by edestruct H|..]; cbn; by rewrite app_nil_r. Qed.

(** While the head is awaited nothing of a stream was received and the buffer is short;
    from then on the input is the head and what the stream received. *)
Lemma run_head s obs e :
  h1_run s obs e ->
  (hc_taken s = true -> head_of (hc_in s) (obs_received obs)) /\
  (e = None -> forall b, hc_state s = WaitingRequest b -> obs_received obs = [] /\ len b < MAX_RAW_HEADERS_SIZE).
Proof.
  assert (forall s obs, h1_run s obs None -> hc_taken s = true ->
    (hc_taken s = true -> head_of (hc_in s) (obs_received obs)) -> forall s',
    hc_in s' = hc_in s /\ hc_state s' = hc_state s ->
    (hc_taken s' = true -> head_of (hc_in s') (obs_received obs)) /\
    (@None (result ErrorKind unit) = None -> forall b, hc_state s' = WaitingRequest b ->
       obs_received obs = [] /\ len b < MAX_RAW_HEADERS_SIZE)) as Htaken.
  { intros s1 obs1 Hrun Ht IH s2 [-> ->]. destruct (run_sim _ _ _ Hrun) as (a & _ & Ha & _).
    destruct (in_progress a s1 (Ha eq_refl) Ht) as [b ->]. by split; [auto|]. }
  induction 1 as [size s Hnew|s obs ev env r s' Hrun [IH1 IH2] Hready E|s obs data rest s' Hrun [IH1 IH2] Ht _ E
    |s obs data st s' Hrun [IH1 IH2] Ht _ E|s obs close response eof r s' Hrun [IH1 IH2] Ht _ E
    |s obs response r s' Hrun [IH1 IH2] Ht _ E|s obs r s' Hrun [IH1 IH2] Ht _ E
    |s obs Hrun [IH1 IH2] Ht|s obs b s' Hrun [IH1 IH2] Ht Hrc E|s obs Hrun [IH1 IH2] Ht];
    try specialize (IH2 eq_refl); try (rewrite obs_received_other by done).
  - destruct size; [injection Hnew as <-|done]. split; [done|]. intros _ b [= <-]. split; [done|]. unfold MAX_RAW_HEADERS_SIZE, len. cbn. lia.
  - rewrite obs_received_round. destruct (run_sim _ _ _ Hrun) as (a & _ & Ha & _). specialize (Ha eq_refl).
    destruct (hc_state s) as [b|b] eqn:Es.
    + destruct (IH2 b eq_refl) as [-> Hb]. destruct (waiting_round _ _ _ _ _ _ _ Ha Es Hb Hready E) as [H1 H2]. cbn [app].
      split; [done|]. intros He b' Es'. split; [|by eapply H2]. unfold round_received. by rewrite Es, Es'.
    + destruct (in_progress_round _ _ _ _ _ _ Es E) as (Htk & [x Hx] & [b' Es']). unfold round_received.
      rewrite Es, Hx, drop_app_length, Htk. split; [|by rewrite Es'].
      intros Ht. destruct (IH1 Ht) as (head & tail & rest & idx & p & -> & Hr & Hp & Hi).
      exists head, tail, (rest ++ x), idx, p. rewrite Hr, <- !app_assoc. by split_and!.
  - apply (Htaken _ _ Hrun Ht IH1). unfold sink_write in E. destruct (hc_down s); by injection E as <- <-.
  - apply (Htaken _ _ Hrun Ht IH1). unfold dropping_write in E. destruct (hc_down s); by injection E as <- <-.
  - apply (Htaken _ _ Hrun Ht IH1). destruct (send_response_spec _ _ _ _ _ _ E) as [(_ & _ & d & _ & [->| ->])|[_ ->]]; done.
  - apply (Htaken _ _ Hrun Ht IH1). destruct (send_intermediate_spec _ _ _ _ E) as [(_ & _ & d & _ & [->| ->])|[_ ->]]; done.
  - apply (Htaken _ _ Hrun Ht IH1). by injection E as <- <-.
  - by apply (Htaken _ _ Hrun Ht IH1).
  - apply (Htaken _ _ Hrun Ht IH1). by injection E as <- <-.
  - by apply (Htaken _ _ Hrun Ht IH1).
Qed.

Lemma wait_read_phase env s r s' : wait_read env s = (r, s') -> hc_phase s' = hc_phase s.
Proof.
  unfold wait_read, take_buffer. destruct (hc_state s) as [b|b]; cbn;
    destruct (_ || _); [destruct (le_read env)| |destruct (le_read env)|]; by intros [= <- <-].
Qed.

Lemma headers_chunk_phase env buffer s r s' :
  on_request_headers_chunk parse_request uri_from_str uri_build request_ok env buffer s = Ret (r, s') ->
  hc_phase s' = hc_phase s.
Proof.
  unfold on_request_headers_chunk. destruct (decode_request _ _ _ _ _ _ _) as [[[]|]|]; cbn [bindM]; [| | |done].
  - by intros [= <- <-].
  - destruct (_ && _); [by intros [= <- <-]|]. destruct (le_peer env); [|by intros [= <- <-]].
    destruct (assertM _); cbn [bindM]; [by intros [= <- <-]|done].
  - by intros [= <- <-].
Qed.

(** What a round does to the phase: the closing starts with an empty download channel, it
    is not left, and it does not touch the channel again. *)
Lemma round_phase a ev env s r s' :
  h1_abs s a -> h1_ready ev s = true -> round ev env s = Ret (r, s') ->
  if phase_closing (hc_phase s) then
    phase_closing (hc_phase s') = true /\ hc_down s' = hc_down s /\
    obs_accepted (round_obs s s') = []
  else phase_closing (hc_phase s') = true -> hc_down s' = None.
Proof.
  intros Ha Hready E.
  assert (forall s1, hc_down (h1_graceful_shutdown s1) = None) as Hdown.
  { intros s1. destruct (graceful_shutdown_spec s1) as (p & d & -> & _ & _ & ->). done. }
  destruct (phase_closing (hc_phase s)) eqn:Hc.
  - assert (ev = EvAwaited) as -> by (unfold h1_ready in Hready; by destruct (hc_phase s), ev).
    injection E as E.
    assert (obs_accepted (round_obs s s') =
      match hc_state s with WaitingRequest _ => round_transmitted s s' | _ => [] end) as ->.
    { unfold obs_accepted, round_obs. destruct (hc_state s), (_ && _); cbn; by rewrite ?app_nil_r. }
    destruct Ha as (_ & _ & Hw). unfold round_transmitted. unfold h1_resume in E.
    destruct (hc_phase s) as [|chunk|chunk| | |] eqn:Ep; [done|done|..].
    + destruct (write_all_buf _ _ _) as [w s1] eqn:Ew. apply write_all_buf_spec in Ew as (k & rest & _ & -> & _).
      destruct (hc_state s); [naive_solver|]. destruct w; injection E as <- <-; cbn; by rewrite ?Ep.
    + destruct (le_flush env); injection E as <- <-; cbn; rewrite ?Ep, drop_all; by destruct (hc_state s).
    + injection E as <- <-. cbn. rewrite drop_all. by destruct (hc_state s).
    + injection E as <- <-. rewrite Ep, drop_all. by destruct (hc_state s).
  - destruct ev; cbn [listen_round] in E.
    + destruct (wait_read env s) as [b s1] eqn:Er. apply wait_read_phase in Er. rewrite <- Er in Hc.
      destruct b as [[|x y]|e]; [by injection E as <- <-| |injection E as <- <-; congruence].
      destruct (hc_state s1); [|destruct (hc_up_receiver s1); injection E as <- <-; cbn; congruence].
      destruct (on_request_headers_chunk _ _ _ _ _ _ _) as [[o s2]|] eqn:Eh; cbn [bindM] in E; [|done].
      apply headers_chunk_phase in Eh. rewrite <- Eh in Hc.
      destruct o as [[|request ip|response]|e]; [injection E as <- <-; congruence..| |injection E as <- <-; congruence].
      destruct (encode_response _ _); cbn [bindM] in E; [|done].
      destruct (write_all_buf _ _ _) as [w s3] eqn:Ew. apply write_all_buf_spec in Ew as (k & rest & _ & -> & _).
      injection E as <- <-. cbn. congruence.
    + destruct (hc_down s); [by injection E as <- <-|]. destruct (hc_eof s); injection E as <- <-; [done|congruence].
    + by injection E as <- <-.
    + injection E as E. unfold h1_resume in E. destruct (hc_phase s) as [|chunk|chunk| | |] eqn:Ep; try done.
      * injection E as <- <-. by rewrite Ep.
      * destruct (write_all_buf _ _ _) as [w s1] eqn:Ew. apply write_all_buf_spec in Ew as (k & rest & _ & -> & _).
        destruct w; injection E as <- <-; cbn; by rewrite ?Ep.
Qed.

(** Outside the closing a session ends without an error only when it refused a request. *)
Lemma open_end a ev env s r s' :
  h1_abs s a -> h1_ready ev s = true -> round ev env s = Ret (r, s') ->
  phase_closing (hc_phase s') = false -> round_end r = Some (Ok tt) -> hc_down s' = None.
Proof.
  intros Ha Hready E Hp Hr. destruct (hc_state s) as [b|b] eqn:Es.
  - destruct (waiting_ready _ _ _ _ Ha Es Hready) as [[-> Hph]|[-> Hph]].
    + cbn [listen_round] in E. unfold wait_read, take_buffer in E. rewrite Es in E. cbn [hc_state set_h1_state] in E.
      destruct Ha as (_ & _ & Hw). rewrite Es in Hw. destruct Hw as (_ & Hd & _). rewrite orb_true_r in E.
      destruct (le_read env) as [chunk|e]; [|by injection E as <- <-].
      destruct (if len chunk =? 0 then _ else _); [by injection E as <- <-|]. cbn [hc_state set_h1_in set_h1_state] in E.
      destruct (on_request_headers_chunk _ _ _ _ _ _ _) as [[o s1]|] eqn:Eh; cbn [bindM] in E; [|done].
      apply headers_chunk_spec in Eh as [_ Eh]. destruct o as [[|request ip|response]|e]; try by injection E as <- <-.
      subst s1. destruct (encode_response _ _); cbn [bindM] in E; [|done].
      destruct (write_all_buf _ _ _) as [w s2] eqn:Ew. apply write_all_buf_spec in Ew as (k & rest & _ & -> & _).
      by injection E as <- <-.
    + injection E as E. destruct (resume_waiting _ _ _ _ _ _ Ha Hph Es E) as (_ & _ & _ & _ & Hc). congruence.
  - exfalso. destruct ev; cbn [listen_round] in E.
    + destruct (wait_read env s) as [[[|x y]|e] s1] eqn:Er; [by injection E as <- <-| |by injection E as <- <-].
      assert (exists b1, hc_state s1 = RequestInProgress b1) as [b1 E1].
      { unfold wait_read, take_buffer in Er. rewrite Es in Er. destruct (_ || _); [destruct (le_read env)|];
          injection Er as _ <-; by eexists. }
      rewrite E1 in E. destruct (hc_up_receiver s1); by injection E as <- <-.
    + destruct (hc_down s); [by injection E as <- <-|]. destruct (hc_eof s); by injection E as <- <-.
    + by injection E as <- <-.
    + injection E as E. unfold h1_resume in E. destruct (hc_phase s) as [|c|c| | |] eqn:Ep.
      * by injection E as <- <-.
      * destruct (write_all_buf _ _ _) as [[]]; by injection E as <- <-.
      * destruct (write_all_buf _ _ _) as [[]]; by injection E as <- <-.
      * destruct (le_flush env); by injection E as <- <-.
      * by injection E as <- <-.
      * injection E as _ <-. by rewrite Ep in Hp.
Qed.

(** The observations of a run, by the phase: nothing is closed before the closing starts,
    and from then on what is accepted stays in the channel. *)
Definition closing_inv (s : Http1Codec) (obs : list Obs) : Prop :=
  if phase_closing (hc_phase s) then
    ObsClosing ∈ obs /\ obs_accepted (after_closing obs) = default [] (hc_down s)
  else ObsClosing ∉ obs.

Lemma closing_accepts s s' obs b :
  closing_inv s obs -> hc_phase s' = hc_phase s ->
  default [] (hc_down s') = default [] (hc_down s) ++ b -> closing_inv s' (obs ++ [ObsAccepted b]).
Proof.
  unfold closing_inv. intros Hi -> Hd. destruct (phase_closing _).
  - destruct Hi as [Hin Ha]. split; [set_solver|]. rewrite (after_closing_app _ _ Hin). unfold obs_accepted in *.
    by rewrite bind_app, Ha, Hd, bind_cons, app_nil_r.
  - set_solver.
Qed.

Lemma closing_delivers s s' obs b :
  closing_inv s obs -> hc_phase s' = hc_phase s -> hc_down s' = hc_down s -> closing_inv s' (obs ++ [ObsDelivered b]).
Proof.
  unfold closing_inv. intros Hi -> ->. destruct (phase_closing _).
  - destruct Hi as [Hin Ha]. split; [set_solver|]. rewrite (after_closing_app _ _ Hin). unfold obs_accepted in *.
    by rewrite bind_app, Ha, bind_cons, app_nil_r.
  - set_solver.
Qed.

Lemma closing_round a s ev env r s' obs :
  h1_abs s a -> h1_ready ev s = true -> round ev env s = Ret (r, s') ->
  closing_inv s obs -> closing_inv s' (obs ++ round_obs s s').
Proof.
  intros Ha Hready E Hi. pose proof (round_phase _ _ _ _ _ _ Ha Hready E) as Hp. unfold closing_inv in *.
  destruct (phase_closing (hc_phase s)) eqn:Hc.
  - destruct Hp as (-> & Hd & Hacc), Hi as [Hin Ho]. split; [set_solver|].
    rewrite (after_closing_app _ _ Hin), Hd. unfold obs_accepted in *. by rewrite bind_app, Ho, Hacc, app_nil_r.
  - unfold round_obs. rewrite Hc. destruct (phase_closing (hc_phase s')); cbn [andb negb].
    + rewrite (Hp eq_refl). split; [set_solver|]. rewrite !app_assoc. rewrite after_closing_here; [done|].
      destruct (hc_state s); set_solver.
    + destruct (hc_state s); set_solver.
Qed.

Lemma run_closing s obs e : h1_run s obs e -> closing_inv s obs.
Proof.
  induction 1 as [size s Hnew|s obs ev env r s' Hrun IH Hready E|s obs data rest s' Hrun IH _ _ E
    |s obs data st s' Hrun IH _ _ E|s obs close response eof r s' Hrun IH _ _ E
    |s obs response r s' Hrun IH _ _ E|s obs r s' Hrun IH _ _ E
    |s obs Hrun IH _|s obs b s' Hrun IH _ _ E|s obs Hrun IH _]; [..|exact IH].
  - destruct size; [injection Hnew as <-|done]. apply not_elem_of_nil.
  - destruct (run_sim _ _ _ Hrun) as (a & _ & Ha & _). by eapply closing_round; [apply Ha|..].
  - unfold sink_write in E. destruct (hc_down s) eqn:Ed; injection E as <- <-; apply (closing_accepts s); try done; cbn; rewrite ?Ed.
    + destruct (bool_decide_reflect (data = [])) as [->|]; by rewrite app_nil_r.
    + done.
  - unfold dropping_write in E. destruct (hc_down s) eqn:Ed; injection E as <- <-; apply (closing_accepts s); try done; cbn; rewrite ?Ed.
    + by rewrite app_nil_r.
    + done.
  - destruct (send_response_spec _ _ _ _ _ _ E) as [(Hd & -> & d & Hd' & Hs)|[-> ->]].
    + apply (closing_accepts s); [done|by destruct Hs as [->| ->]|by rewrite Hd, Hd'].
    + apply (closing_accepts s); [done|done|by rewrite app_nil_r].
  - destruct (send_intermediate_spec _ _ _ _ E) as [(Hd & -> & d & Hd' & Hs)|[-> ->]].
    + apply (closing_accepts s); [done|by destruct Hs as [->| ->]|by rewrite Hd, Hd'].
    + apply (closing_accepts s); [done|done|by rewrite app_nil_r].
  - by injection E as <- <-.
  - exact IH.
  - injection E as <- <-. by apply (closing_delivers s).
Qed.

(** At a normal end: what was accepted before the closing was transmitted, what was
    accepted while it lasted is still in the channel. *)
Lemma h1_session_end s obs :
  h1_run s obs (Some (Ok tt)) ->
  obs_transmitted obs = obs_accepted (before_closing obs) /\
  obs_accepted (after_closing obs) = default [] (hc_down s).
Proof.
  intros Hrun. destruct (run_sim _ _ _ Hrun) as (a & Ha & _ & Hend). specialize (Hend eq_refl).
  apply abs_run_fifo in Ha as [_ Ha]. cbn in Ha. rewrite Hend in Ha.
  pose proof (run_closing _ _ _ Hrun) as Hc. unfold closing_inv in Hc. destruct (phase_closing (hc_phase s)) eqn:Ep.
  - destruct Hc as [_ Hc]. split; [|done]. rewrite accepted_cut, Hc in Ha. by apply app_inv_tail in Ha.
  - destruct (closing_open _ Hc) as [-> ->]. enough (hc_down s = None) as Hd.
    { rewrite Hd in Ha |- *. cbn in Ha. rewrite app_nil_r in Ha. done. }
    inversion Hrun as [|s0 obs0 ev env r s1 Hrun0 Hready E Hs Hobs He| | | | | | | |]; subst. clear Hrun.
    destruct (run_sim _ _ _ Hrun0) as (a0 & _ & Ha0 & _). specialize (Ha0 eq_refl).
    by eapply open_end.
Qed.

End runs.

(** ** Properties *)


(** A parser that knows one request. *)
Definition sample_parse (cap : Z) (b : bytes) : ParseResult (Z * ParsedRequest) :=
  let head := str "GET / HTTP/1.1" ++ CRLF ++ CRLF in
  if bool_decide (take 18 b = head) then Complete (18, mkParsed (Some (str "GET")) (Some (str "/")) (Some 1) [])
  else Partial.

Definition sample_uri (p : bytes) : option Uri := Some (mkUri p (Some p) None).
Definition sample_env (b : bytes) : ListenEnv :=
  mkListenEnv (Ok b) (Ok (IpV4 [127; 0; 0; 1])) WroteAll (Ok tt) (Ok tt).

(** Normalises the state and the observations of a run. *)
Local Ltac h1_norm H :=
  match type of H with
  | h1_run ?p ?u ?b ?r ?c ?s ?o ?e =>
      let s' := eval vm_compute in s in let o' := eval vm_compute in o in let e' := eval vm_compute in e in
      let K := fresh in
      assert (h1_run p u b r c s' o' e') as K by
        (replace s' with s by (vm_compute; reflexivity); replace o' with o by (vm_compute; reflexivity); exact H);
      clear H; rename K into H
  end.

(** The request arrives in two pieces, the second with two bytes of its body; the stream
    reads them and answers with three bytes. *)
Local Ltac h1_sample_run :=
  let H := fresh "Hrun" in
  epose proof (run_new sample_parse sample_uri (fun _ _ => None) (fun _ => true) (fun _ => []) (Some 32768) _ eq_refl) as H;
  eapply (run_listen _ _ _ _ _ _ _ EvReadable (sample_env (str "GET / "))) in H; [|vm_compute; reflexivity..]; h1_norm H;
  eapply (run_listen _ _ _ _ _ _ _ EvReadable (sample_env (str "HTTP/1.1" ++ CRLF ++ CRLF ++ [1; 2]))) in H; [|vm_compute; reflexivity..]; h1_norm H;
  eapply (run_listen _ _ _ _ _ _ _ EvReadable (sample_env [])) in H; [|vm_compute; reflexivity..]; h1_norm H;
  eapply run_read in H; [|vm_compute; reflexivity..]; h1_norm H;
  eapply (run_write _ _ _ _ _ _ _ [7; 8; 9]) in H; [|vm_compute; reflexivity..]; h1_norm H.
Local Ltac h1_event H ev := eapply (run_listen _ _ _ _ _ _ _ ev (sample_env [])) in H; [|vm_compute; reflexivity..]; h1_norm H.


(** The client closes its side while the stream still has data to send: the codec takes
    the chunk that it finds, and the one that the stream hands over while the transport is
    flushed is accepted and never written, although the session ends without an error. *)
Lemma closing_loses_chunk :
  exists s obs,
    h1_run sample_parse sample_uri (fun _ _ => None) (fun _ => true) (fun _ => []) s obs (Some (Ok tt)) /\
    obs_accepted obs = [7; 8; 9; 10] /\ obs_transmitted obs = [7; 8; 9] /\ hc_down s = Some [10].
Proof.
  h1_sample_run. h1_event Hrun EvReadable. h1_event Hrun EvAwaited.
  eapply (run_write _ _ _ _ _ _ _ [10]) in Hrun; [|vm_compute; reflexivity..]; h1_norm Hrun.
  do 3 h1_event Hrun EvAwaited.
  eexists _, _. split; [exact Hrun|]. split_and!; vm_compute; reflexivity.
Qed.
