(* ===== verification/ReverseProxy.v ===== *)
(** * The reverse proxy

    lib/src/reverse_proxy.rs: a request that is not for the tunnel is translated to
    HTTP/1 and sent to the configured server, and the server's response is translated
    back: with its length when the server gave one, decoded from the chunked coding for
    HTTP/2 and HTTP/3 clients, and as two streams otherwise. *)

From S2P Require Import Prelude.
From S2P Require Import Codecs.
From S2P Require Import Varint.
From S2P Require Import NetUtils.
From S2P Require Import Auth.
From S2P Require Import Tunnel.
From S2P Require Import Pipe.
From S2P Require Import TcpForwarder.
From S2P Require Import ForwardedStream.
From S2P Require Import Http1Codec.

Definition ORIGINAL_PROTOCOL_HEADER : bytes := str "x-original-protocol".
Definition H3_BUFFERED_BODY_LIMIT : Z := 2 * 1024 * 1024.

(** ** Standard library functions *)

(** [HeaderMap::insert] and [HeaderMap::remove]: the order of the fields of different
    names has no meaning. *)
Definition header_remove (n : bytes) (h : headers) : headers :=
  List.filter (fun p => negb (bool_decide (p.1 = n))) h.

Definition header_insert (n v : bytes) (h : headers) : headers := header_remove n h ++ [(n, v)].

(** The first index at which a pattern starts, as [windows] and [position] find it. *)
Fixpoint find_sub (p l : bytes) : option nat :=
  if starts_with p l then Some O
  else match l with [] => None | _ :: l => S <$> find_sub p l end.

(** [str::trim]: the characters with the property White_Space, in UTF-8. *)
Fixpoint utf8_trim_start (l : bytes) : bytes :=
  match l with
  | 0xC2 :: c :: r => if (c =? 0x85) || (c =? 0xA0) then utf8_trim_start r else l
  | 0xE1 :: 0x9A :: 0x80 :: r => utf8_trim_start r
  | 0xE2 :: 0x80 :: c :: r =>
      if in_range 0x80 0x8A c || (c =? 0xA8) || (c =? 0xA9) || (c =? 0xAF) then utf8_trim_start r else l
  | 0xE2 :: 0x81 :: 0x9F :: r => utf8_trim_start r
  | 0xE3 :: 0x80 :: 0x80 :: r => utf8_trim_start r
  | c :: r => if is_space c then utf8_trim_start r else l
  | [] => []
  end.

(** The same from the end; the argument is reversed. *)
Fixpoint utf8_trim_rev (l : bytes) : bytes :=
  match l with
  | 0x80 :: 0x9A :: 0xE1 :: r => utf8_trim_rev r
  | 0x9F :: 0x81 :: 0xE2 :: r => utf8_trim_rev r
  | 0x80 :: 0x80 :: 0xE3 :: r => utf8_trim_rev r
  | c :: 0x80 :: 0xE2 :: r =>
      if in_range 0x80 0x8A c || (c =? 0xA8) || (c =? 0xA9) || (c =? 0xAF) then utf8_trim_rev r else l
  | c :: 0xC2 :: r => if (c =? 0x85) || (c =? 0xA0) then utf8_trim_rev r else l
  | c :: r => if is_space c then utf8_trim_rev r else l
  | [] => []
  end.

Definition utf8_trim (l : bytes) : bytes := utf8_trim_start (rev (utf8_trim_rev (rev l))).

(** [usize::from_str_radix] with the radix 16. *)
Definition hex_value (c : Z) : option Z :=
  if in_range 0x30 0x39 c then Some (c - 0x30)
  else if in_range 0x61 0x66 c then Some (c - 0x57)
  else if in_range 0x41 0x46 c then Some (c - 0x37)
  else None.

Fixpoint hex_digits (acc : Z) (l : bytes) : option Z :=
  match l with
  | [] => Some acc
  | c :: l =>
      match hex_value c with
      | Some v => let acc := acc * 16 + v in if acc <? 2 ^ 64 then hex_digits acc l else None
      | None => None
      end
  end.

Definition strip_plus (s : bytes) : bytes := match s with 0x2B :: r => r | r => r end.

Definition from_str_radix_16 (s : bytes) : option Z :=
  match strip_plus s with [] => None | digits => hex_digits 0 digits end.

(** [usize::to_string], the value of a [content-length] field. *)
Fixpoint decimal_digits (fuel : nat) (n : Z) (acc : bytes) : bytes :=
  match fuel with
  | O => acc
  | S fuel => let acc := (0x30 + n mod 10) :: acc in if n / 10 =? 0 then acc else decimal_digits fuel (n / 10) acc
  end.

(** Twenty digits hold every [u64]. *)
Definition decimal (n : Z) : bytes := decimal_digits 20 n [].

(** ** The state of a stream *)

(** What the client's side of the stream was asked to do, [PxBody] with the bytes that a
    [write_all] delivered. *)
Inductive ProxyEvent : Type :=
| PxRespond (response : ResponseHeaders) (eof : bool)
| PxBody (b : bytes)
| PxEof.

(** [px_reads] are the outcomes of the reads from the server that are to come, [px_writes]
    those of the calls of [write_all]; [px_server] is what the server was sent, and
    [px_client] what the client's side was asked for. *)
Record Proxy : Type := mkProxy {
  px_reads : list (result ErrorKind Data);
  px_writes : list WriteOutcome;
  px_server : bytes;
  px_client : list ProxyEvent;
}.

(** A computation on a stream: [None] while it waits for the server. *)
Definition P (A : Type) : Type := Proxy -> M (option (result ErrorKind A) * Proxy).

Definition pret {A} (x : A) : P A := fun s => Ret (Some (Ok x), s).
Definition perr {A} (e : ErrorKind) : P A := fun s => Ret (Some (Err e), s).
Definition ppanic {A} : P A := fun _ => Panic.

Definition pbind {A B} (m : P A) (f : A -> P B) : P B := fun s =>
  match m s with
  | Panic => Panic
  | Ret (Some (Ok x), s) => f x s
  | Ret (Some (Err e), s) => Ret (Some (Err e), s)
  | Ret (None, s) => Ret (None, s)
  end.

Notation "'let*' x := m 'in' k" := (pbind m (fun x => k))
  (at level 200, x pattern, m at level 100, k at level 200, right associativity).

Definition plift {A} (m : M A) : P A := fun s => match m with Ret x => Ret (Some (Ok x), s) | Panic => Panic end.

(** [server_source.read()], followed by [consume], which cannot fail for a TCP stream. *)
Definition server_read : P Data := fun s =>
  match px_reads s with
  | [] => Ret (None, s)
  | r :: reads => Ret (Some r, mkProxy reads (px_writes s) (px_server s) (px_client s))
  end.

Definition next_write (data : bytes) (s : Proxy) : bytes * result ErrorKind unit * list WriteOutcome :=
  match px_writes s with
  | [] => (data, Ok tt, [])
  | WroteAll :: w => (data, Ok tt, w)
  | WriteFailed n e :: w => (take n data, Err e, w)
  end.

(** [write_all] does nothing for no data. *)
Definition server_write_all (data : bytes) : P unit := fun s =>
  match data with
  | [] => Ret (Some (Ok tt), s)
  | _ => let '(k, r, w) := next_write data s in
         Ret (Some r, mkProxy (px_reads s) w (px_server s ++ k) (px_client s))
  end.

Definition client_write_all (data : bytes) : P unit := fun s =>
  match data with
  | [] => Ret (Some (Ok tt), s)
  | _ => let '(k, r, w) := next_write data s in
         Ret (Some r, mkProxy (px_reads s) w (px_server s) (px_client s ++ [PxBody k]))
  end.

Definition client_event (r : result ErrorKind unit) (e : ProxyEvent) : P unit := fun s =>
  match r with
  | Ok _ => Ret (Some (Ok tt), mkProxy (px_reads s) (px_writes s) (px_server s) (px_client s ++ [e]))
  | Err x => Ret (Some (Err x), s)
  end.

(** Reads until [enough] holds of the buffer; the flag tells that the server ended the
    stream first. *)
Fixpoint fill (enough : bytes -> bool) (buffer : bytes) (reads : list (result ErrorKind Data))
  : option (result ErrorKind (bool * bytes)) * list (result ErrorKind Data) :=
  if enough buffer then (Some (Ok (false, buffer)), reads)
  else match reads with
       | [] => (None, [])
       | Err e :: reads => (Some (Err e), reads)
       | Ok Eof :: reads => (Some (Ok (true, buffer)), reads)
       | Ok (Chunk c) :: reads => fill enough (buffer ++ c) reads
       end.

Definition need_more (enough : bytes -> bool) (buffer : bytes) : P (bool * bytes) := fun s =>
  let (r, reads) := fill enough buffer (px_reads s) in
  Ret (r, mkProxy reads (px_writes s) (px_server s) (px_client s)).

(** What the exchange of the duplex pipe at the end did, and its outcome: the part of the
    request's body that was read from the client and the part of it that the server was
    sent, the part of the response that was read from the server and the part of it that
    the client was sent, and whether the client was told the end. *)
Record Exchanged : Type := mkExchanged {
  ex_result : option (result ErrorKind unit);
  ex_body : bytes;
  ex_to_server : bytes;
  ex_response : bytes;
  ex_to_client : bytes;
  ex_client_ended : bool;
}.

(** The duplex pipe between the client's stream and the connection to the server. *)
Section proxy_pipe.
Context {Src REnv Snk WEnv : Type} `{HS : SourceLaws Src REnv} `{HK : SinkLaws Snk WEnv}.

Definition proxy_exchange (timeout : Z) (calls : list (DuplexCall REnv TxEnv (list (result ErrorKind bytes)) WEnv))
    (now : Z) (source : Src) (sink : Snk) : M Exchanged :=
  let! (r, self) := duplex_exchange timeout calls
    (mkDuplex (simplex_new source (mkTx [] false false) now) (simplex_new (mkRx []) sink now)) in
  Ret (mkExchanged r (produced (sp_source (left_pipe self))) (tx_written (sp_sink (left_pipe self)))
         (rx_read (sp_source (right_pipe self))) (accepted (sp_sink (right_pipe self))) (ended (sp_sink (right_pipe self)))).

(** Both directions are first in, first out, and a success is complete in both.  The bytes
    are counted from the start of the exchange. *)
Lemma proxy_exchange_ok timeout calls now source sink :
  produced source = [] -> accepted sink = [] ->
  exists x, proxy_exchange timeout calls now source sink = Ret x /\
    ex_to_server x `prefix_of` ex_body x /\ ex_to_client x `prefix_of` ex_response x /\
    (ex_result x = Some (Ok tt) ->
       ex_to_server x = ex_body x /\ ex_to_client x = ex_response x /\ ex_client_ended x = true).
Proof.
  intros Hs Hk. unfold proxy_exchange.
  destruct (duplex_exchange_ok timeout calls
    (mkDuplex (simplex_new source (mkTx [] false false) now) (simplex_new (mkRx []) sink now)))
    as (r & self & -> & [l Hl] & [k Hr] & Hok).
  - split_and!; cbn; [by rewrite Hs|done|done|done].
  - split_and!; cbn; [by rewrite Hk|by rewrite Hk|done|by apply fits_nil].
  - eexists. split; [reflexivity|]. cbn in Hl, Hr |- *. split; [by exists l|]. split; [by exists k|]. intros Hx.
    destruct (Hok Hx) as [(H1 & _) (H2 & H3 & _)]. auto.
Qed.

End proxy_pipe.

(** The outcomes of the calls made once per stream: the connection to the server,
    [send_response], [eof] and the exchange of the duplex pipe. *)
Record ProxyEnv : Type := mkProxyEnv {
  pe_connect : result ConnectionError unit;
  pe_respond : result ErrorKind unit;
  pe_eof : result ErrorKind unit;
  pe_exchange : M Exchanged;
}.

Record ReverseProxySettings : Type := mkReverseProxySettings {
  rv_server_address : SocketAddr;
  rv_path_mask : bytes;
  rv_h3_backward_compatibility : bool;
}.

Section proxy.
Context (parse_response : Z -> bytes -> ParseResult (Z * ParsedResponse)) (response_ok : ResponseHeaders -> bool)
  (to_str : bytes -> option bytes).
Context (env : ProxyEnv) (protocol : TlsProtocol).

Definition protocol_as_str (p : TlsProtocol) : bytes :=
  match p with Http1 => str "HTTP1" | Http2 => str "HTTP2" | Http3 => str "HTTP3" end.

Definition is_http1 : bool := match protocol with Http1 => true | _ => false end.

Definition translate_request (settings : ReverseProxySettings) (r : RequestHeaders) : RequestHeaders :=
  let version := match protocol with Http1 => rq_version r | _ => HTTP_11 end in
  let method :=
    match protocol with
    | Http3 => if rv_h3_backward_compatibility settings && bool_decide (rq_method r = str "GET")
                  && bool_decide (rq_path r = str "/") then str "CONNECT" else rq_method r
    | _ => rq_method r
    end in
  mkRequestHeaders method (rq_path r) (rq_path_and_query r) (rq_authority r) version
    (header_insert ORIGINAL_PROTOCOL_HEADER (protocol_as_str protocol) (rq_headers r)).

Definition set_response_headers (h : headers) (r : ResponseHeaders) : ResponseHeaders :=
  mkResponseHeaders (rp_version r) (rp_status r) h.

Definition hop_by_hop : list bytes :=
  [str "connection"; str "transfer-encoding"; str "upgrade"; str "te"; str "trailer"; str "keep-alive";
   str "proxy-connection"].

Definition strip_hop_by_hop (h : headers) : headers := fold_left (fun h n => header_remove n h) hop_by_hop h.

Definition is_chunked_response (h : headers) : bool :=
  match header_get h (str "transfer-encoding") with
  | Some v =>
      match to_str v with
      | Some x => bool_decide (is_Some (find_sub (str "chunked") (to_lower x)))
      | None => false
      end
  | None => false
  end.

(** The loop that reads the head of the response; [None] when the server closed first. *)
Fixpoint read_response (buffer : bytes) (reads : list (result ErrorKind Data))
  : M (option (result ErrorKind (option (ResponseHeaders * bytes))) * list (result ErrorKind Data)) :=
  match reads with
  | [] => Ret (None, [])
  | Err e :: reads => Ret (Some (Err e), reads)
  | Ok Eof :: reads => Ret (Some (Ok None), reads)
  | Ok (Chunk c) :: reads =>
      let! r := decode_response parse_response response_ok (buffer ++ c) MAX_HEADERS_NUM MAX_RAW_HEADERS_SIZE in
      match r with
      | Err e => Ret (Some (Err e), reads)
      | Ok (DecodePartial b) => read_response b reads
      | Ok (DecodeComplete h tail) => Ret (Some (Ok (Some (h, tail))), reads)
      end
  end.

Definition receive_head : P (option (ResponseHeaders * bytes)) := fun s =>
  let! (r, reads) := read_response [] (px_reads s) in
  Ret (r, mkProxy reads (px_writes s) (px_server s) (px_client s)).

Definition send_bad_gateway (version : Version) : P unit :=
  client_event (pe_respond env) (PxRespond (mkResponseHeaders version 502 []) true).

(** Reads until [remaining] bytes came, for the body that is buffered. *)
Fixpoint read_exactly (body : bytes) (remaining : Z) (reads : list (result ErrorKind Data))
  : option (result ErrorKind bytes) * list (result ErrorKind Data) :=
  if remaining <=? 0 then (Some (Ok body), reads)
  else match reads with
       | [] => (None, [])
       | Err e :: reads => (Some (Err e), reads)
       | Ok Eof :: reads => (Some (Err UnexpectedEof), reads)
       | Ok (Chunk c) :: reads =>
           let to_take := Z.min (len c) remaining in
           read_exactly (body ++ take (Z.to_nat to_take) c) (remaining - to_take) reads
       end.

Definition relay_buffered (response : ResponseHeaders) (chunk : bytes) (total : Z) : P unit :=
  let* body := (fun s =>
    let (r, reads) := read_exactly chunk (Z.max 0 (total - len chunk)) (px_reads s) in
    Ret (r, mkProxy reads (px_writes s) (px_server s) (px_client s))) in
  let* _ := client_event (pe_respond env) (PxRespond response false) in
  let* _ := client_write_all body in
  client_event (pe_eof env) PxEof.

(** [ensure_client_sink]. *)
Definition ensure_client_sink (opened : bool) (response : ResponseHeaders) : P unit :=
  if opened then pret tt else client_event (pe_respond env) (PxRespond response false).

Definition parse_chunk_line (line : bytes) : option Z :=
  if utf8_valid line then from_str_radix_16 (utf8_trim (default [] (head (split_char 0x3B line)))) else None.

(** The end of a chunked body: the last line, the trailers and the end of the stream. *)
Definition finish_chunked (response : ResponseHeaders) (opened : bool) (buffered_body buffer : bytes) : P unit :=
  let* _ := if starts_with CRLF buffer then pret (false, buffer)
            else need_more (fun b => bool_decide (is_Some (find_sub (CRLF ++ CRLF) b))) buffer in
  let* _ :=
    if opened then pret tt
    else
      let response := set_response_headers
        (header_insert (str "content-length") (decimal (len buffered_body)) (rp_headers response)) response in
      let* _ := ensure_client_sink false response in
      client_write_all buffered_body in
  client_event (pe_eof env) PxEof.

(** What is done with the data of a chunk: whether the response was sent by then, and
    what is buffered. *)
Definition forward_chunk (response : ResponseHeaders) (opened : bool) (buffered_body data : bytes) : P (bool * bytes) :=
  if opened then let* _ := client_write_all data in pret (true, buffered_body)
  else
    let buffered_body := buffered_body ++ data in
    if H3_BUFFERED_BODY_LIMIT <? len buffered_body then
      let* _ := ensure_client_sink false response in
      let* _ := client_write_all buffered_body in
      pret (true, [])
    else pret (false, buffered_body).

(** The loop over the chunks.  A size whose sum with the two bytes of the line end
    overflows wraps around, and [split_to] panics. *)
Fixpoint chunk_loop (fuel : nat) (response : ResponseHeaders) (opened : bool) (buffered_body buffer : bytes) : P unit :=
  match fuel with
  | O => ppanic
  | S fuel =>
      let* (eof, buffer) := need_more (fun b => bool_decide (is_Some (find_sub CRLF b))) buffer in
      if eof then perr UnexpectedEof
      else
        let line_end := Z.of_nat (default O (find_sub CRLF buffer)) + 2 in
        let* (line, buffer) := plift (split_to line_end buffer) in
        match parse_chunk_line (take (length line - 2) line) with
        | None => perr InvalidData
        | Some chunk_size =>
            if chunk_size =? 0 then finish_chunked response opened buffered_body buffer
            else
              let* (eof, buffer) := need_more (fun b => as_u64 (chunk_size + 2) <=? len b) buffer in
              if eof then perr UnexpectedEof
              else
                let* (data, buffer) := plift (split_to chunk_size buffer) in
                let* (_, buffer) := plift (split_to 2 buffer) in
                let* (opened, buffered_body) := forward_chunk response opened buffered_body data in
                chunk_loop fuel response opened buffered_body buffer
        end
  end.

Definition reads_bytes (reads : list (result ErrorKind Data)) : bytes :=
  reads ≫= fun r => match r with Ok (Chunk c) => c | _ => [] end.

(** An iteration removes bytes from the buffer, so there are fewer iterations than bytes. *)
Definition relay_chunked (response : ResponseHeaders) (chunk : bytes) : P unit := fun s =>
  chunk_loop (S (length (chunk ++ reads_bytes (px_reads s)))) response false [] chunk s.

(** The rest of a body of a known length; a failed [eof] is only logged. *)
Fixpoint relay_remaining (remaining : Z) (fuel : nat) : P unit :=
  if remaining <=? 0 then pret tt
  else match fuel with
       | O => ppanic
       | S fuel =>
           let* d := server_read in
           match d with
           | Eof => pret tt
           | Chunk c =>
               let to_send := Z.min (len c) remaining in
               let* _ := client_write_all (take (Z.to_nat to_send) c) in
               relay_remaining (remaining - to_send) fuel
           end
       end.

Definition client_eof_logged : P unit := fun s =>
  match pe_eof env with
  | Ok _ => client_event (Ok tt) PxEof s
  | Err _ => Ret (Some (Ok tt), s)
  end.

(** The exchange of the duplex pipe and the match on its result. *)
Definition exchange_result (m : M Exchanged) : P unit := fun s =>
  let! x := m in
  Ret (match ex_result x with
       | None => None
       | Some (Ok _) | Some (Err UnexpectedEof) => Some (Ok tt)
       | Some (Err e) => Some (Err e)
       end,
       mkProxy (px_reads s) (px_writes s) (px_server s ++ ex_to_server x)
         (px_client s ++ [PxBody (ex_to_client x)] ++ if ex_client_ended x then [PxEof] else [])).

(** The two paths that answer before the body is complete. *)
Definition relay_streamed (response : ResponseHeaders) (chunk : bytes) (content_length : option Z) : P unit :=
  let* _ := client_event (pe_respond env) (PxRespond response false) in
  let* _ := client_write_all chunk in
  match content_length with
  | Some n =>
      if len chunk <=? n then
        let* _ := fun s => relay_remaining (n - len chunk) (S (length (px_reads s))) s in
        client_eof_logged
      else exchange_result (pe_exchange env)
  | None => exchange_result (pe_exchange env)
  end.

Definition translate_response (original_version : Version) (h : ResponseHeaders) : ResponseHeaders :=
  mkResponseHeaders original_version (rp_status h)
    (if is_http1 then rp_headers h else strip_hop_by_hop (rp_headers h)).

Definition content_length_of (h : headers) : option Z :=
  match header_get h (str "content-length") with
  | Some v => match to_str v with Some x => parse_u64 x | None => None end
  | None => None
  end.

Definition relay_response (original_version : Version) (h : ResponseHeaders) (chunk : bytes) : P unit :=
  let response := translate_response original_version h in
  let content_length := content_length_of (rp_headers response) in
  match protocol, content_length with
  | Http3, Some total =>
      if total <=? H3_BUFFERED_BODY_LIMIT then relay_buffered response chunk total
      else if is_chunked_response (rp_headers h) then relay_chunked response chunk
      else relay_streamed response chunk content_length
  | _, _ =>
      if is_chunked_response (rp_headers h) && negb is_http1 then relay_chunked response chunk
      else relay_streamed response chunk content_length
  end.

(** [handle_stream]; [settings] is the reverse proxy section of the settings. *)
Definition handle_stream (settings : option ReverseProxySettings) (request : RequestHeaders) : P unit :=
  let* settings := plift (unwrap settings) in
  match pe_connect env with
  | Err (Io e) => perr e
  | Err _ => perr Other
  | Ok _ =>
      let request_headers := translate_request settings request in
      let* encoded := plift (encode_request request_headers) in
      let* _ := server_write_all encoded in
      let* head := receive_head in
      match head with
      | None => send_bad_gateway (rq_version request)
      | Some (h, tail) => relay_response (rq_version request) h tail
      end
  end.

End proxy.

(** ** Lemmas *)

Lemma starts_with_mono p l x : starts_with p l = true -> starts_with p (l ++ x) = true.
Proof. revert l. induction p as [|c p IH]; intros [|d l]; cbn; [done..|]. intros [H1 H2]%andb_true_iff. by rewrite H1, IH. Qed.

Lemma starts_with_mono_false p l x :
  (length p <= length l)%nat -> starts_with p l = false -> starts_with p (l ++ x) = false.
Proof.
  revert l. induction p as [|c p IH]; intros [|d l]; cbn; [done|done|lia|]. intros Hl. rewrite !andb_false_iff.
  intros [H|H]; [by left|right]. apply IH; [lia|done].
Qed.

Lemma starts_with_length p l : starts_with p l = true -> (length p <= length l)%nat.
Proof.
  revert l. induction p as [|c p IH]; intros [|d l]; cbn; [lia|lia|done|]. intros [_ H]%andb_true_iff. apply IH in H. lia.
Qed.

Lemma find_sub_length p l k : find_sub p l = Some k -> (k + length p <= length l)%nat.
Proof.
  revert k. induction l as [|c l IH]; intros k; cbn [find_sub].
  - destruct (starts_with p []) eqn:E; [|done]. intros [= <-]. by apply starts_with_length in E.
  - destruct (starts_with p (c :: l)) eqn:E.
    + intros [= <-]. by apply starts_with_length in E.
    + intros (k' & H & ->)%fmap_Some. apply IH in H. cbn. lia.
Qed.

Lemma find_sub_split p l k : find_sub p l = Some k -> exists a b, l = a ++ p ++ b /\ length a = k.
Proof.
  revert k. induction l as [|c l IH]; intros k; cbn [find_sub].
  - destruct (starts_with p []) eqn:E; [|done]. intros [= <-]. apply starts_with_spec in E as [b E]. by exists [], b.
  - destruct (starts_with p (c :: l)) eqn:E.
    + intros [= <-]. apply starts_with_spec in E as [b E]. by exists [], b.
    + intros (k' & H & ->)%fmap_Some. destruct (IH _ H) as (a & b & -> & Ha). exists (c :: a), b. cbn. by rewrite Ha.
Qed.

(** A match stays the first one when more data comes. *)
Lemma find_sub_app p l x k : find_sub p l = Some k -> find_sub p (l ++ x) = Some k.
Proof.
  revert k. induction l as [|c l IH]; intros k H.
  - cbn [find_sub] in H. destruct (starts_with p []) eqn:E; [|done]. injection H as <-.
    apply (starts_with_mono _ _ x) in E. cbn [app] in E |- *. destruct x; cbn [find_sub]; by rewrite E.
  - pose proof (find_sub_length _ _ _ H) as Hl. cbn [find_sub] in H. cbn [app find_sub].
    destruct (starts_with p (c :: l)) eqn:E.
    + apply (starts_with_mono _ _ x) in E. cbn [app] in E. by rewrite E.
    + assert (starts_with p ((c :: l) ++ x) = false) as Ef by (apply starts_with_mono_false; [lia|done]).
      cbn [app] in Ef. rewrite Ef. apply fmap_Some in H as (k' & H & ->). by rewrite (IH _ H).
Qed.

Lemma find_crlf_line line r : 13 ∉ line -> find_sub CRLF (line ++ CRLF ++ r) = Some (length line).
Proof.
  induction line as [|c line IH]; intros Hn; [done|]. apply not_elem_of_cons in Hn as [Hc Hn].
  cbn [app find_sub length]. rewrite (IH Hn).
  assert (starts_with CRLF (c :: line ++ CRLF ++ r) = false) as ->; [|done].
  cbn [starts_with CRLF]. apply andb_false_iff. left. by apply Z.eqb_neq.
Qed.

(** Reading chunks until [enough]: the bytes are only moved from the reads to the buffer. *)
Lemma fill_enough enough buffer cs tl :
  (forall a b, enough a = true -> enough (a ++ b) = true) -> enough (buffer ++ mjoin cs) = true ->
  exists buffer' cs', fill enough buffer ((Ok ∘ Chunk <$> cs) ++ tl) = (Some (Ok (false, buffer')), (Ok ∘ Chunk <$> cs') ++ tl) /\
    buffer' ++ mjoin cs' = buffer ++ mjoin cs /\ enough buffer' = true /\ cs' `suffix_of` cs.
Proof.
  intros Hmono. revert buffer. induction cs as [|c cs IH]; intros buffer He.
  - cbn in He. rewrite app_nil_r in He. exists buffer, []. split; [|by split_and!].
    destruct tl; cbn; by rewrite He.
  - cbn [fmap list_fmap app fill]. destruct (enough buffer) eqn:Eb; [exists buffer, (c :: cs); by split_and!|].
    cbn [mjoin list_join] in He. rewrite app_assoc in He. destruct (IH _ He) as (b' & cs' & E1 & E2 & E3 & E4).
    exists b', cs'. split; [exact E1|]. split_and!; [|done|by apply suffix_cons_r]. rewrite E2. cbn. by rewrite app_assoc.
Qed.

Lemma fill_eof enough buffer cs tl :
  exists e buffer' rest,
    fill enough buffer ((Ok ∘ Chunk <$> cs) ++ Ok Eof :: tl) = (Some (Ok (e, buffer')), rest).
Proof.
  revert buffer. induction cs as [|c cs IH]; intros buffer; cbn [fmap list_fmap app fill].
  - destruct (enough buffer); eauto.
  - destruct (enough buffer); [eauto|apply IH].
Qed.

Lemma find_sub_mono p a b :
  bool_decide (is_Some (find_sub p a)) = true -> bool_decide (is_Some (find_sub p (a ++ b))) = true.
Proof. rewrite !bool_decide_eq_true. intros [k H]. exists k. by apply find_sub_app. Qed.

Definition with_reads (r : list (result ErrorKind Data)) (s : Proxy) : Proxy :=
  mkProxy r (px_writes s) (px_server s) (px_client s).
Definition push (l : list ProxyEvent) (s : Proxy) : Proxy :=
  mkProxy (px_reads s) (px_writes s) (px_server s) (px_client s ++ l).

Lemma push_push l k s : push k (push l s) = push (l ++ k) s.
Proof. unfold push. cbn. by rewrite app_assoc. Qed.

Lemma push_nil s : push [] s = s.
Proof. destruct s. unfold push. cbn. by rewrite app_nil_r. Qed.

Lemma need_more_ok enough buffer cs tl s :
  (forall a b, enough a = true -> enough (a ++ b) = true) -> enough (buffer ++ mjoin cs) = true ->
  px_reads s = (Ok ∘ Chunk <$> cs) ++ tl ->
  exists buffer' cs', need_more enough buffer s = Ret (Some (Ok (false, buffer')), with_reads ((Ok ∘ Chunk <$> cs') ++ tl) s) /\
    buffer' ++ mjoin cs' = buffer ++ mjoin cs /\ enough buffer' = true /\ cs' `suffix_of` cs.
Proof.
  intros Hm He Hr. destruct (fill_enough enough buffer cs tl Hm He) as (b' & cs' & E1 & E2 & E3).
  exists b', cs'. split; [|done]. unfold need_more. by rewrite Hr, E1.
Qed.

(** Without failures [write_all] delivers its data, in one piece or none. *)
Lemma client_write_all_ok data s : px_writes s = [] ->
  exists parts, mjoin parts = data /\ client_write_all data s = Ret (Some (Ok tt), push (PxBody <$> parts) s).
Proof.
  intros Hw. unfold client_write_all, next_write. rewrite Hw. destruct data as [|x d].
  - exists []. by rewrite push_nil.
  - exists [x :: d]. cbn. rewrite app_nil_r. split; [done|]. unfold push. by rewrite Hw.
Qed.

Lemma app_split_len {A} (a b c d : list A) :
  a ++ b = c ++ d -> (length c <= length a)%nat -> exists x, a = c ++ x /\ x ++ b = d.
Proof.
  intros E Hl. destruct (app_eq_inv _ _ _ _ E) as [(x & -> & ->)|(x & -> & ->)]; [by exists x|].
  rewrite length_app in Hl. destruct x; [|cbn in Hl; lia]. exists []. by rewrite !app_nil_r.
Qed.

Lemma take_line line : take (length (line ++ CRLF) - 2) (line ++ CRLF) = line.
Proof. rewrite length_app. cbn. rewrite Nat.add_sub. apply take_app_length. Qed.

(** *** The chunked coding on the wire *)

(** A line that gives the size of a chunk, in any spelling the code accepts. *)
Definition size_line_ok (line : bytes) (n : Z) : Prop := 13 ∉ line /\ parse_chunk_line line = Some n.

(** A chunk: its line and its data. *)
Definition wire_chunk (c : bytes * bytes) : bytes := c.1 ++ CRLF ++ c.2 ++ CRLF.

Definition wf_wire_chunk (c : bytes * bytes) : Prop :=
  size_line_ok c.1 (len c.2) /\ c.2 <> [] /\ len c.2 < 2 ^ 64 - 2.

Definition wire_body (l : list (bytes * bytes)) : bytes := mjoin (snd <$> l).

Lemma wire_chunks_length l : Forall wf_wire_chunk l -> (length l <= length (mjoin (wire_chunk <$> l)))%nat.
Proof.
  induction 1 as [|c l _ _ IH]; [done|].
  rewrite fmap_cons. change (mjoin (wire_chunk c :: (wire_chunk <$> l))) with (wire_chunk c ++ mjoin (wire_chunk <$> l)).
  rewrite length_app.
  unfold wire_chunk at 1, CRLF. rewrite !length_app. cbn [length]. lia.
Qed.

Lemma reads_bytes_chunks (cs : list bytes) : reads_bytes (Ok ∘ Chunk <$> cs) = mjoin cs.
Proof. unfold reads_bytes. induction cs as [|c cs IH]; [done|]. cbn. by rewrite IH. Qed.

Section chunked.
Context (env : ProxyEnv) (respond_ok : pe_respond env = Ok tt) (eof_ok : pe_eof env = Ok tt).
Context (response : ResponseHeaders).

Definition with_length (n : Z) : ResponseHeaders :=
  set_response_headers (header_insert (str "content-length") (decimal n) (rp_headers response)) response.

(** What the client's side is asked for until the end, when [bb] was buffered before. *)
Definition relayed (opened : bool) (bb body : bytes) (l : list ProxyEvent) : Prop :=
  exists parts, mjoin parts = bb ++ body /\
    l = (if opened then []
         else [PxRespond (if H3_BUFFERED_BODY_LIMIT <? len (bb ++ body) then response else with_length (len (bb ++ body))) false])
        ++ (PxBody <$> parts).

Lemma client_event_ok e s : client_event (Ok tt) e s = Ret (Some (Ok tt), push [e] s).
Proof. done. Qed.

(** How the end of the body shows: the server closes the connection; or trailers end with
    an empty line; or, without trailers, the empty line is not cut off from the last size
    line, since the read that brings it has more than its two bytes. *)
Definition body_ends (rest : bytes) (cs : list bytes) (tl : list (result ErrorKind Data)) : Prop :=
  (exists tl', tl = Ok Eof :: tl') \/ is_Some (find_sub (CRLF ++ CRLF) rest) \/
  (rest = CRLF /\ forall x, last cs = Some x -> (2 < length x)%nat).

Lemma short_rest_read buffer cs :
  buffer ++ mjoin cs = CRLF -> (forall x, last cs = Some x -> (2 < length x)%nat) -> cs = [].
Proof.
  intros E Hl. destruct cs as [|x cs _] using rev_ind; [done|]. rewrite last_snoc in Hl. specialize (Hl x eq_refl).
  rewrite join_app in E. apply (f_equal length) in E. rewrite !length_app in E. cbn in E. rewrite app_nil_r in E. lia.
Qed.

Lemma body_ends_suffix rest cs cs' tl : cs' `suffix_of` cs -> body_ends rest cs tl -> body_ends rest cs' tl.
Proof.
  intros [k ->] [H|[H|[H Hl]]]; [by left|by right; left|right; right]. split; [done|]. intros x Hx. apply Hl.
  by rewrite last_app, Hx.
Qed.

Lemma finish_chunked_ok opened bb buffer cs tl s :
  px_reads s = (Ok ∘ Chunk <$> cs) ++ tl -> px_writes s = [] ->
  (opened = true -> bb = []) -> len bb <= H3_BUFFERED_BODY_LIMIT ->
  body_ends (buffer ++ mjoin cs) cs tl ->
  exists l r, finish_chunked env response opened bb buffer s = Ret (Some (Ok tt), push (l ++ [PxEof]) (with_reads r s)) /\
    relayed opened bb [] l.
Proof.
  intros Hr Hw Ho Hb Hend.
  assert (exists x r, (if starts_with CRLF buffer then pret (false, buffer)
      else need_more (fun b => bool_decide (is_Some (find_sub (CRLF ++ CRLF) b))) buffer) s
      = Ret (Some (Ok x), with_reads r s)) as (x & r & Hskip).
  { destruct (starts_with CRLF buffer) eqn:Es; [by exists (false, buffer), (px_reads s); destruct s|].
    destruct Hend as [[tl' ->]|[Hend|[Hrest Hlast]]].
    - destruct (fill_eof (fun b => bool_decide (is_Some (find_sub (CRLF ++ CRLF) b))) buffer cs tl') as (e & b' & r & E).
      exists (e, b'), r. unfold need_more. by rewrite Hr, E.
    - destruct (need_more_ok (fun b => bool_decide (is_Some (find_sub (CRLF ++ CRLF) b))) buffer cs tl s)
        as (b' & cs' & E & _); [apply find_sub_mono|by apply bool_decide_eq_true|done|eauto].
    - exfalso. assert (cs = []) as -> by (by eapply short_rest_read). cbn in Hrest. rewrite app_nil_r in Hrest. by rewrite Hrest in Es. }
  unfold finish_chunked. unfold pbind at 1. rewrite Hskip. destruct opened.
  - rewrite (Ho eq_refl) in *. exists [], r. unfold pbind, pret. rewrite eof_ok, client_event_ok. split; [done|].
    by exists [].
  - destruct (client_write_all_ok bb (push [PxRespond (with_length (len bb)) false] (with_reads r s)) Hw)
      as (parts & Hp & Ew).
    exists (PxRespond (with_length (len bb)) false :: (PxBody <$> parts)), r.
    unfold pbind, ensure_client_sink. rewrite respond_ok, eof_ok, client_event_ok. fold (with_length (len bb)).
    rewrite Ew, client_event_ok, !push_push. cbn [app]. split; [done|].
    exists parts. rewrite app_nil_r. split; [done|]. destruct (Z.ltb_spec H3_BUFFERED_BODY_LIMIT (len bb)); [lia|done].
Qed.

Lemma forward_chunk_ok opened bb data s :
  px_writes s = [] -> (opened = true -> bb = []) -> len bb <= H3_BUFFERED_BODY_LIMIT ->
  exists l opened' bb', forward_chunk env response opened bb data s = Ret (Some (Ok (opened', bb')), push l s) /\
    (opened' = true -> bb' = []) /\ len bb' <= H3_BUFFERED_BODY_LIMIT /\
    forall body k, relayed opened' bb' body k -> relayed opened bb (data ++ body) (l ++ k).
Proof.
  intros Hw Ho Hb. unfold forward_chunk. destruct opened.
  - rewrite (Ho eq_refl) in *. destruct (client_write_all_ok data s Hw) as (parts & Hp & Ew).
    exists (PxBody <$> parts), true, []. unfold pbind. rewrite Ew. split_and!; [done|done|exact Hb|].
    intros body k (ps & Hps & ->). exists (parts ++ ps). rewrite join_app, Hp, Hps, fmap_app. done.
  - destruct (Z.ltb_spec H3_BUFFERED_BODY_LIMIT (len (bb ++ data))) as [Hl|Hl].
    + destruct (client_write_all_ok (bb ++ data) (push [PxRespond response false] s) Hw) as (parts & Hp & Ew).
      exists (PxRespond response false :: (PxBody <$> parts)), true, [].
      unfold pbind, ensure_client_sink. rewrite respond_ok, client_event_ok, Ew, push_push. split_and!; [done|done|unfold len, H3_BUFFERED_BODY_LIMIT; cbn; lia|].
      intros body k (ps & Hps & ->). exists (parts ++ ps). rewrite join_app, Hp, Hps, fmap_app. cbn [app].
      split; [by rewrite <- app_assoc|].
      assert (H3_BUFFERED_BODY_LIMIT <? len (bb ++ data ++ body) = true) as ->; [|done].
      apply Z.ltb_lt. rewrite app_assoc, len_app. pose proof (len_nonneg body). lia.
    + exists [], false, (bb ++ data). rewrite push_nil. split_and!; [done|done|done|].
      intros body k (ps & Hps & ->). exists ps. rewrite app_assoc. done.
Qed.

(** Reading a line. *)
Lemma next_line_ok line rest buffer cs tl s :
  13 ∉ line -> buffer ++ mjoin cs = line ++ CRLF ++ rest -> px_reads s = (Ok ∘ Chunk <$> cs) ++ tl ->
  exists b' cs', b' ++ mjoin cs' = rest /\ cs' `suffix_of` cs /\ forall A (k : bytes -> bytes -> P A),
    (let* (eof, buffer) := need_more (fun b => bool_decide (is_Some (find_sub CRLF b))) buffer in
     if eof then perr UnexpectedEof
     else let* (line, buffer) := plift (split_to (Z.of_nat (default O (find_sub CRLF buffer)) + 2) buffer) in k line buffer) s
    = k (line ++ CRLF) b' (with_reads ((Ok ∘ Chunk <$> cs') ++ tl) s).
Proof.
  intros Hline Hwire Hr.
  destruct (need_more_ok (fun b => bool_decide (is_Some (find_sub CRLF b))) buffer cs tl s) as (b1 & cs' & E1 & E2 & E3 & E4);
    [apply find_sub_mono|apply bool_decide_eq_true; rewrite Hwire, find_crlf_line by done; eauto|done|].
  apply bool_decide_eq_true in E3 as [n Hn]. rewrite Hwire in E2.
  assert (n = length line) as ->.
  { apply (find_sub_app _ _ (mjoin cs')) in Hn as Hn'. rewrite E2, find_crlf_line in Hn' by done. congruence. }
  pose proof (find_sub_length _ _ _ Hn) as Hl. cbn in Hl. rewrite app_assoc in E2.
  destruct (app_split_len _ _ _ _ E2) as (x & Eb & Ec); [rewrite length_app; cbn; lia|].
  exists x, cs'. split; [done|]. split; [done|]. intros A k. unfold pbind at 1. rewrite E1. unfold pbind, plift.
  rewrite Hn, Eb. cbn [default]. rewrite split_to_app' by (unfold len; rewrite length_app; cbn; lia). done.
Qed.

(** Reading the data of a chunk and its line end. *)
Lemma chunk_data_ok data rest buffer cs tl s :
  len data < 2 ^ 64 - 2 -> buffer ++ mjoin cs = data ++ CRLF ++ rest -> px_reads s = (Ok ∘ Chunk <$> cs) ++ tl ->
  exists b' cs', b' ++ mjoin cs' = rest /\ cs' `suffix_of` cs /\ forall A (k : bytes -> bytes -> P A),
    (let* (eof, buffer) := need_more (fun b => as_u64 (len data + 2) <=? len b) buffer in
     if eof then perr UnexpectedEof
     else let* (data, buffer) := plift (split_to (len data) buffer) in
          let* (_, buffer) := plift (split_to 2 buffer) in k data buffer) s
    = k data b' (with_reads ((Ok ∘ Chunk <$> cs') ++ tl) s).
Proof.
  intros Hmax Hwire Hr. pose proof (len_nonneg data).
  assert (as_u64 (len data + 2) = len data + 2) as -> by (unfold as_u64; apply Z.mod_small; lia).
  destruct (need_more_ok (fun b => len data + 2 <=? len b) buffer cs tl s) as (b1 & cs' & E1 & E2 & E3 & E4);
    [intros a b; rewrite len_app, !Z.leb_le; pose proof (len_nonneg b); lia
    |rewrite Hwire, !len_app; apply Z.leb_le; pose proof (len_nonneg rest); unfold CRLF; len_lia|done|].
  apply Z.leb_le in E3. rewrite Hwire, app_assoc in E2.
  destruct (app_split_len _ _ _ _ E2) as (x & Eb & Ec); [rewrite length_app; unfold len in E3; cbn; lia|].
  exists x, cs'. split; [done|]. split; [done|]. intros A k. unfold pbind at 1. rewrite E1. unfold pbind, plift.
  rewrite Eb, <- app_assoc, split_to_app. rewrite (split_to_app' 2 CRLF) by done. done.
Qed.

(** The loop on a well-formed chunked body, however it is cut. *)
Lemma chunk_loop_ok chunks last rest tl fuel opened bb buffer cs s :
  Forall wf_wire_chunk chunks -> size_line_ok last 0 ->
  buffer ++ mjoin cs = mjoin (wire_chunk <$> chunks) ++ last ++ CRLF ++ rest ->
  px_reads s = (Ok ∘ Chunk <$> cs) ++ tl -> px_writes s = [] ->
  body_ends rest cs tl ->
  (opened = true -> bb = []) -> len bb <= H3_BUFFERED_BODY_LIMIT -> (length chunks < fuel)%nat ->
  exists l r, chunk_loop env fuel response opened bb buffer s = Ret (Some (Ok tt), push (l ++ [PxEof]) (with_reads r s)) /\
    relayed opened bb (wire_body chunks) l.
Proof.
  intros Hwf [Hlast Hzero]. revert fuel opened bb buffer cs s.
  induction Hwf as [|[line data] chunks [[Hline Hsize] [Hne Hmax]] _ IH];
    intros fuel opened bb buffer cs s Hwire Hr Hw Hend Ho Hb Hf; (destruct fuel as [|fuel]; [cbn in Hf; lia|]);
    cbn [chunk_loop].
  - cbn [fmap list_fmap mjoin list_join app] in Hwire.
    destruct (next_line_ok last rest buffer cs tl s) as (b' & cs' & Hrest & Hsuf & Eline); [done..|]. rewrite Eline.
    rewrite take_line, Hzero. cbn [Z.eqb]. 
    edestruct (finish_chunked_ok opened bb b' cs' tl (with_reads ((Ok ∘ Chunk <$> cs') ++ tl) s)) as (l & r & E & Hl);
      [done..|rewrite Hrest; by eapply body_ends_suffix|]. exists l, r. by rewrite E.
  - cbn [fmap list_fmap mjoin list_join] in Hwire. unfold wire_chunk in Hwire at 1. cbn [fst snd] in *.
    rewrite <- !app_assoc in Hwire.
    destruct (next_line_ok line _ buffer cs tl s Hline Hwire Hr) as (b' & cs' & Hrest & Hsuf & Eline). rewrite Eline.
    rewrite take_line, Hsize. destruct (Z.eqb_spec (len data) 0) as [Hz|_].
    { destruct Hne. apply len_nil_inv. lia. }
    destruct (chunk_data_ok data _ b' cs' tl (with_reads ((Ok ∘ Chunk <$> cs') ++ tl) s) Hmax Hrest eq_refl)
      as (b2 & cs2 & Hrest2 & Hsuf2 & Edata).
    rewrite Edata.
    destruct (forward_chunk_ok opened bb data (with_reads ((Ok ∘ Chunk <$> cs2) ++ tl) s) Hw Ho Hb)
      as (l & opened' & bb' & E & Ho' & Hb' & Hl).
    change (with_reads ((Ok ∘ Chunk <$> cs2) ++ tl) (with_reads ((Ok ∘ Chunk <$> cs') ++ tl) s))
      with (with_reads ((Ok ∘ Chunk <$> cs2) ++ tl) s).
    unfold pbind. rewrite E.
    destruct (IH fuel opened' bb' b2 cs2 (push l (with_reads ((Ok ∘ Chunk <$> cs2) ++ tl) s))) as (k & r & E' & Hk);
      [done..|by eapply body_ends_suffix, body_ends_suffix|done|done|cbn in Hf; lia|].
    exists (l ++ k), r. rewrite E'. split; [unfold push, with_reads; cbn; by rewrite !app_assoc|].
    unfold wire_body. cbn. by apply Hl.
Qed.

End chunked.

(** *** Header maps and numbers *)

Lemma header_get_app h k n : header_get (h ++ k) n = match header_get h n with Some v => Some v | None => header_get k n end.
Proof. unfold header_get. induction h as [|[a b] h IH]; cbn; [done|]. by case_bool_decide. Qed.

Lemma header_remove_get n h m : header_get (header_remove n h) m = if bool_decide (m = n) then None else header_get h m.
Proof.
  unfold header_get, header_remove. induction h as [|[a b] h IH]; cbn [List.filter]; [cbn; by case_bool_decide|].
  cbn [fst List.find]. destruct (decide (a = n)) as [->|Ha].
  - rewrite (bool_decide_eq_true_2 (n = n)) by done. cbn [negb]. rewrite IH.
    destruct (decide (m = n)) as [->|Hm]; [by rewrite !bool_decide_eq_true_2|].
    by rewrite !bool_decide_eq_false_2 by congruence.
  - rewrite (bool_decide_eq_false_2 (a = n)) by done. cbn [negb List.find fst].
    destruct (decide (a = m)) as [->|Hm]; [|by rewrite (bool_decide_eq_false_2 (a = m))].
    by rewrite (bool_decide_eq_true_2 (m = m)), (bool_decide_eq_false_2 (m = n)).
Qed.

Lemma header_insert_get n v h m : header_get (header_insert n v h) m = if bool_decide (m = n) then Some v else header_get h m.
Proof.
  unfold header_insert. rewrite header_get_app, header_remove_get. unfold header_get at 2. cbn. case_bool_decide.
  - subst. by rewrite bool_decide_eq_true_2.
  - rewrite bool_decide_eq_false_2 by congruence. cbn. by destruct (header_get h m).
Qed.

(** An inserted field is the only one of its name. *)
Lemma header_insert_only n v h x : (n, x) ∈ header_insert n v h -> x = v.
Proof.
  unfold header_insert, header_remove. rewrite elem_of_app, list_elem_of_singleton, list_elem_of_In, filter_In.
  intros [[_ H]|H]; [by rewrite bool_decide_eq_true_2 in H|congruence].
Qed.

Lemma header_remove_none h l m : header_get h m = None -> header_get (fold_left (fun h n => header_remove n h) l h) m = None.
Proof.
  revert h. induction l as [|n l IH]; intros h Hh; cbn; [done|]. apply IH. rewrite header_remove_get. by case_bool_decide.
Qed.

Lemma strip_hop_by_hop_get h m : m ∈ hop_by_hop -> header_get (strip_hop_by_hop h) m = None.
Proof.
  unfold strip_hop_by_hop. generalize hop_by_hop as l. intros l. revert h.
  induction l as [|n l IH]; intros h; [by intros ?%elem_of_nil|].
  cbn. intros [->|H]%elem_of_cons; [|by apply IH]. apply header_remove_none. rewrite header_remove_get.
  by rewrite bool_decide_eq_true_2.
Qed.

Lemma strip_hop_by_hop_other h m : m ∉ hop_by_hop -> header_get (strip_hop_by_hop h) m = header_get h m.
Proof.
  unfold strip_hop_by_hop. generalize hop_by_hop as l. intros l. revert h.
  induction l as [|n l IH]; intros h; cbn [fold_left]; [done|]. intros [H1 H2]%not_elem_of_cons. rewrite IH by done.
  rewrite header_remove_get. by rewrite bool_decide_eq_false_2.
Qed.

Definition digits_value (a : Z) (l : bytes) : Z := fold_left (fun a c => a * 10 + (c - 0x30)) l a.

Lemma decimal_digits_spec fuel n acc :
  0 <= n < 10 ^ Z.of_nat fuel -> (0 < fuel)%nat ->
  exists ds, decimal_digits fuel n acc = ds ++ acc /\ ds <> [] /\ forallb is_digit ds = true /\ digits_value 0 ds = n.
Proof.
  revert n acc. induction fuel as [|fuel IH]; intros n acc Hn Hf; [lia|]. cbn [decimal_digits].
  pose proof (Z.mod_pos_bound n 10). pose proof (Z.div_mod n 10).
  assert (is_digit (0x30 + n mod 10) = true) as Hd by (unfold is_digit; apply andb_true_iff; rewrite !Z.leb_le; lia).
  destruct (Z.eqb_spec (n / 10) 0) as [E|E].
  - exists [0x30 + n mod 10]. split_and!; [done|done|cbn; by rewrite Hd|]. unfold digits_value. cbn [fold_left]. lia.
  - destruct fuel as [|fuel]; [cbn in Hn; lia|].
    destruct (IH (n / 10) ((0x30 + n mod 10) :: acc)) as (ds & E1 & E2 & E3 & E4); [|lia|].
    { rewrite Nat2Z.inj_succ, Z.pow_succ_r in Hn by lia. lia. }
    exists (ds ++ [0x30 + n mod 10]). rewrite E1, <- app_assoc. split_and!; [done|by destruct ds|by rewrite forallb_app, E3; cbn; rewrite Hd|].
    unfold digits_value in *. rewrite fold_left_app, E4. cbn [fold_left]. lia.
Qed.

(** The length the proxy announces is read back as that length. *)
Lemma decimal_parse n : 0 <= n < 2 ^ 64 -> parse_u64 (decimal n) = Some n.
Proof.
  intros Hn. destruct (decimal_digits_spec 20 n []) as (ds & E1 & E2 & E3 & E4); [lia|lia|].
  unfold decimal. rewrite E1, app_nil_r. unfold parse_u64.
  assert (match ds with 0x2B :: r => r | r => r end = ds) as ->.
  { destruct ds as [|c ds]; [done|]. cbn in E3. apply andb_true_iff in E3 as [Hc _]. unfold is_digit in Hc.
    apply andb_true_iff in Hc as [Hc _]. apply Z.leb_le in Hc.
    destruct c as [|c|c]; [lia| |lia]. do 6 (destruct c as [c|c|]; try done; try lia). }
  rewrite E3. destruct ds as [|c ds]; [done|]. change (fold_left _ (c :: ds) 0) with (digits_value 0 (c :: ds)).
  rewrite E4. destruct (Z.eqb_spec (len (c :: ds)) 0) as [Hx|_]; [rewrite len_cons in Hx; pose proof (len_nonneg ds); lia|].
  cbn [negb andb]. destruct (Z.ltb_spec n (2 ^ 64)); [done|lia].
Qed.

(** *** What a computation asks of the client's side *)

Definition succ {A} (r : option (result ErrorKind A)) : option A :=
  match r with Some (Ok x) => Some x | _ => None end.

(** [Q] holds of the outcome, [None] if it is not a success, and of the events emitted. *)
Definition emits {A} (m : P A) (Q : option A -> list ProxyEvent -> Prop) : Prop :=
  forall s r s', m s = Ret (r, s') -> exists l, px_client s' = px_client s ++ l /\ Q (succ r) l.

Definition silent {A} (m : P A) : Prop := emits m (fun _ l => l = []).

Lemma emits_weaken {A} (m : P A) (Q R : option A -> list ProxyEvent -> Prop) :
  emits m Q -> (forall o l, Q o l -> R o l) -> emits m R.
Proof. intros H HQ s r s' E. destruct (H s r s' E) as (l & El & Hl). eauto. Qed.

Lemma emits_bind {A B} (m : P A) (f : A -> P B) Q R :
  emits m Q -> (forall l, Q None l -> R None l) ->
  (forall x l, Q (Some x) l -> emits (f x) (fun o k => R o (l ++ k))) -> emits (pbind m f) R.
Proof.
  intros Hm Hf Hs s r s' E. unfold pbind in E. destruct (m s) as [[[[x|e]|] s1]|] eqn:Em; [| | |done];
    destruct (Hm _ _ _ Em) as (l & El & Hl).
  - destruct (Hs x l Hl s1 r s' E) as (k & Ek & Hk). exists (l ++ k). by rewrite Ek, El, app_assoc.
  - injection E as <- <-. exists l. auto.
  - injection E as <- <-. exists l. auto.
Qed.

(** After a silent computation. *)
Lemma emits_silent {A B} (m : P A) (f : A -> P B) R :
  silent m -> R None [] -> (forall x, emits (f x) R) -> emits (pbind m f) R.
Proof.
  intros Hm Hn Hf. eapply emits_bind; [exact Hm|by intros l ->|]. intros x l ->. exact (Hf x).
Qed.

Lemma pret_emits {A} (x : A) (Q : option A -> list ProxyEvent -> Prop) : Q (Some x) [] -> emits (pret x) Q.
Proof. intros H s r s' [= <- <-]. exists []. by rewrite app_nil_r. Qed.

Lemma perr_emits {A} e (Q : option A -> list ProxyEvent -> Prop) : Q None [] -> emits (perr e) Q.
Proof. intros H s r s' [= <- <-]. exists []. by rewrite app_nil_r. Qed.

Lemma client_event_emits r e (Q : option unit -> list ProxyEvent -> Prop) :
  Q None [] -> Q (Some tt) [e] -> emits (client_event r e) Q.
Proof.
  intros H1 H2 s x s'. unfold client_event. destruct r as [[]|err]; intros [= <- <-]; [by exists [e]|].
  exists []. by rewrite app_nil_r.
Qed.

Lemma client_write_emits data (Q : option unit -> list ProxyEvent -> Prop) :
  (forall o, Q o []) -> (forall o k, Q o [PxBody k]) -> emits (client_write_all data) Q.
Proof.
  intros H1 H2 s r s'. unfold client_write_all. destruct data as [|x d]; [intros [= <- <-]; exists []; by rewrite app_nil_r|].
  destruct (next_write (x :: d) s) as [[k w] ws]. intros [= <- <-]. exists [PxBody k]. auto.
Qed.

Lemma plift_silent {A} (m : M A) : silent (plift m).
Proof. intros s r s'. unfold plift. destruct m; [|done]. intros [= <- <-]. exists []. by rewrite app_nil_r. Qed.

Lemma server_read_silent : silent server_read.
Proof. intros s r s'. unfold server_read. destruct (px_reads s); intros [= <- <-]; exists []; by rewrite app_nil_r. Qed.

Lemma server_write_silent d : silent (server_write_all d).
Proof.
  intros s r s'. unfold server_write_all. destruct d as [|x d]; [intros [= <- <-]; exists []; by rewrite app_nil_r|].
  destruct (next_write (x :: d) s) as [[k w] ws]. intros [= <- <-]; exists []; by rewrite app_nil_r.
Qed.

Lemma need_more_silent enough b : silent (need_more enough b).
Proof. intros s r s'. unfold need_more. destruct (fill _ _ _). intros [= <- <-]; exists []; by rewrite app_nil_r. Qed.

Lemma receive_head_silent pr ok : silent (receive_head pr ok).
Proof.
  intros s r s'. unfold receive_head. destruct (read_response _ _ _ _) as [[x y]|]; [|done]. intros [= <- <-]; exists [].
  by rewrite app_nil_r.
Qed.

Create HintDb proxy.
#[export] Hint Resolve plift_silent server_read_silent server_write_silent need_more_silent receive_head_silent : proxy.

(** *** The order of the events *)

(** After the response: pieces of the body, then at most one end. *)
Definition body_trace (l : list ProxyEvent) : Prop :=
  exists parts tl, l = (PxBody <$> parts) ++ tl /\ (tl = [] \/ tl = [PxEof]).

Definition bodies (l : list ProxyEvent) : Prop := exists parts, l = PxBody <$> parts.

Lemma bodies_nil : bodies [].
Proof. by exists []. Qed.
Lemma bodies_one k : bodies [PxBody k].
Proof. by exists [k]. Qed.
Lemma bodies_app l k : bodies l -> bodies k -> bodies (l ++ k).
Proof. intros [p ->] [q ->]. exists (p ++ q). by rewrite fmap_app. Qed.
Lemma bodies_trace l : bodies l -> body_trace l.
Proof. intros [p ->]. exists p, []. rewrite app_nil_r. auto. Qed.
Lemma body_trace_app l k : bodies l -> body_trace k -> body_trace (l ++ k).
Proof. intros [p ->] (q & tl & -> & H). exists (p ++ q), tl. by rewrite fmap_app, app_assoc. Qed.
Lemma body_trace_eof : body_trace [PxEof].
Proof. exists [], [PxEof]. auto. Qed.

#[export] Hint Resolve bodies_nil bodies_one bodies_app bodies_trace body_trace_app body_trace_eof : proxy.

Section order.
Context (env : ProxyEnv) (good : ResponseHeaders -> Prop).

(** The events of a stream from the start, or after the response. *)
Definition stream_trace (opened : bool) (l : list ProxyEvent) : Prop :=
  if opened then body_trace l
  else l = [] \/ exists r k, good r /\ l = PxRespond r false :: k /\ body_trace k.

Lemma stream_trace_nil opened : stream_trace opened [].
Proof. destruct opened; [apply bodies_trace, bodies_nil|by left]. Qed.

Lemma opened_trace r l : good r -> body_trace l -> stream_trace false (PxRespond r false :: l).
Proof. intros H1 H2. right. eauto. Qed.

Hint Resolve stream_trace_nil opened_trace : proxy.
Context (with_length_good : forall r n, good r -> good (with_length r n)).

Lemma finish_chunked_emits r opened bb buffer :
  good r -> emits (finish_chunked env r opened bb buffer) (fun _ l => stream_trace opened l).
Proof.
  intros Hr. unfold finish_chunked. apply emits_silent; [|apply stream_trace_nil|intros _].
  { destruct (starts_with _ _); [by apply pret_emits|apply need_more_silent]. }
  destruct opened.
  - apply emits_silent; [by apply pret_emits|apply (stream_trace_nil true)|intros _].
    apply client_event_emits; cbn; eauto with proxy.
  - eapply (emits_bind _ _ (fun o l => match o with
      | None => stream_trace false l | Some _ => exists k, l = PxRespond (with_length r (len bb)) false :: k /\ bodies k end)); [|done|].
    + cbn [ensure_client_sink].
      eapply (emits_bind _ _ (fun o l => match o with None => l = [] | Some _ => l = [PxRespond (with_length r (len bb)) false] end));
        [by apply client_event_emits|intros l ->; apply (stream_trace_nil false)|].
      intros _ l ->. apply client_write_emits; intros [o|]; cbn [app]; eauto 6 with proxy.
    + intros _ l (k & -> & Hk). apply client_event_emits; cbn [app]; eauto with proxy.
Qed.

(** What the loop knows of the response after a chunk. *)
Lemma forward_chunk_emits r opened bb data :
  good r -> emits (forward_chunk env r opened bb data) (fun o l =>
    stream_trace opened l /\ forall x, o = Some x -> forall k, stream_trace x.1 k -> stream_trace opened (l ++ k)).
Proof.
  intros Hr. unfold forward_chunk. destruct opened.
  - eapply (emits_bind _ _ (fun _ l => bodies l)); [apply client_write_emits; eauto with proxy|intros l Hl; split; [by apply bodies_trace|done]|].
    intros _ l Hl. apply pret_emits. rewrite app_nil_r. split; [by apply bodies_trace|].
    intros x [= <-] k Hk. by apply body_trace_app.
  - destruct (_ <? _); [|apply pret_emits; split; [apply stream_trace_nil|by intros x [= <-] k]].
    eapply (emits_bind _ _ (fun o l => match o with None => l = [] | Some _ => l = [PxRespond r false] end));
      [by apply client_event_emits|intros l ->; split; [apply stream_trace_nil|done]|].
    intros _ l ->. eapply (emits_bind _ _ (fun _ l => bodies l)); [apply client_write_emits; eauto with proxy| |].
    + intros l Hl. split; [|done]. apply opened_trace; eauto with proxy.
    + intros _ l Hl. apply pret_emits. rewrite app_nil_r. split; [apply opened_trace; eauto with proxy|].
      intros x [= <-] k Hk. cbn [app]. apply opened_trace; [done|]. by apply body_trace_app.
Qed.

Lemma chunk_loop_emits fuel r opened bb buffer :
  good r -> emits (chunk_loop env fuel r opened bb buffer) (fun _ l => stream_trace opened l).
Proof.
  intros Hr. revert opened bb buffer. induction fuel as [|fuel IH]; intros opened bb buffer; [by intros s x s'|].
  cbn [chunk_loop]. apply emits_silent; [apply need_more_silent|apply stream_trace_nil|intros [[] b1]].
  { apply perr_emits, stream_trace_nil. }
  apply emits_silent; [apply plift_silent|apply stream_trace_nil|intros [line b2]].
  destruct (parse_chunk_line _) as [size|]; [|apply perr_emits, stream_trace_nil].
  destruct (size =? 0); [by apply finish_chunked_emits|].
  apply emits_silent; [apply need_more_silent|apply stream_trace_nil|intros [[] b3]].
  { apply perr_emits, stream_trace_nil. }
  apply emits_silent; [apply plift_silent|apply stream_trace_nil|intros [data b4]].
  apply emits_silent; [apply plift_silent|apply stream_trace_nil|intros [e b5]].
  eapply emits_bind; [by apply forward_chunk_emits|by intros l [H _]|].
  intros [opened' bb'] l [_ Hl]. eapply emits_weaken; [apply IH|]. intros o k Hk. by eapply (Hl _ eq_refl).
Qed.

Lemma relay_remaining_emits remaining fuel : emits (relay_remaining remaining fuel) (fun _ l => bodies l).
Proof.
  revert remaining. induction fuel as [|fuel IH]; intros remaining; cbn [relay_remaining].
  - destruct (_ <=? _); [apply pret_emits; eauto with proxy|by intros s x s'].
  - destruct (_ <=? _); [apply pret_emits; eauto with proxy|].
    apply emits_silent; [eauto with proxy..|intros [c|]; [|apply pret_emits; eauto with proxy]].
    eapply (emits_bind _ _ (fun _ l => bodies l)); [apply client_write_emits; eauto with proxy|done|].
    intros _ l Hl. eapply emits_weaken; [apply IH|]. intros o k Hk. by apply bodies_app.
Qed.

Lemma relay_streamed_emits r chunk cl :
  good r -> emits (relay_streamed env r chunk cl) (fun _ l => stream_trace false l).
Proof.
  intros Hr. unfold relay_streamed.
  eapply (emits_bind _ _ (fun o l => match o with None => l = [] | Some _ => l = [PxRespond r false] end));
    [by apply client_event_emits|intros l ->; apply (stream_trace_nil false)|].
  intros _ l ->. eapply (emits_bind _ _ (fun _ l => bodies l)); [apply client_write_emits; eauto with proxy| |].
  { intros l Hl. apply opened_trace; eauto with proxy. }
  intros _ l Hl.
  assert (emits (exchange_result (pe_exchange env)) (fun _ k => body_trace (l ++ k))) as Hx.
  { intros s x s'. unfold exchange_result. destruct (pe_exchange env) as [x0|]; cbn [bindM]; [|done]. intros [= <- <-].
    eexists. split; [reflexivity|]. apply body_trace_app; [done|].
    exists [ex_to_client x0], (if ex_client_ended x0 then [PxEof] else []). split; [done|]. destruct (ex_client_ended x0); auto. }
  destruct cl as [n|]; [destruct (_ <=? _)|];
    [|(eapply emits_weaken; [exact Hx|intros o k Hk; by apply opened_trace])..].
  eapply (emits_bind _ _ (fun _ k => bodies k)).
  - intros s x s' E. by eapply relay_remaining_emits.
  - intros k Hk. apply opened_trace; eauto with proxy.
  - intros _ k Hk s x s'. unfold client_eof_logged. destruct (pe_eof env); intros [= <- <-];
      [exists [PxEof]|exists []]; rewrite ?app_nil_r; (split; [done|]); apply opened_trace; eauto with proxy.
Qed.

Lemma relay_buffered_emits r chunk total :
  good r -> emits (relay_buffered env r chunk total) (fun _ l => stream_trace false l).
Proof.
  intros Hr. unfold relay_buffered. apply emits_silent; [|apply (stream_trace_nil false)|intros body].
  { intros s x s'. destruct (read_exactly _ _ _). intros [= <- <-]. exists []. by rewrite app_nil_r. }
  eapply (emits_bind _ _ (fun o l => match o with None => l = [] | Some _ => l = [PxRespond r false] end));
    [by apply client_event_emits|intros l ->; apply (stream_trace_nil false)|].
  intros _ l ->. eapply (emits_bind _ _ (fun _ l => bodies l)); [apply client_write_emits; eauto with proxy| |].
  { intros l Hl. apply opened_trace; eauto with proxy. }
  intros _ l Hl. apply client_event_emits; apply opened_trace; rewrite ?app_nil_r; eauto with proxy.
Qed.

End order.

(** What every response to the client satisfies: it has the client's version, and without
    HTTP/1 no header that HTTP/2 and HTTP/3 forbid. *)
Definition clean_response (protocol : TlsProtocol) (v : Version) (r : ResponseHeaders) : Prop :=
  rp_version r = v /\ (protocol <> Http1 -> forall n, n ∈ hop_by_hop -> header_get (rp_headers r) n = None).

Lemma with_length_clean p v r n : clean_response p v r -> clean_response p v (with_length r n).
Proof.
  intros [H1 H2]. split; [done|]. intros Hp m Hm. unfold with_length, set_response_headers. cbn [rp_headers].
  rewrite header_insert_get. rewrite bool_decide_eq_false_2; [auto|]. intros ->. revert Hm. by apply (bool_decide_unpack _).
Qed.

Lemma translate_response_clean p v h : clean_response p v (translate_response p v h).
Proof.
  split; [done|]. intros Hp m Hm. unfold translate_response. cbn [rp_headers].
  destruct p; [done|..]; cbn [is_http1]; by apply strip_hop_by_hop_get.
Qed.

Lemma relay_response_emits to_str env p v h chunk :
  emits (relay_response to_str env p v h chunk) (fun _ l => stream_trace (clean_response p v) false l).
Proof.
  pose proof (translate_response_clean p v h) as Hc. unfold relay_response.
  set (r := translate_response p v h) in *. clearbody r.
  assert (emits (relay_chunked env r chunk) (fun _ l => stream_trace (clean_response p v) false l)) as H1.
  { intros s x s'. unfold relay_chunked. eapply chunk_loop_emits; [intros; by apply with_length_clean|done]. }
  assert (forall cl, emits (relay_streamed env r chunk cl) (fun _ l => stream_trace (clean_response p v) false l)) as H2.
  { intros cl. by apply relay_streamed_emits. }
  destruct p, (content_length_of _ _) as [total|]; try destruct (total <=? _); try destruct (is_chunked_response _ _);
    cbn [is_http1 negb andb]; auto. all: by apply relay_buffered_emits.
Qed.

(** *** Termination *)

(** A chunk size that cannot be followed by a line end within 64 bits. *)
Definition announces_huge (b : bytes) : Prop :=
  exists pre line post n, b = pre ++ line ++ CRLF ++ post /\ parse_chunk_line line = Some n /\ 2 ^ 64 - 2 <= n.

Lemma fill_spec enough buffer reads e b' reads' :
  fill enough buffer reads = (Some (Ok (e, b')), reads') ->
  b' ++ reads_bytes reads' `suffix_of` buffer ++ reads_bytes reads /\
  (length (b' ++ reads_bytes reads') <= length (buffer ++ reads_bytes reads))%nat /\ (e = false -> enough b' = true).
Proof.
  revert buffer. induction reads as [|r reads IH]; intros buffer; cbn [fill].
  - destruct (enough buffer) eqn:E; [|done]. intros [= <- <- <-]. auto.
  - destruct (enough buffer) eqn:E; [intros [= <- <- <-]; auto|].
    destruct r as [[c|]|]; [| |done].
    + intros H. destruct (IH _ H) as (H1 & H2 & H3). unfold reads_bytes at 2 4. rewrite bind_cons.
      fold (reads_bytes reads). by rewrite app_assoc.
    + intros [= <- <- <-]. split_and!; [|done|done]. done.
Qed.

Lemma hex_digits_range acc l n : 0 <= acc < 2 ^ 64 -> hex_digits acc l = Some n -> 0 <= n < 2 ^ 64.
Proof.
  revert acc. induction l as [|c l IH]; intros acc Ha; cbn [hex_digits]; [by intros [= <-]|].
  destruct (hex_value c) as [v|] eqn:Ev; [|done]. destruct (Z.ltb_spec (acc * 16 + v) (2 ^ 64)); [|done].
  apply IH. unfold hex_value, in_range in Ev. repeat case_match; simplify_eq; lia.
Qed.

Lemma parse_chunk_line_range line n : parse_chunk_line line = Some n -> 0 <= n < 2 ^ 64.
Proof.
  unfold parse_chunk_line, from_str_radix_16. destruct (utf8_valid line); [|done].
  destruct (strip_plus _) as [|c l]; [done|]. by apply hex_digits_range.
Qed.

Lemma announces_huge_suffix a b : a `suffix_of` b -> announces_huge a -> announces_huge b.
Proof.
  intros [k ->] (pre & line & post & n & -> & H). exists (k ++ pre), line, post, n. by rewrite <- !app_assoc.
Qed.

Lemma pbind_total {A B} (m : P A) (f : A -> P B) s (R : Prop) :
  m s <> Panic -> (forall x s1, m s = Ret (Some (Ok x), s1) -> f x s1 <> Panic \/ R) -> pbind m f s <> Panic \/ R.
Proof. intros H Hf. unfold pbind. destruct (m s) as [[[[x|]|] s1]|]; [by apply Hf|by left..|done]. Qed.

Lemma finish_chunked_total env r opened bb buffer s : finish_chunked env r opened bb buffer s <> Panic.
Proof.
  unfold finish_chunked, pbind, ensure_client_sink, client_event, client_write_all, need_more, pret.
  repeat case_match; simplify_eq; done.
Qed.

Lemma forward_chunk_reads env r opened bb data s :
  forward_chunk env r opened bb data s <> Panic /\
  forall x s1, forward_chunk env r opened bb data s = Ret (x, s1) -> px_reads s1 = px_reads s.
Proof.
  unfold forward_chunk, pbind, ensure_client_sink, client_event, client_write_all, next_write, pret.
  split; [repeat case_match; simplify_eq; done|]. intros x s1 E. repeat case_match; simplify_eq; done.
Qed.

(** The loop returns or waits unless the server announces such a size. *)
Lemma chunk_loop_total env r fuel opened bb buffer s :
  (length (buffer ++ reads_bytes (px_reads s)) < fuel)%nat ->
  chunk_loop env fuel r opened bb buffer s <> Panic \/ announces_huge (buffer ++ reads_bytes (px_reads s)).
Proof.
  revert opened bb buffer s. induction fuel as [|fuel IH]; intros opened bb buffer s Hf; [lia|]. cbn [chunk_loop].
  apply pbind_total; [unfold need_more; by destruct (fill _ _ _)|]. intros [eof b1] s1 E1.
  unfold need_more in E1. destruct (fill _ _ (px_reads s)) as [o rd] eqn:Ef. injection E1 as -> <-.
  apply fill_spec in Ef as (Hsuf & Hlen & Henough). destruct eof; [by left|]. specialize (Henough eq_refl).
  apply bool_decide_eq_true in Henough as [k Hk]. rewrite Hk. cbn [default].
  destruct (find_sub_split _ _ _ Hk) as (line & b2 & Eb1 & Hl). rewrite Eb1, app_assoc.
  rewrite split_to_app' by (unfold len; rewrite length_app; cbn; lia).
  apply pbind_total; [done|]. intros [x y] s2 [= <- <- <-]. rewrite take_line. subst b1.
  destruct (parse_chunk_line line) as [n|] eqn:Ep; [|by left].
  destruct (Z.eqb_spec n 0) as [_|Hn0]; [left; apply finish_chunked_total|].
  pose proof (parse_chunk_line_range _ _ Ep) as Hn. destruct (Z_lt_le_dec n (2 ^ 64 - 2)) as [Hsmall|Hhuge].
  2:{ right. eapply announces_huge_suffix; [exact Hsuf|]. exists [], line, (b2 ++ reads_bytes rd), n.
      by rewrite <- !app_assoc. }
  assert (as_u64 (n + 2) = n + 2) as -> by (unfold as_u64; apply Z.mod_small; lia).
  apply pbind_total; [unfold need_more; by destruct (fill _ _ _)|]. intros [eof b3] s3 E3.
  unfold need_more in E3. cbn [px_reads] in E3. destruct (fill _ b2 rd) as [o rd3] eqn:Ef. injection E3 as -> <-.
  apply fill_spec in Ef as (Hsuf3 & Hlen3 & Henough3). destruct eof; [by left|]. specialize (Henough3 eq_refl).
  apply Z.leb_le in Henough3.
  destruct (split_to_ok n b3) as (data & b4 & Es & -> & Hd); [lia|]. rewrite Es.
  apply pbind_total; [done|]. intros [x y] s4 [= <- <- <-].
  destruct (split_to_ok 2 b4) as (e & b5 & Es' & -> & He); [rewrite len_app in Henough3; lia|]. rewrite Es'.
  apply pbind_total; [done|]. intros [x y] s5 [= <- <- <-].
  destruct (forward_chunk_reads env r opened bb data (mkProxy rd3 (px_writes s) (px_server s) (px_client s))) as [Hp Hrd].
  apply pbind_total; [exact Hp|]. intros [opened' bb'] s6 E6. apply Hrd in E6. cbn [px_reads] in E6.
  assert (b5 ++ reads_bytes rd3 `suffix_of` buffer ++ reads_bytes (px_reads s)) as Hs.
  { etrans; [|exact Hsuf]. rewrite <- !app_assoc. do 2 apply suffix_app_r.
    etrans; [|exact Hsuf3]. rewrite <- !app_assoc. do 2 apply suffix_app_r. done. }
  destruct (IH opened' bb' b5 s6) as [H|H].
  - rewrite E6. rewrite !length_app in *. unfold len in He. cbn in Hlen. lia.
  - by left.
  - right. rewrite E6 in H. by eapply announces_huge_suffix.
Qed.

Lemma relay_remaining_total remaining fuel s :
  (length (px_reads s) < fuel)%nat -> relay_remaining remaining fuel s <> Panic.
Proof.
  revert remaining s. induction fuel as [|fuel IH]; intros remaining s Hf; [lia|]. cbn [relay_remaining].
  destruct (_ <=? _); [done|]. unfold pbind at 1, server_read. destruct (px_reads s) as [|[[c|]|] reads]; [done| |done|done].
  unfold pbind, client_write_all, next_write. cbn [length] in Hf.
  repeat case_match; simplify_eq; try done; apply IH; cbn; lia.
Qed.

(** What [httparse] documents of a complete parse: it consumed a part of the buffer, and
    the version is 0 or 1. *)
Class ResponseParserLaws (parse_response : Z -> bytes -> ParseResult (Z * ParsedResponse)) : Prop := {
  parse_response_idx cap b idx p : parse_response cap b = Complete (idx, p) -> 0 <= idx <= len b;
  parse_response_version cap b idx p v : parse_response cap b = Complete (idx, p) -> ps_version p = Some v -> v = 0 \/ v = 1;
}.

Section total.
Context {parse_response : Z -> bytes -> ParseResult (Z * ParsedResponse)} {Hparse : ResponseParserLaws parse_response}.
Context (response_ok : ResponseHeaders -> bool) (to_str : bytes -> option bytes).

Lemma decode_response_total b cap limit : decode_response parse_response response_ok b cap limit <> Panic.
Proof.
  unfold decode_response. destruct (parse_response cap b) as [[idx p]| | |] eqn:Ep; [|done..].
  destruct (ps_version p) as [v|] eqn:Ev; [|done].
  assert (exists x, httparse_to_http_version v = Ret x) as [x ->].
  { destruct (parse_response_version _ _ _ _ _ Ep Ev) as [-> | ->]; by eexists. }
  cbn [bindM]. destruct (ps_code p); [|done]. destruct (response_ok _); [|done].
  unfold split_off. destruct (Z.leb_spec idx (len b)); [done|]. pose proof (parse_response_idx _ _ _ _ Ep). lia.
Qed.

Lemma decode_response_spec b cap limit x :
  decode_response parse_response response_ok b cap limit = Ret (Ok x) ->
  match x with DecodePartial b' => b' = b | DecodeComplete _ tail => tail `suffix_of` b end.
Proof.
  unfold decode_response. destruct (parse_response cap b) as [[idx p]| | |]; [| |done..].
  - destruct (ps_version p) as [v|]; [|done]. destruct (httparse_to_http_version v); cbn [bindM]; [|done].
    destruct (ps_code p); [|done]. destruct (response_ok _); [|done].
    unfold split_off. destruct (_ <=? _); cbn [bindM]; [|done]. intros [= <-].
    exists (take (Z.to_nat idx) b). by rewrite take_drop.
  - destruct (_ <? _); by intros [= <-].
Qed.

Lemma read_response_spec buffer reads :
  read_response parse_response response_ok buffer reads <> Panic /\
  forall h tail rd, read_response parse_response response_ok buffer reads = Ret (Some (Ok (Some (h, tail))), rd) ->
    tail ++ reads_bytes rd `suffix_of` buffer ++ reads_bytes reads.
Proof.
  revert buffer. induction reads as [|[[c|]|e] reads IH]; intros buffer; cbn [read_response]; [done| |done|done].
  destruct (decode_response _ _ _ _ _) as [[[b|h0 tail0]|]|] eqn:Ed; cbn [bindM]; [| |done|by apply decode_response_total in Ed];
    apply decode_response_spec in Ed; unfold reads_bytes at 2; rewrite bind_cons, app_assoc.
  - subst b. apply IH.
  - split; [done|]. intros h tail rd [= <- <- <-]. destruct Ed as [k ->]. exists k. by rewrite app_assoc.
Qed.

(** The response is relayed to the end, or the proxy waits, unless the server announces a
    chunk of nearly 2^64 bytes. *)
Lemma relay_response_total env p v h chunk s :
  pe_exchange env <> Panic ->
  relay_response to_str env p v h chunk s <> Panic \/ announces_huge (chunk ++ reads_bytes (px_reads s)).
Proof.
  intros Hex. unfold relay_response. set (r := translate_response p v h). clearbody r.
  assert (relay_chunked env r chunk s <> Panic \/ announces_huge (chunk ++ reads_bytes (px_reads s))) as H1.
  { apply chunk_loop_total. lia. }
  assert (forall cl, relay_streamed env r chunk cl s <> Panic) as H2.
  { intros cl. unfold relay_streamed, pbind, client_event, client_write_all, client_eof_logged, exchange_result, next_write, pret, perr.
    destruct (pe_respond env); [|done].
    assert (forall n s1, relay_remaining n (S (length (px_reads s1))) s1 <> Panic) as H3.
    { intros n s1. apply relay_remaining_total. lia. }
    destruct (pe_exchange env) as [x0|]; cbn [bindM]; [|done].
    repeat case_match; simplify_eq; try done; by edestruct H3. }
  assert (forall n, relay_buffered env r chunk n s <> Panic) as H3.
  { intros n. unfold relay_buffered, pbind, client_event, client_write_all, next_write.
    repeat case_match; simplify_eq; done. }
  destruct p, (content_length_of _ _) as [total|]; try destruct (total <=? _); try destruct (is_chunked_response _ _);
    cbn [is_http1 negb andb]; auto.
Qed.

End total.

(** *** What the server is sent *)

Definition keeps_server {A} (m : P A) : Prop := forall s r s', m s = Ret (r, s') -> px_server s' = px_server s.

Lemma keeps_bind {A B} (m : P A) (f : A -> P B) :
  keeps_server m -> (forall x, keeps_server (f x)) -> keeps_server (pbind m f).
Proof.
  intros Hm Hf s r s' E. unfold pbind in E. destruct (m s) as [[[[x|e]|] s1]|] eqn:Em; [| | |done];
    apply Hm in Em; [|congruence..]. rewrite <- Em. by eapply Hf.
Qed.

Lemma keeps_server_simple :
  (forall A (x : A), keeps_server (pret x)) /\ (forall A e, keeps_server (@perr A e)) /\
  (forall A, keeps_server (@ppanic A)) /\ (forall A (m : M A), keeps_server (plift m)) /\
  (forall en b, keeps_server (need_more en b)) /\ keeps_server server_read /\
  (forall d, keeps_server (client_write_all d)) /\ (forall r e, keeps_server (client_event r e)) /\
  (forall pr ok, keeps_server (receive_head pr ok)).
Proof.
  unfold keeps_server, pret, perr, ppanic, plift, need_more, server_read, client_write_all, client_event, receive_head, bindM.
  split_and!; intros; repeat case_match; simplify_eq; done.
Qed.

Ltac keeps :=
  pose proof keeps_server_simple as (? & ? & ? & ? & ? & ? & ? & ? & ?);
  repeat first [ apply keeps_bind; [|intros ?] | case_match | solve [eauto] ].

Lemma chunk_loop_keeps env fuel r opened bb buffer : keeps_server (chunk_loop env fuel r opened bb buffer).
Proof.
  revert opened bb buffer. induction fuel as [|fuel IH]; intros opened bb buffer; cbn [chunk_loop];
    unfold finish_chunked, forward_chunk, ensure_client_sink; keeps.
Qed.

Lemma relay_remaining_keeps n fuel : keeps_server (relay_remaining n fuel).
Proof. revert n. induction fuel as [|fuel IH]; intros n; cbn [relay_remaining]; keeps. Qed.

(** A computation that may end with the exchange of the duplex pipe. *)
Definition adds_server (k : bytes) {A} (m : P A) : Prop :=
  forall s r s', m s = Ret (r, s') -> px_server s' = px_server s \/ px_server s' = px_server s ++ k.

Lemma keeps_adds {A} k (m : P A) : keeps_server m -> adds_server k m.
Proof. intros Hm s r s' E. left. by eapply Hm. Qed.

Lemma adds_bind {A B} k (m : P A) (f : A -> P B) :
  keeps_server m -> (forall x, adds_server k (f x)) -> adds_server k (pbind m f).
Proof.
  intros Hm Hf s r s' E. unfold pbind in E. destruct (m s) as [[[[x|e]|] s1]|] eqn:Em; [| | |done];
    apply Hm in Em; [|left; congruence..]. rewrite <- Em. by eapply Hf.
Qed.

Definition exchanged_server (env : ProxyEnv) : bytes := match pe_exchange env with Ret x => ex_to_server x | Panic => [] end.

Lemma relay_response_adds to_str env p v h chunk :
  adds_server (exchanged_server env) (relay_response to_str env p v h chunk).
Proof.
  unfold relay_response. assert (forall r, keeps_server (relay_chunked env r chunk)) as H1.
  { intros r s x s'. unfold relay_chunked. apply chunk_loop_keeps. }
  assert (adds_server (exchanged_server env) (exchange_result (pe_exchange env))) as Hx.
  { intros s x s'. unfold exchange_result, exchanged_server. destruct (pe_exchange env); cbn [bindM]; [|done].
    intros [= <- <-]. by right. }
  assert (forall r cl, adds_server (exchanged_server env) (relay_streamed env r chunk cl)) as H2.
  { intros r cl. unfold relay_streamed. apply adds_bind; [apply keeps_server_simple|intros _].
    apply adds_bind; [apply keeps_server_simple|intros _]. destruct cl as [n|]; [destruct (_ <=? _)|]; [|done..].
    apply keeps_adds, keeps_bind.
    - intros s x s' E. by eapply relay_remaining_keeps.
    - intros _ s x s'. unfold client_eof_logged, client_event. repeat case_match; intros; by simplify_eq. }
  assert (forall r n, keeps_server (relay_buffered env r chunk n)) as H3.
  { intros r n. unfold relay_buffered. apply keeps_bind; [|intros body; keeps].
    intros s x s'. destruct (read_exactly _ _ _). by intros [= <- <-]. }
  repeat case_match; auto using keeps_adds.
Qed.

(** Before the response the server is sent the translated request, after it nothing but
    what the exchange of the duplex pipe carries. *)
Lemma handle_stream_server parse_response response_ok to_str env protocol st request reads writes r s' :
  handle_stream parse_response response_ok to_str env protocol (Some st) request (mkProxy reads writes [] []) = Ret (r, s') ->
  px_server s' = [] \/ exists encoded, encode_request (translate_request protocol st request) = Ret encoded /\
    (px_server s' `prefix_of` encoded \/ px_server s' = encoded ++ exchanged_server env).
Proof.
  unfold handle_stream. cbn [unwrap plift]. unfold pbind at 1. cbn [plift unwrap].
  destruct (pe_connect env) as [|[]]; [|intros [= <- <-]; by left..].
  unfold pbind at 1. destruct (encode_request _) as [encoded|] eqn:Ee; [|done]. cbn [plift].
  intros E. right. exists encoded. split; [done|]. unfold pbind at 1 in E.
  assert (exists w, server_write_all encoded (mkProxy reads writes [] []) = Ret w /\ px_server w.2 `prefix_of` encoded /\
    (w.1 = Some (Ok tt) -> px_server w.2 = encoded)) as ([o s1] & Ew & Hpre & Hall).
  { unfold server_write_all. destruct encoded as [|x d]; [eexists; split; [done|]; split; [apply prefix_nil|done]|].
    destruct (next_write (x :: d) _) as [[k q] ws] eqn:En. eexists. split; [done|]. cbn.
    unfold next_write in En. cbn in En.
    destruct writes as [|[|n e] w]; injection En as <- <- _; [done|done|split; [apply prefix_take|done]]. }
  rewrite Ew in E. cbn [fst snd] in Hpre, Hall. destruct o as [[[]|e]|]; [|injection E as <- <-; by left..].
  specialize (Hall eq_refl).
  assert (px_server s' = px_server s1 \/ px_server s' = px_server s1 ++ exchanged_server env) as [->| ->];
    [|by left|right; by rewrite Hall].
  revert E. match goal with |- ?m s1 = _ -> _ => assert (adds_server (exchanged_server env) m) as Hk; [|by apply Hk] end.
  apply adds_bind; [apply keeps_server_simple|].
  intros [[h tail]|]; [apply relay_response_adds|apply keeps_adds, keeps_server_simple].
Qed.

(** ** Properties *)


(** The client sends three bytes of a body and the server two of a response, and both end. *)
Definition sample_tx : TxEnv := mkTxEnv [Ok 100] (Some (Ok tt)) (Some (Ok tt)) (Some (Ok tt)).
Definition sample_stream_round (outcomes : list (result ErrorKind bytes)) : RoundEnv (list (result ErrorKind bytes)) TxEnv :=
  mkRound 0 outcomes sample_tx sample_tx sample_tx sample_tx.
Definition sample_exchange : M Exchanged :=
  proxy_exchange (HS := stream_source_laws) (HK := stream_sink_laws) 60
    [mkCall [sample_stream_round [Ok [1; 2; 3]]; sample_stream_round [Ok []]] [sample_stream_round [Ok [7; 8]]; sample_stream_round [Ok []]] true 0]
    0 (mkRx []) (mkTx [] false false).
Definition ok_env : ProxyEnv := mkProxyEnv (Ok tt) (Ok tt) (Ok tt) sample_exchange.
Definition ok_response : ResponseHeaders := mkResponseHeaders HTTP_2 200 [(str "server", str "x")].



(** A parser that knows the head of one response. *)
Definition sample_head : bytes := str "HTTP/1.1 200 OK" ++ CRLF ++ str "Transfer-Encoding: chunked" ++ CRLF ++ CRLF.
Definition sample_parse_response (cap : Z) (b : bytes) : ParseResult (Z * ParsedResponse) :=
  if starts_with sample_head b
  then Complete (len sample_head, mkParsedResponse (Some 1) (Some 200) [(str "Transfer-Encoding", str "chunked")])
  else Partial.
Definition sample_settings : ReverseProxySettings := mkReverseProxySettings (mkAddr (IpV4 [127; 0; 0; 1]) 8080) (str "/") true.
Definition sample_get : RequestHeaders :=
  mkRequestHeaders (str "GET") (str "/") (Some (str "/")) (Some (str "h")) HTTP_3
    [(ORIGINAL_PROTOCOL_HEADER, str "forged")].

#[export] Instance sample_parser_laws : ResponseParserLaws sample_parse_response.
Proof.
  split; unfold sample_parse_response; intros cap b idx p.
  - destruct (starts_with _ _) eqn:E; [|done]. intros [= <- _]. apply starts_with_length in E. unfold len. lia.
  - intros v. destruct (starts_with _ _); [|done]. intros [= _ <-]. cbn. intros [= <-]. by right.
Qed.

(** The head of a response of unknown length, and an HTTP/2 client that posts a body. *)
Definition sample_plain_head : bytes := str "HTTP/1.1 200 OK" ++ CRLF ++ CRLF.
Definition sample_plain_parse (cap : Z) (b : bytes) : ParseResult (Z * ParsedResponse) :=
  if starts_with sample_plain_head b then Complete (len sample_plain_head, mkParsedResponse (Some 1) (Some 200) []) else Partial.
Definition sample_post : RequestHeaders :=
  mkRequestHeaders (str "POST") (str "/") (Some (str "/")) (Some (str "h")) HTTP_2 [(ORIGINAL_PROTOCOL_HEADER, str "forged")].


(** The handler of a stream never panics or loops without reading, whatever
    the server sends and however it is cut, when the pipe does not panic, unless the server announces a chunk whose
    size and line end do not fit 64 bits. *)
Theorem reverse_proxy_returns parse_response `{!ResponseParserLaws parse_response} response_ok to_str env protocol st request reads writes :
  (protocol = Http1 -> rq_version request = HTTP_10 \/ rq_version request = HTTP_11) -> pe_exchange env <> Panic ->
  handle_stream parse_response response_ok to_str env protocol (Some st) request (mkProxy reads writes [] []) <> Panic \/
  announces_huge (reads_bytes reads).
Proof.
  intros Hv Hex. unfold handle_stream. apply pbind_total; [done|]. intros x s0 [= <- <-].
  destruct (pe_connect env) as [|[]]; [|by left..].
  assert (exists encoded, encode_request (translate_request protocol st request) = Ret encoded) as [encoded Ee].
  { unfold encode_request, translate_request. cbn [rq_version].
    destruct protocol; [destruct (Hv eq_refl) as [-> | ->]|..]; by eexists. }
  rewrite Ee. apply pbind_total; [done|]. intros x s1 [= <- <-].
  apply pbind_total; [unfold server_write_all; repeat case_match; simplify_eq; done|]. intros x s2 Ew.
  assert (px_reads s2 = reads) as Hr by (unfold server_write_all in Ew; repeat case_match; simplify_eq; done).
  destruct (read_response_spec response_ok [] reads) as [Hp Hs].
  apply pbind_total; [unfold receive_head; rewrite Hr; by destruct (read_response _ _ _ _) as [[]|]|].
  intros [[h tail]|] s3 Eh; [|left; unfold send_bad_gateway, client_event; by case_match].
  unfold receive_head in Eh. rewrite Hr in Eh. destruct (read_response _ _ _ _) as [[o rd]|] eqn:Er; cbn [bindM] in Eh; [|done].
  injection Eh as -> <-. specialize (Hs _ _ _ eq_refl).
  edestruct relay_response_total as [H|H]; [exact Hex|left; exact H|right]. by eapply announces_huge_suffix.
Qed.

Lemma reverse_proxy_returns_witness :
  handle_stream sample_parse_response (fun _ => true) Some ok_env Http3 (Some sample_settings) sample_get
    (mkProxy [Ok (Chunk sample_head); Err Other] [] [] []) <> Panic \/
  announces_huge (reads_bytes [Ok (Chunk sample_head); Err Other]).
Proof. apply (reverse_proxy_returns sample_parse_response); [intros H; discriminate H|vm_compute; discriminate]. Defined.

(** A server that keeps the connection open and sends the empty line after the
    last chunk in a read of its own leaves the client without any response: the proxy
    waits for an empty line after it. *)
Theorem chunked_terminator_split_stalls :
  relay_chunked ok_env ok_response (str "2" ++ CRLF ++ str "hi" ++ CRLF ++ str "0" ++ CRLF) (mkProxy [Ok (Chunk CRLF)] [] [] [])
  = Ret (None, mkProxy [] [] [] []).
Proof. vm_compute. reflexivity. Qed.

(** A size near 2^64 wraps around and the handler panics. *)
Example chunked_huge_size_panics :
  relay_chunked ok_env ok_response (str "ffffffffffffffff" ++ CRLF ++ str "x") (mkProxy [] [] [] []) = Panic.
Proof. vm_compute. reflexivity. Qed.

(** An HTTP/3 response with more body than its [content-length] in the first read is
    relayed with all of it. *)
Example buffered_body_exceeds_length :
  relay_buffered ok_env ok_response (str "hello") 2 (mkProxy [] [] [] [])
  = Ret (Some (Ok tt), mkProxy [] [] [] [PxRespond ok_response false; PxBody (str "hello"); PxEof]).
Proof. vm_compute. reflexivity. Qed.
