(* ===== verification/Utils.v ===== *)
(** * Helpers

    lib/src/utils.rs and the parts of lib/src/net_utils.rs around sockets and logs: hex
    dumps, joining and commenting text, loading certificates and keys, the conversion of
    socket addresses for system calls, the choice of the address that FreeBSD sockets are
    bound to, and the removal of secrets from requests that are logged. *)

From S2P Require Import Prelude.
From S2P Require Import Codecs.
From S2P Require Import Varint.
From S2P Require Import NetUtils.
From S2P Require Import Cert.
From S2P Require Import ForwardedStream.
From S2P Require Import ReverseProxy.

(** ** Text *)

(** The format [{:02x}]. *)
Definition hex_byte (b : Z) : bytes := [HexRef.digit (b / 16); HexRef.digit (b mod 16)].

Definition hex_dump (buf : bytes) : bytes := foldl (fun s b => s ++ hex_byte b) [] buf.

(** The format [{:02X}]. *)
Definition upper_digit (v : Z) : Z := if v <? 10 then 0x30 + v else 0x37 + v.

Definition hex_byte_uppercase (b : Z) : bytes := [upper_digit (b / 16); upper_digit (b mod 16)].

Definition hex_dump_uppercase (buf : bytes) : bytes := foldl (fun s b => s ++ hex_byte_uppercase b) [] buf.

(** [IterJoin::join]. *)
Definition iter_join (sep : bytes) (l : list bytes) : bytes :=
  let ret := foldl (fun acc x => acc ++ x ++ sep) [] l in
  if len sep <? len ret then take (Z.to_nat (len ret - len sep)) ret else ret.

(** [str::split_inclusive('\n')]. *)
Fixpoint split_inclusive (l : bytes) : list bytes :=
  match l with
  | [] => []
  | c :: l =>
      if c =? 0x0A then [c] :: split_inclusive l
      else match split_inclusive l with x :: xs => (c :: x) :: xs | [] => [[c]] end
  end.

Definition strip_last (c : Z) (l : bytes) : option bytes :=
  match last l with Some x => if x =? c then Some (take (length l - 1) l) else None | None => None end.

(** [str::lines]. *)
Definition line_of (l : bytes) : bytes :=
  match strip_last 0x0A l with
  | Some l => match strip_last 0x0D l with Some l => l | None => l end
  | None => l
  end.

Definition lines (s : bytes) : list bytes := line_of <$> split_inclusive s.

Definition to_toml_comment (self : bytes) : bytes := iter_join [0x0A] ((fun x => str "# " ++ x) <$> lines self).

(** ** Either *)

Inductive Either (L R : Type) : Type :=
| Left (l : L)
| Right (r : R).
Arguments Left {L R}.
Arguments Right {L R}.

Definition map_left {L R T} (f : L -> T) (self : Either L R) : Either T R :=
  match self with Left x => Left (f x) | Right x => Right x end.

Definition map_right {L R T} (f : R -> T) (self : Either L R) : Either L T :=
  match self with Left x => Left x | Right x => Right (f x) end.

Definition either_map {L R T} (left : L -> T) (right : R -> T) (self : Either L R) : T :=
  match self with Left x => left x | Right x => right x end.

(** ** Certificates and keys *)

Section pem.
(** [fs_open] is what [File::open] finds, with the contents of the file; one that is not
    UTF-8 does not read as a string. *)
Context {Der Key : Type} (fs_open : bytes -> result ErrorKind bytes)
  (pem_certs : bytes -> list (result unit Der)) (pem_key : bytes -> result unit Key).

Definition read_pem (filename : bytes) : result ErrorKind bytes :=
  let? contents := fs_open filename in
  if utf8_valid contents then Ok contents else Err InvalidInput.

(** [collect] stops at the first certificate that does not parse. *)
Fixpoint collect_certs (l : list (result unit Der)) : result ErrorKind (list Der) :=
  match l with
  | [] => Ok []
  | Err _ :: _ => Err InvalidInput
  | Ok c :: l => let? cs := collect_certs l in Ok (c :: cs)
  end.

Definition load_certs (filename : bytes) : result ErrorKind (list Der) :=
  let? pem_data := read_pem filename in
  collect_certs (pem_certs pem_data).

Definition load_private_key (filename : bytes) : result ErrorKind Key :=
  let? pem_data := read_pem filename in
  map_err (fun _ => InvalidInput) (pem_key pem_data).

End pem.

(** ** Socket addresses *)

(** [std::net::SocketAddr] with all its fields. *)
Inductive FullAddr : Type :=
| FullV4 (octets : bytes) (port : Z)
| FullV6 (octets : bytes) (port flowinfo scope_id : Z).

Definition full_ip (a : FullAddr) : IpAddr := match a with FullV4 o _ => IpV4 o | FullV6 o _ _ _ => IpV6 o end.

Definition wf_full (a : FullAddr) : Prop :=
  match a with
  | FullV4 o p => wf_bytes o /\ len o = 4 /\ 0 <= p < 2 ^ 16
  | FullV6 o p f s => wf_bytes o /\ len o = 16 /\ 0 <= p < 2 ^ 16 /\ 0 <= f < 2 ^ 32 /\ 0 <= s < 2 ^ 32
  end.

(** [libc::sockaddr_storage] by its family: the fields of [sockaddr_in] and [sockaddr_in6]
    as they are on a little-endian host, or something else. *)
Inductive SockaddrStorage : Type :=
| SockaddrIn (sin_port s_addr : Z)
| SockaddrIn6 (sin6_port sin6_flowinfo : Z) (s6_addr : bytes) (sin6_scope_id : Z)
| OtherFamily (family : Z).

(** [u16::to_be] and [u16::from_be] swap the bytes. *)
Definition swap_u16 (x : Z) : Z := (x mod 256) * 256 + x / 256.

(** [u32::from_ne_bytes] and [u32::to_ne_bytes]. *)
Definition from_ne_bytes (l : bytes) : Z := be_val (rev l).
Definition to_ne_bytes (v : Z) : bytes := rev (be_bytes 4 v).

Definition SOCKADDR_IN_SIZE : Z := 16.
Definition SOCKADDR_IN6_SIZE : Z := 28.

Definition socket_addr_to_libc (addr : FullAddr) : SockaddrStorage * Z :=
  match addr with
  | FullV4 octets port => (SockaddrIn (swap_u16 port) (from_ne_bytes octets), SOCKADDR_IN_SIZE)
  | FullV6 octets port flowinfo scope_id => (SockaddrIn6 (swap_u16 port) flowinfo octets scope_id, SOCKADDR_IN6_SIZE)
  end.

Definition libc_to_socket_addr (addr : SockaddrStorage) : M FullAddr :=
  match addr with
  | SockaddrIn port s_addr => Ret (FullV4 (to_ne_bytes s_addr) (swap_u16 port))
  | SockaddrIn6 port flowinfo s6_addr scope_id => Ret (FullV6 s6_addr (swap_u16 port) flowinfo scope_id)
  | OtherFamily _ => Panic
  end.

Definition MIN_LINK_MTU : Z := 1280.

(** [recvfrom] is the outcome of the system call for a buffer of the given size: the bytes
    it wrote, at most that many, and the peer. *)
Definition recv_from (recvfrom : Z -> result ErrorKind (bytes * SockaddrStorage)) (buffer_size : option Z)
  : M (result ErrorKind (IpAddr * bytes)) :=
  match recvfrom (default MIN_LINK_MTU buffer_size) with
  | Err e => Ret (Err e)
  | Ok (data, peer) => let! a := libc_to_socket_addr peer in Ret (Ok (full_ip a, data))
  end.

(** *** The interface of a socket on FreeBSD *)

Record IfAddr : Type := mkIfAddr { ifa_name : option bytes; ifa_addr : option IpAddr; ifa_flags : Z }.

Definition IN6_IFF_TEMPORARY : Z := 0x80.

Definition same_family (is_inet : bool) (ip : IpAddr) : bool :=
  match ip with IpV4 _ => is_inet | IpV6 _ => negb is_inet end.

Definition bind_candidates (is_inet : bool) (name : bytes) (l : list IfAddr) : list (IpAddr * Z) :=
  omap (fun i => match ifa_name i, ifa_addr i with
                 | Some n, Some ip => if bool_decide (n = name) && same_family is_inet ip then Some (ip, ifa_flags i) else None
                 | _, _ => None
                 end) l.

Definition bind_priority (c : IpAddr * Z) : Z :=
  match c.1 with
  | IpV4 _ => 0
  | IpV6 ip =>
      let is_temporary := negb (Z.land c.2 IN6_IFF_TEMPORARY =? 0) in
      let is_global_unicast := is_unicast_global_ipv6 ip in
      let is_ula := Z.land (seg ip 0) 0xfe00 =? 0xfc00 in
      let is_link_local := Z.land (seg ip 0) 0xffc0 =? 0xfe80 in
      if is_global_unicast && is_temporary then 10
      else if is_global_unicast then 9
      else if is_ula && is_temporary then 6
      else if is_ula then 5
      else if is_link_local then 1
      else 0
  end.

(** [Iterator::max_by_key]: the last one of the greatest. *)
Definition max_by_key {A} (key : A -> Z) (l : list A) : option A :=
  fold_left (fun m x => match m with
                        | Some y => Some (if key y <=? key x then x else y)
                        | None => Some x
                        end) l None.

(** The address [bind] is called with. *)
Definition bind_address (is_inet : bool) (name : bytes) (l : list IfAddr) : option IpAddr :=
  let candidates := bind_candidates is_inet name l in
  fst <$> (if is_inet then head candidates else max_by_key bind_priority candidates).

Definition bind_to_interface (is_inet : bool) (name : bytes) (getifaddrs : result ErrorKind (list IfAddr))
    (bind : IpAddr -> result ErrorKind unit) : result ErrorKind unit :=
  if bool_decide (0 ∈ name) then Err InvalidInput
  else
    let? l := getifaddrs in
    match bind_address is_inet name l with None => Err NotFound | Some ip => bind ip end.

(** ** Requests in the log *)

Definition SENSITIVE_HEADERS : list bytes := [str "authorization"; str "proxy-authorization"; str "cookie"].

Definition scrub_header (h : headers) (name : bytes) : headers :=
  match header_get h name with Some _ => header_insert name SCRUBBED_PLACEHOLDER h | None => h end.

Definition scrub_request (request : RequestHeaders) : RequestHeaders :=
  mkRequestHeaders (rq_method request) (rq_path request) (rq_path_and_query request) (rq_authority request)
    (rq_version request) (fold_left scrub_header SENSITIVE_HEADERS (rq_headers request)).

(** ** Proofs on text *)

Lemma foldl_append {A B} (f : A -> list B) acc l : foldl (fun s x => s ++ f x) acc l = acc ++ mjoin (f <$> l).
Proof.
  revert acc. induction l as [|x l IH]; intros acc; cbn; [by rewrite app_nil_r|]. by rewrite IH, <- app_assoc.
Qed.

Lemma hex_dump_encode buf : hex_dump buf = HexRef.hex_encode buf.
Proof. unfold hex_dump. rewrite foldl_append. induction buf as [|b buf IH]; [done|]. cbn. by rewrite <- IH. Qed.

(** A dump in either case reads back as the bytes. *)
Lemma hex_dump_reads buf :
  wf_bytes buf ->
  HexRef.hex_decode (hex_dump buf) = Some buf /\ HexRef.hex_decode (hex_dump_uppercase buf) = Some buf.
Proof.
  intros Hb. split; [rewrite hex_dump_encode; by apply (hex_decode_encode (HexLaws := HexRef.laws))|].
  assert (forall v, 0 <= v < 16 -> HexRef.value (upper_digit v) = Some v) as Hv.
  { apply (forall_upto_prop (fun v => HexRef.value (upper_digit v) = Some v)). by vm_compute. }
  unfold hex_dump_uppercase. rewrite foldl_append. cbn [app].
  induction Hb as [|b buf Hb _ IH]; [done|]. unfold is_byte in Hb.
  change (mjoin (hex_byte_uppercase <$> b :: buf))
    with (upper_digit (b / 16) :: upper_digit (b mod 16) :: mjoin (hex_byte_uppercase <$> buf)).
  cbn [HexRef.hex_decode]. rewrite !Hv by (div_lia). rewrite IH. f_equal. f_equal. div_lia.
Qed.

(** [join] is the usual one, but a single empty item gives the separator. *)
Lemma iter_join_spec sep l : iter_join sep l = if bool_decide (l = [[]]) then sep else join sep l.
Proof.
  unfold iter_join. rewrite foldl_append. cbn [app].
  assert (forall l, l <> [] -> mjoin ((fun x => x ++ sep) <$> l) = join sep l ++ sep) as Hj.
  { clear l. induction l as [|x [|y l] IH]; intros Hl; [done|by cbn; rewrite app_nil_r|].
    change (mjoin ((fun x => x ++ sep) <$> x :: y :: l)) with ((x ++ sep) ++ mjoin ((fun x => x ++ sep) <$> y :: l)).
    rewrite IH by done. change (join sep (x :: y :: l)) with (x ++ sep ++ join sep (y :: l)). by rewrite <- !app_assoc. }
  destruct l as [|x l].
  { change (mjoin ((fun x => x ++ sep) <$> [])) with ([] : bytes). change (len []) with 0. pose proof (len_nonneg sep).
    by destruct (Z.ltb_spec (len sep) 0); [lia|]. }
  rewrite Hj by done. rewrite len_app. destruct (Z.ltb_spec (len sep) (len (join sep (x :: l)) + len sep)) as [Hlt|Hge].
  - rewrite bool_decide_false by (intros [= -> ->]; change (len (join sep [[]])) with 0 in Hlt; lia).
    replace (Z.to_nat _) with (length (join sep (x :: l))) by (unfold len; lia). by rewrite take_app_length.
  - assert (join sep (x :: l) = []) as Hnil by (apply len_nil_inv; lia). rewrite Hnil. cbn [app].
    destruct l as [|y l]; [cbn in Hnil; subst x; by rewrite bool_decide_true|].
    rewrite bool_decide_false by done. change (join sep (x :: y :: l)) with (x ++ sep ++ join sep (y :: l)) in *.
    apply app_eq_nil in Hnil as [-> [-> Hnil]%app_eq_nil]. done.
Qed.

(** Every line is a comment. *)
Fixpoint commented (line_start : bool) (l : bytes) : bool :=
  match l with
  | [] => true
  | c :: l => (negb line_start || (c =? 0x23)) && commented (c =? 0x0A) l
  end.

Lemma commented_line b x rest : 0x0A ∉ x -> commented b (0x23 :: x ++ rest) = commented false rest.
Proof.
  intros Hx. cbn [commented]. rewrite orb_true_r. cbn [andb]. change (0x23 =? 0x0A) with false.
  induction x as [|c x IH]; [done|]. apply not_elem_of_cons in Hx as [Hc Hx]. cbn [app commented].
  destruct (Z.eqb_spec c 0x0A); [congruence|]. cbn. by apply IH.
Qed.

Lemma split_inclusive_newline l x : x ∈ split_inclusive l -> 0x0A ∉ line_of x.
Proof.
  assert (forall y, y ∈ split_inclusive l -> (0x0A ∉ y) \/ exists z, y = z ++ [0x0A] /\ 0x0A ∉ z) as H.
  { induction l as [|c l IH]; cbn [split_inclusive]; intros y Hy; [by apply elem_of_nil in Hy|].
    destruct (Z.eqb_spec c 0x0A) as [->|Hc].
    - apply elem_of_cons in Hy as [->|Hy]; [right; exists []; split; [done|apply not_elem_of_nil]|auto].
    - destruct (split_inclusive l) as [|z zs]; [apply list_elem_of_singleton in Hy as ->; left; set_solver|].
      apply elem_of_cons in Hy as [->|Hy]; [|apply IH; set_solver].
      destruct (IH z ltac:(set_solver)) as [Hz|(w & -> & Hw)]; [left; set_solver|].
      right. exists (c :: w). split; [done|set_solver]. }
  intros [Hx|(z & -> & Hz)]%H; unfold line_of, strip_last.
  - destruct (last x) as [b|] eqn:El; [|done]. destruct (Z.eqb_spec b 0x0A) as [->|]; [|done].
    exfalso. apply Hx. apply last_Some_elem_of in El. done.
  - rewrite last_snoc. change (0x0A =? 0x0A) with true. assert (forall c : Z, length (z ++ [c]) - 1 = length z)%nat as -> by (intros; len_lia).
    rewrite take_app_length. cbn iota. destruct (last z) as [b|]; [|done]. destruct (b =? 0x0D); [|done].
    intros Hin. apply Hz. eapply elem_of_take in Hin as (? & ? & ?). by eapply list_elem_of_lookup_2.
Qed.

(** Whatever the text, no line of its comment is read as anything else. *)
Lemma to_toml_comment_commented s : commented true (to_toml_comment s) = true.
Proof.
  unfold to_toml_comment, lines. rewrite iter_join_spec, bool_decide_false by (by destruct (split_inclusive s)).
  pose proof (split_inclusive_newline s) as H. induction (split_inclusive s) as [|x l IH]; [done|].
  assert (0x0A ∉ 0x20 :: line_of x) as Hx by (apply not_elem_of_cons; split; [done|apply H; set_solver]).
  set (f := fun x => str "# " ++ x) in *. destruct l as [|y l].
  - change (join [0x0A] (f <$> (line_of <$> [x]))) with (0x23 :: 0x20 :: line_of x).
    rewrite <- (app_nil_r (0x20 :: line_of x)). by rewrite commented_line.
  - change (join [0x0A] (f <$> (line_of <$> x :: y :: l)))
      with (0x23 :: (0x20 :: line_of x) ++ 0x0A :: join [0x0A] (f <$> (line_of <$> y :: l))).
    rewrite commented_line by done. cbn [commented andb negb orb]. apply IH. intros z Hz. apply H. set_solver.
Qed.

(** ** Proofs on addresses *)

Lemma swap_u16_involutive x : 0 <= x < 2 ^ 16 -> swap_u16 (swap_u16 x) = x.
Proof. unfold swap_u16. intros Hx. div_lia. Qed.

Lemma ne_bytes_roundtrip o : wf_bytes o -> len o = 4 -> to_ne_bytes (from_ne_bytes o) = o.
Proof.
  intros Ho Hl. unfold to_ne_bytes, from_ne_bytes. replace 4%nat with (length (rev o)) by (rewrite length_rev; unfold len in Hl; lia).
  rewrite be_bytes_be_val; [apply rev_involutive|]. by apply Forall_rev.
Qed.

(** An address survives the way through the system's representation, flow and scope
    included; the size is that of the structure of its family. *)
Theorem socket_addr_roundtrip a :
  wf_full a ->
  libc_to_socket_addr (socket_addr_to_libc a).1 = Ret a /\
  (socket_addr_to_libc a).2 = match a with FullV4 _ _ => SOCKADDR_IN_SIZE | FullV6 _ _ _ _ => SOCKADDR_IN6_SIZE end.
Proof.
  destruct a as [o p|o p f s]; cbn [libc_to_socket_addr socket_addr_to_libc fst snd wf_full]; intros H; (split; [|done]).
  - destruct H as (Ho & Hl & Hp). by rewrite ne_bytes_roundtrip, swap_u16_involutive.
  - destruct H as (_ & _ & Hp & _). by rewrite swap_u16_involutive.
Qed.

Lemma socket_addr_roundtrip_witness :
  let a := FullV6 ([0xFE; 0x80] ++ replicate 13 0 ++ [1]) 443 7 3 in
  libc_to_socket_addr (socket_addr_to_libc a).1 = Ret a.
Proof. apply socket_addr_roundtrip. split_and!; [by_compute|reflexivity|lia..]. Defined.

(** [max_by_key] gives a greatest item, and one unless there is none. *)
Lemma max_by_key_spec {A} (key : A -> Z) l :
  match max_by_key key l with
  | Some x => x ∈ l /\ forall y, y ∈ l -> key y <= key x
  | None => l = []
  end.
Proof.
  unfold max_by_key. induction l as [|x l IH] using rev_ind; [done|]. rewrite fold_left_app. cbn [fold_left].
  destruct (fold_left _ l None) as [m|]; [|subst; split; [set_solver|]; intros y Hy; apply list_elem_of_singleton in Hy as ->; lia].
  destruct IH as [Hm Hmax]. destruct (Z.leb_spec (key m) (key x)).
  - split; [set_solver|]. intros y [Hy| ->%list_elem_of_singleton]%elem_of_app; [specialize (Hmax y Hy); lia|lia].
  - split; [set_solver|]. intros y [Hy| ->%list_elem_of_singleton]%elem_of_app; [auto|lia].
Qed.

Lemma bind_candidates_spec is_inet name l ip flags :
  (ip, flags) ∈ bind_candidates is_inet name l <->
  mkIfAddr (Some name) (Some ip) flags ∈ l /\ same_family is_inet ip = true.
Proof.
  unfold bind_candidates. rewrite list_elem_of_omap. split.
  - intros ([n a f] & Hi & E). cbn in E. destruct n as [n|]; [|done]. destruct a as [a|]; [|done].
    destruct (bool_decide_reflect (n = name)) as [->|]; [|done]. destruct (same_family is_inet a) eqn:Ef; [|done].
    by injection E as <- <-.
  - intros [Hi Hf]. exists (mkIfAddr (Some name) (Some ip) flags). split; [done|]. cbn. by rewrite bool_decide_true, Hf.
Qed.

(** Whatever a socket is bound to is an address of the interface and of the family, for IPv6
    one of the highest priority; there is none only if the interface has no such address. *)
Theorem bind_address_best is_inet name l :
  match bind_address is_inet name l with
  | Some ip =>
      exists flags, (ip, flags) ∈ bind_candidates is_inet name l /\
        mkIfAddr (Some name) (Some ip) flags ∈ l /\ same_family is_inet ip = true /\
        (is_inet = false -> forall other oflags, mkIfAddr (Some name) (Some other) oflags ∈ l ->
           same_family is_inet other = true -> bind_priority (other, oflags) <= bind_priority (ip, flags))
  | None => forall ip flags, mkIfAddr (Some name) (Some ip) flags ∈ l -> same_family is_inet ip = false
  end.
Proof.
  assert (forall x, x ∈ bind_candidates is_inet name l -> mkIfAddr (Some name) (Some x.1) x.2 ∈ l /\ same_family is_inet x.1 = true) as Hc.
  { intros [ip f] H. by apply bind_candidates_spec in H. }
  assert (bind_candidates is_inet name l = [] ->
    forall ip flags, mkIfAddr (Some name) (Some ip) flags ∈ l -> same_family is_inet ip = false) as Hnone.
  { intros Hnil ip flags Hin. destruct (same_family is_inet ip) eqn:E; [|done].
    assert ((ip, flags) ∈ bind_candidates is_inet name l) as H by (by apply bind_candidates_spec). rewrite Hnil in H. by apply elem_of_nil in H. }
  unfold bind_address. destruct is_inet.
  - destruct (bind_candidates true name l) as [|[ip f] rest] eqn:E; cbn; [by apply Hnone|].
    exists f. destruct (Hc (ip, f)) as [H1 H2]; [set_solver|]. split_and!; [set_solver|done|done|done].
  - pose proof (max_by_key_spec bind_priority (bind_candidates false name l)) as Hmax.
    destruct (max_by_key _ _) as [[ip f]|]; cbn; [|by apply Hnone]. destruct Hmax as [Hin Hmax].
    exists f. destruct (Hc _ Hin) as [H1 H2]. split_and!; [done|done|done|].
    intros _ other oflags Ho Hf. apply Hmax. by apply bind_candidates_spec.
Qed.

(** ** Proofs on logged requests *)

Lemma scrub_header_spec h name n v :
  (n, v) ∈ scrub_header h name <->
  if decide (n = name) then v = SCRUBBED_PLACEHOLDER /\ exists w, (name, w) ∈ h else (n, v) ∈ h.
Proof.
  unfold scrub_header, header_get. destruct (List.find _ h) as [[k w]|] eqn:Ef; cbn [fmap option_fmap option_map].
  - apply List.find_some in Ef as [Hin Hk]. cbn in Hk. apply bool_decide_eq_true_1 in Hk as ->. apply list_elem_of_In in Hin.
    unfold header_insert, header_remove. rewrite elem_of_app, list_elem_of_singleton.
    rewrite (list_elem_of_In (List.filter _ _)), filter_In, <- list_elem_of_In. cbn [fst]. case_decide as Hn.
    + subst. rewrite bool_decide_true by done. cbn [negb]. split; [intros [[_ ?]|[= ->]]; [done|eauto]|]. intros [-> _]. by right.
    + rewrite bool_decide_false by done. split; [intros [[? _]|[= -> _]]; done|]. by left.
  - case_decide as Hn; [|done]. subst. assert (forall w, (name, w) ∉ h) as Hno.
    { intros w Hw. apply list_elem_of_In in Hw. eapply List.find_none in Ef; [|done]. cbn in Ef. by rewrite bool_decide_true in Ef. }
    split; [intros H; by apply Hno in H|intros [_ [w Hw]]; by apply Hno in Hw].
Qed.

(** A logged request has no credentials and no cookies: of the sensitive headers it has the
    placeholder, exactly when the request has the header; everything else is as it was. *)
Theorem scrub_request_hides r n v :
  ((n, v) ∈ rq_headers (scrub_request r) <->
   if decide (n ∈ SENSITIVE_HEADERS) then v = SCRUBBED_PLACEHOLDER /\ exists w, (n, w) ∈ rq_headers r
   else (n, v) ∈ rq_headers r) /\
  rq_method (scrub_request r) = rq_method r /\ rq_path (scrub_request r) = rq_path r /\
  rq_authority (scrub_request r) = rq_authority r.
Proof.
  split; [|done]. unfold scrub_request. cbn [rq_headers]. generalize (rq_headers r). intros h.
  assert (forall l h, NoDup l -> (n, v) ∈ fold_left scrub_header l h <->
    if decide (n ∈ l) then v = SCRUBBED_PLACEHOLDER /\ exists w, (n, w) ∈ h else (n, v) ∈ h) as Hall.
  { clear h. induction l as [|x l IH]; intros h Hnd; cbn [fold_left]; [by rewrite decide_False by apply not_elem_of_nil|].
    apply NoDup_cons in Hnd as [Hx Hnd]. rewrite (IH _ Hnd). destruct (decide (n = x)) as [->|Hne].
    - rewrite decide_False by done. rewrite (decide_True (P := x ∈ x :: l)) by set_solver. rewrite scrub_header_spec.
      by rewrite decide_True.
    - destruct (decide (n ∈ l)) as [Hl|Hl].
      + rewrite (decide_True (P := n ∈ x :: l)) by set_solver. f_equiv. f_equiv. intros w. rewrite scrub_header_spec. by rewrite decide_False.
      + rewrite (decide_False (P := n ∈ x :: l)) by set_solver. rewrite scrub_header_spec. by rewrite decide_False. }
  apply Hall. by_compute.
Qed.
