(* ===== verification/Macros.v ===== *)
(** * The derive macros

    macros/src/getter.rs and macros/src/rt_doc.rs: the accessors and the documentation
    functions that the settings types derive, and that the setup wizard reads its templates
    from.  What [syn] parses is the syntax tree below; what [quote] builds is the list of
    functions of the generated [impl]. *)

From S2P Require Import Prelude.
From S2P Require Import Codecs.
From S2P Require Import Cert.
From S2P Require Import ForwardedStream.
From S2P Require Import ReverseProxy.

(** ** Syntax *)

(** What [Attribute::parse_meta] gives, as far as the macros distinguish it: [name = "literal"]
    for a name that is one identifier, any other meta, or an error. *)
Inductive Meta : Type :=
| NameValueStr (path : bytes) (lit : bytes)
| OtherMeta
| NotMeta.

Record Field : Type := mkField { f_ident : bytes; f_type : bytes; f_attrs : list Meta }.
Record Variant : Type := mkVariant { v_ident : bytes; v_attrs : list Meta }.

Inductive SynData : Type :=
| StructNamed (fields : list Field)
| StructOther
| Enum (variants : list Variant)
| Union.

Record DeriveInput : Type := mkDeriveInput { di_ident : bytes; di_attrs : list Meta; di_data : SynData }.

(** ** Getter *)

(** [pub fn name(&self) -> &ty { &self.field }]. *)
Record GetterFn : Type := mkGetter { g_name : bytes; g_type : bytes; g_field : bytes }.

Definition derive_getter (ast : DeriveInput) : M (bytes * list GetterFn) :=
  match di_data ast with
  | StructNamed fields =>
      Ret (di_ident ast, foldl (fun stream f => stream ++ [mkGetter (str "get_" ++ f_ident f) (f_type f) (f_ident f)]) [] fields)
  | _ => Panic
  end.

(** ** RuntimeDoc *)

Definition OS_LINE_ENDING : bytes := [0x0A].

Definition doc_line (m : Meta) : option bytes :=
  match m with
  | NameValueStr path lit => if bool_decide (path = str "doc") then Some (utf8_trim lit) else None
  | _ => None
  end.

Definition collect_docs (attrs : list Meta) : bytes :=
  join OS_LINE_ENDING (filter (fun doc => doc <> []) (omap doc_line attrs)).

(** [pub fn name() -> &'static str { doc }]. *)
Record DocFn : Type := mkDocFn { d_name : bytes; d_doc : bytes }.

Definition doc_fn_name (name : option bytes) : bytes :=
  match name with Some x => str "doc_" ++ x | None => str "doc" end.

(** The identifiers that have documentation; a variant by its name in lower case, here of
    ASCII identifiers. *)
Definition documented (d : SynData) : M (list (bytes * bytes)) :=
  match d with
  | StructNamed fields => Ret ((fun f => (f_ident f, collect_docs (f_attrs f))) <$> fields)
  | StructOther => Ret []
  | Enum variants => Ret ((fun v => (to_lower (v_ident v), collect_docs (v_attrs v))) <$> variants)
  | Union => Panic
  end.

Definition derive_runtime_doc (ast : DeriveInput) : M (bytes * list DocFn) :=
  let! docs := documented (di_data ast) in
  Ret (di_ident ast,
       foldl (fun stream '(name, doc) =>
                if decide (doc = []) then stream else stream ++ [mkDocFn (doc_fn_name name) doc])
         [] ((None, collect_docs (di_attrs ast)) :: ((fun '(ident, doc) => (Some ident, doc)) <$> docs))).

(** ** Lemmas *)

Lemma foldl_snoc {A B} (f : A -> B) acc l : foldl (fun s x => s ++ [f x]) acc l = acc ++ (f <$> l).
Proof.
  revert acc. induction l as [|x l IH]; intros acc; [by rewrite app_nil_r|]. cbn. rewrite IH. by rewrite <- app_assoc.
Qed.

Lemma foldl_docs acc l :
  foldl (fun stream '(name, doc) => if decide (doc = []) then stream else stream ++ [mkDocFn (doc_fn_name name) doc]) acc l
  = acc ++ ((fun '(name, doc) => mkDocFn (doc_fn_name name) doc) <$> filter (fun p => p.2 <> []) l).
Proof.
  revert acc. induction l as [|[name doc] l IH]; intros acc; [by rewrite app_nil_r|]. cbn [foldl].
  rewrite IH. rewrite filter_cons. cbn [snd]. destruct (decide (doc = [])) as [->|Hd].
  - by rewrite decide_False by (intros H; by apply H).
  - rewrite decide_True by done. by rewrite <- app_assoc.
Qed.

#[export] Instance doc_fn_name_inj : Inj (=) (=) doc_fn_name.
Proof. intros a b. destruct a, b; cbn; intros H; try discriminate; [|done]. injection H as H. by f_equal. Qed.

Lemma NoDup_filter_fst {A B} (P : A * B -> Prop) `{!forall x, Decision (P x)} (l : list (A * B)) :
  NoDup l.*1 -> NoDup (filter P l).*1.
Proof.
  induction l as [|x l IH]; intros Hn; [constructor|]. cbn in Hn. apply NoDup_cons in Hn as [Hx Hn].
  rewrite filter_cons. destruct (decide (P x)); [|by apply IH]. cbn. constructor; [|by apply IH].
  intros (y & Ey & Hy)%list_elem_of_fmap. apply Hx. rewrite Ey. apply list_elem_of_fmap. exists y. split; [done|].
  by apply list_elem_of_filter in Hy as [_ Hy].
Qed.

(** ** Properties *)

(** The accessors of a struct are one for each of its fields, in order, each named after
    the field it returns; their names are distinct because the fields' are. *)
Theorem getters_exact name attrs fields : NoDup (f_ident <$> fields) ->
  exists fns, derive_getter (mkDeriveInput name attrs (StructNamed fields)) = Ret (name, fns) /\
    g_field <$> fns = f_ident <$> fields /\ g_type <$> fns = f_type <$> fields /\
    Forall (fun g => g_name g = str "get_" ++ g_field g) fns /\ NoDup (g_name <$> fns).
Proof.
  intros Hd. eexists. cbn [derive_getter di_data di_ident]. rewrite foldl_snoc. cbn [app]. split; [reflexivity|].
  rewrite <- !list_fmap_compose. split; [done|]. split; [done|]. split.
  - apply Forall_fmap, Forall_true. done.
  - replace (g_name ∘ _ <$> fields) with ((fun x => str "get_" ++ x) <$> (f_ident <$> fields))
      by (by rewrite <- list_fmap_compose). by apply (NoDup_fmap_2 _).
Qed.

(** The documentation functions of a type: [doc] and the [doc_]-prefixed one of every
    identifier are there exactly when it is documented, and return its documentation.  Their names are
    distinct when the identifiers, for variants in lower case, are. *)
Theorem runtime_docs_exact ast docs :
  documented (di_data ast) = Ret docs -> NoDup docs.*1 ->
  exists fns, derive_runtime_doc ast = Ret (di_ident ast, fns) /\ NoDup (d_name <$> fns) /\
    (forall doc, mkDocFn (str "doc") doc ∈ fns <-> doc = collect_docs (di_attrs ast) /\ doc <> []) /\
    (forall x doc, mkDocFn (str "doc_" ++ x) doc ∈ fns <-> (x, doc) ∈ docs /\ doc <> []).
Proof.
  intros Ed Hd. unfold derive_runtime_doc. rewrite Ed. cbn [bindM]. rewrite foldl_docs. cbn [app].
  set (l := (None, _) :: _). eexists. split; [reflexivity|].
  assert (forall name doc, mkDocFn (doc_fn_name name) doc
      ∈ (fun '(name, doc) => mkDocFn (doc_fn_name name) doc) <$> filter (fun p => p.2 <> []) l
    <-> (name, doc) ∈ l /\ doc <> []) as Hin.
  { intros name doc. split.
    - intros ([name' doc'] & [= Hn ->] & [Hne Hl]%list_elem_of_filter)%list_elem_of_fmap.
      apply (inj _) in Hn as ->. done.
    - intros [Hl Hne]. apply list_elem_of_fmap. exists (name, doc). split; [done|]. by apply list_elem_of_filter. }
  split_and!.
  - replace (d_name <$> _) with (doc_fn_name <$> (filter (fun p : option bytes * bytes => p.2 <> []) l).*1).
    2: { rewrite <- !list_fmap_compose. apply list_fmap_ext. by intros i [] _. }
    apply (NoDup_fmap_2 _), NoDup_filter_fst. subst l. cbn. rewrite <- list_fmap_compose. constructor.
    + intros ([x d] & ? & _)%list_elem_of_fmap. done.
    + replace (fst ∘ _ <$> docs) with (Some <$> docs.*1); [by apply (NoDup_fmap_2 _)|].
      rewrite <- list_fmap_compose. apply list_fmap_ext. by intros i [] _.
  - intros doc. rewrite (Hin None doc). subst l. rewrite elem_of_cons. split; [|naive_solver].
    intros [[[= ->]|([x d] & ? & _)%list_elem_of_fmap] ?]; done.
  - intros x doc. rewrite (Hin (Some x) doc). subst l. rewrite elem_of_cons, list_elem_of_fmap. split.
    + intros [[?|([y d] & [= -> ->] & ?)] ?]; done.
    + intros [H ?]. split; [|done]. right. by exists (x, doc).
Qed.

(** Variants that differ in the case of letters only get functions of the same name, which
    the compiler refuses. *)
Lemma variant_docs_collide :
  let v x := mkVariant x [NameValueStr (str "doc") (str " a")] in
  derive_runtime_doc (mkDeriveInput (str "E") [] (Enum [v (str "Ip"); v (str "IP")]))
  = Ret (str "E", [mkDocFn (str "doc_ip") (str "a"); mkDocFn (str "doc_ip") (str "a")]).
Proof. vm_compute. reflexivity. Qed.

(** The example of the documentation of the macro. *)
Lemma runtime_docs_exact_witness :
  exists fns, derive_runtime_doc (mkDeriveInput (str "Foo1") [NameValueStr (str "doc") (str " Trololo")]
    (Enum [mkVariant (str "Bar") [NameValueStr (str "doc") (str " Haha")]; mkVariant (str "Baz") [OtherMeta]]))
    = Ret (str "Foo1", fns) /\ NoDup (d_name <$> fns) /\ mkDocFn (str "doc_bar") (str "Haha") ∈ fns.
Proof.
  destruct (runtime_docs_exact (mkDeriveInput (str "Foo1") [NameValueStr (str "doc") (str " Trololo")]
    (Enum [mkVariant (str "Bar") [NameValueStr (str "doc") (str " Haha")]; mkVariant (str "Baz") [OtherMeta]]))
    [(str "bar", str "Haha"); (str "baz", [])]) as (fns & E & Hd & _ & Hx).
  - vm_compute. reflexivity.
  - apply (bool_decide_eq_true_1 _). vm_compute. reflexivity.
  - exists fns. split_and!; [exact E|exact Hd|]. apply (Hx (str "bar") (str "Haha")). split; [left|done].
Defined.
