(* ===== verification/IpText.v ===== *)
(** * Addresses as text

    The [FromStr] and [Display] instances of [IpAddr] and [SocketAddr] of the standard
    library, which lib/src/http_downstream.rs and endpoint/src/main.rs read addresses
    with: the recursive descent parser of [core::net], and the canonical forms. *)

From S2P Require Import Prelude.
From S2P Require Import Codecs.
From S2P Require Import Varint.
From S2P Require Import NetUtils.
From S2P Require Import ForwardedStream.
From S2P Require Import Http1Codec.
From S2P Require Import ReverseProxy.

(** ** The parser *)

(** [char::to_digit]. *)
Definition to_digit (radix c : Z) : option Z :=
  match hex_value c with Some v => if v <? radix then Some v else None | None => None end.

Fixpoint take_digits (radix : Z) (s : bytes) : list Z * bytes :=
  match s with
  | [] => ([], [])
  | c :: r =>
      match to_digit radix c with
      | Some d => let (ds, rest) := take_digits radix r in (d :: ds, rest)
      | None => ([], s)
      end
  end.

Definition digits_val (radix : Z) (ds : list Z) : Z := fold_left (fun a d => a * radix + d) ds 0.

(** [read_number] of a type whose greatest value is [bound]. *)
Definition read_number (radix bound : Z) (max_digits : option nat) (allow_zero_prefix : bool) (s : bytes)
  : option (Z * bytes) :=
  let (ds, rest) := take_digits radix s in
  let too_long := match max_digits with Some m => (m <? length ds)%nat | None => false end in
  let zero_prefix := match ds with 0 :: _ :: _ => true | _ => false end in
  if (length ds =? 0)%nat || too_long || (negb allow_zero_prefix && zero_prefix)
     || (bound <? digits_val radix ds) then None
  else Some (digits_val radix ds, rest).

Definition read_given_char (c : Z) (s : bytes) : option bytes :=
  match s with x :: r => if x =? c then Some r else None | [] => None end.

Definition read_separator {A} (sep : Z) (index : nat) (inner : bytes -> option (A * bytes)) (s : bytes)
  : option (A * bytes) :=
  match index with
  | O => inner s
  | S _ => match read_given_char sep s with Some s => inner s | None => None end
  end.

Definition read_octet : bytes -> option (Z * bytes) := read_number 10 255 (Some 3%nat) false.

Definition read_ipv4_addr (s : bytes) : option (bytes * bytes) :=
  match read_octet s with
  | None => None
  | Some (a, s) =>
      match read_separator 0x2E 1 read_octet s with
      | None => None
      | Some (b, s) =>
          match read_separator 0x2E 2 read_octet s with
          | None => None
          | Some (c, s) =>
              match read_separator 0x2E 3 read_octet s with
              | None => None
              | Some (d, s) => Some ([a; b; c; d], s)
              end
          end
      end
  end.

(** [read_groups] on a slice of [limit] groups: the groups read, whether they end in an
    embedded IPv4 address, and the rest. *)
Fixpoint read_groups (limit todo : nat) (groups : list Z) (s : bytes) : list Z * bool * bytes :=
  match todo with
  | O => (groups, false, s)
  | S todo =>
      let i := length groups in
      match (if (i <? limit - 1)%nat then read_separator 0x3A i read_ipv4_addr s else None) with
      | Some (o, rest) => (groups ++ [be_val (take 2 o); be_val (drop 2 o)], true, rest)
      | None =>
          match read_separator 0x3A i (read_number 16 0xFFFF (Some 4%nat) true) s with
          | Some (g, rest) => read_groups limit todo (groups ++ [g]) rest
          | None => (groups, false, s)
          end
      end
  end.

Definition read_ipv6_addr (s : bytes) : option (list Z * bytes) :=
  let '(head, head_ipv4, s) := read_groups 8 8 [] s in
  if (length head =? 8)%nat then Some (head, s)
  else if head_ipv4 then None
  else
    match read_given_char 0x3A s with
    | None => None
    | Some s =>
        match read_given_char 0x3A s with
        | None => None
        | Some s =>
            let limit := (8 - (length head + 1))%nat in
            let '(tail, _, s) := read_groups limit limit [] s in
            Some (head ++ replicate (8 - length head - length tail) 0 ++ tail, s)
        end
    end.

(** The octets of eight groups. *)
Definition groups_octets (groups : list Z) : bytes := groups ≫= be_bytes 2.

Definition read_ip_addr (s : bytes) : option (IpAddr * bytes) :=
  match read_ipv4_addr s with
  | Some (o, s) => Some (IpV4 o, s)
  | None => match read_ipv6_addr s with Some (g, s) => Some (IpV6 (groups_octets g), s) | None => None end
  end.

Definition read_port (s : bytes) : option (Z * bytes) :=
  match read_given_char 0x3A s with Some s => read_number 10 0xFFFF None true s | None => None end.

(** The scope of a link-local address, zero when there is none. *)
Definition read_scope_id (s : bytes) : Z * bytes :=
  match read_given_char 0x25 s with
  | None => (0, s)
  | Some s' => match read_number 10 0xFFFFFFFF None true s' with Some r => r | None => (0, s) end
  end.

Definition read_socket_addr_v6 (s : bytes) : option (SocketAddr * Z * bytes) :=
  match read_given_char 0x5B s with
  | None => None
  | Some s =>
      match read_ipv6_addr s with
      | None => None
      | Some (g, s) =>
          let (scope_id, s) := read_scope_id s in
          match read_given_char 0x5D s with
          | None => None
          | Some s =>
              match read_port s with
              | Some (port, s) => Some (mkAddr (IpV6 (groups_octets g)) port, scope_id, s)
              | None => None
              end
          end
      end
  end.

Definition read_socket_addr (s : bytes) : option (SocketAddr * Z * bytes) :=
  match read_ipv4_addr s with
  | Some (o, r) =>
      match read_port r with
      | Some (port, r) => Some (mkAddr (IpV4 o) port, 0, r)
      | None => read_socket_addr_v6 s
      end
  | None => read_socket_addr_v6 s
  end.

(** [IpAddr::from_str] and [SocketAddr::from_str], the latter with the scope. *)
Definition ip_from_str (s : bytes) : option IpAddr :=
  match read_ip_addr s with Some (ip, []) => Some ip | _ => None end.

Definition socket_from_str (s : bytes) : option (SocketAddr * Z) :=
  match read_socket_addr s with Some (a, scope, []) => Some (a, scope) | _ => None end.

(** ** The printer *)

Definition ipv4_to_string (o : bytes) : bytes :=
  match o with
  | [a; b; c; d] => decimal a ++ [0x2E] ++ decimal b ++ [0x2E] ++ decimal c ++ [0x2E] ++ decimal d
  | _ => []
  end.

Fixpoint hex_string (fuel : nat) (n : Z) (acc : bytes) : bytes :=
  match fuel with
  | O => acc
  | S fuel =>
      let d := n mod 16 in
      let acc := (if d <? 10 then 0x30 + d else 0x57 + d) :: acc in
      if n / 16 =? 0 then acc else hex_string fuel (n / 16) acc
  end.

Fixpoint fmt_subslice (groups : list Z) : bytes :=
  match groups with
  | [] => []
  | [g] => hex_string 4 g []
  | g :: groups => hex_string 4 g [] ++ 0x3A :: fmt_subslice groups
  end.

(** The longest run of zero groups, the first of them: where it starts and its length. *)
Fixpoint longest_zeroes (i : nat) (groups : list Z) (current longest : nat * nat) : nat * nat :=
  match groups with
  | [] => longest
  | g :: groups =>
      if g =? 0 then
        let current := if (snd current =? 0)%nat then (i, 1%nat) else (fst current, S (snd current)) in
        longest_zeroes (S i) groups current (if (snd longest <? snd current)%nat then current else longest)
      else longest_zeroes (S i) groups (0, 0)%nat longest
  end.

(** The eight groups of an address. *)
Fixpoint octets_groups (o : bytes) : list Z :=
  match o with a :: b :: o => a * 256 + b :: octets_groups o | _ => [] end.

Definition ipv6_to_string (o : bytes) : bytes :=
  if bool_decide (take 12 o = replicate 10 0 ++ [0xFF; 0xFF]) then str "::ffff:" ++ ipv4_to_string (drop 12 o)
  else
    let groups := octets_groups o in
    let (start, n) := longest_zeroes 0 groups (0, 0)%nat (0, 0)%nat in
    if (1 <? n)%nat then fmt_subslice (take start groups) ++ str "::" ++ fmt_subslice (drop (start + n) groups)
    else fmt_subslice groups.

Definition ip_to_string (ip : IpAddr) : bytes :=
  match ip with IpV4 o => ipv4_to_string o | IpV6 o => ipv6_to_string o end.

Definition socket_to_string (a : SocketAddr) (scope : Z) : bytes :=
  match addr_ip a with
  | IpV4 o => ipv4_to_string o ++ [0x3A] ++ decimal (addr_port a)
  | IpV6 o =>
      [0x5B] ++ ipv6_to_string o ++ (if scope =? 0 then [] else 0x25 :: decimal scope) ++ [0x5D; 0x3A]
      ++ decimal (addr_port a)
  end.

(** ** Samples *)

Example ip_samples :
  ip_from_str (str "1.2.3.4") = Some (IpV4 [1; 2; 3; 4]) /\ ip_from_str (str "01.2.3.4") = None /\
  ip_from_str (str "256.2.3.4") = None /\
  ip_from_str (str "2001:db8::1") = Some (IpV6 [32; 1; 13; 184; 0; 0; 0; 0; 0; 0; 0; 0; 0; 0; 0; 1]) /\
  ip_from_str (str "::ffff:10.0.0.1") = Some (IpV6 [0; 0; 0; 0; 0; 0; 0; 0; 0; 0; 255; 255; 10; 0; 0; 1]) /\
  ip_from_str (str "1:2:3:4:5:6:7") = None /\ ip_from_str (str "[::1]") = None.
Proof. vm_compute. split_and!; reflexivity. Qed.

Example socket_samples :
  socket_from_str (str "[::1]:00443") = Some (mkAddr (IpV6 (replicate 15 0 ++ [1])) 443, 0) /\
  socket_from_str (str "1.2.3.4:65536") = None /\ socket_from_str (str "vpn.example.com:443") = None /\
  socket_from_str (str "[::1]") = None /\
  socket_to_string (mkAddr (IpV6 [32; 1; 13; 184; 0; 0; 0; 0; 0; 1; 0; 0; 0; 0; 0; 1]) 443) 0
    = str "[2001:db8::1:0:0:1]:443".
Proof. vm_compute. split_and!; reflexivity. Qed.

(** ** Reading what was printed *)

(** The rest of a text does not go on with a digit. *)
Definition stops (radix : Z) (rest : bytes) : Prop :=
  match rest with [] => True | c :: _ => to_digit radix c = None end.

Lemma take_digits_app radix s rest ds :
  take_digits radix s = (ds, []) -> stops radix rest -> take_digits radix (s ++ rest) = (ds, rest).
Proof.
  intros Hs Hrest. revert ds Hs. induction s as [|c s IH]; intros ds; simpl.
  - intros [= <-]. destruct rest as [|c rest]; [done|]. simpl in *. by rewrite Hrest.
  - destruct (to_digit radix c); [|done]. destruct (take_digits radix s) as [ds' r]. intros [= <- ->].
    by rewrite (IH ds' eq_refl).
Qed.

Lemma read_number_app radix bound md az s v rest :
  read_number radix bound md az s = Some (v, []) -> stops radix rest ->
  read_number radix bound md az (s ++ rest) = Some (v, rest).
Proof.
  unfold read_number. destruct (take_digits radix s) as [ds r] eqn:E. destruct (_ || _) eqn:Eb; [done|].
  intros [= <- ->] Hrest. by rewrite (take_digits_app _ _ _ _ E Hrest), Eb.
Qed.

(** A statement about every number below a bound, by evaluation. *)
Fixpoint all_below (f : Z -> bool) (n : nat) (i : Z) : bool :=
  match n with O => true | S n => f i && all_below f n (i + 1) end.

Lemma all_below_spec f n i k : all_below f n i = true -> i <= k < i + Z.of_nat n -> f k = true.
Proof.
  revert i. induction n as [|n IH]; intros i; simpl; [lia|]. rewrite andb_true_iff. intros [Hf Hall] Hk.
  destruct (decide (k = i)) as [->|]; [done|]. apply (IH (i + 1)); [done|lia].
Qed.

Definition reads_as (r : option (Z * bytes)) (n : Z) : bool :=
  match r with Some (v, []) => v =? n | _ => false end.

Lemma reads_as_spec r n : reads_as r n = true -> r = Some (n, []).
Proof. destruct r as [[v [|]]|]; simpl; [|done|done]. by intros ->%Z.eqb_eq. Qed.

Lemma octet_reads n : 0 <= n < 256 -> read_octet (decimal n) = Some (n, []).
Proof.
  intros H. apply reads_as_spec.
  apply (all_below_spec (fun n => reads_as (read_octet (decimal n)) n) 256 0); [vm_compute; reflexivity|lia].
Qed.

Lemma digit_value c : is_digit c = true -> hex_value c = Some (c - 0x30) /\ to_digit 10 c = Some (c - 0x30).
Proof.
  unfold is_digit, to_digit, hex_value, in_range. intros H. rewrite H. split; [done|].
  apply andb_true_iff in H as [H1%Z.leb_le H2%Z.leb_le]. by destruct (Z.ltb_spec (c - 0x30) 10); [|lia].
Qed.

Lemma take_decimal_digits ds :
  forallb is_digit ds = true -> take_digits 10 ds = ((fun c => c - 0x30) <$> ds, []).
Proof.
  induction ds as [|c ds IH]; [done|]. simpl. intros [Hc Hds]%andb_true_iff.
  by rewrite (proj2 (digit_value c Hc)), IH.
Qed.

Lemma port_reads n : 0 <= n < 2 ^ 16 -> read_number 10 0xFFFF None true (decimal n) = Some (n, []).
Proof.
  intros H. destruct (decimal_digits_spec 20 n []) as (ds & E1 & E2 & E3 & E4); [lia|lia|].
  unfold decimal. rewrite E1, app_nil_r. unfold read_number. rewrite take_decimal_digits by done.
  assert (digits_val 10 ((fun c => c - 0x30) <$> ds) = n) as ->.
  { rewrite <- E4. unfold digits_val, digits_value. clear. generalize 0. induction ds as [|c ds IH]; intros a; [done|].
    simpl. apply IH. }
  destruct ds as [|c ds]; [done|]. simpl. by destruct (Z.ltb_spec 65535 n); [lia|].
Qed.

Definition is_hexadecimal (c : Z) : bool := bool_decide (is_Some (hex_value c)).

Definition hex_char (d : Z) : Z := if d <? 10 then 0x30 + d else 0x57 + d.

Lemma hex_char_value d : 0 <= d < 16 -> hex_value (hex_char d) = Some d.
Proof.
  intros H. unfold hex_char, hex_value, in_range.
  destruct (Z.ltb_spec d 10); repeat case_bool; simpl; try lia; f_equal; lia.
Qed.

Lemma hex_string_spec fuel n acc :
  0 <= n < 16 ^ Z.of_nat fuel -> (0 < fuel)%nat ->
  exists ds, hex_string fuel n acc = (hex_char <$> ds) ++ acc /\ ds <> [] /\ Forall (fun d => 0 <= d < 16) ds /\
    digits_val 16 ds = n /\ (length ds <= fuel)%nat.
Proof.
  revert n acc. induction fuel as [|fuel IH]; intros n acc Hn Hf; [lia|]. cbn [hex_string].
  pose proof (Z.mod_pos_bound n 16). pose proof (Z.div_mod n 16). fold (hex_char (n mod 16)).
  destruct (Z.eqb_spec (n / 16) 0) as [E|E].
  - exists [n mod 16]. split_and!; [done|done|repeat constructor; lia|unfold digits_val; simpl; lia|simpl; lia].
  - destruct fuel as [|fuel]; [cbn in Hn; lia|].
    destruct (IH (n / 16) (hex_char (n mod 16) :: acc)) as (ds & E1 & E2 & E3 & E4 & E5); [|lia|].
    { rewrite Nat2Z.inj_succ, Z.pow_succ_r in Hn by lia. lia. }
    exists (ds ++ [n mod 16]). rewrite E1, fmap_app, <- app_assoc. split_and!; [done|by destruct ds| | |].
    + apply Forall_app_2; [done|]. repeat constructor; lia.
    + unfold digits_val in *. rewrite fold_left_app, E4. simpl. lia.
    + rewrite length_app. simpl. lia.
Qed.

Lemma group_text g :
  0 <= g < 2 ^ 16 ->
  read_number 16 0xFFFF (Some 4%nat) true (hex_string 4 g []) = Some (g, []) /\
  forallb is_hexadecimal (hex_string 4 g []) = true /\ hex_string 4 g [] <> [].
Proof.
  intros H. destruct (hex_string_spec 4 g []) as (ds & E1 & E2 & E3 & E4 & E5); [simpl; lia|lia|].
  rewrite E1, app_nil_r. split_and!.
  - unfold read_number.
    assert (take_digits 16 (hex_char <$> ds) = (ds, [])) as ->.
    { clear -E3. induction E3 as [|d ds Hd _ IH]; [done|]. rewrite fmap_cons. cbn [take_digits]. unfold to_digit. rewrite hex_char_value by done.
      destruct (Z.ltb_spec d 16); [|lia]. by rewrite IH. }
    rewrite E4. destruct (Nat.ltb_spec 4 (length ds)); [lia|]. destruct ds as [|d ds]; [done|]. simpl.
    by destruct (Z.ltb_spec 65535 g); [lia|].
  - clear -E3. induction E3 as [|d ds Hd _ IH]; [done|]. rewrite fmap_cons. cbn [forallb]. rewrite IH, andb_true_r. unfold is_hexadecimal.
    rewrite hex_char_value by done. by apply bool_decide_eq_true.
  - by destruct ds.
Qed.

Lemma read_separator_next {A} c i (inner : bytes -> option (A * bytes)) s :
  read_separator c (S i) inner ([c] ++ s) = inner s.
Proof. simpl. by rewrite Z.eqb_refl. Qed.

Lemma read_ipv4_text o rest :
  wf_bytes o -> length o = 4%nat -> stops 10 rest -> read_ipv4_addr (ipv4_to_string o ++ rest) = Some (o, rest).
Proof.
  intros Hwf Hlen Hrest. destruct o as [|a [|b [|c [|d [|]]]]]; try done.
  unfold wf_bytes in Hwf. rewrite !Forall_cons in Hwf. destruct Hwf as (Ha & Hb & Hc & Hd & _).
  unfold is_byte in *. unfold read_ipv4_addr, ipv4_to_string. rewrite <- !app_assoc.
  assert (forall n s, 0 <= n < 256 -> stops 10 s -> read_octet (decimal n ++ s) = Some (n, s)) as Ho
    by (intros n s Hn Hs; by apply read_number_app; [apply octet_reads|]).
  by rewrite Ho, read_separator_next, Ho, read_separator_next, Ho, read_separator_next, Ho.
Qed.

(** A group is not taken for an embedded IPv4 address. *)
Definition no_dot (rest : bytes) : Prop :=
  match rest with [] => True | c :: _ => c <> 0x2E /\ hex_value c = None end.

Lemma read_ipv4_not_group s rest : forallb is_hexadecimal s = true -> no_dot rest -> read_ipv4_addr (s ++ rest) = None.
Proof.
  intros Hs Hrest.
  assert (forall ds r, take_digits 10 (s ++ rest) = (ds, r) -> match r with [] => True | c :: _ => c <> 0x2E end) as Hr.
  { clear -Hs Hrest. induction s as [|c s IH]; intros ds r; simpl.
    - destruct rest as [|c rest]; simpl; [by intros [= <- <-]|]. destruct Hrest as [Hne Hv]. unfold to_digit.
      rewrite Hv. by intros [= <- <-].
    - simpl in Hs. apply andb_true_iff in Hs as [Hc Hs].
      destruct (to_digit 10 c).
      + destruct (take_digits 10 (s ++ rest)) as [ds' r'] eqn:E. intros [= <- <-]. by eapply IH.
      + intros [= <- <-]. intros ->. done. }
  unfold read_ipv4_addr, read_octet, read_number. destruct (take_digits 10 (s ++ rest)) as [ds r] eqn:E.
  destruct (_ || _); [done|]. specialize (Hr _ _ eq_refl). destruct r as [|c r]; simpl; [done|].
  by rewrite (proj2 (Z.eqb_neq _ _) Hr).
Qed.

(** The text of groups that follow others, or that come first. *)
Definition groups_text (i : nat) (gs : list Z) : bytes :=
  match i with O => fmt_subslice gs | S _ => gs ≫= (fun g => 0x3A :: hex_string 4 g []) end.

Lemma fmt_subslice_cons g gs : fmt_subslice (g :: gs) = hex_string 4 g [] ++ groups_text 1 gs.
Proof.
  revert g. induction gs as [|h gs IH]; intros g; [simpl; by rewrite app_nil_r|].
  change (fmt_subslice (g :: h :: gs)) with (hex_string 4 g [] ++ 0x3A :: fmt_subslice (h :: gs)).
  rewrite IH. done.
Qed.

Lemma groups_text_cons i g gs :
  groups_text i (g :: gs) = (match i with O => [] | S _ => [0x3A] end) ++ hex_string 4 g [] ++ groups_text (S i) gs.
Proof. destruct i; [apply fmt_subslice_cons|done]. Qed.

(** What comes after the groups is neither a group nor an address. *)
Definition ends_groups (rest : bytes) : Prop :=
  match rest with
  | [] => True
  | c :: r => hex_value c = None /\ c <> 0x2E /\
      (c = 0x3A -> match r with [] => True | d :: _ => hex_value d = None end)
  end.

Lemma to_digit_none radix c : hex_value c = None -> to_digit radix c = None.
Proof. intros H. unfold to_digit. by rewrite H. Qed.

Lemma read_number_none radix bound md az c r : hex_value c = None -> read_number radix bound md az (c :: r) = None.
Proof. intros H. unfold read_number. simpl. by rewrite to_digit_none. Qed.

Lemma ends_groups_stop rest i :
  ends_groups rest ->
  read_separator 0x3A i read_ipv4_addr rest = None /\
  read_separator 0x3A i (read_number 16 0xFFFF (Some 4%nat) true) rest = None.
Proof.
  destruct rest as [|c r]; intros H; [by destruct i|]. destruct H as (Hc & Hdot & Hcolon).
  assert (forall d r, hex_value d = None -> read_ipv4_addr (d :: r) = None) as Hip
    by (intros d r' Hd; unfold read_ipv4_addr, read_octet; by rewrite read_number_none).
  destruct i as [|i]; simpl; [by rewrite Hip, read_number_none|].
  destruct (Z.eqb_spec c 0x3A) as [->|]; [|done]. specialize (Hcolon eq_refl). destruct r as [|d r]; [done|].
  by rewrite Hip, read_number_none.
Qed.

Lemma read_groups_text limit gs acc todo rest :
  Forall (fun g => 0 <= g < 2 ^ 16) gs -> (length gs <= todo)%nat -> (length acc + todo = limit)%nat ->
  ends_groups rest ->
  read_groups limit todo acc (groups_text (length acc) gs ++ rest) = (acc ++ gs, false, rest).
Proof.
  intros Hgs. revert acc todo. induction Hgs as [|g gs Hg Hgs IH]; intros acc todo Hlen Hlim Hrest.
  - replace (groups_text (length acc) [] ++ rest) with rest by (by destruct (length acc)). rewrite app_nil_r.
    destruct todo as [|todo]; [done|]. simpl.
    destruct (ends_groups_stop rest (length acc) Hrest) as [E1 E2]. rewrite E1, E2. by destruct (_ <? _)%nat.
  - destruct todo as [|todo]; [simpl in Hlen; lia|]. destruct (group_text g Hg) as (Hread & Hhex & Hne).
    rewrite groups_text_cons, <- !app_assoc. cbn [read_groups].
    assert (no_dot (groups_text (S (length acc)) gs ++ rest) /\ stops 16 (groups_text (S (length acc)) gs ++ rest))
      as [Hnd Hst].
    { destruct gs as [|h gs]; simpl; [|done]. destruct rest as [|c r]; [done|].
      destruct Hrest as (Hc & Hdot & _). split; [done|]. by apply to_digit_none. }
    assert (read_separator 0x3A (length acc) read_ipv4_addr
      ((match length acc with O => [] | S _ => [0x3A] end)
        ++ hex_string 4 g [] ++ groups_text (S (length acc)) gs ++ rest) = None) as E1
      by (destruct (length acc); simpl; by apply read_ipv4_not_group).
    assert (read_separator 0x3A (length acc) (read_number 16 0xFFFF (Some 4%nat) true)
      ((match length acc with O => [] | S _ => [0x3A] end)
        ++ hex_string 4 g [] ++ groups_text (S (length acc)) gs ++ rest)
      = Some (g, groups_text (S (length acc)) gs ++ rest)) as E2
      by (destruct (length acc); simpl; by apply read_number_app).
    rewrite E1, E2. replace (if (_ <? _)%nat then None else None) with (@None (bytes * bytes)) by (by destruct (_ <? _)%nat).
    replace (S (length acc)) with (length (acc ++ [g])) by (rewrite length_app; simpl; lia).
    rewrite IH; [by rewrite <- app_assoc|simpl in Hlen; lia|rewrite length_app; simpl; lia|done].
Qed.

(** The run that is left out is a run of zeroes. *)
Lemma longest_zeroes_spec i pre groups current longest :
  length pre = i ->
  (snd current = 0%nat \/ exists p, pre = p ++ replicate (snd current) 0 /\ length p = fst current) ->
  (snd longest = 0%nat \/ exists p q, pre = p ++ replicate (snd longest) 0 ++ q /\ length p = fst longest) ->
  let r := longest_zeroes i groups current longest in
  snd r = 0%nat \/ exists p q, pre ++ groups = p ++ replicate (snd r) 0 ++ q /\ length p = fst r.
Proof.
  revert i pre current longest. induction groups as [|g groups IH]; intros i pre current longest Hi Hc Hl; simpl.
  - by rewrite app_nil_r.
  - destruct (Z.eqb_spec g 0) as [->|Hg].
    + set (current' := if (snd current =? 0)%nat then (i, 1%nat) else (fst current, S (snd current))).
      assert (exists p, pre ++ [0] = p ++ replicate (snd current') 0 /\ length p = fst current') as (p & Ep & Hp).
      { unfold current'. destruct (Nat.eqb_spec (snd current) 0) as [E|E]; simpl; [by exists pre|].
        destruct Hc as [Hc|(p & -> & Hp)]; [done|]. exists p. split; [|done].
        rewrite <- app_assoc. by rewrite <- replicate_cons_app. }
      replace (pre ++ 0 :: groups) with ((pre ++ [0]) ++ groups) by (by rewrite <- app_assoc).
      apply IH; [rewrite length_app; simpl; lia|right; eauto|].
      destruct (_ <? _)%nat; [right; exists p, []; by rewrite app_nil_r|].
      destruct Hl as [Hl|(p' & q' & -> & Hp')]; [by left|]. right. exists p', (q' ++ [0]). by rewrite <- !app_assoc.
    + replace (pre ++ g :: groups) with ((pre ++ [g]) ++ groups) by (by rewrite <- app_assoc).
      apply IH; [rewrite length_app; simpl; lia|by left|].
      destruct Hl as [Hl|(p' & q' & -> & Hp')]; [by left|]. right. exists p', (q' ++ [g]). by rewrite <- !app_assoc.
Qed.

Lemma octets_groups_ok o :
  wf_bytes o -> forall n, length o = (2 * n)%nat ->
  groups_octets (octets_groups o) = o /\ Forall (fun g => 0 <= g < 2 ^ 16) (octets_groups o) /\
  length (octets_groups o) = n.
Proof.
  intros Hwf n. revert o Hwf. induction n as [|n IH]; intros o Hwf Hlen; [by destruct o|].
  destruct o as [|a [|b o]]; simpl in Hlen; [lia|lia|].
  unfold wf_bytes in Hwf. rewrite !Forall_cons in Hwf. destruct Hwf as (Ha & Hb & Hwf). unfold is_byte in *.
  destruct (IH o Hwf) as (E & Hf & Hn); [lia|]. cbn [octets_groups]. split_and!.
  - unfold groups_octets in *. rewrite bind_cons, E. cbn [be_bytes]. simpl. f_equal; [div_lia|]. f_equal. div_lia.
  - constructor; [lia|done].
  - simpl. lia.
Qed.

(** What follows an address: the end, or the bracket and the scope of a socket address. *)
Definition after_ipv6 (rest : bytes) : Prop := match rest with [] => True | c :: _ => c = 0x5D \/ c = 0x25 end.

Lemma after_ipv6_ends rest : after_ipv6 rest -> ends_groups rest.
Proof. destruct rest as [|c r]; [done|]. by intros [-> | ->]. Qed.

Lemma read_compressed head tail rest :
  Forall (fun g => 0 <= g < 2 ^ 16) head -> Forall (fun g => 0 <= g < 2 ^ 16) tail ->
  (length head + length tail + 1 <= 7)%nat -> after_ipv6 rest ->
  read_ipv6_addr (fmt_subslice head ++ str "::" ++ fmt_subslice tail ++ rest)
    = Some (head ++ replicate (8 - length head - length tail) 0 ++ tail, rest).
Proof.
  intros Hh Ht Hlen Hrest. unfold read_ipv6_addr.
  change (fmt_subslice head) with (groups_text (length (@nil Z)) head).
  rewrite (read_groups_text 8 head [] 8 (str "::" ++ fmt_subslice tail ++ rest)); [|done|lia|done|by split_and!].
  cbn [app]. destruct (Nat.eqb_spec (length head) 8); [lia|]. change (str "::") with [0x3A; 0x3A]. cbn [app read_given_char].
  change (0x3A =? 0x3A) with true. cbn iota. cbn [read_given_char]. change (0x3A =? 0x3A) with true. cbn iota.
  pose proof (read_groups_text (8 - (length head + 1)) tail [] (8 - (length head + 1)) rest Ht ltac:(lia) eq_refl
    (after_ipv6_ends _ Hrest)) as E. cbn [length groups_text app] in E. by rewrite E.
Qed.

Lemma read_ipv6_text o rest :
  wf_bytes o -> length o = 16%nat -> after_ipv6 rest ->
  exists g, read_ipv6_addr (ipv6_to_string o ++ rest) = Some (g, rest) /\ groups_octets g = o.
Proof.
  intros Hwf Hlen Hrest. unfold ipv6_to_string.
  destruct (octets_groups_ok o Hwf 8) as (Eo & Hf & Hn); [done|]. case_bool_decide as Hm.
  - assert (wf_bytes (drop 12 o)) as Hwf4 by (by apply Forall_drop).
    assert (length (drop 12 o) = 4%nat) as Hl4 by (rewrite length_drop; lia).
    exists (replicate 5 0 ++ [0xFFFF; be_val (take 2 (drop 12 o)); be_val (drop 2 (drop 12 o))]). split.
    + assert (stops 10 rest) as Hst by (destruct rest as [|c r]; [done|]; by destruct Hrest as [-> | ->]).
      pose proof (read_ipv4_text (drop 12 o) rest Hwf4 Hl4 Hst) as Hip.
      rewrite <- app_assoc. unfold read_ipv6_addr.
      change (str "::ffff:" ++ ipv4_to_string (drop 12 o) ++ rest)
        with (0x3A :: 0x3A :: 0x66 :: 0x66 :: 0x66 :: 0x66 :: 0x3A :: (ipv4_to_string (drop 12 o) ++ rest)).
      change (read_groups 8 8 [] (0x3A :: 0x3A :: 0x66 :: 0x66 :: 0x66 :: 0x66 :: 0x3A :: (ipv4_to_string (drop 12 o) ++ rest)))
        with (@nil Z, false, 0x3A :: 0x3A :: 0x66 :: 0x66 :: 0x66 :: 0x66 :: 0x3A :: (ipv4_to_string (drop 12 o) ++ rest)).
      cbn [length Nat.eqb read_given_char]. change (0x3A =? 0x3A) with true. cbn iota.
      cbn [read_given_char]. change (0x3A =? 0x3A) with true. cbn iota.
      change (8 - (0 + 1))%nat with 7%nat.
      assert (read_groups 7 7 [] (0x66 :: 0x66 :: 0x66 :: 0x66 :: 0x3A :: (ipv4_to_string (drop 12 o) ++ rest))
        = read_groups 7 6 [0xFFFF] (0x3A :: (ipv4_to_string (drop 12 o) ++ rest))) as -> by reflexivity.
      assert (read_groups 7 6 [0xFFFF] (0x3A :: (ipv4_to_string (drop 12 o) ++ rest))
        = ([0xFFFF; be_val (take 2 (drop 12 o)); be_val (drop 2 (drop 12 o))], true, rest)) as ->.
      { cbn [read_groups length]. change (1 <? 7 - 1)%nat with true. cbn iota.
        change (0x3A :: (ipv4_to_string (drop 12 o) ++ rest)) with ([0x3A] ++ ipv4_to_string (drop 12 o) ++ rest).
        rewrite (read_separator_next 0x3A 0 read_ipv4_addr), Hip. done. }
      done.
    + rewrite <- (take_drop 12 o) at 3. rewrite Hm.
      destruct (drop 12 o) as [|a [|b [|c [|d [|]]]]] eqn:Ed; try done.
      unfold wf_bytes in Hwf4. rewrite !Forall_cons in Hwf4. destruct Hwf4 as (Ha & Hb & Hc & Hd & _). unfold is_byte in *.
      unfold be_val, groups_octets. simpl. repeat f_equal; div_lia.
  - pose proof (longest_zeroes_spec 0 [] (octets_groups o) (0, 0)%nat (0, 0)%nat eq_refl (or_introl eq_refl) (or_introl eq_refl)) as Hz.
    destruct (longest_zeroes 0 (octets_groups o) (0, 0)%nat (0, 0)%nat) as [start n]. simpl in Hz.
    destruct (Nat.ltb_spec 1 n) as [H1|H1].
    + destruct Hz as [Hz|(p & q & Ez & Hp)]; [lia|].
      assert (take start (octets_groups o) = p /\ drop (start + n) (octets_groups o) = q) as [-> ->].
      { rewrite Ez, <- Hp. split; [by rewrite take_app_length|].
        rewrite app_assoc, <- (length_replicate n 0), <- length_app at 1.
        by rewrite length_replicate, drop_app_length || by rewrite drop_app_length. }
      exists (octets_groups o). split; [|done]. rewrite Ez in Hf, Hn |- *. rewrite !Forall_app in Hf.
      destruct Hf as (Hfp & _ & Hfq). rewrite !length_app, length_replicate in Hn.
      rewrite <- !app_assoc, read_compressed by (done || lia). by replace (8 - length p - length q)%nat with n by lia.
    + exists (octets_groups o). split; [|done]. unfold read_ipv6_addr.
      change (fmt_subslice (octets_groups o)) with (groups_text (length (@nil Z)) (octets_groups o)).
      rewrite (read_groups_text 8 _ [] 8 rest); [|done|lia|done|by apply after_ipv6_ends].
      cbn [app]. by rewrite Hn.
Qed.

(** Every socket address is read back from its canonical text. *)
Lemma socket_text_roundtrip a : wf_addr a -> socket_from_str (socket_to_string a 0) = Some (a, 0).
Proof.
  destruct a as [[o|o] port]; intros [[Hwf Hlen] Hport]; cbn in Hwf, Hlen, Hport; unfold socket_to_string, socket_from_str; cbn [addr_ip addr_port].
  - unfold read_socket_addr. rewrite read_ipv4_text by done. change ([0x3A] ++ decimal port) with (0x3A :: decimal port).
    unfold read_port. cbn [read_given_char]. change (0x3A =? 0x3A) with true. cbn iota. by rewrite port_reads.
  - change (0 =? 0) with true. cbn iota.
    change ([0x5B] ++ ipv6_to_string o ++ [] ++ [0x5D; 0x3A] ++ decimal port)
      with (0x5B :: (ipv6_to_string o ++ 0x5D :: 0x3A :: decimal port)).
    unfold read_socket_addr. change (read_ipv4_addr (0x5B :: ?s)) with (@None (bytes * bytes)). cbn iota.
    unfold read_socket_addr_v6. cbn [read_given_char]. change (0x5B =? 0x5B) with true. cbn iota.
    destruct (read_ipv6_text o (0x5D :: 0x3A :: decimal port) Hwf Hlen) as (g & -> & Hg); [by left|].
    change (read_scope_id (0x5D :: 0x3A :: decimal port)) with (0, 0x5D :: 0x3A :: decimal port). cbn iota beta.
    cbn [read_given_char]. change (0x5D =? 0x5D) with true. cbn iota. unfold read_port. cbn [read_given_char].
    change (0x3A =? 0x3A) with true. cbn iota. rewrite port_reads by done. by rewrite Hg.
Qed.
