(* ===== verification/Settings.v ===== *)
(** * Settings, subscriptions and the start of the endpoint

    lib/src/settings.rs: the sections of the settings, their builders and their
    validation, and the readers of the credentials and rules files;
    lib/src/subscription.rs: the subscription section and its resolution;
    lib/src/core.rs: what [Core::new] makes of the settings, and the reloads.
    The file system, the TOML parser and the certificate verifier are parameters. *)

From S2P Require Import Prelude.
From S2P Require Import Codecs.
From S2P Require Import Varint.
From S2P Require Import NetUtils.
From S2P Require Import Icmp.
From S2P Require Import Rules.
From S2P Require Import Auth.
From S2P Require Import Tunnel.
From S2P Require Import Pipe.
From S2P Require Import TcpForwarder.
From S2P Require Import ForwardedStream.
From S2P Require Import TlsDemux.
From S2P Require Import UdpPipe.
From S2P Require Import IcmpForwarder.
From S2P Require Import Http1Codec.
From S2P Require Import ReverseProxy.

(** ** The sections *)

(** [ValidationError]; the text that only describes an error is dropped. *)
Inductive ValidationError : Type :=
| ListenAddressNotSet
| MainTlsHostInfo
| PingTlsHostInfo
| SpeedTlsHostInfo
| ReverseProxyError
| SubscriptionError
| ListenProtocolsError
| InvalidPath (path : bytes)
| NoCredentialsOnPublicAddress
| InvalidAuthFailureStatusCode (code : Z).

(** A [Duration], in nanoseconds. *)
Definition from_secs (n : Z) : Z := n * 10 ^ 9.
Definition as_secs (d : Z) : Z := d / 10 ^ 9.

Record Socks5ForwarderSettings : Type := mkSocks5Settings { sf_address : SocketAddr; sf_extended_auth : bool }.

Inductive ForwardProtocolSettings : Type :=
| DirectForward
| Socks5Forward (s : Socks5ForwarderSettings).

Record Http1Settings : Type := mkHttp1Settings { upload_buffer_size : Z }.

Record Http2Settings : Type := mkHttp2Settings {
  initial_connection_window_size : Z;
  initial_stream_window_size : Z;
  max_concurrent_streams : Z;
  max_frame_size : Z;
  header_table_size : Z;
}.

Record QuicSettings : Type := mkQuicSettings {
  recv_udp_payload_size : Z;
  send_udp_payload_size : Z;
  initial_max_data : Z;
  initial_max_stream_data_bidi_local : Z;
  initial_max_stream_data_bidi_remote : Z;
  initial_max_stream_data_uni : Z;
  initial_max_streams_bidi : Z;
  initial_max_streams_uni : Z;
  max_connection_window : Z;
  max_stream_window : Z;
  disable_active_migration : bool;
  enable_early_data : bool;
  quic_message_queue_capacity : Z;
}.

Record ListenProtocolSettings : Type := mkListenProtocols {
  lp_http1 : option Http1Settings;
  lp_http2 : option Http2Settings;
  lp_quic : option QuicSettings;
}.

Record IcmpSection : Type := mkIcmpSection {
  ic_interface_name : bytes;
  ic_request_timeout : Z;
  ic_recv_message_queue_capacity : Z;
}.

Record MetricsSettings : Type := mkMetricsSettings {
  ms_address : SocketAddr;
  ms_request_timeout : Z;
  ms_per_client_metrics : bool;
}.

(** subscription.rs *)
Record SubscriptionSettings : Type := mkSubscriptionSettings {
  ss_enabled : bool;
  ss_hostname : option bytes;
  ss_path : bytes;
  ss_address : option bytes;
  ss_name : option bytes;
  ss_dns_upstreams : list bytes;
  ss_custom_sni : option bytes;
  ss_client_random_prefix : option bytes;
}.

Definition subscription_default_path : bytes := str "/subscription".
Definition subscription_default : SubscriptionSettings :=
  mkSubscriptionSettings false None subscription_default_path None None [] None None.

Record Settings : Type := mkSettings {
  st_listen_address : SocketAddr;
  st_ipv6_available : bool;
  st_allow_private_network_connections : bool;
  st_tls_handshake_timeout : Z;
  st_client_listener_timeout : Z;
  st_connection_establishment_timeout : Z;
  st_tcp_connections_timeout : Z;
  st_udp_connections_timeout : Z;
  st_forward_protocol : ForwardProtocolSettings;
  st_listen_protocols : ListenProtocolSettings;
  st_clients : list Client;
  st_reverse_proxy : option ReverseProxySettings;
  st_subscription : option SubscriptionSettings;
  st_icmp : option IcmpSection;
  st_metrics : option MetricsSettings;
  st_rules_engine : option RulesEngine;
  st_speedtest_enable : bool;
  st_ping_enable : bool;
  st_ping_path : option bytes;
  st_speedtest_path : option bytes;
  st_auth_failure_status_code : Z;
  st_non_connect_auth_failure_status_code : option Z;
  st_default_max_http2_conns_per_client : option Z;
  st_default_max_http3_conns_per_client : option Z;
  st_built : bool;
}.

(** ** Validation *)

Definition ip_is_unspecified (ip : IpAddr) : bool := match ip with IpV4 o | IpV6 o => be_val o =? 0 end.

Definition is_valid_auth_failure_status_code (code : Z) : bool :=
  (code =? 407) || (code =? 405) || (code =? 404) || (code =? 403).

Definition validate_request_path (path : option bytes) : result ValidationError unit :=
  match path with
  | Some p => if (len p =? 0) || negb (starts_with [0x2F] p) then Err (InvalidPath p) else Ok tt
  | None => Ok tt
  end.

Definition paths_overlap (a b : bytes) : bool := bool_decide (a = b) || starts_with b a || starts_with a b.

Definition validate_request_path_overlaps (a b : option bytes) : result ValidationError unit :=
  match a, b with
  | Some a, Some b => if paths_overlap a b then Err (InvalidPath a) else Ok tt
  | _, _ => Ok tt
  end.

Definition reverse_proxy_validate (s : ReverseProxySettings) : result ValidationError unit :=
  if addr_port (rv_server_address s) =? 0 then Err ReverseProxyError
  else if (len (rv_path_mask s) =? 0) || negb (starts_with [0x2F] (rv_path_mask s)) then Err ReverseProxyError
  else Ok tt.

Definition settings_validate (s : Settings) : result ValidationError unit :=
  if ip_is_unspecified (addr_ip (st_listen_address s)) && (addr_port (st_listen_address s) =? 0)
  then Err ListenAddressNotSet
  else
    let? _ := match st_reverse_proxy s with Some p => reverse_proxy_validate p | None => Ok tt end in
    let? _ := validate_request_path (st_ping_path s) in
    let? _ := validate_request_path (st_speedtest_path s) in
    let? _ := validate_request_path_overlaps (st_ping_path s) (st_speedtest_path s) in
    match lp_http1 (st_listen_protocols s), lp_http2 (st_listen_protocols s), lp_quic (st_listen_protocols s) with
    | None, None, None => Err ListenProtocolsError
    | _, _, _ =>
        if (len (st_clients s) =? 0) && negb (addr_is_loopback (addr_ip (st_listen_address s)))
        then Err NoCredentialsOnPublicAddress
        else if negb (is_valid_auth_failure_status_code (st_auth_failure_status_code s))
        then Err (InvalidAuthFailureStatusCode (st_auth_failure_status_code s))
        else match st_non_connect_auth_failure_status_code s with
             | Some code => if negb (is_valid_auth_failure_status_code code)
                            then Err (InvalidAuthFailureStatusCode code) else Ok tt
             | None => Ok tt
             end
    end.

(** ** Defaults and builders *)

Definition default_listen_address : SocketAddr := mkAddr (IpV4 [0; 0; 0; 0]) 443.
Definition default_tls_handshake_timeout : Z := from_secs 10.
Definition default_client_listener_timeout : Z := from_secs (10 * 60).
Definition default_connection_establishment_timeout : Z := from_secs 30.
Definition default_tcp_connections_timeout : Z := from_secs 604800.
Definition default_udp_connections_timeout : Z := from_secs 300.
Definition default_speedtest_path : option bytes := Some (str "/speedtest").
Definition default_ping_path : option bytes := Some (str "/ping").
Definition default_auth_failure_status_code : Z := 407.

Definition http1_default : Http1Settings := mkHttp1Settings (32 * 1024).

Definition http2_default : Http2Settings :=
  mkHttp2Settings (8 * 1024 * 1024) (128 * 1024) 1000 (Z.shiftl 1 14) 65536.

Definition quic_default : QuicSettings :=
  mkQuicSettings 1350 1350 (100 * 1024 * 1024) (1024 * 1024) (1024 * 1024) (1024 * 1024) (4 * 1024) (4 * 1024)
    (24 * 1024 * 1024) (16 * 1024 * 1024) true true (4 * 1024).

Definition metrics_default : MetricsSettings := mkMetricsSettings (mkAddr (IpV4 [127; 0; 0; 1]) 1987) (from_secs 3) false.

Definition builder_new : Settings :=
  mkSettings default_listen_address true false default_tls_handshake_timeout default_client_listener_timeout
    default_connection_establishment_timeout default_tcp_connections_timeout default_udp_connections_timeout
    DirectForward (mkListenProtocols None None None) [] None None None None (Some default_allow) false false
    default_ping_path default_speedtest_path default_auth_failure_status_code None None None true.

(** A call of a method of [SettingsBuilder]; an address is given by what it resolves to. *)
Inductive SettingsOp : Type :=
| SetListenAddress (resolved : result ErrorKind (list SocketAddr))
| SetReverseProxy (s : ReverseProxySettings)
| SetSubscription (s : SubscriptionSettings)
| SetIpv6Available (v : bool)
| SetAllowPrivateNetworkConnections (v : bool)
| SetTlsHandshakeTimeout (v : Z)
| SetClientListenerTimeout (v : Z)
| SetConnectionEstablishmentTimeout (v : Z)
| SetTcpConnectionsTimeout (v : Z)
| SetUdpConnectionsTimeout (v : Z)
| SetForwarderSettings (s : ForwardProtocolSettings)
| SetListenProtocols (s : ListenProtocolSettings)
| SetClients (x : list Client)
| SetIcmp (x : IcmpSection)
| SetMetrics (x : MetricsSettings)
| SetRulesEngine (x : RulesEngine)
| SetSpeedtestEnable (x : bool)
| SetDefaultMaxHttp2 (x : option Z)
| SetDefaultMaxHttp3 (x : option Z)
| SetAuthFailureStatusCode (x : Z)
| SetNonConnectAuthFailureStatusCode (x : option Z)
| SetPingEnable (x : bool)
| SetPingPath (x : bytes)
| SetSpeedtestPath (x : bytes).

(** The first of the addresses a name resolves to. *)
Definition first_address (resolved : result ErrorKind (list SocketAddr)) : result ErrorKind SocketAddr :=
  match resolved with Err e => Err e | Ok [] => Err Other | Ok (a :: _) => Ok a end.

Definition builder_set (op : SettingsOp) (listen : SocketAddr) (s : Settings) : Settings :=
  mkSettings
    (match op with SetListenAddress _ => listen | _ => st_listen_address s end)
    (match op with SetIpv6Available v => v | _ => st_ipv6_available s end)
    (match op with SetAllowPrivateNetworkConnections v => v | _ => st_allow_private_network_connections s end)
    (match op with SetTlsHandshakeTimeout v => v | _ => st_tls_handshake_timeout s end)
    (match op with SetClientListenerTimeout v => v | _ => st_client_listener_timeout s end)
    (match op with SetConnectionEstablishmentTimeout v => v | _ => st_connection_establishment_timeout s end)
    (match op with SetTcpConnectionsTimeout v => v | _ => st_tcp_connections_timeout s end)
    (match op with SetUdpConnectionsTimeout v => v | _ => st_udp_connections_timeout s end)
    (match op with SetForwarderSettings x => x | _ => st_forward_protocol s end)
    (match op with SetListenProtocols x => x | _ => st_listen_protocols s end)
    (match op with SetClients x => x | _ => st_clients s end)
    (match op with SetReverseProxy x => Some x | _ => st_reverse_proxy s end)
    (match op with SetSubscription x => Some x | _ => st_subscription s end)
    (match op with SetIcmp x => Some x | _ => st_icmp s end)
    (match op with SetMetrics x => Some x | _ => st_metrics s end)
    (match op with SetRulesEngine x => Some x | _ => st_rules_engine s end)
    (match op with SetSpeedtestEnable x => x | _ => st_speedtest_enable s end)
    (match op with SetPingEnable x => x | _ => st_ping_enable s end)
    (match op with SetPingPath x => Some x | _ => st_ping_path s end)
    (match op with SetSpeedtestPath x => Some x | _ => st_speedtest_path s end)
    (match op with SetAuthFailureStatusCode x => x | _ => st_auth_failure_status_code s end)
    (match op with SetNonConnectAuthFailureStatusCode x => x | _ => st_non_connect_auth_failure_status_code s end)
    (match op with SetDefaultMaxHttp2 x => x | _ => st_default_max_http2_conns_per_client s end)
    (match op with SetDefaultMaxHttp3 x => x | _ => st_default_max_http3_conns_per_client s end)
    (st_built s).

Definition builder_apply (op : SettingsOp) (s : Settings) : result ErrorKind Settings :=
  match op with
  | SetListenAddress resolved => let? a := first_address resolved in Ok (builder_set op a s)
  | _ => Ok (builder_set op (st_listen_address s) s)
  end.

Fixpoint builder_calls (ops : list SettingsOp) (s : Settings) : result ErrorKind Settings :=
  match ops with [] => Ok s | op :: ops => let? s := builder_apply op s in builder_calls ops s end.

Definition builder_build (s : Settings) : result ValidationError Settings :=
  let? _ := settings_validate s in Ok s.

(** The builders of the sections. *)

Inductive Http2Op : Type :=
| SetInitialConnectionWindowSize (v : Z)
| SetInitialStreamWindowSize (v : Z)
| SetMaxConcurrentStreams (v : Z)
| SetMaxFrameSize (v : Z)
| SetHeaderTableSize (v : Z).

Definition http2_set (op : Http2Op) (s : Http2Settings) : Http2Settings :=
  mkHttp2Settings
    (match op with SetInitialConnectionWindowSize v => v | _ => initial_connection_window_size s end)
    (match op with SetInitialStreamWindowSize v => v | _ => initial_stream_window_size s end)
    (match op with SetMaxConcurrentStreams v => v | _ => max_concurrent_streams s end)
    (match op with SetMaxFrameSize v => v | _ => max_frame_size s end)
    (match op with SetHeaderTableSize v => v | _ => header_table_size s end).

Inductive QuicOp : Type :=
| SetRecvUdpPayloadSize (v : Z)
| SetSendUdpPayloadSize (v : Z)
| SetInitialMaxData (v : Z)
| SetMaxStreamDataBidiLocal (v : Z)
| SetMaxStreamDataBidiRemote (v : Z)
| SetMaxStreamDataUni (v : Z)
| SetMaxStreamsBidi (v : Z)
| SetMaxStreamsUni (v : Z)
| SetMaxConnectionWindow (v : Z)
| SetMaxStreamWindow (v : Z)
| SetDisableActiveMigration (v : bool)
| SetEnableEarlyData (v : bool)
| SetMessageQueueCapacity (v : Z).

Definition quic_set (op : QuicOp) (s : QuicSettings) : QuicSettings :=
  mkQuicSettings
    (match op with SetRecvUdpPayloadSize v => v | _ => recv_udp_payload_size s end)
    (match op with SetSendUdpPayloadSize v => v | _ => send_udp_payload_size s end)
    (match op with SetInitialMaxData v => v | _ => initial_max_data s end)
    (match op with SetMaxStreamDataBidiLocal v => v | _ => initial_max_stream_data_bidi_local s end)
    (match op with SetMaxStreamDataBidiRemote v => v | _ => initial_max_stream_data_bidi_remote s end)
    (match op with SetMaxStreamDataUni v => v | _ => initial_max_stream_data_uni s end)
    (match op with SetMaxStreamsBidi v => v | _ => initial_max_streams_bidi s end)
    (match op with SetMaxStreamsUni v => v | _ => initial_max_streams_uni s end)
    (match op with SetMaxConnectionWindow v => v | _ => max_connection_window s end)
    (match op with SetMaxStreamWindow v => v | _ => max_stream_window s end)
    (match op with SetDisableActiveMigration v => v | _ => disable_active_migration s end)
    (match op with SetEnableEarlyData v => v | _ => enable_early_data s end)
    (match op with SetMessageQueueCapacity v => v | _ => quic_message_queue_capacity s end).

Definition unspecified_address : SocketAddr := mkAddr (IpV4 [0; 0; 0; 0]) 0.

Inductive ReverseProxyOp : Type :=
| SetServerAddress (resolved : result ErrorKind (list SocketAddr))
| SetPathMask (v : bytes)
| SetH3BackwardCompatibility (v : bool).

Definition reverse_proxy_new : ReverseProxySettings := mkReverseProxySettings unspecified_address [] false.

Definition reverse_proxy_set (op : ReverseProxyOp) (s : ReverseProxySettings) : result ErrorKind ReverseProxySettings :=
  match op with
  | SetServerAddress r =>
      let? a := first_address r in Ok (mkReverseProxySettings a (rv_path_mask s) (rv_h3_backward_compatibility s))
  | SetPathMask v => Ok (mkReverseProxySettings (rv_server_address s) v (rv_h3_backward_compatibility s))
  | SetH3BackwardCompatibility v => Ok (mkReverseProxySettings (rv_server_address s) (rv_path_mask s) v)
  end.

Definition reverse_proxy_build (s : ReverseProxySettings) : result ValidationError ReverseProxySettings :=
  let? _ := reverse_proxy_validate s in Ok s.

Inductive Socks5Op : Type :=
| SetSocksAddress (resolved : result ErrorKind (list SocketAddr))
| SetExtendedAuth (v : bool).

Definition socks5_new : Socks5ForwarderSettings := mkSocks5Settings unspecified_address false.

Definition socks5_set (op : Socks5Op) (s : Socks5ForwarderSettings) : result ErrorKind Socks5ForwarderSettings :=
  match op with
  | SetSocksAddress r => let? a := first_address r in Ok (mkSocks5Settings a (sf_extended_auth s))
  | SetExtendedAuth v => Ok (mkSocks5Settings (sf_address s) v)
  end.

(** [Socks5Error] has the one value [AddressNotSet]. *)
Definition socks5_build (s : Socks5ForwarderSettings) : result unit Socks5ForwarderSettings :=
  if ip_is_unspecified (addr_ip (sf_address s)) then Err tt else Ok s.

Definition icmp_default_request_timeout : Z := from_secs 3.
Definition icmp_default_message_queue_capacity : Z := 256.

Inductive IcmpOp : Type :=
| SetInterfaceName (v : bytes)
| SetIcmpRequestTimeout (v : Z)
| SetRecvMessageQueueCapacity (v : Z).

Definition icmp_new : IcmpSection := mkIcmpSection [] icmp_default_request_timeout icmp_default_message_queue_capacity.

Definition icmp_set (op : IcmpOp) (s : IcmpSection) : IcmpSection :=
  match op with
  | SetInterfaceName v => mkIcmpSection v (ic_request_timeout s) (ic_recv_message_queue_capacity s)
  | SetIcmpRequestTimeout v => mkIcmpSection (ic_interface_name s) v (ic_recv_message_queue_capacity s)
  | SetRecvMessageQueueCapacity v => mkIcmpSection (ic_interface_name s) (ic_request_timeout s) v
  end.

Inductive MetricsOp : Type :=
| SetMetricsAddress (resolved : result ErrorKind (list SocketAddr))
| SetMetricsTimeout (v : Z)
| SetPerClientMetrics (v : bool).

Definition metrics_set (op : MetricsOp) (s : MetricsSettings) : result ErrorKind MetricsSettings :=
  match op with
  | SetMetricsAddress r =>
      let? a := first_address r in Ok (mkMetricsSettings a (ms_request_timeout s) (ms_per_client_metrics s))
  | SetMetricsTimeout v => Ok (mkMetricsSettings (ms_address s) v (ms_per_client_metrics s))
  | SetPerClientMetrics v => Ok (mkMetricsSettings (ms_address s) (ms_request_timeout s) v)
  end.

(** *** TLS hosts *)

Inductive TlsOp : Type :=
| SetMainHosts (l : list TlsHostInfo)
| SetPingHosts (l : list TlsHostInfo)
| SetSpeedtestHosts (l : list TlsHostInfo)
| SetReverseProxyHosts (l : list TlsHostInfo).

Definition tls_builder_new : TlsHostsSettings := mkHostsSettings [] [] [] [] true.

Definition tls_builder_set (op : TlsOp) (s : TlsHostsSettings) : TlsHostsSettings :=
  mkHostsSettings
    (match op with SetMainHosts l => l | _ => ths_main s end)
    (match op with SetPingHosts l => l | _ => ths_ping s end)
    (match op with SetSpeedtestHosts l => l | _ => ths_speedtest s end)
    (match op with SetReverseProxyHosts l => l | _ => ths_reverse_proxy s end)
    (ths_built s).

Section hosts.
(** [load_certs] and [load_private_key] of the file at a path. *)
Context (certs_ok key_ok : bytes -> bool).

Fixpoint validate_tls_hosts (hosts : list TlsHostInfo) (unique_hosts : gset bytes) : result unit (gset bytes) :=
  match hosts with
  | [] => Ok unique_hosts
  | h :: hosts =>
      if negb (certs_ok (hi_cert_chain_path h)) then Err tt
      else if negb (key_ok (hi_private_key_path h)) then Err tt
      else if bool_decide (hi_hostname h ∈ unique_hosts) then Err tt
      else validate_tls_hosts hosts ({[hi_hostname h]} ∪ unique_hosts)
  end.

Definition tls_hosts_validate (s : TlsHostsSettings) : result ValidationError unit :=
  if len (ths_main s) =? 0 then Err MainTlsHostInfo
  else
    let? hosts := map_err (fun _ => MainTlsHostInfo) (validate_tls_hosts (ths_main s) ∅) in
    let? hosts := map_err (fun _ => PingTlsHostInfo) (validate_tls_hosts (ths_ping s) hosts) in
    let? hosts := map_err (fun _ => SpeedTlsHostInfo) (validate_tls_hosts (ths_speedtest s) hosts) in
    let? _ := map_err (fun _ => ReverseProxyError) (validate_tls_hosts (ths_reverse_proxy s) hosts) in
    Ok tt.

Definition tls_builder_build (s : TlsHostsSettings) : result ValidationError TlsHostsSettings :=
  let? _ := tls_hosts_validate s in Ok s.

End hosts.

(** ** The settings file *)

(** What [toml_edit] answers about an item: its text, with the quotes of a string, its
    value as a string and as an integer. *)
Record TomlItem : Type := mkItem { ti_text : bytes; ti_str : option bytes; ti_int : option Z }.

Definition TomlTable : Type := list (bytes * TomlItem).

Definition table_get (t : TomlTable) (k : bytes) : option TomlItem :=
  snd <$> List.find (fun p => bool_decide (p.1 = k)) t.

(** A parsed document: its arrays of tables. *)
Definition TomlDocument : Type := bytes -> option (list TomlTable).

Section files.
(** [metadata] tells whether a path names a regular file; [read_to_string]; the parser. *)
Context (metadata : bytes -> result ErrorKind bool) (read_to_string : bytes -> result ErrorKind bytes)
  (toml_parse : bytes -> option TomlDocument).

Definition validate_file_path (path : bytes) : result ErrorKind unit :=
  match metadata path with
  | Err e => Err e
  | Ok true => Ok tt
  | Ok false => Err Other
  end.

(** The visitor of [deserialize_duration_secs]. *)
Definition deserialize_duration_secs (v : Z) : result unit Z := if 0 <=? v then Ok (from_secs (as_u64 v)) else Err tt.

Definition serialize_duration_secs (d : Z) : Z := as_secs d.

Definition deserialize_file_path (v : bytes) : result unit bytes :=
  match validate_file_path v with Ok _ => Ok v | Err _ => Err tt end.

Definition demangle_toml_string (x : bytes) : bytes := utf8_trim (List.filter (fun c => negb (c =? 0x22)) x).

(** [u32::try_from] of an integer item. *)
Definition conns_limit (x : TomlTable) (k : bytes) : option Z :=
  match table_get x k with
  | Some i => match ti_int i with Some v => if in_range 0 (2 ^ 32 - 1) v then Some v else None | None => None end
  | None => None
  end.

(** [x["username"]] panics when the key is missing. *)
Definition read_client (x : TomlTable) : M (result unit Client) :=
  let! username := unwrap (table_get x (str "username")) in
  let! password := unwrap (table_get x (str "password")) in
  let username := demangle_toml_string (ti_text username) in
  let password := demangle_toml_string (ti_text password) in
  if len username =? 0 then Ret (Err tt)
  else if len password =? 0 then Ret (Err tt)
  else Ret (Ok (mkClient username password (conns_limit x (str "max_http2_conns")) (conns_limit x (str "max_http3_conns")))).

Fixpoint read_clients (l : list TomlTable) : M (result unit (list Client)) :=
  match l with
  | [] => Ret (Ok [])
  | x :: l => let!? c := read_client x in let!? cs := read_clients l in Ret (Ok (c :: cs))
  end.

Definition deserialize_clients (v : bytes) : M (result unit (list Client)) :=
  match deserialize_file_path v with
  | Err e => Ret (Err e)
  | Ok path =>
      match read_to_string path with
      | Err _ => Ret (Err tt)
      | Ok content =>
          match toml_parse content with
          | None => Ret (Err tt)
          | Some doc => match doc (str "client") with Some l => read_clients l | None => Ret (Err tt) end
          end
      end
  end.

Definition item_str (t : TomlTable) (k : bytes) : option bytes :=
  match table_get t k with Some i => ti_str i | None => None end.

Definition read_rule (t : TomlTable) : option Rule :=
  let action :=
    match item_str t (str "action") with
    | Some s => if bool_decide (s = str "allow") then Some AllowAction
                else if bool_decide (s = str "deny") then Some DenyAction else None
    | None => None
    end in
  match action with
  | Some a => Some (mkRule (item_str t (str "cidr")) (item_str t (str "client_random_prefix"))
                      (item_str t (str "client_random_auth_key")) a)
  | None => None
  end.

(** Whatever goes wrong, the engine that allows everything. *)
Definition deserialize_rules (v : bytes) : option RulesEngine :=
  match deserialize_file_path v with
  | Err _ => Some default_allow
  | Ok path =>
      match read_to_string path with
      | Err _ => Some default_allow
      | Ok content =>
          match toml_parse content with
          | None => Some default_allow
          | Some doc =>
              Some (from_config (mkRules match doc (str "rule") with Some l => omap read_rule l | None => [] end))
          end
      end
  end.

End files.

(** ** Subscriptions *)

(** [str::rsplit_once]. *)
Definition rsplit_once (c : Z) (s : bytes) : option (bytes * bytes) :=
  match split_once c (rev s) with Some (b, a) => Some (rev a, rev b) | None => None end.

Definition parse_u16 (s : bytes) : option Z :=
  match parse_u64 s with Some v => if v <? 2 ^ 16 then Some v else None | None => None end.

Definition check_path_overlap (path : bytes) (other : option bytes) : result ValidationError unit :=
  match other with
  | None => Ok tt
  | Some other => if paths_overlap path other then Err (InvalidPath path) else Ok tt
  end.

(** [filter(|s| !s.is_empty())]. *)
Definition non_empty (o : option bytes) : option bytes :=
  match o with Some s => if len s =? 0 then None else Some s | None => None end.

Definition has_valid_port (address : bytes) : bool :=
  match rsplit_once 0x3A address with
  | Some (_, port) => match parse_u16 port with Some p => negb (p =? 0) | None => false end
  | None => false
  end.

Record SubscriptionConfig : Type := mkSubscription {
  sc_enabled : bool;
  sc_path : bytes;
  sc_hostname : bytes;
  sc_address : bytes;
  sc_name : option bytes;
  sc_dns_upstreams : list bytes;
  sc_certificate : option bytes;
  sc_custom_sni : option bytes;
  sc_client_random_prefix : option bytes;
}.

Section subscriptions.
(** [hex::decode]; [is_system_verifiable] of a certificate chain and a host name, [false]
    when there is no verifier; [std::fs::read_to_string]. *)
Context (hex_decode : bytes -> option bytes) (is_system_verifiable : bytes -> bytes -> bool)
  (read_to_string : bytes -> result ErrorKind bytes).

Definition valid_prefix (prefix : bytes) : bool :=
  let (prefix_part, mask_part) := match split_once 0x2F prefix with Some p => p | None => (prefix, []) end in
  bool_decide (is_Some (hex_decode prefix_part)) && ((len mask_part =? 0) || bool_decide (is_Some (hex_decode mask_part))).

Definition subscription_validate (sub : SubscriptionSettings) (settings : Settings) : result ValidationError unit :=
  let path := ss_path sub in
  if (len path =? 0) || negb (starts_with [0x2F] path) || bool_decide (path = [0x2F]) then Err (InvalidPath path)
  else if negb (has_valid_port (default [] (ss_address sub))) then Err SubscriptionError
  else if match non_empty (ss_client_random_prefix sub) with Some p => negb (valid_prefix p) | None => false end
  then Err SubscriptionError
  else
    let? _ := check_path_overlap path (st_ping_path settings) in
    let? _ := check_path_overlap path (st_speedtest_path settings) in
    match st_reverse_proxy settings with
    | Some p => check_path_overlap path (Some (rv_path_mask p))
    | None => Ok tt
    end.

Definition validate_with_hosts (sub : SubscriptionSettings) (settings : Settings) (hosts : TlsHostsSettings)
  : result ValidationError TlsHostInfo :=
  let? _ := subscription_validate sub settings in
  match List.find (fun h => bool_decide (hi_hostname h = default [] (ss_hostname sub))) (ths_main hosts) with
  | Some h => Ok h
  | None => Err SubscriptionError
  end.

Definition resolve (sub : SubscriptionSettings) (settings : Settings) (hosts : TlsHostsSettings)
  : result ValidationError SubscriptionConfig :=
  let? host := validate_with_hosts sub settings hosts in
  let? certificate :=
    if is_system_verifiable (hi_cert_chain_path host) (hi_hostname host) then Ok None
    else match read_to_string (hi_cert_chain_path host) with Ok c => Ok (Some c) | Err _ => Err SubscriptionError end in
  Ok (mkSubscription (ss_enabled sub) (ss_path sub) (default [] (ss_hostname sub)) (default [] (ss_address sub))
        (ss_name sub) (ss_dns_upstreams sub) certificate (non_empty (ss_custom_sni sub))
        (non_empty (ss_client_random_prefix sub))).

(** ** The core *)

Inductive CoreError : Type :=
| SettingsValidation (e : ValidationError)
| TlsDemultiplexerError
| MetricsError.

Context {Identity : Type} (load : TlsHostInfo -> result ErrorKind Identity) (certs_ok key_ok : bytes -> bool)
  (b64_encode : bytes -> bytes).

(** The parts of [Context] that the settings determine. *)
Record CoreContext : Type := mkContext {
  cx_settings : Settings;
  cx_subscription : option SubscriptionConfig;
  cx_tls_demux : @TlsDemux Identity;
  cx_icmp_forwarder : option ForwarderShared;
  cx_connection_limiter : option ConnectionLimiter;
}.

Definition protocol_settings (s : Settings) : ProtocolSettings :=
  mkProtocols (bool_decide (is_Some (lp_http1 (st_listen_protocols s)))) (bool_decide (is_Some (lp_http2 (st_listen_protocols s))))
    (bool_decide (is_Some (lp_quic (st_listen_protocols s)))) (bool_decide (is_Some (st_reverse_proxy s))).

Definition has_limits (s : Settings) : bool :=
  bool_decide (is_Some (st_default_max_http2_conns_per_client s))
  || bool_decide (is_Some (st_default_max_http3_conns_per_client s))
  || existsb (fun c => bool_decide (is_Some (max_http2_conns c)) || bool_decide (is_Some (max_http3_conns c))) (st_clients s).

(** [metrics] is the outcome of [Metrics::new]. *)
Definition core_new (metrics : result ErrorKind unit) (settings : Settings) (tls_hosts_settings : TlsHostsSettings)
  : result CoreError CoreContext :=
  let? _ := if negb (st_built settings) then map_err SettingsValidation (settings_validate settings) else Ok tt in
  let? _ := if negb (ths_built tls_hosts_settings)
            then map_err SettingsValidation (tls_hosts_validate certs_ok key_ok tls_hosts_settings) else Ok tt in
  let connection_limiter :=
    if has_limits settings
    then Some (limiter_new b64_encode (st_clients settings) (st_default_max_http2_conns_per_client settings)
                 (st_default_max_http3_conns_per_client settings))
    else None in
  let? subscription :=
    match st_subscription settings with
    | Some sub => match resolve sub settings tls_hosts_settings with
                  | Ok c => Ok (Some c)
                  | Err e => Err (SettingsValidation e)
                  end
    | None => Ok None
    end in
  let? demux := map_err (fun _ => TlsDemultiplexerError) (demux_new load (protocol_settings settings) tls_hosts_settings) in
  let? _ := map_err (fun _ => MetricsError) metrics in
  Ok (mkContext settings subscription demux
        (if bool_decide (is_Some (st_icmp settings)) then Some icmp_forwarder_new else None) connection_limiter).

Definition reload_tls_hosts_settings (self : CoreContext) (settings : TlsHostsSettings)
  : result ErrorKind unit * CoreContext :=
  match (if negb (ths_built settings) then tls_hosts_validate certs_ok key_ok settings else Ok tt) with
  | Err _ => (Err Other, self)
  | Ok _ =>
      match demux_new load (protocol_settings (cx_settings self)) settings with
      | Err e => (Err e, self)
      | Ok demux => (Ok tt, mkContext (cx_settings self) (cx_subscription self) demux (cx_icmp_forwarder self)
                              (cx_connection_limiter self))
      end
  end.

Definition reload_subscription_settings (self : CoreContext) (sub : option SubscriptionSettings) (hosts : TlsHostsSettings)
  : result ErrorKind unit * CoreContext :=
  let store (c : option SubscriptionConfig) :=
    (Ok tt, mkContext (cx_settings self) c (cx_tls_demux self) (cx_icmp_forwarder self) (cx_connection_limiter self)) in
  match sub with
  | Some sub => match resolve sub (cx_settings self) hosts with Ok c => store (Some c) | Err _ => (Err Other, self) end
  | None => store None
  end.

(** What [HttpDemux] reads of the context. *)
Definition demux_settings (self : CoreContext) : DemuxSettings :=
  mkDemux (sc_path <$> cx_subscription self) (st_ping_enable (cx_settings self)) (st_ping_path (cx_settings self))
    (st_speedtest_enable (cx_settings self)) (st_speedtest_path (cx_settings self))
    (rv_path_mask <$> st_reverse_proxy (cx_settings self)).

(** Settings as a program can have them: deserialized, or from the builder. *)
Inductive made_settings : Settings -> Prop :=
| made_deserialized s : st_built s = false -> made_settings s
| made_built ops s s' : builder_calls ops builder_new = Ok s -> builder_build s = Ok s' -> made_settings s'.

(** A running endpoint: created, then reloaded any number of times, with or without
    success. *)
Inductive core_reach : CoreContext -> Prop :=
| core_created metrics settings hosts c :
    made_settings settings -> core_new metrics settings hosts = Ok c -> core_reach c
| core_reload_tls c hosts r c' :
    core_reach c -> reload_tls_hosts_settings c hosts = (r, c') -> core_reach c'
| core_reload_subscription c sub hosts r c' :
    core_reach c -> reload_subscription_settings c sub hosts = (r, c') -> core_reach c'.

End subscriptions.

(** ** What validation establishes *)

Definition prefix_free (a b : bytes) : Prop := ~ a `prefix_of` b /\ ~ b `prefix_of` a.

Definition rooted (p : bytes) : Prop := exists q, p = 0x2F :: q.

Definition auth_codes : list Z := [407; 405; 404; 403].

Record valid_settings (s : Settings) : Prop := {
  vs_listen : ~ (ip_is_unspecified (addr_ip (st_listen_address s)) = true /\ addr_port (st_listen_address s) = 0);
  vs_proxy p : st_reverse_proxy s = Some p -> addr_port (rv_server_address p) <> 0 /\ rooted (rv_path_mask p);
  vs_ping p : st_ping_path s = Some p -> rooted p;
  vs_speedtest p : st_speedtest_path s = Some p -> rooted p;
  vs_disjoint p q : st_ping_path s = Some p -> st_speedtest_path s = Some q -> prefix_free p q;
  vs_protocols : st_listen_protocols s <> mkListenProtocols None None None;
  vs_credentials : st_clients s <> [] \/ addr_is_loopback (addr_ip (st_listen_address s)) = true;
  vs_code : st_auth_failure_status_code s ∈ auth_codes;
  vs_non_connect_code c : st_non_connect_auth_failure_status_code s = Some c -> c ∈ auth_codes;
}.

Lemma starts_with_prefix p l : starts_with p l = true <-> p `prefix_of` l.
Proof. apply starts_with_spec. Qed.

Lemma paths_overlap_spec a b : paths_overlap a b = false <-> prefix_free a b.
Proof.
  unfold paths_overlap, prefix_free. rewrite !orb_false_iff, bool_decide_eq_false, <- !not_true_iff_false, !starts_with_prefix.
  split; [tauto|]. intros [H1 H2]. split; [split; [|done]|done]. by intros ->.
Qed.

Lemma rooted_spec p : (len p =? 0) || negb (starts_with [0x2F] p) = false <-> rooted p.
Proof.
  destruct p as [|c p]; [split; [done|by intros [q H]]|]. rewrite len_cons. pose proof (len_nonneg p).
  destruct (Z.eqb_spec (1 + len p) 0); [lia|]. cbn [orb starts_with]. rewrite andb_true_r, negb_false_iff, Z.eqb_eq.
  split; [intros <-; by exists p|]. intros [q [= <- _]]. done.
Qed.

Lemma auth_code_spec c : is_valid_auth_failure_status_code c = true <-> c ∈ auth_codes.
Proof.
  unfold is_valid_auth_failure_status_code, auth_codes. rewrite !orb_true_iff, !Z.eqb_eq, !elem_of_cons, elem_of_nil. tauto.
Qed.

Lemma bindR_ok {E A B} (r : result E A) (f : A -> result E B) y : bindR r f = Ok y <-> exists x, r = Ok x /\ f x = Ok y.
Proof. destruct r; cbn; naive_solver. Qed.

Lemma reverse_proxy_validate_ok p :
  reverse_proxy_validate p = Ok tt <-> addr_port (rv_server_address p) <> 0 /\ rooted (rv_path_mask p).
Proof.
  unfold reverse_proxy_validate. rewrite <- rooted_spec.
  destruct (Z.eqb_spec (addr_port (rv_server_address p)) 0); [naive_solver|].
  destruct (_ || _); naive_solver.
Qed.

Lemma validate_request_path_ok o : validate_request_path o = Ok tt <-> forall p, o = Some p -> rooted p.
Proof.
  destruct o as [p|]; cbn [validate_request_path]; [|naive_solver].
  pose proof (rooted_spec p). destruct (_ || _); naive_solver.
Qed.

Lemma validate_overlaps_ok a b :
  validate_request_path_overlaps a b = Ok tt <-> forall p q, a = Some p -> b = Some q -> prefix_free p q.
Proof.
  destruct a as [p|], b as [q|]; cbn; [|naive_solver..]. destruct (paths_overlap p q) eqn:E.
  - split; [done|]. intros H. specialize (H p q eq_refl eq_refl).
    apply paths_overlap_spec in H. congruence.
  - split; [|done]. intros _ ? ? [= <-] [= <-]. by apply paths_overlap_spec.
Qed.

(** Validation accepts exactly the valid settings. *)
Lemma settings_validate_ok s : settings_validate s = Ok tt <-> valid_settings s.
Proof.
  unfold settings_validate. split.
  - destruct (_ && _) eqn:El; [done|]. intros ([] & Hp & H)%bindR_ok. apply bindR_ok in H as ([] & Hping & H).
    apply bindR_ok in H as ([] & Hspeed & H). apply bindR_ok in H as ([] & Hover & H).
    assert (st_listen_protocols s <> mkListenProtocols None None None) as Hproto.
    { intros Hs. by rewrite Hs in H. }
    assert ((if (len (st_clients s) =? 0) && negb (addr_is_loopback (addr_ip (st_listen_address s)))
        then Err NoCredentialsOnPublicAddress
        else if negb (is_valid_auth_failure_status_code (st_auth_failure_status_code s))
        then Err (InvalidAuthFailureStatusCode (st_auth_failure_status_code s))
        else match st_non_connect_auth_failure_status_code s with
             | Some code => if negb (is_valid_auth_failure_status_code code)
                            then Err (InvalidAuthFailureStatusCode code) else Ok tt
             | None => Ok tt
             end) = Ok tt) as H' by (repeat case_match; done). clear H.
    destruct ((len (st_clients s) =? 0) && _) eqn:Ec; [done|].
    destruct (is_valid_auth_failure_status_code (st_auth_failure_status_code s)) eqn:Ecode; [|done]. cbn [negb] in H'. split.
    + intros [H1 H2]. rewrite H1, H2 in El. done.
    + intros p E. rewrite E in Hp. by apply reverse_proxy_validate_ok.
    + by apply validate_request_path_ok.
    + by apply validate_request_path_ok.
    + by apply validate_overlaps_ok.
    + done.
    + destruct (st_clients s); [|by left]. right. cbn in Ec. by apply negb_false_iff in Ec.
    + by apply auth_code_spec.
    + intros c E. rewrite E in H'. destruct (is_valid_auth_failure_status_code c) eqn:Ecc; [|done]. by apply auth_code_spec.
  - intros [H1 H2 H3 H4 H5 H6 H7 H8 H9].
    destruct (_ && _) eqn:El; [destruct H1; apply andb_true_iff in El as [E1 E2]; apply Z.eqb_eq in E2; done|].
    assert (match st_reverse_proxy s with Some p => reverse_proxy_validate p | None => Ok tt end = Ok tt) as ->.
    { destruct (st_reverse_proxy s) as [p|]; [|done]. by apply reverse_proxy_validate_ok, H2. }
    apply validate_request_path_ok in H3, H4. apply validate_overlaps_ok in H5. rewrite H3, H4, H5. cbn [bindR].
    apply auth_code_spec in H8. rewrite H8. cbn [negb].
    assert ((len (st_clients s) =? 0) && negb (addr_is_loopback (addr_ip (st_listen_address s))) = false) as ->.
    { destruct H7 as [H7| ->]; [|by rewrite andb_false_r]. destruct (st_clients s) as [|c l]; [done|].
      rewrite len_cons. pose proof (len_nonneg l). destruct (Z.eqb_spec (1 + len l) 0); [lia|done]. }
    assert (match st_non_connect_auth_failure_status_code s with
            | Some code => if negb (is_valid_auth_failure_status_code code) then Err (InvalidAuthFailureStatusCode code) else Ok tt
            | None => Ok tt end = @Ok ValidationError unit tt) as ->.
    { destruct (st_non_connect_auth_failure_status_code s) as [c|]; [|done]. specialize (H9 c eq_refl).
      apply auth_code_spec in H9. by rewrite H9. }
    destruct (st_listen_protocols s) as [[] [] []]; cbn; done.
Qed.

(** A subscription that was resolved against settings. *)
Definition valid_subscription (settings : Settings) (c : SubscriptionConfig) : Prop :=
  rooted (sc_path c) /\ sc_path c <> [0x2F] /\ has_valid_port (sc_address c) = true /\
  (forall p, st_ping_path settings = Some p -> prefix_free (sc_path c) p) /\
  (forall p, st_speedtest_path settings = Some p -> prefix_free (sc_path c) p) /\
  (forall p, st_reverse_proxy settings = Some p -> prefix_free (sc_path c) (rv_path_mask p)).

Lemma check_path_overlap_ok path o : check_path_overlap path o = Ok tt <-> forall p, o = Some p -> prefix_free path p.
Proof.
  destruct o as [p|]; cbn; [|naive_solver]. pose proof (paths_overlap_spec path p). destruct (paths_overlap path p); naive_solver.
Qed.

Lemma resolve_valid hex_decode verifiable rd sub settings hosts c :
  resolve hex_decode verifiable rd sub settings hosts = Ok c ->
  valid_subscription settings c /\ exists h, h ∈ ths_main hosts /\ sc_hostname c = hi_hostname h.
Proof.
  unfold resolve. intros (h & Hh & H)%bindR_ok. apply bindR_ok in H as (cert & _ & [= <-]).
  unfold validate_with_hosts in Hh. apply bindR_ok in Hh as ([] & Hv & Hh).
  destruct (List.find _ _) as [h'|] eqn:Ef; [|done]. injection Hh as ->. apply List.find_some in Ef as [Hin Hn].
  apply bool_decide_eq_true in Hn. split; [|exists h; rewrite list_elem_of_In; auto].
  unfold subscription_validate in Hv. destruct (_ || bool_decide (ss_path sub = [0x2F])) eqn:Ep; [done|].
  apply orb_false_iff in Ep as [Ep1 Ep2]. destruct (has_valid_port _) eqn:Eport; [|done]. cbn [negb] in Hv.
  destruct (match non_empty _ with Some _ => _ | None => false end); [done|].
  apply bindR_ok in Hv as ([] & H1 & Hv). apply bindR_ok in Hv as ([] & H2 & Hv). unfold valid_subscription. cbn. split_and!.
  - by apply rooted_spec.
  - by apply bool_decide_eq_false in Ep2.
  - done.
  - by apply check_path_overlap_ok.
  - by apply check_path_overlap_ok.
  - intros p E. rewrite E in Hv. eapply check_path_overlap_ok; [exact Hv|done].
Qed.

Lemma prefix_both a b r : a `prefix_of` r -> b `prefix_of` r -> prefix_free a b -> False.
Proof. intros Ha Hb [H1 H2]. destruct (prefix_weak_total _ _ _ Ha Hb); auto. Qed.

(** The checks of the request demultiplexer exclude one another. *)
Lemma demux_exclusive {Identity} (c : @CoreContext Identity) r :
  valid_settings (cx_settings c) -> (forall sub, cx_subscription c = Some sub -> valid_subscription (cx_settings c) sub) ->
  (check_subscription (demux_settings c) r = true ->
     check_ping (demux_settings c) r = false /\ check_speedtest (demux_settings c) r = false /\
     check_reverse_proxy_path (demux_settings c) r = false) /\
  (check_ping (demux_settings c) r = true -> check_speedtest (demux_settings c) r = false).
Proof.
  intros Hs Hsub. unfold check_subscription, check_ping, check_speedtest, check_reverse_proxy_path. cbn.
  split.
  - destruct (cx_subscription c) as [sub|]; [|done]. cbn. intros E%bool_decide_eq_true.
    destruct (Hsub sub eq_refl) as (_ & _ & _ & H1 & H2 & H3).
    assert (forall p, prefix_free (sc_path sub) p -> starts_with p (req_path r) = false) as Hfree.
    { intros p Hp. apply not_true_iff_false. rewrite starts_with_prefix. intros Hpre. destruct Hp as [_ Hp]. rewrite E in Hpre. done. }
    split_and!.
    + destruct (st_ping_enable _); cbn; [|done]. destruct (st_ping_path _); [|done]. by apply Hfree, H1.
    + destruct (st_speedtest_enable _); cbn; [|done]. destruct (st_speedtest_path _); [|done]. by apply Hfree, H2.
    + destruct (st_reverse_proxy _); cbn; [|done]. by apply Hfree, H3.
  - destruct (st_ping_enable _); cbn; [|done]. destruct (st_ping_path _) as [p|] eqn:Ep; [|done]. intros E1.
    destruct (st_speedtest_enable _); cbn; [|done]. destruct (st_speedtest_path _) as [q|] eqn:Eq; [|done].
    apply not_true_iff_false. intros E2. apply starts_with_prefix in E1, E2.
    by eapply prefix_both; [exact E1|exact E2|eapply vs_disjoint].
Qed.

Lemma made_settings_valid s :
  made_settings s -> (if negb (st_built s) then map_err SettingsValidation (settings_validate s) else Ok tt) = Ok tt ->
  valid_settings s.
Proof.
  intros [s0 Hb|ops s0 s1 _ H] E.
  - rewrite Hb in E. cbn [negb] in E. apply settings_validate_ok. by destruct (settings_validate s0) as [[]|].
  - unfold builder_build in H. apply bindR_ok in H as ([] & H & [= ->]). by apply settings_validate_ok.
Qed.

Lemma core_new_spec hex_decode verifiable rd {Identity} (load : TlsHostInfo -> result ErrorKind Identity)
    certs_ok key_ok enc metrics settings hosts c :
  core_new hex_decode verifiable rd load certs_ok key_ok enc metrics settings hosts = Ok c ->
  (if negb (st_built settings) then map_err SettingsValidation (settings_validate settings) else Ok tt) = Ok tt /\
  cx_settings c = settings /\
  (forall sub, cx_subscription c = Some sub -> valid_subscription settings sub) /\
  cx_connection_limiter c = (if has_limits settings
    then Some (limiter_new enc (st_clients settings) (st_default_max_http2_conns_per_client settings)
                 (st_default_max_http3_conns_per_client settings)) else None) /\
  (is_Some (cx_icmp_forwarder c) <-> is_Some (st_icmp settings)).
Proof.
  unfold core_new. intros ([] & H1 & H)%bindR_ok. apply bindR_ok in H as ([] & _ & H).
  apply bindR_ok in H as (sub & Hsub & H). apply bindR_ok in H as (demux & _ & H). apply bindR_ok in H as (x & _ & [= <-]).
  cbn. split_and!; [done|done| |done|].
  - intros sc ->. destruct (st_subscription settings) as [s|]; [|done].
    destruct (resolve _ _ _ s settings hosts) as [c|] eqn:Er; [|done]. injection Hsub as ->.
    by apply resolve_valid in Er as [Er _].
  - case_bool_decide; (split; [|]); [done|by eexists|by intros [? ?]|done].
Qed.

Section reach.
Context {hex_decode : bytes -> option bytes} {verifiable : bytes -> bytes -> bool} {rd : bytes -> result ErrorKind bytes}
  {Identity : Type} {load : TlsHostInfo -> result ErrorKind Identity} {certs_ok key_ok : bytes -> bool} {enc : bytes -> bytes}.

Definition core_ok (c : @CoreContext Identity) : Prop :=
  valid_settings (cx_settings c) /\
  (forall sub, cx_subscription c = Some sub -> valid_subscription (cx_settings c) sub) /\
  (is_Some (cx_connection_limiter c) <-> has_limits (cx_settings c) = true).

Lemma core_reach_ok c : core_reach hex_decode verifiable rd load certs_ok key_ok enc c -> core_ok c.
Proof.
  induction 1 as [metrics settings hosts c Hm E|c hosts r c' _ (IH1 & IH2 & IH3) E|c sub hosts r c' _ (IH1 & IH2 & IH3) E].
  - apply core_new_spec in E as (H1 & H2 & H3 & H4 & _). rewrite <- H2 in *. split_and!; [by apply made_settings_valid|done|].
    rewrite H4. destruct (has_limits _); [by split|]. by split; [intros [? ?]|].
  - unfold reload_tls_hosts_settings in E. repeat case_match; simplify_eq; by split_and!.
  - unfold reload_subscription_settings in E. destruct sub as [sub|].
    + destruct (resolve _ _ _ sub _ hosts) as [sc|] eqn:Er; injection E as <- <-; [|by split_and!].
      apply resolve_valid in Er as [Er _]. split_and!; cbn; [done| |done]. by intros ? [= <-].
    + injection E as <- <-. by split_and!.
Qed.

End reach.

Lemma validate_tls_hosts_ok certs_ok key_ok l seen r :
  validate_tls_hosts certs_ok key_ok l seen = Ok r <->
  r = list_to_set (hi_hostname <$> l) ∪ seen /\ NoDup (hi_hostname <$> l) /\
  Forall (fun h => hi_hostname h ∉ seen /\ certs_ok (hi_cert_chain_path h) = true /\ key_ok (hi_private_key_path h) = true) l.
Proof.
  revert seen r. induction l as [|h l IH]; intros seen r; cbn [validate_tls_hosts].
  - rewrite fmap_nil, NoDup_nil. split; [intros [= <-]; split_and!; [set_solver|done|constructor]|intros [-> _]; f_equal; set_solver].
  - rewrite fmap_cons, NoDup_cons, Forall_cons.
    destruct (certs_ok _) eqn:E1; cbn [negb]; [|split; [done|naive_solver]].
    destruct (key_ok _) eqn:E2; cbn [negb]; [|split; [done|naive_solver]].
    case_bool_decide as E3; [split; [done|naive_solver]|]. rewrite IH. cbn [list_to_set]. rewrite !Forall_forall. split.
    + intros (-> & Hn & Hf). split_and!; [set_solver| |done|done|done|done|].
      * intros (x & Hx & Hin)%list_elem_of_fmap. destruct (Hf x Hin) as [Hs _]. set_solver.
      * intros x Hx. destruct (Hf x Hx) as (Hs & H1 & H2). split_and!; [set_solver|done|done].
    + intros (-> & [Hni Hn] & _ & Hf). split_and!; [set_solver|done|]. intros x Hx. destruct (Hf x Hx) as (Hs & H1 & H2).
      split_and!; [|done|done]. intros [Heq%elem_of_singleton|]%elem_of_union; [|done]. apply Hni.
      apply list_elem_of_fmap. eauto.
Qed.

Definition loads (certs_ok key_ok : bytes -> bool) (h : TlsHostInfo) : Prop :=
  certs_ok (hi_cert_chain_path h) = true /\ key_ok (hi_private_key_path h) = true.

(** The four lists are validated as one. *)
Lemma validate_tls_hosts_app certs_ok key_ok l k seen r :
  validate_tls_hosts certs_ok key_ok (l ++ k) seen = Ok r <->
  exists r', validate_tls_hosts certs_ok key_ok l seen = Ok r' /\ validate_tls_hosts certs_ok key_ok k r' = Ok r.
Proof.
  revert seen. induction l as [|h l IH]; intros seen; cbn [app validate_tls_hosts].
  - split; [eauto|]. by intros (? & [= <-] & ?).
  - destruct (certs_ok _); cbn [negb]; [|naive_solver]. destruct (key_ok _); cbn [negb]; [|naive_solver].
    case_bool_decide; [naive_solver|]. apply IH.
Qed.

Lemma map_err_ok {E F A} (f : E -> F) (r : result E A) x : map_err f r = Ok x <-> r = Ok x.
Proof. destruct r; cbn; naive_solver. Qed.

Lemma tls_hosts_validate_ok certs_ok key_ok hosts :
  tls_hosts_validate certs_ok key_ok hosts = Ok tt <->
  ths_main hosts <> [] /\
  NoDup (hi_hostname <$> ths_main hosts ++ ths_ping hosts ++ ths_speedtest hosts ++ ths_reverse_proxy hosts) /\
  Forall (loads certs_ok key_ok) (ths_main hosts ++ ths_ping hosts ++ ths_speedtest hosts ++ ths_reverse_proxy hosts).
Proof.
  assert (tls_hosts_validate certs_ok key_ok hosts = Ok tt <-> ths_main hosts <> [] /\
    exists r, validate_tls_hosts certs_ok key_ok (ths_main hosts ++ ths_ping hosts ++ ths_speedtest hosts ++ ths_reverse_proxy hosts) ∅ = Ok r) as ->.
  { unfold tls_hosts_validate. destruct (Z.eqb_spec (len (ths_main hosts)) 0) as [E|E].
    { split; [done|]. intros [H _]. destruct H. apply len_nil_inv. lia. }
    assert (ths_main hosts <> []) as Hne by (intros Hn; rewrite Hn in E; done).
    setoid_rewrite validate_tls_hosts_app. setoid_rewrite validate_tls_hosts_app. setoid_rewrite validate_tls_hosts_app.
    setoid_rewrite bindR_ok. setoid_rewrite bindR_ok. setoid_rewrite bindR_ok. setoid_rewrite bindR_ok. setoid_rewrite map_err_ok.
    naive_solver. }
  setoid_rewrite validate_tls_hosts_ok. unfold loads. split.
  - intros (H1 & r & _ & H2 & H3). split_and!; [done|done|]. eapply Forall_impl; [exact H3|]. naive_solver.
  - intros (H1 & H2 & H3). split; [done|]. eexists. split_and!; [done|done|]. eapply Forall_impl; [exact H3|].
    intros h [? ?]. split_and!; [set_solver|done|done].
Qed.

(** ** Properties *)

(** C10: a running endpoint always has valid settings.  However the settings were
    made, by a sequence of calls of the builder or from a file, and however often the TLS
    hosts and the subscription were reloaded since, with or without success: the endpoint
    has credentials or listens on a loopback address only, some protocol is enabled, the
    paths are rooted and the failure codes are among the four allowed; connections are
    limited exactly when a limit is configured; a subscription in force has an address
    with a port; the path of the subscription excludes those of the other three services,
    and a ping is not a speed test, so that between these the order of the checks of a
    request does not decide.  The mask of the reverse proxy is compared with the path of
    the subscription only ([reverse_proxy_mask_overlaps]). *)
Theorem running_core_valid hex_decode verifiable rd {Identity} (load : TlsHostInfo -> result ErrorKind Identity)
    certs_ok key_ok enc c :
  core_reach hex_decode verifiable rd load certs_ok key_ok enc c ->
  valid_settings (cx_settings c) /\
  (forall sub, cx_subscription c = Some sub -> valid_subscription (cx_settings c) sub) /\
  (is_Some (cx_connection_limiter c) <-> has_limits (cx_settings c) = true) /\
  forall r,
    (check_subscription (demux_settings c) r = true ->
       check_ping (demux_settings c) r = false /\ check_speedtest (demux_settings c) r = false /\
       check_reverse_proxy_path (demux_settings c) r = false) /\
    (check_ping (demux_settings c) r = true -> check_speedtest (demux_settings c) r = false).
Proof.
  intros (H1 & H2 & H3)%core_reach_ok. split; [done|]. split; [done|]. split; [done|]. intros r. by apply demux_exclusive.
Qed.

Definition sample_ops : list SettingsOp :=
  [SetListenAddress (Ok [mkAddr (IpV4 [127; 0; 0; 1]) 8443]); SetListenProtocols (mkListenProtocols (Some http1_default) None None);
   SetClients [mkClient (str "alice") (str "secret") (Some 2) None]; SetPingEnable true;
   SetSubscription (mkSubscriptionSettings true (Some (str "vpn.example.org")) (str "/sub") (Some (str "1.2.3.4:443")) None [] None None)].

Lemma running_core_valid_witness :
  exists c : @CoreContext bytes,
    core_reach HexRef.hex_decode (fun _ _ => true) (fun _ => Err NotFound) (fun h => Ok (hi_hostname h))
      (fun _ => true) (fun _ => true) Base64Ref.b64_encode c /\
    is_Some (cx_subscription c) /\ valid_settings (cx_settings c).
Proof.
  destruct (builder_calls sample_ops builder_new) as [s|] eqn:Es; [|vm_compute in Es; discriminate Es].
  destruct (builder_build s) as [s'|] eqn:Eb; [|vm_compute in Es; injection Es as <-; vm_compute in Eb; discriminate Eb].
  destruct (core_new HexRef.hex_decode (fun _ _ => true) (fun _ => Err NotFound) (fun h => Ok (hi_hostname h))
      (fun _ => true) (fun _ => true) Base64Ref.b64_encode (Ok tt) s' sample_hosts) as [c|] eqn:Ec.
  2:{ vm_compute in Es. injection Es as <-. vm_compute in Eb. injection Eb as <-. vm_compute in Ec. discriminate Ec. }
  exists c. assert (core_reach HexRef.hex_decode (fun _ _ => true) (fun _ => Err NotFound) (fun h => Ok (hi_hostname h))
      (fun _ => true) (fun _ => true) Base64Ref.b64_encode c) as Hreach.
  { eapply core_created; [|exact Ec]. eapply made_built; [exact Es|exact Eb]. }
  split; [exact Hreach|]. split.
  - vm_compute in Es. injection Es as <-. vm_compute in Eb. injection Eb as <-. vm_compute in Ec. injection Ec as <-. by eexists.
  - apply (running_core_valid _ _ _ _ _ _ _ c Hreach).
Defined.

(** Valid settings can give a path to two services: with the mask [/] of the reverse proxy
    the order of the checks sends a request for [/ping] to the pings. *)
Definition overlapping : result ErrorKind Settings :=
  builder_calls [SetListenAddress (Ok [mkAddr (IpV4 [127; 0; 0; 1]) 8443]);
    SetListenProtocols (mkListenProtocols (Some http1_default) None None); SetPingEnable true;
    SetReverseProxy (mkReverseProxySettings (mkAddr (IpV4 [127; 0; 0; 1]) 80) (str "/") false)] builder_new.

Lemma reverse_proxy_mask_overlaps :
  exists s : Settings, overlapping = Ok s /\ settings_validate s = Ok tt /\
    let d := mkDemux None (st_ping_enable s) (st_ping_path s) (st_speedtest_enable s) (st_speedtest_path s)
               (rv_path_mask <$> st_reverse_proxy s) in
    let r := mkHttpRequest (str "GET") None (str "/ping") [] in
    check_ping d r = true /\ check_reverse_proxy_path d r = true /\ http_demux_select d r = ChPing.
Proof. eexists. split; [vm_compute; reflexivity|]. by vm_compute. Qed.

(** Validation accepts exactly the valid settings, and the TLS hosts exactly
    when there is a main host, every certificate chain and key loads and no host name
    occurs twice in the four lists. *)
Theorem validation_exact certs_ok key_ok s hosts :
  (settings_validate s = Ok tt <-> valid_settings s) /\
  (tls_hosts_validate certs_ok key_ok hosts = Ok tt <->
     ths_main hosts <> [] /\
     NoDup (hi_hostname <$> ths_main hosts ++ ths_ping hosts ++ ths_speedtest hosts ++ ths_reverse_proxy hosts) /\
     Forall (loads certs_ok key_ok)
       (ths_main hosts ++ ths_ping hosts ++ ths_speedtest hosts ++ ths_reverse_proxy hosts)).
Proof.
  split; [apply settings_validate_ok|]. apply tls_hosts_validate_ok.
Qed.

(** The clients of the credentials file all have a name and a password; a limit outside
    32 bits is dropped. *)
Theorem read_clients_named l cs :
  read_clients l = Ret (Ok cs) ->
  Forall (fun c => username c <> [] /\ password c <> [] /\
    (forall n, max_http2_conns c = Some n -> 0 <= n < 2 ^ 32) /\ (forall n, max_http3_conns c = Some n -> 0 <= n < 2 ^ 32)) cs.
Proof.
  assert (forall x k n, conns_limit x k = Some n -> 0 <= n < 2 ^ 32) as Hlimit.
  { intros x k n. unfold conns_limit, in_range. destruct (table_get x k) as [i|]; [|done]. destruct (ti_int i) as [v|]; [|done].
    destruct (Z.leb_spec 0 v), (Z.leb_spec v (2 ^ 32 - 1)); cbn; [intros [= <-]; lia|done..]. }
  revert cs. induction l as [|x l IH]; intros cs; cbn [read_clients]; [intros [= <-]; constructor|].
  destruct (read_client x) as [[c|e]|] eqn:Ec; cbn [bindMR]; [|done|done].
  destruct (read_clients l) as [[cs'|e]|]; cbn [bindMR]; [|done|done]. intros [= <-]. apply Forall_cons. split; [|by apply IH].
  unfold read_client in Ec. destruct (table_get x (str "username")), (table_get x (str "password")); cbn [unwrap bindM] in Ec; try done.
  destruct (Z.eqb_spec (len (demangle_toml_string (ti_text t))) 0) as [|Hu]; [done|].
  destruct (Z.eqb_spec (len (demangle_toml_string (ti_text t0))) 0) as [|Hp]; [done|]. injection Ec as <-. cbn [username password max_http2_conns max_http3_conns].
  split_and!; [by intros H; rewrite H in Hu|by intros H; rewrite H in Hp|apply Hlimit|apply Hlimit].
Qed.

(** The text of a TOML string is not its value: a backslash escape stays, a quote inside
    a literal string is lost and its delimiters stay, and the spaces at the ends go. *)
Example demangled_escape : demangle_toml_string ([0x20; 0x22] ++ str "a\\b" ++ [0x22]) = str "a\\b".
Proof. vm_compute. reflexivity. Qed.
Example demangled_literal : demangle_toml_string (str " 'a" ++ [0x22] ++ str "b'") = str "'ab'".
Proof. vm_compute. reflexivity. Qed.
Example demangled_spaces : demangle_toml_string ([0x22] ++ str " a " ++ [0x22]) = str "a".
Proof. vm_compute. reflexivity. Qed.

(** A client without a password stops the program instead of the parser. *)
Example client_without_password :
  read_clients [[(str "username", mkItem (str "a") None None)]] = Panic.
Proof. vm_compute. reflexivity. Qed.

(** The reader of the rules file is fail-open: a file that is missing, unreadable or not
    TOML gives the engine that allows every connection, and a rule whose action is
    misspelt is left out while those around it stay in force. *)
Theorem rules_file_fails_open metadata rd parse path :
  (forall content doc, validate_file_path metadata path = Ok tt -> rd path = Ok content -> parse content = Some doc -> False) ->
  deserialize_rules metadata rd parse path = Some default_allow.
Proof.
  intros H. unfold deserialize_rules, deserialize_file_path. destruct (validate_file_path metadata path) as [[]|]; [|done].
  destruct (rd path) as [content|] eqn:Er; [|done]. destruct (parse content) as [doc|] eqn:Ep; [|done]. by edestruct H.
Qed.

Example misspelt_rule_dropped :
  deserialize_rules (fun _ => Ok true) (fun _ => Ok []) (fun _ => Some (fun _ => Some [[(str "action", mkItem [] (Some (str "Deny")) None)]])) []
  = Some default_allow.
Proof. vm_compute. reflexivity. Qed.

(** Durations survive serialization up to the second. *)
Theorem duration_roundtrip d :
  0 <= as_secs d < 2 ^ 64 -> deserialize_duration_secs (serialize_duration_secs d) = Ok (from_secs (as_secs d)).
Proof.
  intros H. unfold deserialize_duration_secs, serialize_duration_secs. destruct (Z.leb_spec 0 (as_secs d)); [|lia].
  unfold as_u64. by rewrite Z.mod_small.
Qed.
