(* ===== verification/Composer.v ===== *)
(** * The settings file that the setup wizard writes

    tools/setup_wizard/composer.rs and template_settings.rs: a settings file is put together
    from templates, whose values are replaced by those of the settings.  The [Deserialize]
    that lib/src/settings.rs derives is the reader of such a file.  Comments carry the
    documentation and are left out; a table that is disabled is a comment as a whole
    ([Utils.to_toml_comment]), and so not part of the document. *)

From S2P Require Import Prelude.
From S2P Require Import Varint.
From S2P Require Import NetUtils.
From S2P Require Import Rules.
From S2P Require Import Auth.
From S2P Require Import IpText.
From S2P Require Import ReverseProxy.
From S2P Require Import TlsDemux.
From S2P Require Import Settings.

(** ** Documents *)

Inductive TomlVal : Type :=
| VStr (s : bytes)
| VBool (b : bool)
| VInt (z : Z)
| VArray (l : list bytes).

Abbreviation Table := (gmap bytes TomlVal).

(** The tables of a document in their order, under their dotted names; the main one has
    none. *)
Definition Document : Type := list (list bytes * Table).

Definition doc_get (doc : Document) (path : list bytes) : option Table :=
  snd <$> List.find (fun p => bool_decide (p.1 = path)) doc.

(** A table is there when it is named, or one below it is. *)
Definition has_table (doc : Document) (path : list bytes) : bool :=
  existsb (fun p => bool_decide (take (length path) p.1 = path)) doc.

Definition assign (t : Table) (l : list (bytes * TomlVal)) : Table := foldl (fun t p => <[p.1 := p.2]> t) t l.

Definition DEFAULT_CREDENTIALS_PATH : bytes := str "credentials.toml".
Definition DEFAULT_RULES_PATH : bytes := str "rules.toml".

(** A [usize], [u64] or [u32] written as an [i64]. *)
Definition int (v : Z) : TomlVal := VInt (as_i64 v).

Definition secs (d : Z) : TomlVal := int (as_secs d).

(** ** Templates *)

Definition MAIN_TABLE : Table :=
  list_to_map
    [(str "listen_address", VStr []);
     (str "credentials_file", VStr DEFAULT_CREDENTIALS_PATH);
     (str "rules_file", VStr DEFAULT_RULES_PATH);
     (str "ipv6_available", VBool true);
     (str "allow_private_network_connections", VBool false);
     (str "tls_handshake_timeout_secs", VInt (as_secs default_tls_handshake_timeout));
     (str "client_listener_timeout_secs", VInt (as_secs default_client_listener_timeout));
     (str "connection_establishment_timeout_secs", VInt (as_secs default_connection_establishment_timeout));
     (str "tcp_connections_timeout_secs", VInt (as_secs default_tcp_connections_timeout));
     (str "udp_connections_timeout_secs", VInt (as_secs default_udp_connections_timeout));
     (str "speedtest_enable", VBool false);
     (str "speedtest_path", VStr (str "/speedtest"));
     (str "ping_enable", VBool false);
     (str "ping_path", VStr (str "/ping"));
     (str "auth_failure_status_code", VInt default_auth_failure_status_code)].

Definition SOCKS_FORWARDER_TABLE : Table :=
  list_to_map [(str "address", VStr (str "127.0.0.1:1080")); (str "extended_auth", VBool false)].

Definition HTTP1_LISTENER_TABLE : Table := list_to_map [(str "upload_buffer_size", VInt (upload_buffer_size http1_default))].

Definition http2_values (num : Z -> TomlVal) (x : Http2Settings) : list (bytes * TomlVal) :=
  [(str "initial_connection_window_size", num (initial_connection_window_size x));
   (str "initial_stream_window_size", num (initial_stream_window_size x));
   (str "max_concurrent_streams", num (max_concurrent_streams x));
   (str "max_frame_size", num (max_frame_size x));
   (str "header_table_size", num (header_table_size x))].

Definition HTTP2_LISTENER_TABLE : Table := list_to_map (http2_values VInt http2_default).

Definition quic_values (num : Z -> TomlVal) (x : QuicSettings) : list (bytes * TomlVal) :=
  [(str "recv_udp_payload_size", num (recv_udp_payload_size x));
   (str "send_udp_payload_size", num (send_udp_payload_size x));
   (str "initial_max_data", num (initial_max_data x));
   (str "initial_max_stream_data_bidi_local", num (initial_max_stream_data_bidi_local x));
   (str "initial_max_stream_data_bidi_remote", num (initial_max_stream_data_bidi_remote x));
   (str "initial_max_stream_data_uni", num (initial_max_stream_data_uni x));
   (str "initial_max_streams_bidi", num (initial_max_streams_bidi x));
   (str "initial_max_streams_uni", num (initial_max_streams_uni x));
   (str "max_connection_window", num (max_connection_window x));
   (str "max_stream_window", num (max_stream_window x));
   (str "disable_active_migration", VBool (disable_active_migration x));
   (str "enable_early_data", VBool (enable_early_data x));
   (str "message_queue_capacity", num (quic_message_queue_capacity x))].

Definition QUIC_LISTENER_TABLE : Table := list_to_map (quic_values VInt quic_default).

Section templates.
(** The name of the interface that the platform has by default. *)
Context (default_interface_name : bytes).

Definition ICMP_TABLE : Table :=
  list_to_map [(str "interface_name", VStr default_interface_name);
               (str "request_timeout_secs", VInt (as_secs icmp_default_request_timeout));
               (str "recv_message_queue_capacity", VInt icmp_default_message_queue_capacity)].

Definition METRICS_TABLE : Table :=
  list_to_map [(str "address", VStr (socket_to_string (ms_address metrics_default) 0));
               (str "request_timeout_secs", VInt (as_secs (ms_request_timeout metrics_default)))].

(** ** Composition *)

(** A path that is not set is removed from the template. *)
Definition set_path (k : bytes) (path : option bytes) (t : Table) : Table :=
  match path with Some p => <[k := VStr p]> t | None => base.delete k t end.

Definition compose_main_table (settings : Settings) (credentials_path rules_path : bytes) : Table :=
  let t := assign MAIN_TABLE
    [(str "listen_address", VStr (socket_to_string (st_listen_address settings) 0));
     (str "credentials_file", VStr credentials_path);
     (str "rules_file", VStr rules_path);
     (str "ipv6_available", VBool (st_ipv6_available settings));
     (str "allow_private_network_connections", VBool (st_allow_private_network_connections settings));
     (str "tls_handshake_timeout_secs", secs (st_tls_handshake_timeout settings));
     (str "client_listener_timeout_secs", secs (st_client_listener_timeout settings));
     (str "connection_establishment_timeout_secs", secs (st_connection_establishment_timeout settings));
     (str "tcp_connections_timeout_secs", secs (st_tcp_connections_timeout settings));
     (str "udp_connections_timeout_secs", secs (st_udp_connections_timeout settings));
     (str "speedtest_enable", VBool (st_speedtest_enable settings))] in
  let t := set_path (str "speedtest_path") (st_speedtest_path settings) t in
  let t := <[str "ping_enable" := VBool (st_ping_enable settings)]> t in
  let t := set_path (str "ping_path") (st_ping_path settings) t in
  <[str "auth_failure_status_code" := int (st_auth_failure_status_code settings)]> t.

Definition compose_forward_protocol_table (settings : ForwardProtocolSettings) : Document :=
  match settings with
  | DirectForward => [([str "forward_protocol"], ∅); ([str "forward_protocol"; str "direct"], ∅)]
  | Socks5Forward x =>
      [([str "forward_protocol"], ∅);
       ([str "forward_protocol"; str "socks5"],
        assign SOCKS_FORWARDER_TABLE
          [(str "address", VStr (socket_to_string (sf_address x) 0)); (str "extended_auth", VBool (sf_extended_auth x))])]
  end.

Definition compose_http1_listener_table (settings : option Http1Settings) : Document :=
  match settings with
  | Some x => [([str "listen_protocols"; str "http1"],
                assign HTTP1_LISTENER_TABLE [(str "upload_buffer_size", int (upload_buffer_size x))])]
  | None => []
  end.

Definition compose_http2_listener_table (settings : option Http2Settings) : Document :=
  match settings with
  | Some x => [([str "listen_protocols"; str "http2"], assign HTTP2_LISTENER_TABLE (http2_values int x))]
  | None => []
  end.

Definition compose_quic_listener_table (settings : option QuicSettings) : Document :=
  match settings with
  | Some x => [([str "listen_protocols"; str "quic"], assign QUIC_LISTENER_TABLE (quic_values int x))]
  | None => []
  end.

(** The tables of a text are those of its parts. *)
Definition compose_listener_protocol_table (settings : ListenProtocolSettings) : Document :=
  [([str "listen_protocols"], ∅)] ++ compose_http1_listener_table (lp_http1 settings)
    ++ compose_http2_listener_table (lp_http2 settings) ++ compose_quic_listener_table (lp_quic settings).

Definition compose_icmp_table (settings : option IcmpSection) : Document :=
  match settings with
  | Some x =>
      [([str "icmp"], assign ICMP_TABLE
          [(str "interface_name", VStr (ic_interface_name x)); (str "request_timeout_secs", secs (ic_request_timeout x));
           (str "recv_message_queue_capacity", int (ic_recv_message_queue_capacity x))])]
  | None => []
  end.

Definition compose_metrics_table (settings : option MetricsSettings) : Document :=
  match settings with
  | Some x =>
      [([str "metrics"], assign METRICS_TABLE
          [(str "address", VStr (socket_to_string (ms_address x) 0)); (str "request_timeout_secs", secs (ms_request_timeout x))])]
  | None => []
  end.

Definition compose_document (settings : Settings) (credentials_path rules_path : bytes) : Document :=
  [([], compose_main_table settings credentials_path rules_path)]
    ++ compose_forward_protocol_table (st_forward_protocol settings)
    ++ compose_listener_protocol_table (st_listen_protocols settings)
    ++ compose_icmp_table (st_icmp settings) ++ compose_metrics_table (st_metrics settings).

End templates.

(** ** Reading *)

(** A field of a table: its default when the key is missing, an error for another type. *)
Definition field {A} (as_type : TomlVal -> option A) (t : Table) (k : bytes) (def : A) : option A :=
  match t !! k with Some v => as_type v | None => Some def end.

Definition as_bool (v : TomlVal) : option bool := match v with VBool b => Some b | _ => None end.
Definition as_string (v : TomlVal) : option bytes := match v with VStr s => Some s | _ => None end.
Definition as_path (v : TomlVal) : option (option bytes) := Some <$> as_string v.

(** An unsigned integer of [bits] bits. *)
Definition as_uint (bits : Z) (v : TomlVal) : option Z :=
  match v with VInt z => if in_range 0 (2 ^ bits - 1) z then Some z else None | _ => None end.

Definition as_duration (v : TomlVal) : option Z :=
  match v with VInt z => match deserialize_duration_secs z with Ok d => Some d | Err _ => None end | _ => None end.

Definition as_socket_addr (v : TomlVal) : option SocketAddr :=
  match v with VStr s => fst <$> socket_from_str s | _ => None end.

(** A required field. *)
Definition required {A} (as_type : TomlVal -> option A) (t : Table) (k : bytes) : option A :=
  match t !! k with Some v => as_type v | None => None end.

Definition read_http1 (t : Table) : option Http1Settings :=
  n ← field (as_uint 64) t (str "upload_buffer_size") (upload_buffer_size http1_default); Some (mkHttp1Settings n).

Definition read_http2 (t : Table) : option Http2Settings :=
  a ← field (as_uint 32) t (str "initial_connection_window_size") (initial_connection_window_size http2_default);
  b ← field (as_uint 32) t (str "initial_stream_window_size") (initial_stream_window_size http2_default);
  c ← field (as_uint 32) t (str "max_concurrent_streams") (max_concurrent_streams http2_default);
  d ← field (as_uint 32) t (str "max_frame_size") (max_frame_size http2_default);
  e ← field (as_uint 32) t (str "header_table_size") (header_table_size http2_default);
  Some (mkHttp2Settings a b c d e).

(** A key with an alias: both are one field, which must not be there twice. *)
Definition alias_field (t : Table) (k alias : bytes) (def : Z) : option Z :=
  match t !! k, t !! alias with
  | Some _, Some _ => None
  | Some v, None | None, Some v => as_uint 64 v
  | None, None => Some def
  end.

Definition read_quic (t : Table) : option QuicSettings :=
  a ← field (as_uint 64) t (str "recv_udp_payload_size") (recv_udp_payload_size quic_default);
  b ← field (as_uint 64) t (str "send_udp_payload_size") (send_udp_payload_size quic_default);
  c ← field (as_uint 64) t (str "initial_max_data") (initial_max_data quic_default);
  d ← alias_field t (str "initial_max_stream_data_bidi_local") (str "max_stream_data_bidi_local")
        (initial_max_stream_data_bidi_local quic_default);
  e ← alias_field t (str "initial_max_stream_data_bidi_remote") (str "max_stream_data_bidi_remote")
        (initial_max_stream_data_bidi_remote quic_default);
  f ← alias_field t (str "initial_max_stream_data_uni") (str "max_stream_data_uni") (initial_max_stream_data_uni quic_default);
  g ← alias_field t (str "initial_max_streams_bidi") (str "max_streams_bidi") (initial_max_streams_bidi quic_default);
  h ← alias_field t (str "initial_max_streams_uni") (str "max_streams_uni") (initial_max_streams_uni quic_default);
  i ← field (as_uint 64) t (str "max_connection_window") (max_connection_window quic_default);
  j ← field (as_uint 64) t (str "max_stream_window") (max_stream_window quic_default);
  k ← field as_bool t (str "disable_active_migration") (disable_active_migration quic_default);
  l ← field as_bool t (str "enable_early_data") (enable_early_data quic_default);
  m ← field (as_uint 64) t (str "message_queue_capacity") (quic_message_queue_capacity quic_default);
  Some (mkQuicSettings a b c d e f g h i j k l m).

Definition read_icmp (default_interface_name : bytes) (t : Table) : option IcmpSection :=
  a ← field as_string t (str "interface_name") default_interface_name;
  b ← field as_duration t (str "request_timeout_secs") icmp_default_request_timeout;
  c ← field (as_uint 64) t (str "recv_message_queue_capacity") icmp_default_message_queue_capacity;
  Some (mkIcmpSection a b c).

Definition read_metrics (t : Table) : option MetricsSettings :=
  a ← field as_socket_addr t (str "address") (ms_address metrics_default);
  b ← field as_duration t (str "request_timeout_secs") (ms_request_timeout metrics_default);
  c ← field as_bool t (str "per_client_metrics") (ms_per_client_metrics metrics_default);
  Some (mkMetricsSettings a b c).

Definition read_reverse_proxy (t : Table) : option ReverseProxySettings :=
  a ← required as_socket_addr t (str "server_address");
  b ← required as_string t (str "path_mask");
  c ← field as_bool t (str "h3_backward_compatibility") false;
  Some (mkReverseProxySettings a b c).

Definition as_array (v : TomlVal) : option (list bytes) := match v with VArray l => Some l | _ => None end.

Definition read_subscription (t : Table) : option SubscriptionSettings :=
  a ← field as_bool t (str "enabled") false;
  b ← field as_path t (str "hostname") None;
  c ← field as_string t (str "path") subscription_default_path;
  d ← field as_path t (str "address") None;
  e ← field as_path t (str "name") None;
  f ← field as_array t (str "dns_upstreams") [];
  g ← field as_path t (str "custom_sni") None;
  h ← field as_path t (str "client_random_prefix") None;
  Some (mkSubscriptionSettings a b c d e f g h).

(** An optional section. *)
Definition section {A} (read : Table -> option A) (doc : Document) (path : list bytes) : option (option A) :=
  match doc_get doc path with Some t => Some <$> read t | None => Some None end.

(** The tagged enum: a table with one of the two sections. *)
Definition read_forward_protocol (doc : Document) : option ForwardProtocolSettings :=
  match doc_get doc [str "forward_protocol"; str "direct"], doc_get doc [str "forward_protocol"; str "socks5"] with
  | Some _, None => Some DirectForward
  | None, Some t =>
      a ← required as_socket_addr t (str "address");
      b ← field as_bool t (str "extended_auth") false;
      Some (Socks5Forward (mkSocks5Settings a b))
  | Some _, Some _ => None
  | None, None => if has_table doc [str "forward_protocol"] then None else Some DirectForward
  end.

Definition read_listen_protocols (doc : Document) : option ListenProtocolSettings :=
  _ ← (if has_table doc [str "listen_protocols"] then Some tt else None);
  a ← section read_http1 doc [str "listen_protocols"; str "http1"];
  b ← section read_http2 doc [str "listen_protocols"; str "http2"];
  c ← section read_quic doc [str "listen_protocols"; str "quic"];
  Some (mkListenProtocols a b c).

Definition as_some_uint (bits : Z) (v : TomlVal) : option (option Z) := Some <$> as_uint bits v.

Section reading.
Context (default_interface_name : bytes).
Context (metadata : bytes -> result ErrorKind bool) (read_to_string : bytes -> result ErrorKind bytes)
  (toml_parse : bytes -> option TomlDocument).

Definition read_clients_of (t : Table) : M (option (list Client)) :=
  match t !! str "credentials_file" with
  | None => Ret (Some [])
  | Some (VStr path) =>
      let! r := deserialize_clients metadata read_to_string toml_parse path in
      Ret (match r with Ok l => Some l | Err _ => None end)
  | Some _ => Ret None
  end.

Definition read_rules_of (t : Table) : option (option RulesEngine) :=
  match t !! str "rules_file" with
  | None => Some None
  | Some (VStr path) => Some (deserialize_rules metadata read_to_string toml_parse path)
  | Some _ => None
  end.

(** The fields of [Settings] that are no files. *)
Definition read_main (doc : Document) (t : Table) (clients : list Client) (engine : option RulesEngine) : option Settings :=
  listen ← field as_socket_addr t (str "listen_address") default_listen_address;
  ipv6 ← field as_bool t (str "ipv6_available") true;
  private ← field as_bool t (str "allow_private_network_connections") false;
  d1 ← field as_duration t (str "tls_handshake_timeout_secs") default_tls_handshake_timeout;
  d2 ← field as_duration t (str "client_listener_timeout_secs") default_client_listener_timeout;
  d3 ← field as_duration t (str "connection_establishment_timeout_secs") default_connection_establishment_timeout;
  d4 ← field as_duration t (str "tcp_connections_timeout_secs") default_tcp_connections_timeout;
  d5 ← field as_duration t (str "udp_connections_timeout_secs") default_udp_connections_timeout;
  forward ← read_forward_protocol doc;
  protocols ← read_listen_protocols doc;
  proxy ← section read_reverse_proxy doc [str "reverse_proxy"];
  subscription ← section read_subscription doc [str "subscription"];
  icmp ← section (read_icmp default_interface_name) doc [str "icmp"];
  metrics ← section read_metrics doc [str "metrics"];
  speedtest ← field as_bool t (str "speedtest_enable") false;
  ping ← field as_bool t (str "ping_enable") false;
  ping_path ← field as_path t (str "ping_path") default_ping_path;
  speedtest_path ← field as_path t (str "speedtest_path") default_speedtest_path;
  code ← field (as_uint 16) t (str "auth_failure_status_code") default_auth_failure_status_code;
  code2 ← field (as_some_uint 16) t (str "non_connect_auth_failure_status_code") None;
  max2 ← field (as_some_uint 32) t (str "default_max_http2_conns_per_client") None;
  max3 ← field (as_some_uint 32) t (str "default_max_http3_conns_per_client") None;
  Some (mkSettings listen ipv6 private d1 d2 d3 d4 d5 forward protocols clients proxy subscription icmp metrics engine
          speedtest ping ping_path speedtest_path code code2 max2 max3 false).

Definition settings_from_document (doc : Document) : M (option Settings) :=
  let t := default ∅ (doc_get doc []) in
  let! clients := read_clients_of t in
  Ret (l ← clients; engine ← read_rules_of t; read_main doc t l engine).

End reading.

(** ** Proofs *)

(** The value that a list of assignments gives a key. *)
Definition assigned (l : list (bytes * TomlVal)) (k : bytes) : option TomlVal :=
  foldl (fun acc p => if bool_decide (p.1 = k) then Some p.2 else acc) None l.

Lemma assign_lookup t l k : assign t l !! k = match assigned l k with Some v => Some v | None => t !! k end.
Proof.
  unfold assign, assigned. induction l as [|[x v] l IH] using rev_ind; [done|]. rewrite !foldl_app. cbn [foldl fst snd].
  case_bool_decide as E; [subst; by rewrite lookup_insert_eq|]. by rewrite lookup_insert_ne.
Qed.

Lemma field_assign {A} (f : TomlVal -> option A) t l k def v :
  assigned l k = Some v -> field f (assign t l) k def = f v.
Proof. intros E. unfold field. by rewrite assign_lookup, E. Qed.

Lemma required_assign {A} (f : TomlVal -> option A) t l k v : assigned l k = Some v -> required f (assign t l) k = f v.
Proof. intros E. unfold required. by rewrite assign_lookup, E. Qed.

Lemma as_uint_int bits v : 0 <= bits -> 0 <= v < 2 ^ bits -> v < 2 ^ 63 -> as_uint bits (int v) = Some v.
Proof.
  intros Hb Hv H63. unfold int, as_uint. rewrite as_i64_small by lia.
  by rewrite (proj2 (in_range_spec 0 (2 ^ bits - 1) v)) by lia.
Qed.

(** A duration that survives the file: whole seconds, of which there are not too many. *)
Definition whole_seconds (d : Z) : Prop := exists n, d = from_secs n /\ 0 <= n < 2 ^ 63.

Lemma as_duration_secs d : whole_seconds d -> as_duration (secs d) = Some d.
Proof.
  intros (n & -> & Hn). unfold secs, int, as_duration, as_secs, from_secs. rewrite Z.div_mul by done.
  rewrite as_i64_small by lia. unfold deserialize_duration_secs. destruct (Z.leb_spec 0 n); [|lia].
  unfold as_u64, from_secs. by rewrite Z.mod_small by lia.
Qed.

Lemma as_socket_addr_text a : wf_addr a -> as_socket_addr (VStr (socket_to_string a 0)) = Some a.
Proof. intros Ha. unfold as_socket_addr. by rewrite socket_text_roundtrip. Qed.

Definition fits (bits v : Z) : Prop := 0 <= v < 2 ^ bits /\ v < 2 ^ 63.

(** The settings that the composer writes without loss: whole seconds, numbers below 2^63,
    addresses of their width, both paths set, no metrics per client, and none of the
    sections and limits that its templates lack, which a settings file can have. *)
Record composable (s : Settings) : Prop := {
  wr_listen : wf_addr (st_listen_address s);
  wr_timeouts : Forall whole_seconds
    [st_tls_handshake_timeout s; st_client_listener_timeout s; st_connection_establishment_timeout s;
     st_tcp_connections_timeout s; st_udp_connections_timeout s];
  wr_forward x : st_forward_protocol s = Socks5Forward x -> wf_addr (sf_address x);
  wr_http1 x : lp_http1 (st_listen_protocols s) = Some x -> fits 64 (upload_buffer_size x);
  wr_http2 x : lp_http2 (st_listen_protocols s) = Some x ->
    Forall (fits 32) [initial_connection_window_size x; initial_stream_window_size x; max_concurrent_streams x;
                      max_frame_size x; header_table_size x];
  wr_quic x : lp_quic (st_listen_protocols s) = Some x ->
    Forall (fits 64) [recv_udp_payload_size x; send_udp_payload_size x; initial_max_data x;
                      initial_max_stream_data_bidi_local x; initial_max_stream_data_bidi_remote x;
                      initial_max_stream_data_uni x; initial_max_streams_bidi x; initial_max_streams_uni x;
                      max_connection_window x; max_stream_window x; quic_message_queue_capacity x];
  wr_icmp x : st_icmp s = Some x -> whole_seconds (ic_request_timeout x) /\ fits 64 (ic_recv_message_queue_capacity x);
  wr_metrics x : st_metrics s = Some x ->
    wf_addr (ms_address x) /\ whole_seconds (ms_request_timeout x) /\ ms_per_client_metrics x = false;
  wr_code : fits 16 (st_auth_failure_status_code s);
  wr_paths : is_Some (st_ping_path s) /\ is_Some (st_speedtest_path s);
  wr_unwritten : st_reverse_proxy s = None /\ st_subscription s = None /\ st_non_connect_auth_failure_status_code s = None /\
    st_default_max_http2_conns_per_client s = None /\ st_default_max_http3_conns_per_client s = None;
}.

(** The settings with what the two files and the reader give. *)
Definition with_files (s : Settings) (clients : list Client) (engine : option RulesEngine) : Settings :=
  mkSettings (st_listen_address s) (st_ipv6_available s) (st_allow_private_network_connections s)
    (st_tls_handshake_timeout s) (st_client_listener_timeout s) (st_connection_establishment_timeout s)
    (st_tcp_connections_timeout s) (st_udp_connections_timeout s) (st_forward_protocol s) (st_listen_protocols s)
    clients (st_reverse_proxy s) (st_subscription s) (st_icmp s) (st_metrics s) engine (st_speedtest_enable s)
    (st_ping_enable s) (st_ping_path s) (st_speedtest_path s) (st_auth_failure_status_code s)
    (st_non_connect_auth_failure_status_code s) (st_default_max_http2_conns_per_client s)
    (st_default_max_http3_conns_per_client s) false.

Lemma read_http1_composed x t : fits 64 (upload_buffer_size x) ->
  read_http1 (assign t [(str "upload_buffer_size", int (upload_buffer_size x))]) = Some x.
Proof.
  intros [H1 H2]. unfold read_http1. rewrite (field_assign _ _ _ _ _ (int (upload_buffer_size x))) by reflexivity.
  rewrite as_uint_int by lia. by destruct x.
Qed.

(** A field that an assignment of the list gives. *)
Ltac read_field := erewrite field_assign; [|reflexivity]; cbn [snd].

Ltac uint_field := read_field; rewrite as_uint_int by lia; cbn [mbind option_bind].

Lemma read_http2_composed x t :
  Forall (fits 32) [initial_connection_window_size x; initial_stream_window_size x; max_concurrent_streams x;
                    max_frame_size x; header_table_size x] ->
  read_http2 (assign t (http2_values int x)) = Some x.
Proof.
  rewrite !Forall_cons. unfold fits. intros H. unfold read_http2. do 5 uint_field. by destruct x.
Qed.

Lemma alias_assign t l k alias def v :
  assigned l k = Some v -> assigned l alias = None -> t !! alias = None -> alias_field (assign t l) k alias def = as_uint 64 v.
Proof. intros E1 E2 E3. unfold alias_field. by rewrite !assign_lookup, E1, E2, E3. Qed.

Lemma read_quic_composed x :
  Forall (fits 64) [recv_udp_payload_size x; send_udp_payload_size x; initial_max_data x;
                    initial_max_stream_data_bidi_local x; initial_max_stream_data_bidi_remote x;
                    initial_max_stream_data_uni x; initial_max_streams_bidi x; initial_max_streams_uni x;
                    max_connection_window x; max_stream_window x; quic_message_queue_capacity x] ->
  read_quic (assign QUIC_LISTENER_TABLE (quic_values int x)) = Some x.
Proof.
  rewrite !Forall_cons. unfold fits. intros H. unfold read_quic.
  do 5 (erewrite alias_assign; [|reflexivity..]; cbn [snd]; rewrite as_uint_int by lia).
  do 8 read_field. rewrite !as_uint_int by lia. by destruct x.
Qed.

Lemma read_icmp_composed name t x :
  whole_seconds (ic_request_timeout x) -> fits 64 (ic_recv_message_queue_capacity x) ->
  read_icmp name (assign t [(str "interface_name", VStr (ic_interface_name x)); (str "request_timeout_secs", secs (ic_request_timeout x));
     (str "recv_message_queue_capacity", int (ic_recv_message_queue_capacity x))]) = Some x.
Proof.
  intros Hd [H1 H2]. unfold read_icmp. do 3 read_field. rewrite as_uint_int, as_duration_secs by (done || lia). by destruct x.
Qed.

Lemma read_metrics_composed x :
  wf_addr (ms_address x) -> whole_seconds (ms_request_timeout x) -> ms_per_client_metrics x = false ->
  read_metrics (assign METRICS_TABLE [(str "address", VStr (socket_to_string (ms_address x) 0));
     (str "request_timeout_secs", secs (ms_request_timeout x))]) = Some x.
Proof.
  intros Ha Hd Hp. unfold read_metrics.
  rewrite (field_assign as_socket_addr _ _ _ _ (VStr (socket_to_string (ms_address x) 0))) by reflexivity.
  rewrite (field_assign as_duration _ _ _ _ (secs (ms_request_timeout x))) by reflexivity. rewrite as_socket_addr_text, as_duration_secs by done.
  unfold field. rewrite assign_lookup. cbn [mbind option_bind]. destruct x. cbn in Hp |- *. by rewrite Hp.
Qed.

(** ** The tables of the document *)

Lemma doc_get_app a b k : doc_get (a ++ b) k = match doc_get a k with Some t => Some t | None => doc_get b k end.
Proof. unfold doc_get. induction a as [|[x v] a IH]; [done|]. cbn. by case_bool_decide. Qed.

Lemma doc_get_one p t k : doc_get [(p, t)] k = if bool_decide (p = k) then Some t else None.
Proof. unfold doc_get. cbn. by case_bool_decide. Qed.

(** A part of a document that has no table of a name. *)
Ltac skip_part part o k := assert (doc_get (part o) k = None) as -> by (by destruct o).

Ltac skip_parts :=
  repeat match goal with
  | |- context [doc_get (compose_forward_protocol_table ?o) ?k] => skip_part compose_forward_protocol_table o k
  | |- context [doc_get (compose_http1_listener_table ?o) ?k] => skip_part compose_http1_listener_table o k
  | |- context [doc_get (compose_http2_listener_table ?o) ?k] => skip_part compose_http2_listener_table o k
  | |- context [doc_get (compose_quic_listener_table ?o) ?k] => skip_part compose_quic_listener_table o k
  | |- context [doc_get (compose_icmp_table ?n ?o) ?k] => skip_part (compose_icmp_table n) o k
  | |- context [doc_get (compose_metrics_table ?o) ?k] => skip_part compose_metrics_table o k
  end.

Section document.
Context (name : bytes) (s : Settings) (credentials_path rules_path : bytes).
Abbreviation doc := (compose_document name s credentials_path rules_path).

(** Where a name is looked up: in the part that can have it. *)
Lemma doc_parts k :
  k <> [] -> doc_get doc k = doc_get (compose_forward_protocol_table (st_forward_protocol s)
    ++ [([str "listen_protocols"], ∅)] ++ compose_http1_listener_table (lp_http1 (st_listen_protocols s))
    ++ compose_http2_listener_table (lp_http2 (st_listen_protocols s)) ++ compose_quic_listener_table (lp_quic (st_listen_protocols s))
    ++ compose_icmp_table name (st_icmp s) ++ compose_metrics_table (st_metrics s)) k.
Proof.
  intros Hk. unfold compose_document, compose_listener_protocol_table. cbn [app]. rewrite <- !app_assoc. unfold doc_get at 1.
  cbn [List.find fst]. by rewrite bool_decide_false.
Qed.

Lemma doc_forward : read_forward_protocol doc = read_forward_protocol (compose_forward_protocol_table (st_forward_protocol s)).
Proof.
  unfold read_forward_protocol. rewrite !doc_parts by done. rewrite !doc_get_app.
  destruct (st_forward_protocol s) as [|x]; cbn -[doc_get compose_http1_listener_table compose_http2_listener_table
    compose_quic_listener_table compose_icmp_table compose_metrics_table assign]; by skip_parts.
Qed.

Lemma doc_section k part :
  k <> [] ->
  doc_get (compose_forward_protocol_table (st_forward_protocol s)) k = None ->
  doc_get ([([str "listen_protocols"], ∅)] ++ compose_http1_listener_table (lp_http1 (st_listen_protocols s))
    ++ compose_http2_listener_table (lp_http2 (st_listen_protocols s)) ++ compose_quic_listener_table (lp_quic (st_listen_protocols s))
    ++ compose_icmp_table name (st_icmp s) ++ compose_metrics_table (st_metrics s)) k = part ->
  doc_get doc k = part.
Proof. intros Hk Hf <-. rewrite doc_parts by done. by rewrite doc_get_app, Hf. Qed.

Ltac find_section :=
  apply doc_section; [done|by destruct (st_forward_protocol s)|]; rewrite !doc_get_app; skip_parts;
  rewrite doc_get_one; first [rewrite bool_decide_false by done | rewrite bool_decide_true by done]; by repeat case_match.

Lemma doc_optional :
  has_table doc [str "listen_protocols"] = true /\
  doc_get doc [str "listen_protocols"; str "http1"]
    = doc_get (compose_http1_listener_table (lp_http1 (st_listen_protocols s))) [str "listen_protocols"; str "http1"] /\
  doc_get doc [str "listen_protocols"; str "http2"]
    = doc_get (compose_http2_listener_table (lp_http2 (st_listen_protocols s))) [str "listen_protocols"; str "http2"] /\
  doc_get doc [str "listen_protocols"; str "quic"]
    = doc_get (compose_quic_listener_table (lp_quic (st_listen_protocols s))) [str "listen_protocols"; str "quic"] /\
  doc_get doc [str "icmp"] = doc_get (compose_icmp_table name (st_icmp s)) [str "icmp"] /\
  doc_get doc [str "metrics"] = doc_get (compose_metrics_table (st_metrics s)) [str "metrics"] /\
  doc_get doc [str "reverse_proxy"] = None /\ doc_get doc [str "subscription"] = None.
Proof.
  split_and!; [unfold has_table; rewrite existsb_exists; exists ([str "listen_protocols"], ∅); split; [|done]|find_section..].
  apply list_elem_of_In. unfold compose_document, compose_listener_protocol_table. set_solver.
Qed.

End document.

(** ** The main table *)

(** The values that [compose_main_table] gives, the two paths apart. *)
Definition main_values (s : Settings) (credentials_path rules_path : bytes) : list (bytes * TomlVal) :=
  [(str "listen_address", VStr (socket_to_string (st_listen_address s) 0));
   (str "credentials_file", VStr credentials_path);
   (str "rules_file", VStr rules_path);
   (str "ipv6_available", VBool (st_ipv6_available s));
   (str "allow_private_network_connections", VBool (st_allow_private_network_connections s));
   (str "tls_handshake_timeout_secs", secs (st_tls_handshake_timeout s));
   (str "client_listener_timeout_secs", secs (st_client_listener_timeout s));
   (str "connection_establishment_timeout_secs", secs (st_connection_establishment_timeout s));
   (str "tcp_connections_timeout_secs", secs (st_tcp_connections_timeout s));
   (str "udp_connections_timeout_secs", secs (st_udp_connections_timeout s));
   (str "speedtest_enable", VBool (st_speedtest_enable s));
   (str "ping_enable", VBool (st_ping_enable s));
   (str "auth_failure_status_code", int (st_auth_failure_status_code s))].

Lemma set_path_lookup k path t : set_path k path t !! k = VStr <$> path.
Proof. destruct path; cbn; [by rewrite lookup_insert_eq|by rewrite lookup_delete_eq]. Qed.

Lemma set_path_other k path t k' : k <> k' -> set_path k path t !! k' = t !! k'.
Proof. intros Hk. destruct path; cbn; [by rewrite lookup_insert_ne|by rewrite lookup_delete_ne]. Qed.

Section main_table.
Context (s : Settings) (credentials_path rules_path : bytes).
Abbreviation main := (compose_main_table s credentials_path rules_path).

Lemma main_lookup k :
  k <> str "speedtest_path" -> k <> str "ping_path" ->
  main !! k = match assigned (main_values s credentials_path rules_path) k with Some v => Some v | None => MAIN_TABLE !! k end.
Proof.
  intros H1 H2. rewrite <- assign_lookup. unfold compose_main_table, main_values, assign. cbn [foldl fst snd].
  destruct (decide (k = str "auth_failure_status_code")) as [->|H3]; [by rewrite !lookup_insert_eq|].
  rewrite (lookup_insert_ne _ (str "auth_failure_status_code")), set_path_other by done.
  destruct (decide (k = str "ping_enable")) as [->|H4].
  - rewrite lookup_insert_eq. by rewrite lookup_insert_ne, lookup_insert_eq.
  - rewrite lookup_insert_ne, set_path_other by done.
    by rewrite (lookup_insert_ne _ (str "auth_failure_status_code")), (lookup_insert_ne _ (str "ping_enable")) by done.
Qed.

Lemma main_lookup_some k v :
  k <> str "speedtest_path" -> k <> str "ping_path" -> assigned (main_values s credentials_path rules_path) k = Some v ->
  main !! k = Some v.
Proof. intros H1 H2 E. by rewrite main_lookup, E by done. Qed.

Lemma main_field {A} (f : TomlVal -> option A) k def v :
  k <> str "speedtest_path" -> k <> str "ping_path" -> assigned (main_values s credentials_path rules_path) k = Some v ->
  field f main k def = f v.
Proof. intros H1 H2 E. unfold field. by rewrite (main_lookup_some k v). Qed.

Lemma main_missing {A} (f : TomlVal -> option A) k def :
  k <> str "speedtest_path" -> k <> str "ping_path" -> assigned (main_values s credentials_path rules_path) k = None ->
  MAIN_TABLE !! k = None -> field f main k def = Some def.
Proof. intros H1 H2 E1 E2. unfold field. by rewrite main_lookup, E1, E2 by done. Qed.

(** A path that is not set is read as the default one. *)
Lemma main_speedtest_path :
  field as_path main (str "speedtest_path") default_speedtest_path
  = Some (match st_speedtest_path s with Some p => Some p | None => default_speedtest_path end).
Proof.
  unfold field, compose_main_table. rewrite lookup_insert_ne, set_path_other, lookup_insert_ne, set_path_lookup by done.
  by destruct (st_speedtest_path s).
Qed.

Lemma main_ping_path :
  field as_path main (str "ping_path") default_ping_path
  = Some (match st_ping_path s with Some p => Some p | None => default_ping_path end).
Proof.
  unfold field, compose_main_table. rewrite lookup_insert_ne, set_path_lookup by done. by destruct (st_ping_path s).
Qed.

End main_table.

(** ** The sections *)

Section composed.
Context (name : bytes) (s : Settings) (credentials_path rules_path : bytes) (Hw : composable s).
Abbreviation doc := (compose_document name s credentials_path rules_path).

Lemma doc_main : doc_get doc [] = Some (compose_main_table s credentials_path rules_path).
Proof. done. Qed.

Lemma forward_composed : read_forward_protocol doc = Some (st_forward_protocol s).
Proof.
  rewrite doc_forward. pose proof (wr_forward s Hw) as H. destruct (st_forward_protocol s) as [|x]; [done|].
  specialize (H x eq_refl). change (read_forward_protocol _) with
    (a ← required as_socket_addr (assign SOCKS_FORWARDER_TABLE
        [(str "address", VStr (socket_to_string (sf_address x) 0)); (str "extended_auth", VBool (sf_extended_auth x))]) (str "address");
     b ← field as_bool (assign SOCKS_FORWARDER_TABLE
        [(str "address", VStr (socket_to_string (sf_address x) 0)); (str "extended_auth", VBool (sf_extended_auth x))])
        (str "extended_auth") false;
     Some (Socks5Forward (mkSocks5Settings a b))).
  rewrite (required_assign _ _ _ _ (VStr (socket_to_string (sf_address x) 0))) by reflexivity.
  rewrite (field_assign _ _ _ _ _ (VBool (sf_extended_auth x))) by reflexivity.
  rewrite as_socket_addr_text by done. by destruct x.
Qed.

Lemma section_composed {A} (read : Table -> option A) (part : option A -> Document) table (o : option A) path :
  (forall x, part (Some x) = [(path, table x)]) -> part None = [] -> doc_get doc path = doc_get (part o) path ->
  (forall x, o = Some x -> read (table x) = Some x) ->
  section read doc path = Some o.
Proof.
  intros HS HN Hd Hr. unfold section. rewrite Hd. destruct o as [x|]; [|by rewrite HN].
  rewrite HS, doc_get_one, bool_decide_true by done. by rewrite Hr.
Qed.

Lemma protocols_composed : read_listen_protocols doc = Some (st_listen_protocols s).
Proof.
  destruct (doc_optional name s credentials_path rules_path) as (E & E1 & E2 & E3 & _).
  unfold read_listen_protocols. rewrite E. cbn [mbind option_bind].
  rewrite (section_composed _ _ _ _ _ (fun _ => eq_refl) eq_refl E1)
    by (intros x Hx; apply read_http1_composed; by apply (wr_http1 s Hw)).
  rewrite (section_composed _ _ _ _ _ (fun _ => eq_refl) eq_refl E2)
    by (intros x Hx; apply read_http2_composed; by apply (wr_http2 s Hw)).
  rewrite (section_composed _ _ _ _ _ (fun _ => eq_refl) eq_refl E3)
    by (intros x Hx; apply read_quic_composed; by apply (wr_quic s Hw)).
  cbn [mbind option_bind]. by destruct (st_listen_protocols s).
Qed.

Lemma icmp_composed : section (read_icmp name) doc [str "icmp"] = Some (st_icmp s).
Proof.
  destruct (doc_optional name s credentials_path rules_path) as (_ & _ & _ & _ & E & _).
  apply (section_composed _ _ _ _ _ (fun _ => eq_refl) eq_refl E).
  intros x Hx. destruct (wr_icmp s Hw x Hx). by apply read_icmp_composed.
Qed.

Lemma metrics_composed : section read_metrics doc [str "metrics"] = Some (st_metrics s).
Proof.
  destruct (doc_optional name s credentials_path rules_path) as (_ & _ & _ & _ & _ & E & _).
  apply (section_composed _ _ _ _ _ (fun _ => eq_refl) eq_refl E).
  intros x Hx. destruct (wr_metrics s Hw x Hx) as (? & ? & ?). by apply read_metrics_composed.
Qed.

Lemma unwritten_composed :
  section read_reverse_proxy doc [str "reverse_proxy"] = Some (st_reverse_proxy s) /\
  section read_subscription doc [str "subscription"] = Some (st_subscription s).
Proof.
  destruct (doc_optional name s credentials_path rules_path) as (_ & _ & _ & _ & _ & _ & E1 & E2).
  destruct (wr_unwritten s Hw) as (H1 & H2 & _). unfold section. by rewrite E1, E2, H1, H2.
Qed.

Lemma main_composed clients engine :
  read_main name doc (compose_main_table s credentials_path rules_path) clients engine = Some (with_files s clients engine).
Proof.
  destruct (wr_unwritten s Hw) as (_ & _ & U1 & U2 & U3). destruct (wr_paths s Hw) as [[p Hp] [q Hq]].
  destruct (wr_code s Hw) as [C1 C2]. destruct unwritten_composed as [X1 X2].
  pose proof (wr_timeouts s Hw) as T. rewrite !Forall_cons in T. destruct T as (T1 & T2 & T3 & T4 & T5 & _).
  unfold read_main. rewrite forward_composed, protocols_composed, icmp_composed, metrics_composed, X1, X2.
  rewrite main_speedtest_path, main_ping_path, Hp, Hq.
  do 3 (rewrite (main_missing _ _ _ (as_some_uint _)) by done).
  repeat (erewrite main_field; [|done|done|reflexivity]; cbn [snd]).
  rewrite as_uint_int, as_socket_addr_text, !as_duration_secs by (done || lia || apply (wr_listen s Hw)).
  cbn [mbind option_bind as_bool]. unfold with_files. by rewrite U1, U2, U3, Hp, Hq.
Qed.

End composed.

(** ** The file of the wizard *)

Section files.
Context (name : bytes) (metadata : bytes -> result ErrorKind bool) (read_to_string : bytes -> result ErrorKind bytes)
  (toml_parse : bytes -> option TomlDocument).

Lemma settings_from_composed s credentials_path rules_path clients :
  deserialize_clients metadata read_to_string toml_parse credentials_path = Ret (Ok clients) ->
  settings_from_document name metadata read_to_string toml_parse (compose_document name s credentials_path rules_path)
  = Ret (read_main name (compose_document name s credentials_path rules_path) (compose_main_table s credentials_path rules_path)
           clients (deserialize_rules metadata read_to_string toml_parse rules_path)).
Proof.
  intros Hc. unfold settings_from_document. rewrite doc_main. cbn [default from_option id].
  unfold read_clients_of, read_rules_of.
  rewrite (main_lookup_some _ _ _ (str "credentials_file") (VStr credentials_path)) by done.
  rewrite (main_lookup_some _ _ _ (str "rules_file") (VStr rules_path)) by done. by rewrite Hc.
Qed.


End files.

(** A speedtest or ping path that is not set comes back as the default one, and the
    per-client metrics come back disabled. *)
Lemma unset_paths_read_as_default s credentials_path rules_path :
  st_speedtest_path s = None -> st_ping_path s = None ->
  field as_path (compose_main_table s credentials_path rules_path) (str "speedtest_path") default_speedtest_path
    = Some (Some (str "/speedtest")) /\
  field as_path (compose_main_table s credentials_path rules_path) (str "ping_path") default_ping_path
    = Some (Some (str "/ping")).
Proof. intros H1 H2. by rewrite main_speedtest_path, main_ping_path, H1, H2. Qed.

Lemma per_client_metrics_lost s credentials_path rules_path name x :
  st_metrics s = Some x -> wf_addr (ms_address x) -> whole_seconds (ms_request_timeout x) ->
  section read_metrics (compose_document name s credentials_path rules_path) [str "metrics"]
  = Some (Some (mkMetricsSettings (ms_address x) (ms_request_timeout x) false)).
Proof.
  intros Hx Ha Hd. destruct (doc_optional name s credentials_path rules_path) as (_ & _ & _ & _ & _ & E & _).
  unfold section. rewrite E, Hx. pose proof (read_metrics_composed (mkMetricsSettings (ms_address x) (ms_request_timeout x) false)) as H.
  cbn [ms_address ms_request_timeout ms_per_client_metrics] in H. specialize (H Ha Hd eq_refl). unfold compose_metrics_table. rewrite doc_get_one, bool_decide_true by done. by rewrite H.
Qed.

Module ComposerSample.

Definition settings : Settings :=
  mkSettings (mkAddr (IpV4 [0; 0; 0; 0]) 443) true false (from_secs 10) (from_secs 600) (from_secs 30) (from_secs 604800)
    (from_secs 300) (Socks5Forward (mkSocks5Settings (mkAddr (IpV4 [127; 0; 0; 1]) 1080) true))
    (mkListenProtocols (Some http1_default) (Some http2_default) (Some quic_default)) [] None None
    (Some (mkIcmpSection (str "eth0") (from_secs 3) 256)) (Some metrics_default) None true false default_ping_path
    default_speedtest_path 407 None None None true.

Definition metadata (p : bytes) : result ErrorKind bool := Ok true.
Definition read_to_string (p : bytes) : result ErrorKind bytes := Ok [].
Definition toml_parse (c : bytes) : option TomlDocument := Some (fun k => if bool_decide (k = str "client") then Some [] else None).

Lemma composable_settings : composable settings.
Proof.
  constructor; cbn [settings st_listen_address st_forward_protocol st_listen_protocols lp_http1 lp_http2 lp_quic st_icmp st_metrics
    st_reverse_proxy st_subscription st_non_connect_auth_failure_status_code st_default_max_http2_conns_per_client
    st_default_max_http3_conns_per_client].
  - by apply (bool_decide_unpack (wf_addr _)).
  - repeat constructor; eexists; (split; [reflexivity|done]).
  - intros x [= <-]. by apply (bool_decide_unpack (wf_addr _)).
  - intros x [= <-]. done.
  - intros x [= <-]. repeat constructor; done.
  - intros x [= <-]. repeat constructor; done.
  - intros x [= <-]. split; [|done]. by exists 3.
  - intros x [= <-]. split; [by apply (bool_decide_unpack (wf_addr _))|]. split; [by exists 3|done].
  - done.
  - by split; eexists.
  - done.
Qed.


End ComposerSample.
