(* ===== verification/Dialogue.v ===== *)
(** * The dialogues of the setup wizard

    tools/setup_wizard/user_interaction.rs, with the mode and the parameters of main.rs.  The
    wizard is a program that asks, reads and writes files, talks to an ACME server and may
    die on the way: a computation over a [World] of the answers that the user still gives,
    the regular files, the lock of the parameters and the trace of what was done to the
    outside. *)

From S2P Require Import Prelude.

(** ** The program *)

Inductive Mode : Type := NonInteractive | Interactive.

#[export] Instance Mode_eq_dec : EqDecision Mode.
Proof. solve_decision. Defined.

Record PredefinedParameters : Type := mkPredefined {
  pp_listen_address : option bytes;
  pp_credentials : option (bytes * bytes);
  pp_hostname : option bytes;
  pp_library_settings_file : option bytes;
  pp_tls_hosts_settings_file : option bytes;
  pp_cert_type : option bytes;
  pp_cert_chain_path : option bytes;
  pp_cert_key_path : option bytes;
  pp_acme_email : option bytes;
  pp_acme_challenge : option bytes;
  pp_acme_staging : bool;
}.

(** What a dialog gives back: a line, a yes or no, the index of a variant or nothing. *)
Inductive Answer : Type :=
| Line (s : bytes)
| Agree (b : bool)
| Pick (i : option nat).

#[export] Instance Answer_eq_dec : EqDecision Answer.
Proof. solve_decision. Defined.

(** What the wizard does to the network and to the clock. *)
Inductive Event : Type :=
| Slept (secs : Z)
| AccountAsked (email : bytes) (staging : bool)
| OrderAsked (domain : bytes)
| AuthorizationsAsked
| ChallengeReady (url : bytes)
| Refreshed
| FinalizeAsked (csr : bytes)
| CertificateAsked
| BindAsked
| Serving (token key_authorization : bytes)
| ServerStopped.

Abbreviation Files := (gmap bytes bytes).

Record World : Type := mkWorld {
  w_answers : list Answer;
  w_files : Files;
  (** The mutex of [PREDEFINED_PARAMS]. *)
  w_locked : bool;
  w_trace : list Event;
}.

(** How a program ends that does not return: a panic, [std::process::exit], a thread that
    waits for the mutex that it holds; [NoFuel] stands for a loop that is cut off. *)
Inductive Death : Type := Panicked | Exited | Deadlocked | NoFuel.

Inductive RunResult (A : Type) : Type :=
| Done (a : A) (w : World)
| Died (d : Death) (w : World).
Arguments Done {A}. Arguments Died {A}.

Definition W (A : Type) : Type := World -> RunResult A.

Definition retW {A} (a : A) : W A := fun w => Done a w.

Definition bindW {A B} (m : W A) (k : A -> W B) : W B := fun w =>
  match m w with Done a w => k a w | Died d w => Died d w end.

Notation "'let~' x := m 'in' k" := (bindW m (fun x => k)) (at level 200, x pattern, m at level 200, k at level 200).

Definition dies {A} (d : Death) : W A := fun w => Died d w.

Definition panicW {A} : W A := dies Panicked.

Definition expect {A} (o : option A) : W A := match o with Some a => retW a | None => panicW end.

Definition expect_ok {E A} (r : result E A) : W A := match r with Ok a => retW a | Err _ => panicW end.

Definition event (e : Event) : W unit := fun w => Done tt (mkWorld (w_answers w) (w_files w) (w_locked w) (w_trace w ++ [e])).

(** An answer of the outside to the last event, which depends on everything before. *)
Definition observe {A} (f : list Event -> A) : W A := fun w => Done (f (w_trace w)) w.

Definition get_files : W Files := fun w => Done (w_files w) w.

(** A loop: its body goes on with a new state or leaves.  Every round of the loops of the
    wizard takes an answer. *)
Fixpoint loop_rounds {S A} (n : nat) (body : S -> W (S + A)) (s : S) : W A :=
  match n with
  | O => dies NoFuel
  | Datatypes.S n =>
      let~ r := body s in
      match r with inl s => loop_rounds n body s | inr a => retW a end
  end.

Definition loopW {S A} (body : S -> W (S + A)) (s : S) : W A := fun w =>
  loop_rounds (Datatypes.S (length (w_answers w))) body s w.

(** ** The lock of the parameters *)

Definition lock : W unit := fun w =>
  if w_locked w then Died Deadlocked w else Done tt (mkWorld (w_answers w) (w_files w) true (w_trace w)).

Definition unlock : W unit := fun w => Done tt (mkWorld (w_answers w) (w_files w) false (w_trace w)).

(** A statement in which the guard is a temporary. *)
Definition locked {A} (m : W A) : W A := let~ _ := lock in let~ a := m in let~ _ := unlock in retW a.

Section dialogues.
Context (mode : Mode) (can_write : bytes -> bool).

(** A dialog takes the answer of its kind; without one the interaction fails, and the
    result is unwrapped. *)
Definition interact {A} (as_kind : Answer -> option A) : W A := fun w =>
  match w_answers w with
  | a :: rest =>
      match as_kind a with
      | Some x => Done x (mkWorld rest (w_files w) (w_locked w) (w_trace w))
      | None => Died Panicked w
      end
  | [] => Died Panicked w
  end.

Definition ask_for_input (default : option bytes) : W bytes :=
  match mode with
  | NonInteractive => expect default
  | Interactive => interact (fun a => match a with Line s => Some s | _ => None end)
  end.

Definition ask_for_agreement : W bool :=
  match mode with
  | NonInteractive => panicW
  | Interactive => interact (fun a => match a with Agree b => Some b | _ => None end)
  end.

Definition ask_for_password : W bytes :=
  match mode with
  | NonInteractive => panicW
  | Interactive => interact (fun a => match a with Line s => Some s | _ => None end)
  end.

Definition is_file (path : bytes) : W bool := fun w => Done (bool_decide (is_Some (w_files w !! path))) w.

Definition checked_overwrite (path : bytes) : W bool :=
  match mode with
  | NonInteractive => retW true
  | Interactive => let~ b := is_file path in if b then ask_for_agreement else retW true
  end.

(** The dialog offers the variants there are. *)
Definition select_index (variants : nat) (default : option nat) : W nat :=
  match mode with
  | NonInteractive => expect default
  | Interactive =>
      interact (fun a => match a with Pick (Some i) => if decide (i < variants)%nat then Some i else None | _ => None end)
  end.

Definition select_variant (variants : list bytes) (default : option nat) : W bytes :=
  let~ i := select_index (length variants) default in expect (variants !! i).

(** [fs::write], the result of which is expected. *)
Definition write_file (path content : bytes) : W unit := fun w =>
  if can_write path then Done tt (mkWorld (w_answers w) (<[path := content]> (w_files w)) (w_locked w) (w_trace w))
  else Died Panicked w.

End dialogues.

(** ** What every dialogue keeps *)

(** The number of answers that are left. *)
Definition answers_left (w : World) : nat := length (w_answers w).

(** A computation that is never cut off and adds no answers. *)
Definition tame {A} (m : W A) : Prop := forall w,
  match m w with Done _ w' => (answers_left w' <= answers_left w)%nat | Died d _ => d <> NoFuel end.

(** A round of a loop: going on takes an answer. *)
Definition tame_round {S A} (m : W (S + A)) : Prop := forall w,
  match m w with
  | Done (inl _) w' => (answers_left w' < answers_left w)%nat
  | Done (inr _) w' => (answers_left w' <= answers_left w)%nat
  | Died d _ => d <> NoFuel
  end.

(** A computation that takes an answer when it returns. *)
Definition asks {A} (m : W A) : Prop := forall w,
  match m w with Done _ w' => (answers_left w' < answers_left w)%nat | Died d _ => d <> NoFuel end.

Create HintDb dialogue.

Create HintDb untouched.

Lemma tame_ret {A} (a : A) : tame (retW a).
Proof. intros w. cbn. lia. Qed.

Lemma tame_dies {A} d : d <> NoFuel -> tame (dies (A := A) d).
Proof. intros H w. done. Qed.

Lemma tame_bind {A B} (m : W A) (k : A -> W B) : tame m -> (forall a, tame (k a)) -> tame (bindW m k).
Proof.
  intros Hm Hk w. unfold bindW. specialize (Hm w). destruct (m w) as [a w'|]; [|done].
  specialize (Hk a w'). destruct (k a w') as [b w''|]; [lia|done].
Qed.

Lemma tame_expect {A} (o : option A) : tame (expect o).
Proof. destruct o; [apply tame_ret|by apply tame_dies]. Qed.

Lemma tame_expect_ok {E A} (r : result E A) : tame (expect_ok r).
Proof. destruct r; [apply tame_ret|by apply tame_dies]. Qed.

Lemma tame_event e : tame (event e).
Proof. intros w. cbn. unfold answers_left. cbn. lia. Qed.

Lemma tame_observe {A} (f : list Event -> A) : tame (observe f).
Proof. intros w. cbn. lia. Qed.

Lemma tame_get_files : tame get_files.
Proof. intros w. cbn. lia. Qed.

Lemma tame_lock : tame lock.
Proof. intros w. unfold lock. destruct (w_locked w); [done|]. unfold answers_left. cbn. lia. Qed.

Lemma tame_unlock : tame unlock.
Proof. intros w. unfold answers_left. cbn. lia. Qed.

#[export] Hint Resolve tame_ret tame_expect tame_expect_ok tame_event tame_observe tame_get_files tame_lock tame_unlock : dialogue.

Lemma tame_locked {A} (m : W A) : tame m -> tame (locked m).
Proof. intros H. unfold locked. repeat (apply tame_bind; [auto with dialogue|intros ?]). auto with dialogue. Qed.

Lemma asks_tame {A} (m : W A) : asks m -> tame m.
Proof. intros H w. specialize (H w). destruct (m w); [lia|done]. Qed.

Lemma asks_bind {A B} (m : W A) (k : A -> W B) : asks m -> (forall a, tame (k a)) -> asks (bindW m k).
Proof.
  intros Hm Hk w. unfold bindW. specialize (Hm w). destruct (m w) as [a w'|]; [|done].
  specialize (Hk a w'). destruct (k a w') as [b w''|]; [lia|done].
Qed.

Lemma asks_later {A B} (m : W A) (k : A -> W B) : tame m -> (forall a, asks (k a)) -> asks (bindW m k).
Proof.
  intros Hm Hk w. unfold bindW. specialize (Hm w). destruct (m w) as [a w'|]; [|done].
  specialize (Hk a w'). destruct (k a w') as [b w''|]; [lia|done].
Qed.

Lemma asks_round {S A} (m : W (S + A)) : asks m -> tame_round m.
Proof. intros H w. specialize (H w). destruct (m w) as [[s|a] w'|]; [done|lia|done]. Qed.

(** A loop the rounds of which take answers ends. *)
Lemma tame_loop {S A} (body : S -> W (S + A)) s : (forall s, tame_round (body s)) -> tame (loopW body s).
Proof.
  intros H w. unfold loopW. enough (forall n s w, (answers_left w < n)%nat ->
    match loop_rounds n body s w with Done _ w' => (answers_left w' <= answers_left w)%nat | Died d _ => d <> NoFuel end) as L by (apply L; unfold answers_left; lia).
  clear s w. intros n. induction n as [|n IH]; intros s w Hn; [lia|]. cbn [loop_rounds]. unfold bindW.
  specialize (H s w). destruct (body s w) as [[s'|a] w'|]; [|cbn; lia|done].
  specialize (IH s' w' ltac:(lia)). destruct (loop_rounds n body s' w'); [lia|done].
Qed.

Lemma asks_interact {A} (f : Answer -> option A) : asks (interact f).
Proof.
  intros w. unfold interact, answers_left. destruct (w_answers w) as [|a rest]; [done|]. destruct (f a); [cbn; lia|done].
Qed.

Section tame_dialogues.
Context (mode : Mode) (can_write : bytes -> bool).

Lemma tame_input d : tame (ask_for_input mode d).
Proof. destruct mode; cbn; [apply tame_expect|apply asks_tame, asks_interact]. Qed.

Lemma tame_agreement : tame (ask_for_agreement mode).
Proof. destruct mode; cbn; [by apply tame_dies|apply asks_tame, asks_interact]. Qed.

Lemma asks_agreement : asks (ask_for_agreement mode).
Proof. destruct mode; cbn; [done|apply asks_interact]. Qed.

Lemma tame_password : tame (ask_for_password mode).
Proof. destruct mode; cbn; [by apply tame_dies|apply asks_tame, asks_interact]. Qed.

Lemma tame_is_file p : tame (is_file p).
Proof. intros w. cbn. lia. Qed.

Lemma tame_overwrite p : tame (checked_overwrite mode p).
Proof.
  unfold checked_overwrite. destruct mode eqn:E; [apply tame_ret|]. rewrite <- E. apply tame_bind; [apply tame_is_file|].
  intros []; [apply tame_agreement|apply tame_ret].
Qed.

Lemma tame_select_index n d : tame (select_index mode n d).
Proof. destruct mode; cbn; [apply tame_expect|apply asks_tame, asks_interact]. Qed.

Lemma tame_select_variant l d : tame (select_variant mode l d).
Proof. apply tame_bind; [apply tame_select_index|intros; apply tame_expect]. Qed.

Lemma tame_write p c : tame (write_file can_write p c).
Proof. intros w. unfold write_file. destruct (can_write p); [|done]. unfold answers_left. cbn. lia. Qed.

End tame_dialogues.

#[export] Hint Resolve tame_input tame_agreement asks_agreement tame_password tame_is_file tame_overwrite tame_select_index
  tame_select_variant tame_write tame_locked : dialogue.

(** Computations that are made of tame ones. *)
Ltac tame :=
  repeat first
    [ solve [auto with dialogue]
    | apply tame_dies; discriminate
    | apply tame_bind; [|intros ?]
    | case_match ].

(** ** Invariants of the world *)

(** A computation keeps an invariant, also when it dies, and returns what satisfies [P]. *)
Definition keeps (I : World -> Prop) {A} (m : W A) (P : A -> Prop) : Prop := forall w, I w ->
  match m w with Done a w' => I w' /\ P a | Died _ w' => I w' end.

Definition always {A} (a : A) : Prop := True.

Section keeping.
Context (I : World -> Prop).

Lemma keeps_ret {A} (a : A) (P : A -> Prop) : P a -> keeps I (retW a) P.
Proof. intros HP w Hw. done. Qed.

Lemma keeps_dies {A} d (P : A -> Prop) : keeps I (dies d) P.
Proof. intros w Hw. done. Qed.

Lemma keeps_then {A B} (m : W A) (k : A -> W B) P Q :
  keeps I m P -> (forall a, P a -> keeps I (k a) Q) -> keeps I (bindW m k) Q.
Proof.
  intros Hm Hk w Hw. unfold bindW. specialize (Hm w Hw). destruct (m w) as [a w'|d w']; [|done].
  destruct Hm as [Hw' Ha]. exact (Hk a Ha w' Hw').
Qed.

Lemma keeps_seq {A B} (m : W A) (k : A -> W B) Q : keeps I m always -> (forall a, keeps I (k a) Q) -> keeps I (bindW m k) Q.
Proof. intros Hm Hk. eapply keeps_then; [exact Hm|auto]. Qed.

Lemma keeps_weaken {A} (m : W A) (P Q : A -> Prop) : keeps I m P -> (forall a, P a -> Q a) -> keeps I m Q.
Proof. intros Hm HQ w Hw. specialize (Hm w Hw). destruct (m w) as [a w'|]; [|done]. destruct Hm. auto. Qed.

Lemma keeps_loop {S A} (body : S -> W (S + A)) (R : S -> Prop) (P : A -> Prop) s :
  R s -> (forall s, R s -> keeps I (body s) (fun r => match r with inl s => R s | inr a => P a end)) ->
  keeps I (loopW body s) P.
Proof.
  intros Hs Hb w Hw. unfold loopW. generalize (Datatypes.S (length (w_answers w))). intros n.
  revert s w Hs Hw. induction n as [|n IH]; intros s w Hs Hw; [done|]. cbn [loop_rounds]. unfold bindW.
  specialize (Hb s Hs w Hw). destruct (body s w) as [[s'|a] w'|d w']; [|done|done]. destruct Hb as [Hw' HR]. by apply IH.
Qed.

End keeping.

(** ** Declined overwriting *)

(** The user never agrees, and what was there is there. *)
Definition untouched (old : Files) (w : World) : Prop :=
  Agree true ∉ w_answers w /\ forall p c, old !! p = Some c -> w_files w !! p = Some c.

Section untouched_files.
Context (old : Files) (can_write : bytes -> bool).
Abbreviation kept := (keeps (untouched old)).

Lemma untouched_interact {A} (f : Answer -> option A) : kept (interact f) (fun x => exists a, a <> Agree true /\ f a = Some x).
Proof.
  intros w [Hn Hf]. unfold interact. destruct (w_answers w) as [|a rest] eqn:E; [by rewrite <- E in Hn|].
  destruct (f a) as [x|] eqn:Ea; [|by rewrite <- E in Hn]. split; [split; [|done]|].
  - intros Hin. apply Hn. by constructor.
  - exists a. split; [|done]. intros ->. apply Hn. by constructor.
Qed.

Lemma untouched_interact_any {A} (f : Answer -> option A) : kept (interact f) always.
Proof. eapply keeps_weaken; [apply untouched_interact|done]. Qed.

Lemma untouched_agreement : kept (ask_for_agreement Interactive) (fun b => b = false).
Proof.
  eapply keeps_weaken; [apply untouched_interact|]. intros b (a & Ha & E). destruct a as [|[]|]; by simplify_eq.
Qed.

Lemma untouched_overwrite p : kept (checked_overwrite Interactive p) (fun b => b = true -> old !! p = None).
Proof.
  intros w Hw. unfold checked_overwrite, is_file, bindW. case_bool_decide as E.
  - pose proof (untouched_agreement w Hw) as H. destruct (ask_for_agreement Interactive w) as [b w'|]; [|done].
    destruct H as [H ->]. done.
  - split; [done|]. intros _. destruct (old !! p) as [c|] eqn:Ep; [|done]. destruct E. rewrite (proj2 Hw p c Ep). by eexists.
Qed.

Lemma untouched_write p c : old !! p = None -> kept (write_file can_write p c) always.
Proof.
  intros Hp w [Hn Hf]. unfold write_file. destruct (can_write p); [|done]. split; [split; [done|]|done].
  intros q d Hq. cbn. rewrite lookup_insert_ne; [by apply Hf|]. congruence.
Qed.

Lemma untouched_same {A} (m : W A) :
  (forall w, match m w with Done _ w' | Died _ w' => w_answers w' = w_answers w /\ w_files w' = w_files w end) -> kept m always.
Proof.
  intros H w [Hn Hf]. specialize (H w). unfold untouched. destruct (m w) as [a w'|d w']; destruct H as [-> ->]; done.
Qed.

Lemma untouched_expect {A} (o : option A) : kept (expect o) always.
Proof. destruct o; [by apply keeps_ret|apply keeps_dies]. Qed.

Lemma untouched_event e : kept (event e) always.
Proof. by apply untouched_same. Qed.

Lemma untouched_observe {A} (f : list Event -> A) : kept (observe f) always.
Proof. by apply untouched_same. Qed.

Lemma untouched_get_files : kept get_files always.
Proof. by apply untouched_same. Qed.

Lemma untouched_locked {A} (m : W A) P : kept m P -> kept (locked m) P.
Proof.
  intros Hm. unfold locked. eapply keeps_then; [apply (untouched_same lock); intros w; unfold lock; by destruct (w_locked w)|].
  intros _ _. eapply keeps_then; [exact Hm|]. intros a Ha. eapply keeps_then; [by apply (untouched_same unlock)|]. intros. by apply keeps_ret.
Qed.

End untouched_files.

#[export] Hint Resolve untouched_interact_any untouched_agreement untouched_overwrite untouched_write untouched_expect
  untouched_event untouched_observe untouched_get_files untouched_locked keeps_dies : untouched.

(** Computations that are made of ones that keep the files. *)
Ltac kept :=
  repeat first
    [ solve [auto with untouched]
    | solve [apply keeps_ret; done]
    | apply keeps_seq; [|intros ?]
    | case_match ].
