(* ===== verification/Acme.v ===== *)
(** * Certificates from an ACME server

    tools/setup_wizard/acme.rs and acme_http_server.rs: the order of a certificate, the
    challenges that prove the control of the domain and the server that answers the HTTP
    challenge.  The crates [instant_acme] and [rcgen] are parameters: an answer of the ACME
    server is a function of everything that was done before. *)

From S2P Require Import Prelude.
From S2P Require Import Varint.
From S2P Require Import ForwardedStream.
From S2P Require Import Dialogue.

(** ** Data *)

Inductive ChallengeMethod : Type := Http01 | Dns01.

#[export] Instance ChallengeMethod_eq_dec : EqDecision ChallengeMethod.
Proof. solve_decision. Defined.

Definition challenge_text (c : ChallengeMethod) : bytes := match c with Http01 => str "http-01" | Dns01 => str "dns-01" end.

(** No letter outside ASCII has a lower case that occurs in these names. *)
Definition challenge_from_str (s : bytes) : option ChallengeMethod :=
  let s := to_lower s in
  if bool_decide (s = str "http-01") || bool_decide (s = str "http01") then Some Http01
  else if bool_decide (s = str "dns-01") || bool_decide (s = str "dns01") then Some Dns01
  else None.

Record AcmeConfig : Type := mkAcmeConfig {
  ac_domain : bytes;
  ac_email : bytes;
  ac_challenge_method : ChallengeMethod;
  ac_use_staging : bool;
}.

Record IssuedCert : Type := mkIssued { is_cert_pem : bytes; is_key_pem : bytes; is_domain : bytes }.

Inductive AcmeError : Type :=
| AccountCreation (e : bytes)
| OrderCreation (e : bytes)
| AuthorizationError (e : bytes)
| ChallengeNotFound (t : ChallengeMethod)
| ChallengeFailed (e : bytes)
| CsrGeneration (e : bytes)
| Finalization (e : bytes)
| CertificateDownload (e : bytes)
| AcmeTimeout (e : bytes)
| PortInUse (port : Z)
| AcmePermissionDenied (port : Z)
| AcmeOther (e : bytes).

(** [instant_acme]. *)
Inductive AuthorizationStatus : Type := AuthPending | AuthValid | AuthInvalid | AuthOther.

Inductive OrderStatus : Type := OrderPending | OrderReady | OrderProcessing | OrderValid | OrderInvalid.

#[export] Instance AuthorizationStatus_eq_dec : EqDecision AuthorizationStatus.
Proof. solve_decision. Defined.

#[export] Instance OrderStatus_eq_dec : EqDecision OrderStatus.
Proof. solve_decision. Defined.

(** The type of a challenge, one of the two that the wizard knows or another. *)
Record Challenge : Type := mkChallenge { ch_type : option ChallengeMethod; ch_token : bytes; ch_url : bytes }.

Record Authorization : Type := mkAuthorization { az_status : AuthorizationStatus; az_challenges : list Challenge }.

(** ** Names and addresses *)

Definition validate_email (email : bytes) : bool :=
  match split_char 0x40 email with
  | [local; domain] => negb (len local =? 0) && negb (len domain =? 0) && bool_decide (0x2E ∈ domain)
  | _ => false
  end.

Definition is_ascii_alphanumeric (c : Z) : bool := in_range 0x30 0x39 c || in_range 0x41 0x5A c || in_range 0x61 0x7A c.

Definition ends_with (c : Z) (l : bytes) : bool := bool_decide (last l = Some c).

Definition validate_label (label : bytes) : bool :=
  negb (len label =? 0) && (len label <=? 63) && negb (starts_with [0x2D] label) && negb (ends_with 0x2D label)
    && forallb (fun c => is_ascii_alphanumeric c || (c =? 0x2D)) label.

Definition validate_domain (domain : bytes) : bool :=
  if (len domain =? 0) || (253 <? len domain) then false
  else if starts_with [0x2E] domain || ends_with 0x2E domain || starts_with [0x2D] domain || ends_with 0x2D domain then false
  else if negb (bool_decide (0x2E ∈ domain)) then false
  else forallb validate_label (split_char 0x2E domain).

(** ** The challenge server *)

Definition ACME_CHALLENGE_PATH_PREFIX : bytes := str "/.well-known/acme-challenge/".
Definition HTTP_PORT : Z := 80.

Record ChallengeData : Type := mkChallengeData { cd_token : bytes; cd_key_authorization : bytes }.

(** The status, the headers and the body of a response. *)
Definition handle_request (path : bytes) (challenge_data : ChallengeData) : Z * list (bytes * bytes) * bytes :=
  let not_found := (404, [], str "Not Found") in
  match strip_prefix ACME_CHALLENGE_PATH_PREFIX path with
  | Some request_token =>
      if bool_decide (request_token = cd_token challenge_data)
      then (200, [(str "Content-Type", str "text/plain")], cd_key_authorization challenge_data)
      else not_found
  | None => not_found
  end.

(** ** The order *)

Section acme.
Context (mode : Mode).
(** The answers of the ACME server, of the library and of the system. *)
Context (create_account : list Event -> result bytes unit) (new_order : list Event -> result bytes OrderStatus)
  (authorizations : list Event -> result bytes (list Authorization)) (set_challenge_ready : list Event -> result bytes unit)
  (refresh : list Event -> result bytes OrderStatus) (finalize : list Event -> result bytes OrderStatus)
  (certificate : list Event -> result bytes (option bytes)) (bind : list Event -> result ErrorKind unit)
  (key_authorization : Challenge -> bytes).
(** A key pair and the request for a domain that it signs. *)
Context (generate_key : list Event -> result bytes bytes) (serialize_request : bytes -> bytes -> result bytes bytes).

Definition okW {A} (a : A) : W (result AcmeError A) := retW (Ok a).
Definition errW {A} (e : AcmeError) : W (result AcmeError A) := retW (Err e).

Definition bindWR {A B} (m : W (result AcmeError A)) (k : A -> W (result AcmeError B)) : W (result AcmeError B) :=
  let~ r := m in match r with Ok a => k a | Err e => errW e end.

(** A request and its answer. *)
Definition call {A} (e : Event) (answer : list Event -> result bytes A) (err : bytes -> AcmeError) : W (result AcmeError A) :=
  let~ _ := event e in
  let~ r := observe answer in
  retW (match r with Ok a => Ok a | Err x => Err (err x) end).

(** The loops that wait: sleep, look, and give up after [max_attempts] looks.  The number of
    rounds left is that of the attempts left. *)
Fixpoint poll {A} (rounds : nat) (attempts max_attempts period : Z) (timeout : bytes) (look : W (result AcmeError (option A)))
  : W (result AcmeError A) :=
  match rounds with
  | O => dies NoFuel
  | S rounds =>
      let~ _ := event (Slept period) in
      bindWR look (fun o =>
        match o with
        | Some a => okW a
        | None =>
            let attempts := attempts + 1 in
            if max_attempts <=? attempts then errW (AcmeTimeout timeout)
            else poll rounds attempts max_attempts period timeout look
        end)
  end.

Definition wait {A} (max_attempts period : Z) (timeout : bytes) (look : W (result AcmeError (option A))) : W (result AcmeError A) :=
  poll (Z.to_nat max_attempts) 0 max_attempts period timeout look.

(** The look at the authorizations of an order. *)
Definition look_authorizations (failed : bytes) : W (result AcmeError (option unit)) :=
  bindWR (call AuthorizationsAsked authorizations AuthorizationError) (fun auths =>
    if forallb (fun a => bool_decide (az_status a = AuthValid)) auths then okW (Some tt)
    else if existsb (fun a => bool_decide (az_status a = AuthInvalid)) auths then errW (ChallengeFailed failed)
    else okW None).

(** The server listens and serves until its sender is used or dropped. *)
Definition run_http01_challenge_server (data : ChallengeData) : W (result AcmeError unit) :=
  let~ _ := event BindAsked in
  let~ r := observe bind in
  match r with
  | Ok _ => let~ _ := event (Serving (cd_token data) (cd_key_authorization data)) in okW tt
  | Err PermissionDenied => errW (AcmePermissionDenied HTTP_PORT)
  | Err _ => errW (PortInUse HTTP_PORT)
  end.

Definition complete_http01_challenge (token key_authorization url : bytes) : W (result AcmeError unit) :=
  bindWR (run_http01_challenge_server (mkChallengeData token key_authorization)) (fun _ =>
    let~ r :=
      bindWR (call (ChallengeReady url) set_challenge_ready ChallengeFailed) (fun _ =>
        wait 30 2 (str "Timed out waiting for challenge validation") (look_authorizations (str "Authorization became invalid"))) in
    let~ _ := event ServerStopped in
    retW r).

Definition complete_dns01_challenge (url : bytes) : W (result AcmeError unit) :=
  if bool_decide (mode = NonInteractive)
  then errW (AcmeOther (str "DNS-01 challenge requires interactive mode to confirm DNS record addition"))
  else
    let~ agreed := ask_for_agreement mode in
    if negb agreed then errW (ChallengeFailed (str "User cancelled DNS-01 challenge"))
    else
      bindWR (call (ChallengeReady url) set_challenge_ready ChallengeFailed) (fun _ =>
        wait 60 5 (str "Timed out waiting for DNS validation. DNS propagation may take longer.")
          (look_authorizations (str "DNS validation failed. Please verify the TXT record is correct."))).

Definition find_challenge (method : ChallengeMethod) (auth : Authorization) : result AcmeError Challenge :=
  match List.find (fun c => bool_decide (ch_type c = Some method)) (az_challenges auth) with
  | Some c => Ok c
  | None => Err (ChallengeNotFound method)
  end.

Definition complete_authorization (method : ChallengeMethod) (auth : Authorization) : W (result AcmeError unit) :=
  match az_status auth with
  | AuthValid => okW tt
  | AuthPending =>
      bindWR (retW (find_challenge method auth)) (fun challenge =>
        match method with
        | Http01 => complete_http01_challenge (ch_token challenge) (key_authorization challenge) (ch_url challenge)
        | Dns01 => complete_dns01_challenge (ch_url challenge)
        end)
  | _ => errW (AuthorizationError (str "Unexpected authorization status"))
  end.

Fixpoint complete_authorizations (method : ChallengeMethod) (l : list Authorization) : W (result AcmeError unit) :=
  match l with
  | [] => okW tt
  | auth :: l => bindWR (complete_authorization method auth) (fun _ => complete_authorizations method l)
  end.

Definition look_ready : W (result AcmeError (option OrderStatus)) :=
  bindWR (call Refreshed refresh AcmeOther) (fun status =>
    retW match status with
         | OrderReady | OrderValid => Ok (Some status)
         | OrderInvalid => Err (Finalization (str "Order became invalid"))
         | _ => Ok None
         end).

Definition look_valid : W (result AcmeError (option unit)) :=
  bindWR (call Refreshed refresh AcmeOther) (fun status =>
    retW match status with
         | OrderValid => Ok (Some tt)
         | OrderInvalid => Err (Finalization (str "Order became invalid after finalization"))
         | _ => Ok None
         end).

(** The key pair and the request that it signs. *)
Definition make_request (domain : bytes) : W (result AcmeError (bytes * bytes)) :=
  let~ k := observe generate_key in
  match k with
  | Err e => errW (CsrGeneration e)
  | Ok key => match serialize_request key domain with Ok csr => okW (key, csr) | Err e => errW (CsrGeneration e) end
  end.

Definition finalize_order (status : OrderStatus) (csr : bytes) : W (result AcmeError unit) :=
  if bool_decide (status = OrderReady) then bindWR (call (FinalizeAsked csr) finalize Finalization) (fun _ => okW tt) else okW tt.

Definition download : W (result AcmeError bytes) :=
  bindWR (call CertificateAsked certificate CertificateDownload) (fun o =>
    match o with Some c => okW c | None => errW (CertificateDownload (str "No certificate returned")) end).

Definition issue_cert (domain : bytes) (method : ChallengeMethod) : W (result AcmeError IssuedCert) :=
  bindWR (call (OrderAsked domain) new_order OrderCreation) (fun _ =>
  bindWR (call AuthorizationsAsked authorizations AuthorizationError) (fun auths =>
  bindWR (complete_authorizations method auths) (fun _ =>
  bindWR (wait 30 2 (str "Timed out waiting for order to be ready") look_ready) (fun status =>
  bindWR (make_request domain) (fun '(key_pem, csr) =>
  bindWR (finalize_order status csr) (fun _ =>
  bindWR (wait 30 2 (str "Timed out waiting for certificate") look_valid) (fun _ =>
  bindWR download (fun cert_chain =>
    okW (mkIssued cert_chain key_pem domain))))))))).

Definition client_new (email : bytes) (staging : bool) : W (result AcmeError unit) :=
  call (AccountAsked email staging) create_account AccountCreation.

Definition issue_certificate (config : AcmeConfig) : W (result AcmeError IssuedCert) :=
  bindWR (client_new (ac_email config) (ac_use_staging config)) (fun _ =>
    issue_cert (ac_domain config) (ac_challenge_method config)).

End acme.

(** ** Names: proofs *)

Definition join_dots (labels : list bytes) : bytes :=
  match labels with [] => [] | x :: l => x ++ mjoin ((fun y => 0x2E :: y) <$> l) end.

(** A label of letters, digits and inner hyphens. *)
Definition ldh_label (l : bytes) : Prop :=
  (1 <= length l <= 63)%nat /\ Forall (fun c => is_ascii_alphanumeric c = true \/ c = 0x2D) l /\
  head l <> Some 0x2D /\ last l <> Some 0x2D.

Definition host_name (d : bytes) : Prop :=
  (length d <= 253)%nat /\ exists labels, d = join_dots labels /\ (2 <= length labels)%nat /\ Forall ldh_label labels.

Lemma split_char_join c l : exists x ls, split_char c l = x :: ls /\ l = x ++ mjoin ((fun y => c :: y) <$> ls) /\
  Forall (fun y => c ∉ y) (x :: ls).
Proof.
  induction l as [|a l (x & ls & E & Hl & Hf)]; [exists [], []; split_and!; [done|done|]; constructor; [set_solver|done]|].
  cbn [split_char]. rewrite E. destruct (Z.eqb_spec a c) as [->|Hac].
  - exists [], (x :: ls). rewrite Hl. split; [done|]. split; [done|]. constructor; [set_solver|done].
  - exists (a :: x), ls. rewrite Hl. split; [done|]. split; [done|]. apply Forall_cons in Hf as [Hx Hls]. constructor; [set_solver|done].
Qed.

Lemma split_char_none c x : c ∉ x -> split_char c x = [x].
Proof.
  induction x as [|a x IH]; intros Hc; [done|]. cbn [split_char]. destruct (Z.eqb_spec a c) as [->|]; [set_solver|].
  by rewrite IH by set_solver.
Qed.

Lemma split_char_cons c x l : c ∉ x -> split_char c (x ++ c :: l) = x :: split_char c l.
Proof.
  induction x as [|a x IH]; intros Hc; cbn [split_char app]; [by rewrite Z.eqb_refl|].
  destruct (Z.eqb_spec a c) as [->|]; [set_solver|]. by rewrite IH by set_solver.
Qed.

Lemma split_join_dots x ls : Forall (fun y => 0x2E ∉ y) (x :: ls) -> split_char 0x2E (join_dots (x :: ls)) = x :: ls.
Proof.
  revert x. induction ls as [|y ls IH]; intros x Hf; apply Forall_cons in Hf as [Hx Hls]; cbn [join_dots fmap list_fmap mjoin list_join].
  - rewrite app_nil_r. by apply split_char_none.
  - rewrite <- app_comm_cons, split_char_cons by done. f_equal. by apply (IH y).
Qed.

Lemma starts_with_head c l : starts_with [c] l = bool_decide (head l = Some c).
Proof.
  destruct l as [|a l]; cbn; [by rewrite bool_decide_false|]. destruct (Z.eqb_spec c a) as [<-|]; [by rewrite bool_decide_true|].
  rewrite bool_decide_false; [done|]. intros [= ->]. done.
Qed.

Lemma validate_label_spec l : validate_label l = true <-> ldh_label l.
Proof.
  unfold validate_label, ldh_label, ends_with. rewrite !andb_true_iff, !negb_true_iff, forallb_forall, Forall_forall.
  rewrite Z.eqb_neq, Z.leb_le, bool_decide_eq_false. unfold len.
  assert ((forall x, In x l -> is_ascii_alphanumeric x || (x =? 0x2D) = true) <->
          (forall x, x ∈ l -> is_ascii_alphanumeric x = true \/ x = 0x2D)) as ->.
  { split; intros H x Hx; apply list_elem_of_In in Hx; specialize (H x Hx); destruct (Z.eqb_spec x 0x2D), (is_ascii_alphanumeric x);
      cbn in *; intuition congruence. }
  rewrite starts_with_head, bool_decide_eq_false.
  split; [intros ((((H1 & H2) & H3) & H4) & H5)|intros ([H1 H2] & H3 & H4 & H5)]; split_and!; done || lia.
Qed.

Lemma ldh_no_dot l : ldh_label l -> 0x2E ∉ l.
Proof.
  intros (_ & Hf & _) Hin. rewrite Forall_forall in Hf. destruct (Hf _ Hin) as [H|H]; [by vm_compute in H|done].
Qed.

Lemma join_dots_edges labels :
  labels <> [] -> Forall ldh_label labels ->
  exists a z, head (join_dots labels) = Some a /\ last (join_dots labels) = Some z /\ a <> 0x2E /\ a <> 0x2D /\ z <> 0x2E /\ z <> 0x2D.
Proof.
  intros Hne Hf. destruct labels as [|x ls]; [done|]. clear Hne.
  assert (exists y, y ∈ x :: ls /\ last (join_dots (x :: ls)) = last y) as (y & Hy & Hlast).
  { revert x Hf. induction ls as [|y ls IH]; intros x Hf; cbn [join_dots fmap list_fmap mjoin list_join].
    - exists x. rewrite app_nil_r. split; [constructor|done].
    - apply Forall_cons in Hf as [_ Hf]. destruct (IH y Hf) as (v & Hv & E). exists v. split; [by constructor|].
      rewrite <- E, <- app_comm_cons. change (0x2E :: y ++ ?r) with ([0x2E] ++ (y ++ r)). unfold join_dots. rewrite !last_app.
      apply Forall_cons in Hf as [[Hl _] _]. destruct (last (mjoin _)); [done|]. destruct (last y) eqn:El; [done|].
      apply last_None in El as ->. cbn in Hl. lia. }
  apply Forall_cons in Hf as Hf'. destruct Hf' as [Hx _]. rewrite Forall_forall in Hf. specialize (Hf y Hy).
  destruct Hx as (Hl & Hc & Hh & _). destruct x as [|a x]; [cbn in Hl; lia|]. destruct Hf as (Hl' & Hc' & _ & Ht).
  destruct (last y) as [z|] eqn:Ez; [|apply last_None in Ez; subst; cbn in Hl'; lia].
  exists a, z. split_and!; try done.
  - apply Forall_cons in Hc as [[H|H] _]; intros ->; [by vm_compute in H|done].
  - naive_solver.
  - rewrite Forall_forall in Hc'. intros ->. destruct (Hc' _ (last_Some_elem_of _ _ Ez)) as [H|H]; [by vm_compute in H|done].
  - naive_solver.
Qed.

(** The check of a domain accepts exactly the names of two or more labels of letters, digits
    and inner hyphens, each of 1 to 63 bytes, 253 in all. *)
Theorem validate_domain_correct d : validate_domain d = true <-> host_name d.
Proof.
  unfold validate_domain, host_name, ends_with. rewrite !starts_with_head. split.
  - destruct (Z.eqb_spec (len d) 0); [done|]. destruct (Z.ltb_spec 253 (len d)); [done|]. cbn [orb].
    destruct (_ || _); [done|]. case_bool_decide as Hdot; [|done]. cbn [negb]. intros Hf. split; [unfold len in *; lia|].
    destruct (split_char_join 0x2E d) as (x & ls & E & Hd & Hp). rewrite E in Hf. exists (x :: ls). split; [done|].
    split.
    + destruct ls; [|cbn; lia]. cbn in Hd. rewrite app_nil_r in Hd. subst x. apply Forall_cons in Hp as [Hp _]. done.
    + apply Forall_forall. intros y Hy. apply validate_label_spec. rewrite forallb_forall in Hf. apply Hf. by apply list_elem_of_In.
  - intros (Hl & labels & -> & Hn & Hf). destruct (join_dots_edges labels) as (a & z & Ha & Hz & Ha1 & Ha2 & Hz1 & Hz2);
      [by destruct labels; cbn in Hn; [lia|]|done|].
    rewrite Ha, Hz, !(bool_decide_false (Some _ = Some _)) by congruence. destruct labels as [|x [|y ls]]; [cbn in Hn; lia..|].
    destruct (Z.eqb_spec (len (join_dots (x :: y :: ls))) 0) as [E|_]; [unfold len in E; destruct (join_dots _); [done|cbn in E; lia]|].
    destruct (Z.ltb_spec 253 (len (join_dots (x :: y :: ls)))) as [E|_]; [unfold len in E; lia|]. cbn [orb].
    rewrite bool_decide_true by (cbn; set_solver). cbn [negb].
    rewrite split_join_dots by (eapply Forall_impl; [exact Hf|apply ldh_no_dot]).
    apply forallb_forall. intros v Hv. apply validate_label_spec. rewrite Forall_forall in Hf. by apply Hf, list_elem_of_In.
Qed.

(** ** Traces *)

Definition extend (w : World) (t : list Event) : World := mkWorld (w_answers w) (w_files w) (w_locked w) (w_trace w ++ t).

(** A computation that always returns and only adds to the trace. *)
Definition acts {A} (m : W A) (P : list Event -> A -> list Event -> Prop) : Prop := forall w,
  exists a t, m w = Done a (extend w t) /\ P (w_trace w) a t.

Lemma extend_nil w : extend w [] = w.
Proof. destruct w. unfold extend. cbn. by rewrite app_nil_r. Qed.

Lemma extend_app w a b : extend (extend w a) b = extend w (a ++ b).
Proof. unfold extend. cbn. by rewrite app_assoc. Qed.

Lemma acts_ret {A} (a : A) (P : list Event -> A -> list Event -> Prop) : (forall t, P t a []) -> acts (retW a) P.
Proof. intros H w. exists a, []. by rewrite extend_nil. Qed.

Lemma acts_bind {A B} (m : W A) (k : A -> W B) P Q R :
  acts m P -> (forall a, acts (k a) (Q a)) ->
  (forall t0 a t1 b t2, P t0 a t1 -> Q a (t0 ++ t1) b t2 -> R t0 b (t1 ++ t2)) -> acts (bindW m k) R.
Proof.
  intros Hm Hk HR w. unfold bindW. destruct (Hm w) as (a & t1 & -> & HP). destruct (Hk a (extend w t1)) as (b & t2 & -> & HQ).
  exists b, (t1 ++ t2). rewrite extend_app. split; [done|]. by eapply HR.
Qed.

Lemma acts_weaken {A} (m : W A) (P Q : list Event -> A -> list Event -> Prop) :
  acts m P -> (forall t0 a t, P t0 a t -> Q t0 a t) -> acts m Q.
Proof. intros Hm HQ w. destruct (Hm w) as (a & t & E & HP). exists a, t. auto. Qed.

Lemma acts_event e : acts (event e) (fun _ _ t => t = [e]).
Proof. intros w. by exists tt, [e]. Qed.

Lemma acts_observe {A} (f : list Event -> A) : acts (observe f) (fun t0 a t => a = f t0 /\ t = []).
Proof. intros w. exists (f (w_trace w)), []. by rewrite extend_nil. Qed.

Lemma acts_bindWR_if {A B} (m : W (result AcmeError A)) (k : A -> W (result AcmeError B)) P Q R :
  acts m P -> (forall a t0 t, P t0 (Ok a) t -> acts (k a) (Q a)) ->
  (forall t0 e t, P t0 (Err e) t -> R t0 (Err e) t) ->
  (forall t0 a t1 b t2, P t0 (Ok a) t1 -> Q a (t0 ++ t1) b t2 -> R t0 b (t1 ++ t2)) -> acts (bindWR m k) R.
Proof.
  intros Hm Hk HE HR w. unfold bindWR, bindW. destruct (Hm w) as ([a|e] & t1 & -> & HP).
  - destruct (Hk a _ _ HP (extend w t1)) as (b & t2 & -> & HQ). exists b, (t1 ++ t2). rewrite extend_app. split; [done|]. by eapply HR.
  - exists (Err e), t1. split; [done|]. by apply HE.
Qed.

Lemma acts_bindWR {A B} (m : W (result AcmeError A)) (k : A -> W (result AcmeError B)) P Q R :
  acts m P -> (forall a, acts (k a) (Q a)) ->
  (forall t0 e t, P t0 (Err e) t -> R t0 (Err e) t) ->
  (forall t0 a t1 b t2, P t0 (Ok a) t1 -> Q a (t0 ++ t1) b t2 -> R t0 b (t1 ++ t2)) -> acts (bindWR m k) R.
Proof. intros Hm Hk. by eapply acts_bindWR_if. Qed.

Lemma acts_call {A} e (answer : list Event -> result bytes A) err :
  acts (call e answer err) (fun t0 r t => t = [e] /\ forall a, r = Ok a -> answer (t0 ++ [e]) = Ok a).
Proof.
  intros w. unfold call, bindW, event, observe, retW. cbn [w_trace].
  exists (match answer (w_trace w ++ [e]) with Ok a => Ok a | Err x => Err (err x) end), [e]. split; [done|]. split; [done|].
  intros a. by destruct (answer (w_trace w ++ [e])) as [x|x]; intros [= <-].
Qed.

(** The seconds that a trace sleeps. *)
Fixpoint slept (t : list Event) : Z :=
  match t with [] => 0 | Slept s :: t => s + slept t | _ :: t => slept t end.

Lemma slept_app a b : slept (a ++ b) = slept a + slept b.
Proof. induction a as [|e a IH]; [done|]. cbn [app slept]. rewrite IH. destruct e; lia. Qed.

(** The requests that are finalized. *)
Definition finalized (t : list Event) : list bytes := omap (fun e => match e with FinalizeAsked csr => Some csr | _ => None end) t.

Lemma finalized_prefix a b : finalized (a ++ b) = [] -> finalized a = [].
Proof. unfold finalized. rewrite omap_app. by intros [-> _]%app_eq_nil. Qed.

Section served.
Context (key_authorization : Challenge -> bytes).

(** The challenge server from one state to another: it is started when it is down, and the
    ACME server is told that a challenge is ready only while its token is served with its
    key authorization. *)
Fixpoint served (s : option ChallengeData) (t : list Event) (s' : option ChallengeData) : Prop :=
  match t with
  | [] => s = s'
  | Serving token auth :: t => s = None /\ served (Some (mkChallengeData token auth)) t s'
  | ServerStopped :: t => is_Some s /\ served None t s'
  | ChallengeReady url :: t =>
      (exists c, ch_url c = url /\ s = Some (mkChallengeData (ch_token c) (key_authorization c))) /\ served s t s'
  | _ :: t => served s t s'
  end.

Lemma served_app s a s1 b s2 : served s a s1 -> served s1 b s2 -> served s (a ++ b) s2.
Proof. revert s. induction a as [|e a IH]; intros s Ha Hb; [cbn in Ha; by subst|]. destruct e; cbn in *; intuition eauto. Qed.

(** Events that are neither of the server nor a finalization. *)
Definition plain (e : Event) : bool :=
  match e with ChallengeReady _ | Serving _ _ | ServerStopped | FinalizeAsked _ => false | _ => true end.

Lemma plain_served s t : Forall (fun e => plain e = true) t -> served s t s /\ finalized t = [].
Proof. induction 1 as [|e t He _ [IH1 IH2]]; [done|]. destruct e; try discriminate He; (split; [exact IH1|exact IH2]). Qed.

End served.

(** ** The order: proofs *)

Section order.
Context (mode : Mode)
  (create_account : list Event -> result bytes unit) (new_order : list Event -> result bytes OrderStatus)
  (authorizations : list Event -> result bytes (list Authorization)) (set_challenge_ready : list Event -> result bytes unit)
  (refresh : list Event -> result bytes OrderStatus) (finalize : list Event -> result bytes OrderStatus)
  (certificate : list Event -> result bytes (option bytes)) (bind : list Event -> result ErrorKind unit)
  (key_authorization : Challenge -> bytes) (generate_key : list Event -> result bytes bytes)
  (serialize_request : bytes -> bytes -> result bytes bytes).

Abbreviation running := (served key_authorization).

(** A wait of plain events, of at most [c] seconds. *)
Definition waits (c : Z) (t : list Event) : Prop := Forall (fun e => plain e = true) t /\ slept t <= c.

Lemma acts_poll {A} rounds attempts max period timeout (look : W (result AcmeError (option A))) P :
  0 <= period -> attempts + Z.of_nat rounds = max -> (0 < rounds)%nat ->
  acts look (fun t0 r t => waits 0 t /\ P t0 r t) ->
  acts (poll rounds attempts max period timeout look)
    (fun t0 r t => waits (period * Z.of_nat rounds) t /\
       forall a, r = Ok a -> exists t1 t2, t = t1 ++ t2 /\ P (t0 ++ t1) (Ok (Some a)) t2).
Proof.
  intros Hp Ha Hn Hl. revert attempts Ha Hn. induction rounds as [|n IH]; intros attempts Ha Hn w; [lia|].
  cbn [poll]. unfold bindWR, bindW. change (event (Slept period) w) with (Done tt (extend w [Slept period])). cbv beta iota.
  destruct (Hl (extend w [Slept period])) as ([[a|]|e] & t & -> & [Hf Hc] & HP); rewrite extend_app; cbv beta iota.
  - exists (Ok a), ([Slept period] ++ t). split; [done|]. split; [split; [by constructor|rewrite slept_app; cbn [slept]; nia]|].
    intros a' [= <-]. by exists [Slept period], t.
  - destruct (Z.leb_spec max (attempts + 1)).
    + exists (Err (AcmeTimeout timeout)), ([Slept period] ++ t). split; [done|].
      split; [split; [by constructor|rewrite slept_app; cbn [slept]; nia]|done].
    + destruct (IH (attempts + 1) ltac:(lia) ltac:(lia) (extend w ([Slept period] ++ t))) as (r & t2 & -> & [Hf2 Hc2] & Hr).
      exists r, (([Slept period] ++ t) ++ t2). rewrite extend_app. split; [done|]. split.
      * split; [apply Forall_app; split; [by constructor|done]|]. rewrite !slept_app. cbn [slept]. nia.
      * intros a Ea. destruct (Hr a Ea) as (u1 & u2 & -> & Hu). exists (([Slept period] ++ t) ++ u1), u2.
        split; [by rewrite app_assoc|]. cbn [extend w_trace] in Hu. by rewrite app_assoc.
  - exists (Err e), ([Slept period] ++ t). split; [done|]. split; [split; [by constructor|rewrite slept_app; cbn [slept]; nia]|done].
Qed.

Lemma waits_app c d a b : waits c a -> waits d b -> waits (c + d) (a ++ b).
Proof. intros [H1 H2] [H3 H4]. split; [by apply Forall_app|]. rewrite slept_app. lia. Qed.

Lemma acts_call_plain {A} e (answer : list Event -> result bytes A) err :
  plain e = true -> slept [e] = 0 ->
  acts (call e answer err) (fun t0 r t => waits 0 t /\ t = [e] /\ forall a, r = Ok a -> answer (t0 ++ [e]) = Ok a).
Proof.
  intros Hp Hs. eapply acts_weaken; [apply acts_call|]. intros t0 r t [-> Hr]. split; [split; [by repeat constructor|lia]|done].
Qed.

Lemma look_authorizations_acts failed :
  acts (look_authorizations authorizations failed) (fun t0 r t => waits 0 t /\ True).
Proof.
  eapply acts_bindWR with (Q := fun _ _ _ t => t = []); [by apply acts_call_plain| | |].
  - intros l. destruct (forallb _ l); [by apply acts_ret|]. destruct (existsb _ l); by apply acts_ret.
  - by intros t0 e t [H _].
  - intros t0 a t1 b t2 [H _] ->. by rewrite app_nil_r.
Qed.

Lemma server_acts data :
  acts (run_http01_challenge_server bind data) (fun _ r t =>
    t = match r with Ok _ => [BindAsked; Serving (cd_token data) (cd_key_authorization data)] | Err _ => [BindAsked] end).
Proof.
  intros w. unfold run_http01_challenge_server, bindW, event, observe, okW, errW, retW. cbn [w_trace].
  destruct (bind (w_trace w ++ [BindAsked])) as [u|k].
  - exists (Ok tt), [BindAsked; Serving (cd_token data) (cd_key_authorization data)]. unfold extend. cbn. by rewrite <- app_assoc.
  - exists (Err match k with PermissionDenied => AcmePermissionDenied HTTP_PORT | _ => PortInUse HTTP_PORT end), [BindAsked].
    by destruct k.
Qed.

(** Telling the ACME server and waiting for it to look. *)
Lemma validation_acts url max period timeout failed :
  0 < max -> 0 <= period ->
  acts (bindWR (call (ChallengeReady url) set_challenge_ready ChallengeFailed) (fun _ =>
          wait max period timeout (look_authorizations authorizations failed)))
    (fun _ _ t => exists u, t = ChallengeReady url :: u /\ waits (period * max) u).
Proof.
  intros Hm Hp. eapply acts_bindWR; [apply acts_call| | |].
  - intros ?. unfold wait. apply acts_poll with (P := fun _ _ _ => True); [done|lia|lia|apply look_authorizations_acts].
  - intros t0 e t [-> _]. exists []. split; [done|]. split; [done|]. cbn. nia.
  - intros t0 a t1 b t2 [-> _] [H _]. exists t2. split; [done|]. by rewrite Z2Nat.id in H by lia.
Qed.

(** What the challenges of an order do: the server is up while it is needed. *)
Definition challenged (c : Z) (t : list Event) : Prop := running None t None /\ slept t <= c /\ finalized t = [].

Lemma challenged_app c d a b : challenged c a -> challenged d b -> challenged (c + d) (a ++ b).
Proof.
  intros (H1 & H2 & H3) (H4 & H5 & H6). split_and!.
  - by eapply served_app.
  - rewrite slept_app. lia.
  - unfold finalized in *. by rewrite omap_app, H3, H6.
Qed.

Lemma waits_challenged c t : waits c t -> challenged c t.
Proof. intros [H1 H2]. destruct (plain_served key_authorization None t H1) as [H3 H4]. done. Qed.

Lemma http01_acts c :
  acts (complete_http01_challenge authorizations set_challenge_ready bind (ch_token c) (key_authorization c) (ch_url c))
    (fun _ _ t => challenged 60 t).
Proof.
  eapply acts_bindWR with (Q := fun _ _ _ t => exists u, t = (ChallengeReady (ch_url c) :: u) ++ [ServerStopped] /\ waits (2 * 30) u);
    [apply server_acts| | |].
  - intros _. eapply acts_bind with (Q := fun _ _ _ t => t = [ServerStopped]); [by apply validation_acts| |].
    + intros r. eapply acts_bind with (Q := fun _ _ _ t => t = []); [apply acts_event|intros _; by apply acts_ret|].
      by intros t0 [] t1 b t2 -> ->.
    + intros t0 a t1 b t2 (u & -> & Hu) ->. by exists u.
  - intros t0 e t ->. by repeat split.
  - intros t0 a t1 b t2 -> (u & -> & Hu & Hs). destruct (plain_served key_authorization (Some (mkChallengeData (ch_token c) (key_authorization c))) u Hu) as [H1 H2].
    split_and!.
    + cbn. split; [done|]. split; [by exists c|]. eapply served_app; [exact H1|]. by split; [eexists|].
    + cbn. rewrite slept_app. cbn. lia.
    + cbn. unfold finalized in *. by rewrite omap_app, H2.
Qed.

(** A part of the order that takes at most [c] seconds; [P] relates the trace before it, its
    result and what it adds to the trace. *)
Definition does {A} (c : Z) (m : W (result AcmeError A)) (P : list Event -> result AcmeError A -> list Event -> Prop) : Prop :=
  acts m (fun t0 r t => running None t None /\ slept t <= c /\ P t0 r t).

Lemma does_ret {A} (a : result AcmeError A) (P : list Event -> result AcmeError A -> list Event -> Prop) :
  (forall t0, P t0 a []) -> does 0 (retW a) P.
Proof. intros H. apply acts_ret. by intros t. Qed.

Lemma does_weaken {A} c d (m : W (result AcmeError A)) (P Q : list Event -> result AcmeError A -> list Event -> Prop) :
  does c m P -> c <= d -> (forall t0 r t, P t0 r t -> Q t0 r t) -> does d m Q.
Proof. intros Hm Hc HQ. eapply acts_weaken; [exact Hm|]. intros t0 r t (H1 & H2 & H3). split_and!; [done|lia|auto]. Qed.

Lemma does_bind_if {A B} c d (m : W (result AcmeError A)) (k : A -> W (result AcmeError B)) P Q R :
  0 <= d -> does c m P -> (forall a t0 t, P t0 (Ok a) t -> does d (k a) (Q a)) ->
  (forall t0 e t, P t0 (Err e) t -> R t0 (Err e) t) ->
  (forall t0 a t1 b t2, P t0 (Ok a) t1 -> Q a (t0 ++ t1) b t2 -> R t0 b (t1 ++ t2)) -> does (c + d) (bindWR m k) R.
Proof.
  intros Hd Hm Hk HE HR.
  eapply acts_bindWR_if with (Q := fun a t0 r t => running None t None /\ slept t <= d /\ Q a t0 r t); [exact Hm| | |].
  - intros a t0 t (_ & _ & H). by eapply Hk.
  - intros t0 e t (H1 & H2 & H3). split_and!; [done|lia|auto].
  - intros t0 a t1 b t2 (H1 & H2 & H3) (H4 & H5 & H6). split_and!; [by eapply served_app|rewrite slept_app; lia|]. by eapply HR.
Qed.

Lemma does_bind {A B} c d (m : W (result AcmeError A)) (k : A -> W (result AcmeError B)) P Q R :
  0 <= d -> does c m P -> (forall a, does d (k a) (Q a)) ->
  (forall t0 e t, P t0 (Err e) t -> R t0 (Err e) t) ->
  (forall t0 a t1 b t2, P t0 (Ok a) t1 -> Q a (t0 ++ t1) b t2 -> R t0 b (t1 ++ t2)) -> does (c + d) (bindWR m k) R.
Proof. intros Hd Hm Hk. by eapply does_bind_if. Qed.

Lemma does_call {A} e (answer : list Event -> result bytes A) err :
  slept [e] = 0 -> running None [e] None ->
  does 0 (call e answer err) (fun t0 r t => t = [e] /\ forall a, r = Ok a -> answer (t0 ++ [e]) = Ok a).
Proof. intros Hs Hr. eapply acts_weaken; [apply acts_call|]. intros t0 r t [-> Ha]. split_and!; [done|lia|done|done]. Qed.

Lemma does_wait {A} max period timeout (look : W (result AcmeError (option A))) (P : list Event -> A -> list Event -> Prop) :
  0 < max -> 0 <= period ->
  acts look (fun t0 r t => waits 0 t /\ forall a, r = Ok (Some a) -> P t0 a t) ->
  does (period * max) (wait max period timeout look) (fun t0 r t => finalized t = [] /\
    forall a, r = Ok a -> exists t1 t2, t = t1 ++ t2 /\ P (t0 ++ t1) a t2).
Proof.
  intros Hm Hp Hl. eapply acts_weaken; [apply acts_poll with (P := fun t0 r t => forall a, r = Ok (Some a) -> P t0 a t); [done|lia|lia|exact Hl]|].
  intros t0 r t [Hw Ha]. rewrite Z2Nat.id in Hw by lia. destruct (waits_challenged _ _ Hw) as (H1 & H2 & H3). split_and!; [done..|].
  intros a Ea. destruct (Ha a Ea) as (t1 & t2 & -> & H). exists t1, t2. split; [done|]. by apply H.
Qed.

(** Looking at the status of the order. *)
Lemma look_status_acts {A} (f : OrderStatus -> result AcmeError (option A)) :
  acts (bindWR (call Refreshed refresh AcmeOther) (fun s => retW (f s))) (fun t0 r t => waits 0 t /\
    forall a, r = Ok (Some a) -> t = [Refreshed] /\ exists s, refresh (t0 ++ [Refreshed]) = Ok s /\ f s = Ok (Some a)).
Proof.
  eapply acts_bindWR with (Q := fun s _ r t => r = f s /\ t = []); [by apply acts_call_plain|intros s; by apply acts_ret| |].
  - by intros t0 e t [H _].
  - intros t0 s t1 b t2 (Hw & -> & Hs) [-> ->]. rewrite app_nil_r. split; [done|]. intros a Ea. split; [done|]. exists s. auto.
Qed.

Lemma wait_ready_does timeout :
  does 60 (wait 30 2 timeout (look_ready refresh)) (fun _ _ t => finalized t = []).
Proof. eapply does_weaken; [apply (does_wait 30 2); [done..|apply look_status_acts]|lia|]. by intros t0 r t [H _]. Qed.

(** The wait ends with the look that found the order valid. *)
Lemma wait_valid_does timeout :
  does 60 (wait 30 2 timeout (look_valid refresh)) (fun t0 r t => finalized t = [] /\
    forall a, r = Ok a -> exists p, t = p ++ [Refreshed] /\ refresh (t0 ++ p ++ [Refreshed]) = Ok OrderValid).
Proof.
  eapply does_weaken; [apply (does_wait 30 2); [done..|apply look_status_acts]|lia|].
  intros t0 r t [H Ha]. split; [done|]. intros a Ea. destruct (Ha a Ea) as (p & ? & -> & -> & s & Hs & E). exists p.
  split; [done|]. rewrite app_assoc. destruct s; try discriminate E. done.
Qed.

Lemma authorizations_does l :
  does (60 * len l) (complete_authorizations mode authorizations set_challenge_ready bind key_authorization Http01 l)
    (fun _ _ t => finalized t = []).
Proof.
  induction l as [|auth l IH]; [by apply does_ret|]. cbn [complete_authorizations].
  replace (60 * len (auth :: l)) with (60 + 60 * len l) by (unfold len; cbn [length]; lia).
  eapply does_bind with (P := fun _ _ t => finalized t = []) (Q := fun _ _ _ t => finalized t = []); [unfold len; lia| |intros _; exact IH|done|].
  2:{ intros t0 a t1 b t2 H1 H2. unfold finalized in *. by rewrite omap_app, H1, H2. }
  assert (forall r : result AcmeError unit, does 60 (retW r) (fun _ _ t => finalized t = [])) as Hr.
  { intros r. eapply does_weaken; [by apply (does_ret r (fun _ _ t => t = []))|lia|]. by intros t0 a t ->. }
  unfold complete_authorization, find_challenge. destruct (az_status auth); [|apply Hr..].
  destruct (List.find _ _) as [c|]; [|apply (Hr (Err _))].
  eapply acts_weaken; [apply http01_acts|]. intros t0 a t (H1 & H2 & H3). done.
Qed.

(** What an order for a domain has done when the trace was [t0] before it and it added [t].
    At most one request was finalized.  With a certificate, this is the request of the
    returned key, which was generated in the order; the last two calls are a look that found
    the order valid and the download of that certificate. *)
Definition issue_result (domain : bytes) (t0 : list Event) (r : result AcmeError IssuedCert) (t : list Event) : Prop :=
  match r with
  | Err _ => (length (finalized t) <= 1)%nat
  | Ok issued =>
      is_domain issued = domain /\
      (exists p, t = p ++ [Refreshed; CertificateAsked] /\ refresh (t0 ++ p ++ [Refreshed]) = Ok OrderValid) /\
      certificate (t0 ++ t) = Ok (Some (is_cert_pem issued)) /\
      (exists t1 t2, t = t1 ++ t2 /\ generate_key (t0 ++ t1) = Ok (is_key_pem issued)) /\
      exists csr, serialize_request (is_key_pem issued) domain = Ok csr /\ finalized t = [csr]
  end.

Lemma issue_result_after domain t0 t1 r t2 :
  finalized t1 = [] -> issue_result domain (t0 ++ t1) r t2 -> issue_result domain t0 r (t1 ++ t2).
Proof.
  intros Hf. assert (finalized (t1 ++ t2) = finalized t2) as E by (unfold finalized in *; by rewrite omap_app, Hf).
  destruct r as [i|e]; cbn; rewrite E; [|done].
  intros (H1 & (p & -> & H2) & H3 & (k1 & k2 & E2 & H4) & csr & H5). split_and!; [done| | | |by exists csr].
  - exists (t1 ++ p). rewrite <- !app_assoc in *. done.
  - by rewrite app_assoc.
  - exists (t1 ++ k1), k2. split; [by rewrite E2, app_assoc|by rewrite app_assoc].
Qed.

(** The order was made, and none of its requests finalized. *)
Definition order_open (t0 : list Event) : Prop := exists t domain u, t0 = t ++ OrderAsked domain :: u /\ finalized u = [].

Lemma order_open_app t0 t1 : order_open t0 -> finalized t1 = [] -> order_open (t0 ++ t1).
Proof.
  intros (t & d & u & -> & Hu) H1. exists t, d, (u ++ t1). split; [by rewrite <- app_assoc|].
  unfold finalized in *. by rewrite omap_app, Hu, H1.
Qed.

(** An order becomes valid only after it was finalized. *)
Context (Hvalid : forall t domain u, refresh (t ++ OrderAsked domain :: u) = Ok OrderValid -> finalized u <> []).

(** The result of the rest of an open order. *)
Definition rest_result (domain : bytes) (t0 : list Event) (r : result AcmeError IssuedCert) (t : list Event) : Prop :=
  order_open t0 -> issue_result domain t0 r t.

(** A part that finalizes nothing, before the rest. *)
Lemma does_before {A} c d (m : W (result AcmeError A)) (k : A -> W (result AcmeError IssuedCert)) domain (P : A -> Prop) :
  0 <= d -> does c m (fun _ r t => finalized t = [] /\ forall a, r = Ok a -> P a) ->
  (forall a, P a -> does d (k a) (rest_result domain)) -> does (c + d) (bindWR m k) (rest_result domain).
Proof.
  intros Hd Hm Hk. eapply does_bind_if with (Q := fun _ => rest_result domain); [done|exact Hm| | |].
  - intros a t0 t [_ Ha]. by apply Hk, Ha.
  - intros t0 e t [H _] _. cbn. rewrite H. cbn. lia.
  - intros t0 a t1 b t2 [H _] HQ Ho. apply issue_result_after; [done|]. by apply HQ, order_open_app.
Qed.

Lemma finalize_does status csr :
  does 0 (finalize_order finalize status csr) (fun _ _ t => finalized t = [csr] \/ finalized t = []).
Proof.
  unfold finalize_order. case_bool_decide; [|apply does_ret; by right].
  apply (does_bind 0 0) with (P := fun _ _ t => t = [FinalizeAsked csr]) (Q := fun _ _ _ t => t = []);
    [done| |intros; by apply does_ret|by intros t0 e t ->; left|by intros t0 a t1 b t2 -> ->; left].
  eapply does_weaken; [by apply (does_call (FinalizeAsked csr))|lia|]. by intros t0 r t [-> _].
Qed.

Lemma download_does :
  does 0 (download certificate) (fun t0 r t => t = [CertificateAsked] /\
    forall c, r = Ok c -> certificate (t0 ++ [CertificateAsked]) = Ok (Some c)).
Proof.
  apply (does_bind 0 0) with (P := fun t0 r t => t = [CertificateAsked] /\ forall o, r = Ok o -> certificate (t0 ++ [CertificateAsked]) = Ok o)
    (Q := fun o _ r t => t = [] /\ forall c, r = Ok c -> o = Some c); [done|by apply (does_call CertificateAsked)| |by intros t0 e t [-> _]|].
  - intros [c|]; apply does_ret; intros t0; split; try done. by intros ? [= <-].
  - intros t0 o t1 b t2 [-> Ho] [-> Hb]. split; [done|]. intros c Ec. rewrite <- (Hb c Ec). by apply Ho.
Qed.

(** The end of the order, once its request was sent: the certificate. *)
Lemma collect_does domain key :
  does 60
    (bindWR (wait 30 2 (str "Timed out waiting for certificate") (look_valid refresh)) (fun _ =>
     bindWR (download certificate) (fun cert_chain => okW (mkIssued cert_chain key domain))))
    (fun t0 r t => finalized t = [] /\ forall i, r = Ok i -> is_domain i = domain /\ is_key_pem i = key /\
       (exists p, t = p ++ [Refreshed; CertificateAsked] /\ refresh (t0 ++ p ++ [Refreshed]) = Ok OrderValid) /\
       certificate (t0 ++ t) = Ok (Some (is_cert_pem i))).
Proof.
  eapply (does_bind 60 0) with (Q := fun _ t0 r t => finalized t = [] /\ forall i, r = Ok i -> is_domain i = domain /\ is_key_pem i = key /\
      t = [CertificateAsked] /\ certificate (t0 ++ t) = Ok (Some (is_cert_pem i))); [done|apply wait_valid_does| |by intros t0 e t [H _]|].
  - intros _. eapply (does_bind 0 0) with (Q := fun c _ r t => t = [] /\ r = Ok (mkIssued c key domain));
      [done|apply download_does|intros; by apply does_ret|by intros t0 e t [-> _]|].
    intros t0 c t1 b t2 [-> Hc] [-> ->]. rewrite app_nil_r. split; [done|]. intros i [= <-]. split_and!; [done..|]. by apply Hc.
  - intros t0 [] t1 b t2 [Hf Hv] [Hf2 Hi]. split; [unfold finalized in *; by rewrite omap_app, Hf, Hf2|].
    intros i Ei. destruct (Hi i Ei) as (H1 & H2 & -> & H4). destruct (Hv tt eq_refl) as (p & -> & Hr). split_and!; [done..| |].
    + exists p. by rewrite <- app_assoc.
    + by rewrite app_assoc.
Qed.

(** The end of the order, from its last status on. *)
Lemma finish_does domain key csr status :
  serialize_request key domain = Ok csr ->
  does 60
    (bindWR (finalize_order finalize status csr) (fun _ =>
     bindWR (wait 30 2 (str "Timed out waiting for certificate") (look_valid refresh)) (fun _ =>
     bindWR (download certificate) (fun cert_chain => okW (mkIssued cert_chain key domain)))))
    (fun t0 r t => generate_key t0 = Ok key -> rest_result domain t0 r t).
Proof.
  intros Hcsr. eapply (does_bind 0 60); [done|apply finalize_does|intros ?; apply collect_does| |].
  - intros t0 e t Hf _ _. cbn. destruct Hf as [-> | ->]; cbn; lia.
  - intros t0 a t1 r t2 Hf1 [Hf2 Hi] Hk Ho.
    assert (finalized (t1 ++ t2) = finalized t1) as E by (unfold finalized in *; by rewrite omap_app, Hf2, app_nil_r).
    destruct r as [i|e]; cbn; rewrite E; [|destruct Hf1 as [-> | ->]; cbn; lia].
    destruct (Hi i eq_refl) as (H1 & H2 & (p & -> & Hr) & H4). rewrite H2. split_and!; [done| |by rewrite app_assoc| |].
    + exists (t1 ++ p). rewrite <- !app_assoc in *. done.
    + eexists [], _. split; [done|]. by rewrite app_nil_r.
    + exists csr. split; [done|]. destruct Hf1 as [|Hf1]; [done|]. exfalso.
      destruct (order_open_app _ _ (order_open_app _ _ Ho Hf1) (finalized_prefix _ _ Hf2)) as (t & d & u & Et & Hu).
      apply (Hvalid t d (u ++ [Refreshed])); [by rewrite app_assoc, Et, <- app_assoc in Hr|].
      unfold finalized in *. by rewrite omap_app, Hu.
Qed.

(** An invariant of the server: an order has at most [n] authorizations. *)
Context (n : nat) (Hn : forall t l, authorizations t = Ok l -> (length l <= n)%nat).

Abbreviation certificate_order := (issue_certificate mode create_account new_order authorizations set_challenge_ready refresh finalize
  certificate bind key_authorization generate_key serialize_request).

Lemma request_does domain :
  does 0 (make_request generate_key serialize_request domain) (fun t0 r t => t = [] /\
    forall k csr, r = Ok (k, csr) -> generate_key t0 = Ok k /\ serialize_request k domain = Ok csr).
Proof.
  intros w. unfold make_request, bindW, observe. destruct (generate_key (w_trace w)) as [k|e] eqn:Ek.
  - destruct (serialize_request k domain) as [csr|e] eqn:E; [exists (Ok (k, csr)), []|exists (Err (CsrGeneration e)), []];
      (rewrite extend_nil; split; [done|]; split_and!; try done).
    by intros k' c' [= <- <-].
  - exists (Err (CsrGeneration e)), []. rewrite extend_nil. by split.
Qed.

(** The order after it was made. *)
Lemma rest_does domain :
  does (60 * Z.of_nat n + 120)
    (bindWR (call AuthorizationsAsked authorizations AuthorizationError) (fun auths =>
     bindWR (complete_authorizations mode authorizations set_challenge_ready bind key_authorization Http01 auths) (fun _ =>
     bindWR (wait 30 2 (str "Timed out waiting for order to be ready") (look_ready refresh)) (fun status =>
     bindWR (make_request generate_key serialize_request domain) (fun '(key_pem, csr) =>
     bindWR (finalize_order finalize status csr) (fun _ =>
     bindWR (wait 30 2 (str "Timed out waiting for certificate") (look_valid refresh)) (fun _ =>
     bindWR (download certificate) (fun cert_chain =>
       okW (mkIssued cert_chain key_pem domain)))))))))
    (rest_result domain).
Proof.
  replace (60 * Z.of_nat n + 120) with (0 + (60 * Z.of_nat n + (60 + (0 + 60)))) by lia.
  apply does_before with (P := fun l => (length l <= n)%nat); [lia| |intros auths Ha].
  { eapply does_weaken; [by apply does_call|lia|]. intros t0 r t [-> Hr]. split; [done|]. intros a Ea. by eapply Hn, Hr. }
  apply does_before with (P := fun _ => True); [lia|eapply does_weaken; [apply authorizations_does|unfold len; lia|done]|intros _ _].
  apply does_before with (P := fun _ => True); [lia|eapply does_weaken; [apply wait_ready_does|lia|done]|intros status _].
  eapply (does_bind_if 0 60) with (Q := fun p t0 r t => generate_key t0 = Ok p.1 -> rest_result domain t0 r t);
    [done|apply request_does| | |].
  - intros [k csr] t0 t [_ Hk]. apply finish_does. by apply (Hk k csr).
  - intros t0 e t [-> _] _. cbn. lia.
  - intros t0 [k csr] t1 b t2 [-> Hk] HQ. rewrite app_nil_r in HQ. by apply HQ, (Hk k csr).
Qed.

Lemma issue_does config :
  ac_challenge_method config = Http01 ->
  does (60 * Z.of_nat n + 120) (certificate_order config) (issue_result (ac_domain config)).
Proof.
  intros Hm. unfold issue_certificate, client_new, issue_cert. rewrite Hm.
  replace (60 * Z.of_nat n + 120) with (0 + (0 + (60 * Z.of_nat n + 120))) by lia.
  eapply does_bind with (Q := fun _ => issue_result (ac_domain config)); [lia|by apply does_call|intros _| |].
  - eapply does_bind with (Q := fun _ => rest_result (ac_domain config)); [lia|by apply does_call|intros ?; apply rest_does| |].
    + by intros t0 e t [-> _]; cbn; lia.
    + intros t0 a t1 b t2 [-> _] HQ. apply issue_result_after; [done|]. apply HQ. by eexists t0, _, [].
  - by intros t0 e t [-> _]; cbn; lia.
  - intros t0 a t1 b t2 [-> _] HQ. by apply issue_result_after.
Qed.

End order.

(** ** Both challenges *)

Lemma tame_bindWR {A B} (m : W (result AcmeError A)) (k : A -> W (result AcmeError B)) :
  tame m -> (forall a, tame (k a)) -> tame (bindWR m k).
Proof. intros Hm Hk. apply tame_bind; [done|]. intros [a|e]; [apply Hk|apply tame_ret]. Qed.

Lemma tame_call {A} e (answer : list Event -> result bytes A) err : tame (call e answer err).
Proof. unfold call. tame. Qed.

Lemma tame_wait {A} max period timeout (look : W (result AcmeError (option A))) :
  0 < max -> tame look -> tame (wait max period timeout look).
Proof.
  intros Hm Hl. unfold wait. enough (forall rounds attempts, attempts + Z.of_nat rounds = max -> (0 < rounds)%nat ->
    tame (poll rounds attempts max period timeout look)) as H by (apply H; lia). intros rounds.
  induction rounds as [|n IH]; intros attempts Ha Hn; [lia|]. cbn [poll]. apply tame_bind; [auto with dialogue|intros _].
  apply tame_bindWR; [done|]. intros [a|]; [apply tame_ret|]. destruct (Z.leb_spec max (attempts + 1)); [apply tame_ret|]. apply IH; lia.
Qed.

#[export] Hint Resolve tame_call tame_bindWR : dialogue.

Section both.
Context (mode : Mode)
  (create_account : list Event -> result bytes unit) (new_order : list Event -> result bytes OrderStatus)
  (authorizations : list Event -> result bytes (list Authorization)) (set_challenge_ready : list Event -> result bytes unit)
  (refresh : list Event -> result bytes OrderStatus) (finalize : list Event -> result bytes OrderStatus)
  (certificate : list Event -> result bytes (option bytes)) (bind : list Event -> result ErrorKind unit)
  (key_authorization : Challenge -> bytes) (generate_key : list Event -> result bytes bytes)
  (serialize_request : bytes -> bytes -> result bytes bytes).

Ltac tame_acme :=
  repeat first
    [ solve [auto with dialogue]
    | apply tame_wait; [done|]
    | apply tame_bindWR; [|intros ?]
    | apply tame_bind; [|intros ?]
    | case_match ].

Lemma tame_look_authorizations failed : tame (look_authorizations authorizations failed).
Proof. unfold look_authorizations, okW, errW. tame_acme. Qed.

Lemma tame_http01 token auth url : tame (complete_http01_challenge authorizations set_challenge_ready bind token auth url).
Proof.
  unfold complete_http01_challenge, run_http01_challenge_server, okW, errW. tame_acme; apply tame_look_authorizations.
Qed.

Lemma tame_dns01 url : tame (complete_dns01_challenge mode authorizations set_challenge_ready url).
Proof. unfold complete_dns01_challenge, okW, errW. tame_acme; apply tame_look_authorizations. Qed.

Lemma tame_authorizations method l :
  tame (complete_authorizations mode authorizations set_challenge_ready bind key_authorization method l).
Proof.
  induction l as [|auth l IH]; [apply tame_ret|]. cbn [complete_authorizations]. apply tame_bindWR; [|done].
  unfold complete_authorization, okW, errW. case_match; try apply tame_ret. apply tame_bindWR; [apply tame_ret|]. intros c.
  destruct method; [apply tame_http01|apply tame_dns01].
Qed.

Lemma tame_issue config :
  tame (issue_certificate mode create_account new_order authorizations set_challenge_ready refresh finalize certificate bind
    key_authorization generate_key serialize_request config).
Proof.
  unfold issue_certificate, client_new, issue_cert, make_request, finalize_order, download, look_ready, look_valid, okW, errW.
  tame_acme; apply tame_authorizations.
Qed.

(** The files and the answers that an order keeps. *)
Context (I : World -> Prop) (HI : forall e, keeps I (event e) always) (HO : forall A (f : list Event -> A), keeps I (observe f) always)
  (Hask : keeps I (ask_for_agreement mode) always).

Lemma keeps_bindWR {A B} (m : W (result AcmeError A)) (k : A -> W (result AcmeError B)) :
  keeps I m always -> (forall a, keeps I (k a) always) -> keeps I (bindWR m k) always.
Proof. intros Hm Hk. apply keeps_seq; [done|]. intros [a|e]; [apply Hk|by apply keeps_ret]. Qed.

Lemma keeps_call {A} e (answer : list Event -> result bytes A) err : keeps I (call e answer err) always.
Proof. unfold call. apply keeps_seq; [done|intros _]. apply keeps_seq; [apply HO|intros r]. by apply keeps_ret. Qed.

Lemma keeps_poll {A} rounds attempts max period timeout (look : W (result AcmeError (option A))) :
  keeps I look always -> keeps I (poll rounds attempts max period timeout look) always.
Proof.
  intros Hl. revert attempts. induction rounds as [|n IH]; intros attempts; [apply keeps_dies|]. cbn [poll].
  apply keeps_seq; [done|intros _]. apply keeps_bindWR; [done|]. intros [a|]; [by apply keeps_ret|].
  destruct (max <=? attempts + 1); [by apply keeps_ret|apply IH].
Qed.

Ltac keeps_acme :=
  repeat first
    [ solve [apply keeps_ret; done]
    | apply HI | apply HO | apply Hask | apply keeps_call
    | apply keeps_poll
    | apply keeps_bindWR; [|intros ?]
    | apply keeps_seq; [|intros ?]
    | case_match ].

Lemma keeps_authorizations method l :
  keeps I (complete_authorizations mode authorizations set_challenge_ready bind key_authorization method l) always.
Proof.
  induction l as [|auth l IH]; [by apply keeps_ret|]. cbn [complete_authorizations]. apply keeps_bindWR; [|done].
  unfold complete_authorization, complete_http01_challenge, complete_dns01_challenge, run_http01_challenge_server, wait,
    look_authorizations, okW, errW. keeps_acme.
Qed.

Lemma keeps_issue config :
  keeps I (issue_certificate mode create_account new_order authorizations set_challenge_ready refresh finalize certificate bind
    key_authorization generate_key serialize_request config) always.
Proof.
  unfold issue_certificate, client_new, issue_cert, make_request, finalize_order, download, look_ready, look_valid, wait, okW, errW.
  keeps_acme; apply keeps_authorizations.
Qed.

End both.

(** The challenge server gives the key authorization to a request for its token and to no
    other one. *)
Lemma handle_request_spec path data :
  (path = ACME_CHALLENGE_PATH_PREFIX ++ cd_token data ->
     handle_request path data = (200, [(str "Content-Type", str "text/plain")], cd_key_authorization data)) /\
  (path <> ACME_CHALLENGE_PATH_PREFIX ++ cd_token data -> handle_request path data = (404, [], str "Not Found")).
Proof.
  unfold handle_request. split.
  - intros ->. rewrite strip_prefix_app. by rewrite bool_decide_true.
  - intros Hp. destruct (strip_prefix _ path) as [token|] eqn:E; [|done]. apply strip_prefix_spec in E.
    rewrite bool_decide_false; [done|]. intros ->. done.
Qed.


Module AcmeSample.

Definition sample_challenge : Challenge := mkChallenge (Some Http01) (str "token") (str "https://acme/1").

(** A server that validates a challenge it was told of and issues a finalized order. *)
Definition authorizations (t : list Event) : result bytes (list Authorization) :=
  Ok [mkAuthorization (if existsb (fun e => match e with ChallengeReady _ => true | _ => false end) t then AuthValid else AuthPending)
        [sample_challenge]].

Definition was_finalized (t : list Event) : bool :=
  fold_left (fun b e => match e with OrderAsked _ => false | FinalizeAsked _ => true | _ => b end) t false.

Definition refresh (t : list Event) : result bytes OrderStatus :=
  Ok (if was_finalized t then OrderValid else OrderReady).

Lemma refresh_valid t domain u : refresh (t ++ OrderAsked domain :: u) = Ok OrderValid -> finalized u <> [].
Proof.
  unfold refresh, was_finalized. rewrite fold_left_app. cbn [fold_left]. intros E Hu.
  assert (fold_left (fun b e => match e with OrderAsked _ => false | FinalizeAsked _ => true | _ => b end) u false = false) as H.
  { clear E. revert Hu. induction u as [|e u IH]; [done|]. destruct e; cbn; try exact IH. done. }
  by rewrite H in E.
Qed.

Definition config : AcmeConfig := mkAcmeConfig (str "vpn.example.org") (str "a@example.org") Http01 false.

Definition issue : W (result AcmeError IssuedCert) :=
  issue_certificate NonInteractive (fun _ => Ok tt) (fun _ => Ok OrderPending) authorizations (fun _ => Ok tt) refresh
    (fun _ => Ok OrderProcessing) (fun _ => Ok (Some (str "chain"))) (fun _ => Ok tt) (fun c => ch_token c) (fun _ => Ok (str "key"))
    (fun k d => Ok (k ++ d)) config.

Definition world : World := mkWorld [] ∅ false [].


(** With a server that calls an order valid from the start, nothing is finalized: the code
    pairs the certificate of that order with a key that was generated for this one. *)
Lemma valid_order_key_unrelated :
  match issue_certificate NonInteractive (fun _ => Ok tt) (fun _ => Ok OrderValid) authorizations (fun _ => Ok tt)
          (fun _ => Ok OrderValid) (fun _ => Ok OrderProcessing) (fun _ => Ok (Some (str "chain"))) (fun _ => Ok tt)
          (fun c => ch_token c) (fun _ => Ok (str "key")) (fun k d => Ok (k ++ d)) config world with
  | Done (Ok i) w => is_cert_pem i = str "chain" /\ is_key_pem i = str "key" /\ finalized (w_trace w) = []
  | _ => False
  end.
Proof. vm_compute. by split_and!. Qed.

End AcmeSample.
