(* ===== verification/WizardSettings.v ===== *)
(** * The library settings of the setup wizard

    tools/setup_wizard/rules_settings.rs and library_settings.rs: the dialogues for the rules
    and for the users, and the files that they write. *)

From S2P Require Import Prelude.
From S2P Require Import Varint.
From S2P Require Import NetUtils.
From S2P Require Import Rules.
From S2P Require Import Auth.
From S2P Require Import ForwardedStream.
From S2P Require Import IpText.
From S2P Require Import ReverseProxy.
From S2P Require Import Utils.
From S2P Require Import TlsDemux.
From S2P Require Import Settings.
From S2P Require Import Composer.
From S2P Require Import Dialogue.

(** The comments at the top of a rules file. *)
Definition quoted (s : bytes) : bytes := [0x22] ++ s ++ [0x22].
Definition arrow : bytes := [0xE2; 0x86; 0x92].

Definition RULES_HEADER_LINES : list bytes :=
  [str "# Rules configuration for VPN endpoint connection filtering";
   str "# ";
   str "# This file defines filter rules for incoming connections.";
   str "# Rules are evaluated in order, and the first matching rule's action is applied.";
   str "# If no rules match, the connection is allowed by default.";
   str "#";
   str "# Each rule can specify:";
   str "# - cidr: IP address range in CIDR notation";
   str "# - client_random_prefix: Hex-encoded prefix of TLS client random data";
   str "#   Can optionally include a mask in format " ++ quoted (str "prefix[/mask]") ++ str " for bitwise matching";
   str "# - client_random_auth_key: Hex-encoded auth key, 16 bytes (32 hex chars) or longer";
   str "#   Matches clients whose TLS client random is derived from this key and the SNI";
   str "#   Mutually exclusive with client_random_prefix (the key takes priority)";
   str "# - action: " ++ quoted (str "allow") ++ str " or " ++ quoted (str "deny");
   str "#";
   str "# All fields except 'action' are optional - if specified, all conditions must match for the rule to apply.";
   str "#";
   str "# client_random_prefix formats:";
   str "# 1. Simple prefix matching:";
   str "#    client_random_prefix = " ++ quoted (str "aabbcc");
   str "#    " ++ arrow ++ str " matches client_random starting with 0xaabbcc";
   str "#";
   str "# 2. Bitwise matching with mask:";
   str "#    client_random_prefix = " ++ quoted (str "a0b0/f0f0");
   str "#    " ++ arrow ++ str " prefix=a0b0, mask=f0f0";
   str "#    " ++ arrow ++ str " matches client_random where (client_random & 0xf0f0) == (0xa0b0 & 0xf0f0)";
   str "#    " ++ arrow ++ str " e.g., 0xa5b5, 0xa9bf match, but 0xb0b0, 0xa0c0 don't match"].

(** The last line is followed by an empty one. *)
Definition RULES_HEADER : bytes := mjoin ((fun l => l ++ [0x0A]) <$> RULES_HEADER_LINES).

Record Built : Type := mkBuilt { bu_settings : Settings; bu_credentials_path : bytes; bu_rules_path : bytes }.

Section settings_dialogues.
Context (mode : Mode) (params : PredefinedParameters).
(** The file system: whether a file can be written, and the regular files of a directory;
    the resolution of an address. *)
Context (can_write : bytes -> bool) (read_dir : Files -> bytes -> option (list bytes))
  (resolve : bytes -> result ErrorKind (list SocketAddr)).
(** [ipnet], [hex::decode]; the parser and the printer of an array of tables, and the text
    of an item whose string was printed and parsed. *)
Context (ipnet : bytes -> option (IpAddr -> bool)) (hex_decode : bytes -> option bytes)
  (toml_parse : bytes -> option TomlDocument) (toml_print : bytes -> list TomlTable -> bytes) (toml_string : bytes -> bytes).

Abbreviation input := (ask_for_input mode).
Abbreviation agreement := (ask_for_agreement mode).

(** ** Rules *)

(** The lower case of a letter outside ASCII has no letter of these words. *)
Definition ask_for_rule_action : W RuleAction :=
  let~ action_str := input (Some (str "allow")) in
  retW (if bool_decide (to_lower action_str = str "deny") then DenyAction else AllowAction).

Definition decodes (s : bytes) : bool := bool_decide (is_Some (hex_decode s)).

(** The format of a client random prefix. *)
Definition validate_random_value (client_random_value : bytes) : bool :=
  match split_once 0x2F client_random_value with
  | Some (prefix_part, mask_part) =>
      if len mask_part =? 0 then false else if negb (decodes prefix_part) then false else decodes mask_part
  | None => decodes client_random_value
  end.

Definition validate_cidr (cidr : bytes) : bool := bool_decide (is_Some (ipnet cidr)).

Definition validate_auth_key (auth_key : bytes) : bool :=
  if negb (is_valid_hex hex_decode auth_key) then false else negb (len auth_key <? 32).

Definition add_ip_rule (rules : list Rule) : W (list Rule) :=
  let~ cidr := input None in
  if negb (validate_cidr cidr) then retW rules
  else
    let~ action := ask_for_rule_action in
    retW (rules ++ [mkRule (Some cidr) None None action]).

Definition add_client_random_rule (rules : list Rule) : W (list Rule) :=
  let~ client_random_value := input None in
  if negb (validate_random_value client_random_value) then retW rules
  else
    let~ action := ask_for_rule_action in
    retW (rules ++ [mkRule None (Some client_random_value) None action]).

Definition add_combined_rule (rules : list Rule) : W (list Rule) :=
  let~ cidr := input None in
  if negb (validate_cidr cidr) then retW rules
  else
    let~ client_random_value := input None in
    if negb (validate_random_value client_random_value) then retW rules
    else
      let~ action := ask_for_rule_action in
      retW (rules ++ [mkRule (Some cidr) (Some client_random_value) None action]).

Definition add_auth_key_rule (rules : list Rule) : W (list Rule) :=
  let~ auth_key := input None in
  if negb (validate_auth_key auth_key) then retW rules
  else
    let~ action := ask_for_rule_action in
    retW (rules ++ [mkRule None None (Some auth_key) action]).

Definition add_combined_auth_key_rule (rules : list Rule) : W (list Rule) :=
  let~ cidr := input None in
  if negb (validate_cidr cidr) then retW rules
  else
    let~ auth_key := input None in
    if negb (validate_auth_key auth_key) then retW rules
    else
      let~ action := ask_for_rule_action in
      retW (rules ++ [mkRule (Some cidr) None (Some auth_key) action]).

Definition custom_rule (rule_type : bytes) (rules : list Rule) : W (list Rule) :=
  if bool_decide (rule_type = str "1") then add_ip_rule rules
  else if bool_decide (rule_type = str "2") then add_client_random_rule rules
  else if bool_decide (rule_type = str "3") then add_combined_rule rules
  else if bool_decide (rule_type = str "4") then add_auth_key_rule rules
  else if bool_decide (rule_type = str "5") then add_combined_auth_key_rule rules
  else retW rules.

Definition add_custom_rules (rules : list Rule) : W (list Rule) :=
  loopW (fun rules =>
    let~ more := agreement in
    if negb more then retW (inr rules)
    else
      let~ rule_type := input (Some (str "1")) in
      let~ rules := custom_rule rule_type rules in
      retW (inl rules)) rules.

Definition build_rules_config : W RulesConfig :=
  match mode with
  | NonInteractive => retW (mkRules [])
  | Interactive =>
      let~ agreed := agreement in
      if negb agreed then retW (mkRules [])
      else let~ rules := add_custom_rules [] in retW (mkRules rules)
  end.

(** ** Files *)

Definition toml_item (s : bytes) : TomlItem := mkItem (toml_string s) (Some s) None.

Definition string_entry (k : bytes) (o : option bytes) : TomlTable := match o with Some s => [(k, toml_item s)] | None => [] end.

(** A rule as [toml] serializes it: no key for a missing condition. *)
Definition rule_table (r : Rule) : TomlTable :=
  string_entry (str "cidr") (cidr r) ++ string_entry (str "client_random_prefix") (rule_client_random_prefix r)
    ++ string_entry (str "client_random_auth_key") (rule_client_random_auth_key r)
    ++ [(str "action", toml_item (match action r with AllowAction => str "allow" | DenyAction => str "deny" end))].

Definition generate_rules_toml_content (rules_config : RulesConfig) : bytes :=
  RULES_HEADER ++ [0x0A] ++
  (if len (rule rules_config) =? 0 then [] else toml_print (str "rule") (rule_table <$> rule rules_config) ++ [0x0A]).

Definition credentials_table (c : bytes * bytes) : TomlTable :=
  [(str "username", toml_item c.1); (str "password", toml_item c.2)].

Definition compose_credentials_content (clients : list (bytes * bytes)) : bytes :=
  toml_print (str "client") (credentials_table <$> clients).

Definition check_file_exists (files : Files) (path name : bytes) : bool :=
  match read_dir files path with Some l => bool_decide (name ∈ l) | None => false end.

(** [v as u32] of an integer. *)
Definition read_limit (t : TomlTable) (k : bytes) : option Z :=
  match table_get t k with Some i => (fun v => v mod 2 ^ 32) <$> ti_int i | None => None end.

Definition read_credentials_entry (t : TomlTable) : option Client :=
  username ← item_str t (str "username");
  password ← item_str t (str "password");
  Some (mkClient username password (read_limit t (str "max_http2_conns")) (read_limit t (str "max_http3_conns"))).

Definition read_credentials_file (files : Files) (path : bytes) : option (list Client) :=
  match files !! path with
  | None => None
  | Some content =>
      match toml_parse content with
      | None => None
      | Some doc => match doc (str "client") with Some tables => Some (omap read_credentials_entry tables) | None => None end
      end
  end.

(** ** Users *)

Definition ask_for_user : W (bytes * bytes) :=
  let~ username := input None in
  let~ password := ask_for_password mode in
  retW (username, password).

Definition build_user_list : W (list (bytes * bytes)) :=
  let~ credentials := locked (retW (pp_credentials params)) in
  match credentials with
  | Some x => retW [x]
  | None =>
      let~ first := ask_for_user in
      loopW (fun list =>
        let~ v := select_variant mode [str "yes"; str "no"] (Some 1%nat) in
        if bool_decide (v = str "no") then retW (inr list)
        else let~ user := ask_for_user in retW (inl (list ++ [user]))) [first]
  end.

(** Asked only in the interactive mode, when the file is there. *)
Definition reuse (name : bytes) : W bool :=
  match mode with
  | NonInteractive => retW false
  | Interactive => let~ files := get_files in if check_file_exists files (str ".") name then agreement else retW false
  end.

Definition build_credentials : W (bytes * list Client) :=
  let~ r := reuse DEFAULT_CREDENTIALS_PATH in
  if (r : bool) then
    let~ files := get_files in
    retW (DEFAULT_CREDENTIALS_PATH, default [] (read_credentials_file files DEFAULT_CREDENTIALS_PATH))
  else
    let~ path := input (Some DEFAULT_CREDENTIALS_PATH) in
    let~ users := build_user_list in
    let~ overwrite := checked_overwrite mode path in
    let~ _ := if (overwrite : bool) then write_file can_write path (compose_credentials_content users) else retW tt in
    retW (path, (fun '(username, password) => mkClient username password None None) <$> users).

Definition build_rules : W bytes :=
  let~ r := reuse DEFAULT_RULES_PATH in
  if (r : bool) then retW DEFAULT_RULES_PATH
  else
    let~ path := input (Some DEFAULT_RULES_PATH) in
    let~ overwrite := checked_overwrite mode path in
    let~ _ :=
      if (overwrite : bool) then
        let~ rules_config := build_rules_config in
        write_file can_write path (generate_rules_toml_content rules_config)
      else retW tt in
    retW path.

Definition build_library_settings : W Built :=
  let~ builder := locked (
    let~ address :=
      match pp_listen_address params with
      | Some a => retW a
      | None => input (Some (socket_to_string default_listen_address 0))
      end in
    expect_ok (builder_apply (SetListenAddress (resolve address)) builder_new)) in
  let~ (credentials_path, clients) := build_credentials in
  let~ builder := expect_ok (builder_calls
    [SetListenProtocols (mkListenProtocols (Some http1_default) (Some http2_default) (Some quic_default)); SetClients clients]
    builder) in
  let~ settings := expect_ok (builder_build builder) in
  let~ rules_path := build_rules in
  retW (mkBuilt settings credentials_path rules_path).

End settings_dialogues.

(** ** The loops end *)

Section tame_settings.
Context (params : PredefinedParameters) (can_write : bytes -> bool) (read_dir : Files -> bytes -> option (list bytes))
  (resolve : bytes -> result ErrorKind (list SocketAddr)) (ipnet : bytes -> option (IpAddr -> bool))
  (hex_decode : bytes -> option bytes) (toml_parse : bytes -> option TomlDocument) (toml_print : bytes -> list TomlTable -> bytes)
  (toml_string : bytes -> bytes).

Lemma tame_custom_rule mode t rules : tame (custom_rule mode ipnet hex_decode t rules).
Proof.
  unfold custom_rule, add_ip_rule, add_client_random_rule, add_combined_rule, add_auth_key_rule, add_combined_auth_key_rule, ask_for_rule_action.
  tame.
Qed.

Lemma tame_custom_rules mode rules : tame (add_custom_rules mode ipnet hex_decode rules).
Proof.
  apply tame_loop. intros l. apply asks_round, asks_bind; [auto with dialogue|]. intros []; cbn [negb]; [|apply tame_ret].
  apply tame_bind; [auto with dialogue|intros t]. apply tame_bind; [apply tame_custom_rule|intros]. apply tame_ret.
Qed.

Lemma tame_rules_config mode : tame (build_rules_config mode ipnet hex_decode).
Proof. unfold build_rules_config. destruct mode; tame; apply tame_custom_rules. Qed.

Lemma tame_user mode : tame (ask_for_user mode).
Proof. unfold ask_for_user. tame. Qed.

Lemma tame_user_list mode : tame (build_user_list mode params).
Proof.
  unfold build_user_list. apply tame_bind; [auto with dialogue|]. intros [x|]; [apply tame_ret|].
  apply tame_bind; [apply tame_user|intros first]. apply tame_loop. intros l. unfold select_variant, select_index.
  destruct mode eqn:E.
  - intros w. by vm_compute.
  - apply asks_round, asks_bind; [|intros i; tame; apply tame_user].
    apply asks_bind; [apply asks_interact|auto with dialogue].
Qed.

Lemma tame_reuse mode name : tame (reuse mode read_dir name).
Proof. unfold reuse. tame. Qed.

#[local] Hint Resolve tame_rules_config tame_user_list tame_reuse : dialogue.

Lemma tame_library_settings mode :
  tame (build_library_settings mode params can_write read_dir resolve ipnet hex_decode toml_parse toml_print toml_string).
Proof.
  unfold build_library_settings, build_credentials, build_rules. tame.
Qed.

End tame_settings.

(** ** Declined overwriting *)

Section untouched_settings.
Context (old : Files) (params : PredefinedParameters) (can_write : bytes -> bool) (read_dir : Files -> bytes -> option (list bytes))
  (resolve : bytes -> result ErrorKind (list SocketAddr)) (ipnet : bytes -> option (IpAddr -> bool))
  (hex_decode : bytes -> option bytes) (toml_parse : bytes -> option TomlDocument) (toml_print : bytes -> list TomlTable -> bytes)
  (toml_string : bytes -> bytes).
Abbreviation unchanged := (keeps (untouched old)).

Lemma untouched_input d : unchanged (ask_for_input Interactive d) always.
Proof. apply untouched_interact_any. Qed.

Lemma untouched_agreement_any : unchanged (ask_for_agreement Interactive) always.
Proof. apply untouched_interact_any. Qed.

Lemma untouched_password : unchanged (ask_for_password Interactive) always.
Proof. apply untouched_interact_any. Qed.

Lemma untouched_variant l d : unchanged (select_variant Interactive l d) always.
Proof. apply keeps_seq; [apply untouched_interact_any|intros; apply untouched_expect]. Qed.

#[local] Hint Resolve untouched_input untouched_agreement_any untouched_password untouched_variant : untouched.

Lemma untouched_custom_rule t rules : unchanged (custom_rule Interactive ipnet hex_decode t rules) always.
Proof.
  unfold custom_rule, add_ip_rule, add_client_random_rule, add_combined_rule, add_auth_key_rule, add_combined_auth_key_rule, ask_for_rule_action.
  kept.
Qed.

Lemma untouched_rules_config : unchanged (build_rules_config Interactive ipnet hex_decode) always.
Proof.
  unfold build_rules_config. apply keeps_seq; [auto with untouched|]. intros []; cbn [negb]; [|by apply keeps_ret].
  apply keeps_seq; [|intros; by apply keeps_ret]. apply keeps_loop with (R := always); [done|]. intros l _.
  apply keeps_seq; [auto with untouched|]. intros []; cbn [negb]; [|by apply keeps_ret].
  apply keeps_seq; [auto with untouched|intros t]. apply keeps_seq; [apply untouched_custom_rule|intros; by apply keeps_ret].
Qed.

Lemma untouched_user_list : unchanged (build_user_list Interactive params) always.
Proof.
  unfold build_user_list, ask_for_user. apply keeps_seq; [apply untouched_locked; by apply keeps_ret|].
  intros [x|]; [by apply keeps_ret|]. apply keeps_seq; [kept|intros first]. apply keeps_loop with (R := always); [done|]. intros l _. kept.
Qed.

Lemma untouched_reuse name : unchanged (reuse Interactive read_dir name) always.
Proof. unfold reuse. kept. Qed.

(** A write after [checked_overwrite]. *)
Lemma untouched_checked {A} p (m : W unit) (k : unit -> W A) Q :
  (old !! p = None -> unchanged m always) -> (forall x, unchanged (k x) Q) ->
  unchanged (let~ overwrite := checked_overwrite Interactive p in let~ x := (if (overwrite : bool) then m else retW tt) in k x) Q.
Proof.
  intros Hm Hk. eapply keeps_then; [apply untouched_overwrite|]. intros b Hb. apply keeps_seq; [|done].
  destruct b; [auto|by apply keeps_ret].
Qed.

Lemma untouched_library_settings :
  unchanged (build_library_settings Interactive params can_write read_dir resolve ipnet hex_decode toml_parse toml_print toml_string) always.
Proof.
  unfold build_library_settings. apply keeps_seq.
  { apply untouched_locked. apply keeps_seq; [kept|]. intros a. destruct (builder_apply _ _); [by apply keeps_ret|apply keeps_dies]. }
  intros b. apply keeps_seq.
  { unfold build_credentials. apply keeps_seq; [apply untouched_reuse|]. intros []; [kept|].
    apply keeps_seq; [kept|intros path]. apply keeps_seq; [apply untouched_user_list|intros users].
    apply untouched_checked; [auto with untouched|intros; by apply keeps_ret]. }
  intros [path clients]. apply keeps_seq; [destruct (builder_calls _ _); [by apply keeps_ret|apply keeps_dies]|].
  intros s. apply keeps_seq; [destruct (builder_build s); [by apply keeps_ret|apply keeps_dies]|].
  intros settings. apply keeps_seq; [|intros; by apply keeps_ret].
  unfold build_rules. apply keeps_seq; [apply untouched_reuse|]. intros []; [by apply keeps_ret|].
  apply keeps_seq; [kept|intros p]. apply untouched_checked; [|intros; by apply keeps_ret].
  intros Hp. apply keeps_seq; [apply untouched_rules_config|]. intros c. auto with untouched.
Qed.

End untouched_settings.

(** ** The rules that are written *)

Section written_rules.
Context (ipnet : bytes -> option (IpAddr -> bool)) (hex_decode : bytes -> option bytes).

(** A rule every condition of which can be evaluated, and that has one. *)
Definition sound_rule (r : Rule) : Prop :=
  (forall c, cidr r = Some c -> is_Some (ipnet c)) /\
  (forall v, rule_client_random_prefix r = Some v ->
     match split_once 0x2F v with
     | Some (p, m) => is_Some (hex_decode p) /\ is_Some (hex_decode m) /\ m <> []
     | None => is_Some (hex_decode v)
     end) /\
  (forall k, rule_client_random_auth_key r = Some k -> is_Some (hex_decode k) /\ 32 <= len k) /\
  ~ (is_Some (rule_client_random_prefix r) /\ is_Some (rule_client_random_auth_key r)) /\
  (is_Some (cidr r) \/ is_Some (rule_client_random_prefix r) \/ is_Some (rule_client_random_auth_key r)).

Lemma validate_random_value_spec v :
  validate_random_value hex_decode v = true ->
  match split_once 0x2F v with
  | Some (p, m) => is_Some (hex_decode p) /\ is_Some (hex_decode m) /\ m <> []
  | None => is_Some (hex_decode v)
  end.
Proof.
  unfold validate_random_value, decodes. destruct (split_once 0x2F v) as [[p m]|]; [|by rewrite bool_decide_eq_true].
  destruct (Z.eqb_spec (len m) 0) as [|Hm]; [done|]. case_bool_decide; [|done]. cbn [negb]. rewrite bool_decide_eq_true.
  intros Hd. split_and!; [done..|]. by intros ->.
Qed.

Lemma validate_auth_key_spec k : validate_auth_key hex_decode k = true -> is_Some (hex_decode k) /\ 32 <= len k.
Proof.
  unfold validate_auth_key, is_valid_hex. case_bool_decide; [|by rewrite andb_false_r]. rewrite andb_true_r.
  destruct (negb (negb (len k =? 0) && (len k mod 2 =? 0))); [done|]. destruct (Z.ltb_spec (len k) 32); [done|]. by split.
Qed.

(** Rules that are sound stay so. *)
Abbreviation adds m := (keeps (fun _ => True) m (Forall sound_rule)).

Lemma adds_rule (rules : list Rule) (f : RuleAction -> Rule) :
  Forall sound_rule rules -> (forall a, sound_rule (f a)) ->
  adds (let~ action := ask_for_rule_action Interactive in retW (rules ++ [f action])).
Proof.
  intros Hr Hf. apply keeps_seq; [intros w _; destruct (ask_for_rule_action Interactive w); by repeat split|].
  intros a. apply keeps_ret. apply Forall_app. split; [done|]. by apply Forall_singleton.
Qed.

Lemma asked_anything {A} (m : W A) : keeps (fun _ => True) m always.
Proof. intros w _. by destruct (m w). Qed.

Lemma adds_custom_rule t rules : Forall sound_rule rules -> adds (custom_rule Interactive ipnet hex_decode t rules).
Proof.
  intros Hr. unfold custom_rule, add_ip_rule, add_client_random_rule, add_combined_rule, add_auth_key_rule, add_combined_auth_key_rule.
  assert (forall c, validate_cidr ipnet c = true -> is_Some (ipnet c)) as Hc by (intros c; apply bool_decide_eq_true).
  repeat case_bool_decide; [..|by apply keeps_ret]; (apply keeps_seq; [apply asked_anything|intros v]);
    (case_match eqn:E1; [by apply keeps_ret|]); apply negb_false_iff in E1.
  1,2,4: (apply adds_rule; [done|intros a]).
  4,5: (apply keeps_seq; [apply asked_anything|intros u]; (case_match eqn:E2; [by apply keeps_ret|]); apply negb_false_iff in E2;
    apply adds_rule; [done|intros a]).
  all: unfold sound_rule; cbn; split_and!; try (by intros ? [= <-]; auto using validate_random_value_spec, validate_auth_key_spec);
    try done; try (by intros [[? ?] [? ?]]); eauto; intros ? [= <-]; by apply validate_random_value_spec.
Qed.

Lemma adds_rules_config : keeps (fun _ => True) (build_rules_config Interactive ipnet hex_decode) (fun c => Forall sound_rule (rule c)).
Proof.
  unfold build_rules_config. apply keeps_seq; [apply asked_anything|]. intros []; cbn [negb]; [|by apply keeps_ret].
  eapply keeps_then with (P := Forall sound_rule); [|intros; by apply keeps_ret].
  apply keeps_loop with (R := Forall sound_rule); [done|]. intros l Hl.
  apply keeps_seq; [apply asked_anything|]. intros []; cbn [negb]; [|by apply keeps_ret].
  apply keeps_seq; [apply asked_anything|intros t]. eapply keeps_then; [by apply adds_custom_rule|]. intros; by apply keeps_ret.
Qed.

(** A sound rule reads what it was written from. *)
Context (toml_string : bytes -> bytes).

Lemma read_rule_table r : read_rule (rule_table toml_string r) = Some r.
Proof. destruct r as [[c|] [v|] [k|] []]; reflexivity. Qed.

Lemma read_rule_tables (l : list Rule) : omap read_rule (rule_table toml_string <$> l) = l.
Proof. induction l as [|r l IH]; [done|]. cbn. by rewrite read_rule_table, IH. Qed.

End written_rules.

(** ** Files that are read again *)

(** What the wizard relies on of [toml_edit] and [toml]: comments and empty lines say
    nothing, and what is printed is parsed. *)
Class TomlLaws (toml_parse : bytes -> option TomlDocument) (toml_print : bytes -> list TomlTable -> bytes) (toml_string : bytes -> bytes)
    : Prop := {
  toml_comment c t : 0x0A ∉ c -> toml_parse (0x23 :: c ++ 0x0A :: t) = toml_parse t;
  toml_blank t : toml_parse (0x0A :: t) = toml_parse t;
  toml_nothing : exists d, toml_parse [] = Some d /\ forall k, d k = None;
  toml_printed k l tail : tail = [] \/ tail = [0x0A] -> exists d, toml_parse (toml_print k l ++ tail) = Some d /\ d k = Some l;
  (** A string of printable ASCII without quotes and backslashes stands between quotes, with
      or without the blank after the equals sign. *)
  toml_plain s : Forall (fun c => 0x20 <= c < 0x7F /\ c <> 0x22 /\ c <> 0x27 /\ c <> 0x5C) s ->
    toml_string s = [0x22] ++ s ++ [0x22] \/ toml_string s = [0x20] ++ [0x22] ++ s ++ [0x22];
}.

Section read_again.
Context (toml_parse : bytes -> option TomlDocument) (toml_print : bytes -> list TomlTable -> bytes) (toml_string : bytes -> bytes)
  `{!TomlLaws toml_parse toml_print toml_string}.

Lemma header_lines_commented :
  forallb (fun x => match x with a :: c => (a =? 0x23) && bool_decide (0x0A ∉ c) | [] => false end) RULES_HEADER_LINES = true.
Proof. vm_compute. reflexivity. Qed.

(** The header is a comment. *)
Lemma parse_header t : toml_parse (RULES_HEADER ++ [0x0A] ++ t) = toml_parse t.
Proof.
  assert (forall l, Forall (fun x => exists c, x = 0x23 :: c /\ 0x0A ∉ c) l -> forall t,
    toml_parse (mjoin ((fun x => x ++ [0x0A]) <$> l) ++ t) = toml_parse t) as H.
  { induction 1 as [|x l (c & -> & Hc) _ IH]; intros u; [done|]. cbn [fmap list_fmap mjoin list_join].
    rewrite <- !app_assoc. etrans; [apply (toml_comment c); done|apply IH]. }
  unfold RULES_HEADER. rewrite H; [apply toml_blank|].
  apply Forall_forall. intros x Hx. pose proof header_lines_commented as Hl. rewrite forallb_forall in Hl.
  specialize (Hl x (proj1 (list_elem_of_In _ _) Hx)). destruct x as [|a c]; [done|]. apply andb_true_iff in Hl as [Ha Hc].
  apply Z.eqb_eq in Ha as ->. exists c. split; [done|]. by apply bool_decide_eq_true in Hc.
Qed.

(** The file that the wizard writes for its rules gives the engine of these rules. *)
Lemma rules_file_read metadata read_to_string path c :
  metadata path = Ok true -> read_to_string path = Ok (generate_rules_toml_content toml_print toml_string c) ->
  deserialize_rules metadata read_to_string toml_parse path = Some (from_config c).
Proof.
  intros Hm Hr. unfold deserialize_rules, deserialize_file_path, validate_file_path. rewrite Hm, Hr.
  unfold generate_rules_toml_content. rewrite parse_header. destruct c as [l]. cbn [rule]. destruct (Z.eqb_spec (len l) 0) as [E|_].
  - destruct toml_nothing as (d & -> & ->). destruct l; [done|]. unfold len in E. cbn in E. lia.
  - destruct (toml_printed (str "rule") (rule_table toml_string <$> l) [0x0A]) as (d & -> & ->); [by right|].
    by rewrite read_rule_tables.
Qed.

(** A credential that survives: printable ASCII without quotes and backslashes, and no
    blanks at its ends. *)
Definition plain_credential (s : bytes) : Prop :=
  s <> [] /\ Forall (fun c => 0x20 <= c < 0x7F /\ c <> 0x22 /\ c <> 0x27 /\ c <> 0x5C) s /\
  utf8_trim s = s /\ utf8_trim (0x20 :: s) = s.

Lemma demangle_plain s : plain_credential s -> demangle_toml_string (toml_string s) = s.
Proof.
  intros (_ & Hf & Ht & Hb). assert (List.filter (fun c => negb (c =? 0x22)) (s ++ [0x22]) = s) as Hs.
  { rewrite List.filter_app. cbn [List.filter]. change (negb (0x22 =? 0x22)) with false. cbv iota. rewrite app_nil_r.
    clear Ht Hb. induction Hf as [|c s (_ & Hc & _) _ IH]; [done|]. cbn [List.filter]. destruct (Z.eqb_spec c 0x22); [done|]. cbn [negb]. by rewrite IH. }
  unfold demangle_toml_string. destruct (toml_plain (toml_string := toml_string) s Hf) as [-> | ->]; cbn [app List.filter].
  - change (negb (0x22 =? 0x22)) with false. cbv iota. by rewrite Hs.
  - change (negb (0x20 =? 0x22)) with true. change (negb (0x22 =? 0x22)) with false. cbv iota. by rewrite Hs.
Qed.

Lemma credentials_read users :
  Forall (fun u => plain_credential u.1 /\ plain_credential u.2) users ->
  read_clients (credentials_table toml_string <$> users) = Ret (Ok ((fun u => mkClient u.1 u.2 None None) <$> users)).
Proof.
  induction 1 as [|[u p] users [Hu Hp] _ IH]; [done|]. cbn [fst snd] in Hu, Hp. rewrite !fmap_cons. cbn [read_clients].
  rewrite IH. unfold read_client. change (table_get _ (str "username")) with (Some (toml_item toml_string u)).
  change (table_get _ (str "password")) with (Some (toml_item toml_string p)). cbn [unwrap bindM ti_text toml_item].
  rewrite !demangle_plain by done. destruct Hu as [Hu _], Hp as [Hp _].
  destruct u as [|a u]; [done|]. destruct p as [|b p]; [done|]. reflexivity.
Qed.

Lemma credentials_file_read metadata read_to_string path users :
  metadata path = Ok true -> read_to_string path = Ok (compose_credentials_content toml_print toml_string users) ->
  Forall (fun u => plain_credential u.1 /\ plain_credential u.2) users ->
  deserialize_clients metadata read_to_string toml_parse path = Ret (Ok ((fun u => mkClient u.1 u.2 None None) <$> users)).
Proof.
  intros Hm Hr Hu. unfold deserialize_clients, deserialize_file_path, validate_file_path. rewrite Hm, Hr.
  destruct (toml_printed (str "client") (credentials_table toml_string <$> users) []) as (d & Hd & Hk); [by left|].
  rewrite app_nil_r in Hd. unfold compose_credentials_content. rewrite Hd, Hk. by apply credentials_read.
Qed.

End read_again.
