(* ===== verification/Wizard.v ===== *)
(** * The setup wizard

    tools/setup_wizard/tls_hosts_settings.rs and main.rs: the certificate of the endpoint, made,
    ordered or provided, the settings of its TLS host, and the program that puts the files of
    an endpoint together. *)

From S2P Require Import Prelude.
From S2P Require Import Codecs.
From S2P Require Import Varint.
From S2P Require Import NetUtils.
From S2P Require Import Rules.
From S2P Require Import Auth.
From S2P Require Import ForwardedStream.
From S2P Require Import IpText.
From S2P Require Import ReverseProxy.
From S2P Require Import Utils.
From S2P Require Import TlsDemux.
From S2P Require Import Settings.
From S2P Require Import Composer.
From S2P Require Import Dialogue.
From S2P Require Import Acme.
From S2P Require Import WizardSettings.

(** ** Data *)

Definition CERT_PATH : bytes := str "certs/cert.pem".
Definition KEY_PATH : bytes := str "certs/key.pem".
Definition DEFAULT_CERTIFICATE_FOLDER : bytes := str "certs".
Definition DEFAULT_HOSTNAME : bytes := str "vpn.endpoint".

Record Cert : Type := mkCert {
  ce_common_name : bytes;
  ce_alt_names : list bytes;
  ce_expiration_date : bytes;
  ce_cert_path : bytes;
  ce_key_path : bytes;
}.

(** What is asked of a parsed certificate. *)
Record X509 : Type := mkX509 { x_valid : bool; x_subject : bytes; x_alt_names : list bytes; x_not_after : bytes }.

Record TlsHostsSettingsResult : Type := mkHostsResult { hr_settings : TlsHostsSettings; hr_cert_path : bytes; hr_key_path : bytes }.

(** [char::is_whitespace] at the start of a text: how long the character is. *)
Definition white_length (l : bytes) : nat :=
  match l with
  | 0xC2 :: c :: _ => if (c =? 0x85) || (c =? 0xA0) then 2%nat else O
  | 0xE1 :: 0x9A :: 0x80 :: _ => 3%nat
  | 0xE2 :: 0x80 :: c :: _ => if in_range 0x80 0x8A c || (c =? 0xA8) || (c =? 0xA9) || (c =? 0xAF) then 3%nat else O
  | 0xE2 :: 0x81 :: 0x9F :: _ => 3%nat
  | 0xE3 :: 0x80 :: 0x80 :: _ => 3%nat
  | c :: _ => if is_space c then 1%nat else O
  | [] => O
  end.

(** [splitn(2, char::is_whitespace)]. *)
Fixpoint split_white (l : bytes) : bytes * option bytes :=
  match white_length l with
  | S n => ([], Some (drop (S n) l))
  | O => match l with [] => ([], None) | c :: r => let (a, b) := split_white r in (c :: a, b) end
  end.

(** The parameters of the command line. *)
Record Args : Type := mkArgs {
  ar_mode : option bytes;
  ar_creds : option bytes;
  ar_listen_address : option bytes;
  ar_hostname : option bytes;
  ar_library_settings_file : option bytes;
  ar_tls_hosts_settings_file : option bytes;
  ar_cert_type : option bytes;
  ar_cert_chain_path : option bytes;
  ar_cert_key_path : option bytes;
  ar_acme_email : option bytes;
  ar_acme_challenge : option bytes;
  ar_acme_staging : bool;
}.

(** The parser of the command line admits no other mode. *)
Definition mode_of (a : Args) : W Mode :=
  match ar_mode a with
  | None => retW Interactive
  | Some m =>
      if bool_decide (m = str "non-interactive") then retW NonInteractive
      else if bool_decide (m = str "interactive") then retW Interactive
      else panicW
  end.

Definition credentials_of (a : Args) : W (option (bytes * bytes)) :=
  match ar_creds a with
  | None => retW None
  | Some x =>
      match split_once 0x3A x with
      | None => retW None
      | Some (username, password) =>
          if len username =? 0 then dies Exited
          else if len password =? 0 then dies Exited
          else retW (Some (username, password))
      end
  end.

(** What the wizard is run with: the file system, the resolver, the crates and the ACME
    server. *)
Record Outside : Type := mkOutside {
  o_can_write : bytes -> bool;
  o_read_dir : Files -> bytes -> option (list bytes);
  (** [fs::create_dir_all] of the folder of the certificates. *)
  o_create_dir : bool;
  o_resolve : bytes -> result ErrorKind (list SocketAddr);
  o_default_interface : bytes;
  o_ipnet : bytes -> option (IpAddr -> bool);
  o_hex_decode : bytes -> option bytes;
  o_toml_parse : bytes -> option TomlDocument;
  o_toml_print : bytes -> list TomlTable -> bytes;
  o_toml_string : bytes -> bytes;
  (** The tables of a settings file, parsed and printed. *)
  o_parse_document : bytes -> option Document;
  o_print_document : Document -> bytes;
  o_parse_hosts : Files -> bytes -> option TlsHostsSettings;
  o_print_hosts : TlsHostsSettings -> bytes;
  (** The certificates and the key of a PEM file, and the first certificate parsed. *)
  o_pem_certs : bytes -> list (result unit bytes);
  o_pem_key : bytes -> result unit bytes;
  o_x509 : bytes -> option X509;
  (** A self-signed certificate for a name and its alternative names, with its key and the
      day it ends. *)
  o_self_signed : bytes -> list bytes -> option (bytes * bytes * bytes);
  (** The day a certificate ends, and the day three months from now. *)
  o_expiration : bytes -> option bytes;
  o_in_90_days : bytes;
  o_create_account : list Event -> result bytes unit;
  o_new_order : list Event -> result bytes OrderStatus;
  o_authorizations : list Event -> result bytes (list Authorization);
  o_set_challenge_ready : list Event -> result bytes unit;
  o_refresh : list Event -> result bytes OrderStatus;
  o_finalize : list Event -> result bytes OrderStatus;
  o_certificate : list Event -> result bytes (option bytes);
  o_bind : list Event -> result ErrorKind unit;
  o_key_authorization : Challenge -> bytes;
  o_generate_key : list Event -> result bytes bytes;
  o_serialize_request : bytes -> bytes -> result bytes bytes;
}.

Section wizard.
Context (o : Outside).

Definition fs_open (files : Files) (path : bytes) : result ErrorKind bytes :=
  match files !! path with Some c => Ok c | None => Err NotFound end.

Definition fs_metadata (files : Files) (path : bytes) : result ErrorKind bool :=
  match files !! path with Some _ => Ok true | None => Err NotFound end.

Definition certs_at (files : Files) (path : bytes) : result ErrorKind (list bytes) := load_certs (fs_open files) (o_pem_certs o) path.
Definition key_at (files : Files) (path : bytes) : result ErrorKind bytes := load_private_key (fs_open files) (o_pem_key o) path.

Definition loads_certs (files : Files) (path : bytes) : bool := match certs_at files path with Ok _ => true | Err _ => false end.
Definition loads_key (files : Files) (path : bytes) : bool := match key_at files path with Ok _ => true | Err _ => false end.

Section tls_hosts.
Context (mode : Mode) (params : PredefinedParameters).

Abbreviation input := (ask_for_input mode).
Abbreviation agreement := (ask_for_agreement mode).
Abbreviation write := (write_file (o_can_write o)).

Definition issue (config : AcmeConfig) : W (result AcmeError IssuedCert) :=
  issue_certificate mode (o_create_account o) (o_new_order o) (o_authorizations o) (o_set_challenge_ready o) (o_refresh o)
    (o_finalize o) (o_certificate o) (o_bind o) (o_key_authorization o) (o_generate_key o) (o_serialize_request o) config.

(** The chain and the two paths; a pair is taken in the order in which it loads. *)
Definition find_pair (files : Files) (cert : Either bytes (bytes * bytes)) : option (list bytes * bytes * bytes) :=
  either_map
    (fun pair =>
       match key_at files pair with
       | Ok _ => match certs_at files pair with Ok chain => Some (chain, pair, pair) | Err _ => None end
       | Err _ => None
       end)
    (fun '(a, b) =>
       match certs_at files a, key_at files b, certs_at files b, key_at files a with
       | Ok chain, Ok _, _, _ => Some (chain, a, b)
       | _, _, Ok chain, Ok _ => Some (chain, b, a)
       | _, _, _, _ => None
       end) cert.

Definition parse_cert (files : Files) (cert : Either bytes (bytes * bytes)) : option Cert :=
  match find_pair files cert with
  | None => None
  | Some (chain, cert_path, key_path) =>
      match head chain with
      | None => None
      | Some der =>
          match o_x509 o der with
          | None => None
          | Some x =>
              if x_valid x
              then Some (mkCert (default (x_subject x) (strip_prefix (str "CN=") (x_subject x))) (x_alt_names x) (x_not_after x)
                           cert_path key_path)
              else None
          end
      end
  end.

Definition lookup_existent_cert (files : Files) : option Cert :=
  match o_read_dir o files DEFAULT_CERTIFICATE_FOLDER with
  | Some [a] => parse_cert files (Left a)
  | Some [a; b] => parse_cert files (Right (a, b))
  | _ => None
  end.

Definition ask_for_existing_cert : W (option Cert) :=
  let~ line := input None in
  let~ files := get_files in
  retW (parse_cert files match split_white line with (a, None) => Left a | (a, Some b) => Right (a, b) end).

Definition create_dir : W unit := if o_create_dir o then retW tt else panicW.

(** [write_all] to the end of a file. *)
Definition append_file (path content : bytes) : W unit :=
  let~ files := get_files in
  match files !! path with Some c => write path (c ++ content) | None => panicW end.

Definition generate_cert : W (option Cert) :=
  let~ name := locked (match pp_hostname params with Some h => retW h | None => input (Some DEFAULT_HOSTNAME) end) in
  let alt_names := [name; str "*." ++ name] in
  let~ (cert_pem, key_pem, end_date) := expect (o_self_signed o name alt_names) in
  let~ b := checked_overwrite mode CERT_PATH in
  if negb b then retW None
  else
    let~ b := checked_overwrite mode KEY_PATH in
    if negb b then retW None
    else
      let~ _ := create_dir in
      let~ _ := write CERT_PATH cert_pem in
      let~ _ := create_dir in
      let~ _ := if negb (bool_decide (KEY_PATH = CERT_PATH)) then write KEY_PATH key_pem else append_file KEY_PATH key_pem in
      retW (Some (mkCert name alt_names end_date CERT_PATH KEY_PATH)).

Definition save_issued_cert (issued : IssuedCert) (interactive : bool) : W (option Cert) :=
  let~ b := if interactive then checked_overwrite mode CERT_PATH else retW true in
  if negb b then retW None
  else
    let~ b := if interactive then checked_overwrite mode KEY_PATH else retW true in
    if negb b then retW None
    else
      let~ _ := create_dir in
      let~ _ := write CERT_PATH (is_cert_pem issued) in
      let~ _ := write KEY_PATH (is_key_pem issued) in
      retW (Some (mkCert (is_domain issued) [is_domain issued] (default (o_in_90_days o) (o_expiration o (is_cert_pem issued)))
                    CERT_PATH KEY_PATH)).

(** A question that is asked until the answer is valid. *)
Definition ask_until (valid : bytes -> bool) : W bytes :=
  loopW (fun _ : unit => let~ x := input None in retW (if valid x then inr x else inl tt)) tt.

Definition generate_letsencrypt_cert : W (option Cert) :=
  let~ domain := ask_until validate_domain in
  let~ email := ask_until validate_email in
  let~ selection := select_index mode 2 (Some 0%nat) in
  let~ challenge_method := match selection with 0%nat => retW Http01 | 1%nat => retW Dns01 | _ => panicW end in
  let~ use_staging := agreement in
  let~ result := issue (mkAcmeConfig domain email challenge_method use_staging) in
  match result with
  | Ok issued => save_issued_cert issued true
  | Err _ =>
      let~ instead := agreement in
      if (instead : bool) then generate_cert else retW None
  end.

(** The guard is held until the parameters are copied. *)
Definition generate_letsencrypt_cert_noninteractive : W (option Cert) :=
  let~ _ := lock in
  let~ domain := expect (pp_hostname params) in
  if negb (validate_domain domain) then let~ _ := unlock in retW None
  else
    let~ email := expect (pp_acme_email params) in
    if negb (validate_email email) then let~ _ := unlock in retW None
    else
      let~ challenge_method :=
        match pp_acme_challenge params with
        | None => retW Http01
        | Some s =>
            let~ method := expect (challenge_from_str s) in
            if bool_decide (method = Dns01) then panicW else retW method
        end in
      let~ _ := unlock in
      let~ result := issue (mkAcmeConfig domain email challenge_method (pp_acme_staging params)) in
      match result with Ok issued => save_issued_cert issued false | Err _ => retW None end.

Definition load_provided_cert_noninteractive : W (option Cert) :=
  let~ _ := lock in
  let~ cert_chain_path := expect (pp_cert_chain_path params) in
  let~ cert_key_path := expect (pp_cert_key_path params) in
  let~ _ := unlock in
  let~ files := get_files in
  retW (parse_cert files (Right (cert_chain_path, cert_key_path))).

(** The scrutinee of [if let] holds the guard for the body of it. *)
Definition build_noninteractive : W (option Cert) :=
  let~ _ := lock in
  match pp_cert_type params with
  | Some cert_type =>
      if bool_decide (cert_type = str "provided")
      then let~ cert := load_provided_cert_noninteractive in let~ _ := unlock in retW cert
      else if bool_decide (cert_type = str "letsencrypt")
      then let~ cert := generate_letsencrypt_cert_noninteractive in let~ _ := unlock in retW cert
      else let~ _ := unlock in generate_cert
  | None => let~ _ := unlock in generate_cert
  end.

Definition create_new_cert : W (option Cert) :=
  let~ selection := select_index mode 3 (Some 0%nat) in
  match selection with
  | 0%nat => generate_letsencrypt_cert
  | 1%nat => generate_cert
  | 2%nat => ask_for_existing_cert
  | _ => panicW
  end.

Definition build_with_runtime : W (option Cert) :=
  match mode with
  | NonInteractive => build_noninteractive
  | Interactive =>
      let~ files := get_files in
      match lookup_existent_cert files with
      | Some x =>
          let~ agreed := agreement in
          if (agreed : bool) then retW (Some x) else create_new_cert
      | None => create_new_cert
      end
  end.

Definition ask_for_alternative_snis : W (list bytes) :=
  match mode with
  | NonInteractive => retW []
  | Interactive =>
      let~ agreed := agreement in
      if negb agreed then retW []
      else
        let~ text := input (Some []) in
        if len (utf8_trim text) =? 0 then retW []
        else retW (List.filter (fun s => negb (len s =? 0)) (utf8_trim <$> split_char 0x2C text))
  end.

Definition build_settings_from_cert (cert : Cert) : W TlsHostsSettings :=
  let~ allowed_sni := ask_for_alternative_snis in
  let~ files := get_files in
  expect_ok (tls_builder_build (loads_certs files) (loads_key files)
    (tls_builder_set (SetMainHosts [mkHostInfo (ce_common_name cert) (ce_cert_path cert) (ce_key_path cert) allowed_sni])
       tls_builder_new)).

Definition build_tls_hosts : W TlsHostsSettingsResult :=
  loopW (fun _ : unit =>
    let~ cert := build_with_runtime in
    match cert with
    | Some cert =>
        let~ settings := build_settings_from_cert cert in
        retW (inr (mkHostsResult settings (ce_cert_path cert) (ce_key_path cert)))
    | None => match mode with NonInteractive => panicW | Interactive => retW (inl tt) end
    end) tt.

(** ** The program *)

(** The reader of a settings file, with the files it names. *)
Definition read_settings (files : Files) (content : bytes) : M (option Settings) :=
  match o_parse_document o content with
  | None => Ret None
  | Some doc => settings_from_document (o_default_interface o) (fs_metadata files) (fs_open files) (o_toml_parse o) doc
  end.

(** The first file of a list that reads as settings. *)
Fixpoint find_readable {A} (read : bytes -> M (option A)) (files : Files) (names : list bytes) : M (option bytes) :=
  match names with
  | [] => Ret None
  | fname :: names =>
      match files !! fname with
      | None => find_readable read files names
      | Some content =>
          let! r := read content in
          match r with Some _ => Ret (Some fname) | None => find_readable read files names end
      end
  end.

Definition find_existent_settings {A} (read : Files -> bytes -> M (option A)) : W (option bytes) :=
  match mode with
  | NonInteractive => retW None
  | Interactive =>
      let~ files := get_files in
      match o_read_dir o files (str ".") with
      | None => retW None
      | Some names => match find_readable (read files) files names with Ret r => retW r | Panic => panicW end
      end
  end.

(** The settings of a file that was found and is wanted. *)
Definition reuse_settings {A} (read : Files -> bytes -> M (option A)) : W (option bytes) :=
  let~ found := find_existent_settings read in
  match found with
  | None => retW None
  | Some fname => let~ agreed := agreement in retW (if (agreed : bool) then Some fname else None)
  end.

Definition settings_path (predefined : option bytes) (suggestion : bytes) : W bytes :=
  locked (match predefined with Some p => retW p | None => input (Some suggestion) end).

Definition library_part : W bytes :=
  let~ found := reuse_settings read_settings in
  match found with
  | Some fname => retW fname
  | None =>
      let~ built := build_library_settings mode params (o_can_write o) (o_read_dir o) (o_resolve o) (o_ipnet o) (o_hex_decode o)
                      (o_toml_parse o) (o_toml_print o) (o_toml_string o) in
      let~ path := settings_path (pp_library_settings_file params) (str "vpn.toml") in
      let~ overwrite := checked_overwrite mode path in
      let~ _ :=
        if (overwrite : bool)
        then write path (o_print_document o (compose_document (o_default_interface o) (bu_settings built)
                                               (bu_credentials_path built) (bu_rules_path built)))
        else retW tt in
      retW path
  end.

Definition hosts_part : W (bytes * option (bytes * bytes)) :=
  let~ found := reuse_settings (fun files content => Ret (o_parse_hosts o files content)) in
  match found with
  | Some fname => retW (fname, None)
  | None =>
      let~ result := build_tls_hosts in
      let~ path := settings_path (pp_tls_hosts_settings_file params) (str "hosts.toml") in
      let~ overwrite := checked_overwrite mode path in
      let~ _ := if (overwrite : bool) then write path (o_print_hosts o (hr_settings result)) else retW tt in
      retW (path, Some (hr_cert_path result, hr_key_path result))
  end.

End tls_hosts.

Definition params_of (a : Args) (credentials : option (bytes * bytes)) : PredefinedParameters :=
  mkPredefined (ar_listen_address a) credentials (ar_hostname a) (ar_library_settings_file a) (ar_tls_hosts_settings_file a)
    (ar_cert_type a) (ar_cert_chain_path a) (ar_cert_key_path a) (ar_acme_email a) (ar_acme_challenge a) (ar_acme_staging a).

(** The paths of the summary. *)
Definition wizard_main (a : Args) (is_terminal : bool) : W (bytes * (bytes * option (bytes * bytes))) :=
  let~ mode := mode_of a in
  if bool_decide (mode = Interactive) && negb is_terminal then dies Exited
  else
    let~ credentials := credentials_of a in
    let~ _ := locked (retW tt) in
    let params := params_of a credentials in
    let~ library_path := library_part mode params in
    let~ hosts := hosts_part mode params in
    retW (library_path, hosts).

End wizard.

(** ** The wizard ends *)

Lemma asks_input mode : asks (ask_for_input mode None).
Proof. destruct mode; cbn; [done|apply asks_interact]. Qed.

Section ending.
Context (o : Outside) (params : PredefinedParameters).

Lemma tame_until mode valid : tame (ask_until mode valid).
Proof.
  apply tame_loop. intros []. apply asks_round, asks_bind; [apply asks_input|]. intros x. apply tame_ret.
Qed.

Lemma tame_issue_order mode config : tame (issue o mode config).
Proof. apply tame_issue. Qed.

#[local] Hint Resolve tame_until tame_issue_order : dialogue.

Lemma tame_generate mode : tame (generate_cert o mode params).
Proof. unfold generate_cert, create_dir, append_file. tame. Qed.

Lemma tame_save mode issued b : tame (save_issued_cert o mode issued b).
Proof. unfold save_issued_cert, create_dir. tame. Qed.

#[local] Hint Resolve tame_generate tame_save : dialogue.

Lemma tame_letsencrypt mode : tame (generate_letsencrypt_cert o mode params).
Proof. unfold generate_letsencrypt_cert. tame. Qed.

Lemma tame_letsencrypt_noninteractive mode : tame (generate_letsencrypt_cert_noninteractive o mode params).
Proof. unfold generate_letsencrypt_cert_noninteractive. tame. Qed.

Lemma tame_provided : tame (load_provided_cert_noninteractive o params).
Proof. unfold load_provided_cert_noninteractive. tame. Qed.

Lemma tame_existing mode : tame (ask_for_existing_cert o mode).
Proof. unfold ask_for_existing_cert. tame. Qed.

#[local] Hint Resolve tame_letsencrypt tame_letsencrypt_noninteractive tame_provided tame_existing : dialogue.

Lemma tame_noninteractive mode : tame (build_noninteractive o mode params).
Proof. unfold build_noninteractive. tame. Qed.

(** Making a certificate in the interactive mode asks. *)
Lemma asks_new_cert : asks (create_new_cert o Interactive params).
Proof. apply asks_bind; [apply asks_interact|]. intros [|[|[|n]]]; tame. Qed.

Lemma asks_cert : asks (build_with_runtime o Interactive params).
Proof.
  unfold build_with_runtime. apply asks_later; [auto with dialogue|]. intros files.
  destruct (lookup_existent_cert o files); [|apply asks_new_cert]. apply asks_bind; [auto with dialogue|].
  intros []; [apply tame_ret|apply asks_tame, asks_new_cert].
Qed.

Lemma tame_settings_from_cert mode cert : tame (build_settings_from_cert o mode cert).
Proof. unfold build_settings_from_cert, ask_for_alternative_snis. tame. Qed.

Lemma tame_tls_hosts mode : tame (build_tls_hosts o mode params).
Proof.
  apply tame_loop. intros []. destruct mode.
  - intros w. unfold bindW, build_with_runtime. pose proof (tame_noninteractive NonInteractive w) as H.
    destruct (build_noninteractive o NonInteractive params w) as [[cert|] w'|]; [|done|done].
    pose proof (tame_settings_from_cert NonInteractive cert w') as H2.
    destruct (build_settings_from_cert o NonInteractive cert w'); [cbn; lia|done].
  - apply asks_round, asks_bind; [apply asks_cert|]. intros [cert|]; [|apply tame_ret].
    apply tame_bind; [apply tame_settings_from_cert|intros; apply tame_ret].
Qed.

Lemma tame_reuse_settings {A} (mode : Mode) (read : Files -> bytes -> M (option A)) : tame (reuse_settings o mode read).
Proof. unfold reuse_settings, find_existent_settings. tame. Qed.

Lemma tame_path mode p d : tame (settings_path mode p d).
Proof. unfold settings_path. apply tame_locked. tame. Qed.

#[local] Hint Resolve @tame_reuse_settings tame_path tame_library_settings tame_tls_hosts : dialogue.

Lemma tame_parts mode : tame (library_part o mode params) /\ tame (hosts_part o mode params).
Proof. unfold library_part, hosts_part. split; tame. Qed.

End ending.

Lemma tame_main o a tty : tame (wizard_main o a tty).
Proof.
  unfold wizard_main, mode_of, credentials_of.
  apply tame_bind; [tame|intros mode]. destruct (_ && _); [by apply tame_dies|].
  apply tame_bind; [tame|intros c]. apply tame_bind; [auto with dialogue|intros _].
  apply tame_bind; [apply tame_parts|intros l]. apply tame_bind; [apply tame_parts|intros h]. apply tame_ret.
Qed.

(** ** Declined overwriting *)

Section keeping_files.
Context (o : Outside) (params : PredefinedParameters) (old : Files).
Abbreviation unchanged := (keeps (untouched old)).

#[local] Hint Resolve untouched_input untouched_agreement_any untouched_password untouched_variant : untouched.

Lemma untouched_until valid : unchanged (ask_until Interactive valid) always.
Proof. apply keeps_loop with (R := always); [done|]. intros [] _. kept. Qed.

Lemma untouched_index n d : unchanged (select_index Interactive n d) always.
Proof. apply untouched_interact_any. Qed.

Lemma untouched_issue config : unchanged (issue o Interactive config) always.
Proof.
  apply keeps_issue; [intros; apply untouched_event|intros; apply untouched_observe|apply untouched_agreement_any].
Qed.

Lemma untouched_dir : unchanged (create_dir o) always.
Proof. unfold create_dir. destruct (o_create_dir o); [by apply keeps_ret|apply keeps_dies]. Qed.

(** Two files that are written after both questions. *)
Lemma untouched_generate : unchanged (generate_cert o Interactive params) always.
Proof.
  unfold generate_cert. apply keeps_seq; [apply untouched_locked; kept|intros name]. apply keeps_seq; [apply untouched_expect|].
  intros [[cert key] date]. eapply keeps_then; [apply untouched_overwrite|]. intros [] Hc; [|by apply keeps_ret]. cbn [negb].
  eapply keeps_then; [apply untouched_overwrite|]. intros [] Hk; [|by apply keeps_ret]. cbn [negb].
  specialize (Hc eq_refl). specialize (Hk eq_refl).
  apply keeps_seq; [apply untouched_dir|intros _]. apply keeps_seq; [by apply untouched_write|intros _].
  apply keeps_seq; [apply untouched_dir|intros _]. apply keeps_seq; [by apply untouched_write|intros _]. by apply keeps_ret.
Qed.

Lemma untouched_save issued : unchanged (save_issued_cert o Interactive issued true) always.
Proof.
  unfold save_issued_cert. eapply keeps_then; [apply untouched_overwrite|]. intros [] Hc; [|by apply keeps_ret]. cbn [negb].
  eapply keeps_then; [apply untouched_overwrite|]. intros [] Hk; [|by apply keeps_ret]. cbn [negb].
  specialize (Hc eq_refl). specialize (Hk eq_refl).
  apply keeps_seq; [apply untouched_dir|intros _]. apply keeps_seq; [by apply untouched_write|intros _].
  apply keeps_seq; [by apply untouched_write|intros _]. by apply keeps_ret.
Qed.

#[local] Hint Resolve untouched_until untouched_index untouched_issue untouched_generate untouched_save : untouched.

Lemma untouched_new_cert : unchanged (create_new_cert o Interactive params) always.
Proof. unfold create_new_cert, generate_letsencrypt_cert, ask_for_existing_cert. kept; apply keeps_dies. Qed.

Lemma untouched_cert : unchanged (build_with_runtime o Interactive params) always.
Proof.
  unfold build_with_runtime. apply keeps_seq; [apply untouched_get_files|intros files].
  destruct (lookup_existent_cert o files); [|apply untouched_new_cert]. apply keeps_seq; [apply untouched_agreement_any|].
  intros []; [by apply keeps_ret|apply untouched_new_cert].
Qed.

Lemma untouched_tls_hosts : unchanged (build_tls_hosts o Interactive params) always.
Proof.
  apply keeps_loop with (R := always); [done|]. intros [] _. apply keeps_seq; [apply untouched_cert|].
  intros [cert|]; [|by apply keeps_ret]. apply keeps_seq; [|intros; by apply keeps_ret].
  unfold build_settings_from_cert, ask_for_alternative_snis. apply keeps_seq; [kept|intros snis].
  apply keeps_seq; [kept|intros files]. destruct (tls_builder_build _ _ _); [by apply keeps_ret|apply keeps_dies].
Qed.

Lemma untouched_reuse_settings {A} (read : Files -> bytes -> M (option A)) : unchanged (reuse_settings o Interactive read) always.
Proof. unfold reuse_settings, find_existent_settings. kept; apply keeps_dies. Qed.

Lemma untouched_path p d : unchanged (settings_path Interactive p d) always.
Proof. unfold settings_path. apply untouched_locked. kept. Qed.

Lemma untouched_parts :
  unchanged (library_part o Interactive params) always /\ unchanged (hosts_part o Interactive params) always.
Proof.
  split; (apply keeps_seq; [apply untouched_reuse_settings|]); (intros [fname|]; [by apply keeps_ret|]).
  - apply keeps_seq; [apply untouched_library_settings|intros built]. apply keeps_seq; [apply untouched_path|intros path].
    apply untouched_checked; [auto with untouched|intros; by apply keeps_ret].
  - apply keeps_seq; [apply untouched_tls_hosts|intros result]. apply keeps_seq; [apply untouched_path|intros path].
    apply untouched_checked; [auto with untouched|intros; by apply keeps_ret].
Qed.

End keeping_files.

(** The world in which a run ends. *)
Definition final {A} (r : RunResult A) : World := match r with Done _ w | Died _ w => w end.

(** C36: the wizard ends.  Whatever the user answers, however often invalid names are
    entered, users and rules are added or a certificate is not made, and whatever the system
    and the ACME server do, no loop of the wizard goes on for ever: every round takes an
    answer, and the waits for the ACME server are bounded. *)
Theorem wizard_ends o a tty w w' : wizard_main o a tty w <> Died NoFuel w'.
Proof. intros E. pose proof (tame_main o a tty w) as H. by rewrite E in H. Qed.

(** C34: the interactive wizard overwrites no file without agreement.  When the user agrees
    to nothing, every file that was there is there at the end with its contents, whether
    the wizard returns or dies on the way. *)
Theorem declined_files_kept o a tty w p c :
  ar_mode a <> Some (str "non-interactive") -> Agree true ∉ w_answers w -> w_files w !! p = Some c ->
  w_files (final (wizard_main o a tty w)) !! p = Some c.
Proof.
  intros Hm Ha Hp. assert (keeps (untouched (w_files w)) (wizard_main o a tty) always) as H.
  { unfold wizard_main. eapply keeps_then with (P := fun m => m = Interactive).
    - unfold mode_of. destruct (ar_mode a) as [m|]; [|by apply keeps_ret]. rewrite bool_decide_false by congruence.
      case_bool_decide; [by apply keeps_ret|apply keeps_dies].
    - intros m ->. destruct (_ && _); [apply keeps_dies|]. apply keeps_seq; [unfold credentials_of; kept; apply keeps_dies|intros cr].
      apply keeps_seq; [apply untouched_locked; by apply keeps_ret|intros _].
      apply keeps_seq; [apply untouched_parts|intros l]. apply keeps_seq; [apply untouched_parts|intros h]. by apply keeps_ret. }
  specialize (H w (conj Ha (fun _ _ E => E))). destruct (wizard_main o a tty w) as [r w'|d w']; [apply (proj1 H)|apply H]; done.
Qed.

(** With a provided or an ordered certificate, the non-interactive wizard waits for the lock
    that it holds itself. *)
Lemma provided_cert_deadlocks o params w :
  w_locked w = false ->
  (pp_cert_type params = Some (str "provided") \/ pp_cert_type params = Some (str "letsencrypt")) ->
  exists w', build_noninteractive o NonInteractive params w = Died Deadlocked w'.
Proof.
  intros Hl Hc. destruct w as [ans files lk tr]. cbn in Hl. subst lk. unfold build_noninteractive, bindW, lock. cbn [w_locked].
  destruct Hc as [-> | ->].
  - rewrite bool_decide_true by done. by eexists.
  - rewrite bool_decide_false, bool_decide_true by done. by eexists.
Qed.

(** ** A non-interactive setup *)

(** The settings that the wizard builds. *)
Definition wizard_settings (address : SocketAddr) (clients : list Client) : Settings :=
  mkSettings address true false default_tls_handshake_timeout default_client_listener_timeout
    default_connection_establishment_timeout default_tcp_connections_timeout default_udp_connections_timeout DirectForward
    (mkListenProtocols (Some http1_default) (Some http2_default) (Some quic_default)) clients None None None None (Some default_allow)
    false false default_ping_path default_speedtest_path default_auth_failure_status_code None None None true.

Lemma wizard_settings_composable address clients : wf_addr address -> composable (wizard_settings address clients).
Proof.
  intros Ha. constructor; cbn [wizard_settings st_listen_address st_forward_protocol st_listen_protocols lp_http1 lp_http2 lp_quic st_icmp
    st_metrics st_reverse_proxy st_subscription st_non_connect_auth_failure_status_code st_default_max_http2_conns_per_client
    st_default_max_http3_conns_per_client]; try done.
  - repeat constructor; eexists; (split; [reflexivity|done]).
  - intros x [= <-]. done.
  - intros x [= <-]. repeat constructor; done.
  - intros x [= <-]. repeat constructor; done.
Qed.

(** A listening address that is set. *)
Definition address_set (address : SocketAddr) : Prop :=
  ip_is_unspecified (addr_ip address) && (addr_port address =? 0) = false.

Lemma wizard_settings_valid address clients built engine :
  address_set address -> clients <> [] ->
  settings_validate (with_files (wizard_settings address built) clients engine) = Ok tt.
Proof.
  intros Ha Hc. unfold settings_validate, with_files. cbn [st_listen_address wizard_settings].
  unfold address_set in Ha. rewrite Ha. destruct clients; [done|]. reflexivity.
Qed.

Lemma wizard_settings_built address rest clients :
  address_set address -> clients <> [] ->
  exists b, builder_apply (SetListenAddress (Ok (address :: rest))) builder_new = Ok b /\
    (let? b := builder_calls [SetListenProtocols (mkListenProtocols (Some http1_default) (Some http2_default) (Some quic_default));
                              SetClients clients] b in map_err (fun _ => Other) (builder_build b))
    = Ok (wizard_settings address clients).
Proof.
  intros Ha Hc. eexists. split; [reflexivity|]. cbn [builder_calls builder_apply bindR]. unfold builder_build.
  change (settings_validate _) with (settings_validate (with_files (wizard_settings address clients) clients None)).
  by rewrite wizard_settings_valid.
Qed.

Lemma bind_done {A B} (m : W A) (f : A -> W B) w x w' : m w = Done x w' -> bindW m f w = f x w'.
Proof. unfold bindW. by intros ->. Qed.

Lemma bind_ret {A B} (f : A -> W B) x w : bindW (retW x) f w = f x w.
Proof. done. Qed.

Section setup.
Context (o : Outside) (a : Args).
Context (u p h lib hosts addr : bytes) (address : SocketAddr) (rest : list SocketAddr) (cert key date : bytes) (certs : list bytes) (k : bytes).

(** What the wizard is run with: a complete command line that asks for a self-signed
    certificate or for none in particular (with the other types, which it can name too, the
    setup deadlocks: [provided_cert_deadlocks]), files that can be written, under different
    names, and a self-signed certificate that loads. *)
Record setup_args : Prop := {
  sa_mode : ar_mode a = Some (str "non-interactive");
  sa_creds : ar_creds a = Some (u ++ [0x3A] ++ p);
  sa_user : plain_credential u /\ plain_credential p /\ 0x3A ∉ u;
  sa_address : ar_listen_address a = Some addr /\ o_resolve o addr = Ok (address :: rest) /\ wf_addr address /\ address_set address;
  sa_hostname : ar_hostname a = Some h;
  sa_files : ar_library_settings_file a = Some lib /\ ar_tls_hosts_settings_file a = Some hosts;
  sa_cert_type : ar_cert_type a = None \/ ar_cert_type a = Some (str "self-signed");
  sa_write : forall path, o_can_write o path = true;
  sa_dir : o_create_dir o = true;
  sa_names : NoDup [DEFAULT_CREDENTIALS_PATH; DEFAULT_RULES_PATH; CERT_PATH; KEY_PATH; lib; hosts];
  sa_generated : o_self_signed o h [h; str "*." ++ h] = Some (cert, key, date);
  sa_cert : utf8_valid cert = true /\ collect_certs (o_pem_certs o cert) = Ok certs;
  sa_key : utf8_valid key = true /\ o_pem_key o key = Ok k;
  sa_toml : TomlLaws (o_toml_parse o) (o_toml_print o) (o_toml_string o);
  sa_document d : o_parse_document o (o_print_document o d) = Some d;
}.

Abbreviation params := (params_of a (Some (u, p))).

(** The files after the library settings. *)
Definition credentials_content : bytes := compose_credentials_content (o_toml_print o) (o_toml_string o) [(u, p)].
Definition rules_content : bytes := generate_rules_toml_content (o_toml_print o) (o_toml_string o) (mkRules []).
Definition library_content : bytes :=
  o_print_document o (compose_document (o_default_interface o) (wizard_settings address [mkClient u p None None])
    DEFAULT_CREDENTIALS_PATH DEFAULT_RULES_PATH).
Definition hosts_settings : TlsHostsSettings := mkHostsSettings [mkHostInfo h CERT_PATH KEY_PATH []] [] [] [] true.

Definition setup_files (files : Files) : Files :=
  <[hosts := o_print_hosts o hosts_settings]> (<[KEY_PATH := key]> (<[CERT_PATH := cert]> (<[lib := library_content]>
    (<[DEFAULT_RULES_PATH := rules_content]> (<[DEFAULT_CREDENTIALS_PATH := credentials_content]> files))))).

Context (HA : setup_args).

Lemma setup_write path content ans files lk tr :
  write_file (o_can_write o) path content (mkWorld ans files lk tr) = Done tt (mkWorld ans (<[path := content]> files) lk tr).
Proof. unfold write_file. by rewrite (sa_write HA). Qed.

Lemma setup_credentials ans files tr :
  build_credentials NonInteractive params (o_can_write o) (o_read_dir o) (o_toml_parse o) (o_toml_print o) (o_toml_string o)
    (mkWorld ans files false tr)
  = Done (DEFAULT_CREDENTIALS_PATH, [mkClient u p None None])
      (mkWorld ans (<[DEFAULT_CREDENTIALS_PATH := credentials_content]> files) false tr).
Proof.
  unfold build_credentials, build_user_list, reuse, ask_for_input, expect, checked_overwrite, locked, lock, unlock, bindW, retW.
  cbn [w_locked w_answers w_files w_trace pp_credentials params_of]. by rewrite setup_write.
Qed.

Lemma setup_rules ans files tr :
  build_rules NonInteractive (o_can_write o) (o_read_dir o) (o_ipnet o) (o_hex_decode o) (o_toml_print o) (o_toml_string o)
    (mkWorld ans files false tr)
  = Done DEFAULT_RULES_PATH (mkWorld ans (<[DEFAULT_RULES_PATH := rules_content]> files) false tr).
Proof. unfold build_rules, reuse, ask_for_input, expect, checked_overwrite, build_rules_config, bindW, retW. by rewrite setup_write. Qed.

Lemma setup_build ans files tr :
  build_library_settings NonInteractive params (o_can_write o) (o_read_dir o) (o_resolve o) (o_ipnet o) (o_hex_decode o)
    (o_toml_parse o) (o_toml_print o) (o_toml_string o) (mkWorld ans files false tr)
  = Done (mkBuilt (wizard_settings address [mkClient u p None None]) DEFAULT_CREDENTIALS_PATH DEFAULT_RULES_PATH)
      (mkWorld ans (<[DEFAULT_RULES_PATH := rules_content]> (<[DEFAULT_CREDENTIALS_PATH := credentials_content]> files)) false tr).
Proof.
  destruct (sa_address HA) as (Hl & Hr & _ & Hs).
  destruct (wizard_settings_built address rest [mkClient u p None None]) as (b & Hb & Hc); [done..|].
  unfold build_library_settings. rewrite (bind_done _ _ _ b (mkWorld ans files false tr)).
  2:{ unfold locked, bindW, lock, unlock, retW. cbn [w_locked params_of pp_listen_address]. by rewrite Hl, Hr, Hb. }
  rewrite (bind_done _ _ _ _ _ (setup_credentials ans files tr)). cbv beta iota.
  unfold bindR in Hc. destruct (builder_calls _ b) as [b2|]; [|done]. destruct (builder_build b2) as [s|] eqn:Eb; [|done]. injection Hc as ->.
  cbn [expect_ok]. rewrite bind_ret, Eb. cbn [expect_ok]. rewrite bind_ret. by rewrite (bind_done _ _ _ _ _ (setup_rules ans _ tr)).
Qed.

Lemma setup_path q d ans files tr :
  settings_path NonInteractive (Some q) d (mkWorld ans files false tr) = Done q (mkWorld ans files false tr).
Proof. done. Qed.

Lemma setup_library ans files tr :
  library_part o NonInteractive params (mkWorld ans files false tr)
  = Done lib (mkWorld ans (<[lib := library_content]>
      (<[DEFAULT_RULES_PATH := rules_content]> (<[DEFAULT_CREDENTIALS_PATH := credentials_content]> files))) false tr).
Proof.
  unfold library_part. rewrite (bind_done _ _ _ None (mkWorld ans files false tr)) by done. cbv beta iota.
  rewrite (bind_done _ _ _ _ _ (setup_build ans files tr)). cbn [params_of pp_library_settings_file]. rewrite (proj1 (sa_files HA)).
  rewrite (bind_done _ _ _ _ _ (setup_path lib (str "vpn.toml") ans _ tr)).
  cbn [checked_overwrite]. rewrite bind_ret. by rewrite (bind_done _ _ _ _ _ (setup_write lib _ ans _ false tr)).
Qed.

Lemma setup_generate ans files tr :
  generate_cert o NonInteractive params (mkWorld ans files false tr)
  = Done (Some (mkCert h [h; str "*." ++ h] date CERT_PATH KEY_PATH)) (mkWorld ans (<[KEY_PATH := key]> (<[CERT_PATH := cert]> files)) false tr).
Proof.
  unfold generate_cert. rewrite (bind_done _ _ _ h (mkWorld ans files false tr)).
  2:{ unfold locked, bindW, lock, unlock, retW. cbn [w_locked params_of pp_hostname]. by rewrite (sa_hostname HA). }
  rewrite (bind_done _ _ _ (cert, key, date) (mkWorld ans files false tr)) by (by rewrite (sa_generated HA)). cbv beta iota.
  cbn [checked_overwrite]. rewrite !bind_ret. cbn [negb]. rewrite !bind_ret. cbn [negb]. unfold create_dir. rewrite (sa_dir HA), bind_ret.
  rewrite (bind_done _ _ _ _ _ (setup_write CERT_PATH cert ans files false tr)), bind_ret.
  rewrite bool_decide_false by done. cbn [negb]. by rewrite (bind_done _ _ _ _ _ (setup_write KEY_PATH key ans _ false tr)).
Qed.

(** The certificate loads from where it was written. *)
Lemma setup_loads files :
  files !! CERT_PATH = Some cert -> files !! KEY_PATH = Some key ->
  tls_hosts_validate (loads_certs o files) (loads_key o files) hosts_settings = Ok tt.
Proof.
  intros Hc Hk. destruct (sa_cert HA) as [C1 C2], (sa_key HA) as [K1 K2].
  assert (loads_certs o files CERT_PATH = true) as E1.
  { unfold loads_certs, certs_at, load_certs, read_pem, fs_open. rewrite Hc. cbn [bindR]. rewrite C1. cbn [bindR]. by rewrite C2. }
  assert (loads_key o files KEY_PATH = true) as E2.
  { unfold loads_key, key_at, load_private_key, read_pem, fs_open. rewrite Hk. cbn [bindR]. rewrite K1. cbn [bindR]. by rewrite K2. }
  unfold tls_hosts_validate, hosts_settings. cbn [ths_main ths_ping ths_speedtest ths_reverse_proxy validate_tls_hosts hi_cert_chain_path hi_private_key_path].
  rewrite E1, E2. reflexivity.
Qed.

Lemma setup_hosts ans files tr :
  hosts_part o NonInteractive params (mkWorld ans files false tr)
  = Done (hosts, Some (CERT_PATH, KEY_PATH)) (mkWorld ans (<[hosts := o_print_hosts o hosts_settings]>
      (<[KEY_PATH := key]> (<[CERT_PATH := cert]> files))) false tr).
Proof.
  unfold hosts_part. rewrite (bind_done _ _ _ None (mkWorld ans files false tr)) by done. cbv beta iota.
  rewrite (bind_done _ _ _ (mkHostsResult hosts_settings CERT_PATH KEY_PATH) (mkWorld ans (<[KEY_PATH := key]> (<[CERT_PATH := cert]> files)) false tr)).
  - cbn [params_of pp_tls_hosts_settings_file]. rewrite (proj2 (sa_files HA)).
    rewrite (bind_done _ _ _ _ _ (setup_path hosts (str "hosts.toml") ans _ tr)). cbn [checked_overwrite]. rewrite bind_ret.
    by rewrite (bind_done _ _ _ _ _ (setup_write hosts _ ans _ false tr)).
  - unfold build_tls_hosts, loopW. cbn [w_answers loop_rounds].
    assert (build_with_runtime o NonInteractive params (mkWorld ans files false tr)
      = generate_cert o NonInteractive params (mkWorld ans files false tr)) as E.
    { unfold build_with_runtime, build_noninteractive. rewrite (bind_done _ _ _ tt (mkWorld ans files true tr)) by done.
      cbn [params_of pp_cert_type]. destruct (sa_cert_type HA) as [-> | ->]; [done|].
      by rewrite !bool_decide_false. }
    rewrite (bind_done _ _ _ (inr (mkHostsResult hosts_settings CERT_PATH KEY_PATH))
      (mkWorld ans (<[KEY_PATH := key]> (<[CERT_PATH := cert]> files)) false tr)); [done|].
    rewrite (bind_done _ _ _ _ _ (eq_trans E (setup_generate ans files tr))). cbv beta iota.
    rewrite (bind_done _ _ _ hosts_settings (mkWorld ans (<[KEY_PATH := key]> (<[CERT_PATH := cert]> files)) false tr)); [done|].
    unfold build_settings_from_cert, ask_for_alternative_snis. rewrite bind_ret.
    rewrite (bind_done _ _ _ (<[KEY_PATH := key]> (<[CERT_PATH := cert]> files)) (mkWorld ans (<[KEY_PATH := key]> (<[CERT_PATH := cert]> files)) false tr)) by done.
    unfold tls_builder_build. change (tls_builder_set _ _) with hosts_settings.
    rewrite setup_loads; [done|by rewrite lookup_insert_ne, lookup_insert_eq|by rewrite lookup_insert_eq].
Qed.

Lemma setup_main tty ans files tr :
  wizard_main o a tty (mkWorld ans files false tr)
  = Done (lib, (hosts, Some (CERT_PATH, KEY_PATH))) (mkWorld ans (setup_files files) false tr).
Proof.
  destruct (sa_user HA) as (Hu & Hp & Hc). unfold wizard_main, mode_of, credentials_of.
  rewrite (sa_mode HA), (bool_decide_true (str "non-interactive" = _)), bind_ret by done. rewrite bool_decide_false by done. cbn [andb].
  rewrite (sa_creds HA). change (u ++ [0x3A] ++ p) with (u ++ 0x3A :: p). rewrite split_once_app by done.
  destruct Hu as [Hu _], Hp as [Hp _]. destruct u as [|u0 u'] eqn:Eu; [done|]. destruct p as [|p0 p'] eqn:Ep; [done|]. rewrite <- Eu, <- Ep in *.
  assert (len u =? 0 = false) as -> by (by rewrite Eu). assert (len p =? 0 = false) as -> by (by rewrite Ep). rewrite bind_ret.
  rewrite (bind_done _ _ _ tt (mkWorld ans files false tr)) by done.
  rewrite (bind_done _ _ _ _ _ (setup_library ans files tr)). by rewrite (bind_done _ _ _ _ _ (setup_hosts ans _ tr)).
Qed.

(** What the files hold. *)
Lemma setup_lookups files :
  setup_files files !! DEFAULT_CREDENTIALS_PATH = Some credentials_content /\
  setup_files files !! DEFAULT_RULES_PATH = Some rules_content /\
  setup_files files !! CERT_PATH = Some cert /\ setup_files files !! KEY_PATH = Some key /\
  setup_files files !! lib = Some library_content /\ setup_files files !! hosts = Some (o_print_hosts o hosts_settings).
Proof.
  pose proof (sa_names HA) as Hn. rewrite !NoDup_cons in Hn. unfold setup_files.
  split_and!; repeat first [rewrite lookup_insert_eq; done | rewrite lookup_insert_ne by set_solver].
Qed.

Lemma setup_read files :
  read_settings o (setup_files files) library_content
  = Ret (Some (with_files (wizard_settings address [mkClient u p None None]) [mkClient u p None None] (Some default_allow))).
Proof.
  destruct (setup_lookups files) as (Hc & Hr & _). destruct (sa_address HA) as (_ & _ & Hw & _). destruct (sa_user HA) as (Hu & Hp & _).
  pose proof (sa_toml HA) as HT. unfold read_settings, library_content. rewrite (sa_document HA).
  rewrite (settings_from_composed _ _ _ _ _ _ _ [mkClient u p None None]).
  - rewrite main_composed by (by apply wizard_settings_composable).
    rewrite (rules_file_read (o_toml_parse o) (o_toml_print o) (o_toml_string o) _ _ _ (mkRules [])); [done|..].
    + unfold fs_metadata. by rewrite Hr.
    + unfold fs_open. by rewrite Hr.
  - apply (credentials_file_read (o_toml_parse o) (o_toml_print o) (o_toml_string o) _ _ _ [(u, p)]).
    + unfold fs_metadata. by rewrite Hc.
    + unfold fs_open. by rewrite Hc.
    + by apply Forall_singleton.
Qed.

End setup.

(** A non-interactive setup makes an endpoint that starts.  With a complete command
    line, a name and a password of plain characters, a self-signed certificate and files
    that can be written under different names, the wizard returns; the library settings it
    wrote read back, with the credentials and the rules of the files that they name, to
    valid settings that listen on the given address, know exactly the given user and allow
    every connection; the hosts file names the given host, with a certificate and a key
    that load. *)
Theorem noninteractive_setup o a u p h lib hosts addr address rest cert key date certs k tty w :
  setup_args o a u p h lib hosts addr address rest cert key date certs k -> w_locked w = false ->
  exists w' s content hs,
    wizard_main o a tty w = Done (lib, (hosts, Some (CERT_PATH, KEY_PATH))) w' /\
    w_files w' !! lib = Some content /\ read_settings o (w_files w') content = Ret (Some s) /\
    settings_validate s = Ok tt /\ st_listen_address s = address /\ st_clients s = [mkClient u p None None] /\
    st_rules_engine s = Some default_allow /\
    w_files w' !! hosts = Some (o_print_hosts o hs) /\ ths_main hs = [mkHostInfo h CERT_PATH KEY_PATH []] /\
    tls_hosts_validate (loads_certs o (w_files w')) (loads_key o (w_files w')) hs = Ok tt.
Proof.
  intros HA Hl. destruct w as [ans files lk tr]. cbn in Hl. subst lk.
  destruct (setup_lookups _ _ _ _ _ _ _ _ _ _ _ _ _ _ _ HA files) as (_ & _ & Hc & Hk & Hlib & Hhosts).
  eexists _, _, _, (hosts_settings h). split; [by eapply setup_main|]. cbn [w_files].
  split; [exact Hlib|]. split; [by eapply setup_read|].
  split; [apply wizard_settings_valid; [apply (sa_address _ _ _ _ _ _ _ _ _ _ _ _ _ _ _ HA)|done]|].
  do 3 (split; [reflexivity|]). split; [exact Hhosts|]. split; [reflexivity|]. by eapply setup_loads.
Qed.

(** The rules of the dialogue take effect.  Every rule that the wizard accepts has a
    condition, and each of its conditions can be evaluated: the range parses, the prefix and
    the mask decode, the key decodes and is 16 bytes or longer, and there is not both a
    prefix and a key.  The file that is written for the rules is read by the endpoint as
    exactly these rules. *)
Theorem custom_rules_take_effect ipnet hex_decode toml_parse toml_print toml_string metadata read_to_string path w c w' :
  TomlLaws toml_parse toml_print toml_string ->
  build_rules_config Interactive ipnet hex_decode w = Done c w' ->
  metadata path = Ok true -> read_to_string path = Ok (generate_rules_toml_content toml_print toml_string c) ->
  Forall (sound_rule ipnet hex_decode) (rule c) /\
  deserialize_rules metadata read_to_string toml_parse path = Some (from_config c).
Proof.
  intros HT Hb Hm Hr. split; [|by eapply rules_file_read].
  pose proof (adds_rules_config ipnet hex_decode w I) as H. rewrite Hb in H. apply H.
Qed.

Module WizardSample.

(** *** Documents as codes of their tables *)

#[local] Instance TomlItem_eq_dec : EqDecision TomlItem.
Proof. solve_decision. Defined.

#[local] Instance TomlItem_countable : Countable TomlItem.
Proof. apply (inj_countable' (fun i => (ti_text i, ti_str i, ti_int i)) (fun '(a, b, c) => mkItem a b c)). by intros []. Defined.

#[local] Instance TomlVal_eq_dec : EqDecision TomlVal.
Proof. solve_decision. Defined.

#[local] Instance TomlVal_countable : Countable TomlVal.
Proof.
  apply (inj_countable'
    (fun v : TomlVal => match v with VStr s => inl s | VBool b => inr (inl b) | VInt z => inr (inr (inl z)) | VArray l => inr (inr (inr l)) end)
    (fun x => match x with inl s => VStr s | inr (inl b) => VBool b | inr (inr (inl z)) => VInt z | inr (inr (inr l)) => VArray l end)).
  by intros [].
Defined.

(** A code stands above the characters. *)
Definition code (p : positive) : Z := 1000 + Z.pos p.

Definition print (k : bytes) (l : list TomlTable) : bytes := [code (countable.encode ((k, l) : bytes * list (list (bytes * TomlItem))))].

(** Without the comments and the empty lines at the start. *)
Fixpoint strip (comment : bool) (l : bytes) : bytes :=
  match l with
  | [] => []
  | c :: l =>
      if comment then strip (negb (c =? 0x0A)) l
      else if c =? 0x0A then strip false l
      else if c =? 0x23 then strip true l
      else c :: l
  end.

Definition parse (l : bytes) : option TomlDocument :=
  match strip false l with
  | [] => Some (fun _ => None)
  | c :: _ =>
      match c - 1000 with
      | Z.pos p =>
          match (countable.decode p : option (bytes * list (list (bytes * TomlItem)))) with
          | Some (k, l) => Some (fun k' => if decide (k' = k) then Some l else None)
          | None => None
          end
      | _ => None
      end
  end.

Lemma strip_comment c t : 0x0A ∉ c -> strip true (c ++ 0x0A :: t) = strip false t.
Proof.
  induction c as [|x c IH]; intros Hc; [done|]. cbn [app strip]. destruct (Z.eqb_spec x 0x0A) as [->|]; [set_solver|]. cbn [negb].
  apply IH. set_solver.
Qed.

#[local] Instance sample_laws : TomlLaws parse print (fun s => [0x22] ++ s ++ [0x22]).
Proof.
  constructor.
  - intros c t Hc. unfold parse. cbn [strip]. change (0x23 =? 0x0A) with false. change (0x23 =? 0x23) with true. cbv iota.
    by rewrite strip_comment.
  - done.
  - by eexists.
  - intros k l tail Ht. unfold parse, print. cbn [app strip].
    destruct (Z.eqb_spec (code (countable.encode ((k, l) : bytes * list (list (bytes * TomlItem))))) 0x0A) as [E|_]; [unfold code in E; lia|].
    destruct (Z.eqb_spec (code (countable.encode ((k, l) : bytes * list (list (bytes * TomlItem))))) 0x23) as [E|_]; [unfold code in E; lia|].
    unfold code. rewrite Z.add_simpl_l, countable.decode_encode. eexists. split; [done|]. cbv beta. by rewrite decide_True.
  - by left.
Qed.

Definition print_document (d : Document) : bytes := [Z.pos (countable.encode (d : list (list bytes * Table)))].
Definition parse_document (l : bytes) : option Document :=
  match l with [Z.pos p] => countable.decode p | _ => None end.

(** *** A setup *)

Definition outside : Outside :=
  mkOutside (fun _ => true) (fun _ _ => None) true (fun _ => Ok [mkAddr (IpV4 [0; 0; 0; 0]) 443]) (str "eth0") (fun _ => None)
    (fun _ => None) parse print (fun s => [0x22] ++ s ++ [0x22]) parse_document print_document (fun _ _ => None) (fun _ => str "hosts")
    (fun c => [Ok c]) (fun c => Ok c) (fun _ => None) (fun name _ => Some (str "CERT " ++ name, str "KEY", str "2030-01-01"))
    (fun _ => None) (str "2029-04-01") (fun _ => Ok tt) (fun _ => Ok OrderPending) (fun _ => Ok []) (fun _ => Ok tt)
    (fun _ => Ok OrderReady) (fun _ => Ok OrderValid) (fun _ => Ok None) (fun _ => Ok tt) (fun c => ch_token c) (fun _ => Ok (str "key"))
    (fun k d => Ok (k ++ d)).

Definition args : Args :=
  mkArgs (Some (str "non-interactive")) (Some (str "admin:secret")) (Some (str "0.0.0.0:443")) (Some (str "vpn.example"))
    (Some (str "vpn.toml")) (Some (str "hosts.toml")) None None None None (Some (str "http-01")) false.

Definition empty_world : World := mkWorld [] ∅ false [].

Lemma plain_sample s :
  bool_decide (s <> []) && forallb (fun c => in_range 0x20 0x7E c && negb (c =? 0x22) && negb (c =? 0x27) && negb (c =? 0x5C)) s
    && bool_decide (utf8_trim s = s /\ utf8_trim (0x20 :: s) = s) = true -> plain_credential s.
Proof.
  intros H. apply andb_true_iff in H as [H H3]. apply andb_true_iff in H as [H1 H2]. apply bool_decide_eq_true in H1, H3.
  split_and!; [done| |apply H3|apply H3]. apply Forall_forall. intros c Hc. rewrite forallb_forall in H2. specialize (H2 c (proj1 (list_elem_of_In _ _) Hc)).
  rewrite !andb_true_iff, in_range_spec, !negb_true_iff, !Z.eqb_neq in H2. lia.
Qed.

Lemma sample_setup :
  setup_args outside args (str "admin") (str "secret") (str "vpn.example") (str "vpn.toml") (str "hosts.toml") (str "0.0.0.0:443")
    (mkAddr (IpV4 [0; 0; 0; 0]) 443) [] (str "CERT vpn.example") (str "KEY") (str "2030-01-01") [str "CERT vpn.example"] (str "KEY").
Proof.
  constructor; try done.
  - split_and!; [apply plain_sample; vm_compute; reflexivity..|]. apply (bool_decide_unpack (0x3A ∉ str "admin")). vm_compute. exact I.
  - split_and!; [done|done| |done]. apply (bool_decide_unpack (wf_addr _)). vm_compute. exact I.
  - by left.
  - apply (bool_decide_unpack (NoDup _)). vm_compute. exact I.
  - apply sample_laws.
  - intros d. cbn. unfold parse_document, print_document. apply countable.decode_encode.
Qed.

(** The setup of an endpoint for one user. *)
Lemma noninteractive_setup_witness :
  exists w' s content hs,
    wizard_main outside args false empty_world = Done (str "vpn.toml", (str "hosts.toml", Some (CERT_PATH, KEY_PATH))) w' /\
    w_files w' !! str "vpn.toml" = Some content /\ read_settings outside (w_files w') content = Ret (Some s) /\
    settings_validate s = Ok tt /\ st_listen_address s = mkAddr (IpV4 [0; 0; 0; 0]) 443 /\
    st_clients s = [mkClient (str "admin") (str "secret") None None] /\ st_rules_engine s = Some default_allow /\
    w_files w' !! str "hosts.toml" = Some (o_print_hosts outside hs) /\
    ths_main hs = [mkHostInfo (str "vpn.example") CERT_PATH KEY_PATH []] /\
    tls_hosts_validate (loads_certs outside (w_files w')) (loads_key outside (w_files w')) hs = Ok tt.
Proof.
  eapply (noninteractive_setup outside args _ _ _ _ _ _ _ _ _ _ _ _ _ false empty_world); [apply sample_setup|reflexivity].
Defined.

(** Nothing is agreed to in a dialogue that ends early. *)
Definition old_files : Files := <[str "credentials.toml" := str "old"]> ∅.

Lemma declined_files_kept_witness :
  w_files (final (wizard_main outside (mkArgs None None None None None None None None None None None false) true
    (mkWorld [Line (str "127.0.0.1:443"); Line (str "credentials.toml"); Line (str "u"); Line (str "p"); Pick (Some 1%nat); Agree false]
       old_files false []))) !! str "credentials.toml" = Some (str "old").
Proof. apply declined_files_kept; [discriminate| |reflexivity]. apply (bool_decide_unpack _). vm_compute. exact I. Defined.

(** Two rules, of which the first one is refused. *)
Definition rule_answers : World :=
  mkWorld [Agree true; Agree true; Line (str "2"); Line (str "xyz"); Agree true; Line (str "4");
           Line (str "aabbccddeeff00112233445566778899"); Line (str "DENY"); Agree false] ∅ false [].

Definition key_rules : RulesConfig := mkRules [mkRule None None (Some (str "aabbccddeeff00112233445566778899")) DenyAction].

Lemma custom_rules_take_effect_witness :
  Forall (sound_rule (fun _ => None) HexRef.hex_decode) (rule key_rules) /\
  deserialize_rules (fun _ => Ok true)
    (fun _ => Ok (generate_rules_toml_content print (fun s => [0x22] ++ s ++ [0x22]) key_rules)) parse (str "rules.toml")
  = Some (from_config key_rules).
Proof.
  apply (custom_rules_take_effect (fun _ => None) HexRef.hex_decode parse print (fun s => [0x22] ++ s ++ [0x22]) (fun _ => Ok true)
    (fun _ => Ok (generate_rules_toml_content print (fun s => [0x22] ++ s ++ [0x22]) key_rules)) (str "rules.toml") rule_answers key_rules
    (mkWorld [] ∅ false [])); [apply sample_laws|vm_compute; reflexivity|reflexivity|reflexivity].
Defined.

End WizardSample.
