(* ===== verification/Services.v ===== *)
(** * The services beside the tunnel

    lib/src/http_ping_handler.rs, lib/src/http_speedtest_handler.rs and
    lib/src/http_subscription_handler.rs: the handlers of the requests that the
    demultiplexer does not give to the tunnel; the helpers of lib/src/http_codec.rs they
    answer with, its codec of a single request, and the sessions around the handlers;
    lib/src/shutdown.rs: the shutdown that ends them. *)

From S2P Require Import Prelude.
From S2P Require Import Codecs.
From S2P Require Import Varint.
From S2P Require Import NetUtils.
From S2P Require Import Auth.
From S2P Require Import Tunnel.
From S2P Require Import Pipe.
From S2P Require Import ForwardedStream.
From S2P Require Import TcpForwarder.
From S2P Require Import TlsDemux.
From S2P Require Import Http1Codec.
From S2P Require Import ReverseProxy.
From S2P Require Import Settings.

(** ** Responses *)

Definition ok_response_headers : ResponseHeaders := mkResponseHeaders HTTP_11 200 [].

(** The response of [send_bad_response]; its callers give valid header names and values, so
    that building it does not panic. *)
Definition bad_response (status : Z) (extra_headers : headers) : ResponseHeaders :=
  mkResponseHeaders HTTP_11 status (header_insert (str "content-length") (str "0") extra_headers).

(** ** Speed tests *)

Definition MAX_DOWNLOAD_MB : Z := 100.
Definition MAX_UPLOAD_MB : Z := 120.
Definition CHUNK_SIZE : Z := 64 * 1024.

Inductive Speedtest : Type :=
| Download (n : Z)
| Upload (n : Z).

(** [str::strip_suffix] and [str::parse::<u32>]. *)
Definition strip_suffix (p l : bytes) : option bytes :=
  match strip_prefix (rev p) (rev l) with Some x => Some (rev x) | None => None end.

Definition parse_u32 (s : bytes) : option Z :=
  match parse_u64 s with Some v => if v <? 2 ^ 32 then Some v else None | None => None end.

Definition strip_base_path (original_path : bytes) (base_path : option bytes) : bytes :=
  match base_path with
  | Some base =>
      match strip_prefix base original_path with
      | Some x => if starts_with [0x2F] x then x else 0x2F :: x
      | None => original_path
      end
  | None => original_path
  end.

Section speedtest.
Context (to_str : bytes -> option bytes).

Definition download_size (path : bytes) : option Z :=
  match strip_prefix [0x2F] path with
  | Some x =>
      match strip_suffix (str "mb.bin") x with
      | Some x => match parse_u32 x with
                  | Some x => if (0 <? x) && (x <=? MAX_DOWNLOAD_MB) then Some (x * 1024 * 1024) else None
                  | None => None
                  end
      | None => None
      end
  | None => None
  end.

Definition upload_size (h : headers) : option Z :=
  match header_get h (str "content-length") with
  | Some v =>
      match to_str v with
      | Some v => match parse_u32 v with
                  | Some x => if (0 <? x) && (x <=? MAX_UPLOAD_MB * 1024 * 1024) then Some x else None
                  | None => None
                  end
      | None => None
      end
  | None => None
  end.

Definition prepare_speedtest (request : RequestHeaders) (base_path : option bytes) : result unit Speedtest :=
  let path := strip_base_path (rq_path request) base_path in
  if bool_decide (rq_method request = str "GET") then
    match download_size path with Some n => Ok (Download n) | None => Err tt end
  else if bool_decide (rq_method request = str "POST") then
    if negb (bool_decide (path = str "/upload.html")) then Err tt
    else match upload_size (rq_headers request) with Some n => Ok (Upload n) | None => Err tt end
  else Err tt.

End speedtest.

Section download.
Context {Snk WEnv : Type} `{Sink Snk WEnv}.

(** The loop of [run_download_test]: an iteration per pair of environments, for the write
    and for the wait; [None] when it has not returned by then, [Some false] after an
    error. *)
Fixpoint download_loop (n : Z) (envs : list (WEnv * WEnv)) (sink : Snk) : M (option bool * Snk) :=
  if n <=? 0 then
    let (r, sink) := snk_eof sink in
    Ret (Some (match r with Ok _ => true | Err _ => false end), sink)
  else
    match envs with
    | [] => Ret (None, sink)
    | (we, wt) :: envs =>
        let chunk_length := Z.min CHUNK_SIZE n in
        let! (r, sink) := snk_write we sink (replicate (Z.to_nat chunk_length) 0) in
        match r with
        | Err _ => Ret (Some false, sink)
        | Ok unsent =>
            let! sent := usub chunk_length (len unsent) in
            let n := Z.max 0 (n - sent) in
            match snk_wait_writable wt sink with
            | (None, sink) => Ret (None, sink)
            | (Some (Err _), sink) => Ret (Some false, sink)
            | (Some (Ok _), sink) => download_loop n envs sink
            end
        end
    end.

Definition download_response : ResponseHeaders :=
  mkResponseHeaders HTTP_11 200
    [(str "content-type", str "application/octet-stream"); (str "access-control-allow-origin", str "*")].

(** [run_download_test]; [respond] is the outcome of [send_response]. *)
Definition run_download_test (respond : result ErrorKind Snk) (n : Z) (envs : list (WEnv * WEnv))
  : M (option bool * option Snk) :=
  match respond with
  | Err _ => Ret (Some false, None)
  | Ok sink => let! (r, sink) := download_loop n envs sink in Ret (r, Some sink)
  end.

End download.

Section upload.
Context {Src REnv : Type} `{Pipe.Source Src REnv}.

(** The loop of [run_upload_test]: [Some true] when the client is to be answered. *)
Fixpoint upload_loop (n : Z) (envs : list REnv) (source : Src) : option bool * Src :=
  if n <=? 0 then (Some true, source)
  else
    match envs with
    | [] => (None, source)
    | env :: envs =>
        match src_read env source with
        | (None, source) => (None, source)
        | (Some (Ok (Chunk x)), source) =>
            let n := Z.max 0 (n - len x) in
            match src_consume source (len x) with
            | (Err _, source) => (Some false, source)
            | (Ok _, source) => upload_loop n envs source
            end
        | (Some (Ok Eof), source) => (Some true, source)
        | (Some (Err _), source) => (Some false, source)
        end
    end.

(** [run_upload_test], with what it answers. *)
Definition run_upload_test (n : Z) (envs : list REnv) (source : Src) : option (option ResponseHeaders) * Src :=
  match upload_loop n envs source with
  | (None, source) => (None, source)
  | (Some true, source) => (Some (Some ok_response_headers), source)
  | (Some false, source) => (Some None, source)
  end.

End upload.

(** ** Subscriptions *)

Record SubscriptionResponse : Type := mkSubscriptionResponse {
  sr_version : Z;
  sr_hostname : bytes;
  sr_address : bytes;
  sr_username : bytes;
  sr_password : bytes;
  sr_has_ipv6 : bool;
  sr_upstream_protocol : bytes;
  sr_anti_dpi : bool;
  sr_skip_verification : bool;
  sr_certificate : option bytes;
  sr_custom_sni : option bytes;
  sr_client_random_prefix : option bytes;
  sr_name : option bytes;
  sr_dns_upstreams : list bytes;
}.

Section subscription.
(** [HeaderValue::to_str]; the base64 engine; [serde_json::to_vec]. *)
Context (to_str : bytes -> option bytes) (b64_decode : bytes -> option bytes)
  (to_json : SubscriptionResponse -> result ErrorKind bytes).

(** The client that the [authorization] header names. *)
Definition authenticate_basic (clients : list Client) (h : headers) : option Client :=
  match header_get h (str "authorization") with
  | None => None
  | Some v =>
      match to_str v with
      | None => None
      | Some header =>
          match strip_prefix (str "Basic ") header with
          | None => None
          | Some encoded =>
              match b64_decode (utf8_trim encoded) with
              | None => None
              | Some decoded =>
                  if negb (utf8_valid decoded) then None
                  else match split_once 0x3A decoded with
                       | None => None
                       | Some (user, pass) =>
                           List.find (fun c => bool_decide (username c = user) && bool_decide (password c = pass)) clients
                       end
              end
          end
      end
  end.

Definition subscription_response (config : SubscriptionConfig) (client : Client) : SubscriptionResponse :=
  mkSubscriptionResponse 1 (sc_hostname config) (sc_address config) (username client) (password client) true (str "http2")
    false false (sc_certificate config) (sc_custom_sni config) (sc_client_random_prefix config) (sc_name config)
    (sc_dns_upstreams config).

(** What is sent: a response and, after a success, the body. *)
Definition handle_subscription (subscription : option SubscriptionConfig) (clients : list Client) (sni : bytes)
    (req : RequestHeaders) : result ErrorKind (ResponseHeaders * option bytes) :=
  match subscription with
  | None => Ok (bad_response 404 [], None)
  | Some config =>
      if negb (bool_decide (sni = sc_hostname config)) then Ok (bad_response 404 [], None)
      else
        match authenticate_basic clients (rq_headers req) with
        | None => Ok (bad_response 401 [(str "www-authenticate", str "Basic realm=" ++ [0x22] ++ str "Subscription" ++ [0x22])], None)
        | Some client =>
            if negb (sc_enabled config) then Ok (bad_response 403 [], None)
            else if negb (bool_decide (rq_method req = str "GET")) then Ok (bad_response 405 [(str "allow", str "GET")], None)
            else
              let? body := to_json (subscription_response config client) in
              Ok (mkResponseHeaders HTTP_11 200
                    [(str "content-type", str "application/json"); (str "content-length", decimal (len body))], Some body)
        end
  end.

End subscription.

(** ** Sessions *)

(** What [listen] of a codec gives, under the timeout of the session. *)
Inductive ListenResult (St : Type) : Type :=
| GotStream (x : St)
| GotNone
| GotError (e : ErrorKind)
| Elapsed.
Arguments GotStream {St}.
Arguments GotNone {St}.
Arguments GotError {St}.
Arguments Elapsed {St}.

(** How a session goes on: with a new task, by waiting again, or to its end, with a
    shutdown of the codec if the timeout ended it. *)
Inductive SessionStep (T : Type) : Type :=
| Spawn (t : T)
| AnswerBad (r : ResponseHeaders)
| Continue
| Break (shutdown : bool).
Arguments Spawn {T}.
Arguments AnswerBad {T}.
Arguments Continue {T}.
Arguments Break {T}.

(** An iteration of [listen_inner] of the speed test; [running] is the number of tests
    that run. *)
Definition speedtest_round (to_str : bytes -> option bytes) (base_path : option bytes) (running : Z)
    (l : ListenResult RequestHeaders) : SessionStep Speedtest :=
  match l with
  | GotStream x =>
      match prepare_speedtest to_str x base_path with
      | Ok t => Spawn t
      | Err _ => AnswerBad (bad_response 400 [])
      end
  | GotNone => Break false
  | GotError _ => Break false
  | Elapsed => if 0 <? running then Continue else Break true
  end.

(** An iteration of [listen_inner] of the reverse proxy. *)
Definition reverse_proxy_round {St} (active_streams_num : Z) (l : ListenResult St) : SessionStep St :=
  match l with
  | GotStream x => Spawn x
  | GotNone => Break false
  | GotError _ => Break false
  | Elapsed => if 0 <? active_streams_num then Continue else Break true
  end.

(** An iteration of [listen_inner] of the subscription handler, which serves the stream
    itself and has no timeout. *)
Definition subscription_round {St} (l : ListenResult St) : SessionStep St :=
  match l with
  | GotStream x => Spawn x
  | _ => Break false
  end.

(** [http_ping_handler::listen]: the response sent, if any. *)
Definition ping_listen {St} (l : ListenResult St) : option ResponseHeaders :=
  match l with GotStream _ => Some ok_response_headers | _ => None end.

(** [SingleRequestCodec]: the stream that is still to be given out. *)
Definition SingleRequestCodec (St : Type) : Type := option St.

(** [None]: the call waits forever. *)
Definition single_listen {St} (self : SingleRequestCodec St) : option St * SingleRequestCodec St := (self, None).

Definition single_graceful_shutdown {St} (self : SingleRequestCodec St) : option (St * ResponseHeaders) * SingleRequestCodec St :=
  ((fun st => (st, bad_response 500 [])) <$> self, None).

(** The speed test session as a transition system: the tests that were spawned and not
    finished, and the counter they share. *)
Record SpeedSession : Type := mkSpeedSession { sps_running : Z; sps_tasks : nat; sps_open : bool }.

Inductive speed_step (to_str : bytes -> option bytes) (base_path : option bytes) : SpeedSession -> SpeedSession -> Prop :=
| speed_spawned l t s :
    sps_open s = true -> speedtest_round to_str base_path (sps_running s) l = Spawn t ->
    speed_step to_str base_path s (mkSpeedSession (sps_running s + 1) (S (sps_tasks s)) true)
| speed_answered l r s :
    sps_open s = true -> speedtest_round to_str base_path (sps_running s) l = AnswerBad r -> speed_step to_str base_path s s
| speed_waited l s :
    sps_open s = true -> speedtest_round to_str base_path (sps_running s) l = Continue -> speed_step to_str base_path s s
| speed_ended l b s :
    sps_open s = true -> speedtest_round to_str base_path (sps_running s) l = Break b ->
    speed_step to_str base_path s (mkSpeedSession (sps_running s) (sps_tasks s) false)
| speed_finished s n :
    sps_tasks s = S n -> speed_step to_str base_path s (mkSpeedSession (sps_running s - 1) n (sps_open s)).

(** ** Shutdown *)

(** [Shutdown]: the handlers that were created, each with whether a notification waits for
    it, the guards that are alive, and whether a guard can still be had. *)
Record ShutdownState : Type := mkShutdown {
  sd_handlers : list bool;
  sd_guards : nat;
  sd_complete_tx : bool;
}.

Definition shutdown_new : ShutdownState := mkShutdown [] 0 true.

(** [submit]: the message reaches the handlers that exist. *)
Definition submit (s : ShutdownState) : ShutdownState :=
  mkShutdown ((fun _ => true) <$> sd_handlers s) (sd_guards s) (sd_complete_tx s).

Definition notification_handler (s : ShutdownState) : nat * ShutdownState :=
  (length (sd_handlers s), mkShutdown (sd_handlers s ++ [false]) (sd_guards s) (sd_complete_tx s)).

(** [Notification::wait]: [None] while there is nothing to receive. *)
Definition notification_wait (i : nat) (s : ShutdownState) : option unit * ShutdownState :=
  match sd_handlers s !! i with
  | Some true => (Some tt, mkShutdown (<[i := false]> (sd_handlers s)) (sd_guards s) (sd_complete_tx s))
  | _ => (None, s)
  end.

Definition completion_guard (s : ShutdownState) : bool * ShutdownState :=
  if sd_complete_tx s then (true, mkShutdown (sd_handlers s) (S (sd_guards s)) true) else (false, s).

Definition guard_dropped (s : ShutdownState) : ShutdownState :=
  mkShutdown (sd_handlers s) (pred (sd_guards s)) (sd_complete_tx s).

(** [completion]: it drops its own sender, then waits until no sender is left. *)
Definition completion_started (s : ShutdownState) : ShutdownState := mkShutdown (sd_handlers s) (sd_guards s) false.

Definition completed (s : ShutdownState) : bool := negb (sd_complete_tx s) && (sd_guards s =? 0)%nat.

Inductive shutdown_step : ShutdownState -> ShutdownState -> Prop :=
| sd_submit s : shutdown_step s (submit s)
| sd_handler s : shutdown_step s (notification_handler s).2
| sd_wait i s : shutdown_step s (notification_wait i s).2
| sd_guard s : shutdown_step s (completion_guard s).2
| sd_drop s : (0 < sd_guards s)%nat -> shutdown_step s (guard_dropped s)
| sd_completion s : shutdown_step s (completion_started s).

(** ** Lemmas *)

Section download_laws.
Context {Snk WEnv : Type} `{SinkLaws Snk WEnv}.

Lemma replicate_prefix n (k rest : bytes) : replicate n 0 = k ++ rest -> k = replicate (length k) 0.
Proof.
  intros E. assert (length k <= n)%nat by (apply (f_equal length) in E; rewrite length_replicate, length_app in E; lia).
  rewrite <- (take_app_length k rest), <- E, take_replicate. by rewrite Nat.min_l, length_replicate.
Qed.

(** The sink is given [n] zero bytes at most, all of them if the end was sent. *)
Lemma download_loop_spec n envs sink :
  0 <= n ->
  exists r sink' k, download_loop n envs sink = Ret (r, sink') /\ accepted sink' = accepted sink ++ replicate k 0 /\
    Z.of_nat k <= n /\ (r = Some true -> Z.of_nat k = n /\ ended sink' = true).
Proof.
  revert n sink. induction envs as [|[we wt] envs IH]; intros n sink Hn; cbn [download_loop];
    (destruct (Z.leb_spec n 0) as [Hz|Hz];
      [destruct (snk_eof sink) as [r sink'] eqn:Ee; destruct (eof_law _ _ _ Ee) as [Ha He];
       exists (Some (match r with Ok _ => true | Err _ => false end)), sink', O; rewrite Ha, app_nil_r;
       split_and!; [done|done|lia|destruct r as [[]|]; [intros _; split; [lia|auto]|done]]|]).
  - exists None, sink, O. rewrite app_nil_r. split_and!; [done|done|lia|done].
  - destruct (write_any we sink (replicate (Z.to_nat (Z.min CHUNK_SIZE n)) 0)) as (r & s1 & k & rest & Ew & Ed & Ha & Hr).
    { apply fits_chunk. unfold len, CHUNK_SIZE, READ_CHUNK_SIZE. rewrite length_replicate. lia. }
    rewrite Ew. cbn [bindM]. pose proof (replicate_prefix _ _ _ Ed) as Hk.
    assert (length k + length rest = Z.to_nat (Z.min CHUNK_SIZE n))%nat as Hlen.
    { apply (f_equal length) in Ed. rewrite length_replicate, length_app in Ed. lia. }
    assert (0 < CHUNK_SIZE) by (unfold CHUNK_SIZE; lia).
    destruct r as [unsent|e].
    2:{ exists (Some false), s1, (length k). rewrite Ha. split_and!; [done|by rewrite <- Hk|lia|done]. }
    rewrite (Hr unsent eq_refl). unfold usub, len. destruct (Z.leb_spec (Z.of_nat (length rest)) (Z.min CHUNK_SIZE n)); [|lia].
    cbn [bindM]. destruct (snk_wait_writable wt s1) as [w s2] eqn:Ewait. pose proof (wait_law _ _ _ _ Ewait) as Ha2.
    assert (forall r, exists r' sink' k', Ret (r, s2) = Ret (r', sink') /\ accepted sink' = accepted sink ++ replicate k' 0 /\
      Z.of_nat k' <= n /\ (r' = Some true -> r = Some true)) as Hstop.
    { intros r. exists r, s2, (length k). rewrite Ha2, Ha. split_and!; [done|by rewrite <- Hk|lia|done]. }
    destruct w as [[[]|e]|].
    + destruct (IH (Z.max 0 (n - (Z.min CHUNK_SIZE n - Z.of_nat (length rest)))) s2) as (r' & sink' & k' & E' & Ha' & Hk' & Hend); [lia|].
      exists r', sink', (length k + k')%nat. rewrite E', Ha', Ha2, Ha, <- app_assoc, replicate_add, <- Hk.
      split_and!; [done|done|lia|]. intros Hr'. destruct (Hend Hr') as [Hx Hy]. split; [lia|done].
    + destruct (Hstop (Some false)) as (r' & sink' & k' & E' & Ha' & Hk' & Hend). exists r', sink', k'.
      split_and!; [done|done|done|]. intros Hx. by apply Hend in Hx.
    + destruct (Hstop None) as (r' & sink' & k' & E' & Ha' & Hk' & Hend). exists r', sink', k'.
      split_and!; [done|done|done|]. intros Hx. by apply Hend in Hx.
Qed.

End download_laws.

(** What was read before the answer: as many bytes as announced, or all there were. *)
Section upload_laws.
Context {Src REnv : Type} `{SourceLaws Src REnv}.

Lemma upload_loop_spec n (envs : list REnv) (source : Src) r source' :
  upload_loop n envs source = (r, source') ->
  exists b, produced source' = produced source ++ b /\
    (r = Some true -> n <= len b \/ exists env s0 s1, src_read env s0 = (Some (Ok Eof), s1) /\ source' = s1).
Proof.
  revert n source. induction envs as [|env envs IH]; intros n source; cbn [upload_loop];
    (destruct (Z.leb_spec n 0) as [Hz|Hz];
      [intros [= <- <-]; exists []; rewrite app_nil_r; split; [done|left; unfold len; cbn; lia]|]).
  - intros [= <- <-]. exists []. by rewrite app_nil_r.
  - destruct (src_read env source) as [[[[x|]|e]|] s1] eqn:Er; pose proof (read_chunk_law _ _ _ _ Er) as Hp.
    + destruct (src_consume s1 (len x)) as [[[]|e] s2] eqn:Ec; pose proof (consume_law _ _ _ _ Ec) as Hp2.
      * intros E. destruct (IH _ _ E) as (b & Hb & Hend). exists (x ++ b). rewrite Hb, Hp2, Hp, app_assoc. split; [done|].
        intros Hr. destruct (Hend Hr) as [Hl|Hl]; [left; rewrite len_app; lia|by right].
      * intros [= <- <-]. exists x. by rewrite Hp2, Hp.
    + intros [= <- <-]. exists []. split; [done|]. intros _. right. eauto.
    + intros [= <- <-]. by exists [].
    + intros [= <- <-]. by exists [].
Qed.

End upload_laws.

Lemma prepare_bounds to_str request base t :
  prepare_speedtest to_str request base = Ok t ->
  match t with
  | Download n => rq_method request = str "GET" /\ 1024 * 1024 <= n <= MAX_DOWNLOAD_MB * 1024 * 1024
  | Upload n => rq_method request = str "POST" /\ 1 <= n <= MAX_UPLOAD_MB * 1024 * 1024
  end.
Proof.
  unfold prepare_speedtest. case_bool_decide as Hg.
  - unfold download_size. destruct (strip_prefix _ _) as [a|]; [|done]. destruct (strip_suffix _ _) as [b|]; [|done].
    destruct (parse_u32 b) as [x|]; [|done]. destruct (Z.ltb_spec 0 x), (Z.leb_spec x MAX_DOWNLOAD_MB); cbn [andb]; [|done..].
    intros [= <-]. split; [done|lia].
  - case_bool_decide as Hp; [|done]. destruct (negb _); [done|]. unfold upload_size.
    destruct (header_get _ _) as [v|]; [|done]. destruct (to_str v) as [w|]; [|done]. destruct (parse_u32 w) as [x|]; [|done].
    destruct (Z.ltb_spec 0 x), (Z.leb_spec x (MAX_UPLOAD_MB * 1024 * 1024)); cbn [andb]; [|done..]. intros [= <-]. split; [done|lia].
Qed.

(** ** Properties *)

(** A speed test moves exactly the bytes it is for.  Whatever the request, a
    download is of 1 to 100 MiB and an upload of 1 byte to 120 MiB; whatever part of each
    chunk the sink accepts, the client is sent zeros, never more than the size, and if the
    end was sent, all of them and the end; and an upload is answered only after as many
    bytes as announced or the end of the stream. *)
Theorem speedtest_exact {Snk WEnv} `{SinkLaws Snk WEnv} {Src REnv} `{SourceLaws Src REnv} to_str request base t :
  prepare_speedtest to_str request base = Ok t ->
  match t with
  | Download n =>
      1024 * 1024 <= n <= MAX_DOWNLOAD_MB * 1024 * 1024 /\
      forall (envs : list (WEnv * WEnv)) (sink : Snk),
        exists r sink' k, run_download_test (Ok sink) n envs = Ret (r, Some sink') /\
          accepted sink' = accepted sink ++ replicate k 0 /\ Z.of_nat k <= n /\
          (r = Some true -> Z.of_nat k = n /\ ended sink' = true)
  | Upload n =>
      1 <= n <= MAX_UPLOAD_MB * 1024 * 1024 /\
      forall (envs : list REnv) (source : Src) r source', run_upload_test n envs source = (r, source') ->
        exists b, produced source' = produced source ++ b /\
          (r = Some (Some ok_response_headers) ->
             n <= len b \/ exists env s0 s1, src_read env s0 = (Some (Ok Eof), s1) /\ source' = s1)
  end.
Proof.
  intros Hp%prepare_bounds. destruct t as [n|n]; destruct Hp as [_ Hn]; (split; [lia|]).
  - intros envs sink. destruct (download_loop_spec n envs sink) as (r & sink' & k & E & Hk); [lia|].
    exists r, sink', k. unfold run_download_test. by rewrite E.
  - intros envs source r source'. unfold run_upload_test. destruct (upload_loop n envs source) as [o s1] eqn:E.
    apply upload_loop_spec in E as (b & Hb & Hend). intros Er. exists b.
    destruct o as [[]|]; injection Er as <- <-; (split; [done|]); auto; done.
Qed.

Section subscription_spec.
Context (to_str : bytes -> option bytes) (b64_decode : bytes -> option bytes)
  (to_json : SubscriptionResponse -> result ErrorKind bytes).

(** The [authorization] header of the request is [Basic] with the name and the password of
    the client; a name ends at the first colon. *)
Definition authorizes (h : headers) (client : Client) : Prop :=
  exists v encoded,
    header_get h (str "authorization") = Some v /\ to_str v = Some (str "Basic " ++ encoded) /\
    b64_decode (utf8_trim encoded) = Some (userpass (username client) (password client)) /\
    utf8_valid (userpass (username client) (password client)) = true /\ 0x3A ∉ username client.

(** The request is entitled to the data of [client] under [config]. *)
Record entitled (subscription : option SubscriptionConfig) (clients : list Client) (sni : bytes) (req : RequestHeaders)
    (config : SubscriptionConfig) (client : Client) : Prop := {
  en_config : subscription = Some config;
  en_host : sni = sc_hostname config;
  en_client : client ∈ clients;
  en_header : authorizes (rq_headers req) client;
  en_enabled : sc_enabled config = true;
  en_method : rq_method req = str "GET";
}.

(** The status of a refusal: the first check that the request fails. *)
Inductive refused (subscription : option SubscriptionConfig) (clients : list Client) (sni : bytes) (req : RequestHeaders)
  : Z -> Prop :=
| refused_absent : subscription = None -> refused subscription clients sni req 404
| refused_host config :
    subscription = Some config -> sni <> sc_hostname config -> refused subscription clients sni req 404
| refused_credentials config :
    subscription = Some config -> sni = sc_hostname config ->
    (forall client, client ∈ clients -> ~ authorizes (rq_headers req) client) ->
    refused subscription clients sni req 401
| refused_disabled config client :
    subscription = Some config -> sni = sc_hostname config -> client ∈ clients -> authorizes (rq_headers req) client ->
    sc_enabled config = false -> refused subscription clients sni req 403
| refused_method config client :
    subscription = Some config -> sni = sc_hostname config -> client ∈ clients -> authorizes (rq_headers req) client ->
    sc_enabled config = true -> rq_method req <> str "GET" -> refused subscription clients sni req 405.

(** [authenticate] decides the relation; the header determines name and password. *)
Lemma authenticate_basic_some clients h client :
  authenticate_basic to_str b64_decode clients h = Some client -> client ∈ clients /\ authorizes h client.
Proof.
  unfold authenticate_basic. intros Ea. repeat case_match; simplify_eq.
  apply List.find_some in Ea as [Hin Hc]. apply andb_true_iff in Hc as [Hu Hp]. apply bool_decide_eq_true in Hu, Hp. subst.
  split; [by apply list_elem_of_In|].
  match goal with E : split_once _ _ = Some _ |- _ => apply split_once_inv in E as [-> Hcolon] end.
  match goal with E : strip_prefix _ _ = Some _ |- _ => apply strip_prefix_spec in E as -> end.
  match goal with E : negb _ = false |- _ => apply negb_false_iff in E end.
  eexists _, _. by split_and!.
Qed.

Lemma authenticate_basic_complete clients h client :
  client ∈ clients -> authorizes h client ->
  exists client', authenticate_basic to_str b64_decode clients h = Some client' /\
    username client' = username client /\ password client' = password client.
Proof.
  intros Hin (v & encoded & Hv & Hs & Hd & Hu & Hc). unfold authenticate_basic.
  rewrite Hv, Hs, strip_prefix_app, Hd, Hu. cbn [negb]. unfold userpass. rewrite split_once_app by done.
  destruct (List.find _ clients) as [c|] eqn:Ef.
  - exists c. apply List.find_some in Ef as [_ Ef]. apply andb_true_iff in Ef as [E1 E2].
    apply bool_decide_eq_true in E1, E2. done.
  - apply list_elem_of_In in Hin. pose proof (List.find_none _ _ Ef _ Hin) as E. cbn in E.
    by rewrite !bool_decide_true in E.
Qed.

End subscription_spec.

(** C30: subscription data is served exactly to the requests that are entitled to it: a
    subscription is configured and enabled, the host name of the TLS session is its host,
    the request is a GET, and its [authorization] header carries the name and the password
    of a configured client.  Every such request gets the data of that client, unless the
    encoding of the body fails; every other one gets no body, and the status of the first
    check that it fails. *)
Theorem subscription_served to_str b64_decode to_json subscription clients sni req :
  (forall config client, entitled to_str b64_decode subscription clients sni req config client ->
     handle_subscription to_str b64_decode to_json subscription clients sni req =
     match to_json (subscription_response config client) with
     | Ok body => Ok (mkResponseHeaders HTTP_11 200
                        [(str "content-type", str "application/json"); (str "content-length", decimal (len body))],
                      Some body)
     | Err e => Err e
     end) /\
  ((forall config client, ~ entitled to_str b64_decode subscription clients sni req config client) ->
     exists r, handle_subscription to_str b64_decode to_json subscription clients sni req = Ok (r, None) /\
       refused to_str b64_decode subscription clients sni req (rp_status r) /\
       header_get (rp_headers r) (str "content-length") = Some (str "0")).
Proof.
  split.
  - intros config client [-> -> Hin Hauth Hen Hm]. unfold handle_subscription.
    rewrite bool_decide_true by done. cbn [negb].
    destruct (authenticate_basic_complete to_str b64_decode clients _ client Hin Hauth) as (c & -> & Eu & Ep).
    rewrite Hen, Hm. cbn [negb]. rewrite bool_decide_true by done. cbn [negb].
    unfold subscription_response. rewrite Eu, Ep. by destruct (to_json _).
  - intros Hno. unfold handle_subscription.
    destruct subscription as [config|]; [|eexists; split; [done|]; split; [by apply refused_absent|done]].
    case_bool_decide as Hsni; cbn [negb]; [|eexists; split; [done|]; split; [by eapply refused_host|done]].
    destruct (authenticate_basic to_str b64_decode clients (rq_headers req)) as [client|] eqn:Ea.
    + apply authenticate_basic_some in Ea as [Hin Hauth].
      destruct (sc_enabled config) eqn:Een; cbn [negb]; [|eexists; split; [done|]; split; [by eapply refused_disabled|done]].
      case_bool_decide as Hm; cbn [negb]; [by destruct (Hno config client)|].
      eexists; split; [done|]; split; [by eapply refused_method|done].
    + eexists; split; [done|]; split; [|done]. apply (refused_credentials _ _ _ _ _ _ config); [done|done|].
      intros client Hin Hauth. destruct (authenticate_basic_complete to_str b64_decode clients _ client Hin Hauth) as (c & E & _).
      congruence.
Qed.

(** Alice asks for her data. *)
Definition sample_subscription : SubscriptionConfig :=
  mkSubscription true (str "/subscription") (str "vpn.example.com") (str "192.0.2.1:443") None [] None None None.

Definition sample_subscriber : Client := mkClient (str "alice") (str "secret") None None.

Definition sample_subscription_request : RequestHeaders :=
  mkRequestHeaders (str "GET") (str "/subscription") None None HTTP_11
    [(str "authorization", str "Basic " ++ Base64Ref.b64_encode (str "alice:secret"))].

Lemma subscription_served_witness :
  handle_subscription Some Base64Ref.b64_decode (fun r => Ok (sr_username r)) (Some sample_subscription)
    [sample_subscriber] (str "vpn.example.com") sample_subscription_request =
  Ok (mkResponseHeaders HTTP_11 200 [(str "content-type", str "application/json"); (str "content-length", str "5")],
      Some (str "alice")).
Proof.
  apply (proj1 (subscription_served Some Base64Ref.b64_decode (fun r => Ok (sr_username r)) (Some sample_subscription)
    [sample_subscriber] (str "vpn.example.com") sample_subscription_request) sample_subscription sample_subscriber).
  split; [done|done|left| |done|done]. eexists _, (Base64Ref.b64_encode (str "alice:secret")). split_and!;
    [vm_compute; reflexivity|vm_compute; reflexivity|vm_compute; reflexivity|vm_compute; reflexivity|].
  apply split_once_None. vm_compute. reflexivity.
Defined.

Lemma speed_running_tasks to_str base s :
  rtc (speed_step to_str base) (mkSpeedSession 0 0 true) s -> sps_running s = Z.of_nat (sps_tasks s).
Proof.
  intros Hs. remember (mkSpeedSession 0 0 true) as s0 eqn:E0. assert (sps_running s0 = Z.of_nat (sps_tasks s0)) as H0 by (by subst).
  clear E0. induction Hs as [s|s s1 s2 Hst _ IH]; [done|]. apply IH. destruct Hst; cbn; lia.
Qed.

(** The session of a speed test is not closed by its timeout while a test runs: the
    counter is the number of running tests whatever the order of the events. *)
Theorem speedtest_session_kept to_str base s l :
  rtc (speed_step to_str base) (mkSpeedSession 0 0 true) s ->
  speedtest_round to_str base (sps_running s) l = Break true -> sps_tasks s = O.
Proof.
  intros Hs%speed_running_tasks. unfold speedtest_round. destruct l as [x| |e|]; [by destruct (prepare_speedtest _ _ _)|done|done|].
  destruct (Z.ltb_spec 0 (sps_running s)); [done|]. intros _. lia.
Qed.

(** A shutdown completes only when every guard is gone and no new one can be had, and a
    handler made before [submit] is notified by it. *)
Theorem shutdown_completes s s' :
  completed s = true -> rtc shutdown_step s s' ->
  completed s' = true /\ sd_guards s' = O /\ (completion_guard s').1 = false /\
  forall i, (i < length (sd_handlers s'))%nat -> (notification_wait i (submit s')).1 = Some tt.
Proof.
  intros Hc Hs. assert (completed s' = true) as Hc'.
  { revert Hc. induction Hs as [s|s s1 s2 Hst _ IH]; [done|]. intros Hc. apply IH. unfold completed in *.
    apply andb_true_iff in Hc as [H1 H2]. apply negb_true_iff in H1. apply Nat.eqb_eq in H2.
    destruct Hst as [s|s|i s|s|s Hg|s]; cbn; rewrite ?H1, ?H2; try done; try lia.
    - unfold notification_wait. destruct (sd_handlers s !! i) as [[]|]; cbn; by rewrite H1, H2.
    - unfold completion_guard. rewrite H1. cbn. by rewrite H1, H2. }
  split; [done|]. unfold completed in Hc'. apply andb_true_iff in Hc' as [H1 H2]. apply negb_true_iff in H1. apply Nat.eqb_eq in H2.
  split_and!; [done|unfold completion_guard; by rewrite H1|]. intros i Hi. unfold notification_wait, submit. cbn.
  destruct (lookup_lt_is_Some_2 _ _ Hi) as [b Hb]. by rewrite list_lookup_fmap, Hb.
Qed.

(** A download of one mebibyte over a TCP stream. *)
Lemma speedtest_exact_witness :
  prepare_speedtest Some (mkRequestHeaders (str "GET") (str "/speedtest/1mb.bin") None None HTTP_11 []) (Some (str "/speedtest"))
    = Ok (Download 1048576) /\
  1024 * 1024 <= 1048576 <= MAX_DOWNLOAD_MB * 1024 * 1024.
Proof.
  split; [vm_compute; reflexivity|].
  apply (speedtest_exact (Snk := StreamTx) (Src := StreamRx) Some
    (mkRequestHeaders (str "GET") (str "/speedtest/1mb.bin") None None HTTP_11 []) (Some (str "/speedtest")) (Download 1048576)).
  vm_compute. reflexivity.
Defined.
