(* ===== verification/Quic.v ===== *)
(** * The QUIC multiplexer

    lib/src/quic_multiplexer.rs: one UDP socket carries many QUIC connections.  The
    multiplexer validates the address of a new client by a token in a Retry packet, keeps
    a table of the connections and the deadlines of their timers, and hands out a socket
    per established connection, which turns the events of HTTP/3 into requests.
    [quiche] is a parameter: its answers are fields of the environments. *)

From S2P Require Import Prelude.
From S2P Require Import Codecs.
From S2P Require Import Varint.
From S2P Require Import NetUtils.
From S2P Require Import Auth.
From S2P Require Import Tunnel.
From S2P Require Import Pipe.
From S2P Require Import ForwardedStream.
From S2P Require Import TlsDemux.
From S2P Require Import Http1Codec.

Definition TOKEN_PREFIX_SIZE : Z := 16.
(** [quiche::MAX_CONN_ID_LEN]. *)
Definition MAX_CONN_ID_LEN : Z := 20.
Definition READ_BUDGET : nat := 1024.
Definition READ_CHUNK_SIZE : Z := 64 * 1024.

(** ** Tokens *)

(** The fields of [quiche::Header] that matter, with whether the version is supported. *)
Record QuicHeader : Type := mkQuicHeader {
  qh_initial : bool;
  qh_version_supported : bool;
  qh_dcid : bytes;
  qh_token : option bytes;
}.

Definition socket_addr_to_vec (a : SocketAddr) : bytes :=
  match addr_ip a with IpV4 o | IpV6 o => o ++ be_bytes 2 (addr_port a) end.

Definition mint_token (header : QuicHeader) (prefix : bytes) (peer : SocketAddr) : bytes :=
  prefix ++ socket_addr_to_vec peer ++ qh_dcid header.

Definition validate_token (prefix : bytes) (peer : SocketAddr) (token : bytes) : option bytes :=
  match strip_prefix prefix token with
  | Some token => strip_prefix (socket_addr_to_vec peer) token
  | None => None
  end.

(** ** The multiplexer *)

Section mux.
Context {Identity : Type}.

Notation Meta := (ConnectionMeta Identity).

(** A handshaking connection carries the metadata it was accepted with. *)
Inductive QuicConnection : Type := Handshake (meta : Meta) | Established.

(** Connections and deadlines are kept by connection identifier. *)
Record QuicMultiplexer : Type := mkMux {
  qm_connections : gmap bytes QuicConnection;
  qm_deadlines : gmap bytes Z;
  qm_closest_deadline : option Z;
  qm_token_prefix : bytes;
}.

(** What [listen] hands out: the identifier names the connection in the table. *)
Record QuicSocket : Type := mkSocket {
  qs_conn_id : bytes;
  qs_peer : SocketAddr;
  qs_meta : Meta;
}.

Definition qm_new (token_prefix : bytes) : QuicMultiplexer := mkMux ∅ ∅ None token_prefix.

Definition with_connections (c : gmap bytes QuicConnection) (s : QuicMultiplexer) : QuicMultiplexer :=
  mkMux c (qm_deadlines s) (qm_closest_deadline s) (qm_token_prefix s).
Definition with_deadlines (d : gmap bytes Z) (s : QuicMultiplexer) : QuicMultiplexer :=
  mkMux (qm_connections s) d (qm_closest_deadline s) (qm_token_prefix s).
Definition with_closest (c : option Z) (s : QuicMultiplexer) : QuicMultiplexer :=
  mkMux (qm_connections s) (qm_deadlines s) c (qm_token_prefix s).

(** [deadlines.values().min()]. *)
Definition min_deadline (d : gmap bytes Z) : option Z :=
  map_fold (fun _ x acc => match acc with Some y => Some (Z.min x y) | None => Some x end) None d.

Definition recompute_closest (s : QuicMultiplexer) : QuicMultiplexer := with_closest (min_deadline (qm_deadlines s)) s.

Definition update_connection_deadline (now : Z) (conn_id : bytes) (duration : Z) (s : QuicMultiplexer) : QuicMultiplexer :=
  recompute_closest (with_deadlines (<[conn_id := now + duration]> (qm_deadlines s)) s).

(** The clock when the timer of a connection is read, and what [timeout] answers then. *)
Record TimerAnswers : Type := mkAnswers {
  ta_clock : bytes -> Z;
  ta_timeout : bytes -> option Z;
}.

(** The loop of [process_timeouts] over the expired connections, with the connections
    whose [on_timeout] it calls. *)
Fixpoint expire_all (ta : TimerAnswers) (timedout : list bytes) (s : QuicMultiplexer) : list bytes * QuicMultiplexer :=
  match timedout with
  | [] => ([], s)
  | conn_id :: timedout =>
      let s := with_deadlines (delete conn_id (qm_deadlines s)) s in
      match qm_connections s !! conn_id with
      | None => expire_all ta timedout s
      | Some _ =>
          let (called, s) :=
            expire_all ta timedout
              match ta_timeout ta conn_id with
              | Some t => update_connection_deadline (ta_clock ta conn_id) conn_id t s
              | None => s
              end in
          (conn_id :: called, s)
      end
  end.

Definition process_timeouts (now : Z) (ta : TimerAnswers) (s : QuicMultiplexer) : list bytes * QuicMultiplexer :=
  let timedout := base.filter (fun p => p.2 <= now) (map_to_list (qm_deadlines s)) in
  let (called, s) := expire_all ta timedout.*1 s in
  (called, recompute_closest s).

Inductive SocketMessage : Type :=
| SocketClose (conn_id : bytes)
| RefreshDeadline (conn_id : bytes).

Definition on_socket_message (ta : TimerAnswers) (m : SocketMessage) (s : QuicMultiplexer) : QuicMultiplexer :=
  match m with
  | SocketClose conn_id => with_connections (delete conn_id (qm_connections s)) s
  | RefreshDeadline conn_id =>
      match qm_connections s !! conn_id with
      | None => s
      | Some _ =>
          match ta_timeout ta conn_id with
          | Some d => update_connection_deadline (ta_clock ta conn_id) conn_id d s
          | None =>
              match qm_deadlines s !! conn_id with
              | Some _ => recompute_closest (with_deadlines (delete conn_id (qm_deadlines s)) s)
              | None => s
              end
          end
      end
  end.

(** [process_pending_socket_messages], for the messages in the channel. *)
Definition process_pending_socket_messages (l : list (TimerAnswers * SocketMessage)) (s : QuicMultiplexer)
  : QuicMultiplexer := fold_left (fun s m => on_socket_message m.1 m.2 s) l s.

(** [remove_closed_connections]; the sockets of the established ones are told. *)
Definition remove_closed_connections (is_closed : bytes -> bool) (s : QuicMultiplexer) : list bytes * QuicMultiplexer :=
  let closed := base.filter (fun p => is_closed p.1 = true) (map_to_list (qm_connections s)) in
  (omap (fun p => match p.2 with Established => Some p.1 | Handshake _ => None end) closed,
   with_deadlines (fold_left (fun d p => delete p.1 d) closed (qm_deadlines s))
     (with_connections (fold_left (fun c p => delete p.1 c) closed (qm_connections s)) s)).

(** *** Packets *)

Inductive UnknownPacketStatus : Type := ProcessPacket | SkipPacket.

(** What is sent to the peer of a packet without a connection. *)
Inductive QuicReply : Type := VersionNegotiation | Retry (token : bytes).

(** The outcomes of a packet: of sending a reply, of [accept] with whether the connection
    is established at once, of receiving the packet with whether the connection is closed,
    draining or established then, and of opening the HTTP/3 session; the name the client
    asked for, and the demultiplexer at that time. *)
Record PacketEnv : Type := mkPacketEnv {
  ev_send : result ErrorKind unit;
  ev_accept : result ErrorKind bool;
  ev_recv : result ErrorKind unit;
  ev_is_closed : bool;
  ev_is_draining : bool;
  ev_is_established : bool;
  ev_h3 : result ErrorKind unit;
  ev_server_name : option bytes;
  ev_demux : TlsDemux Identity;
}.

(** [ring::hmac::sign] with the key of the process; the entry a hash map yields first. *)
Context (hmac : bytes -> bytes) (first_host : gmap bytes (@TlsDemux.Host Identity) -> option (bytes * @TlsDemux.Host Identity)).

Definition get_quic_connection_bootstrap_meta (demux : TlsDemux Identity) : M Meta :=
  let! (name, host) := unwrap (first_host (main_hosts demux)) in
  Ret (mkConnectionMeta name Http3 ChTunnel (identity host) None).

Definition on_unknown_quic_packet (env : PacketEnv) (peer : SocketAddr) (header : QuicHeader) (s : QuicMultiplexer)
  : result ErrorKind UnknownPacketStatus * option QuicReply :=
  let reply (r : QuicReply) := match ev_send env with Ok _ => (Ok SkipPacket, Some r) | Err e => (Err e, None) end in
  if negb (qh_initial header) then (Err Other, None)
  else if negb (qh_version_supported header) then reply VersionNegotiation
  else
    match qh_token header with
    | None => (Err Other, None)
    | Some quic_token =>
        let scid := take (Z.to_nat MAX_CONN_ID_LEN) (hmac (qh_dcid header)) in
        if len quic_token =? 0 then reply (Retry (mint_token header (qm_token_prefix s) peer))
        else if negb (len scid =? len (qh_dcid header)) then (Err Other, None)
        else (Ok ProcessPacket, None)
    end.

(** The metadata of an established connection: those of the name asked for, where the
    demultiplexer has it for HTTP/3. *)
Definition socket_meta (env : PacketEnv) (meta : Meta) : M Meta :=
  let sni := default [] (ev_server_name env) in
  if len sni =? 0 then Ret meta
  else
    let! r := select (ev_demux env) [as_alpn Http3] sni in
    Ret (match r with Ok m => m | Err _ => meta end).

(** [finalize_established_connection]: the connection enters the table with a new socket
    unless HTTP/3 fails. *)
Definition finalize_established_connection (env : PacketEnv) (conn_id : bytes) (meta : Meta) (peer : SocketAddr)
    (s : QuicMultiplexer) : M (result ErrorKind QuicSocket * QuicMultiplexer) :=
  let! meta := socket_meta env meta in
  match ev_h3 env with
  | Err e => Ret (Err e, s)
  | Ok _ => Ret (Ok (mkSocket conn_id peer meta), with_connections (<[conn_id := Established]> (qm_connections s)) s)
  end.

(** What a packet gives: a new socket, or a connection to be flushed, with whether its
    socket is to be polled and whether it was closed because of an error. *)
Inductive PacketResult : Type :=
| NewSocket (sock : QuicSocket)
| Background (poll close : bool)
| NoConnection.

Definition finalized (r : result ErrorKind QuicSocket) : PacketResult :=
  match r with Ok sock => NewSocket sock | Err _ => Background false true end.

(** [on_new_connection]; the token of the header is there by now. *)
Definition on_new_connection (env : PacketEnv) (peer : SocketAddr) (header : QuicHeader) (s : QuicMultiplexer)
  : M (PacketResult * QuicMultiplexer) :=
  let! token := unwrap (qh_token header) in
  match validate_token (qm_token_prefix s) peer token with
  | None => Ret (NoConnection, s)
  | Some odcid =>
      match ev_accept env with
      | Err _ => Ret (NoConnection, s)
      | Ok is_established =>
          let! meta := get_quic_connection_bootstrap_meta (ev_demux env) in
          if is_established then
            let! (r, s) := finalize_established_connection env (qh_dcid header) meta peer s in
            Ret (finalized r, s)
          else Ret (Background false false, with_connections (<[qh_dcid header := Handshake meta]> (qm_connections s)) s)
      end
  end.

Inductive HandshakeStatus : Type := InProgress | CompleteHandshake.

Definition proceed_handshake (env : PacketEnv) : result ErrorKind HandshakeStatus :=
  let? _ := ev_recv env in
  if ev_is_closed env then Err Other
  else if ev_is_draining env then Ok InProgress
  else if negb (ev_is_established env) then Ok InProgress
  else Ok CompleteHandshake.

Definition on_quic_packet (env : PacketEnv) (peer : SocketAddr) (header : QuicHeader) (s : QuicMultiplexer)
  : M (PacketResult * option QuicReply * QuicMultiplexer) :=
  match qm_connections s !! qh_dcid header with
  | None =>
      match on_unknown_quic_packet env peer header s with
      | (Ok ProcessPacket, reply) =>
          let! (r, s) := on_new_connection env peer header s in Ret (r, reply, s)
      | (_, reply) => Ret (NoConnection, reply, s)
      end
  | Some (Handshake meta) =>
      match proceed_handshake env with
      | Ok InProgress => Ret (Background false false, None, s)
      | Ok CompleteHandshake =>
          let s := with_deadlines (delete (qh_dcid header) (qm_deadlines s)) s in
          let s := with_connections (delete (qh_dcid header) (qm_connections s)) s in
          let! (r, s) := finalize_established_connection env (qh_dcid header) meta peer s in
          Ret (finalized r, None, s)
      | Err _ => Ret (Background false true, None, s)
      end
  | Some Established =>
      match ev_recv env with
      | Ok _ => Ret (Background true false, None, s)
      | Err _ => Ret (Background false true, None, s)
      end
  end.

(** A call of [try_recv_from]: a packet with its parsed header, if it parses, no packet, or
    an error. *)
Inductive UdpRead : Type :=
| UdpPacket (peer : SocketAddr) (header : option QuicHeader) (env : PacketEnv)
| UdpWouldBlock
| UdpError (e : ErrorKind).

(** The first loop of [read_udp_socket]: the new socket, the connections to attend to and
    the replies sent; [budget] iterations are left. *)
Fixpoint read_packets (budget : nat) (reads : list UdpRead) (pending : list bytes) (replies : list QuicReply) (s : QuicMultiplexer)
  : M (result ErrorKind (option QuicSocket * list bytes) * list QuicReply * QuicMultiplexer) :=
  match budget, reads with
  | O, _ | _, [] | _, UdpWouldBlock :: _ => Ret (Ok (None, pending), replies, s)
  | _, UdpError e :: _ => Ret (Err e, replies, s)
  | S budget, UdpPacket peer None env :: reads => read_packets budget reads pending replies s
  | S budget, UdpPacket peer (Some header) env :: reads =>
      let! (r, reply, s) := on_quic_packet env peer header s in
      let replies := replies ++ option_list reply in
      let attend := if bool_decide (qh_dcid header ∈ pending) then pending else pending ++ [qh_dcid header] in
      match r with
      | NewSocket sock => Ret (Ok (Some sock, attend), replies, s)
      | Background _ _ => read_packets budget reads attend replies s
      | NoConnection => read_packets budget reads pending replies s
      end
  end.

(** The second loop: the timers of these connections are set. *)
Definition attend_pending (ta : TimerAnswers) (pending : list bytes) (s : QuicMultiplexer) : QuicMultiplexer :=
  fold_left (fun s conn_id =>
    match ta_timeout ta conn_id with
    | Some t => update_connection_deadline (ta_clock ta conn_id) conn_id t s
    | None => s
    end) pending s.

Definition read_udp_socket (ta : TimerAnswers) (reads : list UdpRead) (s : QuicMultiplexer)
  : M (result ErrorKind (option QuicSocket) * list QuicReply * QuicMultiplexer) :=
  let! (o, replies, s) := read_packets READ_BUDGET reads [] [] s in
  match o with
  | Err e => Ret (Err e, replies, s)
  | Ok (sock, pending) => Ret (Ok sock, replies, attend_pending ta pending s)
  end.

(** What ends the wait of [listen]. *)
Inductive MuxEvent : Type :=
| MuxTimeout
| MuxMessage (m : SocketMessage)
| MuxRead (reads : list UdpRead)
| MuxFailed (e : ErrorKind).

(** Whether the wait of [listen] ends by its timer at [now]. *)
Definition timer_fires (now : Z) (s : QuicMultiplexer) : bool :=
  match qm_closest_deadline s with Some c => c <=? now | None => false end.

(** An iteration: its event, the clock of [process_timeouts], the answers of the
    connections in each phase and the messages that are pending after the event. *)
Record MuxRound : Type := mkMuxRound {
  mr_event : MuxEvent;
  mr_now : Z;
  mr_expired : TimerAnswers;
  mr_answers : TimerAnswers;
  mr_pending : list (TimerAnswers * SocketMessage);
  mr_closed : bytes -> bool;
}.

(** An iteration of [listen]: a new socket or an error ends it before the pending
    messages. *)
Definition mux_round (r : MuxRound) (s : QuicMultiplexer)
  : M (option (result ErrorKind QuicSocket) * list QuicReply * QuicMultiplexer) :=
  let finish s := (remove_closed_connections (mr_closed r) (process_pending_socket_messages (mr_pending r) s)).2 in
  match mr_event r with
  | MuxFailed e => Ret (Some (Err e), [], s)
  | event =>
      let s := (process_timeouts (mr_now r) (mr_expired r) s).2 in
      match event with
      | MuxMessage m => Ret (None, [], finish (on_socket_message (mr_answers r) m s))
      | MuxRead reads =>
          let! (o, replies, s) := read_udp_socket (mr_answers r) reads s in
          match o with
          | Err e => Ret (Some (Err e), replies, s)
          | Ok (Some sock) => Ret (Some (Ok sock), replies, s)
          | Ok None => Ret (None, replies, finish s)
          end
      | _ => Ret (None, [], finish s)
      end
  end.

(** The states of a multiplexer; [listen] is called again after a socket or an error. *)
Inductive mux_reach (prefix : bytes) : QuicMultiplexer -> Prop :=
| mux_start : mux_reach prefix (qm_new prefix)
| mux_step s r o replies s' :
    mux_reach prefix s -> mux_round r s = Ret (o, replies, s') -> mux_reach prefix s'.

End mux.

(** ** The socket of a connection *)

(** A packet [send] has produced, with what [try_send_to] said of it; a full buffer of
    the system drops the packet. *)
Inductive Flushed : Type :=
| FlushSent
| FlushNoRoom
| FlushSendError (e : ErrorKind)
| FlushFailed.

(** [udp_socket_send_to]. *)
Definition udp_socket_send_to (f : Flushed) : result ErrorKind unit :=
  match f with
  | FlushSendError e => if bool_decide (e = WouldBlock) then Ok tt else Err e
  | FlushFailed => Err Other
  | FlushSent | FlushNoRoom => Ok tt
  end.

(** [flush_pending_data] of the module, over what [send] gives until it is done. *)
Fixpoint flush_pending_data (l : list Flushed) : result ErrorKind unit :=
  match l with
  | [] => Ok tt
  | f :: l => let? _ := udp_socket_send_to f in flush_pending_data l
  end.

(** The method of [QuicSocket]: the multiplexer is told in any case. *)
Definition socket_flush (conn_id : bytes) (l : list Flushed) : result ErrorKind unit * SocketMessage :=
  (flush_pending_data l, RefreshDeadline conn_id).

(** What is buffered of a body: the pieces [recv_body] gives, as far as there is room for
    them, or its error. *)
Inductive BodyPiece : Type := BodyBytes (b : bytes) | BodyError.

(** The loop of [read]: [room] is left in the buffer. *)
Fixpoint recv_body_loop (room : Z) (acc : bytes) (l : list BodyPiece) : result ErrorKind (option bytes) * list BodyPiece :=
  match l with
  | [] => (Ok (if 0 <? len acc then Some acc else None), [])
  | BodyError :: l => (Err Other, l)
  | BodyBytes b :: l =>
      if len b <? room then recv_body_loop (room - len b) (acc ++ b) l
      else (Ok (Some (acc ++ take (Z.to_nat room) b)),
            if len b =? room then l else BodyBytes (drop (Z.to_nat room) b) :: l)
  end.

Definition socket_read (flush : list Flushed) (l : list BodyPiece) : result ErrorKind (option bytes) * list BodyPiece :=
  let (r, l) := recv_body_loop READ_CHUNK_SIZE [] l in
  (let? chunk := r in let? _ := flush_pending_data flush in Ok chunk, l).

(** The outcomes of [send_body]. *)
Inductive SendBody : Type := BodySent (n : nat) | BodyBlocked | BodySendError.

Definition socket_write (o : SendBody) (flush : list Flushed) (data : bytes) : M (result ErrorKind bytes) :=
  let! rest :=
    match o with
    | BodySent n => if (n <=? length data)%nat then Ret (Ok (drop n data)) else Panic
    | BodyBlocked => Ret (Ok data)
    | BodySendError => Ret (Err Other)
    end in
  Ret (let? data := rest in let? _ := flush_pending_data flush in Ok data).

(** [h3::Connection::send_response] with what it says of a stream without room. *)
Inductive SendHeaders : Type := HeadersSent | HeadersBlocked | HeadersFailed.

(** The header list of a response: the status first. *)
Definition response_list (r : ResponseHeaders) : list (bytes * bytes) :=
  (str ":status", status_str (rp_status r)) :: rp_headers r.

Definition socket_send_response (o : SendHeaders) (flush : list Flushed) : result ErrorKind unit :=
  match o with
  | HeadersSent => flush_pending_data flush
  | HeadersBlocked => Err WouldBlock
  | HeadersFailed => Err Other
  end.

Definition notify_stream_waiting_writable (stream_id : Z) (waiting : gset Z) : gset Z := {[stream_id]} ∪ waiting.

(** The calls on the connection that end a direction of a stream, or all of it. *)
Inductive ShutdownCall : Type :=
| StreamFin (stream_id : Z)
| StreamShutdownRead (stream_id : Z)
| BodyFin (stream_id : Z)
| ConnectionClose.

Inductive ShutdownDirection : Type := ShutRead | ShutWrite.

(** [stream_shutdown] would drop unsent data, so that the write side is ended by a FIN. *)
Definition shutdown_stream (stream_id : Z) (direction : ShutdownDirection) : list ShutdownCall :=
  match direction with ShutWrite => [StreamFin stream_id] | ShutRead => [StreamShutdownRead stream_id] end.

(** [writable] are the streams [quic_conn.writable()] names, [close] is what closing says. *)
Definition graceful_shutdown (writable : list Z) (close : result ErrorKind unit) (flush : list Flushed)
  : list ShutdownCall * result ErrorKind unit :=
  ((BodyFin <$> writable) ++ [ConnectionClose],
   match close with Ok _ => flush_pending_data flush | Err _ => Err Other end).

(** [h3::Event] and [h3::Error], as far as they are told apart. *)
Inductive H3Event : Type := H3Headers (list : list (bytes * bytes)) | H3Data | H3Finished | H3Reset | H3PriorityUpdate | H3GoAway.
Inductive H3Poll : Type := H3Polled (stream_id : Z) (ev : H3Event) | H3Done | H3Failed.

Inductive QuicSocketEvent : Type :=
| SockRequest (stream_id : Z) (request : RequestHeaders)
| SockReadable (stream_id : Z)
| SockWritable (streams : list Z)
| SockClose (stream_id : Z).

(** The calls of the builders of a request and of its URI. *)
Inductive BuilderCall : Type := CallMethod (v : bytes) | CallHeader (name v : bytes).
Inductive UriCall : Type := CallScheme (v : bytes) | CallAuthority (v : bytes) | CallPath (v : bytes).

Section socket.
(** [HeaderName::from_lowercase], and the builders of the [http] crate: a URI from its
    calls, a request of version HTTP/3 from its calls and a URI. *)
Context (from_lowercase : bytes -> option bytes) (build_uri : list UriCall -> option Uri)
  (build_request : list BuilderCall -> Uri -> option RequestHeaders).

(** The loop over the headers. *)
Fixpoint request_calls (l : list (bytes * bytes)) (calls : list BuilderCall) (uri : list UriCall)
  : result ErrorKind (list BuilderCall * list UriCall) :=
  match l with
  | [] => Ok (calls, uri)
  | (name, value) :: l =>
      if bool_decide (name = str ":method") then request_calls l (calls ++ [CallMethod value]) uri
      else if bool_decide (name = str ":scheme") then request_calls l calls (uri ++ [CallScheme value])
      else if bool_decide (name = str ":authority") then request_calls l calls (uri ++ [CallAuthority value])
      else if bool_decide (name = str ":path") then request_calls l calls (uri ++ [CallPath value])
      else
        match from_lowercase name with
        | Some name => request_calls l (calls ++ [CallHeader name value]) uri
        | None => Err InvalidData
        end
  end.

Definition h3_on_request (stream_id : Z) (headers : list (bytes * bytes)) : result ErrorKind QuicSocketEvent :=
  let? c := request_calls headers [] [] in
  match build_uri c.2 with
  | None => Err InvalidData
  | Some uri =>
      match build_request c.1 uri with
      | Some r => Ok (SockRequest stream_id r)
      | None => Err Other
      end
  end.

(** [process_pending_h3_events], with the status of the response it sends. *)
Definition process_pending_h3_events (p : H3Poll) : result ErrorKind (option QuicSocketEvent) * option (Z * Z) :=
  match p with
  | H3Polled stream_id (H3Headers l) =>
      match h3_on_request stream_id l with
      | Ok x => (Ok (Some x), None)
      | Err e => (Err e, Some (stream_id, 400))
      end
  | H3Polled stream_id H3Data => (Ok (Some (SockReadable stream_id)), None)
  | H3Polled stream_id H3Finished | H3Polled stream_id H3Reset => (Ok (Some (SockClose stream_id)), None)
  | H3Polled _ H3PriorityUpdate | H3Done => (Ok None, None)
  | H3Polled _ H3GoAway => (Err UnexpectedEof, None)
  | H3Failed => (Err Other, None)
  end.

(** [http3_data_frame_overhead(1) + 1]. *)
Definition MIN_USABLE_QUIC_STREAM_CAPACITY : M Z := let! n := http3_data_frame_overhead 1 in Ret (n + 1).

(** The streams that wait and have room for a frame; a stream whose capacity is not known
    is woken too. *)
Definition wakeable (min : Z) (capacity : Z -> option Z) (id : Z) : bool :=
  match capacity id with Some x => min <=? x | None => true end.

Inductive MultiplexerMessage : Type := PollH3 | CloseMessage.

(** An iteration of [QuicSocket::listen]: the poll, the capacities of the streams, the
    message of the multiplexer when it waits for one, and whether the connection is closed
    then.  [None] is another iteration; the message is the one sent to the multiplexer. *)
Definition socket_round (conn_id : bytes) (p : H3Poll) (capacity : Z -> option Z) (m : option MultiplexerMessage)
    (is_closed : bool) (waiting : gset Z)
  : M (option (result ErrorKind QuicSocketEvent) * option SocketMessage * gset Z) :=
  let finish event waiting :=
    if is_closed then Ret (Some (Err UnexpectedEof), Some (SocketClose conn_id), waiting)
    else Ret (match event with Some ev => Some (Ok ev) | None => None end, None, waiting) in
  match (process_pending_h3_events p).1 with
  | Err e => Ret (Some (Err e), None, waiting)
  | Ok (Some ev) => finish (Some ev) waiting
  | Ok None =>
      let! min := MIN_USABLE_QUIC_STREAM_CAPACITY in
      let writable := base.filter (fun id => wakeable min capacity id = true) (elements waiting) in
      let waiting := base.filter (fun id => id ∉ writable) waiting in
      match writable with
      | _ :: _ => finish (Some (SockWritable writable)) waiting
      | [] =>
          match m with
          | None => Ret (Some (Err UnexpectedEof), None, waiting)
          | Some PollH3 => Ret (None, None, waiting)
          | Some CloseMessage => finish None waiting
          end
      end
  end.

End socket.

(** ** Lemmas: deadlines *)

Section deadlines.
Context {Identity : Type} (hmac : bytes -> bytes) (first_host : gmap bytes (@TlsDemux.Host Identity) -> option (bytes * @TlsDemux.Host Identity)).

Notation Mux := (@QuicMultiplexer Identity).
Implicit Types s : Mux.

(** The timer of [listen] is not later than any deadline. *)
Definition timer_ok s : Prop :=
  forall id d, qm_deadlines s !! id = Some d -> exists c, qm_closest_deadline s = Some c /\ c <= d.

Lemma min_deadline_le d id x : d !! id = Some x -> exists c, min_deadline d = Some c /\ c <= x.
Proof.
  unfold min_deadline. revert x.
  apply (map_fold_weak_ind (fun acc d => forall x, d !! id = Some x -> exists c, acc = Some c /\ c <= x)); [done|].
  intros i y m acc Hi IH x. destruct (decide (i = id)) as [->|Hne].
  - rewrite lookup_insert_eq. intros [= ->]. destruct acc as [z|]; eexists; (split; [done|]); lia.
  - rewrite lookup_insert_ne by done. intros H. destruct (IH x H) as (c & -> & Hc). eexists. split; [done|]. lia.
Qed.

Lemma recompute_timer_ok s : timer_ok (recompute_closest s).
Proof. intros id d H. by apply (min_deadline_le _ id). Qed.

Lemma delete_timer_ok id s : timer_ok s -> timer_ok (with_deadlines (delete id (qm_deadlines s)) s).
Proof. intros H i d. cbn. intros [_ Hd]%lookup_delete_Some. by apply (H i). Qed.

Lemma connections_timer_ok c s : timer_ok s -> timer_ok (with_connections c s).
Proof. intros H. exact H. Qed.

Lemma update_timer_ok now id d s : timer_ok (update_connection_deadline now id d s).
Proof. apply recompute_timer_ok. Qed.

Hint Resolve recompute_timer_ok delete_timer_ok connections_timer_ok update_timer_ok : core.

Lemma message_timer_ok ta m s : timer_ok s -> timer_ok (on_socket_message ta m s).
Proof. intros H. destruct m as [id|id]; cbn [on_socket_message]; repeat case_match; eauto. Qed.

Lemma messages_timer_ok l s : timer_ok s -> timer_ok (process_pending_socket_messages l s).
Proof.
  unfold process_pending_socket_messages. revert s. induction l as [|m l IH]; intros s H; [done|]. apply IH. by apply message_timer_ok.
Qed.

Lemma removed_timer_ok closed s : timer_ok s -> timer_ok (remove_closed_connections closed s).2.
Proof.
  intros H. unfold remove_closed_connections. cbn [snd]. generalize (base.filter (fun p => closed p.1 = true) (map_to_list (qm_connections s))).
  intros l id d. cbn. intros Hd. apply (H id).
  revert Hd. generalize (qm_deadlines s). induction l as [|p l IH]; intros m; [done|]. cbn. intros Hd%IH.
  by apply lookup_delete_Some in Hd as [_ Hd].
Qed.

Lemma finalize_timer_ok env id meta peer s r s' :
  finalize_established_connection env id meta peer s = Ret (r, s') -> timer_ok s -> timer_ok s'.
Proof.
  unfold finalize_established_connection. destruct (socket_meta env meta) as [m|]; cbn [bindM]; [|done].
  destruct (ev_h3 env); intros [= <- <-]; eauto.
Qed.

Lemma packet_timer_ok env peer h s r reply s' :
  on_quic_packet hmac first_host env peer h s = Ret (r, reply, s') -> timer_ok s -> timer_ok s'.
Proof.
  intros E H. unfold on_quic_packet in E. destruct (qm_connections s !! qh_dcid h) as [[meta|]|].
  - destruct (proceed_handshake env) as [[]|]; [by simplify_eq| |by simplify_eq].
    destruct (finalize_established_connection _ _ _ _ _) as [[f s1]|] eqn:Ef; cbn [bindM] in E; [|done].
    injection E as <- <- <-. eapply finalize_timer_ok; [exact Ef|]. by apply connections_timer_ok, delete_timer_ok.
  - destruct (ev_recv env); by simplify_eq.
  - destruct (on_unknown_quic_packet hmac env peer h s) as [[[]|] reply'] eqn:Eu; [|by simplify_eq..].
    unfold on_new_connection in E. destruct (qh_token h) as [token|]; cbn [unwrap bindM] in E; [|done].
    destruct (validate_token _ _ _); cbn [bindM] in E; [|by simplify_eq].
    destruct (ev_accept env) as [est|]; cbn [bindM] in E; [|by simplify_eq].
    destruct (get_quic_connection_bootstrap_meta _ _) as [meta|]; cbn [bindM] in E; [|done].
    destruct est; [|cbn [bindM] in E; by simplify_eq].
    destruct (finalize_established_connection _ _ _ _ _) as [[f s1]|] eqn:Ef; cbn [bindM] in E; [|done].
    injection E as <- <- <-. by eapply finalize_timer_ok.
Qed.

Lemma packets_timer_ok budget reads pending replies s o replies' s' :
  read_packets hmac first_host budget reads pending replies s = Ret (o, replies', s') -> timer_ok s -> timer_ok s'.
Proof.
  revert budget pending replies s. induction reads as [|rd reads IH]; intros budget pending replies s E H.
  - destruct budget; cbn in E; by simplify_eq.
  - destruct budget as [|budget]; [cbn in E; by simplify_eq|]. cbn [read_packets] in E.
    destruct rd as [peer [h|] env| |e]; [|by eapply IH|by simplify_eq|by simplify_eq].
    destruct (on_quic_packet hmac first_host env peer h s) as [[[r reply] s1]|] eqn:Ep; cbn [bindM] in E; [|done].
    pose proof (packet_timer_ok _ _ _ _ _ _ _ Ep H) as H1. destruct r; [by simplify_eq|by eapply IH..].
Qed.

Lemma attend_timer_ok ta l s : timer_ok s -> timer_ok (attend_pending ta l s).
Proof.
  unfold attend_pending. revert s. induction l as [|id l IH]; intros s H; [done|]. cbn. apply IH. case_match; eauto.
Qed.

Lemma read_timer_ok ta reads s o replies s' :
  read_udp_socket hmac first_host ta reads s = Ret (o, replies, s') -> timer_ok s -> timer_ok s'.
Proof.
  unfold read_udp_socket. generalize READ_BUDGET as n. intros n E H.
  destruct (read_packets hmac first_host n reads [] [] s) as [[[[[sock p]|e] l] s1]|] eqn:Er; cbn [bindM] in E; [| |done];
    pose proof (packets_timer_ok _ _ _ _ _ _ _ _ Er H) as H1; injection E as <- <- <-; [by apply attend_timer_ok|done].
Qed.

Lemma timeouts_timer_ok now ta s : timer_ok (process_timeouts now ta s).2.
Proof. unfold process_timeouts. destruct (expire_all _ _ _). apply recompute_timer_ok. Qed.

Lemma round_timer_ok r s o replies s' :
  mux_round hmac first_host r s = Ret (o, replies, s') -> timer_ok s -> timer_ok s'.
Proof.
  unfold mux_round. intros E H. pose proof (timeouts_timer_ok (mr_now r) (mr_expired r) s) as H0.
  destruct (mr_event r) as [|m|reads|e].
  - injection E as <- <- <-. by apply removed_timer_ok, messages_timer_ok.
  - injection E as <- <- <-. by apply removed_timer_ok, messages_timer_ok, message_timer_ok.
  - destruct (read_udp_socket _ _ _ _ _) as [[[[[sock|]|e] l] s1]|] eqn:Er; cbn [bindM] in E; [..|done];
      pose proof (read_timer_ok _ _ _ _ _ _ Er H0) as H1; injection E as <- <- <-; [done| |done].
    by apply removed_timer_ok, messages_timer_ok.
  - by simplify_eq.
Qed.

Lemma reach_timer_ok prefix s : mux_reach hmac first_host prefix s -> timer_ok s.
Proof. induction 1 as [|s r o replies s' _ IH Hr]; [by intros ? ? ?|by eapply round_timer_ok]. Qed.

(** The connections [on_timeout] is called on are those that have expired. *)
Lemma expire_all_called ta l s :
  (expire_all ta l s).1 = base.filter (fun id => is_Some (qm_connections s !! id)) l /\
  qm_connections (expire_all ta l s).2 = qm_connections s.
Proof.
  revert s. induction l as [|i l IH]; intros s; [done|]. cbn [expire_all]. cbn [qm_connections with_deadlines].
  destruct (qm_connections s !! i) as [c|] eqn:Ei.
  - rewrite filter_cons_True by (rewrite Ei; eauto).
    match goal with |- context [expire_all ta l ?s0] =>
      assert (qm_connections s0 = qm_connections s) as Hc by (by destruct (ta_timeout ta i));
      specialize (IH s0); rewrite Hc in IH; destruct (expire_all ta l s0) as [called s1] end.
    cbn in IH |- *. by destruct IH as [-> ->].
  - rewrite filter_cons_False by (rewrite Ei; by intros [? ?]).
    match goal with |- context [expire_all ta l ?s0] => exact (IH s0) end.
Qed.

(** What [process_timeouts] leaves: nothing that had expired and was not set again. *)
Lemma expire_all_deadlines now ta l s id d :
  (forall i t, ta_timeout ta i = Some t -> now <= ta_clock ta i + t) ->
  qm_deadlines (expire_all ta l s).2 !! id = Some d ->
  now <= d \/ (id ∉ l /\ qm_deadlines s !! id = Some d).
Proof.
  intros Ht. revert s. induction l as [|i l IH]; intros s; cbn [expire_all]; [right; split; [apply not_elem_of_nil|done]|].
  rewrite not_elem_of_cons. cbn [qm_connections with_deadlines].
  assert (forall s0, (qm_deadlines s0 !! id = Some d -> now <= d \/ (id <> i /\ qm_deadlines s !! id = Some d)) ->
            qm_deadlines (expire_all ta l s0).2 !! id = Some d ->
            now <= d \/ ((id <> i /\ id ∉ l) /\ qm_deadlines s !! id = Some d)) as Hs0.
  { intros s0 Hs [H|[Hni H]]%IH; [by left|]. apply Hs in H as [H|[Hne H]]; [by left|by right]. }
  destruct (qm_connections s !! i) as [c|].
  - destruct (expire_all ta l _) as [called s1] eqn:Ee. intros H. eapply Hs0; [|rewrite Ee; exact H].
    destruct (ta_timeout ta i) as [t|] eqn:Et; cbn.
    + intros [[<- <-]|[Hne [Hne' H1]%lookup_delete_Some]]%lookup_insert_Some; [left; by apply Ht|right; by split].
    + intros [Hne H1]%lookup_delete_Some. right. by split.
  - intros H. eapply Hs0; [|exact H]. cbn. intros [Hne H1]%lookup_delete_Some. right. by split.
Qed.

Lemma process_timeouts_expired now ta s id d :
  (forall i t, ta_timeout ta i = Some t -> now <= ta_clock ta i + t) ->
  qm_deadlines (process_timeouts now ta s).2 !! id = Some d -> now <= d.
Proof.
  intros Ht H. unfold process_timeouts in H. destruct (expire_all _ _ _) as [called s1] eqn:Ee. cbn in H.
  change s1 with ((called, s1).2) in H. rewrite <- Ee in H.
  apply (expire_all_deadlines now) in H as [H|[Hni H]]; [done| |done].
  destruct (Z_lt_le_dec d now); [|done]. exfalso. apply Hni.
  apply list_elem_of_fmap. exists (id, d). split; [done|]. apply list_elem_of_filter. split; [cbn; lia|].
  by apply elem_of_map_to_list.
Qed.

Lemma process_timeouts_called now ta s id :
  id ∈ (process_timeouts now ta s).1 <->
  is_Some (qm_connections s !! id) /\ exists d, qm_deadlines s !! id = Some d /\ d <= now.
Proof.
  unfold process_timeouts. destruct (expire_all _ _ _) as [called s1] eqn:Ee. cbn.
  change called with ((called, s1).1). rewrite <- Ee. rewrite (proj1 (expire_all_called _ _ _)), list_elem_of_filter.
  rewrite list_elem_of_fmap. split; intros [Hc H]; (split; [done|]).
  - destruct H as ([i d] & -> & [Hd Hm]%list_elem_of_filter). exists d. by rewrite <- elem_of_map_to_list.
  - destruct H as (d & Hd & Hle). exists (id, d). split; [done|]. apply list_elem_of_filter. by rewrite elem_of_map_to_list.
Qed.

End deadlines.

(** ** Lemmas: tokens *)

Lemma mint_validate h prefix peer : validate_token prefix peer (mint_token h prefix peer) = Some (qh_dcid h).
Proof. unfold validate_token, mint_token. by rewrite !strip_prefix_app. Qed.

Lemma validate_token_spec prefix peer token odcid :
  validate_token prefix peer token = Some odcid <-> token = prefix ++ socket_addr_to_vec peer ++ odcid.
Proof.
  unfold validate_token. split.
  - destruct (strip_prefix prefix token) as [t|] eqn:E; [|done]. apply strip_prefix_spec in E as ->.
    intros E. by apply strip_prefix_spec in E as ->.
  - intros ->. by rewrite !strip_prefix_app.
Qed.

(** ** Lemmas: admission *)

(** A packet that opens a connection. *)
Definition opens (prefix : bytes) (peer : SocketAddr) (h : QuicHeader) (id : bytes) : Prop :=
  qh_initial h = true /\ qh_version_supported h = true /\ qh_dcid h = id /\
  exists token odcid, qh_token h = Some token /\ validate_token prefix peer token = Some odcid.

Section admission.
Context {Identity : Type} (hmac : bytes -> bytes)
  (first_host : gmap bytes (@TlsDemux.Host Identity) -> option (bytes * @TlsDemux.Host Identity)).

Notation Mux := (@QuicMultiplexer Identity).
Notation Read := (@UdpRead Identity).
Implicit Types (s : Mux) (env : @PacketEnv Identity) (reads : list Read).

Definition known s (id : bytes) : Prop := is_Some (qm_connections s !! id).

(** The metadata a connection is accepted with: the tunnel of a main host. *)
Definition bootstrapped (m : ConnectionMeta Identity) : Prop :=
  cm_protocol m = Http3 /\ cm_channel m = ChTunnel /\ cm_sni_auth_creds m = None.

Definition handshakes_ok s : Prop :=
  forall id m, qm_connections s !! id = Some (Handshake m) -> bootstrapped m.

(** The metadata of a socket: what the demultiplexer selects for the name asked for, the
    bootstrap ones when there is no name or it is not selected. *)
Definition dispatched env (m : ConnectionMeta Identity) : Prop :=
  let sni := default [] (ev_server_name env) in
  (sni <> [] /\ select (ev_demux env) [as_alpn Http3] sni = Ret (Ok m)) \/
  (bootstrapped m /\ (sni = [] \/ select (ev_demux env) [as_alpn Http3] sni = Ret (Err tt))).

Definition socket_of env (peer : SocketAddr) (h : QuicHeader) (sock : QuicSocket) : Prop :=
  qs_conn_id sock = qh_dcid h /\ qs_peer sock = peer /\ dispatched env (qs_meta sock).

Lemma socket_meta_dispatched env meta m : socket_meta env meta = Ret m -> bootstrapped meta -> dispatched env m.
Proof.
  unfold socket_meta, dispatched. intros E Hb. destruct (default [] (ev_server_name env)) as [|b sni] eqn:Es.
  - cbn in E. injection E as <-. right. by split; [|left].
  - destruct (Z.eqb_spec (len (b :: sni)) 0) as [Hl|_]; [by (unfold len in Hl; cbn in Hl; lia)|].
    destruct (select _ _ _) as [[m'|[]]|] eqn:Esel; cbn [bindM] in E; [..|done]; injection E as <-.
    + left. by split.
    + right. split; [done|]. by right.
Qed.

Lemma bootstrap_meta_ok demux m : get_quic_connection_bootstrap_meta first_host demux = Ret m -> bootstrapped m.
Proof.
  unfold get_quic_connection_bootstrap_meta. destruct (first_host _) as [[name host]|]; cbn; [|done]. by intros [= <-].
Qed.

(** The table of connections only loses entries, and the prefix stays. *)
Definition shrinks s s' : Prop :=
  qm_token_prefix s' = qm_token_prefix s /\ qm_connections s' ⊆ qm_connections s.

Lemma shrinks_trans s1 s2 s3 : shrinks s1 s2 -> shrinks s2 s3 -> shrinks s1 s3.
Proof. intros [H1 H2] [H3 H4]. split; [congruence|by etrans]. Qed.

Lemma shrinks_same s s' : qm_token_prefix s' = qm_token_prefix s -> qm_connections s' = qm_connections s -> shrinks s s'.
Proof. intros Hp Hc. split; [done|]. by rewrite Hc. Qed.

Lemma shrinks_known s s' id : shrinks s s' -> known s' id -> known s id.
Proof. intros [_ H] [c Hc]. exists c. by eapply lookup_weaken. Qed.

Lemma shrinks_handshakes s s' : shrinks s s' -> handshakes_ok s -> handshakes_ok s'.
Proof. intros [_ H] Hok id m Hm. eapply Hok. by eapply lookup_weaken. Qed.

Lemma message_shrinks ta m s : shrinks s (on_socket_message ta m s).
Proof.
  destruct m as [id|id]; cbn [on_socket_message].
  - split; [done|]. apply delete_subseteq.
  - repeat case_match; by apply shrinks_same.
Qed.

Lemma messages_shrink l s : shrinks s (process_pending_socket_messages l s).
Proof.
  unfold process_pending_socket_messages. revert s. induction l as [|m l IH]; intros s; [by apply shrinks_same|].
  cbn. eapply shrinks_trans; [apply message_shrinks|apply IH].
Qed.

Lemma removed_shrink closed s : shrinks s (remove_closed_connections closed s).2.
Proof.
  unfold remove_closed_connections. cbn [snd]. split; [done|]. cbn.
  generalize (base.filter (fun p => closed p.1 = true) (map_to_list (qm_connections s))). intros l.
  generalize (qm_connections s). induction l as [|p l IH]; intros c; [done|]. cbn. etrans; [apply IH|apply delete_subseteq].
Qed.

Lemma expire_all_prefix ta l s : qm_token_prefix (expire_all ta l s).2 = qm_token_prefix s.
Proof.
  revert s. induction l as [|i l IH]; intros s; [done|]. cbn [expire_all]. cbn [qm_connections with_deadlines].
  destruct (qm_connections s !! i) as [c|]; [|by rewrite IH].
  match goal with |- context [expire_all ta l ?s0] =>
    specialize (IH s0); destruct (expire_all ta l s0) as [called s1] end.
  cbn in IH |- *. rewrite IH. by destruct (ta_timeout ta i).
Qed.

Lemma timeouts_shrink now ta s : shrinks s (process_timeouts now ta s).2.
Proof.
  unfold process_timeouts. generalize ((base.filter (fun p => p.2 <= now) (map_to_list (qm_deadlines s))).*1). intros l.
  pose proof (expire_all_prefix ta l s) as Hp. pose proof (proj2 (expire_all_called ta l s)) as Hc.
  destruct (expire_all ta l s) as [called s1]. by apply shrinks_same.
Qed.

(** *** A packet *)

Record packet_post env (peer : SocketAddr) (h : QuicHeader) s (r : PacketResult) (reply : option QuicReply) s' : Prop := {
  pp_prefix : qm_token_prefix s' = qm_token_prefix s;
  pp_known : forall id, known s' id -> known s id \/ opens (qm_token_prefix s) peer h id;
  pp_reply : forall t, reply = Some (Retry t) -> t = mint_token h (qm_token_prefix s) peer;
  pp_handshakes : handshakes_ok s';
  pp_socket : forall sock, r = NewSocket sock -> socket_of env peer h sock;
}.

Lemma packet_post_same env peer h s r reply :
  handshakes_ok s -> (forall t, reply = Some (Retry t) -> t = mint_token h (qm_token_prefix s) peer) ->
  (forall sock, r <> NewSocket sock) -> packet_post env peer h s r reply s.
Proof. intros H Hr Hs. split; [done|by left|done|done|]. intros sock E. by apply Hs in E. Qed.

Lemma finalize_post env peer h meta s0 s r reply s' :
  finalize_established_connection env (qh_dcid h) meta peer s = Ret (r, s') ->
  shrinks s0 s -> handshakes_ok s0 -> bootstrapped meta ->
  (known s0 (qh_dcid h) \/ opens (qm_token_prefix s0) peer h (qh_dcid h)) ->
  (forall t, reply = Some (Retry t) -> t = mint_token h (qm_token_prefix s0) peer) ->
  packet_post env peer h s0 (finalized r) reply s'.
Proof.
  unfold finalize_established_connection. intros E Hsub Hok Hb Ho Hr.
  pose proof (shrinks_handshakes _ _ Hsub Hok) as Hok'.
  destruct (socket_meta env meta) as [m|] eqn:Em; cbn [bindM] in E; [|done].
  apply socket_meta_dispatched in Em; [|done].
  destruct (ev_h3 env) as [[]|e]; injection E as <- <-.
  - split; [by apply Hsub| |done| |].
    + intros id H. unfold known in H. cbn in H. apply lookup_insert_is_Some in H as [<-|[_ H]]; [done|].
      left. by eapply shrinks_known.
    + intros id m'. cbn. intros [[_ [=]]|[_ H]]%lookup_insert_Some. by eapply Hok'.
    + intros sock [= <-]. by split_and!.
  - split; [by apply Hsub| |done|done|done]. intros id H. left. by eapply shrinks_known.
Qed.

Lemma packet_admits env peer h s r reply s' :
  on_quic_packet hmac first_host env peer h s = Ret (r, reply, s') -> handshakes_ok s -> packet_post env peer h s r reply s'.
Proof.
  intros E Hok. unfold on_quic_packet in E. destruct (qm_connections s !! qh_dcid h) as [[meta|]|] eqn:Ec.
  - destruct (proceed_handshake env) as [[]|]; [by injection E as <- <- <-; apply packet_post_same| |by injection E as <- <- <-; apply packet_post_same].
    destruct (finalize_established_connection _ _ _ _ _) as [[f s1]|] eqn:Ef; cbn [bindM] in E; [|done].
    injection E as <- <- <-. eapply finalize_post; [exact Ef| |done|by eapply Hok| |done].
    + split; [done|]. apply delete_subseteq.
    + left. unfold known. by rewrite Ec.
  - destruct (ev_recv env); injection E as <- <- <-; by apply packet_post_same.
  - destruct (on_unknown_quic_packet hmac env peer h s) as [st reply'] eqn:Eu.
    assert (forall t, reply' = Some (Retry t) -> t = mint_token h (qm_token_prefix s) peer) as Hreply.
    { intros t ->. unfold on_unknown_quic_packet in Eu. repeat case_match; simplify_eq; done. }
    destruct st as [[]|]; [|by injection E as <- <- <-; apply packet_post_same..].
    assert (qh_initial h = true /\ qh_version_supported h = true) as [Hi Hv].
    { unfold on_unknown_quic_packet in Eu. destruct (qh_initial h), (qh_version_supported h); cbn in Eu; repeat case_match; by simplify_eq. }
    unfold on_new_connection in E. destruct (qh_token h) as [token|] eqn:Et; cbn [unwrap bindM] in E; [|done].
    destruct (validate_token _ _ _) as [odcid|] eqn:Ev; cbn [bindM] in E; [|by injection E as <- <- <-; apply packet_post_same].
    assert (opens (qm_token_prefix s) peer h (qh_dcid h)) as Hopens by (split_and!; eauto).
    destruct (ev_accept env) as [est|]; cbn [bindM] in E; [|by injection E as <- <- <-; apply packet_post_same].
    destruct (get_quic_connection_bootstrap_meta _ _) as [meta|] eqn:Em; cbn [bindM] in E; [|done].
    apply bootstrap_meta_ok in Em. destruct est.
    + destruct (finalize_established_connection _ _ _ _ _) as [[f s1]|] eqn:Ef; cbn [bindM] in E; [|done].
      injection E as <- <- <-. eapply finalize_post; [exact Ef|by apply shrinks_same|done|done|by right|done].
    + cbn [bindM] in E. injection E as <- <- <-. split; [done| |done| |done].
      * intros id H. unfold known in H. cbn in H. apply lookup_insert_is_Some in H as [<-|[_ H]]; [by right|by left].
      * intros id m. cbn. intros [[_ [= <-]]|[_ H]]%lookup_insert_Some; [done|by eapply Hok].
Qed.

(** *** The packets of a read *)

Definition opened_by (prefix : bytes) reads (id : bytes) : Prop :=
  exists peer h env, UdpPacket peer (Some h) env ∈ reads /\ opens prefix peer h id.

Definition minted_in (prefix : bytes) reads (t : bytes) : Prop :=
  exists peer h env, UdpPacket peer (Some h) env ∈ reads /\ t = mint_token h prefix peer.

Definition socket_in reads (sock : QuicSocket) : Prop :=
  exists peer h env, UdpPacket peer (Some h) env ∈ reads /\ socket_of env peer h sock.

(** What a read does, after replies that were sent before. *)
Record read_post reads s (sock : option QuicSocket) (before replies : list QuicReply) s' : Prop := {
  rp_prefix : qm_token_prefix s' = qm_token_prefix s;
  rp_known : forall id, known s' id -> known s id \/ opened_by (qm_token_prefix s) reads id;
  rp_reply : forall t, Retry t ∈ replies -> Retry t ∈ before \/ minted_in (qm_token_prefix s) reads t;
  rp_handshakes : handshakes_ok s';
  rp_socket : forall x, sock = Some x -> socket_in reads x;
}.

Lemma read_post_none reads s replies : handshakes_ok s -> read_post reads s None replies replies s.
Proof. intros H. split; [done|by left|by left|done|done]. Qed.

Lemma read_post_shrinks reads s sock before replies s1 s2 :
  read_post reads s sock before replies s1 -> shrinks s1 s2 -> read_post reads s sock before replies s2.
Proof.
  intros [H1 H2 H3 H4 H5] Hs. split; [by rewrite <- H1; apply Hs| |done|by eapply shrinks_handshakes|done].
  intros id Hk. apply H2. by eapply shrinks_known.
Qed.

Lemma read_post_weaken rd reads s sock before replies s' :
  read_post reads s sock before replies s' -> read_post (rd :: reads) s sock before replies s'.
Proof.
  intros [H1 H2 H3 H4 H5]. split; [done| | |done|].
  - intros id [H|(peer & h & env & Hin & H)]%H2; [by left|]. right. exists peer, h, env. split; [by apply elem_of_cons; right|done].
  - intros t [H|(peer & h & env & Hin & H)]%H3; [by left|]. right. exists peer, h, env. split; [by apply elem_of_cons; right|done].
  - intros x (peer & h & env & Hin & H)%H5. exists peer, h, env. split; [by apply elem_of_cons; right|done].
Qed.

(** A packet followed by a read. *)
Lemma read_post_cons env peer h reads s r reply s1 sock before replies s2 :
  packet_post env peer h s r reply s1 ->
  read_post reads s1 sock (before ++ option_list reply) replies s2 ->
  read_post (UdpPacket peer (Some h) env :: reads) s sock before replies s2.
Proof.
  intros [P1 P2 P3 P4 P5] [H1 H2 H3 H4 H5]%(read_post_weaken (UdpPacket peer (Some h) env)). rewrite P1 in H1, H2, H3.
  assert (UdpPacket peer (Some h) env ∈ UdpPacket peer (Some h) env :: reads) as Hin by (by apply elem_of_cons; left).
  split; [done| | |done|done].
  - intros id [H|H]%H2; [|by right]. apply P2 in H as [H|H]; [by left|]. right. by exists peer, h, env.
  - intros t [H|H]%H3; [|by right]. apply elem_of_app in H as [H|H]; [by left|]. right.
    destruct reply as [rp|]; [|by apply elem_of_nil in H]. apply list_elem_of_singleton in H as <-.
    exists peer, h, env. split; [done|by apply P3].
Qed.

Definition read_socket {A} (o : result ErrorKind (option QuicSocket * A)) : option (@QuicSocket Identity) :=
  match o with Ok (sock, _) => sock | Err _ => None end.

Lemma packets_admit budget reads pending replies s o replies' s' :
  read_packets hmac first_host budget reads pending replies s = Ret (o, replies', s') -> handshakes_ok s ->
  read_post reads s (read_socket o) replies replies' s'.
Proof.
  revert budget pending replies s. induction reads as [|rd reads IH]; intros budget pending replies s E Hok.
  - destruct budget; cbn in E; injection E as <- <- <-; by apply read_post_none.
  - destruct budget as [|budget]; [cbn in E; injection E as <- <- <-; by apply read_post_none|]. cbn [read_packets] in E.
    destruct rd as [peer [h|] env| |e].
    + destruct (on_quic_packet hmac first_host env peer h s) as [[[r reply] s1]|] eqn:Ep; cbn [bindM] in E; [|done].
      apply packet_admits in Ep as Hp; [|done]. destruct r as [sock|pl c|].
      * injection E as <- <- <-. cbn [read_socket]. split; [apply Hp| | |apply Hp|].
        -- intros id [H|H]%(pp_known _ _ _ _ _ _ _ Hp); [by left|]. right. exists peer, h, env. by rewrite elem_of_cons; auto.
        -- intros t [H|H]%elem_of_app; [by left|]. right. destruct reply as [rp|]; [|by apply elem_of_nil in H].
           apply list_elem_of_singleton in H as <-. exists peer, h, env. rewrite elem_of_cons. split; [by left|by apply Hp].
        -- intros x [= <-]. exists peer, h, env. rewrite elem_of_cons. split; [by left|by apply Hp].
      * eapply read_post_cons; [exact Hp|]. eapply IH; [exact E|apply Hp].
      * eapply read_post_cons; [exact Hp|]. eapply IH; [exact E|apply Hp].
    + apply read_post_weaken. by eapply IH.
    + injection E as <- <- <-. by apply read_post_none.
    + injection E as <- <- <-. by apply read_post_none.
Qed.

Lemma attend_shrinks ta l s : shrinks s (attend_pending ta l s).
Proof.
  unfold attend_pending. revert s. induction l as [|id l IH]; intros s; [by apply shrinks_same|]. cbn.
  eapply shrinks_trans; [|apply IH]. case_match; by apply shrinks_same.
Qed.

Definition udp_socket_of (o : result ErrorKind (option QuicSocket)) : option (@QuicSocket Identity) :=
  match o with Ok sock => sock | Err _ => None end.

Lemma read_admits ta reads s o replies s' :
  read_udp_socket hmac first_host ta reads s = Ret (o, replies, s') -> handshakes_ok s ->
  read_post reads s (udp_socket_of o) [] replies s'.
Proof.
  unfold read_udp_socket. generalize READ_BUDGET as n. intros n E Hok.
  destruct (read_packets _ _ _ _ _ _ _) as [[[[[sock p]|e] l] s1]|] eqn:Er; cbn [bindM] in E; [| |done];
    apply packets_admit in Er; try done; injection E as <- <- <-; [|done].
  eapply read_post_shrinks; [exact Er|apply attend_shrinks].
Qed.

(** The packets read in an iteration. *)
Definition round_reads (r : @MuxRound Identity) : list Read := match mr_event r with MuxRead reads => reads | _ => [] end.

Definition round_socket (o : option (result ErrorKind QuicSocket)) : option (@QuicSocket Identity) :=
  match o with Some (Ok sock) => Some sock | _ => None end.

Lemma round_admits r s o replies s' :
  mux_round hmac first_host r s = Ret (o, replies, s') -> handshakes_ok s ->
  read_post (round_reads r) s (round_socket o) [] replies s'.
Proof.
  unfold mux_round, round_reads. intros E Hok. pose proof (timeouts_shrink (mr_now r) (mr_expired r) s) as Ht.
  pose proof (shrinks_handshakes _ _ Ht Hok) as Hok'.
  assert (forall s1, shrinks s1 (remove_closed_connections (mr_closed r) (process_pending_socket_messages (mr_pending r) s1)).2) as Hf.
  { intros s1. eapply shrinks_trans; [apply messages_shrink|apply removed_shrink]. }
  pose proof (read_post_none [] s [] Hok) as H0. destruct (mr_event r) as [|m|reads|e].
  - injection E as <- <- <-. eapply read_post_shrinks; [exact H0|]. by eapply shrinks_trans.
  - injection E as <- <- <-. eapply read_post_shrinks; [exact H0|].
    eapply shrinks_trans; [exact Ht|]. eapply shrinks_trans; [apply message_shrinks|apply Hf].
  - destruct (read_udp_socket _ _ _ _ _) as [[[po l] s1]|] eqn:Er; cbn [bindM] in E; [|done].
    apply read_admits in Er; [|done].
    assert (read_post reads s (udp_socket_of po) [] l s1) as Hs1.
    { destruct Er as [R1 R2 R3 R4 R5]. pose proof (proj1 Ht) as Hp. rewrite Hp in R1, R2, R3. split; [done| |done|done|done].
      intros id [H|H]%R2; [left; by eapply shrinks_known|by right]. }
    destruct po as [[sock|]|e]; cbn [bindM] in E; injection E as <- <- <-; [done| |done].
    eapply read_post_shrinks; [exact Hs1|apply Hf].
  - by injection E as <- <- <-.
Qed.

Lemma reach_prefix prefix s : mux_reach hmac first_host prefix s -> qm_token_prefix s = prefix /\ handshakes_ok s.
Proof.
  induction 1 as [|s r o replies s' _ [IHp IHh] Hr]; [by split|]. apply round_admits in Hr; [|done].
  destruct Hr as [Hp _ _ Hh _]. by rewrite Hp.
Qed.

End admission.

(** ** Lemmas: sockets *)

Definition piece_bytes (p : BodyPiece) : bytes := match p with BodyBytes b => b | BodyError => [] end.

Definition body_of (l : list BodyPiece) : bytes := l ≫= piece_bytes.

Lemma recv_body_loop_spec room acc l r l' :
  0 < room -> BodyError ∉ l -> recv_body_loop room acc l = (r, l') ->
  exists b, b ++ body_of l' = body_of l /\ len b <= room /\ BodyError ∉ l' /\ (length l' <= length l)%nat /\
    (r = Ok (Some (acc ++ b)) /\ 0 < len (acc ++ b) \/ (acc ++ b = [] /\ r = Ok None)) /\
    (l' = [] \/ len b = room).
Proof.
  revert room acc. induction l as [|[p|] l IH]; intros room acc Hroom Hl E.
  - cbn [recv_body_loop] in E. injection E as <- <-. exists []. rewrite (app_nil_r acc). split_and!; try (done || lia); [unfold len; cbn; lia| |by left].
    destruct (Z.ltb_spec 0 (len acc)); [left; split; [done|lia]|]. right. split; [by apply len_nil_inv|done].
  - apply not_elem_of_cons in Hl as [_ Hl]. cbn [recv_body_loop] in E. destruct (Z.ltb_spec (len p) room) as [Hp|Hp].
    + pose proof (len_nonneg p). apply IH in E as (b & Hb & Hlb & Hne & Hlen & Hr & Hend); [|lia|done].
      exists (p ++ b). unfold body_of in *. rewrite bind_cons, <- app_assoc. cbn [piece_bytes]. rewrite Hb, len_app.
      rewrite <- app_assoc in Hr.
      split_and!; [done|lia|done|cbn; lia|done|]. destruct Hend as [->|Hend]; [by left|right; lia].
    + injection E as <- <-. exists (take (Z.to_nat room) p).
      assert (len (take (Z.to_nat room) p) = room) as Hlen by (unfold len in *; rewrite length_take; lia).
      assert (0 < len (acc ++ take (Z.to_nat room) p)) by (rewrite len_app; pose proof (len_nonneg acc); lia).
      destruct (Z.eqb_spec (len p) room) as [He|He].
      * split_and!; [|lia|done|cbn; lia|left; done|by right]. unfold body_of. rewrite bind_cons. cbn [piece_bytes].
        by rewrite take_ge by (unfold len in He; lia).
      * split_and!; [|lia|apply not_elem_of_cons; split; [done|done]|cbn; lia|left; done|by right].
        unfold body_of. rewrite !bind_cons. cbn [piece_bytes]. by rewrite app_assoc, take_drop.
  - apply not_elem_of_cons in Hl as [Hl _]. done.
Qed.

Lemma socket_read_ok l r l' :
  BodyError ∉ l -> socket_read [] l = (r, l') ->
  exists b, b ++ body_of l' = body_of l /\ len b <= READ_CHUNK_SIZE /\ BodyError ∉ l' /\
    (r = Ok (Some b) /\ 0 < len b \/ (b = [] /\ r = Ok None)) /\ (l' = [] \/ len b = READ_CHUNK_SIZE).
Proof.
  unfold socket_read. intros Hl E. destruct (recv_body_loop READ_CHUNK_SIZE [] l) as [r0 l0] eqn:Er.
  apply recv_body_loop_spec in Er as (b & Hb & Hlen & Hne & _ & Hr & Hend); [|done|done]. cbn [app] in Hr.
  injection E as <- <-. exists b. split_and!; [done..| |done].
  destruct Hr as [[-> H]|[-> ->]]; [by left|by right].
Qed.

(** The chunks successive reads give until there is nothing buffered. *)
Inductive drains : list BodyPiece -> list bytes -> Prop :=
| drain_end l l' : socket_read [] l = (Ok None, l') -> drains l []
| drain_chunk l l' b bs : socket_read [] l = (Ok (Some b), l') -> drains l' bs -> drains l (b :: bs).

(** Reading a stream gives its body: no byte is lost, repeated or reordered, and no chunk is
    empty or longer than the buffer. *)
Theorem quic_body_delivered l :
  BodyError ∉ l ->
  exists chunks, drains l chunks /\ concat chunks = body_of l /\ Forall (fun b => 0 < len b <= READ_CHUNK_SIZE) chunks.
Proof.
  remember (length (body_of l)) as n eqn:En. revert l En. induction n as [n IH] using lt_wf_ind. intros l -> Hl.
  destruct (socket_read [] l) as [r l'] eqn:E. apply socket_read_ok in E as Hs; [|done].
  destruct Hs as (b & Hb & Hlen & Hne & [[-> Hpos]|[-> ->]] & Hend).
  - destruct (IH (length (body_of l'))) with (l := l') as (bs & Hd & Hc & Hf); [|done|done|].
    { rewrite <- Hb, length_app. unfold len in Hpos. lia. }
    exists (b :: bs). split_and!; [by eapply drain_chunk|cbn; by rewrite Hc|by apply Forall_cons].
  - exists []. split_and!; [by eapply drain_end| |done]. cbn in Hb. destruct Hend as [->|Hend]; [done|].
    unfold READ_CHUNK_SIZE in Hend. by vm_compute in Hend.
Qed.

(** A stream that waits for room is either reported writable or still waits, unless the
    connection is over. *)
Theorem quic_wakeups_kept fl bu br conn_id p capacity m closed waiting o msg waiting' id :
  socket_round fl bu br conn_id p capacity m closed waiting = Ret (o, msg, waiting') -> id ∈ waiting ->
  id ∈ waiting' \/ (exists l, o = Some (Ok (SockWritable l)) /\ id ∈ l) \/ (closed = true /\ o = Some (Err UnexpectedEof)).
Proof.
  unfold socket_round. intros E Hid. destruct (process_pending_h3_events fl bu br p).1 as [[ev|]|e].
  - destruct closed; injection E as <- <- <-; by left.
  - destruct MIN_USABLE_QUIC_STREAM_CAPACITY as [min|]; cbn [bindM] in E; [|done].
    set (w := base.filter (fun i => wakeable min capacity i = true) (elements waiting)) in E.
    assert (id ∈ base.filter (fun i => i ∉ w) waiting \/ id ∈ w) as Hw.
    { destruct (decide (id ∈ w)); [by right|]. left. by apply elem_of_filter. }
    revert E Hw. generalize (base.filter (fun i => i ∉ w) waiting) as w'. generalize w as ws. clear w. intros [|i ws] w' E Hw.
    + destruct Hw as [Hw|Hw]; [|by apply elem_of_nil in Hw]. left.
      destruct m as [[]|]; [by simplify_eq| |by simplify_eq]. destruct closed; by simplify_eq.
    + destruct closed; injection E as <- <- <-; [destruct Hw; [by left|by right; right]|].
      destruct Hw as [Hw|Hw]; [by left|]. right. left. eauto.
  - injection E as <- <- <-. by left.
Qed.

(** ** Claims *)

(** C31: no timer of a connection is missed: in every state the multiplexer reaches, the wait of
    [listen] ends by the time any deadline has passed; [process_timeouts] then calls
    [on_timeout] on exactly the connections whose deadline has passed, leaves no deadline
    in the past, and the timer again covers every deadline. *)
Theorem quic_timers_kept {Identity} hmac first_host prefix (s : @QuicMultiplexer Identity) now ta :
  mux_reach hmac first_host prefix s ->
  (forall i t, ta_timeout ta i = Some t -> now <= ta_clock ta i + t) ->
  (forall id d, qm_deadlines s !! id = Some d -> d <= now -> timer_fires now s = true) /\
  (forall id, id ∈ (process_timeouts now ta s).1 <->
     is_Some (qm_connections s !! id) /\ exists d, qm_deadlines s !! id = Some d /\ d <= now) /\
  (forall id d, qm_deadlines (process_timeouts now ta s).2 !! id = Some d ->
     now <= d /\ exists c, qm_closest_deadline (process_timeouts now ta s).2 = Some c /\ c <= d).
Proof.
  intros Hr%reach_timer_ok Ht. split_and!.
  - intros id d Hd Hle. unfold timer_fires. apply Hr in Hd as (c & -> & Hc). apply Z.leb_le. lia.
  - intros id. apply process_timeouts_called.
  - intros id d Hd. split; [by eapply process_timeouts_expired|]. by eapply timeouts_timer_ok.
Qed.

(** C11: a connection is opened only for a validated address: whatever packets an iteration of
    [listen] reads, a connection that was not in the table comes from an Initial packet
    whose token is the multiplexer's prefix and the packet's source address; every Retry
    answers a packet of that iteration with a token that validates for its source and gives
    back the connection identifier the client chose; and the socket handed out belongs to
    a packet of that iteration, with the channel the TLS demultiplexer selects for the name
    the client asked for, or the tunnel without SNI credentials. *)
Theorem quic_address_validated {Identity} hmac first_host prefix (s : @QuicMultiplexer Identity) r o replies s' :
  mux_reach hmac first_host prefix s -> mux_round hmac first_host r s = Ret (o, replies, s') ->
  (forall id, known s' id -> known s id \/
     exists peer h env token odcid, UdpPacket peer (Some h) env ∈ round_reads r /\ qh_initial h = true /\ qh_dcid h = id /\
       qh_token h = Some token /\ token = prefix ++ socket_addr_to_vec peer ++ odcid) /\
  (forall t, Retry t ∈ replies ->
     exists peer h env, UdpPacket peer (Some h) env ∈ round_reads r /\ validate_token prefix peer t = Some (qh_dcid h)) /\
  (forall sock, o = Some (Ok sock) ->
     exists peer h env, UdpPacket peer (Some h) env ∈ round_reads r /\ qs_conn_id sock = qh_dcid h /\ qs_peer sock = peer /\
       dispatched env (qs_meta sock)).
Proof.
  intros [<- Hok]%reach_prefix E. apply round_admits in E as [_ Hk Hr _ Hs]; [|done]. split_and!.
  - intros id [H|(peer & h & env & Hin & Hi & _ & Hd & token & odcid & Ht & Hv)]%Hk; [by left|]. right.
    exists peer, h, env, token, odcid. by apply validate_token_spec in Hv.
  - intros t [H|(peer & h & env & Hin & ->)]%Hr; [by apply elem_of_nil in H|]. exists peer, h, env. by rewrite mint_validate.
  - intros sock ->. destruct (Hs sock eq_refl) as (peer & h & env & Hin & Hc & Hp & Hd). by exists peer, h, env.
Qed.

(** A token is no proof of the address: from any token it was sent, a client makes a token
    that validates for another address, since the secret prefix is part of the token in
    clear, and an Initial packet with that token and any new connection identifier of
    twenty bytes, sent from the other address, opens a connection. *)
Theorem quic_token_forged {Identity} hmac first_host env (s : @QuicMultiplexer Identity) meta h peer victim id :
  len (qm_token_prefix s) = TOKEN_PREFIX_SIZE -> len (hmac id) >= MAX_CONN_ID_LEN -> len id = MAX_CONN_ID_LEN ->
  qm_connections s !! id = None -> ev_accept env = Ok false ->
  get_quic_connection_bootstrap_meta first_host (ev_demux env) = Ret meta ->
  let token := mint_token h (qm_token_prefix s) peer in
  let forged := take (Z.to_nat TOKEN_PREFIX_SIZE) token ++ socket_addr_to_vec victim ++ id in
  on_quic_packet hmac first_host env victim (mkQuicHeader true true id (Some forged)) s =
    Ret (Background false false, None, with_connections (<[id := Handshake meta]> (qm_connections s)) s).
Proof.
  intros Hp Hh Hid Hnew Hacc Hm token forged.
  assert (forged = qm_token_prefix s ++ socket_addr_to_vec victim ++ id) as Hforged.
  { unfold forged, token, mint_token. f_equal. rewrite take_app_le by (unfold len in Hp; lia).
    apply take_ge. unfold len in Hp. lia. }
  unfold on_quic_packet. cbn [qh_dcid]. rewrite Hnew. unfold on_unknown_quic_packet. cbn [qh_initial qh_version_supported qh_token qh_dcid negb].
  destruct (Z.eqb_spec (len forged) 0) as [H0|_].
  { rewrite Hforged, !len_app in H0. pose proof (len_nonneg (socket_addr_to_vec victim)). unfold TOKEN_PREFIX_SIZE, MAX_CONN_ID_LEN in *. lia. }
  assert (len (take (Z.to_nat MAX_CONN_ID_LEN) (hmac id)) = len id) as Hscid.
  { rewrite Hid. unfold len, MAX_CONN_ID_LEN in *. rewrite length_take. lia. }
  rewrite Hscid, Z.eqb_refl. cbn [negb]. unfold on_new_connection. cbn [qh_token qh_dcid unwrap bindM].
  rewrite Hforged. unfold validate_token. rewrite !strip_prefix_app, Hacc, Hm. reflexivity.
Qed.

(** ** Witnesses *)

Definition sample_first (m : gmap bytes (@TlsDemux.Host unit)) : option (bytes * @TlsDemux.Host unit) := head (map_to_list m).

Definition sample_demux : TlsDemux unit := mkTlsDemux {[str "vpn.example" := mkHost tt []]} ∅ ∅ ∅ [Http3] ∅.

Definition sample_hmac (b : bytes) : bytes := replicate 32 7.

Definition sample_prefix : bytes := replicate 16 9.

Definition sample_id : bytes := replicate 20 1.

Definition sample_peer (host : Z) : SocketAddr := mkAddr (IpV4 [192; 0; 2; host]) 4433.

Definition sample_env (established : bool) : @PacketEnv unit :=
  mkPacketEnv (Ok tt) (Ok established) (Ok tt) false false established (Ok tt) (Some (str "vpn.example")) sample_demux.

(** A first packet without a token, then one with the token of the Retry. *)
Definition sample_reads : list (@UdpRead unit) :=
  [UdpPacket (sample_peer 1) (Some (mkQuicHeader true true [5; 5] (Some []))) (sample_env false);
   UdpPacket (sample_peer 1)
     (Some (mkQuicHeader true true sample_id (Some (sample_prefix ++ socket_addr_to_vec (sample_peer 1) ++ [5; 5]))))
     (sample_env false);
   UdpWouldBlock].

Definition sample_answers (clock : Z) : TimerAnswers := mkAnswers (fun _ => clock) (fun _ => Some 10).

Definition sample_round (reads : list (@UdpRead unit)) (clock : Z) : @MuxRound unit :=
  mkMuxRound (MuxRead reads) clock (sample_answers clock) (sample_answers clock) [] (fun _ => false).

Definition sample_mux : @QuicMultiplexer unit :=
  update_connection_deadline 100 sample_id 10
    (with_connections {[sample_id := Handshake (mkConnectionMeta (str "vpn.example") Http3 ChTunnel tt None)]} (qm_new sample_prefix)).

Lemma sample_reached : mux_reach sample_hmac sample_first sample_prefix sample_mux.
Proof.
  eapply (mux_step _ _ _ _ (sample_round sample_reads 100)); [constructor|]. vm_compute. reflexivity.
Qed.

Lemma quic_timers_kept_witness :
  (process_timeouts 200 (sample_answers 201) sample_mux).1 = [sample_id] /\ timer_fires 200 sample_mux = true.
Proof.
  destruct (quic_timers_kept sample_hmac sample_first sample_prefix sample_mux 200 (sample_answers 201)) as (Hf & Hc & Hd).
  - apply sample_reached.
  - intros i t [= <-]. cbn. lia.
  - split; [vm_compute; reflexivity|]. apply (Hf sample_id 110); [vm_compute; reflexivity|lia].
Defined.

Lemma quic_address_validated_witness :
  exists replies s', mux_round sample_hmac sample_first (sample_round sample_reads 100) (qm_new sample_prefix) = Ret (None, replies, s') /\
    known s' sample_id /\ exists t, Retry t ∈ replies /\ validate_token sample_prefix (sample_peer 1) t = Some [5; 5].
Proof.
  eexists _, _. split; [vm_compute; reflexivity|].
  match goal with |- known ?s' _ /\ exists t, _ ∈ ?l /\ _ =>
    destruct (quic_address_validated sample_hmac sample_first sample_prefix (qm_new sample_prefix) (sample_round sample_reads 100) None l s')
      as (Hk & Ht & Hs) end.
  - constructor.
  - vm_compute. reflexivity.
  - split; [vm_compute; eexists; reflexivity|]. eexists. split; [by apply list_elem_of_singleton|]. vm_compute. reflexivity.
Defined.

Lemma quic_token_forged_witness :
  on_quic_packet sample_hmac sample_first (sample_env false) (sample_peer 2)
    (mkQuicHeader true true sample_id
       (Some (take (Z.to_nat TOKEN_PREFIX_SIZE) (mint_token (mkQuicHeader true true [5; 5] (Some [])) sample_prefix (sample_peer 1))
              ++ socket_addr_to_vec (sample_peer 2) ++ sample_id)))
    (qm_new sample_prefix)
  = Ret (Background false false, None,
      with_connections (<[sample_id := Handshake (mkConnectionMeta (str "vpn.example") Http3 ChTunnel tt None)]> ∅) (qm_new sample_prefix)).
Proof.
  apply (quic_token_forged sample_hmac sample_first (sample_env false) (qm_new sample_prefix)
    (mkConnectionMeta (str "vpn.example") Http3 ChTunnel tt None) (mkQuicHeader true true [5; 5] (Some [])) (sample_peer 1)); vm_compute; (reflexivity || done).
Defined.
