(* ===== verification/Http2Codec.v ===== *)
(** * The HTTP/2 codec

    lib/src/http2_codec.rs: the sessions of the [h2] crate as the codec, request and
    response streams of the endpoint.  [h2] is the environment: the outcomes of its calls
    are arguments.  A request stream is a [Source] and a response stream a [Sink], so that
    the lemmas of the pipes apply to a tunnel over HTTP/2. *)

From S2P Require Import Prelude.
From S2P Require Import Codecs.
From S2P Require Import Varint.
From S2P Require Import NetUtils.
From S2P Require Import Datagram.
From S2P Require Import Tunnel.
From S2P Require Import UdpPipe.
From S2P Require Import Pipe.
From S2P Require Import TcpForwarder.
From S2P Require Import ForwardedStream.
From S2P Require Import Http1Codec.
From S2P Require Import Settings.

(** [h2::Error]: the error of the transport it carries, and its reason. *)
Inductive Reason : Type := NO_ERROR | OTHER_REASON.

#[export] Instance Reason_eq_dec : EqDecision Reason.
Proof. solve_decision. Defined.

Record H2Error : Type := mkH2Error { he_io : option ErrorKind; he_reason : option Reason }.

Definition no_error (e : H2Error) : bool :=
  match he_reason e with None | Some NO_ERROR => true | Some OTHER_REASON => false end.

Definition h2_to_io_error (e : H2Error) : ErrorKind :=
  if no_error e then UnexpectedEof else match he_io e with Some k => k | None => Other end.

(** ** Sessions *)

Inductive H2State : Type := H2Handshake | H2Established.

Record Http2Codec : Type := mkH2 { h2_state : H2State; h2_next_conn_id : Z; h2_client_address : IpAddr }.

(** [Http2Codec::new]: the settings of the protocol, absent when it is disabled, and the
    outcome of [peer_addr] of the transport.  [builder_ok] is whether [h2::server::Builder]
    takes the values: it documents a panic for a [max_frame_size] out of its range. *)
Definition h2_new (builder_ok : Http2Settings -> bool) (http2 : option Http2Settings) (peer_addr : result ErrorKind IpAddr)
  : M (result ErrorKind Http2Codec) :=
  let! http2_settings := unwrap http2 in
  match peer_addr with
  | Err e => Ret (Err e)
  | Ok client_address =>
      let! _ := assertM (builder_ok http2_settings) in
      Ret (Ok (mkH2 H2Handshake 0 client_address))
  end.

Record H2Stream : Type := mkH2Stream { h2_request : RequestHeaders; h2_address : IpAddr; h2_conn_id : Z }.

(** What [accept] gives: no more streams, an error, or a request. *)
Abbreviation Accepted := (option (result H2Error RequestHeaders)).

Definition h2_listen (handshake : result H2Error unit) (accept : Accepted) (self : Http2Codec)
  : result ErrorKind (option H2Stream) * Http2Codec :=
  let session (self : Http2Codec) :=
    match accept with
    | Some (Ok request) =>
        (Ok (Some (mkH2Stream request (h2_client_address self) (h2_next_conn_id self))),
         mkH2 (h2_state self) (h2_next_conn_id self + 1) (h2_client_address self))
    | Some (Err e) =>
        (match he_io e with
         | Some k => Err k
         | None => if bool_decide (he_reason e = Some NO_ERROR) then Ok None else Err (h2_to_io_error e)
         end, self)
    | None => (Ok None, self)
    end in
  match h2_state self with
  | H2Handshake =>
      match handshake with
      | Ok _ => session (mkH2 H2Established (h2_next_conn_id self) (h2_client_address self))
      | Err e => (Err (h2_to_io_error e), self)
      end
  | H2Established => session self
  end.

(** The loop of [graceful_shutdown]; [None] when it has not returned by then. *)
Fixpoint h2_drain (accepts : list Accepted) : option (result ErrorKind unit) :=
  match accepts with
  | [] => None
  | None :: _ => Some (Ok tt)
  | Some (Err (mkH2Error (Some k) _)) :: _ => Some (Err k)
  | Some _ :: accepts => h2_drain accepts
  end.

Definition h2_graceful_shutdown (accepts : list Accepted) (self : Http2Codec) : option (result ErrorKind unit) :=
  match h2_state self with H2Handshake => Some (Ok tt) | H2Established => h2_drain accepts end.

(** ** The request stream *)

(** [RequestStream]: what was read, and how much of the window was given back. *)
Record RequestStream : Type := mkRequestStream { h2_read : bytes; h2_released : Z }.

(** [data()]: [None] when it is still pending. *)
Definition h2_source_read (data : option (option (result H2Error bytes))) (self : RequestStream)
  : option (result ErrorKind Data) * RequestStream :=
  match data with
  | None => (None, self)
  | Some None => (Some (Ok Eof), self)
  | Some (Some (Ok chunk)) => (Some (Ok (Chunk chunk)), mkRequestStream (h2_read self ++ chunk) (h2_released self))
  | Some (Some (Err e)) => (Some (if no_error e then Ok Eof else Err (h2_to_io_error e)), self)
  end.

(** [release_capacity] refuses to give back more than was received, with an error that has
    no reason. *)
Definition h2_consume (self : RequestStream) (size : Z) : result ErrorKind unit * RequestStream :=
  if size <=? len (h2_read self) - h2_released self
  then (Ok tt, mkRequestStream (h2_read self) (h2_released self + size))
  else (Err UnexpectedEof, self).

(** ** The response stream *)

(** [RespondStream]: what was given to [send_data], whether with the end, and what
    [send_data] will say of the end. *)
Record RespondStream : Type := mkRespondStream { h2_sent : bytes; h2_ended : bool; h2_eof_outcome : result H2Error unit }.

(** The answers of [h2] in a round: the capacity, the outcome of [send_data], and of
    [poll_capacity], with [None] while it is pending. *)
Record H2WriteEnv : Type := mkH2WriteEnv {
  hw_capacity : Z;
  hw_send : result H2Error unit;
  hw_poll : option (option (result H2Error unit));
}.

(** The capacity after [reserve_capacity(n)]: what was assigned beyond [n] is given back. *)
Definition reserved (env : H2WriteEnv) (n : Z) : Z := Z.max 0 (Z.min (hw_capacity env) n).

Definition h2_write (env : H2WriteEnv) (self : RespondStream) (data : bytes) : M (result ErrorKind bytes * RespondStream) :=
  let! (sent, rest) := split_to (reserved env (len data)) data in
  match hw_send env with
  | Ok _ => Ret (Ok rest, mkRespondStream (h2_sent self ++ sent) (h2_ended self) (h2_eof_outcome self))
  | Err e => Ret (Err (h2_to_io_error e), self)
  end.

Definition h2_eof (self : RespondStream) : result ErrorKind unit * RespondStream :=
  match h2_eof_outcome self with
  | Ok _ => (Ok tt, mkRespondStream (h2_sent self) true (h2_eof_outcome self))
  | Err e => (Err (h2_to_io_error e), self)
  end.

(** [WaitWritable::poll]. *)
Definition h2_wait_writable (env : H2WriteEnv) (self : RespondStream) : option (result ErrorKind unit) * RespondStream :=
  (if 0 <? hw_capacity env then Some (Ok tt)
   else match hw_poll env with
        | None => None
        | Some None => Some (Err UnexpectedEof)
        | Some (Some (Ok _)) => Some (Ok tt)
        | Some (Some (Err e)) => Some (Err (h2_to_io_error e))
        end, self).

(** The sink of datagrams: all or nothing. *)
Definition h2_dropping_write (env : H2WriteEnv) (self : RespondStream) (data : bytes)
  : result ErrorKind SendStatus * RespondStream :=
  if len data <=? reserved env (len data) then
    match hw_send env with
    | Ok _ => (Ok Sent, mkRespondStream (h2_sent self ++ data) (h2_ended self) (h2_eof_outcome self))
    | Err e => (Err (h2_to_io_error e), self)
    end
  else (Ok Dropped, self).

(** [send_response] makes the stream. *)
Definition h2_send_response (o : result H2Error unit) (eof_outcome : result H2Error unit) (eof : bool)
  : result ErrorKind RespondStream :=
  match o with Ok _ => Ok (mkRespondStream [] eof eof_outcome) | Err e => Err (h2_to_io_error e) end.

#[export] Instance h2_source : Source RequestStream (option (option (result H2Error bytes))) := {
  src_read := h2_source_read;
  src_consume := h2_consume;
}.

#[export] Instance h2_sink : Sink RespondStream H2WriteEnv := {
  snk_write := h2_write;
  snk_eof := h2_eof;
  snk_flush _ self := (Some (Ok tt), self);
  snk_wait_writable := h2_wait_writable;
}.

(** ** Laws *)

#[export] Instance h2_source_laws : SourceLaws RequestStream (option (option (result H2Error bytes))).
Proof.
  refine {| produced := h2_read |}.
  - intros [[[b|e]|]|] s r s' E; simpl in E; injection E as <- <-; rewrite ?app_nil_r; try done.
    destruct (no_error e); by rewrite ?app_nil_r.
  - intros s n r s' E. simpl in E. unfold h2_consume in E. by destruct (_ <=? _); injection E as <- <-.
Defined.

Lemma h2_write_spec env self data :
  exists r self' k rest, h2_write env self data = Ret (r, self') /\ data = k ++ rest /\
    h2_sent self' = h2_sent self ++ k /\ forall x, r = Ok x -> x = rest.
Proof.
  unfold h2_write. pose proof (len_nonneg data).
  assert (0 <= reserved env (len data) <= len data) as Hr by (unfold reserved; lia).
  destruct (split_to_ok (reserved env (len data)) data) as (k & rest & -> & Hd & Hk); [lia|]. cbn [bindM].
  destruct (hw_send env) as [|e].
  - eexists _, _, k, rest. split_and!; [done..|]. by intros x [= <-].
  - eexists _, _, [], data. rewrite app_nil_r. by split_and!.
Qed.

#[export] Instance h2_sink_laws : SinkLaws RespondStream H2WriteEnv.
Proof.
  refine {| accepted := h2_sent; ended := h2_ended; fits _ := True |}; [done..| | | | |].
  - intros env s data _. destruct (h2_write_spec env s data) as (r & s' & _ & _ & E & _). by eexists _, _.
  - intros env s data r s' E. cbn in E. destruct (h2_write_spec env s data) as (r1 & s1 & k & rest & E1 & Hs).
    rewrite E in E1. apply Ret_inj in E1. injection E1 as <- <-. by exists k, rest.
  - intros s r s' E. simpl in E. unfold h2_eof in E. by destruct (h2_eof_outcome s); injection E as <- <-.
  - intros env s r s' E. by injection E as <- <-.
  - intros env s r s' E. by injection E as <- <-.
Defined.

#[export] Instance h2_takes_any : TakesAny RespondStream H2WriteEnv.
Proof. by intros b. Qed.

(** ** Flow control *)

Section credit.
Context {Snk WEnv : Type} `{SinkLaws Snk WEnv}.
Notation REnv := (option (option (result H2Error bytes))).
Context `{!Feeds RequestStream REnv Snk WEnv}.
Implicit Types self : SimplexPipe RequestStream Snk.
Implicit Types env : RoundEnv REnv WEnv.

(** The window given back to the client is what the pipe has forwarded. *)
Definition credited self : Prop := h2_released (sp_source self) = metered self.

Lemma next_data_credit env self r self' : next_data env self = (r, self') -> credited self -> credited self'.
Proof.
  unfold next_data. destruct (snk_flush _ _) as [[[[]|e]|] snk]; [|by intros [= <- <-]..].
  destruct (pending_chunk self) as [d|].
  - destruct (snk_wait_writable _ _) as [[[[]|e]|] snk']; by intros [= <- <-].
  - destruct (src_read _ _) as [d src] eqn:Er. intros [= <- <-]. unfold credited. cbn.
    cbn in Er. unfold h2_source_read in Er. repeat case_match; by simplify_eq.
Qed.

Lemma send_chunk_credit env self b r self' :
  in_hand self b -> credited self -> send_chunk env self b = Ret (r, self') -> credited self'.
Proof.
  intros (Hp & Hs & Hm & Hf) Hc E. unfold send_chunk in E.
  destruct (write_any (re_write env) (sp_sink self) b Hf) as (w & snk & k & rest & Ew & -> & Ek & Hr).
  rewrite Ew in E. cbn [bindM] in E. destruct w as [x|e]; [|injection E as <- <-; exact Hc].
  rewrite (Hr x eq_refl) in E. pose proof (len_nonneg k). pose proof (len_nonneg rest). rewrite len_app, usub_ok in E by lia. cbn [bindM] in E.
  unfold credited in *. cbn in E, Hs. unfold h2_consume in E.
  destruct (Z.leb_spec (len k + len rest - len rest) (len (h2_read (sp_source self)) - h2_released (sp_source self))) as [_|Hlt].
  - injection E as <- <-. destruct (_ =? _); cbn; lia.
  - exfalso. rewrite Hs, !len_app, Hc, Hm in Hlt. lia.
Qed.

Lemma finish_credit env self r self' : finish env self = (r, self') -> credited self -> credited self'.
Proof.
  unfold finish. destruct (snk_eof _) as [[[]|e] snk]; [|by intros [= <- <-]].
  destruct (snk_flush _ _) as [f snk']. by intros [= <- <-].
Qed.

Lemma exchange_credit (envs : list (RoundEnv REnv WEnv)) self r self' :
  intact self -> credited self -> exchange envs self = Ret (r, self') -> credited self'.
Proof.
  revert self. induction envs as [|env envs IH]; intros self Hi Hc; cbn [exchange]; [by intros [= <- <-]|].
  destruct (next_data env _) as [d s1] eqn:En. pose proof (next_data_credit _ _ _ _ En Hc) as Hc1.
  apply next_data_ok in En; [|exact Hi]. destruct d as [[[b|]|e]|]; [|..|by intros [= <- <-]].
  - destruct (send_chunk_ok env s1 b En) as ([[]|e] & s2 & Es & Ho & Hs2); rewrite Es; cbn [bindM];
      pose proof (send_chunk_credit _ _ _ _ _ En Hc1 Es) as Hc2; [|by intros [= <- <-]]. apply IH; [by apply Hs2|done].
  - intros [= Ef]. by eapply finish_credit.
  - by intros [= <- <-].
Qed.

End credit.

(** ** Properties *)

(** A tunnel over HTTP/2: the client's stream and a TCP connection. *)
Abbreviation H2Call := (DuplexCall (option (option (result H2Error bytes))) TxEnv (list (result ErrorKind bytes)) H2WriteEnv).

Definition h2_tunnel (now : Z) (eof_outcome : result H2Error unit) : DuplexPipe RequestStream StreamTx StreamRx RespondStream :=
  mkDuplex (simplex_new (mkRequestStream [] 0) (mkTx [] false false) now)
           (simplex_new (mkRx []) (mkRespondStream [] false eof_outcome) now).

Lemma duplex_credit timeout (calls : list H2Call) self r self' :
  intact (left_pipe self) -> intact (right_pipe self) -> credited (left_pipe self) ->
  duplex_exchange timeout calls self = Ret (r, self') -> credited (left_pipe self').
Proof.
  revert self. induction calls as [|call calls IH]; intros self Hl Hr Hc; cbn [duplex_exchange]; [by intros [= <- <-]|].
  destruct (exchange_once_ok call self Hl Hr) as (o & s1 & Eo & _ & _ & Ht & _). rewrite Eo. cbn [bindM].
  assert (credited (left_pipe s1)) as Hc1.
  { unfold exchange_once in Eo. destruct (exchange (dc_left call) (left_pipe self)) as [[r1 lp]|] eqn:El; cbn [bindM] in Eo; [|done].
    destruct (exchange (dc_right call) _) as [[r2 rp]|]; cbn [bindM] in Eo; [|done]. injection Eo as _ <-. cbn.
    by eapply exchange_credit. }
  destruct o as [[[]|e]|]; [|by intros [= <- <-]..]. destruct (Ht eq_refl) as [Hl1 Hr1].
  destruct (_ && _); [by intros [= <- <-]|]. by apply IH.
Qed.

(** C22: a tunnel over HTTP/2 carries its bytes.  Whatever the sockets and the HTTP/2 session
    answer, whatever part of each chunk the flow control of the session admits, and
    however often a direction is abandoned: the pipe never panics; in each direction the
    bytes written are a prefix of those read, also after an error, and all of them with
    the end when the pipe succeeds; and the window given back to the client is exactly
    what was forwarded, so that the client is never allowed more than the window ahead of
    the target. *)
Theorem h2_tunnel_integrity (now timeout : Z) (eof_outcome : result H2Error unit) (calls : list H2Call) :
  exists r self,
    duplex_exchange timeout calls (h2_tunnel now eof_outcome) = Ret (r, self) /\
    (exists rest, h2_read (sp_source (left_pipe self)) = tx_written (sp_sink (left_pipe self)) ++ rest) /\
    (exists rest, rx_read (sp_source (right_pipe self)) = h2_sent (sp_sink (right_pipe self)) ++ rest) /\
    h2_released (sp_source (left_pipe self)) = metered (left_pipe self) /\
    (r = Some (Ok tt) ->
       h2_read (sp_source (left_pipe self)) = tx_written (sp_sink (left_pipe self)) /\
       h2_released (sp_source (left_pipe self)) = len (h2_read (sp_source (left_pipe self))) /\
       eof_pending (sp_sink (left_pipe self)) = true /\
       rx_read (sp_source (right_pipe self)) = h2_sent (sp_sink (right_pipe self)) /\
       h2_ended (sp_sink (right_pipe self)) = true).
Proof.
  destruct (duplex_exchange_ok timeout calls (h2_tunnel now eof_outcome)) as (r & self & E & Hl & Hr & Hok); [done..|].
  assert (credited (left_pipe self)) as Hc by (by eapply duplex_credit; [..|exact E]).
  exists r, self. split_and!; [exact E|exact Hl|exact Hr|exact Hc|]. intros Hs.
  destruct (Hok Hs) as ((H1 & H2 & H3) & (H4 & H5 & _)). cbn in H1, H2, H3, H4, H5.
  split_and!; [done| |done..]. unfold credited in Hc. by rewrite Hc, H3, H1.
Qed.

(** Datagrams are sent whole or dropped. *)
Theorem h2_datagrams_whole env self data r self' :
  h2_dropping_write env self data = (r, self') ->
  h2_sent self' = h2_sent self ++ (match r with Ok Sent => data | _ => [] end).
Proof.
  unfold h2_dropping_write. destruct (_ <=? _); [destruct (hw_send env)|]; intros [= <- <-]; cbn; by rewrite ?app_nil_r.
Qed.

(** A session gives each of its requests the number of requests before it. *)
Theorem h2_listen_numbers handshake accept self r self' :
  h2_listen handshake accept self = (r, self') ->
  match r with
  | Ok (Some s) => h2_conn_id s = h2_next_conn_id self /\ h2_next_conn_id self' = h2_next_conn_id self + 1 /\
                   h2_address s = h2_client_address self /\ h2_state self' = H2Established
  | _ => h2_next_conn_id self' = h2_next_conn_id self
  end.
Proof. unfold h2_listen. intros E. repeat case_match; by simplify_eq. Qed.
