(* ===== verification/Http3Codec.v ===== *)
(** * The HTTP/3 codec

    lib/src/http3_codec.rs: the codec keeps a table of the streams of a QUIC socket; the
    two halves of a stream live in other tasks and talk to the codec by a queue of
    messages and to the socket directly.  The table is a state machine whose steps are the
    iterations of [listen] and what the halves do; the halves themselves are modelled over
    the socket of [Quic.v]. *)

From S2P Require Import Prelude.
From S2P Require Import Codecs.
From S2P Require Import Varint.
From S2P Require Import NetUtils.
From S2P Require Import Auth.
From S2P Require Import Tunnel.
From S2P Require Import UdpPipe.
From S2P Require Import Pipe.
From S2P Require Import ForwardedStream.
From S2P Require Import TlsDemux.
From S2P Require Import Http1Codec.
From S2P Require Import Quic.

(** ** The table of streams *)

Inductive StreamMessage : Type :=
| WaitingWritable (stream_id : Z)
| ShutdownMessage (stream_id : Z) (direction : option ShutdownDirection).

Definition message_stream_id (m : StreamMessage) : Z :=
  match m with WaitingWritable id | ShutdownMessage id _ => id end.

(** A channel of capacity one for events without content: whether an event is in it and
    whether the receiver exists. *)
Record EventChannel : Type := mkEvents { ev_queued : bool; ev_open : bool }.

(** [try_send]: a full channel is as good as a sent event; [None] when it is closed. *)
Definition notify (c : EventChannel) : option EventChannel := if ev_open c then Some (mkEvents true true) else None.

Record H3Stream : Type := mkH3Stream {
  hs_readable : EventChannel;
  hs_writable : EventChannel;
  hs_read_shutdown : bool;
  hs_write_shutdown : bool;
}.

(** The codec: its streams, the messages of the halves that it has not received, the
    streams for which the socket watches the capacity, and the calls of [shutdown_stream]
    on the connection: those that the codec made, and the streams whose sinks made it
    themselves, for the write direction, when they ended. *)
Record Http3Codec : Type := mkH3 {
  h3_streams : gmap Z H3Stream;
  h3_queue : list StreamMessage;
  h3_waiting : gset Z;
  h3_calls : list ShutdownCall;
  h3_eofs : list Z;
}.

Definition h3_new : Http3Codec := mkH3 ∅ [] ∅ [] [].

Definition set_streams (x : gmap Z H3Stream) (s : Http3Codec) : Http3Codec := mkH3 x (h3_queue s) (h3_waiting s) (h3_calls s) (h3_eofs s).
Definition set_waiting (x : gset Z) (s : Http3Codec) : Http3Codec := mkH3 (h3_streams s) (h3_queue s) x (h3_calls s) (h3_eofs s).
Definition set_queue (x : list StreamMessage) (s : Http3Codec) : Http3Codec := mkH3 (h3_streams s) x (h3_waiting s) (h3_calls s) (h3_eofs s).
Definition add_calls (x : list ShutdownCall) (s : Http3Codec) : Http3Codec :=
  mkH3 (h3_streams s) (h3_queue s) (h3_waiting s) (h3_calls s ++ x) (h3_eofs s).

Definition on_stream_shutdown (stream_id : Z) (direction : option ShutdownDirection) (s : Http3Codec)
  : result ErrorKind unit * Http3Codec :=
  match h3_streams s !! stream_id with
  | None => (Err NotFound, s)
  | Some stream =>
      let '(close_read, close_write) :=
        match direction with Some ShutRead => (true, false) | Some ShutWrite => (false, true) | None => (true, true) end in
      let do_read := close_read && negb (hs_read_shutdown stream) in
      let do_write := close_write && negb (hs_write_shutdown stream) in
      let s := add_calls ((if do_read then shutdown_stream stream_id ShutRead else [])
                          ++ (if do_write then shutdown_stream stream_id ShutWrite else [])) s in
      let stream := mkH3Stream (hs_readable stream) (hs_writable stream) (hs_read_shutdown stream || do_read)
                      (hs_write_shutdown stream || do_write) in
      (Ok tt,
       set_streams (if hs_read_shutdown stream && hs_write_shutdown stream then delete stream_id (h3_streams s)
                    else <[stream_id := stream]> (h3_streams s)) s)
  end.

Definition on_stream_message (m : StreamMessage) (s : Http3Codec) : result ErrorKind unit * Http3Codec :=
  match m with
  | WaitingWritable stream_id => (Ok tt, set_waiting (notify_stream_waiting_writable stream_id (h3_waiting s)) s)
  | ShutdownMessage stream_id direction => on_stream_shutdown stream_id direction s
  end.

Definition fresh_stream : H3Stream := mkH3Stream (mkEvents false true) (mkEvents false true) false false.

(** [on_request]: the stream that is handed out is that of the identifier. *)
Definition h3_open_stream (stream_id : Z) (s : Http3Codec) : Http3Codec :=
  set_streams (<[stream_id := fresh_stream]> (h3_streams s)) s.

Definition on_stream_readable (stream_id : Z) (s : Http3Codec) : result ErrorKind unit * Http3Codec :=
  match h3_streams s !! stream_id with
  | None => (Err NotFound, s)
  | Some stream =>
      match notify (hs_readable stream) with
      | Some c => (Ok tt, set_streams (<[stream_id := mkH3Stream c (hs_writable stream) (hs_read_shutdown stream)
                                                        (hs_write_shutdown stream)]> (h3_streams s)) s)
      | None => (Err Other, s)
      end
  end.

(** A stream of [notify_writable_streams]; failures are only logged. *)
Definition notify_writable (min : Z) (capacity : Z -> option Z) (s : Http3Codec) (stream_id : Z) : Http3Codec :=
  match h3_streams s !! stream_id, capacity stream_id with
  | Some stream, Some cap =>
      if cap <? min then set_waiting (notify_stream_waiting_writable stream_id (h3_waiting s)) s
      else
        match notify (hs_writable stream) with
        | Some c => set_streams (<[stream_id := mkH3Stream (hs_readable stream) c (hs_read_shutdown stream)
                                                  (hs_write_shutdown stream)]> (h3_streams s)) s
        | None => s
        end
  | _, _ => s
  end.

Definition notify_writable_streams (capacity : Z -> option Z) (l : list Z) (s : Http3Codec) : M Http3Codec :=
  let! min := MIN_USABLE_QUIC_STREAM_CAPACITY in Ret (fold_left (notify_writable min capacity) l s).

Definition on_socket_event (capacity : Z -> option Z) (ev : QuicSocketEvent) (s : Http3Codec)
  : M (result ErrorKind (option (Z * RequestHeaders)) * Http3Codec) :=
  match ev with
  | SockRequest stream_id request => Ret (Ok (Some (stream_id, request)), h3_open_stream stream_id s)
  | SockReadable stream_id =>
      let (r, s) := on_stream_readable stream_id s in
      Ret (match r with Ok _ => Ok None | Err e => Err e end, s)
  | SockWritable streams => let! s := notify_writable_streams capacity streams s in Ret (Ok None, s)
  | SockClose stream_id => Ret (Ok None, (on_stream_shutdown stream_id (Some ShutRead) s).2)
  end.

(** What ends the wait of [listen]: a message, or what the socket says. *)
Inductive FiredEvent : Type := FiredStream (m : StreamMessage) | FiredSocket (r : result ErrorKind QuicSocketEvent).

(** An iteration of [listen]: [None] is another iteration.  The queue is received from
    only while there are streams ([fired_ok]). *)
Definition h3_listen_round (capacity : Z -> option Z) (ev : FiredEvent) (s : Http3Codec)
  : M (option (result ErrorKind (Z * RequestHeaders)) * Http3Codec) :=
  match ev with
  | FiredStream m =>
      let s := set_queue (tail (h3_queue s)) s in
      Ret (None, match on_stream_message m s with
                 | (Ok _, s) => s
                 | (Err _, s) => (on_stream_shutdown (message_stream_id m) None s).2
                 end)
  | FiredSocket (Err e) => Ret (Some (Err e), s)
  | FiredSocket (Ok event) =>
      let! (r, s) := on_socket_event capacity event s in
      Ret (match r with Err e => Some (Err e) | Ok None => None | Ok (Some stream) => Some (Ok stream) end, s)
  end.

Definition fired_ok (ev : FiredEvent) (s : Http3Codec) : Prop :=
  match ev with FiredStream m => h3_streams s <> ∅ /\ head (h3_queue s) = Some m | FiredSocket _ => True end.

(** *** What the halves do *)

Definition h3_send (m : StreamMessage) (s : Http3Codec) : Http3Codec := set_queue (h3_queue s ++ [m]) s.

Definition close_readable (st : H3Stream) : H3Stream :=
  mkH3Stream (mkEvents (ev_queued (hs_readable st)) false) (hs_writable st) (hs_read_shutdown st) (hs_write_shutdown st).
Definition close_writable (st : H3Stream) : H3Stream :=
  mkH3Stream (hs_readable st) (mkEvents (ev_queued (hs_writable st)) false) (hs_read_shutdown st) (hs_write_shutdown st).
Definition take_readable (st : H3Stream) : H3Stream :=
  mkH3Stream (mkEvents false (ev_open (hs_readable st))) (hs_writable st) (hs_read_shutdown st) (hs_write_shutdown st).
Definition take_writable (st : H3Stream) : H3Stream :=
  mkH3Stream (hs_readable st) (mkEvents false (ev_open (hs_writable st))) (hs_read_shutdown st) (hs_write_shutdown st).

Definition on_stream (f : H3Stream -> H3Stream) (stream_id : Z) (s : Http3Codec) : Http3Codec :=
  set_streams (alter f stream_id (h3_streams s)) s.

(** [Drop] of [StreamSource] and of [StreamSink]. *)
Definition h3_source_dropped (stream_id : Z) (s : Http3Codec) : Http3Codec :=
  on_stream close_readable stream_id (h3_send (ShutdownMessage stream_id (Some ShutRead)) s).
Definition h3_sink_dropped (stream_id : Z) (s : Http3Codec) : Http3Codec :=
  on_stream close_writable stream_id (h3_send (ShutdownMessage stream_id (Some ShutWrite)) s).

(** [StreamSink::eof] calls [shutdown_stream] on the connection, past the codec. *)
Definition h3_sink_eof (stream_id : Z) (s : Http3Codec) : Http3Codec :=
  mkH3 (h3_streams s) (h3_queue s) (h3_waiting s) (h3_calls s) (h3_eofs s ++ [stream_id]).

(** All calls of [shutdown_stream]. *)
Definition socket_calls (s : Http3Codec) : list ShutdownCall :=
  h3_calls s ++ (h3_eofs s ≫= fun id => shutdown_stream id ShutWrite).

(** The codec with the requests it has handed out and the halves that exist. *)
Record H3World : Type := mkWorld {
  w_codec : Http3Codec;
  w_requests : gset Z;
  w_sources : gset Z;
  w_sinks : gset Z;
}.

Definition requested (ev : FiredEvent) : gset Z := match ev with FiredSocket (Ok (SockRequest id _)) => {[id]} | _ => ∅ end.

(** A stream of QUIC carries one request. *)
Inductive h3_step : H3World -> H3World -> Prop :=
| step_listen w capacity ev r c' :
    fired_ok ev (w_codec w) -> requested ev ## w_requests w -> h3_listen_round capacity ev (w_codec w) = Ret (r, c') ->
    h3_step w (mkWorld c' (requested ev ∪ w_requests w) (requested ev ∪ w_sources w) (requested ev ∪ w_sinks w))
| step_source_dropped w id : id ∈ w_sources w ->
    h3_step w (mkWorld (h3_source_dropped id (w_codec w)) (w_requests w) (w_sources w ∖ {[id]}) (w_sinks w))
| step_sink_dropped w id : id ∈ w_sinks w ->
    h3_step w (mkWorld (h3_sink_dropped id (w_codec w)) (w_requests w) (w_sources w) (w_sinks w ∖ {[id]}))
| step_sink_eof w id : id ∈ w_sinks w ->
    h3_step w (mkWorld (h3_sink_eof id (w_codec w)) (w_requests w) (w_sources w) (w_sinks w))
| step_sink_message w id m : id ∈ w_sinks w -> m = WaitingWritable id \/ m = ShutdownMessage id None ->
    h3_step w (mkWorld (h3_send m (w_codec w)) (w_requests w) (w_sources w) (w_sinks w))
| step_readable_taken w id : id ∈ w_sources w ->
    h3_step w (mkWorld (on_stream take_readable id (w_codec w)) (w_requests w) (w_sources w) (w_sinks w))
| step_writable_taken w id : id ∈ w_sinks w ->
    h3_step w (mkWorld (on_stream take_writable id (w_codec w)) (w_requests w) (w_sources w) (w_sinks w)).

Inductive h3_reach : H3World -> Prop :=
| h3_start : h3_reach (mkWorld h3_new ∅ ∅ ∅)
| h3_next w w' : h3_reach w -> h3_step w w' -> h3_reach w'.

(** ** The response half *)

(** What the connection has taken for the stream, and an end that it did not take. *)
Inductive Wire : Type := WireHeaders (r : ResponseHeaders) | WireBody (b : bytes) | WireFin | WireFinRefused.

Record H3Sink : Type := mkH3Sink {
  k_pending : option (ResponseHeaders * bool);
  k_overhead : Z;
  k_wire : list Wire;
  k_messages : list StreamMessage;
}.

Definition add_wire (x : list Wire) (k : H3Sink) : H3Sink := mkH3Sink (k_pending k) (k_overhead k) (k_wire k ++ x) (k_messages k).
Definition add_message (m : StreamMessage) (k : H3Sink) : H3Sink :=
  mkH3Sink (k_pending k) (k_overhead k) (k_wire k) (k_messages k ++ [m]).
Definition set_pending (x : option (ResponseHeaders * bool)) (k : H3Sink) : H3Sink :=
  mkH3Sink x (k_overhead k) (k_wire k) (k_messages k).
Definition set_overhead (x : Z) (k : H3Sink) : H3Sink := mkH3Sink (k_pending k) x (k_wire k) (k_messages k).

Section sink.
Context (stream_id : Z).

Definition h3_sink_new : M H3Sink := let! min := MIN_USABLE_QUIC_STREAM_CAPACITY in Ret (mkH3Sink None min [] []).

(** An attempt to send the headers: what the connection says, the flush after it, and
    whether the codec still exists. *)
Record HeadersEnv : Type := mkHeadersEnv { hv_send : SendHeaders; hv_flush : list Flushed; hv_codec : bool }.

Definition try_send_pending_response (env : HeadersEnv) (k : H3Sink) : result ErrorKind unit * H3Sink :=
  match k_pending k with
  | None => (Ok tt, k)
  | Some (response, eof) =>
      let k := match hv_send env with HeadersSent => add_wire [WireHeaders response] k | _ => k end in
      match socket_send_response (hv_send env) (hv_flush env) with
      | Ok _ =>
          let k := set_pending None k in
          if eof then if hv_codec env then (Ok tt, add_message (ShutdownMessage stream_id None) k) else (Err Other, k)
          else (Ok tt, k)
      | Err e => if bool_decide (e = WouldBlock) then (Ok tt, k) else (Err e, k)
      end
  end.

Definition h3_send_response (env : HeadersEnv) (response : ResponseHeaders) (eof : bool) (k : H3Sink)
  : result ErrorKind unit * H3Sink := try_send_pending_response env (set_pending (Some (response, eof)) k).

(** [write]; [o] and [flush] are what the socket does with the data. *)
Definition h3_write (o : SendBody) (flush : list Flushed) (k : H3Sink) (data : bytes) : M (result ErrorKind bytes * H3Sink) :=
  match k_pending k with
  | Some _ => Ret (Ok data, k)
  | None =>
      let k := match o with BodySent n => add_wire [WireBody (take n data)] k | _ => k end in
      let! r := socket_write o flush data in
      match r with
      | Err e => Ret (Err e, k)
      | Ok rest =>
          let! overhead := http3_data_frame_overhead (if len rest =? len data then len data else 1) in
          Ret (Ok rest, set_overhead overhead k)
      end
  end.

(** [eof]: [shutdown_stream] sends the end and ignores whether the connection takes it, which
    is what [stream_send] says given what the sink has sent. *)
Definition h3_eof (stream_send : H3Sink -> result ErrorKind unit) (k : H3Sink) : result ErrorKind unit * H3Sink :=
  (Ok tt, add_wire [match stream_send k with Ok _ => WireFin | Err _ => WireFinRefused end] k).

(** An iteration of [wait_body_capacity]: the capacity, whether the codec exists, and the
    event it waits for: [None] while there is none, [Some false] when the channel is
    closed. *)
Record CapacityRound : Type := mkCapacityRound { cr_capacity : option Z; cr_codec : bool; cr_event : option bool }.

Fixpoint wait_body_capacity (rounds : list CapacityRound) (k : H3Sink) : option (result ErrorKind unit) * H3Sink :=
  match rounds with
  | [] => (None, k)
  | r :: rounds =>
      match cr_capacity r with
      | None => (Some (Err Other), k)
      | Some n =>
          if k_overhead k <? n then (Some (Ok tt), k)
          else if negb (cr_codec r) then (Some (Err UnexpectedEof), k)
          else
            let k := add_message (WaitingWritable stream_id) k in
            match cr_event r with
            | None => (None, k)
            | Some false => (Some (Err UnexpectedEof), k)
            | Some true => wait_body_capacity rounds k
            end
      end
  end.

(** [flush], an iteration per attempt with the event it waits for. *)
Fixpoint h3_flush (rounds : list (option bool * HeadersEnv)) (k : H3Sink) : option (result ErrorKind unit) * H3Sink :=
  match k_pending k with
  | None => (Some (Ok tt), k)
  | Some _ =>
      match rounds with
      | [] => (None, k)
      | (event, env) :: rounds =>
          if negb (hv_codec env) then (Some (Err UnexpectedEof), k)
          else
            let k := add_message (WaitingWritable stream_id) k in
            match event with
            | None => (None, k)
            | Some false => (Some (Err UnexpectedEof), k)
            | Some true =>
                match try_send_pending_response env k with
                | (Ok _, k) => h3_flush rounds k
                | (Err e, k) => (Some (Err e), k)
                end
            end
      end
  end.

(** The sink of datagrams. *)
Definition h3_dropping_write (capacity : option Z) (o : SendBody) (flush : list Flushed) (k : H3Sink) (data : bytes)
  : M (result ErrorKind SendStatus * H3Sink) :=
  match capacity with
  | None => Ret (Err Other, k)
  | Some n =>
      let! overhead := http3_data_frame_overhead (len data) in
      if overhead + len data <=? n then
        let k := match o with BodySent n => add_wire [WireBody (take n data)] k | _ => k end in
        let! r := socket_write o flush data in
        Ret (match r with Err e => Err e | Ok unsent => Ok (if len unsent =? 0 then Sent else Dropped) end, k)
      else Ret (Ok Dropped, k)
  end.

End sink.

(** ** The request half *)

(** What the connection has buffered of the body, and what was read. *)
Record H3Source : Type := mkH3Source { q_buffered : list BodyPiece; q_read : bytes }.

(** An iteration of [read]: what arrived before it, the flush of the socket, whether the
    stream is finished, and the event it waits for. *)
Record ReadRound : Type := mkReadRound {
  rr_arrived : list BodyPiece;
  rr_flush : list Flushed;
  rr_finished : bool;
  rr_event : option bool;
}.

Fixpoint h3_read (rounds : list ReadRound) (q : H3Source) : option (result ErrorKind Data) * H3Source :=
  match rounds with
  | [] => (None, q)
  | r :: rounds =>
      let (o, l) := socket_read (rr_flush r) (q_buffered q ++ rr_arrived r) in
      match o with
      | Err e => (Some (Err e), mkH3Source l (q_read q))
      | Ok (Some chunk) => (Some (Ok (Chunk chunk)), mkH3Source l (q_read q ++ chunk))
      | Ok None =>
          let q := mkH3Source l (q_read q) in
          if rr_finished r then (Some (Ok Eof), q)
          else
            match rr_event r with
            | None => (None, q)
            | Some false => (Some (Err UnexpectedEof), q)
            | Some true => h3_read rounds q
            end
      end
  end.

#[export] Instance h3_source : Source H3Source (list ReadRound) := {
  src_read := h3_read;
  src_consume q _ := (Ok tt, q);
}.

#[export] Instance h3_source_laws : SourceLaws H3Source (list ReadRound).
Proof.
  refine {| produced := q_read |}.
  - intros env. cbn [src_read h3_source]. induction env as [|rd env IH]; intros s r s'; cbn [h3_read].
    { intros [= <- <-]. by rewrite app_nil_r. }
    destruct (socket_read _ _) as [[[chunk|]|e] l]; [by intros [= <- <-]| |by intros [= <- <-]; rewrite app_nil_r].
    destruct (rr_finished rd); [by intros [= <- <-]; rewrite app_nil_r|].
    destruct (rr_event rd) as [[]|]; [intros E; exact (IH _ _ _ E)|by intros [= <- <-]; rewrite app_nil_r..].
  - intros s n r s' E. by injection E as <- <-.
Defined.

(** ** The invariant of the table *)

Section table.
Context (requests sources sinks : gset Z).
Implicit Types (c : Http3Codec) (id : Z).

Abbreviation Rd id := (StreamShutdownRead id).
Abbreviation Wr id := (StreamFin id).

(** The entry of a stream reflects the calls made for it and the halves that exist; a
    stream that is gone was shut down in both directions. *)
Definition stream_ok c id : Prop :=
  match h3_streams c !! id with
  | Some st =>
      id ∈ requests /\ (hs_read_shutdown st = true <-> Rd id ∈ h3_calls c) /\ (hs_write_shutdown st = true <-> Wr id ∈ h3_calls c) /\
      ~ (Rd id ∈ h3_calls c /\ Wr id ∈ h3_calls c) /\
      (ev_open (hs_readable st) = true <-> id ∈ sources) /\ (ev_open (hs_writable st) = true <-> id ∈ sinks)
  | None => (id ∈ requests /\ Rd id ∈ h3_calls c /\ Wr id ∈ h3_calls c) \/ (id ∉ requests /\ Rd id ∉ h3_calls c /\ Wr id ∉ h3_calls c)
  end.

Definition table_ok c : Prop := (forall id, stream_ok c id) /\ NoDup (h3_calls c).

(** What a half that is gone has told the codec is still in the queue or was done. *)
Definition told (s : gset Z) (d : ShutdownDirection) (call : Z -> ShutdownCall) c : Prop :=
  forall id, id ∈ requests -> id ∉ s -> ShutdownMessage id (Some d) ∈ h3_queue c \/ call id ∈ h3_calls c.

(** What changes in a shutdown: only the entry and the calls of one stream. *)
Lemma shutdown_spec c id d r c' :
  table_ok c -> on_stream_shutdown id d c = (r, c') ->
  table_ok c' /\ h3_queue c' = h3_queue c /\ h3_calls c ⊆ h3_calls c' /\
  (id ∈ requests -> (d <> Some ShutWrite -> Rd id ∈ h3_calls c') /\ (d <> Some ShutRead -> Wr id ∈ h3_calls c')).
Proof.
  intros [Hok Hnd] E. unfold on_stream_shutdown in E. pose proof (Hok id) as Hid. unfold stream_ok in Hid.
  destruct (h3_streams c !! id) as [st|] eqn:Es.
  2:{ injection E as <- <-. split_and!; [done|done|done|]. intros Hr. destruct Hid as [(_ & ? & ?)|[? _]]; done. }
  destruct Hid as (Hreq & Hr & Hw & Hboth & Ho1 & Ho2).
  destruct (match d with Some ShutRead => (true, false) | Some ShutWrite => (false, true) | None => (true, true) end)
    as [cr cw] eqn:Ed.
  set (dr := cr && negb (hs_read_shutdown st)) in E. set (dw := cw && negb (hs_write_shutdown st)) in E.
  set (l := (if dr then [Rd id] else []) ++ (if dw then [Wr id] else [])) in *.
  assert (forall x, x ∈ l <-> (dr = true /\ x = Rd id) \/ (dw = true /\ x = Wr id)) as Hl.
  { intros x. unfold l. destruct dr, dw; cbn; set_solver. }
  assert (hs_read_shutdown st || dr = true <-> Rd id ∈ h3_calls c ++ l) as Hr'.
  { rewrite elem_of_app, <- Hr, Hl, orb_true_iff. naive_solver. }
  assert (hs_write_shutdown st || dw = true <-> Wr id ∈ h3_calls c ++ l) as Hw'.
  { rewrite elem_of_app, <- Hw, Hl, orb_true_iff. naive_solver. }
  assert (forall j, j <> id -> (Rd j ∈ h3_calls c ++ l <-> Rd j ∈ h3_calls c) /\ (Wr j ∈ h3_calls c ++ l <-> Wr j ∈ h3_calls c)) as Hother.
  { intros j Hj. rewrite !elem_of_app, !Hl. naive_solver. }
  assert (NoDup (h3_calls c ++ l)) as Hnd'.
  { apply NoDup_app. split; [done|]. split.
    - intros x Hx [[Hd ->]|[Hd ->]]%Hl; apply andb_true_iff in Hd as [_ Hd]; apply negb_true_iff in Hd;
        [apply Hr in Hx|apply Hw in Hx]; congruence.
    - unfold l. destruct dr, dw; cbn; repeat (apply NoDup_cons; split; [set_solver|]); by apply NoDup_nil. }
  cbn [shutdown_stream] in E. fold l in E. injection E as <- <-. cbn [h3_queue h3_calls set_streams add_calls].
  split_and!; [|done|intros x Hx; apply elem_of_app; by left|].
  - split; [|exact Hnd']. intros j. unfold stream_ok. cbn [h3_streams h3_calls set_streams add_calls hs_read_shutdown hs_write_shutdown].
    destruct (decide (j = id)) as [->|Hj].
    + destruct (hs_read_shutdown st || dr) eqn:E1, (hs_write_shutdown st || dw) eqn:E2; cbn [andb].
      * rewrite lookup_delete_eq. left. naive_solver.
      * rewrite lookup_insert_eq. cbn. naive_solver.
      * rewrite lookup_insert_eq. cbn. naive_solver.
      * rewrite lookup_insert_eq. cbn. naive_solver.
    + destruct (Hother j Hj) as [H1 H2]. specialize (Hok j). unfold stream_ok in Hok.
      assert ((if (hs_read_shutdown st || dr) && (hs_write_shutdown st || dw) then delete id (h3_streams c)
               else <[id := mkH3Stream (hs_readable st) (hs_writable st) (hs_read_shutdown st || dr) (hs_write_shutdown st || dw)]> (h3_streams c))
              !! j = h3_streams c !! j) as ->.
      { destruct ((hs_read_shutdown st || dr) && (hs_write_shutdown st || dw)); [by rewrite lookup_delete_ne|by rewrite lookup_insert_ne]. }
      destruct (h3_streams c !! j); rewrite H1, H2; exact Hok.
  - intros _. rewrite <- Hr', <- Hw', !orb_true_iff. unfold dr, dw.
    destruct d as [[]|]; injection Ed as <- <-; destruct (hs_read_shutdown st), (hs_write_shutdown st); cbn; naive_solver.
Qed.

(** Changes of an entry that keep what the invariant says of it. *)
Lemma table_update c c' :
  h3_calls c' = h3_calls c ->
  (forall id, option_map (fun st => (hs_read_shutdown st, hs_write_shutdown st, ev_open (hs_readable st), ev_open (hs_writable st)))
                (h3_streams c' !! id)
            = option_map (fun st => (hs_read_shutdown st, hs_write_shutdown st, ev_open (hs_readable st), ev_open (hs_writable st)))
                (h3_streams c !! id)) ->
  table_ok c -> table_ok c'.
Proof.
  intros Hc Hs [Hok Hnd]. split; [|by rewrite Hc]. intros id. specialize (Hok id). specialize (Hs id). unfold stream_ok in *. rewrite Hc.
  destruct (h3_streams c' !! id) as [st'|], (h3_streams c !! id) as [st|]; cbn in Hs; [|done..].
  injection Hs as -> -> -> ->. exact Hok.
Qed.

Lemma told_mono s d call c c' :
  told s d call c -> h3_queue c ⊆ h3_queue c' -> h3_calls c ⊆ h3_calls c' -> told s d call c'.
Proof. intros H Hq Hc id Hr Hs. destruct (H id Hr Hs) as [Hm|Hm]; [left; by apply Hq|right; by apply Hc]. Qed.

End table.

Record world_ok (w : H3World) : Prop := {
  wo_table : table_ok (w_requests w) (w_sources w) (w_sinks w) (w_codec w);
  wo_sources : w_sources w ⊆ w_requests w;
  wo_sinks : w_sinks w ⊆ w_requests w;
  wo_told_read : told (w_requests w) (w_sources w) ShutRead StreamShutdownRead (w_codec w);
  wo_told_write : told (w_requests w) (w_sinks w) ShutWrite StreamFin (w_codec w);
}.

(** A step of the codec that changes neither the requests nor the halves. *)
Lemma world_codec w c' :
  world_ok w -> table_ok (w_requests w) (w_sources w) (w_sinks w) c' -> h3_queue (w_codec w) ⊆ h3_queue c' ->
  h3_calls (w_codec w) ⊆ h3_calls c' -> world_ok (mkWorld c' (w_requests w) (w_sources w) (w_sinks w)).
Proof. intros [Ht Hs Hk Hr Hw] Ht' Hq Hc. split; [done..|by eapply told_mono|by eapply told_mono]. Qed.

Lemma world_update w c' :
  world_ok w -> h3_calls c' = h3_calls (w_codec w) -> h3_queue (w_codec w) ⊆ h3_queue c' ->
  (forall id, option_map (fun st => (hs_read_shutdown st, hs_write_shutdown st, ev_open (hs_readable st), ev_open (hs_writable st)))
                (h3_streams c' !! id)
            = option_map (fun st => (hs_read_shutdown st, hs_write_shutdown st, ev_open (hs_readable st), ev_open (hs_writable st)))
                (h3_streams (w_codec w) !! id)) ->
  world_ok (mkWorld c' (w_requests w) (w_sources w) (w_sinks w)).
Proof.
  intros Hok Hc Hq Hs. apply world_codec; [done| |done|by rewrite Hc]. eapply table_update; [exact Hc|exact Hs|]. apply Hok.
Qed.

(** The head of the queue, when it was acted on. *)
Lemma told_popped requests s d call c m q c' :
  told requests s d call c -> h3_queue c = m :: q -> h3_queue c' = q -> h3_calls c ⊆ h3_calls c' ->
  (forall id, id ∈ requests -> m = ShutdownMessage id (Some d) -> call id ∈ h3_calls c') -> told requests s d call c'.
Proof.
  intros H Hq Hq' Hc Hm id Hr Hs. destruct (H id Hr Hs) as [Hin|Hin]; [|right; by apply Hc].
  rewrite Hq in Hin. apply elem_of_cons in Hin as [E|Hin]; [right; by apply Hm|left; by rewrite Hq'].
Qed.

Lemma world_message w m q c' :
  world_ok w -> h3_queue (w_codec w) = m :: q ->
  (match on_stream_message m (set_queue q (w_codec w)) with
   | (Ok _, s) => s
   | (Err _, s) => (on_stream_shutdown (message_stream_id m) None s).2
   end) = c' ->
  world_ok (mkWorld c' (w_requests w) (w_sources w) (w_sinks w)).
Proof.
  intros [Ht Hs Hk Hr Hw] Hq E. set (c0 := set_queue q (w_codec w)) in E.
  assert (table_ok (w_requests w) (w_sources w) (w_sinks w) c0) as Ht0 by (by eapply table_update; [..|exact Ht]).
  assert (table_ok (w_requests w) (w_sources w) (w_sinks w) c' /\ h3_queue c' = q /\ h3_calls (w_codec w) ⊆ h3_calls c' /\
    forall id, id ∈ w_requests w ->
      (m = ShutdownMessage id (Some ShutRead) -> StreamShutdownRead id ∈ h3_calls c') /\
      (m = ShutdownMessage id (Some ShutWrite) -> StreamFin id ∈ h3_calls c')) as (Ht' & Hq' & Hc' & Hm).
  { destruct m as [id|id d]; cbn [on_stream_message] in E.
    - subst c'. split_and!; [by eapply table_update; [..|exact Ht0]|done|done|done].
    - destruct (on_stream_shutdown id d c0) as [r1 c1] eqn:E1. apply (shutdown_spec _ _ _ _ _ _ _ _ Ht0) in E1 as (T1 & Q1 & C1 & D1).
      destruct r1 as [[]|e].
      + subst c'. split_and!; [done|done|done|]. intros j Hj. split; intros [= -> ->]; by apply D1.
      + destruct (on_stream_shutdown (message_stream_id (ShutdownMessage id d)) None c1) as [r2 c2] eqn:E2.
        cbn in E. subst c2. apply (shutdown_spec _ _ _ _ _ _ _ _ T1) in E2 as (T2 & Q2 & C2 & D2).
        split_and!; [done|by rewrite Q2|by etrans|]. intros j Hj. split; intros [= -> ->]; apply C2; by apply D1. }
  split; cbn; [done|done|done| |].
  - eapply told_popped; [exact Hr|exact Hq|exact Hq'|exact Hc'|]. intros id Hid. by apply Hm.
  - eapply told_popped; [exact Hw|exact Hq|exact Hq'|exact Hc'|]. intros id Hid. by apply Hm.
Qed.

(** A new stream. *)
Lemma world_open w id :
  world_ok w -> id ∉ w_requests w ->
  world_ok (mkWorld (h3_open_stream id (w_codec w)) ({[id]} ∪ w_requests w) ({[id]} ∪ w_sources w) ({[id]} ∪ w_sinks w)).
Proof.
  intros [[Ht Hnd] Hs Hk Hr Hw] Hid. split; cbn; [|set_solver|set_solver| |].
  - split; [|done]. intros j. unfold stream_ok. cbn [h3_open_stream h3_streams h3_calls set_streams].
    specialize (Ht j). unfold stream_ok in Ht. destruct (decide (j = id)) as [->|Hj].
    + rewrite lookup_insert_eq. destruct (h3_streams (w_codec w) !! id); [naive_solver|]. cbn. set_solver.
    + rewrite lookup_insert_ne by done. destruct (h3_streams (w_codec w) !! j); set_solver.
  - intros j Hj1 Hj2. apply (Hr j); set_solver.
  - intros j Hj1 Hj2. apply (Hw j); set_solver.
Qed.

(** The halves going away. *)
Lemma world_source_dropped w id :
  world_ok w -> id ∈ w_sources w ->
  world_ok (mkWorld (h3_source_dropped id (w_codec w)) (w_requests w) (w_sources w ∖ {[id]}) (w_sinks w)).
Proof.
  intros [[Ht Hnd] Hs Hk Hr Hw] Hid. split; cbn; [|set_solver|done| |].
  - split; [|done]. intros j. unfold stream_ok. cbn. specialize (Ht j). unfold stream_ok in Ht. destruct (decide (j = id)) as [->|Hj].
    + rewrite lookup_alter_eq. destruct (h3_streams (w_codec w) !! id); cbn; [|done]. split_and!; try apply Ht; set_solver.
    + rewrite lookup_alter_ne by done. destruct (h3_streams (w_codec w) !! j); [|done]. split_and!; try apply Ht; set_solver.
  - intros j Hj1 Hj2. cbn. destruct (decide (j = id)) as [->|Hj]; [left; set_solver|]. destruct (Hr j); set_solver.
  - intros j Hj1 Hj2. cbn. destruct (Hw j); set_solver.
Qed.

Lemma world_sink_dropped w id :
  world_ok w -> id ∈ w_sinks w ->
  world_ok (mkWorld (h3_sink_dropped id (w_codec w)) (w_requests w) (w_sources w) (w_sinks w ∖ {[id]})).
Proof.
  intros [[Ht Hnd] Hs Hk Hr Hw] Hid. split; cbn; [|done|set_solver| |].
  - split; [|done]. intros j. unfold stream_ok. cbn. specialize (Ht j). unfold stream_ok in Ht. destruct (decide (j = id)) as [->|Hj].
    + rewrite lookup_alter_eq. destruct (h3_streams (w_codec w) !! id); cbn; [|done]. split_and!; try apply Ht; set_solver.
    + rewrite lookup_alter_ne by done. destruct (h3_streams (w_codec w) !! j); [|done]. split_and!; try apply Ht; set_solver.
  - intros j Hj1 Hj2. cbn. destruct (Hr j); set_solver.
  - intros j Hj1 Hj2. cbn. destruct (decide (j = id)) as [->|Hj]; [left; set_solver|]. destruct (Hw j); set_solver.
Qed.

Abbreviation entry_view := (fun st => (hs_read_shutdown st, hs_write_shutdown st, ev_open (hs_readable st), ev_open (hs_writable st))).

(** A change of one entry that keeps its view keeps that of the table. *)
Lemma view_insert (m : gmap Z H3Stream) id st st' j :
  m !! id = Some st -> entry_view st' = entry_view st ->
  option_map entry_view (<[id := st']> m !! j) = option_map entry_view (m !! j).
Proof.
  intros Hm Hv. destruct (decide (j = id)) as [->|Hj]; [by rewrite lookup_insert_eq, Hm; cbn; f_equal|by rewrite lookup_insert_ne].
Qed.

Lemma notify_open c c' : notify c = Some c' -> ev_open c' = ev_open c.
Proof. unfold notify. destruct (ev_open c); [|done]. by intros [= <-]. Qed.

Lemma world_notify w min capacity id : world_ok w ->
  world_ok (mkWorld (notify_writable min capacity (w_codec w) id) (w_requests w) (w_sources w) (w_sinks w)).
Proof.
  intros Hok. apply world_update; [done| | |].
  - unfold notify_writable. by repeat case_match.
  - unfold notify_writable. repeat case_match; done.
  - intros j. unfold notify_writable. destruct (h3_streams (w_codec w) !! id) as [st|] eqn:Es; [|done].
    destruct (capacity id) as [cap|]; [|done]. destruct (cap <? min); [done|].
    destruct (notify (hs_writable st)) as [c|] eqn:En; [|done]. apply notify_open in En. cbn.
    eapply view_insert; [exact Es|]. cbn. by rewrite En.
Qed.

Lemma world_notify_all l w min capacity : world_ok w ->
  world_ok (mkWorld (fold_left (notify_writable min capacity) l (w_codec w)) (w_requests w) (w_sources w) (w_sinks w)).
Proof.
  revert w. induction l as [|id l IH]; intros w Hok; [by destruct w|]. cbn.
  exact (IH _ (world_notify w min capacity id Hok)).
Qed.

Lemma world_listen w capacity ev r c' :
  world_ok w -> fired_ok ev (w_codec w) -> requested ev ## w_requests w -> h3_listen_round capacity ev (w_codec w) = Ret (r, c') ->
  world_ok (mkWorld c' (requested ev ∪ w_requests w) (requested ev ∪ w_sources w) (requested ev ∪ w_sinks w)).
Proof.
  intros Hok Hf Hnew E. destruct ev as [m|[ev|e]].
  - destruct Hf as [_ Hq]. destruct (h3_queue (w_codec w)) as [|m' q] eqn:Eq; [done|]. cbn in Hq. injection Hq as ->.
    cbn [requested]. rewrite !(left_id_L ∅ (∪)). cbn [h3_listen_round] in E. rewrite Eq in E. cbn [tail] in E. injection E as _ E.
    by eapply world_message.
  - cbn [h3_listen_round] in E. destruct ev as [id req|id|l|id]; cbn [on_socket_event requested] in *.
    + cbn [bindM] in E. injection E as _ <-. apply world_open; [done|]. set_solver.
    + rewrite !(left_id_L ∅ (∪)). destruct (on_stream_readable id (w_codec w)) as [o c1] eqn:Er. cbn [bindM] in E. injection E as _ <-.
      unfold on_stream_readable in Er. destruct (h3_streams (w_codec w) !! id) as [st|] eqn:Es; [|injection Er as <- <-; by destruct w].
      destruct (notify (hs_readable st)) as [c|] eqn:En; injection Er as <- <-; [|by destruct w].
      apply notify_open in En. apply world_update; [done..|]. intros j. cbn. eapply view_insert; [exact Es|]. cbn. by rewrite En.
    + rewrite !(left_id_L ∅ (∪)). unfold notify_writable_streams in E.
      destruct MIN_USABLE_QUIC_STREAM_CAPACITY as [min|]; cbn [bindM] in E; [|done]. injection E as _ <-. by apply world_notify_all.
    + rewrite !(left_id_L ∅ (∪)). cbn [bindM] in E. injection E as _ <-.
      destruct (on_stream_shutdown id (Some ShutRead) (w_codec w)) as [o c1] eqn:Es.
      apply (shutdown_spec _ _ _ _ _ _ _ _ (wo_table _ Hok)) in Es as (T & Q & C & _). cbn [snd]. apply world_codec; [done|done|by rewrite Q|done].
  - cbn in E. injection E as _ <-. cbn [requested]. rewrite !(left_id_L ∅ (∪)). by destruct w.
Qed.

Lemma view_alter (f : H3Stream -> H3Stream) (m : gmap Z H3Stream) id j :
  (forall st, entry_view (f st) = entry_view st) -> option_map entry_view (alter f id m !! j) = option_map entry_view (m !! j).
Proof.
  intros Hf. destruct (decide (j = id)) as [->|Hj]; [|by rewrite lookup_alter_ne].
  rewrite lookup_alter_eq. destruct (m !! id) as [st|]; [|done]. cbn. f_equal. apply Hf.
Qed.

Lemma reach_world_ok w : h3_reach w -> world_ok w.
Proof.
  induction 1 as [|w w' _ Hok Hs].
  - split; [split; [|by apply NoDup_nil]|done|done|by intros id ?%elem_of_empty..].
    intros id. unfold stream_ok. cbn. rewrite lookup_empty. right. set_solver.
  - destruct Hs as [w capacity ev r c' Hf Hn E|w id Hid|w id Hid|w id Hid|w id m Hid Hm|w id Hid|w id Hid].
    + by eapply world_listen.
    + by apply world_source_dropped.
    + by apply world_sink_dropped.
    + by apply world_update.
    + apply world_update; [done|done| |done]. cbn. set_solver.
    + apply world_update; [done..|]. intros j. by apply view_alter.
    + apply world_update; [done..|]. intros j. by apply view_alter.
Qed.

(** ** Properties *)

#[export] Instance ShutdownCall_eq_dec : EqDecision ShutdownCall.
Proof. solve_decision. Defined.

(** How often a call was made for a stream. *)
Definition times {A} `{EqDecision A} (x : A) (l : list A) : nat := length (base.filter (fun y => y = x) l).

Lemma times_app {A} `{EqDecision A} (x : A) l k : times x (l ++ k) = (times x l + times x k)%nat.
Proof. unfold times. by rewrite filter_app, length_app. Qed.

Lemma times_NoDup {A} `{EqDecision A} (x : A) l : NoDup l -> (times x l <= 1)%nat.
Proof.
  intros Hnd%(NoDup_filter (fun y => y = x)). unfold times.
  destruct (base.filter (fun y => y = x) l) as [|a [|b k]] eqn:E; cbn; [lia|lia|].
  assert (a = x /\ b = x) as [-> ->].
  { split; [assert (a ∈ base.filter (fun y => y = x) l) as H by (rewrite E; set_solver)
      |assert (b ∈ base.filter (fun y => y = x) l) as H by (rewrite E; set_solver)]; by apply list_elem_of_filter in H as [-> _]. }
  apply NoDup_cons in Hnd as [Hnd _]. set_solver.
Qed.

Lemma times_eofs id l :
  times (StreamFin id) (l ≫= fun id => shutdown_stream id ShutWrite) = times id l /\
  times (StreamShutdownRead id) (l ≫= fun id => shutdown_stream id ShutWrite) = O.
Proof.
  induction l as [|a l [IH1 IH2]]; [done|]. rewrite bind_cons, !times_app, IH1, IH2. change (a :: l) with ([a] ++ l).
  rewrite times_app. unfold times. cbn [shutdown_stream]. rewrite !filter_cons, !filter_nil.
  repeat case_decide; simplify_eq; done.
Qed.


(** Data that arrives for a request whose body is no longer read ends the whole session:
    while the message that the body was dropped is on its way the channel is closed, and
    once the stream is gone it is not found; [listen] returns the error, and with it end
    all other streams of the connection. *)
Theorem h3_late_data_ends_session w capacity id :
  h3_reach w -> id ∈ w_requests w -> id ∉ w_sources w ->
  exists e, h3_listen_round capacity (FiredSocket (Ok (SockReadable id))) (w_codec w) = Ret (Some (Err e), w_codec w).
Proof.
  intros [[Ht _] _ _ _ _]%reach_world_ok Hid Hs. specialize (Ht id). unfold stream_ok in Ht.
  cbn [h3_listen_round on_socket_event]. unfold on_stream_readable. destruct (h3_streams (w_codec w) !! id) as [st|]; [|by eexists].
  unfold notify. destruct (ev_open (hs_readable st)) eqn:Eo; [|by eexists]. exfalso. naive_solver.
Qed.

Lemma min_usable : MIN_USABLE_QUIC_STREAM_CAPACITY = Ret 3.
Proof. reflexivity. Qed.

Lemma wait_spins id cap k n :
  cap <= k_overhead k ->
  wait_body_capacity id (replicate n (mkCapacityRound (Some cap) true (Some true))) k =
    (None, mkH3Sink (k_pending k) (k_overhead k) (k_wire k) (k_messages k ++ replicate n (WaitingWritable id))).
Proof.
  revert k. induction n as [|n IH]; intros k Hc; cbn [replicate wait_body_capacity].
  - rewrite app_nil_r. by destruct k.
  - cbn [cr_capacity cr_codec cr_event negb]. destruct (Z.ltb_spec (k_overhead k) cap); [lia|].
    rewrite IH by (cbn; lia). cbn. by rewrite <- app_assoc.
Qed.

(** The socket reports a stream writable from a capacity of three bytes on, a sink that had
    no luck with a chunk waits for more than its frame overhead.  Between the two they
    spin: the sink's message, the report of the socket, the event of the codec and the
    sink's next look at the capacity lead back to the same state without anything from
    outside, any number of times. *)
Theorem h3_writable_spins id st c k cap (capacity : Z -> option Z) fl bu br conn_id m :
  h3_streams c !! id = Some st -> hs_writable st = mkEvents false true -> h3_queue c = [] -> h3_waiting c = ∅ ->
  capacity id = Some cap -> 3 <= cap <= k_overhead k ->
  (forall n, exists k', wait_body_capacity id (replicate n (mkCapacityRound (Some cap) true (Some true))) k = (None, k') /\
     k_messages k' = k_messages k ++ replicate n (WaitingWritable id) /\ k_overhead k' = k_overhead k /\ k_wire k' = k_wire k) /\
  exists c1 c2,
    fired_ok (FiredStream (WaitingWritable id)) (h3_send (WaitingWritable id) c) /\
    h3_listen_round capacity (FiredStream (WaitingWritable id)) (h3_send (WaitingWritable id) c) = Ret (None, c1) /\
    socket_round fl bu br conn_id H3Done capacity m false (h3_waiting c1) = Ret (Some (Ok (SockWritable [id])), None, ∅) /\
    h3_listen_round capacity (FiredSocket (Ok (SockWritable [id]))) (set_waiting ∅ c1) = Ret (None, c2) /\
    on_stream take_writable id c2 = c.
Proof.
  intros Hst Hw Hq Hwait Hcap Hle. split.
  { intros n. eexists. split; [by apply wait_spins; lia|done]. }
  destruct c as [streams queue waiting calls eofs]. cbn in Hst, Hq, Hwait. subst queue waiting.
  exists (mkH3 streams [] ({[id]} ∪ ∅) calls eofs),
    (mkH3 (<[id := mkH3Stream (hs_readable st) (mkEvents true true) (hs_read_shutdown st) (hs_write_shutdown st)]> streams) [] ∅ calls eofs).
  split_and!; [|reflexivity|..].
  - cbn. split; [|done]. intros ->. by rewrite lookup_empty in Hst.
  - cbn [h3_waiting]. rewrite (right_id_L ∅ (∪)). unfold socket_round. cbn [process_pending_h3_events fst].
    rewrite min_usable. cbn [bindM]. rewrite elements_singleton.
    rewrite (filter_cons_True (fun i => wakeable 3 capacity i = true)) by (unfold wakeable; rewrite Hcap; apply Z.leb_le; lia).
    rewrite filter_nil. cbv zeta.
    rewrite (filter_singleton_False_L (C := gset Z) (fun i => i ∉ [id])); [done|]. intros Hn. apply Hn. by apply list_elem_of_singleton.
  - cbn [h3_listen_round on_socket_event]. unfold notify_writable_streams. rewrite min_usable. cbn [bindM fold_left].
    unfold notify_writable. cbn [set_waiting h3_streams]. rewrite Hst, Hcap. destruct (Z.ltb_spec cap 3); [lia|]. by rewrite Hw.
  - unfold on_stream, set_streams. cbn [h3_streams h3_queue h3_waiting h3_calls h3_eofs].
    f_equal. apply map_eq. intros j. destruct (decide (j = id)) as [->|Hj].
    + rewrite lookup_alter_eq, lookup_insert_eq, Hst. cbn. unfold take_writable. cbn. destruct st. cbn in Hw. by rewrite Hw.
    + by rewrite lookup_alter_ne, lookup_insert_ne.
Qed.

(** *** The halves *)

Lemma overhead_ok n : 0 <= n < 2 ^ 62 -> exists x, http3_data_frame_overhead n = Ret x.
Proof.
  intros Hn. unfold http3_data_frame_overhead, varint_len, MAX_QUIC_VARINT. cbn [Z.leb bindM].
  destruct (n <=? 63); [by eexists|]. destruct (n <=? 16383); [by eexists|]. destruct (n <=? 1073741823); [by eexists|].
  destruct (Z.leb_spec n 4611686018427387903); [by eexists|]. lia.
Qed.

(** The calls on a sink until one of them fails, with the bytes that writes took. *)
Inductive sink_run (id : Z) : H3Sink -> bytes -> H3Sink -> Prop :=
| run_end k : sink_run id k [] k
| run_write k o flush sent rest k1 b k2 :
    h3_write o flush k (sent ++ rest) = Ret (Ok rest, k1) -> sink_run id k1 b k2 -> sink_run id k (sent ++ b) k2
| run_flush k rounds r k1 b k2 :
    h3_flush id rounds k = (r, k1) -> (forall e, r <> Some (Err e)) -> sink_run id k1 b k2 -> sink_run id k b k2
| run_wait k rounds r k1 b k2 : wait_body_capacity id rounds k = (r, k1) -> sink_run id k1 b k2 -> sink_run id k b k2.

(** The response is pending and nothing was sent, or it was sent before these bytes. *)
Definition sink_state (response : ResponseHeaders) (eof : bool) (k : H3Sink) (b : bytes) : Prop :=
  (k_pending k = Some (response, eof) /\ k_wire k = [] /\ b = []) \/
  (k_pending k = None /\ exists pieces, k_wire k = WireHeaders response :: (WireBody <$> pieces) /\ mjoin pieces = b).

Lemma try_send_state id env k response eof r k' :
  sink_state response eof k [] -> k_pending k = Some (response, eof) ->
  try_send_pending_response id env k = (Ok r, k') -> sink_state response eof k' [].
Proof.
  intros [(Hp & Hw & _)|[Hp _]] Hp'; [|congruence]. unfold try_send_pending_response. rewrite Hp.
  destruct (hv_send env); cbn [socket_send_response].
  - destruct (flush_pending_data (hv_flush env)) as [[]|e] eqn:Ef.
    + destruct eof; [destruct (hv_codec env); [|done]|]; intros [= <- <-]; right; cbn; (split; [done|]); exists []; by rewrite Hw.
    + assert (e <> WouldBlock) as He.
      { clear -Ef. induction (hv_flush env) as [|f l IH]; [done|]. cbn in Ef.
        destruct (udp_socket_send_to f) as [[]|e'] eqn:Ew; cbn [bindR] in Ef; [by apply IH|]. injection Ef as ->.
        intros ->. destruct f as [| |e|]; cbn in Ew; try done. case_bool_decide; congruence. }
      rewrite bool_decide_eq_false_2 by done. done.
  - rewrite bool_decide_eq_true_2 by done. intros [= <- <-]. by left.
  - done.
Qed.

Lemma flush_state id rounds k response eof r k' b :
  sink_state response eof k b -> h3_flush id rounds k = (r, k') -> (forall e, r <> Some (Err e)) -> sink_state response eof k' b.
Proof.
  intros Hs E Hr. revert k Hs E. induction rounds as [|[ev env] rounds IH]; intros k Hs E.
  - cbn in E. destruct (k_pending k); by injection E as <- <-.
  - cbn [h3_flush] in E. destruct (k_pending k) as [[rs e]|] eqn:Hp; [|by injection E as <- <-].
    destruct Hs as [(Hp' & Hw & ->)|[Hp' _]]; [|congruence]. rewrite Hp in Hp'. injection Hp' as -> ->.
    destruct (negb _); [injection E as <- <-; by destruct (Hr UnexpectedEof)|].
    assert (sink_state response eof (add_message (WaitingWritable id) k) []) as Hs1 by (left; by cbn).
    destruct ev as [[]|]; [|injection E as <- <-; by destruct (Hr UnexpectedEof)|by injection E as <- <-].
    destruct (try_send_pending_response id env _) as [[[]|x] k1] eqn:Et; [|injection E as <- <-; by destruct (Hr x)].
    eapply IH; [|exact E]. by eapply try_send_state.
Qed.

Lemma wait_state id rounds k response eof r k' b :
  sink_state response eof k b -> wait_body_capacity id rounds k = (r, k') -> sink_state response eof k' b.
Proof.
  revert k. induction rounds as [|rd rounds IH]; intros k Hs; cbn [wait_body_capacity]; [by intros [= <- <-]|].
  destruct (cr_capacity rd) as [n|]; [|by intros [= <- <-]]. destruct (_ <? n); [by intros [= <- <-]|].
  destruct (negb _); [by intros [= <- <-]|]. destruct (cr_event rd) as [[]|]; [apply IH; exact Hs|by intros [= <- <-]..].
Qed.

Lemma write_state o flush k response eof sent rest k' b :
  sink_state response eof k b -> h3_write o flush k (sent ++ rest) = Ret (Ok rest, k') -> sink_state response eof k' (b ++ sent).
Proof.
  intros [(Hp & Hw & ->)|[Hp (ps & Hw & Hb)]] E; unfold h3_write in E; rewrite Hp in E.
  - injection E as E <-. left. split_and!; [done..|]. apply (f_equal length) in E. rewrite length_app in E. cbn. destruct sent; [done|cbn in E; lia].
  - destruct (socket_write o flush (sent ++ rest)) as [[x|e]|] eqn:Es; cbn [bindM] in E; [|done|done].
    destruct (http3_data_frame_overhead _) as [ov|]; cbn [bindM] in E; [|done]. injection E as -> <-. right. split; [by destruct o|].
    unfold socket_write in Es. destruct o as [n| |].
    + destruct (n <=? length (sent ++ rest))%nat eqn:En; cbn [bindM] in Es; [|done].
      destruct (flush_pending_data flush); cbn [bindR] in Es; [|done]. injection Es as Es.
      assert (take n (sent ++ rest) = sent) as Ht.
      { apply (app_inv_tail rest). rewrite <- Es at 2. apply take_drop. }
      exists (ps ++ [sent]). cbn. rewrite Ht, Hw, fmap_app. split; [done|]. by rewrite join_app, Hb; cbn; rewrite app_nil_r.
    + cbn [bindM] in Es. destruct (flush_pending_data flush); cbn [bindR] in Es; [|done]. injection Es as Es.
      exists ps. split; [done|]. apply (f_equal length) in Es. rewrite length_app in Es. destruct sent; [by rewrite app_nil_r|cbn in Es; lia].
    + done.
Qed.

(** A response over HTTP/3 is sent in order.  However the connection runs out of room and
    whatever a sink is asked for after its response: as long as the headers are pending no
    byte of the body is sent, then the headers are sent once, followed by exactly the bytes
    that the writes have taken; and a write never panics and returns what it did not
    take. *)
Theorem h3_response_in_order id env response eof k0 k b k' :
  h3_sink_new = Ret k0 -> h3_send_response id env response eof k0 = (Ok tt, k) -> sink_run id k b k' ->
  sink_state response eof k' b /\
  forall o flush data, len data < 2 ^ 62 -> (forall n, o = BodySent n -> (n <= length data)%nat) ->
    exists r k1, h3_write o flush k' data = Ret (r, k1) /\ forall rest, r = Ok rest -> rest `suffix_of` data.
Proof.
  intros Hnew Hsend Hrun. split.
  - assert (sink_state response eof k []) as Hs.
    { unfold h3_sink_new in Hnew. rewrite min_usable in Hnew. injection Hnew as <-. unfold h3_send_response in Hsend.
      eapply try_send_state; [|..|exact Hsend]; [by left|done]. }
    change b with ([] ++ b). revert Hs. generalize (@nil Z) as b0. clear -Hrun.
    induction Hrun as [k|k o flush sent rest k1 b k2 Hw _ IH|k rounds r k1 b k2 Hf He _ IH|k rounds r k1 b k2 Hf _ IH]; intros b0 Hs.
    + by rewrite app_nil_r.
    + rewrite app_assoc. apply IH. by eapply write_state.
    + apply IH. by eapply flush_state.
    + apply IH. by eapply wait_state.
  - intros o flush data Hlen Ho. unfold h3_write. pose proof (len_nonneg data). destruct (k_pending k').
    { eexists _, _. split; [done|]. intros rest [= <-]. reflexivity. }
    assert (exists x, http3_data_frame_overhead (len data) = Ret x) as [x Hx] by (apply overhead_ok; lia).
    unfold socket_write. destruct o as [n| |]; cbn [bindM].
    + specialize (Ho n eq_refl). rewrite (proj2 (Nat.leb_le _ _)) by done. cbn [bindM].
      destruct (flush_pending_data flush); cbn [bindR]; [|by eexists _, _].
      destruct (_ =? _); [rewrite Hx|]; cbn; (eexists _, _; split; [done|]); intros rest [= <-]; exists (take n data); by rewrite take_drop.
    + destruct (flush_pending_data flush); cbn [bindR]; [|by eexists _, _]. rewrite Z.eqb_refl, Hx. cbn.
      eexists _, _. split; [done|]. intros rest [= <-]. reflexivity.
    + by eexists _, _.
Qed.

(** A response that had to be deferred is lost when its sink ends or goes away before the
    next flush: the stream is finished and the headers were not sent. *)
Theorem h3_deferred_response_lost id response flush codec k0 :
  h3_sink_new = Ret k0 ->
  exists k, h3_send_response id (mkHeadersEnv HeadersBlocked flush codec) response true k0 = (Ok tt, k) /\
    k_wire (h3_eof (fun _ => Ok tt) k).2 = [WireFin] /\
    forall c st, h3_streams c !! id = Some st -> hs_write_shutdown st = false ->
      exists c', on_stream_message (ShutdownMessage id (Some ShutWrite)) c = (Ok tt, c') /\ h3_calls c' = h3_calls c ++ [StreamFin id].
Proof.
  unfold h3_sink_new. rewrite min_usable. intros [= <-]. eexists. split; [reflexivity|]. split; [done|].
  intros c st Hst Hw. cbn [on_stream_message]. unfold on_stream_shutdown. rewrite Hst, Hw. eexists. split; [reflexivity|done].
Qed.

Lemma socket_read_flushed flush l : flush_pending_data flush = Ok tt -> socket_read flush l = socket_read [] l.
Proof. unfold socket_read. intros ->. done. Qed.

(** The request half reads what arrived: chunks and what is still buffered are, in order,
    the pieces that arrived, and the end is reported only after all of them. *)
Theorem h3_body_read rounds q r q' :
  BodyError ∉ q_buffered q -> Forall (fun rd => BodyError ∉ rr_arrived rd /\ flush_pending_data (rr_flush rd) = Ok tt) rounds -> h3_read rounds q = (r, q') ->
  (exists seen, q_read q' ++ body_of (q_buffered q') = q_read q ++ body_of (q_buffered q ++ (seen ≫= rr_arrived)) /\ seen `prefix_of` rounds) /\
  (r = Some (Ok Eof) -> body_of (q_buffered q') = []) /\ BodyError ∉ q_buffered q'.
Proof.
  revert q. induction rounds as [|rd rounds IH]; intros q Hq Hrs; cbn [h3_read].
  { intros [= <- <-]. split_and!; [|done|done]. exists []. cbn. by rewrite app_nil_r. }
  apply Forall_cons in Hrs as [[Hrd Hfl] Hrs]. rewrite (socket_read_flushed _ _ Hfl).
  assert (BodyError ∉ q_buffered q ++ rr_arrived rd) as Hin by (rewrite elem_of_app; naive_solver).
  destruct (socket_read [] (q_buffered q ++ rr_arrived rd)) as [o l] eqn:Es.
  apply socket_read_ok in Es as (b & Hb & _ & Hl & Ho & Hend); [|done].
  assert ([rd] `prefix_of` rd :: rounds) as Hpre by (by exists rounds).
  assert ([rd] ≫= rr_arrived = rr_arrived rd) as Hone by (cbn; apply app_nil_r).
  destruct Ho as [[-> Hpos]|[-> ->]].
  - intros [= <- <-]. split_and!; [|done|done]. exists [rd]. rewrite Hone. cbn [q_read q_buffered]. by rewrite <- app_assoc, Hb.
  - cbn in Hb. assert (body_of l = []) as Hnil.
    { destruct Hend as [->|Hend]; [done|]. by vm_compute in Hend. }
    assert (exists seen, q_read q ++ body_of l = q_read q ++ body_of (q_buffered q ++ (seen ≫= rr_arrived)) /\ seen `prefix_of` rd :: rounds) as Hseen.
    { exists [rd]. by rewrite Hone, Hb. }
    destruct (rr_finished rd); [intros [= <- <-]; by split_and!|].
    destruct (rr_event rd) as [[]|]; [|intros [= <- <-]; by split_and!..].
    intros ((seen & Hs & Hp) & He & Hl')%IH; [|done|done]. split_and!; [|done|done]. exists (rd :: seen). cbn [q_read q_buffered] in Hs. rewrite Hs. split; [|by apply prefix_cons].
    unfold body_of in *. rewrite !bind_app, bind_cons, bind_app in *. by rewrite Hb, <- app_assoc.
Qed.

(** ** Witnesses *)

Definition sample_request : RequestHeaders := mkRequestHeaders (str "GET") (str "/") None None HTTP_3 [].

Definition sample_capacity (_ : Z) : option Z := Some 3.

(** A stream that was opened, whose sink has ended, and whose halves are gone. *)
Definition opened_world : H3World := mkWorld (h3_open_stream 4 h3_new) ({[4]} ∪ ∅) ({[4]} ∪ ∅) ({[4]} ∪ ∅).

Lemma opened_reached : h3_reach opened_world.
Proof.
  eapply h3_next; [apply h3_start|].
  apply (step_listen (mkWorld h3_new ∅ ∅ ∅) sample_capacity (FiredSocket (Ok (SockRequest 4 sample_request)))
    (Some (Ok (4, sample_request)))); [done|apply disjoint_empty_r|done].
Qed.

Definition ended_world : H3World :=
  mkWorld (h3_sink_eof 4 (w_codec opened_world)) (w_requests opened_world) (w_sources opened_world) (w_sinks opened_world).

Definition unread_world : H3World :=
  mkWorld (h3_source_dropped 4 (w_codec ended_world)) (w_requests ended_world) (w_sources ended_world ∖ {[4]}) (w_sinks ended_world).

Definition dropped_world : H3World :=
  mkWorld (h3_sink_dropped 4 (w_codec unread_world)) (w_requests unread_world) (w_sources unread_world) (w_sinks unread_world ∖ {[4]}).

Lemma dropped_reached : h3_reach dropped_world.
Proof.
  assert (4 ∈ {[4]} ∪ (∅ : gset Z)) as Hin by (apply elem_of_union_l; by apply elem_of_singleton).
  apply (h3_next unread_world); [apply (h3_next ended_world); [apply (h3_next opened_world); [apply opened_reached|]|]|].
  - by apply (step_sink_eof opened_world).
  - by apply (step_source_dropped ended_world).
  - by apply (step_sink_dropped unread_world).
Qed.

(** Both messages received. *)
Definition released_codec : Http3Codec := mkH3 ∅ [] ∅ [StreamShutdownRead 4; StreamFin 4] [4].

Lemma released_reached : h3_reach (mkWorld released_codec (w_requests dropped_world) (w_sources dropped_world) (w_sinks dropped_world)).
Proof.
  pose (c1 := mkH3 {[4 := mkH3Stream (mkEvents false false) (mkEvents false false) true false]}
    [ShutdownMessage 4 (Some ShutWrite)] ∅ [StreamShutdownRead 4] [4]).
  assert (forall w m c, h3_reach w -> fired_ok (FiredStream m) (w_codec w) ->
    h3_listen_round sample_capacity (FiredStream m) (w_codec w) = Ret (None, c) ->
    h3_reach (mkWorld c (w_requests w) (w_sources w) (w_sinks w))) as Hstep.
  { intros w m c Hw Hf E. pose proof (step_listen w sample_capacity (FiredStream m) None c Hf (disjoint_empty_l _) E) as Hs.
    cbn [requested] in Hs. rewrite !(left_id_L ∅ (∪)) in Hs. by eapply h3_next. }
  assert (h3_reach (mkWorld c1 (w_requests dropped_world) (w_sources dropped_world) (w_sinks dropped_world))) as H1.
  { apply (Hstep dropped_world (ShutdownMessage 4 (Some ShutRead))); [apply dropped_reached|by split|by vm_compute]. }
  apply (Hstep _ (ShutdownMessage 4 (Some ShutWrite)) released_codec H1); [by split|by vm_compute].
Qed.

(** The end of a stream whose sink ended in order is sent twice. *)
Lemma h3_fin_sent_twice : exists w, h3_reach w /\ socket_calls (w_codec w) = [StreamShutdownRead 4; StreamFin 4; StreamFin 4].
Proof. eexists. split; [apply released_reached|reflexivity]. Qed.


Definition sample_sink : H3Sink := mkH3Sink None 3 [] [].

Definition sample_headers : ResponseHeaders := mkResponseHeaders HTTP_3 200 [].

(** The headers are deferred, sent by the flush, and followed by a part of the body. *)
Lemma h3_response_in_order_witness :
  exists k, sink_state sample_headers false k [1; 2] /\ k_wire k = [WireHeaders sample_headers; WireBody [1; 2]].
Proof.
  pose (k1 := mkH3Sink None 3 [WireHeaders sample_headers] [WaitingWritable 4]).
  pose (k2 := mkH3Sink None 2 [WireHeaders sample_headers; WireBody [1; 2]] [WaitingWritable 4]).
  exists k2. split; [|reflexivity].
  apply (h3_response_in_order 4 (mkHeadersEnv HeadersBlocked [] true) sample_headers false sample_sink
    (set_pending (Some (sample_headers, false)) sample_sink) [1; 2] k2).
  - reflexivity.
  - reflexivity.
  - eapply (run_flush _ _ [(Some true, mkHeadersEnv HeadersSent [] true)] (Some (Ok tt)) k1); [reflexivity|done|].
    apply (run_write _ _ (BodySent 2) [] [1; 2] [3] k2 []); [reflexivity|]. apply run_end.
Defined.

Lemma h3_writable_spins_witness :
  exists c1 c2,
    h3_listen_round sample_capacity (FiredStream (WaitingWritable 4)) (h3_send (WaitingWritable 4) (w_codec opened_world)) = Ret (None, c1) /\
    h3_listen_round sample_capacity (FiredSocket (Ok (SockWritable [4]))) (set_waiting ∅ c1) = Ret (None, c2) /\
    on_stream take_writable 4 c2 = w_codec opened_world.
Proof.
  destruct (h3_writable_spins 4 fresh_stream (w_codec opened_world) sample_sink 3 sample_capacity
    (fun _ => None) (fun _ => None) (fun _ _ => None) [] (Some PollH3)) as (_ & c1 & c2 & _ & E1 & _ & E2 & E3).
  - reflexivity.
  - reflexivity.
  - reflexivity.
  - reflexivity.
  - reflexivity.
  - cbn. lia.
  - exists c1, c2. split; [exact E1|]. split; [exact E2|exact E3].
Defined.

Lemma h3_late_data_ends_session_witness :
  exists e, h3_listen_round sample_capacity (FiredSocket (Ok (SockReadable 4))) (w_codec dropped_world) = Ret (Some (Err e), w_codec dropped_world).
Proof.
  apply (h3_late_data_ends_session dropped_world sample_capacity 4); [apply dropped_reached|cbn; set_solver|cbn; set_solver].
Defined.
