(* ===== verification/ClientTunnel.v ===== *)
(** * Tunnels over HTTP/3 and HTTP/1

    The stream halves of lib/src/http3_codec.rs and lib/src/http1_codec.rs as the sinks
    and sources of lib/src/pipe.rs, and what a duplex pipe between such a stream and a TCP
    connection guarantees.  The operations of the HTTP/3 halves are those of Http3Codec;
    the HTTP/1 halves talk to the codec through channels, and are put together with the
    runs of the session of Http1Codec. *)

From S2P Require Import Prelude.
From S2P Require Import Codecs.
From S2P Require Import Varint.
From S2P Require Import NetUtils.
From S2P Require Import Http1Codec.
From S2P Require Import Quic.
From S2P Require Import Pipe.
From S2P Require Import Http3Codec.
From S2P Require Import TcpForwarder.

(** ** A property of the sink through the pipe *)

Section sink_invariant.
Context {Src REnv Snk WEnv : Type} `{SourceLaws Src REnv} `{SinkLaws Snk WEnv} `{!Feeds Src REnv Snk WEnv}.
(** [before] holds until the end is passed on and [after] from then on: the end comes
    after a flush, and the flush that follows it does not suspend. *)
Context (before after : Snk -> Prop).
Context (write_before : forall env s d x s', before s -> snk_write env s d = Ret (Ok x, s') -> before s').
Context (wait_before : forall env s r s', before s -> snk_wait_writable env s = (r, s') -> before s').
Context (flush_before : forall env s r s', before s -> snk_flush env s = (r, s') -> (forall e, r <> Some (Err e)) -> before s').
Context (eof_after : forall env s s1 r s2, before s -> snk_flush env s = (Some (Ok tt), s1) -> snk_eof s1 = (r, s2) -> after s2).
Context (flush_after : forall env s, after s -> snk_flush env s = (Some (Ok tt), s)).
Implicit Types self : SimplexPipe Src Snk.
Implicit Types env : RoundEnv REnv WEnv.

(** The sink after a round that did not fail; before the end it has just been flushed. *)
Lemma next_data_before env self r self' :
  intact self -> before (sp_sink self) -> next_data env self = (r, self') ->
  match r with
  | Some (Err _) => True
  | Some (Ok Eof) => before (sp_sink self') /\ forall r snk, snk_eof (sp_sink self') = (r, snk) -> after snk
  | _ => before (sp_sink self')
  end.
Proof.
  intros (_ & _ & Hp & _) Hb. unfold next_data.
  destruct (snk_flush _ _) as [[[[]|e]|] snk] eqn:Ef; [|by intros [= <- <-]|].
  2:{ intros [= <- <-]. by eapply flush_before. }
  assert (before snk) as Hb1 by (by eapply flush_before).
  destruct (pending_chunk self) as [[d|]|]; [|done|].
  - destruct (snk_wait_writable _ _) as [[[[]|e]|] snk'] eqn:Ew; intros [= <- <-]; try done; by eapply wait_before.
  - destruct (src_read _ _) as [d src]. intros [= <- <-]. cbn [sp_sink]. destruct d as [[[]|]|]; [done| |done..].
    split; [done|]. cbn. intros r snk' E. exact (eof_after _ _ _ _ _ Hb Ef E).
Qed.

Lemma send_chunk_before env self b self' :
  before (sp_sink self) -> send_chunk env self b = Ret (Ok tt, self') -> before (sp_sink self').
Proof.
  intros Hb E. unfold send_chunk in E. destruct (snk_write _ _ _) as [[[x|e] snk]|] eqn:Ew; cbn [bindM] in E; [|done..].
  destruct (usub _ _) as [n|]; cbn [bindM] in E; [|done]. destruct (src_consume _ _) as [[[]|] src]; [|done].
  injection E as <-. destruct (_ =? _); cbn; by eapply write_before.
Qed.

(** What is known of the sink after [exchange]. *)
Definition sink_post (r : option (result ErrorKind ExchangeOnceStatus)) self : Prop :=
  match r with
  | None | Some (Ok TimedOut) => before (sp_sink self)
  | Some (Ok Finished) => after (sp_sink self)
  | Some (Err _) => True
  end.

Lemma exchange_sink (envs : list (RoundEnv REnv WEnv)) self r self' :
  intact self -> before (sp_sink self) -> exchange envs self = Ret (r, self') -> sink_post r self'.
Proof.
  revert self. induction envs as [|env envs IH]; intros self Hi Hb; cbn [exchange]; [by intros [= <- <-]|].
  destruct (next_data env _) as [d s1] eqn:En.
  assert (intact (mkSimplex (sp_source self) (sp_sink self) (metered self) (pending_chunk self) (re_now env))) as Hi0 by done.
  pose proof (next_data_before _ _ _ _ Hi0 Hb En) as Hb1. apply next_data_ok in En; [|done].
  destruct d as [[[b|]|e]|]; [| |by intros [= <- <-]..].
  - destruct (send_chunk_ok env s1 b En) as ([[]|e] & s2 & Es & _ & Hs2); rewrite Es; cbn [bindM]; [|by intros [= <- <-]].
    apply IH; [by apply Hs2|]. by eapply send_chunk_before.
  - destruct Hb1 as [_ Ha]. unfold finish. destruct (snk_eof _) as [[[]|e] snk] eqn:Ee; [|by intros [= <- <-]].
    specialize (Ha _ _ eq_refl). rewrite flush_after by done. by intros [= <- <-].
Qed.

End sink_invariant.

(** The sink of the right pipe when the duplex pipe succeeds. *)
Section duplex_sink.
Context {Src1 REnv1 Snk1 WEnv1 : Type} `{SourceLaws Src1 REnv1} `{SinkLaws Snk1 WEnv1} `{!Feeds Src1 REnv1 Snk1 WEnv1}.
Context {Src2 REnv2 Snk2 WEnv2 : Type} `{SourceLaws Src2 REnv2} `{SinkLaws Snk2 WEnv2} `{!Feeds Src2 REnv2 Snk2 WEnv2}.
Context (before after : Snk2 -> Prop).
Context (exchange_right : forall (envs : list (RoundEnv REnv2 WEnv2)) (self : SimplexPipe Src2 Snk2) r self',
  intact self -> before (sp_sink self) -> exchange envs self = Ret (r, self') -> sink_post before after r self').
Implicit Types self : DuplexPipe Src1 Snk1 Src2 Snk2.
Implicit Types calls : list (DuplexCall REnv1 WEnv1 REnv2 WEnv2).

Lemma duplex_sink timeout calls self self' :
  intact (left_pipe self) -> intact (right_pipe self) -> before (sp_sink (right_pipe self)) ->
  duplex_exchange timeout calls self = Ret (Some (Ok tt), self') -> after (sp_sink (right_pipe self')).
Proof.
  revert self. induction calls as [|call calls IH]; intros self Hl Hr Hb; cbn [duplex_exchange]; [done|].
  destruct (exchange_once_ok call self Hl Hr) as (o & s1 & Eo & _ & _ & Ht & _). rewrite Eo. cbn [bindM].
  assert (match o with
          | Some (Ok TimedOut) => before (sp_sink (right_pipe s1))
          | Some (Ok Finished) => after (sp_sink (right_pipe s1))
          | _ => True end) as Hs.
  { clear Ht. unfold exchange_once in Eo.
    destruct (exchange (dc_left call) _) as [[r1 lp]|]; cbn [bindM] in Eo; [|done].
    destruct (exchange (dc_right call) _) as [[r2 rp]|] eqn:Er; cbn [bindM] in Eo; [|done].
    apply exchange_right in Er; [|done..]. apply Ret_inj in Eo. injection Eo as <- <-. cbn [right_pipe].
    destruct r1 as [[[]|]|], r2 as [[[]|]|], (left_first call); cbn in *; done. }
  destruct o as [[[]|e]|]; [|by intros [= <-]|done..]. destruct (Ht eq_refl) as [Hl1 Hr1].
  destruct (_ && _); [done|]. by apply IH.
Qed.

End duplex_sink.

(** ** HTTP/3 *)

(** The answers of the session in a round: to a write and its flush, to the wait for
    capacity, and to the attempts to send the headers. *)
Record H3WriteEnv : Type := mkH3WriteEnv {
  kw_send : SendBody;
  kw_flush : list Flushed;
  kw_capacity : list CapacityRound;
  kw_headers : list (option bool * HeadersEnv);
}.

(** The connection takes at most what it is given. *)
Definition admitted (o : SendBody) (data : bytes) : SendBody :=
  match o with BodySent n => BodySent (Nat.min n (length data)) | o => o end.

Definition wire_body (l : list Wire) : bytes := l ≫= fun w => match w with WireBody b => b | _ => [] end.
(** The sink was told the end, whether the connection took it or not. *)
Definition wire_fin (l : list Wire) : bool := existsb (fun w => match w with WireFin | WireFinRefused => true | _ => false end) l.

Lemma wire_body_pieces response pieces fin :
  wire_body (WireHeaders response :: (WireBody <$> pieces) ++ fin) = mjoin pieces ++ wire_body fin.
Proof. unfold wire_body. cbn. rewrite bind_app. f_equal. induction pieces as [|b l IH]; [done|]. cbn. by rewrite IH. Qed.

Section h3.
(** [stream_send_fin] is what the connection says to the end. *)
Context (stream_id : Z) (stream_send_fin : H3Sink -> result ErrorKind unit).

#[local] Instance h3_sink : Sink H3Sink H3WriteEnv := {
  snk_write env k data := h3_write (admitted (kw_send env) data) (kw_flush env) k data;
  snk_eof := h3_eof stream_send_fin;
  snk_flush env := h3_flush stream_id (kw_headers env);
  snk_wait_writable env := wait_body_capacity stream_id (kw_capacity env);
}.

Lemma wire_app l l' : wire_body (l ++ l') = wire_body l ++ wire_body l'.
Proof. apply bind_app. Qed.

(** The headers do not count as body, nor as an end. *)
Lemma try_send_wire env k r k' : try_send_pending_response stream_id env k = (r, k') ->
  wire_body (k_wire k') = wire_body (k_wire k) /\ wire_fin (k_wire k') = wire_fin (k_wire k).
Proof.
  unfold try_send_pending_response. destruct (k_pending k) as [[response eof]|]; [|by intros [= <- <-]].
  destruct (hv_send env), (socket_send_response _ _) as [[]|e]; try destruct eof; try destruct (hv_codec env);
    repeat case_bool_decide; intros [= <- <-]; cbn; unfold wire_fin; rewrite ?wire_app, ?existsb_app; cbn;
    by rewrite ?app_nil_r, ?orb_false_r.
Qed.

Lemma flush_wire rounds k r k' : h3_flush stream_id rounds k = (r, k') ->
  wire_body (k_wire k') = wire_body (k_wire k) /\ wire_fin (k_wire k') = wire_fin (k_wire k).
Proof.
  revert k. induction rounds as [|[ev env] rounds IH]; intros k; cbn [h3_flush];
    (destruct (k_pending k); [|by intros [= <- <-]]); [by intros [= <- <-]|].
  destruct (negb _); [by intros [= <- <-]|]. destruct ev as [[]|]; [|by intros [= <- <-]..].
  destruct (try_send_pending_response _ _ _) as [[[]|e] k1] eqn:Et; apply try_send_wire in Et as [Hb Hf]; cbn in Hb, Hf.
  - intros [-> ->]%IH. done.
  - by intros [= <- <-].
Qed.

Lemma wait_wire rounds k r k' : wait_body_capacity stream_id rounds k = (r, k') -> k_wire k' = k_wire k.
Proof.
  revert k. induction rounds as [|rd rounds IH]; intros k; cbn [wait_body_capacity]; [by intros [= <- <-]|].
  destruct (cr_capacity rd); [|by intros [= <- <-]]. destruct (_ <? _); [by intros [= <- <-]|].
  destruct (negb _); [by intros [= <- <-]|]. destruct (cr_event rd) as [[]|]; [|by intros [= <- <-]..]. by intros ->%IH.
Qed.

(** A write takes what the connection takes of the data. *)
Lemma h3_write_spec o flush k data : len data < 2 ^ 62 ->
  exists r k', h3_write (admitted o data) flush k data = Ret (r, k').
Proof.
  intros Hlen. unfold h3_write. pose proof (len_nonneg data). destruct (k_pending k); [by eexists _, _|].
  destruct (overhead_ok (len data)) as [x Hx]; [lia|]. destruct (overhead_ok 1) as [y Hy]; [lia|].
  destruct o as [n| |]; unfold socket_write; cbn [admitted bindM]; [|destruct (flush_pending_data flush); cbn [bindR]|by eexists _, _].
  - rewrite (proj2 (Nat.leb_le _ _)) by lia. cbn [bindM]. destruct (flush_pending_data flush); cbn [bindR]; [|by eexists _, _].
    destruct (_ =? _); [rewrite Hx|rewrite Hy]; by eexists _, _.
  - rewrite Z.eqb_refl, Hx. by eexists _, _.
  - by eexists _, _.
Qed.

Lemma h3_write_prefix o flush k data r k' : h3_write (admitted o data) flush k data = Ret (r, k') ->
  exists sent rest, data = sent ++ rest /\ wire_body (k_wire k') = wire_body (k_wire k) ++ sent /\
    forall x, r = Ok x -> x = rest.
Proof.
  unfold h3_write. destruct (k_pending k).
  { intros [= <- <-]. exists [], data. rewrite app_nil_r. split_and!; [done..|]. by intros x [= <-]. }
  assert (forall sent rest r k', wire_body (k_wire k') = wire_body (k_wire k) ++ sent -> data = sent ++ rest ->
    (forall x, r = Ok x -> x = rest) -> exists sent rest, data = sent ++ rest /\
      wire_body (k_wire k') = wire_body (k_wire k) ++ sent /\ forall x : bytes, r = @Ok ErrorKind _ x -> x = rest) as Hex by eauto.
  destruct o as [n| |]; unfold socket_write; cbn [admitted bindM].
  - rewrite (proj2 (Nat.leb_le _ _)) by lia. cbn [bindM]. set (m := Nat.min n (length data)).
    assert (wire_body (k_wire (add_wire [WireBody (take m data)] k)) = wire_body (k_wire k) ++ take m data) as Hw.
    { cbn. rewrite wire_app. cbn. by rewrite app_nil_r. }
    destruct (flush_pending_data flush); cbn [bindR bindM].
    + destruct (http3_data_frame_overhead _); cbn [bindM]; [|done]. intros [= <- <-].
      apply (Hex (take m data) (drop m data)); [done|by rewrite take_drop|by intros x [= <-]].
    + intros [= <- <-]. apply (Hex (take m data) (drop m data)); [done|by rewrite take_drop|done].
  - destruct (flush_pending_data flush); cbn [bindR bindM].
    + destruct (http3_data_frame_overhead _); cbn [bindM]; [|done]. intros [= <- <-].
      apply (Hex [] data); [by rewrite app_nil_r|done|by intros x [= <-]].
    + intros [= <- <-]. apply (Hex [] data); [by rewrite app_nil_r|done..].
  - intros [= <- <-]. apply (Hex [] data); [by rewrite app_nil_r|done..].
Qed.

#[local] Instance h3_sink_laws : SinkLaws H3Sink H3WriteEnv.
Proof.
  refine {| accepted k := wire_body (k_wire k); ended k := wire_fin (k_wire k); fits data := len data < 2 ^ 62 |}.
  - intros k rest. rewrite len_app. pose proof (len_nonneg k). lia.
  - intros data. unfold READ_CHUNK_SIZE. lia.
  - intros env s data. apply h3_write_spec.
  - intros env s data r s'. apply h3_write_prefix.
  - intros s r s' E. injection E as <- <-. cbn. unfold wire_fin. rewrite wire_app, existsb_app.
    destruct (stream_send_fin s); cbn; by rewrite orb_true_r, app_nil_r.
  - intros env s r s'. apply flush_wire.
  - intros env s r s' E. by rewrite (wait_wire _ _ _ _ E).
Defined.

(** *** The order of what is sent *)

Section order.
Context (response : ResponseHeaders).

(** The headers are pending and nothing was sent, or they were sent before the body. *)
Definition not_ended (k : H3Sink) : Prop := sink_state response false k (wire_body (k_wire k)).

(** The end as the connection took it or not, at some moment. *)
Definition fin_of (x : Wire) : Prop :=
  exists k, x = match stream_send_fin k with Ok _ => WireFin | Err _ => WireFinRefused end.

(** The whole stream: the headers, the body in pieces, and the end. *)
Definition whole (k : H3Sink) : Prop :=
  k_pending k = None /\ exists pieces fin, k_wire k = WireHeaders response :: (WireBody <$> pieces) ++ [fin] /\ fin_of fin.

Lemma not_ended_write env s d x s' : not_ended s -> snk_write env s d = Ret (Ok x, s') -> not_ended s'.
Proof.
  intros Hs E. cbn in E. destruct (h3_write_prefix _ _ _ _ _ _ E) as (sent & rest & -> & Hb & Hx).
  specialize (Hx x eq_refl) as ->. unfold not_ended. rewrite Hb. by eapply write_state.
Qed.

Lemma not_ended_flush env s r s' :
  not_ended s -> snk_flush env s = (r, s') -> (forall e, r <> Some (Err e)) -> not_ended s'.
Proof.
  intros Hs E Hr. cbn in E. unfold not_ended. destruct (flush_wire _ _ _ _ E) as [-> _]. by eapply flush_state.
Qed.

Lemma not_ended_wait env s r s' : not_ended s -> snk_wait_writable env s = (r, s') -> not_ended s'.
Proof. intros Hs E. cbn in E. unfold not_ended. rewrite (wait_wire _ _ _ _ E). by eapply wait_state. Qed.

Lemma flushed_not_pending rounds k k' : h3_flush stream_id rounds k = (Some (Ok tt), k') -> k_pending k' = None.
Proof.
  revert k. induction rounds as [|[ev env] rounds IH]; intros k; cbn [h3_flush];
    (destruct (k_pending k) eqn:Ep; [|by intros [= <-]]); [done|].
  destruct (negb _); [done|]. destruct ev as [[]|]; [|done..].
  destruct (try_send_pending_response _ _ _) as [[[]|e] k1]; [apply IH|done].
Qed.

Lemma whole_after_eof env s s1 r s2 :
  not_ended s -> snk_flush env s = (Some (Ok tt), s1) -> snk_eof s1 = (r, s2) -> whole s2.
Proof.
  intros Hs E [= <- <-]. pose proof (flushed_not_pending _ _ _ E) as Hp.
  assert (not_ended s1) as [(Hp' & _)|(_ & pieces & Hw & _)] by (by eapply not_ended_flush); [congruence|].
  split; [done|]. eexists pieces, _. cbn. rewrite Hw. split; [done|]. by exists s1.
Qed.

Lemma whole_flush env s : whole s -> snk_flush env s = (Some (Ok tt), s).
Proof. intros [Hp _]. cbn. by destruct (kw_headers env); cbn; rewrite Hp. Qed.

End order.

(** A tunnel over HTTP/3: the client's stream and a TCP connection. *)
Definition h3_tunnel (now : Z) (sink : H3Sink) : DuplexPipe H3Source StreamTx StreamRx H3Sink :=
  mkDuplex (simplex_new (mkH3Source [] []) (mkTx [] false false) now) (simplex_new (mkRx []) sink now).

(** What a tunnel that succeeded has sent. *)
Lemma h3_tunnel_whole response timeout now k self
    (calls : list (DuplexCall (list ReadRound) TxEnv (list (result ErrorKind bytes)) H3WriteEnv)) :
  sink_state response false k [] -> wire_body (k_wire k) = [] ->
  duplex_exchange timeout calls (h3_tunnel now k) = Ret (Some (Ok tt), self) ->
  whole response (sp_sink (right_pipe self)).
Proof.
  intros Hs Hk. apply (duplex_sink (not_ended response)).
  - intros envs p r p'. apply exchange_sink; eauto using not_ended_write, not_ended_wait, not_ended_flush, whole_after_eof, whole_flush.
  - done.
  - by split; cbn; rewrite Hk.
  - cbn. unfold not_ended. by rewrite Hk.
Qed.

End h3.

(** ** HTTP/1 *)

(** The halves of an HTTP/1 stream: what was received from the codec, and what was put
    into its channel, with whether [download_eof] was notified and whether the sink still
    has its sender. *)
Record H1Source : Type := mkH1Source { u_read : bytes }.
Record H1Sink : Type := mkH1Sink { d_sent : bytes; d_notified : bool; d_sender : bool }.

(** [try_send] on the channel, and [reserve]: a permit, or the receiver is gone. *)
Inductive TrySend : Type := SendQueued | SendFull | SendClosed.
Record H1WriteEnv : Type := mkH1WriteEnv { wh_try_send : TrySend; wh_reserve : option bool }.

(** [recv]: a message, or [Some None] when the codec is gone. *)
Definition h1_read (received : option (option bytes)) (self : H1Source) : option (result ErrorKind Data) * H1Source :=
  match received with
  | None => (None, self)
  | Some None => (Some (Ok Eof), self)
  | Some (Some b) => (Some (Ok (Chunk b)), mkH1Source (u_read self ++ b))
  end.

Definition h1_write (env : H1WriteEnv) (self : H1Sink) (data : bytes) : result ErrorKind bytes * H1Sink :=
  if negb (d_sender self) then (Err UnexpectedEof, self)
  else
    match wh_try_send env with
    | SendQueued => (Ok [], mkH1Sink (d_sent self ++ data) (d_notified self) (d_sender self))
    | SendFull => (Ok data, self)
    | SendClosed => (Err UnexpectedEof, self)
    end.

Definition h1_eof (self : H1Sink) : result ErrorKind unit * H1Sink := (Ok tt, mkH1Sink (d_sent self) true (d_sender self)).

Definition h1_wait_writable (env : H1WriteEnv) (self : H1Sink) : option (result ErrorKind unit) * H1Sink :=
  (if negb (d_sender self) then Some (Err UnexpectedEof)
   else match wh_reserve env with
        | None => None
        | Some true => Some (Ok tt)
        | Some false => Some (Err UnexpectedEof)
        end, self).

#[export] Instance h1_source : Source H1Source (option (option bytes)) := {
  src_read := h1_read;
  src_consume self _ := (Ok tt, self);
}.

(** [flush] is the default of the trait, which does nothing. *)
#[export] Instance h1_sink : Sink H1Sink H1WriteEnv := {
  snk_write env self data := Ret (h1_write env self data);
  snk_eof := h1_eof;
  snk_flush _ self := (Some (Ok tt), self);
  snk_wait_writable := h1_wait_writable;
}.

#[export] Instance h1_source_laws : SourceLaws H1Source (option (option bytes)).
Proof.
  refine {| produced := u_read |}.
  - intros [[b|]|] s r s' E; injection E as <- <-; by rewrite ?app_nil_r.
  - intros s n r s' E. by injection E as <- <-.
Defined.

#[export] Instance h1_sink_laws : SinkLaws H1Sink H1WriteEnv.
Proof.
  refine {| accepted := d_sent; ended := d_notified; fits _ := True |}; [done..| | | | |].
  - intros env s data _. cbn. destruct (h1_write env s data). by eexists _, _.
  - intros env s data r s' E. cbn in E. unfold h1_write in E. apply Ret_inj in E.
    destruct (negb _); [|destruct (wh_try_send env)]; injection E as <- <-; cbn;
      [exists [], data|exists data, []|exists [], data..]; rewrite ?app_nil_r; (split_and!; [done..|]); by intros x [= <-].
  - intros s r s' E. by injection E as <- <-.
  - intros env s r s' E. by injection E as <- <-.
  - intros env s r s' E. by injection E as <- <-.
Defined.

#[export] Instance h1_takes_any : TakesAny H1Sink H1WriteEnv.
Proof. by intros b. Qed.

Definition h1_tunnel (now : Z) : DuplexPipe H1Source StreamTx StreamRx H1Sink :=
  mkDuplex (simplex_new (mkH1Source []) (mkTx [] false false) now)
           (simplex_new (mkRx []) (mkH1Sink [] false true) now).

Abbreviation H1Call := (DuplexCall (option (option bytes)) TxEnv (list (result ErrorKind bytes)) H1WriteEnv).

Abbreviation H3Call := (DuplexCall (list ReadRound) TxEnv (list (result ErrorKind bytes)) H3WriteEnv).

(** ** Properties *)

(** C23: a tunnel over HTTP/3 carries its bytes.  The response may be sent at once or be
    deferred for want of room; then, whatever the sockets and the connection answer,
    whatever part of each chunk the connection takes and however often a direction is
    abandoned: the pipe never panics; in each direction the bytes written are a prefix of
    those read, also after an error; and when the pipe succeeds the target has all the
    bytes and the end, and what was given to the connection for the client is the headers,
    once and first, all the bytes of the target, and the end of the stream, once.  The
    client is sent the end if the connection takes it: when it does not, the pipe succeeds
    all the same.  The headers that were deferred are never overtaken or lost in a tunnel. *)
Theorem h3_tunnel_integrity (id now timeout : Z) (stream_send_fin : H3Sink -> result ErrorKind unit) (env : HeadersEnv) (response : ResponseHeaders) (k0 k : H3Sink)
    (calls : list H3Call) :
  h3_sink_new = Ret k0 -> h3_send_response id env response false k0 = (Ok tt, k) ->
  exists r self,
    duplex_exchange (H2 := h3_sink id stream_send_fin) timeout calls (h3_tunnel now k) = Ret (r, self) /\
    (exists rest, q_read (sp_source (left_pipe self)) = tx_written (sp_sink (left_pipe self)) ++ rest) /\
    (exists rest, rx_read (sp_source (right_pipe self)) = wire_body (k_wire (sp_sink (right_pipe self))) ++ rest) /\
    (r = Some (Ok tt) ->
       q_read (sp_source (left_pipe self)) = tx_written (sp_sink (left_pipe self)) /\
       eof_pending (sp_sink (left_pipe self)) = true /\
       exists pieces fin,
         k_wire (sp_sink (right_pipe self)) = WireHeaders response :: (WireBody <$> pieces) ++ [fin] /\
         mjoin pieces = rx_read (sp_source (right_pipe self)) /\
         exists k', fin = match stream_send_fin k' with Ok _ => WireFin | Err _ => WireFinRefused end).
Proof.
  intros Hnew Hsend. unfold h3_sink_new in Hnew. rewrite min_usable in Hnew. injection Hnew as <-.
  assert (sink_state response false k []) as Hs.
  { unfold h3_send_response in Hsend. eapply try_send_state; [|..|exact Hsend]; [by left|done]. }
  assert (wire_body (k_wire k) = []) as Hk by (by destruct (try_send_wire _ _ _ _ _ Hsend) as [-> _]).
  pose (L := h3_sink_laws id stream_send_fin).
  destruct (duplex_exchange_ok (H6 := L) timeout calls (h3_tunnel now k)) as (r & self & E & Hl & Hr & Hok).
  { done. }
  { by split; cbn; rewrite Hk. }
  exists r, self. split_and!; [exact E|exact Hl|exact Hr|]. intros ->.
  destruct (Hok eq_refl) as ((H1 & H2 & H3) & (H4 & _)). split; [exact H1|]. split; [exact H2|].
  assert (whole stream_send_fin response (sp_sink (right_pipe self))) as (_ & pieces & fin & Hw & Hfin)
    by exact (h3_tunnel_whole id stream_send_fin response timeout now k self calls Hs Hk E).
  exists pieces, fin. split; [exact Hw|]. split; [|exact Hfin]. cbn in H4. rewrite H4, Hw, wire_body_pieces.
  destruct Hfin as [k' ->]. destruct (stream_send_fin k'); by rewrite app_nil_r.
Qed.

(** A tunnel over HTTP/1, end to end.  The pipe and the session exchange their bytes
    through the channels: the pipe has received what the session delivered, and the
    session has accepted the response and then what the pipe sent.  Then the target was
    written a prefix of what followed the request head on the client's connection, the
    client was written a prefix of the response and what the target sent, and when the
    pipe succeeds and the session ends in order, having accepted nothing after it started
    to close, all of it. *)
Theorem h1_tunnel_end_to_end parse_request uri_from_str uri_build request_ok canonical_reason
    (now timeout : Z) (calls : list H1Call) (s : Http1Codec) (obs : list Obs) (e : option (result ErrorKind unit))
    (response : bytes) r self :
  h1_run parse_request uri_from_str uri_build request_ok canonical_reason s obs e ->
  duplex_exchange timeout calls (h1_tunnel now) = Ret (r, self) ->
  obs_delivered obs = u_read (sp_source (left_pipe self)) ->
  obs_accepted obs = response ++ d_sent (sp_sink (right_pipe self)) ->
  tx_written (sp_sink (left_pipe self)) `prefix_of` obs_received obs /\
  obs_transmitted obs `prefix_of` response ++ rx_read (sp_source (right_pipe self)) /\
  (r = Some (Ok tt) -> e = Some (Ok tt) -> obs_accepted (after_closing obs) = [] ->
     obs_transmitted obs = response ++ rx_read (sp_source (right_pipe self))).
Proof.
  intros Hrun Hd Hdel Hacc. destruct (run_sim _ _ _ _ _ _ _ _ Hrun) as (a & Ha & _ & _).
  destruct (abs_run_fifo _ _ _ Ha) as [Hin Hout]. cbn in Hin, Hout.
  destruct (duplex_exchange_ok timeout calls (h1_tunnel now)) as (r' & self' & E & [l Hl] & [l' Hr] & Hok); [done..|].
  rewrite Hd in E. apply Ret_inj in E. injection E as <- <-. cbn in Hl, Hr. split_and!.
  - exists (l ++ abs_inbound a). by rewrite Hin, Hdel, Hl, <- app_assoc.
  - exists (abs_outbound a ++ l'). by rewrite Hr, !app_assoc, <- Hacc, Hout.
  - intros Hs -> Hlate. destruct (Hok Hs) as (_ & (Hc & _)). cbn in Hc. apply h1_session_end in Hrun as [-> _].
    rewrite Hc, <- Hacc, (accepted_cut obs), Hlate. by rewrite app_nil_r.
Qed.

(** ** Witnesses *)

(** The headers are deferred; the first round of the response sends them and two of three
    bytes, the second the last one, and the third finds the end of the target. *)
Definition sample_deferred : HeadersEnv := mkHeadersEnv HeadersBlocked [] true.
Definition sample_write_env : H3WriteEnv :=
  mkH3WriteEnv (BodySent 2) [] [mkCapacityRound (Some 5) true None] [(Some true, mkHeadersEnv HeadersSent [] true)].
Definition sample_tx_env : TxEnv := mkTxEnv [] (Some (Ok tt)) (Some (Ok tt)) (Some (Ok tt)).
Definition sample_right (read : list (result ErrorKind bytes)) : RoundEnv (list (result ErrorKind bytes)) H3WriteEnv :=
  mkRound 0 read sample_write_env sample_write_env sample_write_env sample_write_env.
Definition sample_left : RoundEnv (list ReadRound) TxEnv :=
  mkRound 0 [mkReadRound [] [] true None] sample_tx_env sample_tx_env sample_tx_env sample_tx_env.
Definition sample_h3_call : H3Call :=
  mkCall [sample_left] [sample_right [Ok [7; 8; 9]]; sample_right []; sample_right [Ok []]] true 0.

Lemma h3_tunnel_integrity_witness :
  exists self pieces,
    duplex_exchange (H2 := h3_sink 4 (fun _ => Ok tt)) 60 [sample_h3_call] (h3_tunnel 0 (mkH3Sink (Some (sample_headers, false)) 3 [] [])) =
      Ret (Some (Ok tt), self) /\
    k_wire (sp_sink (right_pipe self)) = WireHeaders sample_headers :: (WireBody <$> pieces) ++ [WireFin] /\
    mjoin pieces = [7; 8; 9].
Proof.
  destruct (h3_tunnel_integrity 4 0 60 (fun _ => Ok tt) sample_deferred sample_headers sample_sink
    (mkH3Sink (Some (sample_headers, false)) 3 [] []) [sample_h3_call] eq_refl eq_refl) as (r & self & E & _ & _ & Hok).
  assert (r = Some (Ok tt) /\ rx_read (sp_source (right_pipe self)) = [7; 8; 9]) as [-> Hrx].
  { vm_compute in E. apply Ret_inj in E. by injection E as <- <-. }
  destruct (Hok eq_refl) as (_ & _ & pieces & fin & Hw & Hp & k' & ->). exists self, pieces. split; [exact E|]. split; [exact Hw|].
  rewrite Hp. exact Hrx.
Defined.

(** The same tunnel over a connection that does not take the end. *)
Lemma h3_end_refused :
  exists self, duplex_exchange (H2 := h3_sink 4 (fun _ => Err Other)) 60 [sample_h3_call]
      (h3_tunnel 0 (mkH3Sink (Some (sample_headers, false)) 3 [] [])) = Ret (Some (Ok tt), self) /\
    WireFin ∉ k_wire (sp_sink (right_pipe self)).
Proof. eexists. split; [vm_compute; reflexivity|]. cbn. set_solver. Qed.
