(* ===== verification/QuicConfig.v ===== *)
(** * Certificates and configuration of QUIC connections

    lib/src/quic_multiplexer.rs: [make_quic_config_with_domain_contexts] with the callback
    that selects the certificate of a client hello, [accept_quic_connection] and
    [quic_recv]; and how lib/src/tls_demultiplexer.rs prints the metadata of a
    connection.  The TLS library and quiche are parameters: their calls succeed or
    fail, and what BoringSSL makes of the certificates is a class with its laws. *)

From S2P Require Import Prelude.
From S2P Require Import Codecs.
From S2P Require Import Varint.
From S2P Require Import NetUtils.
From S2P Require Import Auth.
From S2P Require Import TlsDemux.
From S2P Require Import Settings.
From S2P Require Import Quic.

(** ** The TLS session *)

(** The sessions of BoringSSL, by what they present: a chain of certificates, leaf first,
    and a key.  [ssl_new] is [SSL_new] over a context with a chain and a key, which it
    inherits; [SSL_use_certificate] sets the leaf and leaves the certificates behind it;
    [SSL_add1_chain_cert] appends to the chain; [SSL_use_PrivateKey] sets the key. *)
Class BoringSsl (X509 PKey Ssl : Type) : Type := {
  ssl_certs : Ssl -> list X509;
  ssl_key : Ssl -> option PKey;
  ssl_new : list X509 -> PKey -> Ssl;
  ssl_set_certificate : X509 -> Ssl -> result unit Ssl;
  ssl_add_chain_cert : X509 -> Ssl -> result unit Ssl;
  ssl_set_private_key : PKey -> Ssl -> result unit Ssl;
}.

Class BoringSslLaws (X509 PKey Ssl : Type) {ops : BoringSsl X509 PKey Ssl} : Prop := {
  new_certs chain key : ssl_certs (ssl_new chain key) = chain;
  new_key chain key : ssl_key (ssl_new chain key) = Some key;
  set_certificate_certs c s s' : ssl_set_certificate c s = Ok s' -> ssl_certs s' = c :: tail (ssl_certs s);
  add_chain_cert_certs c s s' : ssl_add_chain_cert c s = Ok s' -> ssl_certs s' = ssl_certs s ++ [c];
  set_private_key_certs k s s' : ssl_set_private_key k s = Ok s' -> ssl_certs s' = ssl_certs s /\ ssl_key s' = Some k;
}.

Section config.
Context {X509 PKey Ssl Identity : Type} `{ops : !BoringSsl X509 PKey Ssl}.

Record BoringIdentity : Type := mkBoring { bi_chain : list X509; bi_key : PKey }.

(** What a host has for QUIC: the parsed certificates with the key, and the files. *)
Context (boring : Identity -> BoringIdentity) (cert_chain_path key_path : Identity -> bytes).

(** The loop of the callback over the certificates behind the leaf. *)
Fixpoint add_chain_certs (l : list X509) (ssl : Ssl) : result unit Ssl :=
  match l with
  | [] => Ok ssl
  | cert :: l => let? ssl := ssl_add_chain_cert cert ssl in add_chain_certs l ssl
  end.

(** The callback on the hello: the session with the certificate of the host that the
    demultiplexer selects for HTTP/3, or as it is when it selects none. *)
Definition select_certificate (demux : TlsDemux Identity) (servername : option bytes) (ssl : Ssl) : M (result unit Ssl) :=
  match servername with
  | None => Ret (Ok ssl)
  | Some sni =>
      let! r := select demux [as_alpn Http3] sni in
      Ret (match r with
           | Err _ => Ok ssl
           | Ok meta =>
               match bi_chain (boring (cm_identity meta)) with
               | [] => Err tt
               | leaf :: rest =>
                   let? ssl := ssl_set_certificate leaf ssl in
                   let? ssl := add_chain_certs rest ssl in
                   ssl_set_private_key (bi_key (boring (cm_identity meta))) ssl
               end
           end)
  end.

(** ** The configuration *)

Record QuicConfig : Type := mkQuicConfig {
  qc_cert_chain : list X509;
  qc_private_key : PKey;
  qc_application_protos : list bytes;
  qc_max_idle_timeout : Z;
  qc_max_recv_udp_payload_size : Z;
  qc_max_send_udp_payload_size : Z;
  qc_initial_max_data : Z;
  qc_initial_max_stream_data_bidi_local : Z;
  qc_initial_max_stream_data_bidi_remote : Z;
  qc_initial_max_stream_data_uni : Z;
  qc_initial_max_streams_bidi : Z;
  qc_initial_max_streams_uni : Z;
  qc_max_connection_window : Z;
  qc_max_stream_window : Z;
  qc_disable_active_migration : bool;
  qc_early_data : bool;
}.

(** The outcomes of the calls of the libraries: a new context, what is read from the files
    of the default chain and of its key, and the configuration with that context. *)
Record ConfigEnv : Type := mkConfigEnv {
  ce_context : result ErrorKind unit;
  ce_chain_file : bytes -> result ErrorKind (list X509);
  ce_key_file : bytes -> result ErrorKind PKey;
  ce_config : result ErrorKind unit;
}.

(** The entry that a hash map yields first. *)
Context (first_host : gmap bytes (@TlsDemux.Host Identity) -> option (bytes * @TlsDemux.Host Identity)).

(** [Duration::as_millis] of a duration in nanoseconds, then [as u64]. *)
Definition as_millis_u64 (d : Z) : Z := (d / 10 ^ 6) mod 2 ^ 64.

Definition make_quic_config_with_domain_contexts (env : ConfigEnv) (core_settings : Settings) (demux : TlsDemux Identity)
  : M (result ErrorKind QuicConfig) :=
  let! quic_settings := unwrap (lp_quic (st_listen_protocols core_settings)) in
  match ce_context env with
  | Err e => Ret (Err e)
  | Ok _ =>
      let! bootstrap_meta := get_quic_connection_bootstrap_meta first_host demux in
      let cert := cert_chain_path (cm_identity bootstrap_meta) in
      let key := key_path (cm_identity bootstrap_meta) in
      Ret (let? chain := ce_chain_file env cert in
           let? key := ce_key_file env key in
           let? _ := match ce_config env with Ok _ => Ok tt | Err _ => Err Other end in
           Ok {| qc_cert_chain := chain;
                 qc_private_key := key;
                 qc_application_protos := [str "h3"];
                 qc_max_idle_timeout := as_millis_u64 (st_client_listener_timeout core_settings);
                 qc_max_recv_udp_payload_size := recv_udp_payload_size quic_settings;
                 qc_max_send_udp_payload_size := send_udp_payload_size quic_settings;
                 qc_initial_max_data := initial_max_data quic_settings;
                 qc_initial_max_stream_data_bidi_local := initial_max_stream_data_bidi_local quic_settings;
                 qc_initial_max_stream_data_bidi_remote := initial_max_stream_data_bidi_remote quic_settings;
                 qc_initial_max_stream_data_uni := initial_max_stream_data_uni quic_settings;
                 qc_initial_max_streams_bidi := initial_max_streams_bidi quic_settings;
                 qc_initial_max_streams_uni := initial_max_streams_uni quic_settings;
                 qc_max_connection_window := max_connection_window quic_settings;
                 qc_max_stream_window := max_stream_window quic_settings;
                 qc_disable_active_migration := disable_active_migration quic_settings;
                 qc_early_data := enable_early_data quic_settings |})
  end.

(** [quic_recv]: the bytes that the connection did not take are dropped. *)
Definition quic_recv (recv : result ErrorKind Z) : result ErrorKind unit :=
  match recv with Ok _ => Ok tt | Err _ => Err Other end.

(** [accept_quic_connection]: the configuration, [quiche::accept] with it, and the first
    packet, whose hello runs the callback; a hello that arrives whole may fail there. *)
Definition accept_quic_connection (env : ConfigEnv) (accept : QuicConfig -> result ErrorKind unit)
    (recv : QuicConfig -> result ErrorKind Z) (core_settings : Settings) (demux : TlsDemux Identity)
  : M (result ErrorKind QuicConfig) :=
  let! cfg := make_quic_config_with_domain_contexts env core_settings demux in
  Ret (let? cfg := cfg in
       let? _ := match accept cfg with Ok _ => Ok tt | Err _ => Err Other end in
       let? _ := quic_recv (recv cfg) in
       Ok cfg).

(** ** Lemmas *)

(** The session of a connection before its hello: that of the context. *)
Definition session_new (cfg : QuicConfig) : Ssl := ssl_new (qc_cert_chain cfg) (qc_private_key cfg).

Context `{!BoringSslLaws X509 PKey Ssl}.

Lemma add_chain_certs_spec l ssl ssl' : add_chain_certs l ssl = Ok ssl' -> ssl_certs ssl' = ssl_certs ssl ++ l.
Proof.
  revert ssl. induction l as [|c l IH]; intros ssl; cbn [add_chain_certs].
  - intros [= <-]. by rewrite app_nil_r.
  - destruct (ssl_add_chain_cert c ssl) as [s|] eqn:E; cbn [bindR]; [|done]. intros ->%IH.
    rewrite (add_chain_cert_certs _ _ _ E). by rewrite <- app_assoc.
Qed.

(** What the callback leaves: nothing changed when no host was selected; otherwise the leaf
    and the key of the host, and behind the leaf what was there and then the rest of the
    host's chain. *)
Lemma select_certificate_spec demux servername ssl ssl' :
  select_certificate demux servername ssl = Ret (Ok ssl') ->
  (ssl' = ssl /\ (servername = None \/ exists sni e, servername = Some sni /\ select demux [as_alpn Http3] sni = Ret (Err e))) \/
  exists sni meta leaf rest, servername = Some sni /\ select demux [as_alpn Http3] sni = Ret (Ok meta) /\
    bi_chain (boring (cm_identity meta)) = leaf :: rest /\
    ssl_certs ssl' = leaf :: tail (ssl_certs ssl) ++ rest /\ ssl_key ssl' = Some (bi_key (boring (cm_identity meta))).
Proof.
  unfold select_certificate. destruct servername as [sni|]; [|intros [= <-]; left; by auto].
  destruct (select demux _ sni) as [[meta|e]|] eqn:Es; cbn [bindM]; [|intros [= <-]; left; split; [done|]; right; by eauto|done].
  destruct (bi_chain _) as [|leaf rest] eqn:Eb; [done|].
  destruct (ssl_set_certificate leaf ssl) as [s1|] eqn:E1; cbn [bindR]; [|done].
  destruct (add_chain_certs rest s1) as [s2|] eqn:E2; cbn [bindR]; [|done]. intros E3%Ret_inj.
  apply set_private_key_certs in E3 as [H3 Hk]. apply add_chain_certs_spec in E2. apply set_certificate_certs in E1.
  right. exists sni, meta, leaf, rest. by rewrite H3, E2, E1.
Qed.

Lemma config_files env s demux cfg :
  make_quic_config_with_domain_contexts env s demux = Ret (Ok cfg) ->
  exists meta, get_quic_connection_bootstrap_meta first_host demux = Ret meta /\
    ce_chain_file env (cert_chain_path (cm_identity meta)) = Ok (qc_cert_chain cfg) /\
    ce_key_file env (key_path (cm_identity meta)) = Ok (qc_private_key cfg).
Proof.
  unfold make_quic_config_with_domain_contexts. destruct (lp_quic _) as [qs|]; cbn [unwrap bindM]; [|done].
  destruct (ce_context env); [|done]. destruct (get_quic_connection_bootstrap_meta _ _) as [meta|]; cbn [bindM]; [|done].
  destruct (ce_chain_file _ _) eqn:E1; cbn [bindR]; [|done]. destruct (ce_key_file _ _) eqn:E2; cbn [bindR]; [|done].
  destruct (ce_config _); cbn [bindR]; [|done]. intros [= <-]. by exists meta.
Qed.

(** The configuration is made without a panic as long as QUIC is configured and there is
    a main host, and fails only when a library call does. *)
Lemma config_total env s demux qs entry :
  lp_quic (st_listen_protocols s) = Some qs -> first_host (main_hosts demux) = Some entry ->
  exists r, make_quic_config_with_domain_contexts env s demux = Ret r /\
    (forall e, r = Err e -> (exists e, ce_context env = Err e) \/ (exists p e, ce_chain_file env p = Err e) \/
                            (exists p e, ce_key_file env p = Err e) \/ exists e, ce_config env = Err e).
Proof.
  intros Hq Hf. unfold make_quic_config_with_domain_contexts, get_quic_connection_bootstrap_meta. rewrite Hq, Hf.
  destruct entry as [name host]. cbn [unwrap bindM]. destruct (ce_context env) eqn:Ec; [|eexists; split; [done|]; by eauto].
  eexists. split; [done|]. intros e. destruct (ce_chain_file _ _) eqn:E1; cbn [bindR]; [|by eauto].
  destruct (ce_key_file _ _) eqn:E2; cbn [bindR]; [|by eauto 6]. destruct (ce_config env) eqn:E3; cbn [bindR]; [done|].
  intros _. by eauto 6.
Qed.

(** The idle timeout is that of the settings up to 2^64 milliseconds, and wraps around
    above: 2^61 seconds become no timeout at all. *)
Lemma idle_timeout_exact d : 0 <= d < 2 ^ 64 * 10 ^ 6 -> as_millis_u64 d = d / 10 ^ 6.
Proof. intros Hd. unfold as_millis_u64. apply Z.mod_small. split; [apply Z.div_pos; lia|]. apply Z.div_lt_upper_bound; lia. Qed.

Lemma idle_timeout_wraps : as_millis_u64 (from_secs (2 ^ 61)) = 0.
Proof. reflexivity. Qed.

(** ** Properties *)

(** C12: the certificate that a client over QUIC is shown.  For every configuration, hello
    with a name that is not empty, and demultiplexer, which is not replaced between the two
    times that it is asked: when the callback of the TLS library accepts the hello, the leaf
    and the key that the client is shown are those of the host in the metadata under which
    the connection is then served, or what the files of that host hold when the callback
    selected none.  Behind the leaf of a selected host come first the certificates behind
    the leaf in the file of the default host, and then the rest of the host's own chain. *)
Theorem quic_certificate_of_host (env : ConfigEnv) (s : Settings) (demux : TlsDemux Identity) (cfg : QuicConfig)
    (servername : option bytes) (ssl : Ssl) (penv : @PacketEnv Identity) (bootstrap meta : ConnectionMeta Identity) :
  make_quic_config_with_domain_contexts env s demux = Ret (Ok cfg) ->
  select_certificate demux servername (session_new cfg) = Ret (Ok ssl) ->
  ev_demux penv = demux -> ev_server_name penv = servername -> servername <> Some [] ->
  get_quic_connection_bootstrap_meta first_host demux = Ret bootstrap ->
  socket_meta penv bootstrap = Ret meta ->
  exists default_chain, ce_chain_file env (cert_chain_path (cm_identity bootstrap)) = Ok default_chain /\
    ((exists leaf rest, bi_chain (boring (cm_identity meta)) = leaf :: rest /\
        ssl_certs ssl = leaf :: tail default_chain ++ rest /\ ssl_key ssl = Some (bi_key (boring (cm_identity meta)))) \/
     (meta = bootstrap /\ ssl_certs ssl = default_chain /\
        exists key, ce_key_file env (key_path (cm_identity meta)) = Ok key /\ ssl_key ssl = Some key)).
Proof.
  intros Hc Hs Hd Hn Hne Hb Hm. apply config_files in Hc as (m0 & Hb0 & Hcert & Hkey).
  rewrite Hb in Hb0. apply Ret_inj in Hb0 as <-. unfold socket_meta in Hm. rewrite Hd, Hn in Hm.
  exists (qc_cert_chain cfg). split; [done|].
  apply select_certificate_spec in Hs as [(-> & Hs)|(sni & m & leaf & rest & -> & Hsel & Hch & Hl & Hk)];
    unfold session_new in *; rewrite ?new_certs, ?new_key in *.
  - right. assert (bootstrap = meta) as <-; [|by eauto].
    destruct Hs as [->|(sni & e & -> & Hsel)]; cbn [default] in Hm; [by injection Hm|].
    destruct (len (id sni) =? 0); [by injection Hm|]. unfold id in Hm. rewrite Hsel in Hm. by injection Hm.
  - left. exists leaf, rest. assert (m = meta) as <-; [|done].
    cbn [default] in Hm. unfold id in Hm. destruct (Z.eqb_spec (len sni) 0) as [E|_];
      [by assert (sni = []) as -> by (apply len_nil_inv; lia)|]. rewrite Hsel in Hm. by injection Hm.
Qed.

End config.

(** ** The metadata of a connection in the log *)

(** [Debug] of a string: quoted, with quotes, backslashes and the usual control characters
    escaped; [escape_other] is the escape of what else is not printable ASCII. *)
Definition printable (c : Z) : bool := (0x20 <=? c) && (c <=? 0x7E) && negb (c =? 0x22) && negb (c =? 0x5C).

Section debug.
Context (escape_other : Z -> bytes).

Definition escape_debug (c : Z) : bytes :=
  if c =? 0x22 then [0x5C; 0x22]
  else if c =? 0x5C then [0x5C; 0x5C]
  else if c =? 0x09 then [0x5C; 0x74]
  else if c =? 0x0A then [0x5C; 0x6E]
  else if c =? 0x0D then [0x5C; 0x72]
  else if c =? 0x00 then [0x5C; 0x30]
  else if printable c then [c]
  else escape_other c.

Definition debug_str (s : bytes) : bytes := [0x22] ++ (s ≫= escape_debug) ++ [0x22].

Definition debug_protocol (p : TlsProtocol) : bytes :=
  match p with Http1 => str "Http1" | Http2 => str "Http2" | Http3 => str "Http3" end.

Definition debug_channel (c : Channel) : bytes :=
  match c with
  | ChTunnel => str "Tunnel" | ChPing => str "Ping" | ChSpeedtest => str "Speedtest"
  | ChReverseProxy => str "ReverseProxy" | ChSubscription => str "Subscription"
  end.

(** [Debug for ConnectionMeta]: a name with credentials is scrubbed. *)
Definition connection_meta_debug {Identity} (self : ConnectionMeta Identity) : bytes :=
  let sni_ref := if bool_decide (is_Some (cm_sni_auth_creds self)) then scrub_sni (cm_sni self) else cm_sni self in
  str "ConnectionMeta { sni: " ++ [0x22] ++ sni_ref ++ [0x22]
  ++ str ", protocol: " ++ debug_protocol (cm_protocol self)
  ++ str ", channel: " ++ debug_channel (cm_channel self)
  ++ str ", sni_auth_creds: "
  ++ match cm_sni_auth_creds self with
     | None => str "None"
     | Some creds => str "Some(" ++ debug_str creds ++ str ")"
     end
  ++ str " }".

Lemma debug_str_printable s : forallb printable s = true -> debug_str s = [0x22] ++ s ++ [0x22].
Proof.
  intros H. unfold debug_str. f_equal. f_equal. induction s as [|c s IH]; [done|].
  cbn in H. apply andb_true_iff in H as [Hc Hs]. rewrite bind_cons, IH by done. cbn [app]. enough (escape_debug c = [c]) as -> by done.
  unfold escape_debug. rewrite Hc. unfold printable in Hc.
  destruct (Z.eqb_spec c 0x22), (Z.eqb_spec c 0x5C), (Z.eqb_spec c 0x09), (Z.eqb_spec c 0x0A), (Z.eqb_spec c 0x0D), (Z.eqb_spec c 0);
    subst; done.
Qed.

End debug.

Lemma infix_app_l (x a t : bytes) : (exists b c, t = b ++ x ++ c) -> exists b c, a ++ t = b ++ x ++ c.
Proof. intros (b & c & ->). exists (a ++ b), c. by rewrite app_assoc. Qed.

Lemma infix_app_r (x a t : bytes) : (exists b c, t = b ++ x ++ c) -> exists b c, t ++ a = b ++ x ++ c.
Proof. intros (b & c & ->). exists b, (c ++ a). by rewrite <- !app_assoc. Qed.

(** The credentials of the server name are written to the log.  When the demultiplexer
    takes credentials from the name, the text of the metadata has the name scrubbed, that
    is without them, and then the credentials themselves in clear. *)
Theorem sni_credentials_logged {Identity} escape_other (demux : TlsDemux Identity) alpn sni meta creds :
  demux_ok demux -> select demux alpn sni = Ret (Ok meta) -> cm_sni_auth_creds meta = Some creds -> forallb printable creds = true ->
  (exists host, sni = creds ++ 0x2E :: host /\
     scrub_sni sni = SCRUBBED_PLACEHOLDER ++ 0x2E :: host) /\
  exists before after, connection_meta_debug escape_other meta = before ++ creds ++ after.
Proof.
  intros Hok Hsel Hc Hp. destruct (select_spec demux alpn sni Hok) as (r & Er & Hr). rewrite Hsel in Er. apply Ret_inj in Er as <-.
  destruct (so_creds _ _ _ _ (Hr meta eq_refl) creds Hc) as (_ & Hni & _ & host & -> & _). split.
  - exists host. split; [done|]. unfold scrub_sni. rewrite find_char_app by done. by rewrite drop_app_length.
  - unfold connection_meta_debug. rewrite Hc, debug_str_printable by done.
    apply infix_app_l, infix_app_l, infix_app_l, infix_app_l, infix_app_l, infix_app_l, infix_app_l, infix_app_l, infix_app_l.
    apply infix_app_r, infix_app_l, infix_app_r, infix_app_l. eexists [], _. reflexivity.
Qed.

(** ** Witness *)

(** Sessions that follow the laws. *)
#[export] Instance sample_ssl : BoringSsl Z Z (list Z * option Z) := {
  ssl_certs s := s.1;
  ssl_key s := s.2;
  ssl_new chain key := (chain, Some key);
  ssl_set_certificate c s := Ok (c :: tail s.1, s.2);
  ssl_add_chain_cert c s := Ok (s.1 ++ [c], s.2);
  ssl_set_private_key k s := Ok (s.1, Some k);
}.

#[export] Instance sample_ssl_laws : BoringSslLaws Z Z (list Z * option Z).
Proof. constructor; intros; simpl in *; simplify_eq; done. Qed.

Definition sample_boring (_ : unit) : BoringIdentity := mkBoring [1; 2] 3.
Definition sample_config_env : ConfigEnv := mkConfigEnv (Ok tt) (fun _ => Ok [1; 2]) (fun _ => Ok 3) (Ok tt).
Definition sample_quic_settings : Settings :=
  builder_set (SetListenProtocols (mkListenProtocols None None (Some quic_default))) default_listen_address builder_new.

(** A client asks for the only host, whose chain has one certificate behind the leaf: it
    is shown that certificate twice. *)
Lemma quic_certificate_of_host_witness :
  exists cfg ssl,
    make_quic_config_with_domain_contexts (fun _ => str "chain.pem") (fun _ => str "key.pem") sample_first sample_config_env
      sample_quic_settings sample_demux = Ret (Ok cfg) /\ qc_max_idle_timeout cfg = 600000 /\
    select_certificate sample_boring sample_demux (Some (str "vpn.example")) (session_new cfg) = Ret (Ok ssl) /\
    ssl_certs ssl = [1; 2; 2] /\ ssl_key ssl = Some 3.
Proof.
  eexists _, _. split; [vm_compute; reflexivity|]. split; [reflexivity|]. split; [vm_compute; reflexivity|].
  destruct (quic_certificate_of_host sample_boring (fun _ => str "chain.pem") (fun _ => str "key.pem")
    sample_first sample_config_env sample_quic_settings sample_demux _
    (Some (str "vpn.example")) _ (Quic.sample_env true)
    (mkConnectionMeta (str "vpn.example") Http3 ChTunnel tt None) (mkConnectionMeta (str "vpn.example") Http3 ChTunnel tt None)
    ltac:(vm_compute; reflexivity) ltac:(vm_compute; reflexivity) eq_refl eq_refl ltac:(done) ltac:(vm_compute; reflexivity)
    ltac:(vm_compute; reflexivity)) as (chain & [= <-] & [(leaf & rest & [= <- <-] & Hc & Hk)|(_ & Hc & _)]).
  - split; [exact Hc|exact Hk].
  - discriminate Hc.
Defined.
