(* ===== verification/Metrics.v ===== *)
(** * Metrics

    lib/src/metrics.rs: the gauges and counters of an endpoint, the table of the connected
    clients behind [/clients], the guards that keep both in step with what is alive, and
    the listener that serves them.  The metric vectors of the [prometheus] crate, its
    registry and its encoder are parameters. *)

From S2P Require Import Prelude.
From S2P Require Import Codecs.
From S2P Require Import Varint.
From S2P Require Import NetUtils.
From S2P Require Import Auth.
From S2P Require Import Tunnel.
From S2P Require Import Pipe.
From S2P Require Import ForwardedStream.
From S2P Require Import TcpForwarder.
From S2P Require Import Http1Codec.
From S2P Require Import ReverseProxy.
From S2P Require Import Services.

(** ** Metric vectors *)

(** [IntGaugeVec] and [IntCounterVec]: [mv_get v labels] is the value of
    [v.with_label_values(labels)], and [mv_add] what [inc], [dec] and [inc_by] do to it. *)
Class MetricVec (V : Type) : Type := {
  mv_new : V;
  mv_get : V -> list bytes -> Z;
  mv_add : V -> list bytes -> Z -> V;
}.

(** Their documentation: a child starts at zero, and is an atomic integer of its own. *)
Class MetricVecLaws (wrap : Z -> Z) (V : Type) `{MetricVec V} : Prop := {
  mv_get_new labels : mv_get mv_new labels = 0;
  mv_get_add v labels d labels' :
    mv_get (mv_add v labels d) labels' =
      if decide (labels' = labels) then wrap (mv_get v labels + d) else mv_get v labels';
}.

(** A vector as a finite map, the children that were never touched being at zero. *)
Module MetricRef.

Record vec (wrap : Z -> Z) : Type := mkVec { cells : gmap (list bytes) Z }.
Arguments mkVec {wrap}.
Arguments cells {wrap}.

#[global] Instance vec_metric wrap : MetricVec (vec wrap) := {
  mv_new := mkVec ∅;
  mv_get v labels := default 0 (cells v !! labels);
  mv_add v labels d := mkVec (<[labels := wrap (default 0 (cells v !! labels) + d)]> (cells v));
}.

#[global] Instance vec_laws wrap : MetricVecLaws wrap (vec wrap).
Proof.
  split; [done|]. intros v labels d labels'. simpl. destruct (decide (labels' = labels)) as [->|Hne].
  - by rewrite lookup_insert_eq.
  - by rewrite lookup_insert_ne.
Qed.

End MetricRef.

(** ** The state *)

Record ClientInfo : Type := mkClientInfo {
  ci_username : option bytes;
  ci_ip : option IpAddr;
  ci_sessions : Z;
}.

(** [ClientInfo::default]. *)
Definition client_info_default : ClientInfo := mkClientInfo None None 0.

Record ClientSummary : Type := mkClientSummary {
  cs_username : bytes;
  cs_ip : option IpAddr;
  cs_sessions : Z;
  cs_inbound : Z;
  cs_outbound : Z;
}.

Record Metrics (GV CV : Type) : Type := mkMetrics {
  mt_per_client : bool;
  client_sessions : GV;
  inbound_traffic : CV;
  outbound_traffic : CV;
  client_sessions_per_user : GV;
  inbound_traffic_per_user : CV;
  outbound_traffic_per_user : CV;
  outbound_tcp_sockets : Z;
  outbound_udp_sockets : Z;
  clients : gmap bytes ClientInfo;
}.
Arguments mkMetrics {GV CV}.
Arguments mt_per_client {GV CV}.
Arguments client_sessions {GV CV}.
Arguments inbound_traffic {GV CV}.
Arguments outbound_traffic {GV CV}.
Arguments client_sessions_per_user {GV CV}.
Arguments inbound_traffic_per_user {GV CV}.
Arguments outbound_traffic_per_user {GV CV}.
Arguments outbound_tcp_sockets {GV CV}.
Arguments outbound_udp_sockets {GV CV}.
Arguments clients {GV CV}.

(** The guard of a session; the metrics it points to are the ones it is dropped on. *)
Record ClientSessionsCounter : Type := mkSessionsCounter {
  sc_protocol : TlsProtocol;
  sc_conn_id : bytes;
}.

Section metrics.
Context {GV CV : Type} `{!MetricVec GV, !MetricVec CV}.
Abbreviation MetricsT := (Metrics GV CV).

(** The registry: [register names name] is the outcome of registering a metric when
    [names] are registered. *)
Section registry.
Context (register : list bytes -> bytes -> result ErrorKind unit).

Definition metric_names : list bytes :=
  [str "client_sessions"; str "inbound_traffic_bytes"; str "outbound_traffic_bytes";
   str "client_sessions_per_user"; str "inbound_traffic_bytes_per_user";
   str "outbound_traffic_bytes_per_user"; str "outbound_tcp_sockets"; str "outbound_udp_sockets"].

Fixpoint register_all (names todo : list bytes) : result ErrorKind unit :=
  match todo with
  | [] => Ok tt
  | n :: todo => let? _ := register names n in register_all (n :: names) todo
  end.

Definition metrics_new (per_client : bool) : result ErrorKind MetricsT :=
  let? _ := register_all [] metric_names in
  Ok (mkMetrics per_client mv_new mv_new mv_new mv_new mv_new mv_new 0 0 ∅).

End registry.

(** ** Field updates *)

Definition set_clients (c : gmap bytes ClientInfo) (m : MetricsT) : MetricsT :=
  mkMetrics (mt_per_client m) (client_sessions m) (inbound_traffic m) (outbound_traffic m)
    (client_sessions_per_user m) (inbound_traffic_per_user m) (outbound_traffic_per_user m)
    (outbound_tcp_sockets m) (outbound_udp_sockets m) c.

Definition sessions_add (protocol : TlsProtocol) (d : Z) (m : MetricsT) : MetricsT :=
  mkMetrics (mt_per_client m) (mv_add (client_sessions m) [protocol_as_str protocol] d)
    (inbound_traffic m) (outbound_traffic m)
    (client_sessions_per_user m) (inbound_traffic_per_user m) (outbound_traffic_per_user m)
    (outbound_tcp_sockets m) (outbound_udp_sockets m) (clients m).

Definition per_user_add (label : bytes) (protocol : TlsProtocol) (d : Z) (m : MetricsT) : MetricsT :=
  mkMetrics (mt_per_client m) (client_sessions m) (inbound_traffic m) (outbound_traffic m)
    (mv_add (client_sessions_per_user m) [label; protocol_as_str protocol] d)
    (inbound_traffic_per_user m) (outbound_traffic_per_user m)
    (outbound_tcp_sockets m) (outbound_udp_sockets m) (clients m).

Definition sockets_add (tcp udp : Z) (m : MetricsT) : MetricsT :=
  mkMetrics (mt_per_client m) (client_sessions m) (inbound_traffic m) (outbound_traffic m)
    (client_sessions_per_user m) (inbound_traffic_per_user m) (outbound_traffic_per_user m)
    (as_i64 (outbound_tcp_sockets m + tcp)) (as_i64 (outbound_udp_sockets m + udp)) (clients m).

(** ** Traffic *)

Definition add_inbound_bytes (protocol : TlsProtocol) (username : option bytes) (n : Z) (m : MetricsT) : MetricsT :=
  mkMetrics (mt_per_client m) (client_sessions m)
    (mv_add (inbound_traffic m) [protocol_as_str protocol] n) (outbound_traffic m)
    (client_sessions_per_user m)
    (match username with
     | Some u => if mt_per_client m then mv_add (inbound_traffic_per_user m) [u] n
                 else inbound_traffic_per_user m
     | None => inbound_traffic_per_user m
     end)
    (outbound_traffic_per_user m)
    (outbound_tcp_sockets m) (outbound_udp_sockets m) (clients m).

Definition add_outbound_bytes (protocol : TlsProtocol) (username : option bytes) (n : Z) (m : MetricsT) : MetricsT :=
  mkMetrics (mt_per_client m) (client_sessions m)
    (inbound_traffic m) (mv_add (outbound_traffic m) [protocol_as_str protocol] n)
    (client_sessions_per_user m) (inbound_traffic_per_user m)
    (match username with
     | Some u => if mt_per_client m then mv_add (outbound_traffic_per_user m) [u] n
                 else outbound_traffic_per_user m
     | None => outbound_traffic_per_user m
     end)
    (outbound_tcp_sockets m) (outbound_udp_sockets m) (clients m).

(** ** Connections

    The lock of the table is never poisoned: nothing under it panics. *)

Definition register_connection (conn_id : bytes) (ip : option IpAddr) (m : MetricsT) : MetricsT :=
  match clients m !! conn_id with
  | Some _ => m
  | None => set_clients (<[conn_id := mkClientInfo None ip 0]> (clients m)) m
  end.

Definition unregister_connection (conn_id : bytes) (m : MetricsT) : MetricsT :=
  set_clients (delete conn_id (clients m)) m.

Definition label_of (username : option bytes) : bytes := default [] username.

Definition transfer_session_username (protocol : TlsProtocol) (conn_id : bytes) (username : option bytes)
    (m : MetricsT) : MetricsT :=
  match clients m !! conn_id with
  | None => m
  | Some entry =>
      let old := label_of (ci_username entry) in
      let new := label_of username in
      if decide (old = new) then m
      else
        let m := if mt_per_client m then per_user_add new protocol 1 (per_user_add old protocol (-1) m) else m in
        set_clients (<[conn_id := mkClientInfo username (ci_ip entry) (ci_sessions entry)]> (clients m)) m
  end.

(** [u64::saturating_add]. *)
Definition saturating_add_u64 (a b : Z) : Z := Z.min (a + b) (2 ^ 64 - 1).

(** [ClientSessionsCounter::new]. *)
Definition client_sessions_counter (protocol : TlsProtocol) (conn_id : bytes) (username : option bytes)
    (m : MetricsT) : ClientSessionsCounter * MetricsT :=
  let m := sessions_add protocol 1 m in
  let m := if mt_per_client m then per_user_add (label_of username) protocol 1 m else m in
  let entry := default client_info_default (clients m !! conn_id) in
  let entry := mkClientInfo (match username with Some u => Some u | None => ci_username entry end)
                 (ci_ip entry) (saturating_add_u64 (ci_sessions entry) 1) in
  (mkSessionsCounter protocol conn_id, set_clients (<[conn_id := entry]> (clients m)) m).

(** [ClientSessionsCounter::drop]. *)
Definition sessions_counter_drop (self : ClientSessionsCounter) (m : MetricsT) : MetricsT :=
  let m := sessions_add (sc_protocol self) (-1) m in
  match clients m !! sc_conn_id self with
  | Some entry =>
      let m := set_clients (delete (sc_conn_id self) (clients m)) m in
      if mt_per_client m then per_user_add (label_of (ci_username entry)) (sc_protocol self) (-1) m else m
  | None => m
  end.

(** [OutboundTcpSocketCounter] and [OutboundUdpSocketCounter]. *)
Definition outbound_tcp_socket_counter (m : MetricsT) : MetricsT := sockets_add 1 0 m.
Definition outbound_tcp_socket_drop (m : MetricsT) : MetricsT := sockets_add (-1) 0 m.
Definition outbound_udp_socket_counter (m : MetricsT) : MetricsT := sockets_add 0 1 m.
Definition outbound_udp_socket_drop (m : MetricsT) : MetricsT := sockets_add 0 (-1) m.

(** ** The summary of the clients

    [iter] is the order in which the table is iterated, and the result is keyed by the
    user name, since the order of [into_values] is not specified either. *)

Definition idle_summary (uname : bytes) (ip : option IpAddr) : ClientSummary := mkClientSummary uname ip 0 0 0.

Fixpoint seed_configured (configured_usernames : list bytes) (agg : gmap bytes ClientSummary)
  : gmap bytes ClientSummary :=
  match configured_usernames with
  | [] => agg
  | uname :: rest =>
      seed_configured rest
        (match agg !! uname with Some _ => agg | None => <[uname := idle_summary uname None]> agg end)
  end.

Definition merge_client (info : ClientInfo) (agg : gmap bytes ClientSummary) : gmap bytes ClientSummary :=
  let uname := label_of (ci_username info) in
  let entry := default (idle_summary uname (ci_ip info)) (agg !! uname) in
  <[uname := mkClientSummary (cs_username entry)
               (match cs_ip entry with Some ip => Some ip | None => ci_ip info end)
               (saturating_add_u64 (cs_sessions entry) (ci_sessions info))
               (cs_inbound entry) (cs_outbound entry)]> agg.

Fixpoint merge_clients (iter : list (bytes * ClientInfo)) (agg : gmap bytes ClientSummary)
  : gmap bytes ClientSummary :=
  match iter with
  | [] => agg
  | (_, info) :: iter => merge_clients iter (merge_client info agg)
  end.

Definition with_traffic (m : MetricsT) (s : ClientSummary) : ClientSummary :=
  if mt_per_client m then
    mkClientSummary (cs_username s) (cs_ip s) (cs_sessions s)
      (mv_get (inbound_traffic_per_user m) [cs_username s])
      (mv_get (outbound_traffic_per_user m) [cs_username s])
  else s.

Definition clients_summary (configured_usernames : list bytes) (iter : list (bytes * ClientInfo)) (m : MetricsT)
  : gmap bytes ClientSummary :=
  with_traffic m <$> merge_clients iter (seed_configured configured_usernames ∅).

End metrics.

(** ** The listener *)

Definition HEALTH_CHECK_PATH : bytes := str "/health-check".
Definition METRICS_PATH : bytes := str "/metrics".
Definition CLIENTS_PATH : bytes := str "/clients".

(** The loop that writes a body: an iteration per pair of environments, for the write and
    for the wait; [None] when it has not returned by then. *)
Section content.
Context {Snk WEnv : Type} `{Sink Snk WEnv}.

Fixpoint write_content (content : bytes) (envs : list (WEnv * WEnv)) (sink : Snk)
  : M (option (result ErrorKind unit) * Snk) :=
  match content with
  | [] => let (r, sink) := snk_eof sink in Ret (Some r, sink)
  | _ :: _ =>
      match envs with
      | [] => Ret (None, sink)
      | (we, wt) :: envs =>
          let! (r, sink) := snk_write we sink content in
          match r with
          | Err e => Ret (Some (Err e), sink)
          | Ok unsent =>
              match snk_wait_writable wt sink with
              | (None, sink) => Ret (None, sink)
              | (Some (Err e), sink) => Ret (Some (Err e), sink)
              | (Some (Ok _), sink) => write_content unsent envs sink
              end
          end
      end
  end.

End content.

(** What a request is answered with: a response that ends the stream, or one whose body is
    written after it. *)
Inductive MetricsAnswer : Type :=
| AnswerEof (r : ResponseHeaders)
| AnswerBody (r : ResponseHeaders) (content : bytes).

Definition content_response (version : Version) (content_type content : bytes) : ResponseHeaders :=
  mkResponseHeaders version 200
    [(str "content-type", content_type); (str "content-length", decimal (len content))].

Section listener.
Context {GV CV : Type} `{!MetricVec GV, !MetricVec CV}.
(** [Metrics::collect] through the encoder of [prometheus]; [serde_json::to_vec]. *)
Context (collect : Metrics GV CV -> bytes * bytes) (to_vec : gmap bytes ClientSummary -> result unit bytes).

Definition handle_metrics_collect (m : Metrics GV CV) (request : RequestHeaders) : MetricsAnswer :=
  let (content_type, content) := collect m in
  AnswerBody (content_response (rq_version request) content_type content) content.

Definition handle_clients_collect (configured_usernames : list bytes) (iter : list (bytes * ClientInfo))
    (m : Metrics GV CV) (request : RequestHeaders) : MetricsAnswer :=
  if negb (mt_per_client m) then AnswerEof (bad_response 404 [])
  else
    match to_vec (clients_summary configured_usernames iter m) with
    | Err _ => AnswerEof (bad_response 500 [])
    | Ok content =>
        AnswerBody (content_response (rq_version request) (str "application/json") content) content
    end.

Definition metrics_answer (configured_usernames : list bytes) (iter : list (bytes * ClientInfo))
    (m : Metrics GV CV) (request : RequestHeaders) : MetricsAnswer :=
  if bool_decide (rq_path request = HEALTH_CHECK_PATH) then AnswerEof ok_response_headers
  else if bool_decide (rq_path request = METRICS_PATH) then handle_metrics_collect m request
  else if bool_decide (rq_path request = CLIENTS_PATH) then
    handle_clients_collect configured_usernames iter m request
  else AnswerEof (bad_response 400 []).

(** The first [listen] of the codec, under the timeout of the settings. *)
Definition metrics_handle_request (configured_usernames : list bytes) (iter : list (bytes * ClientInfo))
    (m : Metrics GV CV) (l : ListenResult RequestHeaders) : option MetricsAnswer :=
  match l with
  | GotStream request => Some (metrics_answer configured_usernames iter m request)
  | GotNone | GotError _ | Elapsed => None
  end.

End listener.

(** ** What is alive

    The sessions with a guard, the connections that have none yet, and the outbound
    sockets.  A connection is registered once ([Core] takes a new tunnel number for it);
    its requests relabel it with the protocol of the tunnel, and find no entry once the
    guard is gone. *)
Section world.
Context {GV CV : Type} `{!MetricVec GV, !MetricVec CV}.

Record MetricsWorld : Type := mkMetricsWorld {
  mw_metrics : Metrics GV CV;
  mw_live : list ClientSessionsCounter;
  mw_pending : list bytes;
  mw_tcp : Z;
  mw_udp : Z;
}.

Inductive metrics_step : MetricsWorld -> MetricsWorld -> Prop :=
| ms_register m live pending tcp udp id ip :
    id ∉ (sc_conn_id <$> live) ++ pending ->
    metrics_step (mkMetricsWorld m live pending tcp udp)
      (mkMetricsWorld (register_connection id ip m) live (id :: pending) tcp udp)
| ms_unregister m live p1 id p2 tcp udp :
    metrics_step (mkMetricsWorld m live (p1 ++ id :: p2) tcp udp)
      (mkMetricsWorld (unregister_connection id m) live (p1 ++ p2) tcp udp)
| ms_session m live p1 id p2 tcp udp protocol username g m' :
    client_sessions_counter protocol id username m = (g, m') ->
    metrics_step (mkMetricsWorld m live (p1 ++ id :: p2) tcp udp)
      (mkMetricsWorld m' (g :: live) (p1 ++ p2) tcp udp)
| ms_transfer m live pending tcp udp g username :
    g ∈ live ->
    metrics_step (mkMetricsWorld m live pending tcp udp)
      (mkMetricsWorld (transfer_session_username (sc_protocol g) (sc_conn_id g) username m) live pending tcp udp)
| ms_transfer_late m live pending tcp udp protocol id username :
    id ∉ (sc_conn_id <$> live) ++ pending ->
    metrics_step (mkMetricsWorld m live pending tcp udp)
      (mkMetricsWorld (transfer_session_username protocol id username m) live pending tcp udp)
| ms_drop m l1 g l2 pending tcp udp :
    metrics_step (mkMetricsWorld m (l1 ++ g :: l2) pending tcp udp)
      (mkMetricsWorld (sessions_counter_drop g m) (l1 ++ l2) pending tcp udp)
| ms_tcp_open m live pending tcp udp :
    metrics_step (mkMetricsWorld m live pending tcp udp)
      (mkMetricsWorld (outbound_tcp_socket_counter m) live pending (tcp + 1) udp)
| ms_tcp_close m live pending tcp udp :
    0 < tcp ->
    metrics_step (mkMetricsWorld m live pending tcp udp)
      (mkMetricsWorld (outbound_tcp_socket_drop m) live pending (tcp - 1) udp)
| ms_udp_open m live pending tcp udp :
    metrics_step (mkMetricsWorld m live pending tcp udp)
      (mkMetricsWorld (outbound_udp_socket_counter m) live pending tcp (udp + 1))
| ms_udp_close m live pending tcp udp :
    0 < udp ->
    metrics_step (mkMetricsWorld m live pending tcp udp)
      (mkMetricsWorld (outbound_udp_socket_drop m) live pending tcp (udp - 1))
| ms_inbound m live pending tcp udp protocol username n :
    metrics_step (mkMetricsWorld m live pending tcp udp)
      (mkMetricsWorld (add_inbound_bytes protocol username n m) live pending tcp udp)
| ms_outbound m live pending tcp udp protocol username n :
    metrics_step (mkMetricsWorld m live pending tcp udp)
      (mkMetricsWorld (add_outbound_bytes protocol username n m) live pending tcp udp).

(** The number of guards that satisfy a test. *)
Definition count_guards (f : ClientSessionsCounter -> bool) (l : list ClientSessionsCounter) : Z :=
  len (base.filter (fun g => f g = true) l).

(** The user a session is shown under. *)
Definition session_label (c : gmap bytes ClientInfo) (g : ClientSessionsCounter) : bytes :=
  match c !! sc_conn_id g with Some e => label_of (ci_username e) | None => [] end.

Definition on_protocol (p : TlsProtocol) (g : ClientSessionsCounter) : bool := bool_decide (sc_protocol g = p).

Definition on_user (c : gmap bytes ClientInfo) (u : bytes) (p : TlsProtocol) (g : ClientSessionsCounter) : bool :=
  bool_decide (session_label c g = u) && on_protocol p g.

(** Every gauge is the number of the live things it counts, and the table has exactly the
    connections that are registered, each session once. *)
Record metrics_inv (w : MetricsWorld) : Prop := {
  mi_nodup : NoDup ((sc_conn_id <$> mw_live w) ++ mw_pending w);
  mi_live g : g ∈ mw_live w -> exists e, clients (mw_metrics w) !! sc_conn_id g = Some e /\ ci_sessions e = 1;
  mi_pending id : id ∈ mw_pending w ->
    exists e, clients (mw_metrics w) !! id = Some e /\ ci_sessions e = 0 /\ ci_username e = None;
  mi_dom id e : clients (mw_metrics w) !! id = Some e -> id ∈ (sc_conn_id <$> mw_live w) ++ mw_pending w;
  mi_sessions p :
    mv_get (client_sessions (mw_metrics w)) [protocol_as_str p] = as_i64 (count_guards (on_protocol p) (mw_live w));
  mi_per_user u p : mt_per_client (mw_metrics w) = true ->
    mv_get (client_sessions_per_user (mw_metrics w)) [u; protocol_as_str p]
      = as_i64 (count_guards (on_user (clients (mw_metrics w)) u p) (mw_live w));
  mi_tcp : 0 <= mw_tcp w /\ outbound_tcp_sockets (mw_metrics w) = as_i64 (mw_tcp w);
  mi_udp : 0 <= mw_udp w /\ outbound_udp_sockets (mw_metrics w) = as_i64 (mw_udp w);
}.

(** ** Lemmas on the counting *)

Lemma as_i64_add a d : as_i64 (as_i64 a + d) = as_i64 (a + d).
Proof.
  unfold as_i64. f_equal.
  replace ((a + 2 ^ 63) mod 2 ^ 64 - 2 ^ 63 + d + 2 ^ 63) with ((a + 2 ^ 63) mod 2 ^ 64 + d) by lia.
  rewrite Zplus_mod_idemp_l. f_equal. lia.
Qed.

Lemma protocol_as_str_inj p q : protocol_as_str p = protocol_as_str q -> p = q.
Proof. by destruct p, q. Qed.

Lemma count_guards_cons f g l : count_guards f (g :: l) = Z.b2z (f g) + count_guards f l.
Proof.
  unfold count_guards. rewrite filter_cons. case_decide as E.
  - by rewrite E, len_cons.
  - by rewrite (not_true_is_false _ E).
Qed.

Lemma count_guards_middle f l1 g l2 : count_guards f (l1 ++ g :: l2) = Z.b2z (f g) + count_guards f (l1 ++ l2).
Proof.
  induction l1 as [|x l1 IH]; simpl; [apply count_guards_cons|]. rewrite !count_guards_cons, IH. lia.
Qed.

Lemma count_guards_ext f1 f2 l : (forall g, g ∈ l -> f1 g = f2 g) -> count_guards f1 l = count_guards f2 l.
Proof.
  induction l as [|x l IH]; intros H; [done|]. rewrite !count_guards_cons, (H x), IH; [done| |set_solver].
  intros g Hg. apply H. set_solver.
Qed.

Lemma count_guards_bound f l : 0 <= count_guards f l <= len l.
Proof.
  induction l as [|x l IH]; [done|]. rewrite count_guards_cons, len_cons. destruct (f x); simpl; lia.
Qed.

Context `{!MetricVecLaws as_i64 GV}.

Lemma gauge_protocol_add (v : GV) p d q n :
  mv_get v [protocol_as_str q] = as_i64 n ->
  mv_get (mv_add v [protocol_as_str p] d) [protocol_as_str q] = as_i64 (n + (if decide (q = p) then d else 0)).
Proof.
  intros E. rewrite mv_get_add. destruct (decide (q = p)) as [->|Hne].
  - by rewrite decide_True, E, as_i64_add by done.
  - rewrite decide_False, E, Z.add_0_r; [done|]. intros [= Hq]. by apply Hne, protocol_as_str_inj.
Qed.

Lemma gauge_user_add (v : GV) u p d u' q n :
  mv_get v [u'; protocol_as_str q] = as_i64 n ->
  mv_get (mv_add v [u; protocol_as_str p] d) [u'; protocol_as_str q]
    = as_i64 (n + (if decide (u' = u /\ q = p) then d else 0)).
Proof.
  intros E. rewrite mv_get_add. destruct (decide (u' = u /\ q = p)) as [[-> ->]|Hne].
  - by rewrite decide_True, E, as_i64_add by done.
  - rewrite decide_False, E, Z.add_0_r; [done|].
    intros [= -> Hq]. by apply Hne; split; [|apply protocol_as_str_inj].
Qed.

(** A change of an entry does not show in the sessions of other connections. *)
Lemma on_user_other c1 c2 u p l :
  (forall g, g ∈ l -> c1 !! sc_conn_id g = c2 !! sc_conn_id g) ->
  count_guards (on_user c1 u p) l = count_guards (on_user c2 u p) l.
Proof.
  intros H. apply count_guards_ext. intros g Hg. unfold on_user, session_label. by rewrite (H g Hg).
Qed.

Lemma session_label_entry c g e : c !! sc_conn_id g = Some e -> session_label c g = label_of (ci_username e).
Proof. intros H. unfold session_label. by rewrite H. Qed.

Lemma on_user_b2z c u p g e :
  c !! sc_conn_id g = Some e ->
  Z.b2z (on_user c u p g) = if decide (u = label_of (ci_username e) /\ p = sc_protocol g) then 1 else 0.
Proof.
  intros <-%session_label_entry. unfold on_user, on_protocol. case_decide as H.
  - destruct H as [-> ->]. by rewrite !bool_decide_true.
  - destruct (bool_decide_reflect (session_label c g = u)); [|done].
    destruct (bool_decide_reflect (sc_protocol g = p)); [|done]. naive_solver.
Qed.

Lemma on_protocol_b2z p g : Z.b2z (on_protocol p g) = if decide (p = sc_protocol g) then 1 else 0.
Proof.
  unfold on_protocol. destruct (decide (p = sc_protocol g)) as [->|H]; [by rewrite bool_decide_true|].
  by rewrite bool_decide_false by congruence.
Qed.

(** ** Every step keeps the gauges in balance *)

Lemma metrics_inv_register m live pending tcp udp id ip :
  id ∉ (sc_conn_id <$> live) ++ pending ->
  metrics_inv (mkMetricsWorld m live pending tcp udp) ->
  metrics_inv (mkMetricsWorld (register_connection id ip m) live (id :: pending) tcp udp).
Proof.
  intros Hid [Hnd Hlive Hpend Hdom Hses Huser Htcp Hudp]; simpl in *.
  assert (clients m !! id = None) as Hnone by (destruct (clients m !! id) eqn:E; [naive_solver|done]).
  unfold register_connection. rewrite Hnone. apply not_elem_of_app in Hid as [Hl Hp].
  assert (forall g, g ∈ live -> sc_conn_id g <> id) as Hne
    by (intros g Hg <-; apply Hl; by apply list_elem_of_fmap_2).
  split; simpl; try done.
  - rewrite <- Permutation_middle. constructor; [by rewrite not_elem_of_app|done].
  - intros g Hg. rewrite lookup_insert_ne by (symmetry; auto). auto.
  - intros id' [->|Hin]%elem_of_cons; [rewrite lookup_insert_eq; by eexists|].
    rewrite lookup_insert_ne by (intros ->; done). auto.
  - intros id' e. destruct (decide (id' = id)) as [->|Hd]; [set_solver|].
    rewrite lookup_insert_ne by done. intros He%Hdom. set_solver.
  - intros u p Hper. rewrite Huser by done. f_equal. apply on_user_other. intros g Hg.
    rewrite lookup_insert_ne; [done|]. symmetry; auto.
Qed.

Lemma inv_unregister m live p1 id p2 tcp udp :
  metrics_inv (mkMetricsWorld m live (p1 ++ id :: p2) tcp udp) ->
  metrics_inv (mkMetricsWorld (unregister_connection id m) live (p1 ++ p2) tcp udp).
Proof.
  intros [Hnd Hlive Hpend Hdom Hses Huser Htcp Hudp]; simpl in *.
  rewrite <- Permutation_middle, <- Permutation_middle in Hnd. apply NoDup_cons in Hnd as [Hid Hnd].
  apply not_elem_of_app in Hid as [Hl Hp].
  assert (forall g, g ∈ live -> id <> sc_conn_id g) as Hne
    by (intros g Hg ->; apply Hl; by apply list_elem_of_fmap_2).
  split; simpl; try done.
  - intros g Hg. rewrite lookup_delete_ne by auto. auto.
  - intros id' Hin. rewrite lookup_delete_ne by (intros ->; done). apply Hpend. set_solver.
  - intros id' e. destruct (decide (id' = id)) as [->|Hd]; [by rewrite lookup_delete_eq|].
    rewrite lookup_delete_ne by done. intros He%Hdom. set_solver.
  - intros u p Hper. rewrite Huser by done. f_equal. apply on_user_other. intros g Hg.
    by rewrite lookup_delete_ne by auto.
Qed.

Lemma inv_session m live p1 id p2 tcp udp protocol username g m' :
  client_sessions_counter protocol id username m = (g, m') ->
  metrics_inv (mkMetricsWorld m live (p1 ++ id :: p2) tcp udp) ->
  metrics_inv (mkMetricsWorld m' (g :: live) (p1 ++ p2) tcp udp).
Proof.
  intros [= <- <-] [Hnd Hlive Hpend Hdom Hses Huser Htcp Hudp]; simpl in *.
  destruct (Hpend id) as (e & He & Hs0 & Hu0); [set_solver|].
  assert (NoDup (id :: (sc_conn_id <$> live) ++ p1 ++ p2)) as Hnd'
    by (by rewrite <- Permutation_middle, <- Permutation_middle in Hnd).
  clear Hnd. pose proof Hnd' as [Hid _]%NoDup_cons. apply not_elem_of_app in Hid as [Hl Hp].
  assert (forall g, g ∈ live -> id <> sc_conn_id g) as Hne
    by (intros g Hg ->; apply Hl; by apply list_elem_of_fmap_2).
  set (m1 := if mt_per_client m then _ else _).
  assert (clients m1 = clients m /\ mt_per_client m1 = mt_per_client m /\
    outbound_tcp_sockets m1 = outbound_tcp_sockets m /\ outbound_udp_sockets m1 = outbound_udp_sockets m /\
    client_sessions m1 = mv_add (client_sessions m) [protocol_as_str protocol] 1) as (Ec & Ep & Et & Eu & Es)
    by (unfold m1; destruct (mt_per_client m) eqn:?; split_and!; simpl; congruence).
  rewrite Ec, He. simpl. rewrite Hs0, Hu0.
  replace (match username with Some u => Some u | None => None end) with username by (by destruct username).
  split; simpl.
  - done.
  - intros g [->|Hg]%elem_of_cons; simpl; [rewrite lookup_insert_eq; by eexists|].
    rewrite lookup_insert_ne by auto. auto.
  - intros id' Hin. rewrite lookup_insert_ne by (intros ->; done). apply Hpend. set_solver.
  - intros id' e'. destruct (decide (id' = id)) as [->|Hd]; [set_solver|].
    rewrite lookup_insert_ne by done. intros He'%Hdom. set_solver.
  - intros p. rewrite Es, (gauge_protocol_add _ _ _ _ _ (Hses p)), count_guards_cons, on_protocol_b2z. simpl.
    f_equal. lia.
  - intros u p Hper. rewrite Ep in Hper. unfold m1. rewrite Hper. simpl.
    rewrite (gauge_user_add _ _ _ _ _ _ _ (Huser u p Hper)), count_guards_cons,
      (on_user_b2z _ u p (mkSessionsCounter protocol id) _ (lookup_insert_eq (clients m) id _)). simpl.
    rewrite (on_user_other (<[id := _]> (clients m)) (clients m) u p); [f_equal; lia|].
    intros g Hg. by rewrite lookup_insert_ne by auto.
  - by rewrite Et.
  - by rewrite Eu.
Qed.

Lemma inv_transfer m live pending tcp udp g username :
  g ∈ live ->
  metrics_inv (mkMetricsWorld m live pending tcp udp) ->
  metrics_inv (mkMetricsWorld (transfer_session_username (sc_protocol g) (sc_conn_id g) username m)
    live pending tcp udp).
Proof.
  intros Hg [Hnd Hlive Hpend Hdom Hses Huser Htcp Hudp]; simpl in *.
  unfold transfer_session_username. destruct (Hlive g Hg) as (e & He & Hs1). rewrite He.
  case_decide as Hlab; [by split|].
  set (m1 := if mt_per_client m then _ else _).
  assert (clients m1 = clients m /\ mt_per_client m1 = mt_per_client m /\
    outbound_tcp_sockets m1 = outbound_tcp_sockets m /\ outbound_udp_sockets m1 = outbound_udp_sockets m /\
    client_sessions m1 = client_sessions m) as (Ec & Ep & Et & Eu & Es)
    by (unfold m1; destruct (mt_per_client m) eqn:?; split_and!; simpl; congruence).
  apply list_elem_of_split in Hg as (l1 & l2 & ->).
  rewrite fmap_app, fmap_cons, <- app_assoc in Hnd. simpl in Hnd.
  assert (forall x, x ∈ l1 ++ l2 -> sc_conn_id g <> sc_conn_id x) as Hne.
  { intros x Hx E. rewrite <- Permutation_middle in Hnd. apply NoDup_cons in Hnd as [Hn _]. apply Hn.
    rewrite app_assoc, <- fmap_app, elem_of_app, E. left. by apply list_elem_of_fmap_2. }
  rewrite Ec. split; simpl; try done.
  - by rewrite fmap_app, fmap_cons, <- app_assoc.
  - intros x Hx. destruct (decide (sc_conn_id x = sc_conn_id g)) as [->|Hd].
    + rewrite lookup_insert_eq. by eexists.
    + rewrite lookup_insert_ne by done. auto.
  - intros id Hid. rewrite lookup_insert_ne; [auto|]. intros <-.
    rewrite <- Permutation_middle in Hnd. apply NoDup_cons in Hnd as [Hn _]. apply Hn. set_solver.
  - intros id e'. destruct (decide (id = sc_conn_id g)) as [->|Hd].
    + intros _. apply elem_of_app. left. apply list_elem_of_fmap_2. set_solver.
    + rewrite lookup_insert_ne by done. apply Hdom.
  - intros p. by rewrite Es, Hses.
  - intros u p Hper. rewrite Ep in Hper. unfold m1. rewrite Hper. simpl.
    rewrite (gauge_user_add _ _ _ _ _ _ _ (gauge_user_add _ _ _ _ _ _ _ (Huser u p Hper))).
    rewrite !count_guards_middle, (on_user_b2z _ _ _ _ _ He), (on_user_b2z _ _ _ _ _ (lookup_insert_eq _ _ _)). simpl.
    rewrite (on_user_other (<[sc_conn_id g := _]> (clients m)) (clients m) u p);
      [|intros x Hx; by rewrite lookup_insert_ne by auto].
    f_equal. repeat case_decide; lia || naive_solver.
  - by rewrite Et.
  - by rewrite Eu.
Qed.

Lemma inv_drop m l1 g l2 pending tcp udp :
  metrics_inv (mkMetricsWorld m (l1 ++ g :: l2) pending tcp udp) ->
  metrics_inv (mkMetricsWorld (sessions_counter_drop g m) (l1 ++ l2) pending tcp udp).
Proof.
  intros [Hnd Hlive Hpend Hdom Hses Huser Htcp Hudp]; simpl in *.
  destruct (Hlive g) as (e & He & Hs1); [set_solver|].
  assert (NoDup (sc_conn_id g :: (sc_conn_id <$> l1 ++ l2) ++ pending)) as Hnd'.
  { rewrite fmap_app, fmap_cons, <- app_assoc in Hnd. simpl in Hnd. rewrite <- Permutation_middle in Hnd.
    by rewrite fmap_app, <- app_assoc. }
  clear Hnd. apply NoDup_cons in Hnd' as [Hid Hnd]. apply not_elem_of_app in Hid as [Hl Hp].
  assert (forall x, x ∈ l1 ++ l2 -> sc_conn_id g <> sc_conn_id x) as Hne
    by (intros x Hx E; apply Hl; rewrite E; by apply list_elem_of_fmap_2).
  unfold sessions_counter_drop. simpl. rewrite He.
  set (m1 := if mt_per_client m then _ else _).
  assert (clients m1 = delete (sc_conn_id g) (clients m) /\ mt_per_client m1 = mt_per_client m /\
    outbound_tcp_sockets m1 = outbound_tcp_sockets m /\ outbound_udp_sockets m1 = outbound_udp_sockets m /\
    client_sessions m1 = mv_add (client_sessions m) [protocol_as_str (sc_protocol g)] (-1))
    as (Ec & Ep & Et & Eu & Es) by (unfold m1; destruct (mt_per_client m) eqn:?; split_and!; simpl; congruence).
  split; simpl; try done.
  - intros x Hx. rewrite Ec, lookup_delete_ne by auto. apply Hlive. set_solver.
  - intros id Hin. rewrite Ec, lookup_delete_ne by (intros <-; done). auto.
  - intros id e'. rewrite Ec. destruct (decide (id = sc_conn_id g)) as [->|Hd]; [by rewrite lookup_delete_eq|].
    rewrite lookup_delete_ne by done. intros Hx%Hdom. rewrite fmap_app, fmap_cons in Hx.
    rewrite fmap_app. set_solver.
  - intros p. rewrite Es, (gauge_protocol_add _ _ _ _ _ (Hses p)), count_guards_middle, on_protocol_b2z.
    f_equal. case_decide; lia.
  - intros u p Hper. rewrite Ep in Hper. rewrite Ec. unfold m1. rewrite Hper. simpl.
    rewrite (gauge_user_add _ _ _ _ _ _ _ (Huser u p Hper)), count_guards_middle,
      (on_user_b2z _ _ _ _ _ He).
    rewrite (on_user_other (clients m) (delete (sc_conn_id g) (clients m)) u p);
      [|intros x Hx; by rewrite lookup_delete_ne by auto].
    f_equal. case_decide; lia.
  - by rewrite Et.
  - by rewrite Eu.
Qed.

Lemma inv_step w w' : metrics_step w w' -> metrics_inv w -> metrics_inv w'.
Proof.
  intros [] Hinv; eauto using metrics_inv_register, inv_unregister, inv_session, inv_transfer, inv_drop.
  - destruct Hinv as [Hnd Hlive Hpend Hdom Hses Huser Htcp Hudp]; simpl in *.
    unfold transfer_session_username. destruct (clients m !! id) as [e|] eqn:E; [|by split].
    by apply Hdom in E.
  - destruct Hinv as [? ? ? ? ? ? [? Htcp] [? Hudp]]; split; simpl in *; try done.
    + rewrite Htcp, as_i64_add. split; [lia|done].
    + rewrite Hudp, as_i64_add, Z.add_0_r. done.
  - destruct Hinv as [? ? ? ? ? ? [? Htcp] [? Hudp]]; split; simpl in *; try done.
    + rewrite Htcp, as_i64_add. split; [lia|done].
    + rewrite Hudp, as_i64_add, Z.add_0_r. done.
  - destruct Hinv as [? ? ? ? ? ? [? Htcp] [? Hudp]]; split; simpl in *; try done.
    + rewrite Htcp, as_i64_add, Z.add_0_r. done.
    + rewrite Hudp, as_i64_add. split; [lia|done].
  - destruct Hinv as [? ? ? ? ? ? [? Htcp] [? Hudp]]; split; simpl in *; try done.
    + rewrite Htcp, as_i64_add, Z.add_0_r. done.
    + rewrite Hudp, as_i64_add. split; [lia|done].
  - by destruct Hinv; split.
  - by destruct Hinv; split.
Qed.

Lemma step_per_client w w' : metrics_step w w' -> mt_per_client (mw_metrics w') = mt_per_client (mw_metrics w).
Proof.
  intros []; simpl; try done.
  - unfold register_connection. by destruct (clients m !! id).
  - match goal with H : client_sessions_counter _ _ _ _ = _ |- _ => injection H as <- <- end.
    simpl. by destruct (mt_per_client m) eqn:E.
  - unfold transfer_session_username. destruct (clients m !! _); [|done]. case_decide; [done|].
    simpl. by destruct (mt_per_client m) eqn:E.
  - unfold transfer_session_username. destruct (clients m !! _); [|done]. case_decide; [done|].
    simpl. by destruct (mt_per_client m) eqn:E.
  - unfold sessions_counter_drop. simpl. destruct (clients m !! _); [|done]. by destruct (mt_per_client m) eqn:E.
Qed.

Lemma inv_new register per_client m :
  metrics_new register per_client = Ok m ->
  metrics_inv (mkMetricsWorld m [] [] 0 0) /\ mt_per_client m = per_client.
Proof.
  unfold metrics_new. destruct (register_all _ _ _); [|done]. intros [= <-]. split; [|done].
  split; simpl; try done.
  - constructor.
  - intros g Hg. by apply not_elem_of_nil in Hg.
  - intros g Hg. by apply not_elem_of_nil in Hg.
  - intros p. by rewrite mv_get_new.
  - intros u p _. by rewrite mv_get_new.
Qed.

Lemma inv_reachable register per_client m w :
  metrics_new register per_client = Ok m -> rtc metrics_step (mkMetricsWorld m [] [] 0 0) w ->
  metrics_inv w /\ mt_per_client (mw_metrics w) = per_client.
Proof.
  intros [Hinv Hper]%inv_new Hrun. revert Hinv Hper.
  assert (forall w0, rtc metrics_step w0 w -> metrics_inv w0 -> mt_per_client (mw_metrics w0) = per_client ->
    metrics_inv w /\ mt_per_client (mw_metrics w) = per_client) as H; [|by apply H].
  clear Hrun. induction 1 as [x|x y z Hxy _ IH]; intros Hinv Hper; [done|].
  apply IH; [eauto using inv_step|]. by rewrite (step_per_client _ _ Hxy).
Qed.

(** In every reachable state of an endpoint the session gauges are the numbers of the
    sessions that have a guard, per protocol and per user and protocol, the socket gauges
    are the numbers of open outbound sockets, and the table behind [/clients] has exactly
    the connections that are registered or have a session: a guard that is dropped, also
    after its session was given another user, undoes exactly what its creation did. *)
Theorem session_gauges_balanced register per_client m w :
  metrics_new register per_client = Ok m -> rtc metrics_step (mkMetricsWorld m [] [] 0 0) w ->
  len (mw_live w) < 2 ^ 63 -> mw_tcp w < 2 ^ 63 -> mw_udp w < 2 ^ 63 ->
  (forall p, mv_get (client_sessions (mw_metrics w)) [protocol_as_str p]
               = count_guards (on_protocol p) (mw_live w)) /\
  (per_client = true -> forall u p,
     mv_get (client_sessions_per_user (mw_metrics w)) [u; protocol_as_str p]
       = count_guards (on_user (clients (mw_metrics w)) u p) (mw_live w)) /\
  outbound_tcp_sockets (mw_metrics w) = mw_tcp w /\
  outbound_udp_sockets (mw_metrics w) = mw_udp w /\
  (forall id, is_Some (clients (mw_metrics w) !! id) <-> id ∈ (sc_conn_id <$> mw_live w) ++ mw_pending w).
Proof.
  intros Hnew Hrun Hlen Htcp Hudp.
  destruct (inv_reachable _ _ _ _ Hnew Hrun) as [[_ Hlive Hpend Hdom Hses Huser [? Et] [? Eu]] Hper].
  split_and!.
  - intros p. rewrite Hses. apply as_i64_small. pose proof (count_guards_bound (on_protocol p) (mw_live w)). lia.
  - intros -> u p. rewrite Huser by done. apply as_i64_small.
    pose proof (count_guards_bound (on_user (clients (mw_metrics w)) u p) (mw_live w)). lia.
  - rewrite Et. apply as_i64_small. lia.
  - rewrite Eu. apply as_i64_small. lia.
  - intros id. split; [intros [e He]; eauto|].
    intros [(g & -> & Hg)%list_elem_of_fmap|Hid]%elem_of_app.
    + destruct (Hlive g Hg) as (e & -> & _). eauto.
    + destruct (Hpend id Hid) as (e & -> & _). eauto.
Qed.

End world.

(** ** The summary *)

Section summary.
Context {GV CV : Type} `{!MetricVec GV, !MetricVec CV} `{!MetricVecLaws as_i64 GV}.

Definition sessions_of (agg : gmap bytes ClientSummary) (u : bytes) : Z :=
  match agg !! u with Some e => cs_sessions e | None => 0 end.

(** What the connections of [iter] add to the sessions of a user. *)
Fixpoint sessions_sum (u : bytes) (iter : list (bytes * ClientInfo)) : Z :=
  match iter with
  | [] => 0
  | (_, info) :: iter =>
      (if decide (label_of (ci_username info) = u) then ci_sessions info else 0) + sessions_sum u iter
  end.

Lemma sessions_sum_nonneg u iter :
  Forall (fun x => 0 <= ci_sessions x.2) iter -> 0 <= sessions_sum u iter.
Proof. induction 1 as [|[id info] iter Hx _ IH]; simpl in *; [lia|]. case_decide; lia. Qed.

#[local] Instance sessions_sum_proper u : Proper (Permutation ==> eq) (sessions_sum u).
Proof. induction 1 as [|[] ? ? _ IH|[] [] ?|]; simpl; lia. Qed.

Lemma merge_sessions u iter agg :
  Forall (fun x => 0 <= ci_sessions x.2) iter -> 0 <= sessions_of agg u < 2 ^ 64 ->
  sessions_of (merge_clients iter agg) u = Z.min (sessions_of agg u + sessions_sum u iter) (2 ^ 64 - 1).
Proof.
  intros Hf. revert agg. induction Hf as [|[id info] iter Hx Hf IH]; intros agg Hr; simpl in *; [lia|].
  pose proof (sessions_sum_nonneg u iter Hf).
  assert (sessions_of (merge_client info agg) u
    = Z.min (sessions_of agg u + (if decide (label_of (ci_username info) = u) then ci_sessions info else 0)) (2 ^ 64 - 1)) as E.
  { unfold sessions_of, merge_client in *. case_decide as Hu.
    - subst u. rewrite lookup_insert_eq. simpl. unfold saturating_add_u64.
      by destruct (agg !! label_of (ci_username info)).
    - rewrite lookup_insert_ne by done. lia. }
  rewrite IH, E; [|rewrite E; case_decide; lia]. case_decide; lia.
Qed.

(** What every entry of the summary satisfies: its key is its user name, and its address
    is that of a connection of the user. *)
Definition summary_ok (iter : list (bytes * ClientInfo)) (agg : gmap bytes ClientSummary) : Prop :=
  forall u e, agg !! u = Some e -> cs_username e = u /\ 0 <= cs_sessions e < 2 ^ 64 /\
    forall ip, cs_ip e = Some ip ->
      exists id info, (id, info) ∈ iter /\ label_of (ci_username info) = u /\ ci_ip info = Some ip.

Lemma merge_clients_ok whole iter agg :
  (forall x, x ∈ iter -> x ∈ whole) -> Forall (fun x => 0 <= ci_sessions x.2) iter ->
  summary_ok whole agg -> summary_ok whole (merge_clients iter agg).
Proof.
  intros Hsub Hf. revert agg. induction iter as [|[id info] iter IH]; intros agg Hok; [done|].
  apply Forall_cons in Hf as [Hx Hf]. apply IH; [set_solver|done|]. intros u e.
  unfold merge_client. destruct (decide (label_of (ci_username info) = u)) as [Hu|Hne];
    [subst u; rewrite lookup_insert_eq|rewrite lookup_insert_ne by done; apply Hok].
  intros [= <-]. simpl.
  assert (forall ip, ci_ip info = Some ip -> exists id' info', (id', info') ∈ whole /\
    label_of (ci_username info') = label_of (ci_username info) /\ ci_ip info' = Some ip) as Hme
    by (intros ip Hip; exists id, info; split_and!; [set_solver|done|done]).
  destruct (agg !! label_of (ci_username info)) as [e|] eqn:E; simpl.
  - destruct (Hok _ _ E) as (Hname & Hr & Hip). split_and!; [done|unfold saturating_add_u64; simpl in Hx; lia| |].
    + unfold saturating_add_u64; simpl in Hx; lia.
    + intros ip. destruct (cs_ip e) as [ip'|] eqn:Eip; [intros [= <-]; by apply Hip|apply Hme].
  - split_and!; [done|unfold saturating_add_u64; simpl in Hx; lia|unfold saturating_add_u64; simpl in Hx; lia|].
    intros ip. destruct (ci_ip info); [intros [= <-]; by apply Hme|done].
Qed.

Lemma seed_ok iter configured agg : summary_ok iter agg -> summary_ok iter (seed_configured configured agg).
Proof.
  revert agg. induction configured as [|u configured IH]; intros agg Hok; [done|]. simpl. apply IH.
  destruct (agg !! u) eqn:E; [done|]. intros u' e. destruct (decide (u' = u)) as [->|Hne].
  - rewrite lookup_insert_eq. intros [= <-]. simpl. split_and!; done.
  - rewrite lookup_insert_ne by done. apply Hok.
Qed.

Lemma seed_sessions configured agg u : sessions_of (seed_configured configured agg) u = sessions_of agg u.
Proof.
  revert agg. induction configured as [|x configured IH]; intros agg; [done|]. simpl. rewrite IH.
  destruct (agg !! x) eqn:E; [done|]. unfold sessions_of. destruct (decide (x = u)) as [->|Hne].
  - by rewrite lookup_insert_eq, E.
  - by rewrite lookup_insert_ne.
Qed.

Lemma seed_dom configured agg u :
  is_Some (seed_configured configured agg !! u) <-> u ∈ configured \/ is_Some (agg !! u).
Proof.
  revert agg. induction configured as [|x configured IH]; intros agg; simpl.
  - split; [by right|]. intros [H|H]; [by apply not_elem_of_nil in H|done].
  - rewrite IH, elem_of_cons. destruct (agg !! x) eqn:E.
    + split; [naive_solver|]. intros [[->|?]|?]; eauto.
    + destruct (decide (x = u)) as [->|Hne]; [rewrite lookup_insert_eq; naive_solver|].
      rewrite lookup_insert_ne by done. naive_solver.
Qed.

Lemma merge_dom iter agg u :
  is_Some (merge_clients iter agg !! u) <->
  is_Some (agg !! u) \/ exists id info, (id, info) ∈ iter /\ label_of (ci_username info) = u.
Proof.
  revert agg. induction iter as [|[id info] iter IH]; intros agg; simpl.
  - split; [by left|]. intros [H|(? & ? & H & _)]; [done|by apply not_elem_of_nil in H].
  - rewrite IH. unfold merge_client.
    destruct (decide (label_of (ci_username info) = u)) as [Hu|Hne].
    + subst u. rewrite lookup_insert_eq. split; [|by left]. intros _. right. exists id, info. set_solver.
    + rewrite lookup_insert_ne by done. split; [set_solver|].
      intros [H|(id' & info' & [[= -> ->]|Hin]%elem_of_cons & Hl)]; [by left|done|]. right. eauto.
Qed.

(** The sum over the table, in any order, is the number of the live sessions of the user. *)
Lemma sessions_sum_live (w : MetricsWorld) iter u :
  metrics_inv (GV:=GV) (CV:=CV) w -> iter ≡ₚ map_to_list (clients (mw_metrics w)) ->
  sessions_sum u iter = count_guards (fun g => bool_decide (session_label (clients (mw_metrics w)) g = u)) (mw_live w).
Proof.
  intros [Hnd Hlive Hpend Hdom _ _ _ _] Hiter.
  set (c := clients (mw_metrics w)) in *.
  set (entry id := (id, default client_info_default (c !! id))).
  assert (iter ≡ₚ entry <$> ((sc_conn_id <$> mw_live w) ++ mw_pending w)) as ->.
  { rewrite Hiter. apply NoDup_Permutation.
    - apply NoDup_map_to_list.
    - apply NoDup_fmap_2_strong; [|done]. intros x y _ _ [= Hxy _]. done.
    - intros [id info]. rewrite elem_of_map_to_list, list_elem_of_fmap. split.
      + intros Hc. exists id. unfold entry. rewrite Hc. split; [done|eauto].
      + intros (id' & [= -> ->] & [(g & -> & Hg)%list_elem_of_fmap|Hid]%elem_of_app).
        * by destruct (Hlive g Hg) as (e & -> & _).
        * by destruct (Hpend id' Hid) as (e & -> & _). }
  clear Hiter Hnd Hdom iter. rewrite fmap_app.
  assert (forall l k, sessions_sum u (l ++ k) = sessions_sum u l + sessions_sum u k) as Happ
    by (intros l k; induction l as [|[] l IH]; simpl; lia).
  rewrite Happ.
  assert (sessions_sum u (entry <$> mw_pending w) = 0) as ->.
  { revert Hpend. generalize (mw_pending w). induction l as [|id l IH]; intros Hp; [done|]. rewrite fmap_cons. unfold entry at 1. cbn [sessions_sum].
    rewrite IH; [|intros ? ?; apply Hp; set_solver].
    destruct (Hp id) as (e & -> & Hs & _); [set_solver|]. simpl. rewrite Hs. by case_decide. }
  rewrite Z.add_0_r. revert Hlive. generalize (mw_live w). induction l as [|g l IH]; intros Hl; [done|].
  rewrite !fmap_cons. unfold entry at 1. cbn [sessions_sum]. rewrite count_guards_cons, IH by (intros ? ?; apply Hl; set_solver).
  destruct (Hl g) as (e & He & Hs); [set_solver|].
  rewrite (session_label_entry _ _ _ He), He. simpl. rewrite Hs. f_equal. symmetry. case_decide as Hd; [by rewrite bool_decide_true|by rewrite bool_decide_false].
Qed.

(** The summary served at [/clients], whatever the order in which the table is iterated:
    it has an entry for every configured client and for every user with a connection and
    for nobody else; each entry shows the number of the live sessions of its user, the
    address of one of its connections, and its traffic totals. *)
Theorem clients_summary_exact register m0 (w : MetricsWorld) configured iter u :
  metrics_new (GV:=GV) (CV:=CV) register true = Ok m0 ->
  rtc metrics_step (mkMetricsWorld m0 [] [] 0 0) w ->
  iter ≡ₚ map_to_list (clients (mw_metrics w)) -> len (mw_live w) < 2 ^ 64 ->
  let labelled id := exists e, clients (mw_metrics w) !! id = Some e /\ label_of (ci_username e) = u in
  match clients_summary configured iter (mw_metrics w) !! u with
  | Some s =>
      (u ∈ configured \/ exists id, labelled id) /\ cs_username s = u /\
      cs_sessions s = count_guards (fun g => bool_decide (session_label (clients (mw_metrics w)) g = u)) (mw_live w) /\
      cs_inbound s = mv_get (inbound_traffic_per_user (mw_metrics w)) [u] /\
      cs_outbound s = mv_get (outbound_traffic_per_user (mw_metrics w)) [u] /\
      forall ip, cs_ip s = Some ip ->
        exists id e, clients (mw_metrics w) !! id = Some e /\ label_of (ci_username e) = u /\ ci_ip e = Some ip
  | None => u ∉ configured /\ ~ exists id, labelled id
  end.
Proof.
  intros Hnew Hrun Hiter Hlen labelled.
  destruct (inv_reachable _ _ _ _ Hnew Hrun) as [Hinv Hper].
  assert (forall id info, (id, info) ∈ iter <-> clients (mw_metrics w) !! id = Some info) as Hin
    by (intros id info; rewrite Hiter; apply elem_of_map_to_list).
  assert (Forall (fun x => 0 <= ci_sessions x.2) iter) as Hf.
  { apply Forall_forall. intros [id info] Hx%Hin. simpl. destruct Hinv as [_ Hlive Hpend Hdom _ _ _ _].
    pose proof (Hdom _ _ Hx) as [(g & -> & Hg)%list_elem_of_fmap|Hid]%elem_of_app.
    - destruct (Hlive g Hg) as (? & ? & ?). naive_solver lia.
    - destruct (Hpend id Hid) as (? & ? & ? & _). naive_solver lia. }
  set (agg := merge_clients iter (seed_configured configured ∅)).
  assert (summary_ok iter agg) as Hok
    by (apply merge_clients_ok; [done|done|]; apply seed_ok; intros ? ? ?%lookup_empty_Some; done).
  assert (is_Some (agg !! u) <-> u ∈ configured \/ exists id, labelled id) as Hdom.
  { unfold agg. rewrite merge_dom, seed_dom, lookup_empty. unfold labelled. setoid_rewrite Hin.
    split; [intros [[?|[? [=]]]|?]|]; naive_solver. }
  assert (sessions_of agg u
    = count_guards (fun g => bool_decide (session_label (clients (mw_metrics w)) g = u)) (mw_live w)) as Hsum.
  { unfold agg. rewrite merge_sessions; [|done|by rewrite seed_sessions].
    rewrite seed_sessions, (sessions_sum_live w iter u) by done. unfold sessions_of. rewrite lookup_empty.
    match goal with |- context [count_guards ?f ?l] => pose proof (count_guards_bound f l) end. lia. }
  unfold clients_summary. fold agg. rewrite lookup_fmap. unfold sessions_of in Hsum.
  destruct (agg !! u) as [s|] eqn:E; simpl.
  - unfold with_traffic. rewrite Hper. simpl. destruct (Hok u s E) as (Hname & _ & Hip). rewrite Hname.
    split_and!; [apply Hdom; eauto|done|done|done|done|].
    intros ip (id & info & ?%Hin & ? & ?)%Hip. eauto.
  - split; [intros H|intros H]; destruct (proj2 Hdom ltac:(eauto)); done.
Qed.

End summary.

(** ** The registry and the body *)

(** A fresh registry refuses a metric only for a name it has, and the names are distinct. *)
Lemma metrics_new_ok {GV CV} `{!MetricVec GV, !MetricVec CV} register per_client :
  (forall names n, n ∉ names -> register names n = Ok tt) ->
  exists m : Metrics GV CV, metrics_new register per_client = Ok m /\ clients m = ∅.
Proof.
  intros Hreg. unfold metrics_new. cbn [register_all metric_names].
  rewrite !Hreg by by_compute. cbn [bindR]. eauto.
Qed.

Section content_laws.
Context {Snk WEnv : Type} `{SinkLaws Snk WEnv}.

(** A body that was written has reached the sink whole, which was told of the end. *)
Lemma write_content_delivers content envs sink sink' :
  write_content content envs sink = Ret (Some (Ok tt), sink') ->
  accepted sink' = accepted sink ++ content /\ ended sink' = true.
Proof.
  revert content sink. induction envs as [|[we wt] envs IH]; intros content sink.
  - destruct content; [|done]. simpl. destruct (snk_eof sink) as [r s] eqn:E. intros [= -> ->].
    destruct (eof_law _ _ _ E) as [-> Hend]. rewrite app_nil_r. auto.
  - destruct content as [|b content]; simpl.
    + destruct (snk_eof sink) as [r s] eqn:E. intros [= -> ->].
      destruct (eof_law _ _ _ E) as [-> Hend]. rewrite app_nil_r. auto.
    + destruct (snk_write we sink (b :: content)) as [[r s1]|] eqn:Ew1; [|done].
      apply write_prefix_law in Ew1 as (k & rest & -> & Hacc & Hr). cbn [bindM]. destruct r as [unsent|]; [|done]. rewrite (Hr unsent eq_refl).
      destruct (snk_wait_writable wt s1) as [[[]|] s2] eqn:Ew; [|done|done].
      intros [Ha He]%IH. by rewrite Ha, (wait_law _ _ _ _ Ew), Hacc, <- app_assoc.
Qed.

(** It is written to the end when every write takes a byte and no wait fails. *)
Lemma write_content_finishes content envs sink :
  (forall env s d, d <> [] -> exists s' x, snk_write env s d = Ret (Ok x, s') /\ len x < len d) ->
  (forall env s, exists s', snk_wait_writable env s = (Some (Ok tt), s')) ->
  (forall s, exists s', snk_eof s = (Ok tt, s')) ->
  (length content <= length envs)%nat ->
  exists sink', write_content content envs sink = Ret (Some (Ok tt), sink').
Proof.
  intros Hw Hwait Heof. revert content sink. induction envs as [|[we wt] envs IH]; intros content sink Hlen;
    (destruct content as [|b content]; [simpl; destruct (Heof sink) as [s' ->]; eauto|]); simpl in Hlen; [lia|].
  simpl. destruct (Hw we sink (b :: content)) as (s1 & x & -> & Hx); [done|]. cbn [bindM].
  destruct (Hwait wt s1) as [s2 ->]. apply IH. len_lia.
Qed.

End content_laws.

(** ** A session that is relabelled *)

Module MetricsSample.

Abbreviation gauges := (MetricRef.vec as_i64).
Abbreviation counters := (MetricRef.vec as_u64).

Definition accept_all (names : list bytes) (n : bytes) : result ErrorKind unit := Ok tt.

Definition m0 : Metrics gauges counters := mkMetrics true mv_new mv_new mv_new mv_new mv_new mv_new 0 0 ∅.
Definition conn : bytes := str "CLIENT=1/TUN=0".
Definition peer : IpAddr := IpV4 [203; 0; 113; 7].
Definition g : ClientSessionsCounter := mkSessionsCounter Http2 conn.
Definition m1 : Metrics gauges counters := register_connection conn (Some peer) m0.
Definition m2 : Metrics gauges counters := (client_sessions_counter Http2 conn None m1).2.
Definition m3 : Metrics gauges counters := transfer_session_username Http2 conn (Some (str "bob")) m2.
Definition m4 : Metrics gauges counters := add_inbound_bytes Http2 (Some (str "bob")) 100 m3.

Definition w4 : MetricsWorld := mkMetricsWorld m4 [g] [] 0 0.

Lemma run4 : rtc metrics_step (mkMetricsWorld m0 [] [] 0 0) w4.
Proof.
  apply (rtc_l _ _ (mkMetricsWorld m1 [] [conn] 0 0)); [apply ms_register; set_solver|].
  apply (rtc_l _ _ (mkMetricsWorld m2 [g] [] 0 0)); [by apply (ms_session m1 [] [] conn [] 0 0 Http2 None)|].
  apply (rtc_l _ _ (mkMetricsWorld m3 [g] [] 0 0)); [apply (ms_transfer m2 [g] [] 0 0 g (Some (str "bob"))); set_solver|].
  apply rtc_once. apply (ms_inbound m3 [g] [] 0 0).
Qed.

End MetricsSample.

(** The session of "bob" is counted under his name, and no more under the empty one. *)
Lemma session_gauges_balanced_witness :
  mv_get (client_sessions_per_user MetricsSample.m4) [str "bob"; str "HTTP2"] = 1 /\
  mv_get (client_sessions_per_user MetricsSample.m4) [[]; str "HTTP2"] = 0.
Proof.
  assert (len (mw_live MetricsSample.w4) < 2 ^ 63) as Hlen by reflexivity.
  destruct (session_gauges_balanced MetricsSample.accept_all true MetricsSample.m0 MetricsSample.w4
    eq_refl MetricsSample.run4 Hlen eq_refl eq_refl) as (_ & Huser & _).
  specialize (Huser eq_refl). split.
  - apply (Huser (str "bob") Http2).
  - apply (Huser [] Http2).
Defined.

Lemma clients_summary_exact_witness :
  cs_sessions <$> clients_summary [str "alice"] (map_to_list (clients MetricsSample.m4)) MetricsSample.m4 !! str "bob"
    = Some 1 /\
  cs_inbound <$> clients_summary [str "alice"] (map_to_list (clients MetricsSample.m4)) MetricsSample.m4 !! str "bob"
    = Some 100.
Proof.
  assert (len (mw_live MetricsSample.w4) < 2 ^ 64) as Hlen by reflexivity.
  pose proof (clients_summary_exact MetricsSample.accept_all MetricsSample.m0 MetricsSample.w4 [str "alice"]
    (map_to_list (clients MetricsSample.m4)) (str "bob") eq_refl MetricsSample.run4 (reflexivity _) Hlen) as H.
  cbv zeta in H. change (mw_metrics MetricsSample.w4) with MetricsSample.m4 in H.
  destruct (clients_summary _ _ _ !! str "bob") as [s|].
  - destruct H as (_ & _ & Hs & Hi & _). cbn [fmap option_fmap option_map]. rewrite Hs, Hi. split; vm_compute; reflexivity.
  - destruct H as [_ H]. exfalso. apply H. exists MetricsSample.conn. eexists. split; vm_compute; reflexivity.
Defined.
