(* ===== verification/ClientConfig.v ===== *)
(** * Client configurations

    lib/src/client_config.rs: the configuration of a client that the endpoint exports,
    as a TOML document or as a deep link, and the subscription URL it may carry.  The
    file system, the certificate verifier, [rustls_pemfile] and [toml_edit] are
    parameters. *)

From S2P Require Import Prelude.
From S2P Require Import Codecs.
From S2P Require Import Varint.
From S2P Require Import DeepLink.
From S2P Require Import Cert.
From S2P Require Import NetUtils.
From S2P Require Import Auth.
From S2P Require Import Tunnel.
From S2P Require Import ForwardedStream.
From S2P Require Import TlsDemux.
From S2P Require Import ReverseProxy.
From S2P Require Import Settings.

(** ** Subscription URLs *)

Definition is_alphanumeric (b : Z) : bool :=
  in_range 0x30 0x39 b || in_range 0x41 0x5A b || in_range 0x61 0x7A b.

Definition is_unreserved (b : Z) : bool :=
  is_alphanumeric b || (b =? 0x2D) || (b =? 0x2E) || (b =? 0x5F) || (b =? 0x7E).

(** A digit of [{:02X}]. *)
Definition upper_hex_digit (d : Z) : Z := if d <? 10 then 0x30 + d else 0x41 + (d - 10).

Fixpoint percent_encode_userinfo (s : bytes) : bytes :=
  match s with
  | [] => []
  | b :: s =>
      (if is_unreserved b then [b] else [0x25; upper_hex_digit (b / 16); upper_hex_digit (b mod 16)])
      ++ percent_encode_userinfo s
  end.

(** [url.find(['/', '?', '#'])]. *)
Definition ends_authority (c : Z) : bool := (c =? 0x2F) || (c =? 0x3F) || (c =? 0x23).

Fixpoint split_authority (url : bytes) : bytes * bytes :=
  match url with
  | [] => ([], [])
  | c :: rest => if ends_authority c then ([], url) else let (a, t) := split_authority rest in (c :: a, t)
  end.

Definition HTTPS : bytes := str "https://".

Definition build_subscription_url (base username password : bytes) : bytes :=
  let rest := default base (strip_prefix HTTPS base) in
  let (authority, tail) := split_authority rest in
  let authority := match rsplit_once 0x40 authority with Some (_, host) => host | None => authority end in
  HTTPS ++ percent_encode_userinfo username ++ [0x3A] ++ percent_encode_userinfo password ++ [0x40]
  ++ authority ++ tail.

Inductive UrlOverrideError : Type := NotHttps | NoHost | HasCredentials.

Definition validate_subscription_url_override (url : bytes) : result UrlOverrideError unit :=
  match strip_prefix HTTPS url with
  | None => Err NotHttps
  | Some rest =>
      let (authority, _) := split_authority rest in
      if decide (authority = []) then Err NoHost
      else if existsb (Z.eqb 0x40) authority then Err HasCredentials
      else Ok tt
  end.

Definition subscription_url_port (address : option bytes) : option Z :=
  match address with
  | None => None
  | Some address =>
      match rsplit_once 0x3A address with
      | None => None
      | Some (_, p) =>
          match parse_u16 p with
          | None => None
          | Some port => if negb (port =? 0) && negb (port =? 443) then Some port else None
          end
      end
  end.

(** ** The configuration *)

Record ClientConfig : Type := mkClientConfig {
  cc_hostname : bytes;
  cc_addresses : list bytes;
  cc_custom_sni : bytes;
  cc_has_ipv6 : bool;
  cc_username : bytes;
  cc_password : bytes;
  cc_client_random_prefix : bytes;
  cc_client_random_auth_key : bytes;
  cc_skip_verification : bool;
  cc_certificate : bytes;
  cc_cert_is_system_verifiable : bool;
  cc_upstream_protocol : bytes;
  cc_anti_dpi : bool;
  cc_name : bytes;
  cc_dns_upstreams : list bytes;
  cc_subscription_url : option bytes;
}.

Section build.
(** [fs::read_to_string]; [verifiable path hostname] is [is_system_verifiable] of the
    verifier, [None] when there is no verifier. *)
Context (read_to_string : bytes -> result ErrorKind bytes) (verifiable : option (bytes -> bytes -> bool)).

(** Every failure is an [expect]. *)
Definition client_config_build (client : bytes) (addresses : list bytes) (username : list Client)
    (hostsettings : TlsHostsSettings) (custom_sni client_random_prefix client_random_auth_key name : option bytes)
    (dns_upstreams : list bytes) (subscription_url : option bytes) : M ClientConfig :=
  let! user := unwrap (List.find (fun x => bool_decide (Auth.username x = client)) username) in
  let! host := unwrap (head (ths_main hostsettings)) in
  let! certificate := match read_to_string (hi_cert_chain_path host) with Ok c => Ret c | Err _ => Panic end in
  let cert_is_system_verifiable :=
    match verifiable with Some v => v (hi_cert_chain_path host) (hi_hostname host) | None => false end in
  Ret (mkClientConfig (hi_hostname host) addresses (default [] custom_sni) true (Auth.username user)
         (Auth.password user) (default [] client_random_prefix) (default [] client_random_auth_key) false
         certificate cert_is_system_verifiable (str "http2") false (default [] name) dns_upstreams
         subscription_url).

End build.

(** A value of the TOML document. *)
Inductive TomlValue : Type :=
| TString (s : bytes)
| TBool (b : bool)
| TArray (l : list bytes).

(** The assignments [doc[key] = value] of [compose_toml], in their order. *)
Definition toml_assignments (self : ClientConfig) : list (bytes * TomlValue) :=
  [(str "hostname", TString (cc_hostname self));
   (str "addresses", TArray (cc_addresses self));
   (str "custom_sni", TString (cc_custom_sni self));
   (str "has_ipv6", TBool (cc_has_ipv6 self));
   (str "username", TString (cc_username self));
   (str "password", TString (cc_password self));
   (str "client_random_prefix", TString (cc_client_random_prefix self));
   (str "client_random_auth_key", TString (cc_client_random_auth_key self));
   (str "skip_verification", TBool (cc_skip_verification self));
   (str "certificate", TString (if cc_cert_is_system_verifiable self then [] else cc_certificate self));
   (str "upstream_protocol", TString (cc_upstream_protocol self));
   (str "anti_dpi", TBool (cc_anti_dpi self))]
  ++ (if decide (cc_name self = []) then [] else [(str "name", TString (cc_name self))])
  ++ (if decide (cc_dns_upstreams self = []) then [] else [(str "dns_upstreams", TArray (cc_dns_upstreams self))])
  ++ match cc_subscription_url self with Some url => [(str "subscription_url", TString url)] | None => [] end.

(** The keys of [TEMPLATE] with their values. *)
Definition TEMPLATE : gmap bytes TomlValue :=
  list_to_map
    [(str "hostname", TString []); (str "addresses", TArray []); (str "custom_sni", TString []);
     (str "has_ipv6", TBool true); (str "username", TString []); (str "password", TString []);
     (str "client_random_prefix", TString []); (str "client_random_auth_key", TString []);
     (str "skip_verification", TBool false); (str "certificate", TString []);
     (str "upstream_protocol", TString []); (str "anti_dpi", TBool false); (str "name", TString []);
     (str "dns_upstreams", TArray [])].

(** The document that [compose_toml] prints, by its keys. *)
Definition compose_toml (self : ClientConfig) : gmap bytes TomlValue :=
  foldl (fun doc '(k, v) => <[k := v]> doc) TEMPLATE (toml_assignments self).

Section deeplink.
Context (pemfile_certs : bytes -> option (list bytes)) (hex_decode : bytes -> option bytes)
  (b64_encode : bytes -> bytes).

(** [if s.is_empty() { None } else { Some(s) }]. *)
Definition present (s : bytes) : option bytes := if decide (s = []) then None else Some s.

Definition deeplink_config (self : ClientConfig) : result ErrorKind DeepLinkConfig :=
  let? certificate :=
    if negb (cc_cert_is_system_verifiable self) && negb (bool_decide (cc_certificate self = [])) then
      match pem_to_der pemfile_certs (cc_certificate self) with
      | Ok der => Ok (Some der)
      | Err _ => Err InvalidData
      end
    else Ok None in
  let? upstream_protocol := map_err (fun _ => InvalidInput) (protocol_from_str (cc_upstream_protocol self)) in
  Ok (mkConfig (Some (cc_hostname self)) (cc_addresses self) (Some (cc_username self)) (Some (cc_password self))
        (present (cc_client_random_prefix self)) (present (cc_client_random_auth_key self))
        (present (cc_custom_sni self)) (cc_has_ipv6 self) (cc_skip_verification self) certificate
        upstream_protocol (cc_anti_dpi self) (present (cc_name self)) (cc_dns_upstreams self)
        (cc_subscription_url self)).

Definition compose_deeplink (self : ClientConfig) : result ErrorKind bytes :=
  let? config := deeplink_config self in
  map_err (fun _ => InvalidData) (encode b64_encode config).

Definition compose_deeplink_subscription_only (self : ClientConfig) : result ErrorKind bytes :=
  match cc_subscription_url self with
  | None => Err InvalidInput
  | Some subscription_url =>
      let? config := map_err (fun _ => InvalidData)
                       (build hex_decode (set_subscription_url (Some subscription_url) builder)) in
      map_err (fun _ => InvalidData) (encode b64_encode config)
  end.

End deeplink.

(** ** Reference: reading a URL (RFC 3986) *)

Fixpoint percent_decode (s : bytes) : option bytes :=
  match s with
  | [] => Some []
  | c :: s =>
      if c =? 0x25 then
        match s with
        | h :: l :: s =>
            match hex_value h, hex_value l, percent_decode s with
            | Some h, Some l, Some r => Some (h * 16 + l :: r)
            | _, _, _ => None
            end
        | _ => None
        end
      else match percent_decode s with Some r => Some (c :: r) | None => None end
  end.

(** User, password, host with its port, and path with its query. *)
Definition parse_https_url (url : bytes) : option (bytes * bytes * bytes * bytes) :=
  match strip_prefix HTTPS url with
  | None => None
  | Some rest =>
      let (authority, tail) := split_authority rest in
      match rsplit_once 0x40 authority with
      | None => None
      | Some (userinfo, host) =>
          match split_once 0x3A userinfo with
          | None => None
          | Some (u, p) =>
              match percent_decode u, percent_decode p with
              | Some u, Some p => Some (u, p, host, tail)
              | _, _ => None
              end
          end
      end
  end.

(** ** Lemmas on URLs *)

Lemma upper_hex_value d : 0 <= d < 16 -> hex_value (upper_hex_digit d) = Some d.
Proof.
  intros H. unfold upper_hex_digit, hex_value, in_range.
  destruct (Z.ltb_spec d 10); repeat case_bool; simpl; try lia; f_equal; lia.
Qed.

Lemma upper_hex_alphanumeric d : 0 <= d < 16 -> is_alphanumeric (upper_hex_digit d) = true.
Proof.
  intros H. unfold upper_hex_digit, is_alphanumeric, in_range.
  destruct (Z.ltb_spec d 10); repeat case_bool; simpl; lia || done.
Qed.

Lemma percent_roundtrip s : wf_bytes s -> percent_decode (percent_encode_userinfo s) = Some s.
Proof.
  induction 1 as [|b s Hb _ IH]; [done|]. unfold is_byte in Hb.
  simpl. destruct (is_unreserved b) eqn:Eb.
  - simpl. destruct (Z.eqb_spec b 0x25) as [->|_]; [done|]. by rewrite IH.
  - change (percent_decode (0x25 :: upper_hex_digit (b / 16) :: upper_hex_digit (b mod 16)
      :: percent_encode_userinfo s) = Some (b :: s)).
    cbn [percent_decode]. change (0x25 =? 0x25) with true. cbn iota.
    rewrite !upper_hex_value, IH by div_lia. do 2 f_equal. div_lia.
Qed.

(** Only unreserved characters and the percent sign are left. *)
Lemma percent_encode_chars s :
  wf_bytes s -> Forall (fun c => is_unreserved c = true \/ c = 0x25) (percent_encode_userinfo s).
Proof.
  induction 1 as [|b s Hb _ IH]; simpl; [constructor|]. unfold is_byte in Hb.
  apply Forall_app_2; [|done]. destruct (is_unreserved b) eqn:Eb; [constructor; [by left|constructor]|].
  constructor; [by right|]. constructor; [|constructor; [|constructor]]; left; unfold is_unreserved; rewrite upper_hex_alphanumeric by div_lia; done.
Qed.

Lemma percent_encode_free s c :
  wf_bytes s -> is_unreserved c = false -> c <> 0x25 -> c ∉ percent_encode_userinfo s.
Proof.
  intros Hs Hc Hp Hin. pose proof (percent_encode_chars s Hs) as Hf. rewrite Forall_forall in Hf.
  destruct (Hf c Hin); congruence.
Qed.

Lemma split_authority_app a t :
  Forall (fun c => ends_authority c = false) a ->
  match t with [] => True | c :: _ => ends_authority c = true end ->
  split_authority (a ++ t) = (a, t).
Proof.
  intros Ha Ht. induction Ha as [|c a Hc _ IH]; simpl.
  - destruct t as [|c t]; [done|]. simpl. by rewrite Ht.
  - by rewrite Hc, IH.
Qed.

Lemma split_authority_inv url a t :
  split_authority url = (a, t) ->
  url = a ++ t /\ Forall (fun c => ends_authority c = false) a /\
  match t with [] => True | c :: _ => ends_authority c = true end.
Proof.
  revert a t. induction url as [|c url IH]; intros a t; simpl; [by intros [= <- <-]|].
  destruct (ends_authority c) eqn:E; [by intros [= <- <-]|].
  destruct (split_authority url) as [a' t'] eqn:Es. intros [= <- <-].
  destruct (IH a' t' eq_refl) as (-> & Hf & Ht). split_and!; [done|by constructor|done].
Qed.

Lemma rsplit_once_app c p l : c ∉ l -> rsplit_once c (p ++ c :: l) = Some (p, l).
Proof.
  intros Hl. unfold rsplit_once. rewrite rev_app_distr. simpl. rewrite <- app_assoc. simpl.
  rewrite split_once_app; [by rewrite !rev_involutive|]. intros Hin. apply Hl. apply list_elem_of_In, in_rev. by apply list_elem_of_In.
Qed.

Lemma rsplit_once_None c l : c ∉ l -> rsplit_once c l = None.
Proof.
  intros Hl. unfold rsplit_once. rewrite (proj2 (split_once_None c (rev l))); [done|].
  intros Hin. apply Hl. apply list_elem_of_In, in_rev. by apply list_elem_of_In.
Qed.

Lemma rsplit_once_inv c l p q : rsplit_once c l = Some (p, q) -> l = p ++ c :: q /\ c ∉ q.
Proof.
  unfold rsplit_once. destruct (split_once c (rev l)) as [[b a]|] eqn:E; [|done]. intros [= <- <-].
  apply split_once_inv in E as [E Hb]. split.
  - rewrite <- (rev_involutive l), E, rev_app_distr. simpl. by rewrite <- app_assoc.
  - intros Hin. apply Hb. apply list_elem_of_In, in_rev. by apply list_elem_of_In.
Qed.

(** The authority without the user information, which nothing in it separates. *)
Definition bare_authority (authority : bytes) : bytes :=
  match rsplit_once 0x40 authority with Some (_, host) => host | None => authority end.

Lemma bare_authority_ok a :
  Forall (fun c => ends_authority c = false) a ->
  0x40 ∉ bare_authority a /\ Forall (fun c => ends_authority c = false) (bare_authority a).
Proof.
  intros Hf. unfold bare_authority. destruct (rsplit_once 0x40 a) as [[u h]|] eqn:E.
  - apply rsplit_once_inv in E as [-> Hh]. apply Forall_app in Hf as [_ [_ Hf]%Forall_cons_1]. done.
  - split; [|done]. intros Hin. apply list_elem_of_split in Hin as (l1 & l2 & ->).
    unfold rsplit_once in E. destruct (split_once 0x40 (rev (l1 ++ 0x40 :: l2))) as [[]|] eqn:Es; [done|].
    apply split_once_None in Es. apply Es. rewrite rev_app_distr. simpl. set_solver.
Qed.

(** Any base: the credentials, the host and the tail can be read back from the URL. *)
Lemma subscription_url_reads base u p authority tail :
  wf_bytes u -> wf_bytes p ->
  split_authority (default base (strip_prefix HTTPS base)) = (authority, tail) ->
  build_subscription_url base u p
    = HTTPS ++ (percent_encode_userinfo u ++ [0x3A] ++ percent_encode_userinfo p ++ [0x40] ++ bare_authority authority)
      ++ tail /\
  split_authority ((percent_encode_userinfo u ++ [0x3A] ++ percent_encode_userinfo p ++ [0x40]
      ++ bare_authority authority) ++ tail)
    = (percent_encode_userinfo u ++ [0x3A] ++ percent_encode_userinfo p ++ [0x40] ++ bare_authority authority, tail) /\
  parse_https_url (build_subscription_url base u p) = Some (u, p, bare_authority authority, tail).
Proof.
  intros Hu Hp Es. apply split_authority_inv in Es as Hinv. destruct Hinv as (_ & Ha & Ht).
  destruct (bare_authority_ok authority Ha) as [Hat Hb].
  assert (forall s, wf_bytes s -> Forall (fun c => ends_authority c = false) (percent_encode_userinfo s)) as Hpe.
  { intros s Hs. eapply Forall_impl; [by apply percent_encode_chars|]. intros c [Hc| ->]; [|done].
    unfold ends_authority. destruct (Z.eqb_spec c 0x2F) as [->|]; [done|].
    destruct (Z.eqb_spec c 0x3F) as [->|]; [done|]. by destruct (Z.eqb_spec c 0x23) as [->|]. }
  assert (split_authority ((percent_encode_userinfo u ++ [0x3A] ++ percent_encode_userinfo p ++ [0x40]
      ++ bare_authority authority) ++ tail)
    = (percent_encode_userinfo u ++ [0x3A] ++ percent_encode_userinfo p ++ [0x40] ++ bare_authority authority, tail)) as Hsplit.
  { apply split_authority_app; [|done]. rewrite !Forall_app. split_and!; auto; by repeat constructor. }
  assert (build_subscription_url base u p
    = HTTPS ++ (percent_encode_userinfo u ++ [0x3A] ++ percent_encode_userinfo p ++ [0x40] ++ bare_authority authority)
      ++ tail) as Hbuild
    by (unfold build_subscription_url; rewrite Es; fold (bare_authority authority); by rewrite <- !app_assoc).
  split_and!; [done|done|]. rewrite Hbuild. unfold parse_https_url. rewrite strip_prefix_app, Hsplit.
  replace (percent_encode_userinfo u ++ [0x3A] ++ percent_encode_userinfo p ++ [0x40] ++ bare_authority authority)
    with ((percent_encode_userinfo u ++ 0x3A :: percent_encode_userinfo p) ++ 0x40 :: bare_authority authority)
    by (by rewrite <- app_assoc).
  rewrite rsplit_once_app, split_once_app, !percent_roundtrip by (done || by apply percent_encode_free). done.
Qed.

(** ** Subscription URLs *)

(** C29: from an override that was accepted the exported URL is unambiguous: whatever bytes the
    user name and the password are made of, a reader of the URL gets back the credentials,
    the host and the path with its query of the override, an at sign or a colon in any of
    them included. *)
Theorem subscription_url_roundtrip base u p :
  validate_subscription_url_override base = Ok tt -> wf_bytes u -> wf_bytes p ->
  exists host tail, base = HTTPS ++ host ++ tail /\ host <> [] /\
    parse_https_url (build_subscription_url base u p) = Some (u, p, host, tail).
Proof.
  unfold validate_subscription_url_override. intros Hv Hu Hp.
  destruct (strip_prefix HTTPS base) as [rest|] eqn:Er; [|done].
  destruct (split_authority rest) as [host tail] eqn:Es. case_decide as Hne; [done|].
  destruct (existsb (Z.eqb 0x40) host) eqn:Eat; [done|].
  assert (0x40 ∉ host) as Hat.
  { intros Hin. assert (existsb (Z.eqb 0x40) host = true); [|congruence].
    apply existsb_exists. exists 0x40. by rewrite <- list_elem_of_In. }
  exists host, tail. split_and!; [|done|].
  - apply strip_prefix_spec in Er. apply split_authority_inv in Es as [-> _]. done.
  - destruct (subscription_url_reads base u p host tail Hu Hp) as (_ & _ & ->); [by rewrite Er|].
    unfold bare_authority. by rewrite rsplit_once_None.
Qed.

Lemma subscription_url_roundtrip_witness :
  exists host tail, str "https://vpn.example.com:8443/s@b?k=a:b" = HTTPS ++ host ++ tail /\ host <> [] /\
    parse_https_url (build_subscription_url (str "https://vpn.example.com:8443/s@b?k=a:b") (str "al:ice") (str "p@ss/#"))
      = Some (str "al:ice", str "p@ss/#", host, tail).
Proof. apply subscription_url_roundtrip; [reflexivity|by_compute|by_compute]. Defined.

(** The credentials of a base are replaced, not added to. *)
Lemma subscription_url_replaces base u p u' p' :
  wf_bytes u -> wf_bytes p -> wf_bytes u' -> wf_bytes p' ->
  build_subscription_url (build_subscription_url base u p) u' p' = build_subscription_url base u' p'.
Proof.
  intros Hu Hp Hu' Hp'.
  destruct (split_authority (default base (strip_prefix HTTPS base))) as [a t] eqn:Es.
  destruct (subscription_url_reads base u p a t Hu Hp Es) as (Hb & Hs & _).
  destruct (subscription_url_reads base u' p' a t Hu' Hp' Es) as (Hb' & _ & _).
  rewrite Hb'. unfold build_subscription_url at 1. rewrite Hb, strip_prefix_app. cbn [from_option id].
  rewrite Hs.
  replace (percent_encode_userinfo u ++ [0x3A] ++ percent_encode_userinfo p ++ [0x40] ++ bare_authority a)
    with ((percent_encode_userinfo u ++ 0x3A :: percent_encode_userinfo p) ++ 0x40 :: bare_authority a)
    by (by rewrite <- app_assoc).
  apply split_authority_inv in Es as (_ & Ha & _). destruct (bare_authority_ok a Ha) as [Hat _].
  rewrite rsplit_once_app by done. by rewrite <- !app_assoc.
Qed.

(** The port is left out exactly when it is the default one or there is none. *)
Lemma subscription_url_port_spec address port :
  subscription_url_port address = Some port <->
  exists a h p, address = Some a /\ rsplit_once 0x3A a = Some (h, p) /\ parse_u16 p = Some port /\ port <> 0 /\ port <> 443.
Proof.
  unfold subscription_url_port. split.
  - destruct address as [a|]; [|done]. destruct (rsplit_once 0x3A a) as [[h p]|] eqn:E; [|done].
    destruct (parse_u16 p) as [q|] eqn:Eq; [|done]. destruct (Z.eqb_spec q 0), (Z.eqb_spec q 443); simpl; try done.
    intros [= <-]. by exists a, h, p.
  - intros (a & h & p & -> & -> & -> & H0 & H443).
    by rewrite (proj2 (Z.eqb_neq _ _) H0), (proj2 (Z.eqb_neq _ _) H443).
Qed.

(** ** Deep links *)

Lemma drop_empty_present s : drop_empty (present s) = present s.
Proof. unfold present. case_decide; [done|]. by destruct s. Qed.

Lemma default_present s : default [] (present s) = s.
Proof. unfold present. by case_decide; subst. Qed.

(** What a client reads from a link: the values of the configuration, the absent ones
    empty. *)
Definition imports (pemfile_certs : bytes -> option (list bytes)) (c : DeepLinkConfig) (self : ClientConfig) : Prop :=
  hostname c = Some (cc_hostname self) /\ addresses c = cc_addresses self /\
  DeepLink.username c = Some (cc_username self) /\ DeepLink.password c = Some (cc_password self) /\
  default [] (client_random_prefix c) = cc_client_random_prefix self /\
  default [] (client_random_auth_key c) = cc_client_random_auth_key self /\
  default [] (custom_sni c) = cc_custom_sni self /\ default [] (name c) = cc_name self /\
  has_ipv6 c = cc_has_ipv6 self /\ skip_verification c = cc_skip_verification self /\
  anti_dpi c = cc_anti_dpi self /\ dns_upstreams c = cc_dns_upstreams self /\
  subscription_url c = cc_subscription_url self /\
  protocol_to_string (upstream_protocol c) = cc_upstream_protocol self /\
  match certificate c with
  | Some der => pem_to_der pemfile_certs (cc_certificate self) = Ok der
  | None => cc_cert_is_system_verifiable self = true \/ cc_certificate self = []
  end.

(** Every string of a configuration is a Rust string, and the two client-random values
    are what the rules accept. *)
Definition config_strings (self : ClientConfig) : list bytes :=
  [cc_hostname self; cc_username self; cc_password self; cc_client_random_prefix self;
   cc_client_random_auth_key self; cc_custom_sni self; cc_name self]
  ++ cc_addresses self ++ cc_dns_upstreams self ++ match cc_subscription_url self with Some u => [u] | None => [] end.

Definition config_hex_ok (hex : bytes -> option bytes) (self : ClientConfig) : Prop :=
  (cc_client_random_prefix self <> [] -> prefix_hex_ok hex (cc_client_random_prefix self) = true) /\
  (cc_client_random_auth_key self <> [] -> hex_ok hex (cc_client_random_auth_key self) = true).

(** [rustls_pemfile] gives byte vectors. *)
Definition pem_wf (pemfile_certs : bytes -> option (list bytes)) : Prop :=
  forall pem certs, pemfile_certs pem = Some certs -> Forall wf_bytes certs.

Lemma protocol_from_str_inv s p : protocol_from_str s = Ok p -> protocol_to_string p = s.
Proof.
  unfold protocol_from_str. destruct (decide (s = str "http2")) as [->|]; [by intros [= <-]|].
  destruct (decide (s = str "http3")) as [->|]; [by intros [= <-]|done].
Qed.

Lemma deeplink_config_imports pem self c : deeplink_config pem self = Ok c -> imports pem c self /\ normalise c = c.
Proof.
  unfold deeplink_config. intros H. inv_bindR H. inv_bindR H. injection H as <-. split.
  - unfold imports. simpl. rewrite !default_present. split_and!; try done.
    + unfold map_err in E0. destruct (protocol_from_str (cc_upstream_protocol self)) as [q|] eqn:Eq; [|done].
      injection E0 as <-. by apply protocol_from_str_inv.
    + destruct (cc_cert_is_system_verifiable self); simpl in E; [injection E as <-; by left|].
      destruct (bool_decide_reflect (cc_certificate self = [])) as [->|]; simpl in E; [injection E as <-; by right|].
      destruct (pem_to_der pem (cc_certificate self)); [|done]. by injection E as <-.
  - unfold normalise. simpl. unfold with_client_random_prefix, with_client_random_auth_key. simpl.
    by rewrite !drop_empty_present.
Qed.

Lemma pem_to_der_wf pem x der : pem_wf pem -> pem_to_der pem x = Ok der -> wf_bytes der.
Proof.
  intros Hwf. unfold pem_to_der. destruct (pem x) as [[|c l]|] eqn:E; [done| |done].
  intros [= <-]. specialize (Hwf _ _ E). clear E. change (wf_bytes (concat (c :: l))).
  induction Hwf as [|d k Hd _ IH]; [constructor|]. simpl. by apply wf_bytes_app.
Qed.

Lemma deeplink_config_valid pem hex self c :
  pem_wf pem -> Forall (fun s => utf8_valid s = true) (config_strings self) -> config_hex_ok hex self ->
  deeplink_config pem self = Ok c ->
  strings_valid c = true /\ cert_wf c /\ hex_valid hex c = true.
Proof.
  intros Hpem Hs [Hp Hk] H. unfold deeplink_config in H. inv_bindR H. inv_bindR H. injection H as <-.
  unfold config_strings in Hs. rewrite !Forall_app, !Forall_cons in Hs.
  destruct Hs as ((?&?&?&?&?&?&?&_) & Ha & Hd & Hu).
  assert (forall s, utf8_valid s = true -> opt_utf8 (present s) = true) as Hpr
    by (intros s Hs; unfold present; by case_decide).
  assert (forall l, Forall (fun s => utf8_valid s = true) l -> forallb utf8_valid l = true) as Hall
    by (intros l Hl; apply forallb_forall; intros x Hx%list_elem_of_In; by apply (proj1 (Forall_forall _ _) Hl)).
  split_and!.
  - unfold strings_valid. simpl. repeat (apply andb_true_iff; split); auto.
    destruct (cc_subscription_url self); [|done]. simpl. by apply Forall_cons_1 in Hu as [? _].
  - unfold cert_wf. simpl. destruct (negb _ && negb _); [|by injection E as <-].
    destruct (pem_to_der pem (cc_certificate self)) eqn:Ed; [|done]. injection E as <-. by eapply pem_to_der_wf.
  - unfold hex_valid. simpl. rewrite !drop_empty_present. apply andb_true_iff.
    unfold present. split; case_decide; auto.
Qed.

(** *** Every value fits a TLV field *)

Definition fits (s : bytes) : Prop := len s < 2 ^ 62.

Lemma encode_tlv_fits t v : fits v -> exists e, encode_tlv t v = Ok e.
Proof.
  intros Hv. pose proof (len_nonneg v). pose proof (tag_as_u8_bound t). unfold fits in Hv. unfold encode_tlv.
  destruct (encode_varint_ok (tag_as_u8 t)) as (a & -> & _); [lia|].
  destruct (encode_varint_ok (len v)) as (b & -> & _); [lia|]. simpl. eauto.
Qed.

Lemma encode_opt_fits t o : (forall v, o = Some v -> fits v) -> exists e, encode_opt (encode_string_field t) o = Ok e.
Proof. intros H. destruct o as [v|]; simpl; [apply encode_tlv_fits; auto|eauto]. Qed.

Lemma encode_nonempty_fits t o : (forall v, o = Some v -> fits v) -> exists e, encode_nonempty (encode_string_field t) o = Ok e.
Proof. intros H. destruct o as [[|b v]|]; simpl; [eauto|apply encode_tlv_fits; auto|eauto]. Qed.

Lemma encode_each_fits t l : Forall fits l -> exists e, encode_each (encode_string_field t) l = Ok e.
Proof.
  induction 1 as [|v l Hv _ [e IH]]; simpl; [eauto|].
  destruct (encode_tlv_fits t v Hv) as [a Ha]. unfold encode_string_field. rewrite Ha. simpl.
  unfold encode_string_field in IH. rewrite IH. simpl. eauto.
Qed.

Lemma encode_string_array_fits l :
  Forall fits l -> exists e, encode_string_array l = Ok e /\ len e <= fold_right (fun s n => len s + 8 + n) 0 l.
Proof.
  induction 1 as [|v l Hv _ (e & IH & Hlen)]; simpl; [by exists []|]. pose proof (len_nonneg v). unfold fits in Hv.
  destruct (encode_varint_ok (len v)) as (a & -> & _ & Ha); [lia|]. cbn [bindR]. rewrite IH. simpl.
  eexists. split; [done|]. rewrite !len_app. lia.
Qed.

(** A valid configuration whose values fit is encoded. *)
Lemma encode_payload_fits c :
  validate c = Ok tt ->
  (forall v, hostname c = Some v -> fits v) -> (forall v, DeepLink.username c = Some v -> fits v) ->
  (forall v, DeepLink.password c = Some v -> fits v) -> Forall fits (addresses c) ->
  (forall v, client_random_prefix c = Some v -> fits v) -> (forall v, client_random_auth_key c = Some v -> fits v) ->
  (forall v, custom_sni c = Some v -> fits v) -> (forall v, certificate c = Some v -> fits v) ->
  (forall v, name c = Some v -> fits v) -> Forall fits (dns_upstreams c) ->
  fold_right (fun s n => len s + 8 + n) 0 (dns_upstreams c) < 2 ^ 62 ->
  (forall v, subscription_url c = Some v -> fits v) ->
  exists p, encode_tlv_payload c = Ok p.
Proof.
  intros Hv Hh Hu Hp Ha Hcp Hck Hs Hc Hn Hd Hds Hurl. unfold encode_tlv_payload. rewrite Hv. cbn [bindR].
  assert (exists e, encode_opt (encode_tlv Certificate) (certificate c) = Ok e) as [ec Ec] by (by apply encode_opt_fits).
  assert (exists e, (if decide (dns_upstreams c = []) then Ok []
    else let? value := encode_string_array (dns_upstreams c) in encode_tlv DnsUpstreams value) = Ok e) as [ed Ed].
  { case_decide; [eauto|]. destruct (encode_string_array_fits _ Hd) as (e & -> & He). cbn [bindR].
    apply encode_tlv_fits. unfold fits. lia. }
  destruct (encode_opt_fits Hostname _ Hh) as [e1 E1], (encode_opt_fits Username _ Hu) as [e2 E2],
    (encode_opt_fits Password _ Hp) as [e3 E3], (encode_each_fits Address _ Ha) as [e4 E4],
    (encode_nonempty_fits ClientRandomPrefix _ Hcp) as [e5 E5], (encode_nonempty_fits ClientRandomAuthKey _ Hck) as [e6 E6],
    (encode_opt_fits CustomSni _ Hs) as [e7 E7], (encode_opt_fits Name _ Hn) as [e8 E8],
    (encode_opt_fits SubscriptionUrl _ Hurl) as [e9 E9].
  change (encode_varint CURRENT_VERSION) with (@Ok DeepLinkError _ [2]). cbn [bindR].
  change (encode_tlv DeepLink.Version [2]) with (@Ok DeepLinkError _ [0; 1; 2]). cbn [bindR].
  assert (exists e, (if has_ipv6 c then Ok [] else encode_bool_field HasIpv6 false) = Ok e) as [e10 E10]
    by (destruct (has_ipv6 c); eexists; reflexivity).
  assert (exists e, (if skip_verification c then encode_bool_field SkipVerification true else Ok []) = Ok e) as [e11 E11]
    by (destruct (skip_verification c); eexists; reflexivity).
  assert (exists e, (if anti_dpi c then encode_bool_field AntiDpi true else Ok []) = Ok e) as [e12 E12]
    by (destruct (anti_dpi c); eexists; reflexivity).
  assert (exists e, (if decide (upstream_protocol c = DeepLink.Http2) then Ok []
    else encode_protocol_field (upstream_protocol c)) = Ok e) as [e13 E13]
    by (destruct (upstream_protocol c); eexists; reflexivity).
  repeat (first [rewrite E1|rewrite E2|rewrite E3|rewrite E4|rewrite E5|rewrite E6|rewrite E7|rewrite E10
    |rewrite E11|rewrite E12|rewrite Ec|rewrite E13|rewrite E8|rewrite Ed|rewrite E9]; cbn [bindR]).
  eauto.
Qed.

(** What an exported configuration must have for a link to carry it. *)
Record exportable (pem : bytes -> option (list bytes)) (hex : bytes -> option bytes) (self : ClientConfig) : Prop := {
  ex_utf8 : Forall (fun s => utf8_valid s = true) (config_strings self);
  ex_fits : Forall fits (config_strings self);
  ex_dns : fold_right (fun s n => len s + 8 + n) 0 (cc_dns_upstreams self) < 2 ^ 62;
  ex_hex : config_hex_ok hex self;
  ex_cert : cc_cert_is_system_verifiable self = true \/ cc_certificate self = [] \/
    exists der, pem_to_der pem (cc_certificate self) = Ok der /\ fits der;
  ex_url : match cc_subscription_url self with
           | Some url => starts_with HTTPS url = true
           | None => cc_hostname self <> [] /\ cc_addresses self <> [] /\ cc_username self <> [] /\ cc_password self <> []
           end;
}.

Lemma validate_url c url : subscription_url c = Some url -> starts_with HTTPS url = true -> validate c = Ok tt.
Proof. intros Hu Hs. unfold validate. rewrite Hu. fold HTTPS. by rewrite Hs. Qed.

Lemma exportable_encodes pem hex self :
  exportable pem hex self -> cc_upstream_protocol self = str "http2" ->
  exists c p, deeplink_config pem self = Ok c /\ encode_tlv_payload c = Ok p.
Proof.
  intros [_ Hf Hdns _ Hcert Hurl] Hup.
  assert (exists cert, (if negb (cc_cert_is_system_verifiable self) && negb (bool_decide (cc_certificate self = []))
    then match pem_to_der pem (cc_certificate self) with Ok der => Ok (Some der) | Err _ => Err InvalidData end
    else Ok None) = @Ok ErrorKind _ cert /\ forall v, cert = Some v -> fits v) as (cert & Ecert & Hfit).
  { destruct Hcert as [-> | [-> | (der & Ed & Hd)]].
    - exists None. split; [done|]. by intros v.
    - exists None. rewrite bool_decide_true, andb_false_r by done. split; [done|]. by intros v.
    - rewrite Ed. destruct (_ && _); [exists (Some der); split; [done|]; by intros v [= <-]|].
      exists None. split; [done|]. by intros v. }
  unfold deeplink_config. rewrite Ecert, Hup. cbn [bindR].
  change (protocol_from_str (str "http2")) with (@Ok DeepLinkError _ DeepLink.Http2). cbn [map_err bindR].
  unfold config_strings in Hf. rewrite !Forall_app, !Forall_cons in Hf.
  destruct Hf as ((?&?&?&?&?&?&?&_) & Ha & Hd & Hu).
  assert (forall s, fits s -> forall v, present s = Some v -> fits v) as Hpr
    by (intros s Hs v; unfold present; case_decide; [done|by intros [= <-]]).
  eexists. edestruct (fun c => encode_payload_fits c) as [p Hp]; [..|exists p; split; [done|exact Hp]]; simpl; eauto;
    try (by intros v [= <-]).
  - destruct (cc_subscription_url self) as [url|] eqn:Eu; [by apply (validate_url _ url)|]. unfold validate. simpl.
    destruct Hurl as (Hu1 & Hu2 & Hu3 & Hu4).
    destruct (cc_hostname self), (cc_addresses self), (cc_username self), (cc_password self); try done.
  - intros v E. rewrite E in Hu. by apply Forall_cons_1 in Hu as [? _].
Qed.

(** C20: a configuration that the endpoint builds for one of its clients is exported as a deep
    link, and a client that opens the link gets the configuration: the host, the addresses
    and the credentials, the client-random values, the certificate unless the system
    verifies it, and the subscription URL. *)
Theorem exported_deeplink_imports rd ver pem hex enc dec `{!Base64Laws enc dec}
    client addresses users hosts sni prefix key name dns url self :
  client_config_build rd ver client addresses users hosts sni prefix key name dns url = Ret self ->
  pem_wf pem -> exportable pem hex self ->
  exists uri c, compose_deeplink pem enc self = Ok uri /\ decode hex dec uri = Ret (Ok c) /\ imports pem c self.
Proof.
  intros Hb Hpem Hex.
  assert (cc_upstream_protocol self = str "http2") as Hup.
  { unfold client_config_build in Hb. destruct (unwrap (List.find _ users)); [|done]. cbn [bindM] in Hb.
    destruct (unwrap (head _)); [|done]. cbn [bindM] in Hb. destruct (rd _); [|done]. by injection Hb as <-. }
  destruct (exportable_encodes pem hex self Hex Hup) as (c & p & Hc & Hp).
  destruct (deeplink_config_valid pem hex self c Hpem) as (Hs & Hcw & Hh); [apply Hex|apply Hex|done|].
  destruct (uri_roundtrip hex enc dec c p Hs Hcw Hh Hp) as (uri & Henc & Hdec & _).
  destruct (deeplink_config_imports pem self c Hc) as [Him Hnorm].
  exists uri, c. unfold compose_deeplink. rewrite Hc. cbn [bindR]. rewrite Henc, Hdec, Hnorm. done.
Qed.

(** *** A client with a certificate of its own and a subscription *)

Module ExportSample.

Definition pem (x : bytes) : option (list bytes) := if decide (x = str "PEM") then Some [[0x30; 1; 7]] else None.
Definition rd (path : bytes) : result ErrorKind bytes := Ok (str "PEM").
Definition alice : Client := mkClient (str "alice") (str "p@ss") None None.
Definition hosts : TlsHostsSettings :=
  mkHostsSettings [mkHostInfo (str "vpn.example.com") (str "cert.pem") (str "key.pem") []] [] [] [] true.
Definition url : bytes := build_subscription_url (str "https://vpn.example.com/sub") (str "alice") (str "p@ss").

Definition self : ClientConfig :=
  mkClientConfig (str "vpn.example.com") [str "1.2.3.4:443"] [] true (str "alice") (str "p@ss") (str "aabb/ff00") []
    false (str "PEM") false (str "http2") false [] [str "8.8.8.8"] (Some url).

Lemma pem_ok : pem_wf pem.
Proof. intros x certs. unfold pem. case_decide; [|done]. intros [= <-]. by_compute. Qed.

Lemma self_exportable : exportable pem HexRef.hex_decode self.
Proof.
  split.
  - repeat (constructor; [vm_compute; reflexivity|]). constructor.
  - repeat (constructor; [unfold fits; vm_compute; reflexivity|]). constructor.
  - vm_compute; reflexivity.
  - split; [intros _; vm_compute; reflexivity|done].
  - right; right. exists [0x30; 1; 7]. split; [vm_compute; reflexivity|]. unfold fits. vm_compute. reflexivity.
  - vm_compute. reflexivity.
Qed.

End ExportSample.

Lemma exported_deeplink_imports_witness :
  exists uri c, compose_deeplink ExportSample.pem Base64Ref.b64_encode ExportSample.self = Ok uri /\
    decode HexRef.hex_decode Base64Ref.b64_decode uri = Ret (Ok c) /\
    imports ExportSample.pem c ExportSample.self.
Proof.
  apply (exported_deeplink_imports ExportSample.rd None ExportSample.pem HexRef.hex_decode Base64Ref.b64_encode
    Base64Ref.b64_decode (str "alice") [str "1.2.3.4:443"] [ExportSample.alice] ExportSample.hosts None
    (Some (str "aabb/ff00")) None None [str "8.8.8.8"] (Some ExportSample.url)).
  - vm_compute. reflexivity.
  - apply ExportSample.pem_ok.
  - apply ExportSample.self_exportable.
Defined.

(** A link that carries the subscription alone gives the URL back, and nothing else. *)
Theorem subscription_only_roundtrip hex enc dec `{!Base64Laws enc dec} self url :
  cc_subscription_url self = Some url -> utf8_valid url = true -> fits url -> starts_with HTTPS url = true ->
  exists uri, compose_deeplink_subscription_only hex enc self = Ok uri /\
    decode hex dec uri = Ret (Ok (with_subscription_url (Some url) initial)).
Proof.
  intros Hu Hutf Hfit Hhttps. unfold compose_deeplink_subscription_only. rewrite Hu.
  set (c := with_subscription_url (Some url) initial).
  assert (validate c = Ok tt) as Hv by (by apply (validate_url _ url)).
  assert (build hex (set_subscription_url (Some url) builder) = Ok c) as ->.
  { unfold build. cbn [check_hex b_client_random_prefix b_client_random_auth_key set_subscription_url builder bindR].
    change (mkConfig _ _ _ _ _ _ _ _ _ _ _ _ _ _ _) with c. by rewrite Hv. }
  cbn [map_err bindR].
  destruct (encode_payload_fits c Hv) as [p Hp]; simpl; try (intros v [= <-]); try done; try constructor.
  assert (strings_valid c = true) as Hs by (unfold strings_valid; simpl; by rewrite Hutf).
  destruct (uri_roundtrip hex enc dec c p Hs) as (uri & Henc & Hdec & _); [done|done|done|].
  exists uri. rewrite Henc, Hdec. done.
Qed.

(** ** The TOML document *)

(** The value of a key is the last one assigned, or that of the template. *)
Definition last_assigned (k : bytes) (l : list (bytes * TomlValue)) (o : option TomlValue) : option TomlValue :=
  foldl (fun o '(k', v) => if decide (k' = k) then Some v else o) o l.

Lemma foldl_insert_lookup (l : list (bytes * TomlValue)) (doc : gmap bytes TomlValue) k :
  foldl (fun doc '(k, v) => <[k := v]> doc) doc l !! k = last_assigned k l (doc !! k).
Proof.
  revert doc. induction l as [|[k' v] l IH]; intros doc; [done|]. simpl. rewrite IH. unfold last_assigned. simpl.
  f_equal. case_decide as E; [subst k'; by rewrite lookup_insert_eq|by rewrite lookup_insert_ne].
Qed.

Lemma last_assigned_app k l1 l2 o : last_assigned k (l1 ++ l2) o = last_assigned k l2 (last_assigned k l1 o).
Proof. apply foldl_app. Qed.

(** Every setting has its key, the empty ones from the template; the certificate is left
    empty when the system verifies it, and the subscription URL is there only when the
    configuration has one. *)
Lemma compose_toml_reads self :
  Forall (fun '(k, v) => compose_toml self !! k = Some v)
    [(str "hostname", TString (cc_hostname self)); (str "addresses", TArray (cc_addresses self));
     (str "custom_sni", TString (cc_custom_sni self)); (str "has_ipv6", TBool (cc_has_ipv6 self));
     (str "username", TString (cc_username self)); (str "password", TString (cc_password self));
     (str "client_random_prefix", TString (cc_client_random_prefix self));
     (str "client_random_auth_key", TString (cc_client_random_auth_key self));
     (str "skip_verification", TBool (cc_skip_verification self));
     (str "certificate", TString (if cc_cert_is_system_verifiable self then [] else cc_certificate self));
     (str "upstream_protocol", TString (cc_upstream_protocol self)); (str "anti_dpi", TBool (cc_anti_dpi self));
     (str "name", TString (cc_name self)); (str "dns_upstreams", TArray (cc_dns_upstreams self))] /\
  compose_toml self !! str "subscription_url" = TString <$> cc_subscription_url self.
Proof.
  assert (forall k l1 l2 l3 l4, last_assigned k (l1 ++ l2 ++ l3 ++ l4) (TEMPLATE !! k)
    = last_assigned k l4 (last_assigned k l3 (last_assigned k l2 (last_assigned k l1 (TEMPLATE !! k))))) as Happ
    by (intros; by rewrite !last_assigned_app).
  unfold compose_toml. split.
  - unfold toml_assignments.
    destruct (decide (cc_name self = [])) as [->|], (decide (cc_dns_upstreams self = [])) as [->|],
      (cc_subscription_url self); repeat (constructor; [rewrite foldl_insert_lookup, Happ; vm_compute; reflexivity|]);
      constructor.
  - rewrite foldl_insert_lookup. unfold toml_assignments. rewrite Happ.
    destruct (decide (cc_name self = [])) , (decide (cc_dns_upstreams self = [])) ,
      (cc_subscription_url self); vm_compute; reflexivity.
Qed.
