(* ===== verification/CertVerification.v ===== *)
(** * Verification by the system's authorities

    lib/src/cert_verification.rs, and what its answer means in the configurations that are
    exported: a link leaves the certificate of the endpoint out only when the client's
    system can be expected to verify it. *)

From S2P Require Import Prelude.
From S2P Require Import Codecs.
From S2P Require Import Varint.
From S2P Require Import DeepLink.
From S2P Require Import Auth.
From S2P Require Import TlsDemux.
From S2P Require Import Utils.
From S2P Require Import Settings.
From S2P Require Import ClientConfig.

Section verifier.
(** [rustls_native_certs] and [rustls]: the certificates of the system, the root store and
    [add], the names it verifies for, whether a verifier can be built over a store, and
    [verify_server_cert] at a time.  [load] is [utils::load_certs]. *)
Context {Der RootStore ServerName : Type} (empty_store : RootStore) (native_certs : result unit (list Der))
  (store_add : RootStore -> Der -> result unit RootStore) (server_name : bytes -> option ServerName)
  (builds : RootStore -> bool) (verify_server_cert : RootStore -> Der -> list Der -> ServerName -> Z -> bool)
  (load : bytes -> result ErrorKind (list Der)) (now : Z).

Fixpoint add_all (store : RootStore) (certs : list Der) : result ErrorKind RootStore :=
  match certs with
  | [] => Ok store
  | cert :: certs => let? store := map_err (fun _ => Other) (store_add store cert) in add_all store certs
  end.

(** [CertificateVerifier::new]. *)
Definition verifier_new : result ErrorKind RootStore :=
  let? certs := map_err (fun _ => Other) native_certs in
  add_all empty_store certs.

Definition is_system_verifiable (root_store : RootStore) (cert_path hostname : bytes) : bool :=
  match load cert_path with
  | Err _ => false
  | Ok [] => false
  | Ok (end_entity :: intermediates) =>
      match server_name hostname with
      | None => false
      | Some server_name =>
          if builds root_store then verify_server_cert root_store end_entity intermediates server_name now else false
      end
  end.

(** [CertificateVerifier::new().ok().map(..)] of the export. *)
Definition system_verifier : option (bytes -> bytes -> bool) :=
  match verifier_new with Ok store => Some (is_system_verifiable store) | Err _ => None end.

(** The chain of a file verifies for a host name against all the authorities of the system. *)
Definition chain_verifies (cert_path hostname : bytes) : Prop :=
  exists certs store end_entity intermediates name,
    native_certs = Ok certs /\ add_all empty_store certs = Ok store /\
    load cert_path = Ok (end_entity :: intermediates) /\ server_name hostname = Some name /\
    builds store = true /\ verify_server_cert store end_entity intermediates name now = true.

Lemma system_verifier_spec cert_path hostname :
  match system_verifier with Some v => v cert_path hostname | None => false end = true <-> chain_verifies cert_path hostname.
Proof.
  unfold system_verifier, verifier_new, chain_verifies. split.
  - destruct native_certs as [certs|]; cbn [map_err bindR]; [|done].
    destruct (add_all empty_store certs) as [store|] eqn:Ea; [|done]. unfold is_system_verifiable.
    destruct (load cert_path) as [[|e l]|]; [done| |done]. destruct (server_name hostname) as [n|]; [|done].
    destruct (builds store) eqn:Eb; [|done]. intros Hv. by exists certs, store, e, l, n.
  - intros (certs & store & e & l & n & -> & Ea & El & En & Eb & Ev). cbn [map_err bindR]. rewrite Ea.
    unfold is_system_verifiable. by rewrite El, En, Eb.
Qed.

(** A deep link that is exported without a certificate is one of an endpoint whose
    certificate chain verifies for its host name against the authorities of the system, or
    whose certificate file is empty; and one of an endpoint whose chain does not verify
    carries exactly the certificates of the file. *)
Theorem certificate_omitted_only_if_verified (read_to_string : bytes -> result ErrorKind bytes)
    (pemfile_certs : bytes -> option (list bytes)) (client : bytes) addresses users hosts custom_sni prefix key name dns
    subscription (self : ClientConfig) (c : DeepLinkConfig) :
  client_config_build read_to_string system_verifier client addresses users hosts custom_sni prefix key name dns subscription
    = Ret self -> deeplink_config pemfile_certs self = Ok c ->
  exists host, head (ths_main hosts) = Some host /\ hostname c = Some (hi_hostname host) /\
    read_to_string (hi_cert_chain_path host) = Ok (cc_certificate self) /\
    match certificate c with
    | None => chain_verifies (hi_cert_chain_path host) (hi_hostname host) \/ cc_certificate self = []
    | Some der => Cert.pem_to_der pemfile_certs (cc_certificate self) = Ok der /\
        ~ chain_verifies (hi_cert_chain_path host) (hi_hostname host)
    end.
Proof.
  unfold client_config_build. destruct (List.find _ users) as [user|]; cbn [unwrap bindM]; [|done].
  destruct (head (ths_main hosts)) as [host|]; cbn [unwrap bindM]; [|done].
  destruct (read_to_string (hi_cert_chain_path host)) as [cert|] eqn:Er; cbn [bindM]; [|done].
  intros [= <-] Ec. exists host. split; [done|]. pose proof (system_verifier_spec (hi_cert_chain_path host) (hi_hostname host)) as Hv.
  pose proof (deeplink_config_imports _ _ _ Ec) as [Hi _]. unfold imports in Hi. cbn in Hi.
  destruct Hi as (Hh & _ & _ & _ & _ & _ & _ & _ & _ & _ & _ & _ & _ & _ & Hc).
  split; [exact Hh|]. split; [done|]. cbn [cc_certificate].
  unfold deeplink_config in Ec. cbn [cc_cert_is_system_verifiable cc_certificate] in Ec.
  destruct (match system_verifier with Some v => _ | None => _ end) eqn:E.
  - cbn [negb andb bindR] in Ec. destruct (map_err _ _) in Ec; cbn [bindR] in Ec; [|done]. injection Ec as <-. cbn.
    left. by apply Hv.
  - destruct (certificate c) as [der|]; [|by destruct Hc as [?|?]; [|right]].
    split; [done|]. intros H. apply Hv in H. done.
Qed.

End verifier.

(** A system with one authority, which signs the chain of the file. *)
Module VerifierSample.

Definition native : result unit (list bytes) := Ok [str "root"].
Definition add (store : list bytes) (c : bytes) : result unit (list bytes) := Ok (c :: store).
Definition loads (path : bytes) : result ErrorKind (list bytes) :=
  if bool_decide (path = hi_cert_chain_path (default (mkHostInfo [] [] [] []) (head (ths_main ExportSample.hosts))))
  then Ok [str "leaf"; str "root"] else Err NotFound.
Definition signed (store : list bytes) (leaf : bytes) (chain : list bytes) (_ : bytes) (_ : Z) : bool :=
  bool_decide (last chain = head store).
Definition verifier (trusted : result unit (list bytes)) : option (bytes -> bytes -> bool) :=
  system_verifier [] trusted add Some (fun _ => true) signed loads 0.
Definition exported (trusted : result unit (list bytes)) : M ClientConfig :=
  client_config_build ExportSample.rd (verifier trusted) (str "alice") [str "1.2.3.4:443"] [ExportSample.alice] ExportSample.hosts
    None None None None [] None.

End VerifierSample.

Import VerifierSample.

Lemma certificate_omitted_only_if_verified_witness :
  exists self c host, exported native = Ret self /\ deeplink_config ExportSample.pem self = Ok c /\ certificate c = None /\
    (chain_verifies [] native add Some (fun _ => true) signed loads 0 (hi_cert_chain_path host) (hi_hostname host)
     \/ cc_certificate self = []).
Proof.
  destruct (exported native) as [self|] eqn:Es; [|vm_compute in Es; discriminate].
  destruct (deeplink_config ExportSample.pem self) as [c|] eqn:Ec; [|vm_compute in Es; injection Es as <-; vm_compute in Ec; discriminate].
  destruct (certificate_omitted_only_if_verified [] native add Some (fun _ => true) signed loads 0 ExportSample.rd ExportSample.pem
    (str "alice") [str "1.2.3.4:443"] [ExportSample.alice] ExportSample.hosts None None None None [] None self c Es Ec)
    as (host & _ & _ & _ & Hc).
  assert (certificate c = None) as En.
  { vm_compute in Es. injection Es as <-. vm_compute in Ec. injection Ec as <-. reflexivity. }
  rewrite En in Hc. exists self, c, host. done.
Defined.

(** Without the authority the certificate is carried. *)
Lemma certificate_carried :
  exists self c, exported (Ok []) = Ret self /\ deeplink_config ExportSample.pem self = Ok c /\ certificate c <> None.
Proof. eexists _, _. split; [vm_compute; reflexivity|]. split; [vm_compute; reflexivity|]. vm_compute. discriminate. Qed.
