(* ===== verification/Downstream.v ===== *)
(** * The HTTP downstream

    lib/src/http_downstream.rs: the loop that takes requests from the codec and gives each
    to the tunnel or to a service, the destination of a request, what an accepted request
    becomes, and the response to one that fails.  The [http] crate's [Authority] and
    [StatusCode] are parameters. *)

From S2P Require Import Prelude.
From S2P Require Import Codecs.
From S2P Require Import Varint.
From S2P Require Import NetUtils.
From S2P Require Import Datagram.
From S2P Require Import UdpPipe.
From S2P Require Import Icmp.
From S2P Require Import IcmpCodec.
From S2P Require Import UdpCodec.
From S2P Require Import Auth.
From S2P Require Import Tunnel.
From S2P Require Import Pipe.
From S2P Require Import ForwardedStream.
From S2P Require Import TcpForwarder.
From S2P Require Import TlsDemux.
From S2P Require Import Http1Codec.
From S2P Require Import ReverseProxy.
From S2P Require Import IpText.
From S2P Require Import Settings.
From S2P Require Import Services.

(** ** Listening *)

(** A request for the tunnel, with the status its authentication failure is answered with. *)
Record PendingRequest : Type := mkPending {
  pr_request : HttpRequest;
  pr_auth_failure_status_code : Z;
}.

(** A spawned service, with the stream it was given; [sni] is the TLS domain. *)
Inductive ServiceTask : Type :=
| PingTask (r : HttpRequest)
| SpeedtestTask (r : HttpRequest) (speedtest_path : option bytes)
| ReverseProxyTask (r : HttpRequest) (sni : bytes)
| SubscriptionTask (r : HttpRequest) (sni : bytes).

Record HttpDownstream : Type := mkDownstream {
  hd_demux : DemuxSettings;
  hd_auth_failure_status_code : Z;
  hd_non_connect_auth_failure_status_code : option Z;
  hd_speedtest_path : option bytes;
  hd_tls_domain : bytes;
}.

Section listen.
(** [StatusCode::from_u16]. *)
Context (from_u16 : Z -> option Z) (self : HttpDownstream).

(** The task of a request that is not for the tunnel. *)
Definition service_of (r : HttpRequest) : option ServiceTask :=
  match http_demux_select (hd_demux self) r with
  | ChTunnel => None
  | ChPing => Some (PingTask r)
  | ChSpeedtest => Some (SpeedtestTask r (hd_speedtest_path self))
  | ChReverseProxy => Some (ReverseProxyTask r (hd_tls_domain self))
  | ChSubscription => Some (SubscriptionTask r (hd_tls_domain self))
  end.

(** [codec] has the outcomes of the calls of [codec.listen] to come; the result is [None]
    when the loop still waits after the last of them.  Also the tasks spawned meanwhile
    and the outcomes that are left. *)
Fixpoint downstream_listen (codec : list (result ErrorKind (option HttpRequest)))
  : option (result ErrorKind (option PendingRequest)) * list ServiceTask * list (result ErrorKind (option HttpRequest)) :=
  match codec with
  | [] => (None, [], [])
  | Err e :: codec => (Some (Err e), [], codec)
  | Ok None :: codec => (Some (Ok None), [], codec)
  | Ok (Some request) :: codec =>
      match service_of request with
      | None =>
          (Some (Ok (Some (mkPending request
             (auth_failure_code from_u16 (hd_auth_failure_status_code self)
                (hd_non_connect_auth_failure_status_code self) request)))), [], codec)
      | Some task => let '(r, tasks, codec) := downstream_listen codec in (r, task :: tasks, codec)
      end
  end.

End listen.

(** ** Destinations *)

Definition PLAIN_HTTP_PORT_NUMBER : Z := 80.

(** [PendingRequest::authority] and [PendingRequest::user_agent] of lib/src/http_codec.rs. *)
Definition request_authority (r : HttpRequest) : result ErrorKind bytes :=
  match req_authority r with Some a => Ok a | None => Err Other end.

Definition user_agent (to_str : bytes -> option bytes) (r : HttpRequest) : option bytes :=
  match header_get (req_headers r) (str "user-agent") with Some h => to_str h | None => None end.

Section destination.
(** [Authority::host] and [Authority::port_u16] of an authority by its text. *)
Context (host : bytes -> bytes) (port_u16 : bytes -> option Z).

Definition destination (r : HttpRequest) : result ErrorKind TcpDestination :=
  let? authority := request_authority r in
  match socket_from_str authority with
  | Some (a, _) => Ok (DestAddress a)
  | None =>
      let? port :=
        if is_connect r then match port_u16 authority with Some p => Ok p | None => Err Other end
        else Ok (default PLAIN_HTTP_PORT_NUMBER (port_u16 authority)) in
      Ok (DestHostName (host authority) port)
  end.

End destination.

(** ** Promotion *)

(** The two ends of a TCP stream: the body as it is, or rewritten for the peer. *)
Inductive TcpEnds (Src Snk : Type) : Type :=
| PlainEnds (source : Src) (sink : Snk)
| ForwardedEnds (source : ForwardedStreamSource Src) (sink : ForwardedStreamSink Snk).
Arguments PlainEnds {Src Snk}.
Arguments ForwardedEnds {Src Snk}.

(** [TcpConnection::promote_to_next_state]: [respond] is the outcome of
    [send_ok_response(false)].  A request that cannot be forwarded is an error. *)
Definition tcp_promote {Src Snk} (to_str : bytes -> option bytes) (r : RequestHeaders) (source : Src)
    (respond : result ErrorKind Snk) : result ErrorKind (TcpEnds Src Snk) :=
  if bool_decide (rq_method r = str "CONNECT") then
    let? sink := respond in Ok (PlainEnds source sink)
  else
    match into_forwarded to_str r source with
    | Some (source, sink) => Ok (ForwardedEnds source sink)
    | None => Err Other
    end.

(** [DatagramMultiplexer::promote_to_next_state]: any other authority is [unreachable!]. *)
Definition mux_promote (r : HttpRequest) (respond : M (result ErrorKind unit)) : M (result ErrorKind PipeHalves) :=
  match request_authority r with
  | Err e => Ret (Err e)
  | Ok authority =>
      if bool_decide (authority = UDP_AUTHORITY) then let! r := respond in Ret (let? _ := r in Ok UdpHalves)
      else if bool_decide (authority = ICMP_AUTHORITY) then let! r := respond in Ret (let? _ := r in Ok IcmpHalves)
      else Panic
  end.

(** [DatagramEncoder::write] over the encoder of the stream; [sink_write] is the outcome of
    writing a packet. *)
Definition encoder_write {D} (encode_packet : D -> M (option bytes)) (sink_write : bytes -> result ErrorKind SendStatus)
    (datagram : D) : M (result ErrorKind SendStatus) :=
  let! encoded := encode_packet datagram in
  Ret (match encoded with None => Ok Dropped | Some packet => sink_write packet end).

(** ** Failures *)

Definition request_hostname (r : HttpRequest) : bytes := default [] (req_authority r).

(** The response of [fail_request_with_error]. *)
Definition failure_response (r : HttpRequest) (error : ConnectionError) (auth_failure_status_code : Z) : ResponseHeaders :=
  bad_response (tunnel_error_to_status_code error auth_failure_status_code)
    (tunnel_error_to_warn_header error (request_hostname r) auth_failure_status_code).

(** ** Requests of a downstream

    What the downstream itself answers for a request; the rest is what the forwarder, the
    codec and the pipes do when they are called, which may also be to panic:
    [ne_health_check] is [send_ok_response(true)], [ne_respond] is
    [send_ok_response(false)], [ne_forward] is [into_forwarded]; a call of the forwarder
    includes taking its lock. *)
Record NetworkEnv : Type := mkNetworkEnv {
  ne_client_address : result ErrorKind IpAddr;
  ne_connect : TcpConnectionMeta -> M (option (result ConnectionError unit));
  ne_health_check : M (result ErrorKind unit);
  ne_respond : M (result ErrorKind unit);
  ne_forward : M (result ErrorKind unit);
  ne_exchange : M (result ErrorKind unit);
  ne_check_auth : Auth.Source -> M (result ConnectionError unit);
  ne_make_udp : UdpMultiplexerMeta -> M (result ErrorKind unit);
  ne_make_icmp : M (result ErrorKind (option unit));
}.

Section serve.
Context (host : bytes -> bytes) (port_u16 : bytes -> option Z) (to_str : bytes -> option bytes) (self : HttpDownstream).

(** A TCP request is promoted by the response to a CONNECT, any other by [into_forwarded]. *)
Definition request_env (r : HttpRequest) (net : NetworkEnv) : RequestEnv :=
  mkRequestEnv
    (mkTcpEnv (destination host port_u16 r) (ne_client_address net) (user_agent to_str r) (ne_connect net)
       (if is_connect r then ne_respond net else ne_forward net) (ne_exchange net))
    (mkMuxEnv (ne_client_address net) (user_agent to_str r) (ne_check_auth net) (mux_promote r (ne_respond net))
       (ne_make_udp net) (ne_make_icmp net) (ne_exchange net))
    (ne_health_check net) (hd_tls_domain self).

(** The response that a request fails with. *)
Definition pending_response (p : PendingRequest) (failure : option ConnectionError) : option ResponseHeaders :=
  match failure with
  | Some e => Some (failure_response (pr_request p) e (pr_auth_failure_status_code p))
  | None =>
      match promote_to_next_state (pr_request p) with
      | UnexpectedMethod => Some (bad_response BAD_STATUS_CODE [])
      | _ => None
      end
  end.

(** A pending request from its arrival at the tunnel to the end of its handler, with the
    response it fails with. *)
Definition serve_pending (authenticator : option Authenticator) (limiter : option ConnectionLimiter) (t : TunnelState)
    (p : PendingRequest) (net : NetworkEnv)
  : Traced (option ResponseHeaders) * option TunnelState * option ConnectionLimiter :=
  let '(x, t, limiter) := serve_request to_str authenticator limiter t (pr_request p) (request_env (pr_request p) net) in
  ((x.1, let! failure := x.2 in Ret (pending_response p failure)), t, limiter).

End serve.

(** ** Routing *)

(** What the loop consumes: requests for the services, each given to its task in order,
    then what it returns with.  A request it returns is one that no service claims. *)
Lemma downstream_listen_spec from_u16 self codec r tasks rest :
  downstream_listen from_u16 self codec = (r, tasks, rest) ->
  exists services, Forall2 (fun q task => service_of self q = Some task) services tasks /\
    match r with
    | None => codec = (fun q => Ok (Some q)) <$> services /\ rest = []
    | Some (Err e) => codec = ((fun q => Ok (Some q)) <$> services) ++ Err e :: rest
    | Some (Ok None) => codec = ((fun q => Ok (Some q)) <$> services) ++ Ok None :: rest
    | Some (Ok (Some p)) =>
        codec = ((fun q => Ok (Some q)) <$> services) ++ Ok (Some (pr_request p)) :: rest /\
        http_demux_select (hd_demux self) (pr_request p) = ChTunnel /\
        pr_auth_failure_status_code p
          = auth_failure_code from_u16 (hd_auth_failure_status_code self)
              (hd_non_connect_auth_failure_status_code self) (pr_request p)
    end.
Proof.
  revert r tasks. induction codec as [|[[q|]|e] codec IH]; intros r tasks; cbn [downstream_listen].
  - intros [= <- <- <-]. by exists [].
  - destruct (service_of self q) as [task|] eqn:Es.
    + destruct (downstream_listen from_u16 self codec) as [[r' tasks'] rest'] eqn:E. intros [= <- <- <-].
      destruct (IH r' tasks') as (services & Hf & Hr); [done|]. exists (q :: services). split; [by constructor|].
      destruct r' as [[[p|]|e]|]; cbn; [destruct Hr as (-> & ? & ?)| | |destruct Hr as [-> ->]]; try rewrite Hr; done.
    + intros [= <- <- <-]. exists []. split; [constructor|]. cbn. split_and!; [done| |done].
      unfold service_of in Es. by destruct (http_demux_select (hd_demux self) q).
  - intros [= <- <- <-]. by exists [].
  - intros [= <- <- <-]. by exists [].
Qed.

(** ** Destinations and promotion *)

(** The text of an address is the address, whatever the method. *)
Lemma destination_of_address host port_u16 r a :
  wf_addr a -> req_authority r = Some (socket_to_string a 0) -> destination host port_u16 r = Ok (DestAddress a).
Proof. intros Ha Hr. unfold destination, request_authority. rewrite Hr. cbn [bindR]. by rewrite socket_text_roundtrip. Qed.

(** A CONNECT request needs a port. *)
Lemma connect_needs_port host port_u16 r authority :
  is_connect r = true -> req_authority r = Some authority -> socket_from_str authority = None -> port_u16 authority = None ->
  destination host port_u16 r = Err Other.
Proof.
  intros Hc Hr Hs Hp. unfold destination, request_authority. rewrite Hr. cbn [bindR]. by rewrite Hs, Hc, Hp.
Qed.

(** A plain request for an IPv6 literal without a port is taken for a host name in
    brackets, which is not the text of any address.  The host of an authority keeps the
    brackets (RFC 3986). *)
Lemma bare_ipv6_becomes_hostname host port_u16 r :
  host (str "[2001:db8::1]") = str "[2001:db8::1]" -> port_u16 (str "[2001:db8::1]") = None ->
  req_method r = str "GET" -> req_authority r = Some (str "[2001:db8::1]") ->
  destination host port_u16 r = Ok (DestHostName (str "[2001:db8::1]") 80) /\
  ip_from_str (str "[2001:db8::1]") = None /\ is_Some (ip_from_str (str "2001:db8::1")).
Proof.
  intros Hh Hp Hm Hr. unfold destination, request_authority, is_connect. rewrite Hr, Hm. cbn [bindR].
  change (socket_from_str (str "[2001:db8::1]")) with (@None (SocketAddr * Z)). cbn iota.
  change (bool_decide (str "GET" = str "CONNECT")) with false. cbn iota. rewrite Hp, Hh.
  split; [done|]. split; [vm_compute; reflexivity|]. vm_compute. eauto.
Qed.

(** The multiplexer request reaches no [unreachable!]. *)
Lemma mux_promote_total r respond :
  promote_to_next_state r = DatagramMultiplexer -> mux_promote r respond = Panic -> respond = Panic.
Proof.
  unfold promote_to_next_state, mux_promote, request_authority. destruct (req_authority r) as [a|]; [|done].
  destruct (_ && is_connect r); [done|].
  destruct (bool_decide_reflect (a = UDP_AUTHORITY)) as [->|]; [by destruct respond|].
  destruct (bool_decide_reflect (a = ICMP_AUTHORITY)) as [->|]; [by destruct respond|]. cbn [orb andb].
  destruct (_ || _); done.
Qed.

(** A multiplexer connects to nobody by itself. *)
Lemma mux_request_no_connect env fa tls_domain :
  Forall (fun ev => forall m, ev <> EvConnect m) (on_datagram_mux_request env fa tls_domain).1.
Proof.
  unfold on_datagram_mux_request, mux_promoted. trace_events; by apply mux_exchange_events.
Qed.

(** What the connections of a handler are for, and the multiplexers. *)
Definition event_for (env : RequestEnv) (ev : Event) : Prop :=
  match ev with
  | EvConnect m => te_destination (rq_tcp env) = Ok (tm_destination m) /\ tm_tls_domain m = rq_tls_domain env
  | EvCheckAuth _ tls_domain _ _ => tls_domain = rq_tls_domain env
  | EvMakeUdp m => um_tls_domain m = rq_tls_domain env
  | _ => True
  end.

(** Every connection of a handler is for the destination of its request. *)
Lemma serve_request_connects to_str a lim t r env : Forall (event_for env) (serve_request to_str a lim t r env).1.1.1.
Proof.
  unfold serve_request. destruct (handle_request a lim t (auth_info to_str r)) as [[[|e|fa] t'] lim']; cbn [fst]; [constructor..|].
  destruct (promote_to_next_state r); [by apply call_trace; [|constructor]|constructor|..]; cbn [answer fst].
  - unfold on_tcp_connect_request. destruct (te_destination (rq_tcp env)) as [d|] eqn:Ed; trace_events.
  - unfold on_datagram_mux_request, mux_promoted. trace_events; by apply mux_exchange_events.
Qed.

(** ** Panics *)

(** The call of an event panicked. *)
Definition call_panics (r : HttpRequest) (net : NetworkEnv) (ev : Event) : Prop :=
  match ev with
  | EvConnect m => ne_connect net m = Panic
  | EvCheckAuth _ _ s _ => ne_check_auth net s = Panic
  | EvHealthCheck => ne_health_check net = Panic
  | EvPromote => (if is_connect r then ne_respond net else ne_forward net) = Panic
  | EvMakeUdp m => ne_make_udp net m = Panic
  | EvMakeIcmp => ne_make_icmp net = Panic
  | EvExchange => ne_exchange net = Panic
  end.

(** A panic of a handler comes from a call that it made. *)
Definition panics_in {A} (P : Event -> Prop) (x : Traced A) : Prop := x.2 = Panic -> Exists P x.1.

Lemma panics_in_call {A B} P ev (x : M A) (k : A -> Traced B) :
  (x = Panic -> P ev) -> (forall a, panics_in P (k a)) -> panics_in P (call ev x k).
Proof.
  unfold panics_in. intros Hx Hk. destruct x as [a|]; cbn; [|intros _; left; auto].
  specialize (Hk a). destruct (k a) as [tr y]. cbn. intros Hy. right. by apply Hk.
Qed.

Lemma panics_in_no_calls {A} P (x : A) : panics_in P (no_calls x).
Proof. done. Qed.

Ltac trace_panics :=
  repeat match goal with
  | |- panics_in _ (call _ _ _) => apply panics_in_call; [try done|intros ?]
  | |- panics_in _ (no_calls _) => apply panics_in_no_calls
  | |- panics_in _ (mux_exchange _) => unfold mux_exchange
  | |- panics_in _ (match ?x with _ => _ end) => destruct x
  end.

Lemma multiplexer_is_connect r : promote_to_next_state r = DatagramMultiplexer -> is_connect r = true.
Proof.
  unfold promote_to_next_state. destruct (req_authority r); [|done]. destruct (is_connect r); [done|].
  rewrite !andb_false_r. by destruct (_ || _).
Qed.

Lemma serve_request_panics host port_u16 to_str self a lim t r net :
  panics_in (call_panics r net) (serve_request to_str a lim t r (request_env host port_u16 to_str self r net)).1.1.
Proof.
  unfold serve_request. destruct (handle_request a lim t (auth_info to_str r)) as [[[|e|fa] t'] lim']; cbn [fst]; [done..|].
  assert (forall x : Traced (result (bool * ConnectionError) unit),
    panics_in (call_panics r net) x -> panics_in (call_panics r net) (answer x)) as Hanswer.
  { intros [tr [y|]] Hx; [done|]. intros _. by apply Hx. }
  destruct (promote_to_next_state r) eqn:Er; [by apply panics_in_call|done|..]; apply Hanswer.
  - unfold on_tcp_connect_request. trace_panics.
  - unfold on_datagram_mux_request, mux_promoted. trace_panics.
    all: cbn [call_panics]; rewrite (multiplexer_is_connect r Er); by apply mux_promote_total.
Qed.

(** The status of a failure: the configured one for a failed authentication, 502 for
    anything else, and the proxy challenge exactly with 407. *)
Lemma failure_response_spec r e code :
  rp_status (failure_response r e code) = (match e with Authentication => code | _ => BAD_STATUS_CODE end) /\
  (fst AUTHORIZATION_FAILURE_EXTRA_HEADER ∈ fst <$> rp_headers (failure_response r e code)
     <-> e = Authentication /\ code = PROXY_AUTHENTICATION_REQUIRED).
Proof.
  split; [by destruct e|]. unfold failure_response, tunnel_error_to_warn_header.
  assert (forall l : list bytes, bool_decide (fst AUTHORIZATION_FAILURE_EXTRA_HEADER ∈ l) = false ->
    fst AUTHORIZATION_FAILURE_EXTRA_HEADER ∈ l -> False) as Hno by (intros l H%bool_decide_eq_false; done).
  destruct e; try (split; [intros H; exfalso; revert H; apply Hno; vm_compute; reflexivity|by intros [? _]]).
  destruct (Z.eqb_spec code PROXY_AUTHENTICATION_REQUIRED) as [->|Hne].
  - split; [done|]. intros _. apply (bool_decide_eq_true_1 _). vm_compute. reflexivity.
  - split; [intros H; exfalso; revert H; apply Hno; vm_compute; reflexivity|by intros [_ ?]].
Qed.

(** A request whose authentication fails has no effect. *)
Lemma refused_request to_str a lim t r env tr failure t' lim' :
  authorize (auth_info to_str r) (tn_policy t) a = Err Authentication ->
  serve_request to_str a lim t r env = ((tr, failure), t', lim') -> tr = [] /\ failure = Ret (Some Authentication).
Proof.
  intros Hauth. unfold serve_request, handle_request.
  destruct (acquire_slot a lim t (auth_info to_str r)) as [t1 lim1] eqn:Ea.
  destruct t1 as [t1|]; [|by intros [= <- <- _ _]].
  assert (tn_policy t1 = tn_policy t) as ->; [|rewrite Hauth; by intros [= <- <- _ _]].
  apply acquire_slot_cases in Ea as [(_ & [[? _]|[= ->]])|(? & ? & ? & ? & ? & _ & _ & _ & _ & _ & [= ->] & _)]; done.
Qed.

(** C14: a request that the downstream gives to the tunnel is one that no service claims.
    Its task panics only when a call that it made panicked, of the connector, the codec,
    the multiplexers or the pipe: the [unreachable!] of the multiplexer is not reached.  It
    is connected to nothing but its own destination, and every call of the forwarder is
    under the TLS domain of the connection; and when its authentication fails nothing is
    done for it, and it is answered with the status configured for its method. *)
Theorem pending_request_served host port_u16 to_str from_u16 self codec p tasks rest a lim t net :
  downstream_listen from_u16 self codec = (Some (Ok (Some p)), tasks, rest) ->
  http_demux_select (hd_demux self) (pr_request p) = ChTunnel /\
  exists tr response t' lim',
    serve_pending host port_u16 to_str self a lim t p net = ((tr, response), t', lim') /\
    (response = Panic -> exists ev, ev ∈ tr /\ call_panics (pr_request p) net ev) /\
    (forall m, EvConnect m ∈ tr ->
       destination host port_u16 (pr_request p) = Ok (tm_destination m) /\ tm_tls_domain m = hd_tls_domain self) /\
    (forall m, EvMakeUdp m ∈ tr -> um_tls_domain m = hd_tls_domain self) /\
    (authorize (auth_info to_str (pr_request p)) (tn_policy t) a = Err Authentication ->
       tr = [] /\ exists resp, response = Ret (Some resp) /\
         rp_status resp = auth_failure_code from_u16 (hd_auth_failure_status_code self)
                            (hd_non_connect_auth_failure_status_code self) (pr_request p)).
Proof.
  intros (services & _ & _ & Htunnel & Hcode)%downstream_listen_spec. split; [done|].
  set (env := request_env host port_u16 to_str self (pr_request p) net).
  pose proof (serve_request_connects to_str a lim t (pr_request p) env) as Hconn.
  pose proof (serve_request_panics host port_u16 to_str self a lim t (pr_request p) net) as Hpanic. fold env in Hpanic.
  unfold serve_pending. fold env.
  destruct (serve_request to_str a lim t (pr_request p) env) as [[[tr failure] t'] lim'] eqn:Es. cbn [fst snd] in *.
  rewrite Forall_forall in Hconn. eexists _, _, _, _. split; [reflexivity|]. split_and!.
  - intros Hp. apply Exists_exists, Hpanic. by destruct failure.
  - intros m Hm. exact (Hconn _ Hm).
  - intros m Hm. exact (Hconn _ Hm).
  - intros Hauth. destruct (refused_request to_str a lim t (pr_request p) env tr failure t' lim' Hauth Es) as [-> ->].
    split; [done|]. eexists. split; [reflexivity|]. rewrite (proj1 (failure_response_spec _ _ _)). done.
Qed.

Module DownstreamSample.

Definition plain : HttpRequest := mkHttpRequest (str "GET") (Some (str "example.org")) (str "/") [].
Definition ping : HttpRequest := mkHttpRequest (str "GET") (Some (str "example.org")) (str "/ping") [].
Definition self : HttpDownstream :=
  mkDownstream (mkDemux None true (Some (str "/ping")) false None None) 407 (Some 404) None (str "vpn.example.com").
Definition net : NetworkEnv :=
  mkNetworkEnv (Err Other) (fun _ => Panic) (Ret (Err Other)) (Ret (Err Other)) (Ret (Err Other)) Panic
    (fun _ => Ret (Ok tt)) (fun _ => Ret (Err Other)) Panic.
Definition tunnel : TunnelState := mkTunnel DefaultPolicy None Http2.

End DownstreamSample.

Lemma pending_request_served_witness :
  exists p, downstream_listen Some DownstreamSample.self [Ok (Some DownstreamSample.ping); Ok (Some DownstreamSample.plain)]
    = (Some (Ok (Some p)), [PingTask DownstreamSample.ping], []) /\
  exists tr resp t' lim',
    serve_pending (fun a => a) (fun _ => None) Some DownstreamSample.self (Some sample_auth) None DownstreamSample.tunnel p
      DownstreamSample.net = ((tr, Ret (Some resp)), t', lim') /\ tr = [] /\ rp_status resp = 404.
Proof.
  exists (mkPending DownstreamSample.plain 404). split; [vm_compute; reflexivity|].
  destruct (pending_request_served (fun a => a) (fun _ => None) Some Some DownstreamSample.self
    [Ok (Some DownstreamSample.ping); Ok (Some DownstreamSample.plain)] (mkPending DownstreamSample.plain 404)
    [PingTask DownstreamSample.ping] [] (Some sample_auth) None DownstreamSample.tunnel DownstreamSample.net)
    as (_ & tr & resp & t' & lim' & E & _ & _ & _ & Hfail); [vm_compute; reflexivity|].
  destruct Hfail as [-> (x & -> & Hx)]; [vm_compute; reflexivity|].
  exists [], x, t', lim'. split; [exact E|]. split; [done|]. by rewrite Hx.
Defined.
