(* ===== verification/TunnelSession.v ===== *)
(** * The life of a tunnel

    [Tunnel::new], [Tunnel::listen] and [Tunnel::listen_inner] of lib/src/tunnel.rs over the
    HTTP downstream, and the forwarder of a tunnel, lib/src/direct_forwarder.rs.

    A tunnel reacts to inputs: an outcome of [codec.listen], time that passes, the
    notification of a shutdown.  Their order is the order in which the [select!] and the
    timer see them; an outcome that is ready in the poll in which the timer expires comes
    before the expiry, as [tokio::time::timeout] polls the future first.  A request is
    handled by a task of its own; the input that brings it also has what the peers will
    answer to the task, so that the task is recorded with all that it does.  The tunnels of
    an endpoint share the connection limiter, and their inputs interleave. *)

From S2P Require Import Prelude.
From S2P Require Import Codecs.
From S2P Require Import Varint.
From S2P Require Import NetUtils.
From S2P Require Import Auth.
From S2P Require Import Tunnel.
From S2P Require Import ForwardedStream.
From S2P Require Import Http1Codec.
From S2P Require Import ReverseProxy.
From S2P Require Import Settings.
From S2P Require Import Services.
From S2P Require Import Downstream.

(** ** The tunnel *)

(** The handling of a request: what was done for it and the response it failed with, unless
    the task panicked. *)
Record RequestTask : Type := mkRequestTask {
  rt_request : PendingRequest;
  rt_events : list Event;
  rt_response : M (option ResponseHeaders);
}.

(** [ru_waiting] is the time since the current [timeout(.., downstream.listen())] began. *)
Record TunnelRun : Type := mkRun {
  ru_tunnel : TunnelState;
  ru_downstream : HttpDownstream;
  ru_waiting : Z;
  ru_tasks : list RequestTask;
  ru_services : list ServiceTask;
}.

Definition tunnel_new (downstream : HttpDownstream) (t : TunnelState) : TunnelRun := mkRun t downstream 0 [] [].

(** [graceful] is the outcome of [downstream.graceful_shutdown]. *)
Inductive TunnelInput : Type :=
| InCodec (x : result ErrorKind (option HttpRequest)) (net : NetworkEnv)
| InElapsed (d : Z)
| InShutdown (notified : result unit unit) (graceful : result ErrorKind unit).

(** [listen] goes on, or it has returned. *)
Inductive Listen : Type :=
| Listening (run : TunnelRun)
| Returned (x : result ErrorKind unit) (run : TunnelRun).

Definition listen_run (l : Listen) : TunnelRun := match l with Listening run | Returned _ run => run end.

Definition with_waiting (w : Z) (run : TunnelRun) : TunnelRun :=
  mkRun (ru_tunnel run) (ru_downstream run) w (ru_tasks run) (ru_services run).

Section listen.
Context (host : bytes -> bytes) (port_u16 : bytes -> option Z) (to_str : bytes -> option bytes) (from_u16 : Z -> option Z).
Context (authenticator : option Authenticator) (client_listener_timeout : Z).

(** A request of the tunnel: the slot, the task, and the next wait.  A tunnel over the
    limit answers the request and returns. *)
Definition on_request (p : PendingRequest) (net : NetworkEnv) (limiter : option ConnectionLimiter) (run : TunnelRun)
  : M (Listen * option ConnectionLimiter) :=
  let '((tr, response), t, limiter) :=
    serve_pending host port_u16 to_str (ru_downstream run) authenticator limiter (ru_tunnel run) p net in
  let tasks := ru_tasks run ++ [mkRequestTask p tr response] in
  Ret (match t with
       | Some t => Listening (mkRun t (ru_downstream run) 0 tasks (ru_services run))
       | None => Returned (Err PermissionDenied)
                   (mkRun (ru_tunnel run) (ru_downstream run) (ru_waiting run) tasks (ru_services run))
       end, limiter).

(** What [listen_inner] and the [select!] of [listen] do with an input.  A request for a
    service is taken by the downstream, whose [listen] goes on, and so does its timer. *)
Definition tunnel_input (limiter : option ConnectionLimiter) (run : TunnelRun) (i : TunnelInput)
  : M (Listen * option ConnectionLimiter) :=
  match i with
  | InShutdown (Ok _) graceful => Ret (Returned graceful run, limiter)
  | InShutdown (Err _) _ => Ret (Returned (Err Other) run, limiter)
  | InElapsed d =>
      let w := ru_waiting run + d in
      Ret (if client_listener_timeout <=? w then Returned (Err TimedOut) (with_waiting w run)
           else Listening (with_waiting w run), limiter)
  | InCodec x net =>
      let '(r, services, _) := downstream_listen from_u16 (ru_downstream run) [x] in
      let run := mkRun (ru_tunnel run) (ru_downstream run) (ru_waiting run) (ru_tasks run) (ru_services run ++ services) in
      match r with
      | None => Ret (Listening run, limiter)
      | Some (Ok None) => Ret (Returned (Ok tt) run, limiter)
      | Some (Err UnexpectedEof) => Ret (Returned (Ok tt) run, limiter)
      | Some (Err e) => Ret (Returned (Err e) run, limiter)
      | Some (Ok (Some p)) => on_request p net limiter run
      end
  end.

(** [Tunnel::listen] over the inputs to come. *)
Fixpoint tunnel_listen (limiter : option ConnectionLimiter) (run : TunnelRun) (inputs : list TunnelInput)
  : M (Listen * option ConnectionLimiter) :=
  match inputs with
  | [] => Ret (Listening run, limiter)
  | i :: inputs =>
      let! (l, limiter) := tunnel_input limiter run i in
      match l with
      | Listening run => tunnel_listen limiter run inputs
      | Returned _ _ => Ret (l, limiter)
      end
  end.

(** ** The tunnels of an endpoint *)

(** A tunnel opens, one of them is given an input, or returns from [listen] and is dropped
    with its guard. *)
Inductive session_step
  : option ConnectionLimiter * list TunnelRun -> option ConnectionLimiter * list TunnelRun -> Prop :=
| ss_open lim runs downstream protocol creds t lim' :
    open_tunnel authenticator lim protocol creds = (t, lim') -> len runs + 1 < 2 ^ 32 ->
    session_step (lim, runs) (lim', (tunnel_new downstream <$> opt_list t) ++ runs)
| ss_input lim runs1 run runs2 i run' lim' :
    tunnel_input lim run i = Ret (Listening run', lim') ->
    session_step (lim, runs1 ++ run :: runs2) (lim', runs1 ++ run' :: runs2)
| ss_return lim runs1 run runs2 i x run' lim' :
    tunnel_input lim run i = Ret (Returned x run', lim') ->
    session_step (lim, runs1 ++ run :: runs2) (close_tunnel lim' (ru_tunnel run'), runs1 ++ runs2).

End listen.

(** ** HTTP/1

    The tunnel over an HTTP/1 codec that has handed out its stream: the second [listen] of
    the codec is what moves the bytes of the stream. *)
Section http1.
Context (parse_request : Z -> bytes -> ParseResult (Z * ParsedRequest))
  (uri_from_str : bytes -> option Uri) (uri_build : bytes -> bytes -> option Uri)
  (request_ok : RequestHeaders -> bool) (canonical_reason : Z -> bytes).
Context (host : bytes -> bytes) (port_u16 : bytes -> option Z) (to_str : bytes -> option bytes) (from_u16 : Z -> option Z).
Context (authenticator : option Authenticator) (client_listener_timeout : Z).

(** The parts of a request that the downstream looks at. *)
Definition http_request (r : RequestHeaders) : HttpRequest :=
  mkHttpRequest (rq_method r) (rq_authority r) (rq_path r) (rq_headers r).

Definition listened (r : result ErrorKind Listened) : result ErrorKind (option HttpRequest) :=
  match r with
  | Ok (NewStream request _) => Ok (Some (http_request request))
  | Ok NoMore => Ok None
  | Err e => Err e
  end.

(** What happens to the connection: [listen] of the codec goes on from where it is
    suspended to its next suspension, the other side of the stream does something to the
    channels, or time passes. *)
Inductive H1Input : Type :=
| H1Round (ev : ListenEvent) (env : ListenEnv) (net : NetworkEnv)
| H1Peer (down up : option bytes) (down_sender up_receiver eof : bool)
| H1Elapsed (d : Z).

Definition peer_acts (down up : option bytes) (down_sender up_receiver eof : bool) (s : Http1Codec) : Http1Codec :=
  mkH1 (hc_state s) (hc_in s) (hc_out s) down down_sender eof up up_receiver (hc_taken s) (hc_phase s).

Fixpoint h1_tunnel_listen (limiter : option ConnectionLimiter) (run : TunnelRun) (codec : Http1Codec) (inputs : list H1Input)
  : M (Listen * Http1Codec * option ConnectionLimiter) :=
  match inputs with
  | [] => Ret (Listening run, codec, limiter)
  | i :: inputs =>
      let! (x, codec) :=
        match i with
        | H1Round ev env net =>
            let! (r, codec) := listen_round parse_request uri_from_str uri_build request_ok canonical_reason ev env codec in
            Ret ((fun r => InCodec (listened r) net) <$> r, codec)
        | H1Peer down up down_sender up_receiver eof => Ret (None, peer_acts down up down_sender up_receiver eof codec)
        | H1Elapsed d => Ret (Some (InElapsed d), codec)
        end in
      match x with
      | None => h1_tunnel_listen limiter run codec inputs
      | Some i =>
          let! (l, limiter) :=
            tunnel_input host port_u16 to_str from_u16 authenticator client_listener_timeout limiter run i in
          match l with
          | Listening run => h1_tunnel_listen limiter run codec inputs
          | Returned _ _ => Ret (l, codec, limiter)
          end
      end
  end.

Definition h1_elapsed (inputs : list H1Input) : Z :=
  foldr (fun i n => match i with H1Elapsed d => d + n | _ => n end) 0 inputs.

End http1.

(** ** The forwarder without a proxy *)

(** [DirectForwarder::datagram_mux_authenticator] is a dummy that accepts everybody. *)
Definition direct_check_auth (s : Auth.Source) : M (result ConnectionError unit) := Ret (Ok tt).

(** [make_icmp_datagram_multiplexer]: [icmp_forwarder] is there when the settings have ICMP,
    with the outcome of making a multiplexer of it. *)
Definition direct_make_icmp (icmp_forwarder : option (M (result ErrorKind unit))) : M (result ErrorKind (option unit)) :=
  match icmp_forwarder with
  | None => Ret (Ok None)
  | Some make => let! r := make in Ret (match r with Ok m => Ok (Some m) | Err e => Err e end)
  end.

(** The environment of a request over the direct forwarder, which makes UDP multiplexers
    without looking at the meta. *)
Definition direct_env (client_address : result ErrorKind IpAddr)
    (connect : TcpConnectionMeta -> M (option (result ConnectionError unit)))
    (health_check respond forward exchange make_udp : M (result ErrorKind unit))
    (icmp_forwarder : option (M (result ErrorKind unit))) : NetworkEnv :=
  mkNetworkEnv client_address connect health_check respond forward exchange direct_check_auth (fun _ => make_udp)
    (direct_make_icmp icmp_forwarder).

(** ** The tunnels refine their specification *)

Section refinement.
Context (host : bytes -> bytes) (port_u16 : bytes -> option Z) (to_str : bytes -> option bytes) (from_u16 : Z -> option Z).
Context (a : option Authenticator) (timeout : Z).

Abbreviation input := (tunnel_input host port_u16 to_str from_u16 a timeout).
Abbreviation step := (session_step host port_u16 to_str from_u16 a timeout).

(** A task that was added to a tunnel did what its authorization lets it do. *)
Definition task_of (lim : option ConnectionLimiter) (t : TunnelState) (task : RequestTask) (t' : option TunnelState)
    (lim' : option ConnectionLimiter) : Prop :=
  exists o : Outcome,
    handle_request a lim t (auth_info to_str (pr_request (rt_request task))) = (o, t', lim') /\
    (rt_events task <> [] -> exists fa, o = RequestPromoted fa /\ uses_only fa (rt_events task)).

(** The ways an input acts on the tunnel: not at all, or as a request. *)
Definition input_post (lim : option ConnectionLimiter) (run : TunnelRun) (l : Listen) (lim' : option ConnectionLimiter) : Prop :=
  (ru_tunnel (listen_run l) = ru_tunnel run /\ ru_tasks (listen_run l) = ru_tasks run /\ lim' = lim) \/
  exists task, ru_tasks (listen_run l) = ru_tasks run ++ [task] /\
    match l with
    | Listening run' => task_of lim (ru_tunnel run) task (Some (ru_tunnel run')) lim'
    | Returned x run' => ru_tunnel run' = ru_tunnel run /\ x = Err PermissionDenied /\
        task_of lim (ru_tunnel run) task None lim'
    end.

Lemma serve_pending_task self lim t p net tr response t' lim' :
  serve_pending host port_u16 to_str self a lim t p net = ((tr, response), t', lim') ->
  task_of lim t (mkRequestTask p tr response) t' lim'.
Proof.
  unfold serve_pending. destruct (serve_request _ _ _ _ _ _) as [[[tr' failure] t1] lim1] eqn:E. intros [= <- <- <- <-].
  by apply serve_request_handle in E.
Qed.

Lemma tunnel_input_spec lim run i l lim' : input lim run i = Ret (l, lim') -> input_post lim run l lim'.
Proof.
  unfold tunnel_input, input_post. destruct i as [x net|d|[u|u] graceful];
    [|intros [= <- <-]; left; by destruct (_ <=? _)|intros [= <- <-]; by left..].
  - destruct (downstream_listen _ _ _) as [[r services] rest].
    destruct r as [[[p|]|e]|]; [|intros [= <- <-]; by left|destruct e; intros [= <- <-]; by left|intros [= <- <-]; by left].
    unfold on_request. destruct (serve_pending _ _ _ _ _ _ _ _ _) as [[[tr response] t] lim1] eqn:E.
    apply serve_pending_task in E. intros [= <- <-]. right. eexists.
    destruct t; split; [done|exact E|done|split_and!; [done..|exact E]].
Qed.

(** An input never panics: a panic of a request ends its task only. *)
Lemma tunnel_input_total lim run i : exists l lim', input lim run i = Ret (l, lim').
Proof.
  unfold tunnel_input. destruct i as [x net|d|[u|u] graceful]; [|by eexists _, _..].
  destruct (downstream_listen _ _ _) as [[r services] rest].
  destruct r as [[[p|]|e]|]; [|by eexists _, _|by destruct e; eexists _, _|by eexists _, _].
  unfold on_request. destruct (serve_pending _ _ _ _ _ _ _ _ _) as [[[tr' failure] t1] lim1]. eauto.
Qed.

(** The state of the tunnels as the specification sees it. *)
Definition tunnels (s : option ConnectionLimiter * list TunnelRun) : option ConnectionLimiter * list TunnelState :=
  (s.1, ru_tunnel <$> s.2).

(** A tunnel that is over the limit holds no slot. *)
Lemma over_limit_no_slot lim t info o lim' : handle_request a lim t info = (o, None, lim') -> tn_guard t = None.
Proof.
  intros (t1 & Ea & <- & _)%handle_request_tunnel.
  apply acquire_slot_cases in Ea as [(_ & [[_ ?]|?])|(? & ? & ? & ? & ? & _ & _ & _ & _ & _ & ? & _)]; done.
Qed.

Lemma session_step_sim s s' : step s s' -> rtc (tun_step a) (tunnels s) (tunnels s').
Proof.
  destruct 1 as [lim runs downstream protocol creds t lim' Ho Hlen|lim runs1 run runs2 i run' lim' E
    |lim runs1 run runs2 i x run' lim' E]; unfold tunnels; cbn [fst snd].
  - apply rtc_once. rewrite fmap_app. replace (ru_tunnel <$> (tunnel_new downstream <$> opt_list t)) with (opt_list t) by (by destruct t).
    apply (tun_open _ _ _ protocol creds); [done|]. unfold len in *. by rewrite length_fmap.
  - rewrite !fmap_app, !fmap_cons.
    apply tunnel_input_spec in E as [(Et & _ & ->)|(task & _ & o & Eh & _)]; cbn [listen_run] in *; [by rewrite Et|].
    apply rtc_once. exact (tun_request _ _ _ _ _ _ _ (Some (ru_tunnel run')) _ Eh).
  - rewrite !fmap_app, !fmap_cons.
    apply tunnel_input_spec in E as [(Et & _ & ->)|(task & _ & Et & _ & o & Eh & _)]; cbn [listen_run] in Et; rewrite Et.
    + apply rtc_once, tun_close.
    + apply rtc_once. unfold close_tunnel. rewrite (over_limit_no_slot _ _ _ _ _ Eh).
      replace (match lim' with Some _ | _ => lim' end) with lim' by (by destruct lim').
      exact (tun_request _ _ _ _ _ _ _ None _ Eh).
Qed.

Lemma session_run_sim s s' : rtc step s s' -> rtc (tun_step a) (tunnels s) (tunnels s').
Proof. induction 1 as [|s s1 s' H _ IH]; [done|]. etrans; [by apply session_step_sim|done]. Qed.

(** Every task of a tunnel that has had an effect had credentials that pass. *)
Definition task_authenticated (au : Authenticator) (task : RequestTask) : Prop :=
  rt_events task <> [] -> exists s, authenticate au s = Pass /\ uses_only (Some s) (rt_events task).

Definition tasks_authenticated (s : option ConnectionLimiter * list TunnelRun) : Prop :=
  forall au, a = Some au -> Forall (fun run => Forall (task_authenticated au) (ru_tasks run)) s.2.

(** A task of a reachable tunnel is authenticated. *)
Lemma task_of_authenticated au s0 lim ts t task t' lim' :
  a = Some au -> (exists b64 clients d2 d3 (with_limits : bool),
    s0 = (if with_limits then Some (limiter_new b64 clients d2 d3) else None, [])) ->
  rtc (tun_step a) s0 (lim, ts) -> t ∈ ts -> task_of lim t task t' lim' -> task_authenticated au task.
Proof.
  intros Ha (b64 & clients & d2 & d3 & wl & ->) Hr Ht (o & Eh & Ho) Hne. rewrite Ha in Hr, Eh.
  destruct (Ho Hne) as (fa & -> & Hu).
  destruct (promoted_authenticated _ _ _ _ _ _ _ _ _ _ _ _ _ Hr Ht Eh) as (src & -> & Hp & _). eauto.
Qed.

Lemma session_tasks_authenticated b64 clients d2 d3 (with_limits : bool) s :
  rtc step (if with_limits then Some (limiter_new b64 clients d2 d3) else None, []) s -> tasks_authenticated s.
Proof.
  revert s. apply (rtc_ind_r tasks_authenticated); [by intros au _; constructor|].
  intros s s' Hr Hs IH au Ha. specialize (IH au Ha). apply session_run_sim in Hr.
  destruct Hs as [lim runs downstream protocol creds t lim' Ho Hlen|lim runs1 run runs2 i run' lim' E
    |lim runs1 run runs2 i x run' lim' E]; cbn [snd] in *.
  - apply Forall_app. split; [|done]. destruct t; repeat constructor.
  - apply Forall_app in IH as [H1 [Hrun H2]%Forall_cons]. apply Forall_app. split; [done|]. constructor; [|done].
    apply tunnel_input_spec in E as [(_ & Et & _)|(task & Et & Htask)]; cbn [listen_run] in *; rewrite Et; [done|].
    apply Forall_app. split; [done|]. repeat constructor.
    eapply task_of_authenticated; [done|by eexists _, _, _, _, _|exact Hr| |exact Htask].
    cbn. rewrite fmap_app, fmap_cons. set_solver.
  - apply Forall_app in IH as [H1 [Hrun H2]%Forall_cons]. apply Forall_app. done.
Qed.

End refinement.

(** ** The timer of a tunnel *)

Section timer.
Context (host : bytes -> bytes) (port_u16 : bytes -> option Z) (to_str : bytes -> option bytes) (from_u16 : Z -> option Z).
Context (a : option Authenticator) (timeout : Z).

Abbreviation input := (tunnel_input host port_u16 to_str from_u16 a timeout).
Abbreviation listen := (tunnel_listen host port_u16 to_str from_u16 a timeout).

(** An input without a request for the tunnel: time, or a request for a service. *)
Definition quiet (self : HttpDownstream) (i : TunnelInput) : Prop :=
  match i with
  | InElapsed d => 0 <= d
  | InCodec (Ok (Some r)) _ => is_Some (service_of self r)
  | _ => False
  end.

Definition input_elapsed (i : TunnelInput) : Z := match i with InElapsed d => d | _ => 0 end.

Definition elapsed (inputs : list TunnelInput) : Z := foldr (fun i n => input_elapsed i + n) 0 inputs.

(** The wait of a quiet tunnel grows with the time. *)
Lemma quiet_input lim run i : quiet (ru_downstream run) i -> ru_waiting run < timeout ->
  (exists run', input lim run i = Ret (Listening run', lim) /\ ru_tunnel run' = ru_tunnel run /\
     ru_downstream run' = ru_downstream run /\ ru_waiting run' = ru_waiting run + input_elapsed i /\ ru_waiting run' < timeout) \/
  (exists run', input lim run i = Ret (Returned (Err TimedOut) run', lim) /\ ru_tunnel run' = ru_tunnel run /\
     timeout <= ru_waiting run + input_elapsed i).
Proof.
  intros Hq Hw. destruct i as [[[r|]|e] net|d|]; try done; cbn [tunnel_input downstream_listen input_elapsed].
  - destruct Hq as [task ->]. left. eexists. split; [reflexivity|]. cbn. split_and!; [done|done|lia..].
  - destruct (Z.leb_spec timeout (ru_waiting run + d)) as [Hle|Hlt]; [right|left]; eexists; (split; [reflexivity|]); cbn; done.
Qed.

(** An outcome that is not a request leaves the tunnel and the limiter alone. *)
Lemma other_outcome lim run x net : (forall r, x <> Ok (Some r)) ->
  exists e run', input lim run (InCodec x net) = Ret (Returned e run', lim) /\ ru_tunnel run' = ru_tunnel run.
Proof.
  intros Hx. destruct x as [[r|]|e]; [by destruct (Hx r)|by eexists _, _|].
  cbn [tunnel_input downstream_listen]. by destruct e; eexists _, _.
Qed.

End timer.

(** A codec that has handed out its stream hands out no other, and its rounds do not panic. *)
Lemma in_progress_listens parse_request uri_from_str uri_build request_ok canonical_reason ev env s b :
  hc_state s = RequestInProgress b ->
  exists r s', listen_round parse_request uri_from_str uri_build request_ok canonical_reason ev env s = Ret (r, s') /\
    match r with Some (Ok (NewStream _ _)) => False | _ => True end.
Proof.
  intros Es. destruct ev; cbn [listen_round].
  - unfold wait_read, take_buffer. rewrite Es. cbn [hc_state set_h1_state]. rewrite orb_false_r.
    destruct (len b =? 0); [destruct (le_read env) as [chunk|e]; [|by eexists _, _]|].
    + destruct (if len chunk =? 0 then [] else b ++ chunk) as [|x y]; [by eexists _, _|].
      cbn [hc_state set_h1_in set_h1_state]. by destruct (hc_up_receiver _); eexists _, _.
    + destruct b as [|x y]; [by eexists _, _|].
      cbn [hc_state set_h1_state]. by destruct (hc_up_receiver _); eexists _, _.
  - destruct (hc_down s); [by eexists _, _|]. by destruct (hc_eof s); eexists _, _.
  - by eexists _, _.
  - destruct (h1_resume env s) as [r s'] eqn:E. exists r, s'. split; [done|]. unfold h1_resume in E.
    destruct (hc_phase s); [by injection E as <- <-| | |destruct (le_flush env); by injection E as <- <-
      |by injection E as <- <-|injection E as <- <-; by destruct (le_shutdown env)];
      destruct (write_all_buf _ _ _) as [[] ?]; by injection E as <- <-.
Qed.

(** ** Properties *)

(** C5: the tunnels of an endpoint, from their admission through their listening loops to
    their end by whatever cause, with their inputs interleaved in any way, refine the
    specification of tunnels: the slots of the limiter are exactly those the tunnels that
    are still listening hold, so that a tunnel that returned has released its own; and
    every request task that had an effect outside the endpoint had credentials that pass
    the authenticator. *)
Theorem tunnel_sessions_refine host port_u16 to_str from_u16 (a : option Authenticator) (timeout : Z)
    (b64 : bytes -> bytes) (clients : list Client) (d2 d3 : option Z) (with_limits : bool)
    (lim : option ConnectionLimiter) (runs : list TunnelRun) :
  rtc (session_step host port_u16 to_str from_u16 a timeout)
    (if with_limits then Some (limiter_new b64 clients d2 d3) else None, []) (lim, runs) ->
  rtc (tun_step a) (if with_limits then Some (limiter_new b64 clients d2 d3) else None, []) (lim, ru_tunnel <$> runs) /\
  (forall l, lim = Some l -> lim_inv l (guards (ru_tunnel <$> runs))) /\
  (forall au run task, a = Some au -> run ∈ runs -> task ∈ ru_tasks run -> rt_events task <> [] ->
     exists s, authenticate au s = Pass /\ uses_only (Some s) (rt_events task)).
Proof.
  intros Hr. pose proof (session_run_sim _ _ _ _ _ _ _ _ Hr) as Hsim. split; [exact Hsim|]. split.
  - apply tun_reachable_inv in Hsim as (_ & Hl & _). exact Hl.
  - intros au run task Ha Hrun Htask. apply session_tasks_authenticated in Hr. specialize (Hr au Ha).
    rewrite Forall_forall in Hr. specialize (Hr run Hrun). rewrite Forall_forall in Hr. exact (Hr task Htask).
Qed.

(** A tunnel that brings no request of its own for the client listener timeout is
    ended with [TimedOut] and keeps its slot until then, whatever its request tasks are
    still exchanging and however many requests its connection brings for the services. *)
Theorem quiet_tunnel_times_out host port_u16 to_str from_u16 (a : option Authenticator) (timeout : Z)
    (lim : option ConnectionLimiter) (run : TunnelRun) (inputs : list TunnelInput) :
  Forall (quiet (ru_downstream run)) inputs -> ru_waiting run < timeout -> timeout <= ru_waiting run + elapsed inputs ->
  exists run', tunnel_listen host port_u16 to_str from_u16 a timeout lim run inputs = Ret (Returned (Err TimedOut) run', lim) /\
    ru_tunnel run' = ru_tunnel run.
Proof.
  revert run. induction inputs as [|i inputs IH]; intros run Hq Hw Ht; [cbn in Ht; lia|].
  apply Forall_cons in Hq as [Hi Hq]. cbn [tunnel_listen].
  destruct (quiet_input host port_u16 to_str from_u16 a timeout lim run i Hi Hw)
    as [(run' & -> & Et & Ed & Hw' & Hlt)|(run' & -> & Et & _)]; cbn [bindM]; [|eauto].
  destruct (IH run') as (run2 & -> & Et2); [by rewrite Ed|lia| |by rewrite <- Et; eauto].
  cbn [elapsed foldr] in Ht. unfold elapsed. lia.
Qed.

(** C19: over HTTP/1, where the request is the only one of its connection, the tunnel is
    over within the client listener timeout of the request, however busy its stream is: the
    timer runs over the [listen] that moves the bytes.  It never panics, and the tunnel is
    the one that the request left. *)
Theorem http1_tunnel_bounded parse_request uri_from_str uri_build request_ok canonical_reason
    host port_u16 to_str from_u16 (a : option Authenticator) (timeout : Z)
    (lim : option ConnectionLimiter) (run : TunnelRun) (codec : Http1Codec) (b : bytes) (inputs : list H1Input) :
  hc_state codec = RequestInProgress b -> ru_waiting run < timeout ->
  Forall (fun i => match i with H1Elapsed d => 0 <= d | _ => True end) inputs ->
  timeout <= ru_waiting run + h1_elapsed inputs ->
  exists x run' codec',
    h1_tunnel_listen parse_request uri_from_str uri_build request_ok canonical_reason host port_u16 to_str from_u16 a timeout
      lim run codec inputs = Ret (Returned x run', codec', lim) /\ ru_tunnel run' = ru_tunnel run.
Proof.
  revert run codec b. induction inputs as [|i inputs IH]; intros run codec b Es Hw Hd Ht; [cbn in Ht; lia|].
  apply Forall_cons in Hd as [Hi Hd]. cbn [h1_tunnel_listen]. destruct i as [ev env net|down up ds ur eof|d]; cbn [h1_elapsed foldr] in Ht.
  - destruct (in_progress_listens parse_request uri_from_str uri_build request_ok canonical_reason ev env codec b Es)
      as (r & codec1 & E & Hr). rewrite E. cbn [bindM].
    apply (in_progress_round _ _ _ _ _ _ _ _ _ _ _ Es) in E as (_ & _ & b' & Es').
    destruct r as [r|]; cbn [fmap option_fmap option_map]; [|by apply (IH run codec1 b')].
    destruct (other_outcome host port_u16 to_str from_u16 a timeout lim run (listened r) net) as (e & run' & -> & Et).
    { intros q. destruct r as [[]|]; done. }
    cbn [bindM]. eauto.
  - cbn [bindM]. by apply (IH _ _ b).
  - cbn [bindM]. destruct (quiet_input host port_u16 to_str from_u16 a timeout lim run (InElapsed d) Hi Hw)
      as [(run' & -> & Et & _ & Hw' & Hlt)|(run' & -> & Et & _)]; cbn [bindM]; [|eauto].
    destruct (IH run' codec b) as (x & run2 & codec2 & -> & Et2); [done..| |by rewrite <- Et; eauto].
    cbn [input_elapsed] in Hw'. unfold h1_elapsed. lia.
Qed.

(** Without ICMP in the settings a request for the ICMP multiplexer is accepted, with a
    success response, before it turns out that there is no forwarder: the request is not
    handed back, so its failure is answered by nothing. *)
Lemma icmp_without_forwarder client connect health forward exchange make_udp fa host port_u16 to_str self r :
  req_method r = str "CONNECT" -> req_authority r = Some ICMP_AUTHORITY ->
  let env := request_env host port_u16 to_str self r
    (direct_env (Ok client) connect health (Ret (Ok tt)) forward exchange make_udp None) in
  on_datagram_mux_request (rq_mux env) fa (rq_tls_domain env)
    = ((match fa with Some s => [EvCheckAuth client (hd_tls_domain self) s (user_agent to_str r)] | None => [] end)
         ++ [EvPromote; EvMakeIcmp], Ret (Err (false, OtherError))) /\
  (answer (on_datagram_mux_request (rq_mux env) fa (rq_tls_domain env))).2 = Ret None.
Proof.
  intros Hm Ha. assert (mux_promote r (Ret (Ok tt)) = Ret (Ok IcmpHalves)) as Hp.
  { unfold mux_promote, request_authority. by rewrite Ha. }
  unfold request_env, direct_env. cbn [rq_mux rq_tls_domain ne_respond]. rewrite Hp. by destruct fa.
Qed.

Module SessionSample.

Definition downstream : HttpDownstream :=
  mkDownstream (mkDemux None true (Some (str "/ping")) false None None) 407 None None (str "vpn.example").
Definition net : NetworkEnv :=
  direct_env (Ok (IpV4 [192; 0; 2; 1])) (fun _ => Ret (Some (Ok tt))) (Ret (Ok tt)) (Ret (Ok tt)) (Ret (Ok tt)) (Ret (Ok tt))
    (Ret (Ok tt)) None.
Definition request : HttpRequest :=
  mkHttpRequest (str "CONNECT") (Some (str "192.0.2.7:443")) [] [(str "proxy-authorization", str "Basic " ++ sample_creds)].
Definition ping : HttpRequest := mkHttpRequest (str "GET") (Some (str "example.org")) (str "/ping") [].
Definition opened : TunnelRun := tunnel_new downstream (mkTunnel DefaultPolicy None Http2).
Definition limits : ConnectionLimiter := limiter_new Base64Ref.b64_encode [sample_client] None None.
Definition on_input := tunnel_input (fun a => a) (fun _ => None) Some Some (Some sample_auth) 600.

(** The tunnel after its first request, and the limiter. *)
Definition served : TunnelRun * option ConnectionLimiter :=
  match on_input (Some limits) opened (InCodec (Ok (Some request)) net) with
  | Ret (Listening run, lim) => (run, lim)
  | _ => (opened, None)
  end.

(** A second connection of the same client, whose limit is one. *)
Lemma second_refused : exists run, on_input served.2 opened (InCodec (Ok (Some request)) net)
  = Ret (Returned (Err PermissionDenied) run, served.2).
Proof. eexists. vm_compute. reflexivity. Qed.

(** An HTTP/1 connection that moves bytes both ways all the time. *)
Definition h1_env (read : bytes) : ListenEnv := mkListenEnv (Ok read) (Ok (IpV4 [192; 0; 2; 1])) WroteAll (Ok tt) (Ok tt).
Definition busy : list H1Input :=
  [H1Round EvReadable (h1_env (str "up")) net; H1Elapsed 300; H1Peer (Some (str "down")) None true true false;
   H1Round EvDownload (h1_env []) net; H1Round EvAwaited (h1_env []) net; H1Round EvReadable (h1_env (str "more")) net; H1Elapsed 300;
   H1Round EvReadable (h1_env (str "lost")) net].
Definition codec : Http1Codec := set_h1_taken (set_h1_state (RequestInProgress []) h1_initial).
Definition h1_listen := h1_tunnel_listen sample_parse sample_uri (fun _ _ => None) (fun _ => true) (fun _ => [])
  (fun a => a) (fun _ => None) Some Some (Some sample_auth) 600.

End SessionSample.

Import SessionSample.

Lemma tunnel_sessions_refine_witness :
  lim_inv (default limits served.2) (guards [ru_tunnel served.1]) /\ len (guards [ru_tunnel served.1]) = 1 /\
  exists task s, ru_tasks served.1 = [task] /\ authenticate sample_auth s = Pass /\ uses_only (Some s) (rt_events task).
Proof.
  assert (rtc (session_step (fun a => a) (fun _ => None) Some Some (Some sample_auth) 600) (Some limits, [])
    (served.2, [served.1])) as Hr.
  { eapply rtc_l; [|eapply rtc_l; [|apply rtc_refl]].
    - by apply (ss_open _ _ _ _ _ _ (Some limits) [] downstream Http2 None (Some (mkTunnel DefaultPolicy None Http2))).
    - apply (ss_input _ _ _ _ _ _ (Some limits) [] opened [] (InCodec (Ok (Some request)) net)). vm_compute. reflexivity. }
  destruct (tunnel_sessions_refine (fun a => a) (fun _ => None) Some Some (Some sample_auth) 600 Base64Ref.b64_encode
    [sample_client] None None true served.2 [served.1] Hr) as (_ & Hl & Ha).
  split; [apply Hl; vm_compute; reflexivity|]. split; [vm_compute; reflexivity|].
  destruct (ru_tasks served.1) as [|task [|]] eqn:Et; [vm_compute in Et; discriminate| |vm_compute in Et; discriminate].
  destruct (Ha sample_auth served.1 task) as (s & Hs & Hu); [done|left|rewrite Et; left| |by exists task, s].
  intros He. assert (rt_events <$> ru_tasks served.1 = [[]]) as E by (rewrite Et; cbn; by rewrite He).
  vm_compute in E. discriminate.
Defined.

Lemma quiet_tunnel_times_out_witness :
  exists run', tunnel_listen (fun a => a) (fun _ => None) Some Some (Some sample_auth) 600 served.2 served.1
    [InElapsed 400; InCodec (Ok (Some ping)) net; InElapsed 200] = Ret (Returned (Err TimedOut) run', served.2) /\
  ru_services run' = [PingTask ping] /\ ru_tunnel run' = ru_tunnel served.1.
Proof.
  destruct (quiet_tunnel_times_out (fun a => a) (fun _ => None) Some Some (Some sample_auth) 600 served.2 served.1
    [InElapsed 400; InCodec (Ok (Some ping)) net; InElapsed 200]) as (run' & E & Et).
  - repeat constructor; [done|vm_compute; eauto|done].
  - vm_compute. reflexivity.
  - vm_compute. discriminate.
  - exists run'. split_and!; [exact E| |exact Et]. vm_compute in E. injection E as <-. reflexivity.
Defined.

Lemma http1_tunnel_bounded_witness :
  exists run' codec', h1_listen served.2 served.1 codec busy = Ret (Returned (Err TimedOut) run', codec', served.2) /\
  hc_in codec' = str "upmore" /\ hc_out codec' = str "down" /\ ru_tunnel run' = ru_tunnel served.1.
Proof.
  destruct (http1_tunnel_bounded sample_parse sample_uri (fun _ _ => None) (fun _ => true) (fun _ => [])
    (fun a => a) (fun _ => None) Some Some (Some sample_auth) 600 served.2 served.1 codec [] busy)
    as (x & run' & codec' & E & Et).
  - reflexivity.
  - vm_compute. reflexivity.
  - repeat constructor; done.
  - vm_compute. discriminate.
  - exists run', codec'. vm_compute in E. injection E as <- <- <-. split_and!; [vm_compute; reflexivity..|exact Et].
Defined.
