(* ===== verification/Core.v ===== *)
(** * The core

    lib/src/core.rs: how a connection is accepted, filtered, routed and turned into a
    tunnel session or given to a service, with the metrics, the connection limiter and the
    numbering that all connections share; how the endpoint stops.  It composes
    [Rules], [TlsDemux], [Auth], [Tunnel] and [Metrics]; the identifiers of
    lib/src/log_utils.rs are here too, since they key the table of the clients. *)

From S2P Require Import Prelude.
From S2P Require Import Codecs.
From S2P Require Import Varint.
From S2P Require Import NetUtils.
From S2P Require Import Rules.
From S2P Require Import Auth.
From S2P Require Import Tunnel.
From S2P Require Import Pipe.
From S2P Require Import ForwardedStream.
From S2P Require Import TcpForwarder.
From S2P Require Import TlsDemux.
From S2P Require Import Http1Codec.
From S2P Require Import ReverseProxy.
From S2P Require Import Settings.
From S2P Require Import Services.
From S2P Require Import Quic.
From S2P Require Import Http2Codec.
From S2P Require Import Metrics.
From S2P Require Import ClientConfig.

(** ** Identifiers *)

(** An item of the chain: the text before and after the braces of its format, and the
    number. *)
Record IdItem : Type := mkIdItem { id_before : bytes; id_after : bytes; id_number : Z }.

Definition IdChain : Type := list IdItem.

Definition CLIENT_ID_FMT : bytes * bytes := (str "CLIENT=", []).
Definition TUNNEL_ID_FMT : bytes * bytes := (str "TUN=", []).
Definition CONNECTION_ID_FMT : bytes * bytes := (str "CONN=", []).

Definition id_item (fmt : bytes * bytes) (id : Z) : IdItem := mkIdItem fmt.1 fmt.2 id.

Definition extended (self : IdChain) (new : IdItem) : IdChain := self ++ [new].

Definition id_item_text (i : IdItem) : bytes := id_before i ++ decimal (id_number i) ++ id_after i.

(** [Display] of a chain. *)
Definition id_chain_text (self : IdChain) : bytes :=
  foldl (fun acc i => if negb (len acc =? 0) then acc ++ [0x2F] ++ id_item_text i else id_item_text i) [] self.

(** ** Errors that end the endpoint *)

Record IoError : Type := mkIoError { ioe_kind : ErrorKind; ioe_raw_os_error : option Z; ioe_message : bytes }.

Definition EMFILE : Z := 24.
Definition ENFILE : Z := 23.

Record FatalIoError : Type := mkFatal { fe_kind : ErrorKind; fe_raw_os_error : option Z; fe_message : bytes }.

Definition from_io_error (e : IoError) : FatalIoError := mkFatal (ioe_kind e) (ioe_raw_os_error e) (ioe_message e).

(** An error made by [io::Error::new] has no code of the system. *)
Definition into_io_error (self : FatalIoError) : IoError :=
  match fe_raw_os_error self with
  | Some code => mkIoError (fe_kind self) None (fe_message self ++ str " (os error " ++ decimal code ++ str ")")
  | None => mkIoError (fe_kind self) None (fe_message self)
  end.

Definition is_too_many_open_files_error (e : IoError) : bool :=
  match ioe_raw_os_error e with Some code => (code =? EMFILE) || (code =? ENFILE) | None => false end.

(** [report_fatal_if_too_many_open_files] of lib/src/tunnel.rs: what the channel of fatal
    errors holds afterwards; [e] is the I/O error of a failed request, if it is one. *)
Definition report_fatal_if_too_many_open_files (e : option IoError) (fatal : option FatalIoError) : option FatalIoError :=
  match e with
  | Some io => if is_too_many_open_files_error io then Some (from_io_error io) else fatal
  | None => fatal
  end.

(** What ends [Core::listen]: the notification of the shutdown, a change of the fatal
    error, or one of the listeners. *)
Inductive CoreEvent : Type :=
| ShutdownNotified (r : result unit unit)
| FatalChanged (closed : bool) (fatal : option FatalIoError)
| ListenersEnded (r : result IoError unit).

Definition other_error : IoError := mkIoError Other None [].

(** [guard] is whether the shutdown still gave a completion guard. *)
Definition core_listen (guard : bool) (e : CoreEvent) : result IoError unit :=
  if negb guard then Err other_error
  else
    match e with
    | ShutdownNotified (Ok _) => Ok tt
    | ShutdownNotified (Err _) => Err other_error
    | FatalChanged true _ => Err other_error
    | FatalChanged false (Some e) => Err (into_io_error e)
    | FatalChanged false None => Err other_error
    | ListenersEnded r => r
    end.

(** ** Accepting TCP connections *)

(** [listen_tcp] after [accept]: the address of a client to go on with, or nothing when
    there is no codec for TCP ("accept just for pings") or the accept failed. *)
Definition accepted_client (http1 http2 : bool) (accept : result ErrorKind IpAddr) : option IpAddr :=
  match accept with
  | Ok ip => if http1 || http2 then Some (unmap_ipv6 ip) else None
  | Err _ => None
  end.

(** [listen_udp] and [listen_icmp] return at once when they have nothing to listen to. *)
Definition listens_udp (s : Settings) : bool := bool_decide (is_Some (lp_quic (st_listen_protocols s))).

Inductive CodecKind : Type := CodecHttp1 | CodecHttp2 | CodecHttp3.

(** [h2_builder] is whether the builder of [h2] takes the settings, and [peer_addr] the
    outcome of asking the stream for the address of its peer. *)
Definition make_tcp_http_codec (h2_builder : Http2Settings -> bool) (listen_protocols : ListenProtocolSettings)
    (protocol : TlsProtocol) (peer_addr : result ErrorKind IpAddr) : M (result ErrorKind CodecKind) :=
  match protocol with
  | Http1 => let! _ := h1_new (upload_buffer_size <$> lp_http1 listen_protocols) in Ret (Ok CodecHttp1)
  | Http2 => let!? _ := h2_new h2_builder (lp_http2 listen_protocols) peer_addr in Ret (Ok CodecHttp2)
  | Http3 => Panic
  end.

Inductive ForwarderKind : Type := DirectForwarder | Socks5Forwarder.

Definition make_forwarder (s : Settings) : ForwarderKind :=
  match st_forward_protocol s with DirectForward => DirectForwarder | Socks5Forward _ => Socks5Forwarder end.

(** ** Connections *)

Inductive DropReason : Type :=
| NoSni
| DeniedByRules
| UnexpectedProtocol
| DemuxFailed
| TlsFailed (e : ErrorKind)
| TlsTimedOut
| CodecFailed (e : ErrorKind).

(** A TLS connection: the address of the client, what its hello says, and the outcomes of
    the handshake ([None] when it times out) and of asking the stream for its peer. *)
Record TlsConnection : Type := mkTlsConnection {
  tc_client_ip : IpAddr;
  tc_sni : option bytes;
  tc_client_random : option bytes;
  tc_alpn : list bytes;
  tc_accept : option (result ErrorKind unit);
  tc_peer_addr : result ErrorKind IpAddr;
}.

(** A QUIC connection that the multiplexer completed, with the meta it selected. *)
Record QuicConnection (Identity : Type) : Type := mkQuicConnection {
  qc_peer_ip : option IpAddr;
  qc_client_random : bytes;
  qc_meta : ConnectionMeta Identity;
}.
Arguments mkQuicConnection {Identity}.
Arguments qc_peer_ip {Identity}.
Arguments qc_client_random {Identity}.
Arguments qc_meta {Identity}.

(** What became of a connection. *)
Inductive Handled : Type :=
| ConnectionDropped (r : DropReason)
| TunnelOpened (codec : CodecKind)
| TunnelRefused
| ServedBy (channel : Channel) (codec : CodecKind) (sni : bytes).

Section core.
Context {GV CV : Type} `{!MetricVec GV, !MetricVec CV} {Identity : Type}.
(** The rules engine of the settings, with what it needs, and the authenticator. *)
Context (ipnet : bytes -> option (IpAddr -> bool)) (hex_decode : bytes -> option bytes)
  (hkdf : bytes -> bytes -> bytes -> option bytes) (sha256 : bytes -> bytes)
  (aes_128_ecb : bytes -> bytes -> option bytes) (b64_decode : bytes -> option bytes).
Context (rules_engine : option RulesEngine) (authenticator : option Authenticator).
(** The settings of the protocols, and what the builder of [h2] takes of them. *)
Context (h2_builder : Http2Settings -> bool) (listen_protocols : ListenProtocolSettings).

Definition connection_rules (client_ip : option IpAddr) (client_random sni : option bytes) : M (result unit unit) :=
  evaluate_connection_rules (evaluate ipnet hex_decode hkdf sha256 aes_128_ecb <$> rules_engine) client_ip client_random sni.

(** A session of a tunnel with its metrics guard. *)
Record Session : Type := mkSession { se_tunnel : TunnelState; se_guard : ClientSessionsCounter }.

(** What the connections share. *)
Record Shared : Type := mkShared {
  sh_metrics : Metrics GV CV;
  sh_limiter : option ConnectionLimiter;
  sh_next_client_id : Z;
  sh_next_tunnel_id : Z;
  sh_sessions : list Session;
}.

(** The start of [on_tunnel_request], up to [tunnel.listen]: the session, unless the tunnel
    is refused. *)
Definition on_tunnel_request (protocol : TlsProtocol) (sni_auth_creds : option bytes) (conn_key : bytes) (s : Shared)
  : option Session * Shared :=
  let username_for_counter :=
    match authenticator, sni_auth_creds with
    | Some authenticator, Some creds => auth_username authenticator (Sni creds)
    | _, _ => None
    end in
  let (guard, metrics) := client_sessions_counter protocol conn_key username_for_counter (sh_metrics s) in
  match open_tunnel authenticator (sh_limiter s) protocol sni_auth_creds with
  | (Some tunnel, limiter) =>
      let session := mkSession tunnel guard in
      (Some session, mkShared metrics limiter (sh_next_client_id s) (sh_next_tunnel_id s) (session :: sh_sessions s))
  | (None, limiter) =>
      (None, mkShared (sessions_counter_drop guard metrics) limiter (sh_next_client_id s) (sh_next_tunnel_id s) (sh_sessions s))
  end.

Definition with_metrics (m : Metrics GV CV) (s : Shared) : Shared :=
  mkShared m (sh_limiter s) (sh_next_client_id s) (sh_next_tunnel_id s) (sh_sessions s).

(** [fetch_add]. *)
Definition take_tunnel_id (s : Shared) : Z * Shared :=
  (sh_next_tunnel_id s,
   mkShared (sh_metrics s) (sh_limiter s) (sh_next_client_id s) (as_u64 (sh_next_tunnel_id s + 1)) (sh_sessions s)).

Definition take_client_id (s : Shared) : Z * Shared :=
  (sh_next_client_id s,
   mkShared (sh_metrics s) (sh_limiter s) (as_u64 (sh_next_client_id s + 1)) (sh_next_tunnel_id s) (sh_sessions s)).

Definition conn_key (client_id tunnel_id : Z) : bytes :=
  id_chain_text (extended [id_item CLIENT_ID_FMT client_id] (id_item TUNNEL_ID_FMT tunnel_id)).

(** [on_new_tls_connection] up to the TLS session: what the connection is for. *)
Definition admit_tls (demux : TlsDemux Identity) (c : TlsConnection) : M (result DropReason (ConnectionMeta Identity)) :=
  match tc_sni c with
  | None => Ret (Err NoSni)
  | Some sni =>
      let! r := connection_rules (Some (tc_client_ip c)) (tc_client_random c) (Some sni) in
      match r with
      | Err _ => Ret (Err DeniedByRules)
      | Ok _ =>
          let! m := select demux (tc_alpn c) sni in
          match m with
          | Err _ => Ret (Err DemuxFailed)
          | Ok meta =>
              if bool_decide (cm_protocol meta = Http3) then Ret (Err UnexpectedProtocol)
              else
                match tc_accept c with
                | None => Ret (Err TlsTimedOut)
                | Some (Err e) => Ret (Err (TlsFailed e))
                | Some (Ok _) => Ret (Ok meta)
                end
          end
      end
  end.

(** A service over a codec of its own. *)
Definition serve_channel (meta : ConnectionMeta Identity) (peer_addr : result ErrorKind IpAddr) (s : Shared)
  : M (Handled * Shared) :=
  let! codec := make_tcp_http_codec h2_builder listen_protocols (cm_protocol meta) peer_addr in
  match codec with
  | Err e => Ret (ConnectionDropped (CodecFailed e), s)
  | Ok codec => Ret (ServedBy (cm_channel meta) codec (cm_sni meta), s)
  end.

(** [on_new_tls_connection] of the client [client_id]. *)
Definition on_new_tls_connection (demux : TlsDemux Identity) (c : TlsConnection) (client_id : Z) (s : Shared)
  : M (Handled * Shared) :=
  let! admitted := admit_tls demux c in
  match admitted with
  | Err r => Ret (ConnectionDropped r, s)
  | Ok meta =>
      match cm_channel meta with
      | ChTunnel =>
          let (tunnel_id, s) := take_tunnel_id s in
          let key := conn_key client_id tunnel_id in
          let s := with_metrics (register_connection key (Some (tc_client_ip c)) (sh_metrics s)) s in
          let! codec := make_tcp_http_codec h2_builder listen_protocols (cm_protocol meta) (tc_peer_addr c) in
          match codec with
          | Err e =>
              Ret (ConnectionDropped (CodecFailed e), with_metrics (unregister_connection key (sh_metrics s)) s)
          | Ok codec =>
              let (session, s) := on_tunnel_request (cm_protocol meta) (cm_sni_auth_creds meta) key s in
              Ret (match session with Some _ => TunnelOpened codec | None => TunnelRefused end, s)
          end
      | ChSubscription => Panic
      | _ => serve_channel meta (tc_peer_addr c) s
      end
  end.

Definition on_new_quic_connection (c : QuicConnection Identity) (client_id : Z) (s : Shared) : M (Handled * Shared) :=
  let client_ip := unmap_ipv6 <$> qc_peer_ip c in
  let meta := qc_meta c in
  let! r := connection_rules client_ip (Some (qc_client_random c)) (Some (cm_sni meta)) in
  match r with
  | Err _ => Ret (ConnectionDropped DeniedByRules, s)
  | Ok _ =>
      match cm_channel meta with
      | ChTunnel =>
          let (tunnel_id, s) := take_tunnel_id s in
          let key := conn_key client_id tunnel_id in
          let s := with_metrics (register_connection key client_ip (sh_metrics s)) s in
          let (session, s) := on_tunnel_request (cm_protocol meta) (cm_sni_auth_creds meta) key s in
          Ret (match session with Some _ => TunnelOpened CodecHttp3 | None => TunnelRefused end, s)
      | ChSubscription => Panic
      | channel => Ret (ServedBy channel CodecHttp3 (cm_sni meta), s)
      end
  end.

(** ** Sessions *)

(** The user that the traffic of a request is counted for ([Tunnel::resolve_username]). *)
Definition resolve_username (t : TunnelState) (info : result ErrorKind (option Auth.Source)) : option bytes :=
  match tn_policy t with
  | Authenticated source => match authenticator with Some a => auth_username a source | None => None end
  | DefaultPolicy => match info with Ok (Some source) => decode_username b64_decode (source_creds source) | _ => None end
  end.

(** The user that an accepted request gives its session. *)
Definition request_username (o : Outcome) (info : result ErrorKind (option Auth.Source)) : option bytes :=
  match o, info with
  | RequestPromoted _, Ok (Some source) => decode_username b64_decode (source_creds source)
  | _, _ => None
  end.

Definition relabel (o : Outcome) (info : result ErrorKind (option Auth.Source)) (g : ClientSessionsCounter) (m : Metrics GV CV)
  : Metrics GV CV :=
  match request_username o info with
  | Some u => transfer_session_username (sc_protocol g) (sc_conn_id g) (Some u) m
  | None => m
  end.

(** The end of a session: the tunnel's slot and the metrics guard are given back. *)
Definition end_session (x : Session) (s : Shared) (rest : list Session) : Shared :=
  mkShared (sessions_counter_drop (se_guard x) (sh_metrics s)) (close_tunnel (sh_limiter s) (se_tunnel x))
    (sh_next_client_id s) (sh_next_tunnel_id s) rest.

(** The steps of the endpoint: a connection of either kind arrives, a request arrives on a
    session, which may end it, a session ends, a request of a session that has ended is
    still to relabel it, and a request moves bytes or opens and closes sockets. *)
Inductive core_step : Shared -> Shared -> Prop :=
| cs_client s : core_step s (snd (take_client_id s))
| cs_tls demux c client_id s r s' :
    sh_next_tunnel_id s + 1 < 2 ^ 64 -> len (sh_sessions s) + 1 < 2 ^ 32 ->
    on_new_tls_connection demux c client_id s = Ret (r, s') -> core_step s s'
| cs_quic c client_id s r s' :
    sh_next_tunnel_id s + 1 < 2 ^ 64 -> len (sh_sessions s) + 1 < 2 ^ 32 ->
    on_new_quic_connection c client_id s = Ret (r, s') -> core_step s s'
| cs_request m lim nc nt l1 x l2 info o t' lim' :
    handle_request authenticator lim (se_tunnel x) info = (o, Some t', lim') ->
    core_step (mkShared m lim nc nt (l1 ++ x :: l2))
      (mkShared (relabel o info (se_guard x) m) lim' nc nt (l1 ++ mkSession t' (se_guard x) :: l2))
| cs_over_limit m lim nc nt l1 x l2 info o lim' :
    handle_request authenticator lim (se_tunnel x) info = (o, None, lim') ->
    core_step (mkShared m lim nc nt (l1 ++ x :: l2)) (end_session x (mkShared m lim' nc nt (l1 ++ x :: l2)) (l1 ++ l2))
| cs_end m lim nc nt l1 x l2 :
    core_step (mkShared m lim nc nt (l1 ++ x :: l2)) (end_session x (mkShared m lim nc nt (l1 ++ x :: l2)) (l1 ++ l2))
| cs_late_relabel s protocol key username :
    key ∉ (sc_conn_id ∘ se_guard) <$> sh_sessions s ->
    core_step s (with_metrics (transfer_session_username protocol key username (sh_metrics s)) s)
| cs_inbound s protocol username n :
    core_step s (with_metrics (add_inbound_bytes protocol username n (sh_metrics s)) s)
| cs_outbound s protocol username n :
    core_step s (with_metrics (add_outbound_bytes protocol username n (sh_metrics s)) s).

(** A core that was just created. *)
Definition core_initial (m : Metrics GV CV) (limiter : option ConnectionLimiter) : Shared := mkShared m limiter 0 0 [].

End core.

(** ** Keys of the connections *)

Lemma conn_key_text c t : conn_key c t = (str "CLIENT=" ++ decimal c ++ str "/TUN") ++ 0x3D :: decimal t.
Proof.
  unfold conn_key, id_chain_text, extended, id_item, id_item_text. cbn [foldl app fst snd CLIENT_ID_FMT TUNNEL_ID_FMT id_before id_after id_number].
  rewrite !app_nil_r. change (negb (len [] =? 0)) with false. cbn iota.
  change (negb (len (str "CLIENT=" ++ decimal c) =? 0)) with true. cbn iota. by rewrite <- !app_assoc.
Qed.

Lemma decimal_inj a b : 0 <= a < 2 ^ 64 -> 0 <= b < 2 ^ 64 -> decimal a = decimal b -> a = b.
Proof. intros Ha Hb E. apply decimal_parse in Ha, Hb. rewrite E in Ha. congruence. Qed.

Lemma decimal_no_equals n : 0 <= n < 2 ^ 64 -> 0x3D ∉ decimal n.
Proof.
  intros Hn Hin. destruct (decimal_digits_spec 20 n []) as (ds & E & _ & Hd & _); [lia|lia|].
  unfold decimal in Hin. rewrite E, app_nil_r in Hin. rewrite forallb_forall in Hd.
  apply list_elem_of_In, Hd in Hin. done.
Qed.

(** Two tunnels have different keys. *)
Lemma conn_key_inj c1 t1 c2 t2 :
  0 <= t1 < 2 ^ 64 -> 0 <= t2 < 2 ^ 64 -> conn_key c1 t1 = conn_key c2 t2 -> t1 = t2.
Proof.
  intros H1 H2. rewrite !conn_key_text. intros E.
  assert (rsplit_once 0x3D ((str "CLIENT=" ++ decimal c1 ++ str "/TUN") ++ 0x3D :: decimal t1)
    = rsplit_once 0x3D ((str "CLIENT=" ++ decimal c2 ++ str "/TUN") ++ 0x3D :: decimal t2)) as Er by (by rewrite E).
  rewrite !rsplit_once_app in Er by (by apply decimal_no_equals). injection Er as _ Er. by apply decimal_inj.
Qed.

(** ** The metrics and the limiter of the endpoint

    Every step of the endpoint is a run of the metrics and of the tunnels. *)
Section core_proofs.
Context {GV CV : Type} `{!MetricVec GV, !MetricVec CV} {Identity : Type}.
Context {ipnet : bytes -> option (IpAddr -> bool)} {hex_decode : bytes -> option bytes}
  {hkdf : bytes -> bytes -> bytes -> option bytes} {sha256 : bytes -> bytes}
  {aes_128_ecb : bytes -> bytes -> option bytes} {b64_decode : bytes -> option bytes}.
Context {rules_engine : option RulesEngine} {authenticator : option Authenticator}.
Context {h2_builder : Http2Settings -> bool} {listen_protocols : ListenProtocolSettings}.

Abbreviation Shared := (Shared (GV := GV) (CV := CV)).
Abbreviation step := (core_step (Identity := Identity) ipnet hex_decode hkdf sha256 aes_128_ecb b64_decode rules_engine authenticator
  h2_builder listen_protocols).

Definition session_guards (s : Shared) : list ClientSessionsCounter := se_guard <$> sh_sessions s.

Definition metrics_of (s : Shared) : MetricsWorld := mkMetricsWorld (sh_metrics s) (session_guards s) [] 0 0.

Definition tunnels_of (s : Shared) : option ConnectionLimiter * list TunnelState :=
  (sh_limiter s, se_tunnel <$> sh_sessions s).

(** The keys of the sessions are those of tunnel numbers that were given out. *)
Definition keys_ok (s : Shared) : Prop :=
  0 <= sh_next_tunnel_id s < 2 ^ 64 /\
  forall x, x ∈ sh_sessions s -> exists c t, sc_conn_id (se_guard x) = conn_key c t /\ 0 <= t < sh_next_tunnel_id s.

Definition simulated (s s' : Shared) : Prop :=
  rtc metrics_step (metrics_of s) (metrics_of s') /\ rtc (tun_step authenticator) (tunnels_of s) (tunnels_of s') /\ keys_ok s'.

Lemma keys_fresh s c : keys_ok s -> conn_key c (sh_next_tunnel_id s) ∉ sc_conn_id <$> session_guards s.
Proof.
  intros [Hn Hk] Hin. unfold session_guards in Hin. rewrite <- list_fmap_compose in Hin.
  apply list_elem_of_fmap in Hin as (x & E & Hx). destruct (Hk x Hx) as (c' & t & E' & Ht). cbn in E.
  rewrite E' in E. apply conn_key_inj in E; lia.
Qed.

(** A tunnel that was numbered and registered: opened, or refused without a trace. *)
Lemma on_tunnel_request_sim s c ip protocol creds session s' :
  keys_ok s -> sh_next_tunnel_id s + 1 < 2 ^ 64 -> len (sh_sessions s) + 1 < 2 ^ 32 ->
  let key := conn_key c (sh_next_tunnel_id s) in
  let s1 := snd (take_tunnel_id s) in
  on_tunnel_request authenticator protocol creds key (with_metrics (register_connection key ip (sh_metrics s1)) s1)
    = (session, s') -> simulated s s'.
Proof.
  intros Hk Hnt Hlen key s1. unfold on_tunnel_request.
  set (u := match authenticator with Some _ => _ | None => _ end).
  cbn [sh_metrics with_metrics sh_limiter sh_next_client_id sh_next_tunnel_id sh_sessions s1 take_tunnel_id snd].
  destruct (client_sessions_counter protocol key u (register_connection key ip (sh_metrics s))) as [g m] eqn:Eg.
  assert (metrics_step (metrics_of s) (mkMetricsWorld (register_connection key ip (sh_metrics s)) (session_guards s) [key] 0 0)) as H1.
  { apply ms_register. rewrite app_nil_r. by apply keys_fresh. }
  assert (metrics_step (mkMetricsWorld (register_connection key ip (sh_metrics s)) (session_guards s) [key] 0 0)
    (mkMetricsWorld m (g :: session_guards s) [] 0 0)) as H2 by (by apply (ms_session _ _ [] key [] 0 0 protocol u g m)).
  assert (sc_conn_id g = key) as Hkey by (by injection Eg as <- _).
  destruct Hk as [Hn Hk].
  assert (as_u64 (sh_next_tunnel_id s + 1) = sh_next_tunnel_id s + 1) as Hwrap by (unfold as_u64; rewrite Z.mod_small; lia).
  assert (len (se_tunnel <$> sh_sessions s) + 1 < 2 ^ 32) as Hlen' by (unfold len in *; rewrite length_fmap; lia).
  destruct (open_tunnel authenticator (sh_limiter s) protocol creds) as [[tunnel|] limiter] eqn:Eo; intros [= <- <-].
  - split_and!.
    + eapply rtc_l; [exact H1|]. by apply rtc_once.
    + apply rtc_once. unfold tunnels_of. cbn [sh_limiter sh_sessions]. rewrite fmap_cons. cbn [se_tunnel].
      by apply (tun_open _ (sh_limiter s) (se_tunnel <$> sh_sessions s) protocol creds (Some tunnel) limiter).
    + split; cbn; [rewrite Hwrap; lia|]. intros x [->|Hx]%elem_of_cons; cbn.
      * exists c, (sh_next_tunnel_id s). rewrite Hkey, Hwrap. split; [done|lia].
      * destruct (Hk x Hx) as (c' & t & E & Ht). exists c', t. rewrite Hwrap. split; [done|lia].
  - split_and!.
    + eapply rtc_l; [exact H1|]. eapply rtc_l; [exact H2|]. apply rtc_once.
      apply (ms_drop m [] g (session_guards s) [] 0 0).
    + apply rtc_once. unfold tunnels_of. cbn [sh_limiter sh_sessions].
      change (se_tunnel <$> sh_sessions s) with (opt_list (@None TunnelState) ++ (se_tunnel <$> sh_sessions s)) at 2.
      by eapply tun_open.
    + split; cbn; [rewrite Hwrap; lia|]. intros x Hx. destruct (Hk x Hx) as (c' & t & E & Ht).
      exists c', t. rewrite Hwrap. split; [done|lia].
Qed.

(** A tunnel whose codec fails is unregistered. *)
Lemma unregister_sim s c ip :
  keys_ok s -> sh_next_tunnel_id s + 1 < 2 ^ 64 ->
  let key := conn_key c (sh_next_tunnel_id s) in
  let s1 := snd (take_tunnel_id s) in
  simulated s (with_metrics (unregister_connection key (register_connection key ip (sh_metrics s1))) s1).
Proof.
  intros Hk Hnt key s1. split_and!.
  - eapply rtc_l; [apply (ms_register _ _ _ _ _ key ip); rewrite app_nil_r; by apply keys_fresh|].
    apply rtc_once. apply (ms_unregister _ _ [] key []).
  - apply rtc_refl.
  - destruct Hk as [Hn Hk]. assert (as_u64 (sh_next_tunnel_id s + 1) = sh_next_tunnel_id s + 1) as Hwrap
      by (unfold as_u64; rewrite Z.mod_small; lia).
    split; cbn; [rewrite Hwrap; lia|]. intros x Hx. destruct (Hk x Hx) as (c' & t & E & Ht).
    exists c', t. rewrite Hwrap. split; [done|lia].
Qed.

Lemma simulated_refl s : keys_ok s -> simulated s s.
Proof. intros Hk. split_and!; [apply rtc_refl|apply rtc_refl|done]. Qed.

Lemma tls_connection_sim demux c client_id s r s' :
  keys_ok s -> sh_next_tunnel_id s + 1 < 2 ^ 64 -> len (sh_sessions s) + 1 < 2 ^ 32 ->
  on_new_tls_connection (Identity := Identity) ipnet hex_decode hkdf sha256 aes_128_ecb rules_engine authenticator
    h2_builder listen_protocols demux c client_id s = Ret (r, s') ->
  simulated s s'.
Proof.
  intros Hk Hnt Hlen. unfold on_new_tls_connection.
  destruct (admit_tls _ _ _ _ _ _ demux c) as [[meta|e]|]; cbn [bindM]; [|intros [= _ <-]; by apply simulated_refl|done].
  assert (serve_channel h2_builder listen_protocols meta (tc_peer_addr c) s = Ret (r, s') -> simulated s s') as Hserve.
  { unfold serve_channel. destruct (make_tcp_http_codec _ _ _ _) as [[k|e]|]; cbn [bindM]; [| |done];
      intros [= _ <-]; by apply simulated_refl. }
  destruct (cm_channel meta); [|exact Hserve|exact Hserve|exact Hserve|done].
  cbn [take_tunnel_id]. destruct (make_tcp_http_codec _ _ _ _) as [[k|e]|]; cbn [bindM]; [| |done].
  - destruct (on_tunnel_request _ _ _ _ _) as [session s2] eqn:E. intros [= _ <-].
    by apply (on_tunnel_request_sim s client_id (Some (tc_client_ip c)) (cm_protocol meta) (cm_sni_auth_creds meta) session).
  - intros [= _ <-]. by apply (unregister_sim s client_id (Some (tc_client_ip c))).
Qed.

Lemma quic_connection_sim c client_id s r s' :
  keys_ok s -> sh_next_tunnel_id s + 1 < 2 ^ 64 -> len (sh_sessions s) + 1 < 2 ^ 32 ->
  on_new_quic_connection (Identity := Identity) ipnet hex_decode hkdf sha256 aes_128_ecb rules_engine authenticator c client_id s = Ret (r, s') ->
  simulated s s'.
Proof.
  intros Hk Hnt Hlen. unfold on_new_quic_connection.
  destruct (connection_rules _ _ _ _ _ _ _ _ _) as [[x|e]|]; cbn [bindM]; [|intros [= _ <-]; by apply simulated_refl|done].
  destruct (cm_channel (qc_meta c)); [|intros [= _ <-]; by apply simulated_refl..|done].
  cbn [take_tunnel_id]. destruct (on_tunnel_request _ _ _ _ _) as [session s2] eqn:E. intros [= _ <-].
  by eapply (on_tunnel_request_sim s client_id (unmap_ipv6 <$> qc_peer_ip c)).
Qed.

Lemma keys_ok_change s s' :
  keys_ok s -> sh_next_tunnel_id s' = sh_next_tunnel_id s ->
  (forall g, g ∈ session_guards s' -> g ∈ session_guards s) -> keys_ok s'.
Proof.
  intros [Hn Hk] E Hsub. split; [by rewrite E|]. intros x Hx. rewrite E.
  destruct (list_elem_of_fmap_1 se_guard (sh_sessions s) (se_guard x)) as (y & Ey & Hy).
  { apply Hsub. unfold session_guards. by apply list_elem_of_fmap_2. }
  destruct (Hk y Hy) as (c & t & Ek & Ht). exists c, t. by rewrite Ey.
Qed.

Lemma relabel_sim (m : Metrics GV CV) live g o info :
  g ∈ live -> rtc metrics_step (mkMetricsWorld m live [] 0 0) (mkMetricsWorld (relabel b64_decode o info g m) live [] 0 0).
Proof.
  intros Hg. unfold relabel. destruct (request_username b64_decode o info); [|apply rtc_refl].
  apply rtc_once. by apply ms_transfer.
Qed.

Lemma session_guards_middle l1 x l2 m lim nc nt :
  session_guards (mkShared (GV:=GV) (CV:=CV) m lim nc nt (l1 ++ x :: l2)) = (se_guard <$> l1) ++ se_guard x :: (se_guard <$> l2).
Proof. unfold session_guards. cbn [sh_sessions]. by rewrite fmap_app, fmap_cons. Qed.

Lemma tunnels_middle l1 x l2 m lim nc nt :
  tunnels_of (mkShared (GV:=GV) (CV:=CV) m lim nc nt (l1 ++ x :: l2))
    = (lim, (se_tunnel <$> l1) ++ se_tunnel x :: (se_tunnel <$> l2)).
Proof. unfold tunnels_of. cbn [sh_sessions sh_limiter]. by rewrite fmap_app, fmap_cons. Qed.

(** The metrics part of the end of a session. *)
Lemma end_metrics (m : Metrics GV CV) l1 x l2 :
  metrics_step (mkMetricsWorld m ((se_guard <$> l1) ++ se_guard x :: (se_guard <$> l2)) [] 0 0)
    (mkMetricsWorld (sessions_counter_drop (se_guard x) m) ((se_guard <$> l1) ++ (se_guard <$> l2)) [] 0 0).
Proof. apply ms_drop. Qed.

Lemma handle_request_closed lim t info o lim' :
  handle_request authenticator lim t info = (o, None, lim') -> lim' = lim /\ tn_guard t = None.
Proof.
  unfold handle_request. destruct (acquire_slot authenticator lim t info) as [[t1|] lim1] eqn:E.
  - by destruct (authorize _ _ _).
  - intros [= _ <-]. apply acquire_slot_cases in E as [[-> [[_ ?]|?]]|(? & ? & ? & ? & ? & ? & ? & ? & ? & ? & ? & _)]; done.
Qed.

(** Every step is a run of the metrics and a run of the tunnels. *)
Lemma core_step_sim s s' : step s s' -> keys_ok s -> simulated s s'.
Proof.
  intros Hstep Hk. destruct Hstep as [s|demux c id s r s' Hn Hl E|c id s r s' Hn Hl E|m lim nc nt l1 x l2 info o t' lim' E
    |m lim nc nt l1 x l2 info o lim' E|m lim nc nt l1 x l2|s protocol key username Hkey|s protocol username n|s protocol username n].
  - split_and!; [apply rtc_refl|apply rtc_refl|]. by apply (keys_ok_change s).
  - by eapply tls_connection_sim.
  - by eapply quic_connection_sim.
  - split_and!.
    + unfold metrics_of. rewrite !session_guards_middle. cbn [sh_metrics se_guard]. apply relabel_sim. set_solver.
    + apply rtc_once. rewrite !tunnels_middle. cbn [se_tunnel]. by eapply (tun_request _ lim _ (se_tunnel x) _ info o (Some t')).
    + eapply keys_ok_change; [exact Hk|done|]. rewrite !session_guards_middle. done.
  - apply handle_request_closed in E as Hc. destruct Hc as [-> Hg]. split_and!.
    + unfold metrics_of, end_session. rewrite session_guards_middle. cbn [sh_metrics]. unfold session_guards at 1. cbn [sh_sessions].
      rewrite fmap_app. apply rtc_once, end_metrics.
    + apply rtc_once. rewrite tunnels_middle. unfold tunnels_of, end_session. cbn [sh_limiter sh_sessions].
      rewrite fmap_app. assert (close_tunnel lim (se_tunnel x) = lim) as -> by (unfold close_tunnel; rewrite Hg; by destruct lim).
      change (se_tunnel <$> l2) with (opt_list (@None TunnelState) ++ (se_tunnel <$> l2)) at 2. by eapply tun_request.
    + eapply keys_ok_change; [exact Hk|done|]. rewrite session_guards_middle. unfold session_guards, end_session. cbn [sh_sessions].
      rewrite fmap_app. set_solver.
  - split_and!.
    + unfold metrics_of, end_session. rewrite session_guards_middle. cbn [sh_metrics]. unfold session_guards at 1. cbn [sh_sessions].
      rewrite fmap_app. apply rtc_once, end_metrics.
    + apply rtc_once. rewrite tunnels_middle. unfold tunnels_of, end_session. cbn [sh_limiter sh_sessions].
      rewrite fmap_app. apply tun_close.
    + eapply keys_ok_change; [exact Hk|done|]. rewrite session_guards_middle. unfold session_guards, end_session. cbn [sh_sessions].
      rewrite fmap_app. set_solver.
  - split_and!; [|apply rtc_refl|by apply (keys_ok_change s)]. apply rtc_once.
    apply (ms_transfer_late (sh_metrics s) (session_guards s)). rewrite app_nil_r. unfold session_guards.
    by rewrite <- list_fmap_compose.
  - split_and!; [|apply rtc_refl|by apply (keys_ok_change s)]. apply rtc_once. apply (ms_inbound (sh_metrics s) (session_guards s)).
  - split_and!; [|apply rtc_refl|by apply (keys_ok_change s)]. apply rtc_once. apply (ms_outbound (sh_metrics s) (session_guards s)).
Qed.

Lemma core_run_sim s s' : rtc step s s' -> keys_ok s -> simulated s s'.
Proof.
  induction 1 as [s|s1 s2 s3 H12 _ IH]; intros Hk; [by apply simulated_refl|].
  destruct (core_step_sim _ _ H12 Hk) as (Hm & Ht & Hk2). destruct (IH Hk2) as (Hm' & Ht' & Hk3).
  split_and!; [by etrans|by etrans|done].
Qed.

Lemma keys_ok_initial m lim : keys_ok (core_initial m lim).
Proof. split; cbn; [lia|]. intros x Hx. by apply not_elem_of_nil in Hx. Qed.

Context `{!MetricVecLaws as_i64 GV}.

(** C9: the endpoint as a whole keeps its books.  However connections of both kinds arrive, are
    dropped, refused or opened, whatever requests their sessions see and in whatever order
    they end: the session gauges are the numbers of the open sessions, per protocol and per
    user; the table of the clients has exactly their connections; and the slots of the
    limiter are exactly the ones that their tunnels hold, each within the limit of its
    client, no tunnel counting as authenticated whose credentials did not pass.  (A handler
    that panics is not a step: its entry in the table of clients would stay.) *)
Theorem core_accounts_sessions register per_client m b64 clients_list d2 d3 (limits : bool) s :
  metrics_new register per_client = Ok m ->
  rtc step (core_initial m (if limits then Some (limiter_new b64 clients_list d2 d3) else None)) s ->
  len (sh_sessions s) < 2 ^ 63 ->
  (forall p, mv_get (client_sessions (sh_metrics s)) [protocol_as_str p] = count_guards (on_protocol p) (session_guards s)) /\
  (per_client = true -> forall u p,
     mv_get (client_sessions_per_user (sh_metrics s)) [u; protocol_as_str p]
       = count_guards (on_user (clients (sh_metrics s)) u p) (session_guards s)) /\
  (forall id, is_Some (clients (sh_metrics s) !! id) <-> id ∈ sc_conn_id <$> session_guards s) /\
  (forall lim, sh_limiter s = Some lim -> lim_inv lim (guards (se_tunnel <$> sh_sessions s))) /\
  (forall x src, x ∈ sh_sessions s -> tn_policy (se_tunnel x) = Authenticated src ->
     exists au, authenticator = Some au /\ authenticate au src = Pass).
Proof.
  intros Hnew Hrun Hlen. destruct (core_run_sim _ _ Hrun (keys_ok_initial _ _)) as (Hm & Ht & _).
  destruct (inv_reachable register per_client m (metrics_of s) Hnew Hm) as [Hinv Hper].
  pose proof (tun_reachable_inv authenticator b64 clients_list d2 d3 limits (tunnels_of s)) as Htun.
  destruct Htun as (_ & Hlim & Hpol).
  { unfold tunnels_of at 1 in Ht. cbn in Ht. by destruct limits. }
  destruct Hinv as [_ Hlive _ Hdom Hses Huser _ _]. cbn in *.
  assert (forall f, - 2 ^ 63 <= count_guards f (session_guards s) < 2 ^ 63) as Hb.
  { intros f. pose proof (count_guards_bound f (session_guards s)) as H0. unfold session_guards in *.
    unfold len in *. rewrite length_fmap in H0. lia. }
  split_and!.
  - intros p. rewrite Hses. apply as_i64_small, Hb.
  - intros -> u p. rewrite Huser by done. apply as_i64_small, Hb.
  - intros id. split; [intros [e He]; apply Hdom in He; by rewrite app_nil_r in He|].
    intros (g & -> & Hg)%list_elem_of_fmap. destruct (Hlive g Hg) as (e & -> & _). eauto.
  - exact Hlim.
  - intros x src Hx Hp. apply (Hpol (se_tunnel x)); [by apply list_elem_of_fmap_2|done].
Qed.

End core_proofs.

(** ** Admission *)

Definition codec_fits (protocol : TlsProtocol) (codec : CodecKind) : Prop :=
  match protocol, codec with
  | Http1, CodecHttp1 | Http2, CodecHttp2 | Http3, CodecHttp3 => True
  | _, _ => False
  end.

(** The credentials of the server name, if any, are those of a client. *)
Definition creds_pass (authenticator : option Authenticator) (creds : option bytes) : Prop :=
  forall au c, authenticator = Some au -> creds = Some c -> authenticate au (Sni c) = Pass.

(** Names never route to the subscription page, which is reached by a path only. *)
Lemma select_no_subscription {Identity} (demux : TlsDemux Identity) alpn sni meta :
  select demux alpn sni = Ret (Ok meta) -> cm_channel meta <> ChSubscription /\ cm_sni meta = sni.
Proof.
  unfold select. destruct (_ && _); [done|].
  assert (forall r ch h auth, ch <> ChSubscription ->
    match r with
    | Ok p => Ret (Ok (mkConnectionMeta sni p ch (identity h) auth))
    | Err e => Ret (Err e)
    end = Ret (Ok (E := unit) meta) -> cm_channel meta <> ChSubscription /\ cm_sni meta = sni) as Hmeta.
  { intros [p|e] ch h auth Hch; [|done]. by intros [= <-]. }
  destruct (main_hosts demux !! sni); [by apply Hmeta|].
  destruct (reverse_proxy_hosts demux !! sni).
  { destruct (max_protocol _); [by apply (Hmeta (Ok _))|]. destruct (_ =? _); [by apply (Hmeta (Ok _))|done]. }
  destruct (ping_hosts demux !! sni); [by apply (Hmeta (Ok _))|].
  destruct (speedtest_hosts demux !! sni); [by apply (Hmeta (Ok _))|].
  destruct (match split_once _ _ with Some _ => _ | None => _ end) as [[host creds]|]; [by apply Hmeta|].
  destruct (allowed_sni_to_main_host demux !! sni) as [n|]; [|done].
  destruct (main_hosts demux !! n); cbn [unwrap bindM]; [by apply Hmeta|done].
Qed.

Section admission.
Context {GV CV : Type} `{!MetricVec GV, !MetricVec CV} {Identity : Type}.
Context (ipnet : bytes -> option (IpAddr -> bool)) (hex_decode : bytes -> option bytes)
  (hkdf : bytes -> bytes -> bytes -> option bytes) (sha256 : bytes -> bytes)
  (aes_128_ecb : bytes -> bytes -> option bytes).
Context (rules_engine : option RulesEngine) (authenticator : option Authenticator).
Context (h2_builder : Http2Settings -> bool) (settings : Settings).
Context (Hsha : forall x, len (sha256 x) = 32)
  (Haes : forall k x y, aes_128_ecb k x = Some y -> len x = 16 -> len y = 16).

(** No rule stands against the connection: the engine, if there is one, has what its rules
    ask for, and the first rule that matches is not a deny rule. *)
Definition rules_allow (ip : IpAddr) (cr sni : option bytes) : Prop :=
  forall engine, rules_engine = Some engine ->
    ~ undecidable (rule (rules engine)) cr sni /\
    ~ first_match ipnet hex_decode hkdf sha256 aes_128_ecb (rule (rules engine)) ip cr sni DenyAction.

Lemma connection_rules_spec ip cr sni :
  (connection_rules ipnet hex_decode hkdf sha256 aes_128_ecb rules_engine (Some ip) cr sni = Ret (Ok tt) /\ rules_allow ip cr sni) \/
  (connection_rules ipnet hex_decode hkdf sha256 aes_128_ecb rules_engine (Some ip) cr sni = Ret (Err tt) /\ ~ rules_allow ip cr sni).
Proof.
  unfold connection_rules, rules_allow. destruct rules_engine as [engine|]; [|left; by split].
  cbn [fmap option_fmap option_map evaluate_connection_rules].
  destruct (evaluate_decides ipnet hex_decode hkdf sha256 aes_128_ecb engine ip cr sni Hsha Haes) as ([|] & -> & Hv); cbn [bindM].
  - left. split; [done|]. intros ? [= <-]. split; intros H; [discriminate (proj2 Hv (or_introl H))|discriminate (proj2 Hv (or_intror H))].
  - right. split; [done|]. intros H. destruct (H engine eq_refl) as [H1 H2]. destruct (proj1 Hv eq_refl); auto.
Qed.

Lemma on_tunnel_request_spec protocol creds key (s : Shared (GV := GV) (CV := CV)) session s' :
  on_tunnel_request authenticator protocol creds key s = (session, s') ->
  match session with
  | Some x => sh_sessions s' = x :: sh_sessions s /\ tn_protocol (se_tunnel x) = protocol /\ creds_pass authenticator creds
  | None => sh_sessions s' = sh_sessions s
  end.
Proof.
  unfold on_tunnel_request. destruct (client_sessions_counter _ _ _ _) as [g m].
  destruct (open_tunnel _ _ _ _) as [[t|] lim] eqn:Eo; intros [= <- <-]; cbn; [|done]. split; [done|].
  unfold open_tunnel in Eo. split.
  - repeat case_match; simplify_eq/=; done.
  - intros au c -> ->. repeat case_match; simplify_eq/=; done.
Qed.

(** Whether making the codec of a protocol panics: the protocol is disabled, or [h2] does
    not take its settings. *)
Definition codec_panics (protocol : TlsProtocol) (peer_addr : result ErrorKind IpAddr) : Prop :=
  match protocol with
  | Http1 => lp_http1 (st_listen_protocols settings) = None
  | Http2 =>
      match lp_http2 (st_listen_protocols settings) with
      | None => True
      | Some x => h2_builder x = false /\ exists ip, peer_addr = Ok ip
      end
  | Http3 => True
  end.

Lemma codec_spec protocol peer_addr :
  protocol <> Http3 ->
  match make_tcp_http_codec h2_builder (st_listen_protocols settings) protocol peer_addr with
  | Panic => codec_panics protocol peer_addr
  | Ret r => ~ codec_panics protocol peer_addr /\ forall k, r = Ok k -> codec_fits protocol k
  end.
Proof.
  destruct protocol; [| |done]; intros _; cbn [make_tcp_http_codec codec_panics].
  - destruct (lp_http1 _) as [x|]; cbn; [|done]. split; [done|]. by intros k [= <-].
  - destruct (lp_http2 _) as [x|]; cbn; [|done]. destruct peer_addr as [ip|e]; cbn; [|split; [naive_solver|done]].
    destruct (h2_builder x); cbn; [|by eauto]. split; [naive_solver|]. by intros k [= <-].
Qed.

(** The connection has a name that no rule stands against, the demultiplexer selects [meta]
    for it, which is not of HTTP/3, and the handshake succeeds. *)
Definition tls_admitted (demux : TlsDemux Identity) (c : TlsConnection) (meta : ConnectionMeta Identity) : Prop :=
  exists sni, tc_sni c = Some sni /\ rules_allow (tc_client_ip c) (tc_client_random c) (Some sni) /\
    select demux (tc_alpn c) sni = Ret (Ok meta) /\ cm_protocol meta <> Http3 /\ tc_accept c = Some (Ok tt).

Lemma tls_admitted_unique demux c meta meta' : tls_admitted demux c meta -> tls_admitted demux c meta' -> meta = meta'.
Proof. intros (sni & E1 & _ & E2 & _) (sni' & E1' & _ & E2' & _). congruence. Qed.

(** What a connection became, and on what conditions. *)
Definition tls_outcome (demux : TlsDemux Identity) (c : TlsConnection) (s : Shared (GV := GV) (CV := CV)) (r : Handled)
    (s' : Shared (GV := GV) (CV := CV)) : Prop :=
  match r with
  | TunnelOpened codec =>
      exists meta x, tls_admitted demux c meta /\ cm_channel meta = ChTunnel /\ codec_fits (cm_protocol meta) codec /\
        creds_pass authenticator (cm_sni_auth_creds meta) /\
        sh_sessions s' = x :: sh_sessions s /\ tn_protocol (se_tunnel x) = cm_protocol meta
  | ServedBy channel codec sni =>
      exists meta, tls_admitted demux c meta /\ cm_channel meta = channel /\ codec_fits (cm_protocol meta) codec /\
        channel <> ChTunnel /\ channel <> ChSubscription /\ sni = cm_sni meta /\ s' = s
  | TunnelRefused | ConnectionDropped _ => sh_sessions s' = sh_sessions s
  end.

Abbreviation on_tls := (on_new_tls_connection ipnet hex_decode hkdf sha256 aes_128_ecb rules_engine authenticator
  h2_builder (st_listen_protocols settings)).

(** The front of the handler: the connection is dropped, or it is admitted. *)
Lemma admit_tls_spec demux c :
  demux_ok demux ->
  (exists e, admit_tls ipnet hex_decode hkdf sha256 aes_128_ecb rules_engine demux c = Ret (Err e) /\
     forall meta, ~ tls_admitted demux c meta) \/
  (exists meta, admit_tls ipnet hex_decode hkdf sha256 aes_128_ecb rules_engine demux c = Ret (Ok meta) /\
     tls_admitted demux c meta).
Proof.
  intros Hd. unfold admit_tls, tls_admitted. destruct (tc_sni c) as [sni|]; [|left; eexists; split; [done|]; by intros meta (? & ? & _)].
  destruct (connection_rules_spec (tc_client_ip c) (tc_client_random c) (Some sni)) as [[-> Hallow]|[-> Hno]]; cbn [bindM];
    [|left; eexists; split; [done|]; by intros meta (? & [= <-] & ? & _)].
  destruct (select_spec demux (tc_alpn c) sni Hd) as (m & Em & _). rewrite Em. cbn [bindM].
  destruct m as [meta|e]; [|left; eexists; split; [done|]; intros meta (? & [= <-] & _ & ? & _); congruence].
  case_bool_decide as Hp; [left; eexists; split; [done|]; intros meta' (? & [= <-] & _ & ? & ? & _); congruence|].
  destruct (tc_accept c) as [[[]|e]|]; [|left; eexists; (split; [done|]); by intros meta' (? & _ & _ & _ & _ & ?)..].
  right. exists meta. split; [done|]. by exists sni.
Qed.

Lemma tls_connection_spec demux c client_id (s : Shared (GV := GV) (CV := CV)) :
  demux_ok demux ->
  match on_tls demux c client_id s with
  | Panic => exists meta, tls_admitted demux c meta /\ codec_panics (cm_protocol meta) (tc_peer_addr c)
  | Ret (r, s') =>
      (forall meta, tls_admitted demux c meta -> ~ codec_panics (cm_protocol meta) (tc_peer_addr c)) /\
      tls_outcome demux c s r s'
  end.
Proof.
  intros Hd. unfold on_new_tls_connection.
  destruct (admit_tls_spec demux c Hd) as [(e & -> & Hno)|(meta & -> & Hadm)]; cbn [bindM].
  { split; [intros meta Hm; by destruct (Hno meta)|done]. }
  assert (cm_channel meta <> ChSubscription /\ cm_protocol meta <> Http3) as [Hsub Hp].
  { destruct Hadm as (sni & _ & _ & Em & Hp & _). split; [|done]. by eapply select_no_subscription. }
  assert (forall P : Prop, ~ codec_panics (cm_protocol meta) (tc_peer_addr c) -> P ->
    (forall meta', tls_admitted demux c meta' -> ~ codec_panics (cm_protocol meta') (tc_peer_addr c)) /\ P) as Hret.
  { intros P Hn HP. split; [|done]. intros meta' Hm. by rewrite <- (tls_admitted_unique _ _ _ _ Hadm Hm). }
  pose proof (codec_spec (cm_protocol meta) (tc_peer_addr c) Hp) as Hk.
  destruct (cm_channel meta) eqn:Hch; [| | | |done]; unfold serve_channel; cbn [take_tunnel_id];
    (destruct (make_tcp_http_codec _ _ _ _) as [[k|e]|]; cbn [bindM]; [|apply Hret; [apply Hk|done]|by exists meta]);
    destruct Hk as [Hk Hfit]; specialize (Hfit k eq_refl).
  { destruct (on_tunnel_request _ _ _ _ _) as [session s'] eqn:Er. apply on_tunnel_request_spec in Er.
    apply Hret; [done|]. destruct session as [x|]; [|done].
    destruct Er as (Hs & Ht & Hc). exists meta, x. by split_and!. }
  all: apply Hret; [done|]; exists meta; by rewrite Hch.
Qed.

(** On the tunnel channel the protocol is one of the enabled ones. *)
Lemma tunnel_codec_panics (load : TlsHostInfo -> result ErrorKind Identity) tls_settings demux c meta :
  demux_new load (protocol_settings settings) tls_settings = Ok demux ->
  tls_admitted demux c meta -> cm_channel meta = ChTunnel -> codec_panics (cm_protocol meta) (tc_peer_addr c) ->
  exists x, lp_http2 (st_listen_protocols settings) = Some x /\ h2_builder x = false.
Proof.
  intros Hnew (sni & _ & _ & Es & Hp & _) Hch Hpanic. pose proof (demux_new_ok _ _ _ _ Hnew) as Hd.
  destruct (select_spec demux (tc_alpn c) sni Hd) as (r & Er & Hr). rewrite Es in Er. injection Er as <-.
  pose proof (so_enabled _ _ _ _ (Hr meta eq_refl) Hch) as Hin.
  assert (tunnel_protocols demux = (if bool_decide (is_Some (lp_http1 (st_listen_protocols settings))) then [Http1] else []) ++
    (if bool_decide (is_Some (lp_http2 (st_listen_protocols settings))) then [Http2] else []) ++
    (if bool_decide (is_Some (lp_quic (st_listen_protocols settings))) then [Http3] else [])) as Et.
  { unfold demux_new in Hnew. repeat (destruct (make_hosts _ _) in Hnew; cbn [bindR] in Hnew; [|done]).
    destruct (ps_reverse_proxy _); [destruct (make_hosts _ _) in Hnew; cbn [bindR] in Hnew; [|done]|];
      cbn [bindR] in Hnew; by injection Hnew as <-. }
  rewrite Et, !elem_of_app in Hin. unfold codec_panics in Hpanic. destruct (cm_protocol meta); [| |done].
  - exfalso. rewrite Hpanic in Hin. repeat case_bool_decide; set_solver.
  - destruct (lp_http2 _) as [x|]; [naive_solver|]. exfalso. repeat case_bool_decide; set_solver.
Qed.

(** C7: a TLS connection is what its name and the rules make it.  Whatever the client sends,
    a session is opened or a service is entered only for a connection with a server name
    that no rule stands against and that the demultiplexer routes there, over a codec of the
    selected protocol, which is not HTTP/3, after the handshake; and a session of a name
    with credentials only when these are the credentials of a client.  A connection that is
    dropped or refused leaves the sessions as they were.  The handler panics exactly when
    the connection is admitted and its codec cannot be made, because its protocol is
    disabled or the HTTP/2 library does not take the settings; on the tunnel channel, where
    only enabled protocols are selected, it is only the latter. *)
Theorem tls_connection_admission (load : TlsHostInfo -> result ErrorKind Identity) tls_settings demux c client_id
    (s : Shared (GV := GV) (CV := CV)) :
  demux_new load (protocol_settings settings) tls_settings = Ok demux ->
  match on_new_tls_connection ipnet hex_decode hkdf sha256 aes_128_ecb rules_engine authenticator
          h2_builder (st_listen_protocols settings) demux c client_id s with
  | Panic =>
      exists meta, tls_admitted demux c meta /\ codec_panics (cm_protocol meta) (tc_peer_addr c) /\
        (cm_channel meta = ChTunnel ->
           exists x, lp_http2 (st_listen_protocols settings) = Some x /\ h2_builder x = false)
  | Ret (r, s') =>
      (forall meta, tls_admitted demux c meta -> ~ codec_panics (cm_protocol meta) (tc_peer_addr c)) /\
      match r with
      | TunnelOpened codec =>
          exists meta x, tls_admitted demux c meta /\ cm_channel meta = ChTunnel /\ codec_fits (cm_protocol meta) codec /\
            creds_pass authenticator (cm_sni_auth_creds meta) /\
            sh_sessions s' = x :: sh_sessions s /\ tn_protocol (se_tunnel x) = cm_protocol meta
      | ServedBy channel codec sni =>
          exists meta, tls_admitted demux c meta /\ cm_channel meta = channel /\ codec_fits (cm_protocol meta) codec /\
            channel <> ChTunnel /\ channel <> ChSubscription /\ sni = cm_sni meta /\ s' = s
      | TunnelRefused | ConnectionDropped _ => sh_sessions s' = sh_sessions s
      end
  end.
Proof.
  intros Hnew. pose proof (tls_connection_spec demux c client_id s (demux_new_ok _ _ _ _ Hnew)) as Hspec.
  destruct (on_tls demux c client_id s) as [[r s']|]; [exact Hspec|].
  destruct Hspec as (meta & Hadm & Hp). exists meta. split_and!; [done..|].
  intros Hch. by eapply tunnel_codec_panics.
Qed.

(** The same of a QUIC connection, with the routing that the multiplexer did for it: it never
    panics, and over a socket with an address it is served only if no rule stands against
    it. *)
Lemma quic_connection_admission (env : PacketEnv (Identity := Identity)) c ip client_id (s : Shared (GV := GV) (CV := CV)) :
  dispatched env (qc_meta c) -> qc_peer_ip c = Some ip ->
  exists r s',
    on_new_quic_connection ipnet hex_decode hkdf sha256 aes_128_ecb rules_engine authenticator c client_id s = Ret (r, s') /\
    let allowed := rules_allow (unmap_ipv6 ip) (Some (qc_client_random c)) (Some (cm_sni (qc_meta c))) in
    match r with
    | TunnelOpened codec =>
        allowed /\ codec = CodecHttp3 /\ cm_channel (qc_meta c) = ChTunnel /\
        creds_pass authenticator (cm_sni_auth_creds (qc_meta c)) /\
        exists x, sh_sessions s' = x :: sh_sessions s /\ tn_protocol (se_tunnel x) = cm_protocol (qc_meta c)
    | ServedBy channel codec sni =>
        allowed /\ codec = CodecHttp3 /\ channel = cm_channel (qc_meta c) /\ channel <> ChTunnel /\
        sni = cm_sni (qc_meta c) /\ s' = s
    | TunnelRefused | ConnectionDropped _ => sh_sessions s' = sh_sessions s
    end.
Proof.
  intros Hd Hip. unfold on_new_quic_connection. rewrite Hip. cbn [fmap option_fmap option_map].
  assert (cm_channel (qc_meta c) <> ChSubscription) as Hsub.
  { destruct Hd as [[_ Hsel]|[(_ & -> & _) _]]; [by eapply select_no_subscription|done]. }
  destruct (connection_rules_spec (unmap_ipv6 ip) (Some (qc_client_random c)) (Some (cm_sni (qc_meta c)))) as [[-> Hallow]|[-> _]];
    cbn [bindM]; [|by do 2 eexists].
  destruct (cm_channel (qc_meta c)) eqn:Hch; [| | | |done].
  2-4: do 2 eexists; split; [reflexivity|]; done.
  cbn [take_tunnel_id]. destruct (on_tunnel_request _ _ _ _ _) as [session s'] eqn:Er. apply on_tunnel_request_spec in Er.
  do 2 eexists. split; [reflexivity|]. destruct session as [x|]; [|done].
  destruct Er as (Hs & Ht & Hc). split_and!; [done..|]. by exists x.
Qed.

End admission.

(** On a tunnel whose server name authenticated one client, a request with the credentials
    of another client is accepted, the session is relabelled with the other client, and the
    traffic of the request goes on counting for the first. *)
Lemma session_and_traffic_users (registry : list Client) (b64_encode : bytes -> bytes) (b64_decode : bytes -> option bytes)
    (alice bob : Client) guard protocol (lim : option ConnectionLimiter) :
  let a := RegistryBasedAuthenticator b64_encode registry in
  let info := Ok (Some (ProxyBasic (client_key b64_encode bob))) in
  let t := mkTunnel (Authenticated (Sni (client_key b64_encode alice))) guard protocol in
  authenticate a (ProxyBasic (client_key b64_encode bob)) = Pass ->
  auth_username a (Sni (client_key b64_encode alice)) = Some (username alice) ->
  decode_username b64_decode (client_key b64_encode bob) = Some (username bob) ->
  (lim = None \/ is_Some guard) ->
  handle_request (Some a) lim t info = (RequestPromoted (Some (ProxyBasic (client_key b64_encode bob))), Some t, lim) /\
  request_username b64_decode (RequestPromoted (Some (ProxyBasic (client_key b64_encode bob)))) info = Some (username bob) /\
  resolve_username b64_decode (Some a) t info = Some (username alice).
Proof.
  intros a info t Hb Hu Hd Hg. split_and!; [|done|done].
  assert (acquire_slot (Some a) lim t info = (Some t, lim)) as Hs.
  { unfold acquire_slot. destruct Hg as [-> |[g ->]]; cbn; [by destruct guard|done]. }
  unfold handle_request. rewrite Hs. cbn [tn_policy t authorize info]. by rewrite Hb.
Qed.

(** ** Witnesses *)

Module CoreSample.

Import MetricsSample.

Definition hosts : TlsHostsSettings :=
  mkHostsSettings [mkHostInfo (str "vpn.example") [] [] []] [] [] [] true.

Definition engine : RulesEngine := mkEngine (mkRules [mkRule (Some (str "10.0.0.0/8")) None None DenyAction]).

Definition au : Authenticator := RegistryBasedAuthenticator Base64Ref.b64_encode [sample_client].

Definition demux : TlsDemux bytes := mkTlsDemux {[str "vpn.example" := mkHost (str "vpn.example") []]} ∅ ∅ ∅ [Http1; Http2] ∅.

Definition connection : TlsConnection :=
  mkTlsConnection peer (Some (str "vpn.example")) None [str "h2"] (Some (Ok tt)) (Ok peer).

(** The range that [h2] documents for [max_frame_size]. *)
Definition h2_builder (x : Http2Settings) : bool := (16384 <=? max_frame_size x) && (max_frame_size x <=? 16777215).

Definition core_settings (http1 : option Http1Settings) : Settings :=
  builder_set (SetListenProtocols (mkListenProtocols http1 (Some http2_default) None)) default_listen_address builder_new.

Definition hkdf0 (k _ _ : bytes) : option bytes := Some k.

Definition handle (s : Shared) :=
  on_new_tls_connection (GV := gauges) (CV := counters) sample_ipnet HexRef.hex_decode hkdf0 sample_sha256 sample_aes
    (Some engine) (Some au) h2_builder (st_listen_protocols (core_settings (Some http1_default))) demux connection 3 s.

Definition opened : Shared (GV := gauges) (CV := counters) :=
  match handle (core_initial m0 None) with Ret (_, s) => s | Panic => core_initial m0 None end.

Lemma handled : handle (core_initial m0 None) = Ret (TunnelOpened CodecHttp2, opened).
Proof.
  assert (match handle (core_initial m0 None) with Ret (r, _) => Some r | Panic => None end = Some (TunnelOpened CodecHttp2)) as H
    by (vm_compute; reflexivity).
  unfold opened. destruct (handle _) as [[r s]|]; [|discriminate H]. by injection H as ->.
Qed.

Lemma aes_len k x y : sample_aes k x = Some y -> len x = 16 -> len y = 16.
Proof.
  intros [= <-] Hx. unfold len in *. rewrite length_take, length_app, Nat2Z.inj_min, Nat2Z.inj_add. lia.
Qed.

End CoreSample.

(** A client of the table is admitted past a rule that denies a private network, and opens a
    tunnel. *)
Lemma tls_connection_admission_witness :
  exists s', CoreSample.handle (core_initial MetricsSample.m0 None) = Ret (TunnelOpened CodecHttp2, s') /\
    rules_allow sample_ipnet HexRef.hex_decode CoreSample.hkdf0 sample_sha256 sample_aes (Some CoreSample.engine)
      MetricsSample.peer None (Some (str "vpn.example")) /\ length (sh_sessions s') = 1%nat.
Proof.
  pose proof (tls_connection_admission sample_ipnet HexRef.hex_decode CoreSample.hkdf0 sample_sha256 sample_aes
    (Some CoreSample.engine) (Some CoreSample.au) CoreSample.h2_builder (CoreSample.core_settings (Some http1_default))
    (fun _ => eq_refl) CoreSample.aes_len
    (fun x => Ok (hi_hostname x)) CoreSample.hosts CoreSample.demux
    CoreSample.connection 3 (core_initial MetricsSample.m0 None) ltac:(vm_compute; reflexivity)) as Hr.
  fold (CoreSample.handle (core_initial MetricsSample.m0 None)) in Hr.
  rewrite CoreSample.handled in Hr. destruct Hr as [_ Hr].
  exists CoreSample.opened. split; [exact CoreSample.handled|].
  destruct Hr as (meta & x & (sni & Hsni & Hallow & _) & _ & _ & _ & Hs & _).
  injection Hsni as <-. split; [exact Hallow|]. rewrite Hs. reflexivity.
Defined.

(** A host for pings accepts every protocol that a client offers, also the disabled ones:
    without HTTP/1 in the settings a client of such a host that offers no protocol makes
    the handler panic. *)
Lemma service_host_panics :
  match on_new_tls_connection (GV := MetricsSample.gauges) (CV := MetricsSample.counters) sample_ipnet HexRef.hex_decode
    CoreSample.hkdf0 sample_sha256 sample_aes (Some CoreSample.engine) (Some CoreSample.au) CoreSample.h2_builder
    (st_listen_protocols (CoreSample.core_settings None))
    (mkTlsDemux ∅ ∅ {[str "ping.example" := mkHost (str "ping.example") []]} ∅ [Http2] ∅)
    (mkTlsConnection MetricsSample.peer (Some (str "ping.example")) None [] (Some (Ok tt)) (Ok MetricsSample.peer)) 3
    (core_initial MetricsSample.m0 None) with Panic => true | Ret _ => false end = true.
Proof. vm_compute. reflexivity. Qed.

(** After it, the gauge of HTTP/2 sessions is one. *)
Lemma core_accounts_sessions_witness :
  mv_get (client_sessions (sh_metrics CoreSample.opened)) [str "HTTP2"] = 1 /\
  length (sh_sessions CoreSample.opened) = 1%nat.
Proof.
  assert (rtc (core_step (Identity := bytes) sample_ipnet HexRef.hex_decode CoreSample.hkdf0 sample_sha256 sample_aes
    (fun _ => None) (Some CoreSample.engine) (Some CoreSample.au) CoreSample.h2_builder
    (st_listen_protocols (CoreSample.core_settings (Some http1_default)))) (core_initial MetricsSample.m0 None) CoreSample.opened) as Hrun.
  { apply rtc_once. apply (cs_tls _ _ _ _ _ _ _ _ _ _ CoreSample.demux CoreSample.connection 3 _ (TunnelOpened CodecHttp2));
      [reflexivity..|]. exact CoreSample.handled. }
  destruct (core_accounts_sessions MetricsSample.accept_all true MetricsSample.m0 Base64Ref.b64_encode [] None None false
    CoreSample.opened eq_refl Hrun ltac:(vm_compute; reflexivity)) as (Hg & _).
  split; [|vm_compute; reflexivity]. etransitivity; [exact (Hg Http2)|vm_compute; reflexivity].
Defined.
