(* ===== verification/TlsAccept.v ===== *)
(** * A TCP client, from its first byte to its session

    [TlsListener::listen] and [TlsAcceptor] of lib/src/tls_listener.rs, and the task that
    [Core::listen_tcp] spawns for a client (lib/src/core.rs): reading ahead, the hello, the
    rules, the selection by name, the handshake with the configuration made for the selected
    host, and the session.  [rustls] is a parameter: the hello that it reads from a stream,
    and the handshake under a configuration, with the laws of the protocol negotiation. *)

From S2P Require Import Prelude.
From S2P Require Import Codecs.
From S2P Require Import Varint.
From S2P Require Import NetUtils.
From S2P Require Import Rules.
From S2P Require Import Auth.
From S2P Require Import Tunnel.
From S2P Require Import TlsDemux.
From S2P Require Import TlsListener.
From S2P Require Import Settings.
From S2P Require Import Metrics.
From S2P Require Import Core.

(** ** The acceptor *)

Record HelloInfo : Type := mkHello { hello_server_name : option bytes; hello_alpn : option (list bytes) }.

Record TlsAcceptor : Type := mkTlsAcceptor {
  ta_hello : HelloInfo;
  ta_stream : PrebufferedTcpStream;
  ta_client_random : option bytes;
}.

Definition acceptor_sni (self : TlsAcceptor) : option bytes := hello_server_name (ta_hello self).

Definition acceptor_alpn (self : TlsAcceptor) : list bytes := default [] (hello_alpn (ta_hello self)).

Definition acceptor_client_random (self : TlsAcceptor) : option bytes := ta_client_random self.

(** [TlsListener::listen]: [None] while the client has not sent its hello.  [read_hello] is
    [LazyConfigAcceptor]. *)
Definition tls_listen (parse : bytes -> ParsedRecord)
    (read_hello : PrebufferedTcpStream -> option (result ErrorKind HelloInfo)) (stream : list Arrival)
  : M (option (result ErrorKind TlsAcceptor)) :=
  let! r := read_client_random_and_wrap_stream parse stream in
  Ret (match r with
       | Waiting => None
       | ReadDone (Err e) => Some (Err e)
       | ReadDone (Ok (stream, client_random)) =>
           match read_hello stream with
           | None => None
           | Some (Err e) => Some (Err e)
           | Some (Ok hello) => Some (Ok (mkTlsAcceptor hello stream client_random))
           end
       end).

(** ** The handshake *)

Inductive KxGroup : Type := X25519MLKEM768 | X25519 | SECP256R1 | SECP384R1.

(** The server configuration, without client authentication. *)
Record ServerConfig (Identity : Type) : Type := mkServerConfig {
  sc_kx_groups : list KxGroup;
  sc_identity : Identity;
  sc_alpn_protocols : list bytes;
}.
Arguments mkServerConfig {Identity}.
Arguments sc_kx_groups {Identity}.
Arguments sc_identity {Identity}.
Arguments sc_alpn_protocols {Identity}.

Record TlsStream (Identity : Type) : Type := mkTlsStream { ts_config : ServerConfig Identity; ts_alpn : option bytes }.
Arguments mkTlsStream {Identity}.
Arguments ts_config {Identity}.
Arguments ts_alpn {Identity}.

(** Why a handshake fails: there is no common protocol, or anything else. *)
Inductive TlsError : Type := NoApplicationProtocol | OtherTlsError (e : ErrorKind).

Section accept.
Context {Identity : Type} (protocol_versions : result unit unit) (single_cert : Identity -> result unit unit).
Context (into_stream : TlsAcceptor -> ServerConfig Identity -> option (result TlsError (TlsStream Identity))).

Definition server_config (protocol : TlsProtocol) (identity : Identity) : result TlsError (ServerConfig Identity) :=
  let? _ := map_err (fun _ => OtherTlsError Other) protocol_versions in
  let? _ := map_err (fun _ => OtherTlsError Other) (single_cert identity) in
  Ok (mkServerConfig [X25519MLKEM768; X25519; SECP256R1; SECP384R1] identity [as_alpn protocol]).

(** [TlsAcceptor::accept]; [None] while the handshake is not over. *)
Definition tls_accept (self : TlsAcceptor) (protocol : TlsProtocol) (identity : Identity)
  : option (result TlsError (TlsStream Identity)) :=
  match server_config protocol identity with
  | Err e => Some (Err e)
  | Ok cfg => into_stream self cfg
  end.

(** What the handshake promises: the session is of the configuration it was given, with the
    first protocol of the server that the client offers (RFC 7301); and it is refused for
    want of a protocol only when both sides have a list and no protocol is in both. *)
Class HandshakeLaws : Prop := {
  session_config a cfg s : into_stream a cfg = Some (Ok s) -> ts_config s = cfg;
  session_alpn a cfg s : into_stream a cfg = Some (Ok s) ->
    ts_alpn s = List.find (fun p => bool_decide (p ∈ acceptor_alpn a)) (sc_alpn_protocols cfg);
  refused_alpn a cfg : into_stream a cfg = Some (Err NoApplicationProtocol) ->
    acceptor_alpn a <> [] /\ forall p, p ∈ sc_alpn_protocols cfg -> p ∉ acceptor_alpn a;
}.

(** ** The task of a client *)

Context {GV CV : Type} `{!MetricVec GV, !MetricVec CV}.
Context (ipnet : bytes -> option (IpAddr -> bool)) (hex_decode : bytes -> option bytes)
  (hkdf : bytes -> bytes -> bytes -> option bytes) (sha256 : bytes -> bytes)
  (aes_128_ecb : bytes -> bytes -> option bytes).
Context (rules_engine : option RulesEngine) (authenticator : option Authenticator).
Context (h2_builder : Http2Settings -> bool) (settings : Settings).
Context (parse : bytes -> ParsedRecord) (read_hello : PrebufferedTcpStream -> option (result ErrorKind HelloInfo)).

(** The outcome of the handshake that [on_new_tls_connection] makes for what it selected. *)
Definition handshake_outcome (demux : TlsDemux Identity) (a : TlsAcceptor) : option (result ErrorKind unit) :=
  match acceptor_sni a with
  | Some sni =>
      match select demux (acceptor_alpn a) sni with
      | Ret (Ok meta) =>
          match tls_accept a (cm_protocol meta) (cm_identity meta) with
          | None => None
          | Some (Ok _) => Some (Ok tt)
          | Some (Err _) => Some (Err Other)
          end
      | _ => None
      end
  | None => None
  end.

Definition tls_connection (demux : TlsDemux Identity) (a : TlsAcceptor) (ip : IpAddr) (peer_addr : result ErrorKind IpAddr)
  : TlsConnection :=
  mkTlsConnection ip (acceptor_sni a) (acceptor_client_random a) (acceptor_alpn a) (handshake_outcome demux a) peer_addr.

Inductive ClientEnd : Type :=
| HandshakeFailed (e : ErrorKind)
| ClientHandled (r : Handled).

(** The spawned task of [listen_tcp]: the wait for the hello has the handshake timeout. *)
Definition serve_tcp_client (demux : TlsDemux Identity) (stream : list Arrival) (ip : IpAddr)
    (peer_addr : result ErrorKind IpAddr) (client_id : Z) (s : Shared (GV := GV) (CV := CV)) : M (ClientEnd * Shared (GV := GV) (CV := CV)) :=
  let! r := tls_listen parse read_hello stream in
  match default (Err TimedOut) r with
  | Err e => Ret (HandshakeFailed e, s)
  | Ok a =>
      let! (r, s) :=
        on_new_tls_connection ipnet hex_decode hkdf sha256 aes_128_ecb rules_engine authenticator h2_builder
          (st_listen_protocols settings) demux (tls_connection demux a ip peer_addr) client_id s in
      Ret (ClientHandled r, s)
  end.

(** ** Lemmas *)

Context (Hsha : forall x, len (sha256 x) = 32)
  (Haes : forall k x y, aes_128_ecb k x = Some y -> len x = 16 -> len y = 16)
  (parse_streaming : forall d e, parse d <> Incomplete -> parse (d ++ e) = parse d).
Context `{!HandshakeLaws}.

Lemma tls_listen_spec stream : arrivals_ok stream ->
  exists r, tls_listen parse read_hello stream = Ret r /\
    forall a, r = Some (Ok a) -> unread (ta_stream a) = stream_bytes stream /\
      forall x, ta_client_random a = Some x ->
        exists p, p `prefix_of` stream_bytes stream /\ extract_client_random parse p = Found x.
Proof.
  intros Hs. destruct (read_ahead_ok parse parse_streaming stream Hs) as (r & Er & Hr). unfold tls_listen. rewrite Er.
  eexists. split; [reflexivity|]. intros a. destruct r as [|[[w cr]|e]]; [done| |done].
  destruct (read_hello w) as [[h|e]|]; [|done..]. intros [= <-]. cbn. destruct Hr as (Hu & _ & _ & Hf & _). auto.
Qed.

(** With the protocol that was selected from the client's list the negotiation cannot fail. *)
Lemma tls_accept_negotiates demux a sni meta :
  demux_ok demux -> select demux (acceptor_alpn a) sni = Ret (Ok meta) ->
  tls_accept a (cm_protocol meta) (cm_identity meta) <> Some (Err NoApplicationProtocol) /\
  forall s, tls_accept a (cm_protocol meta) (cm_identity meta) = Some (Ok s) ->
    sc_identity (ts_config s) = cm_identity meta /\
    ts_alpn s = if decide (acceptor_alpn a = []) then None else Some (as_alpn (cm_protocol meta)).
Proof.
  intros Hd Es. destruct (select_spec demux (acceptor_alpn a) sni Hd) as (r & Er & Hr). rewrite Es in Er. injection Er as <-.
  destruct (so_advertised _ _ _ _ (Hr meta eq_refl)) as [Hadv|[Hnil _]]; unfold tls_accept, server_config;
    (destruct protocol_versions; cbn [map_err bindR]; [|done]); (destruct (single_cert _); cbn [map_err bindR]; [|done]);
    set (cfg := mkServerConfig _ _ _).
  - assert (acceptor_alpn a <> []) as Hne by (intros E; rewrite E in Hadv; by apply not_elem_of_nil in Hadv).
    rewrite decide_False by done. split; [intros [_ Hno]%refused_alpn; by apply (Hno (as_alpn (cm_protocol meta))); [left|]|].
    intros s E. rewrite (session_config _ _ _ E), (session_alpn _ _ _ E). cbn. by rewrite bool_decide_true.
  - rewrite decide_True by done. split; [by intros [Hno _]%refused_alpn|].
    intros s E. rewrite (session_config _ _ _ E), (session_alpn _ _ _ E), Hnil. cbn. by rewrite bool_decide_false by set_solver.
Qed.

(** The session shows the certificate of the selection, over its protocol. *)
Definition offered (a : TlsAcceptor) (meta : ConnectionMeta Identity) : Prop :=
  exists s, tls_accept a (cm_protocol meta) (cm_identity meta) = Some (Ok s) /\ sc_identity (ts_config s) = cm_identity meta /\
    ts_alpn s = if decide (acceptor_alpn a = []) then None else Some (as_alpn (cm_protocol meta)).

Lemma handshake_offered demux a sni meta : demux_ok demux -> acceptor_sni a = Some sni ->
  select demux (acceptor_alpn a) sni = Ret (Ok meta) -> handshake_outcome demux a = Some (Ok tt) -> offered a meta.
Proof.
  intros Hd Hsni Es. unfold handshake_outcome. rewrite Hsni, Es.
  destruct (tls_accept a _ _) as [[s|e]|] eqn:Ea; [|done..]. intros _.
  destruct (tls_accept_negotiates demux a sni meta Hd Es) as [_ Hn]. destruct (Hn s Ea). exists s. auto.
Qed.

(** The client sent a hello with a name that no rule stands against, given a client random
    found in what it sent, and the session is that of the selection for the name, of
    which [P] holds. *)
Definition admitted_client (demux : TlsDemux Identity) (stream : list Arrival) (ip : IpAddr)
    (P : ConnectionMeta Identity -> Prop) : Prop :=
  exists a sni, tls_listen parse read_hello stream = Ret (Some (Ok a)) /\ unread (ta_stream a) = stream_bytes stream /\
    acceptor_sni a = Some sni /\
    rules_allow ipnet hex_decode hkdf sha256 aes_128_ecb rules_engine ip (ta_client_random a) (Some sni) /\
    (forall x, ta_client_random a = Some x ->
       exists p, p `prefix_of` stream_bytes stream /\ extract_client_random parse p = Found x) /\
    exists meta, select demux (acceptor_alpn a) sni = Ret (Ok meta) /\ offered a meta /\ P meta.

(** C8: a TCP client from its first byte.  Whatever it sends and however the network cuts
    it: a connection that is not served leaves the sessions as they were.  One that is
    served has a hello with a server name, read from exactly the bytes the client sent; the
    rules were asked about its address, that name and a client random found in these bytes,
    and none stands against it; the session shows the certificate of the host selected for
    the name, and its protocol is the selected one, which the client offered, or none when
    the client offered none.  Its task panics only when the client was admitted in this way
    and the codec of its protocol cannot be made. *)
Theorem tls_client_end_to_end (load : TlsHostInfo -> result ErrorKind Identity) tls_settings demux stream ip peer_addr
    client_id (s : Shared (GV := GV) (CV := CV)) :
  demux_new load (protocol_settings settings) tls_settings = Ok demux -> arrivals_ok stream ->
  match serve_tcp_client demux stream ip peer_addr client_id s with
  | Ret ((HandshakeFailed _ | ClientHandled TunnelRefused | ClientHandled (ConnectionDropped _)), s') =>
      sh_sessions s' = sh_sessions s
  | Ret ((ClientHandled (TunnelOpened _) | ClientHandled (ServedBy _ _ _)), _) => admitted_client demux stream ip (fun _ => True)
  | Panic => admitted_client demux stream ip (fun meta => codec_panics h2_builder settings (cm_protocol meta) peer_addr)
  end.
Proof.
  intros Hd%demux_new_ok Hs. unfold serve_tcp_client.
  destruct (tls_listen_spec stream Hs) as (r & El & Hl). rewrite El. cbn [bindM].
  destruct r as [[a|e]|]; cbn [from_option id]; [|done..].
  destruct (Hl a eq_refl) as [Hu Hcr].
  assert (forall P : ConnectionMeta Identity -> Prop, (exists meta, tls_admitted ipnet hex_decode hkdf sha256 aes_128_ecb rules_engine demux
    (tls_connection demux a ip peer_addr) meta /\ P meta) -> admitted_client demux stream ip P) as Hadm.
  { intros P (meta & (sni & Hsni & Hallow & Es & _ & Ha) & HP). exists a, sni. split_and!; [done..|].
    exists meta. split_and!; [done| |done]. by apply (handshake_offered demux a sni). }
  pose proof (tls_connection_spec ipnet hex_decode hkdf sha256 aes_128_ecb rules_engine authenticator h2_builder settings
    Hsha Haes demux (tls_connection demux a ip peer_addr) client_id s Hd) as Ho.
  destruct (on_new_tls_connection _ _ _ _ _ _ _ _ _ _ _ _ _) as [[h s']|]; cbn [bindM]; [|by apply Hadm].
  destruct Ho as [_ Ho]. destruct h as [d|codec| |channel codec name]; [exact Ho| |exact Ho|]; apply Hadm.
  - destruct Ho as (meta & x & Hm & _). by exists meta.
  - destruct Ho as (meta & Hm & _). by exists meta.
Qed.

End accept.

(** A client whose hello is in two segments, and a handshake that follows the laws. *)
Module AcceptSample.

Definition read_hello (_ : PrebufferedTcpStream) : option (result ErrorKind HelloInfo) :=
  Some (Ok (mkHello (Some (str "vpn.example")) (Some [str "h2"; str "http/1.1"]))).
Definition shake (a : TlsAcceptor) (cfg : ServerConfig bytes) : option (result TlsError (TlsStream bytes)) :=
  match List.find (fun p => bool_decide (p ∈ acceptor_alpn a)) (sc_alpn_protocols cfg) with
  | Some p => Some (Ok (mkTlsStream cfg (Some p)))
  | None => if decide (acceptor_alpn a = []) then Some (Ok (mkTlsStream cfg None)) else Some (Err NoApplicationProtocol)
  end.

#[export] Instance shake_laws : HandshakeLaws shake.
Proof.
  constructor; intros a cfg; unfold shake; destruct (List.find _ _) eqn:E; try (destruct (decide _));
    try (intros s [= <-]); try done.
  intros _. split; [done|]. intros p Hp Ha. apply list_elem_of_In in Hp.
  apply (List.find_none _ _ E) in Hp. by apply bool_decide_eq_false in Hp.
Qed.

Definition serve (s : Shared) :=
  serve_tcp_client (GV := MetricsSample.gauges) (CV := MetricsSample.counters) (Ok tt) (fun _ => Ok tt) shake sample_ipnet HexRef.hex_decode CoreSample.hkdf0 sample_sha256 sample_aes
    (Some CoreSample.engine) (Some CoreSample.au) CoreSample.h2_builder (CoreSample.core_settings (Some http1_default))
    (ListenerSample.parse 1500) read_hello CoreSample.demux
    ListenerSample.small MetricsSample.peer (Ok MetricsSample.peer) 3 s.

End AcceptSample.

Import AcceptSample.

Lemma tls_client_end_to_end_witness :
  exists s' a meta, AcceptSample.serve (core_initial MetricsSample.m0 None) = Ret (ClientHandled (TunnelOpened CodecHttp2), s') /\
    acceptor_sni a = Some (cm_sni meta) /\ ta_client_random a = Some (replicate 32 7) /\
    offered (Ok tt) (fun _ => Ok tt) AcceptSample.shake a meta.
Proof.
  pose proof (tls_client_end_to_end (Ok tt) (fun _ => Ok tt) AcceptSample.shake sample_ipnet HexRef.hex_decode CoreSample.hkdf0
    sample_sha256 sample_aes (Some CoreSample.engine) (Some CoreSample.au) CoreSample.h2_builder
    (CoreSample.core_settings (Some http1_default)) (ListenerSample.parse 1500) AcceptSample.read_hello
    (fun _ => eq_refl) CoreSample.aes_len (ListenerSample.parse_streaming 1500)
    (fun x => Ok (hi_hostname x)) CoreSample.hosts CoreSample.demux
    ListenerSample.small MetricsSample.peer (Ok MetricsSample.peer) 3 (core_initial MetricsSample.m0 None)
    ltac:(vm_compute; reflexivity) ltac:(by repeat constructor)) as Hr.
  fold (AcceptSample.serve (core_initial MetricsSample.m0 None)) in Hr.
  assert (match AcceptSample.serve (core_initial MetricsSample.m0 None) with Ret (r, _) => Some r | Panic => None end
    = Some (ClientHandled (TunnelOpened CodecHttp2))) as Hh by (vm_compute; reflexivity).
  destruct (AcceptSample.serve (core_initial MetricsSample.m0 None)) as [[r s']|] eqn:E; [|discriminate Hh].
  injection Hh as ->. destruct Hr as (a & sni & El & _ & Hsni & _ & _ & meta & Es & Ho & _).
  exists s', a, meta. apply select_no_subscription in Es as [_ <-]. split_and!; [reflexivity|exact Hsni| |exact Ho].
  vm_compute in El. injection El as <-. vm_compute. reflexivity.
Defined.
