(* ===== verification/Sockets.v ===== *)
(** * Sockets and descriptors

    The system calls around sockets: lib/src/icmp_forwarder.rs ([RawPacketStream]),
    lib/src/net_utils.rs ([make_udp_socket], [bind_to_interface], [set_socket_ttl]) with
    the helpers of lib/src/net_utils.c, and the sockets that lib/src/core.rs and
    lib/src/metrics.rs listen on.  The operating system is the table of open descriptors
    and [errno]; the outcomes of its calls are given. *)

From S2P Require Import Prelude.
From S2P Require Import Codecs.
From S2P Require Import Varint.
From S2P Require Import NetUtils.
From S2P Require Import Icmp.
From S2P Require Import Utils.
From S2P Require Import Settings.
From S2P Require Import Core.

(** ** The operating system *)

(** Open descriptors and the error of the last call that failed. *)
Record Os : Type := mkOs { os_open : gset Z; os_errno : Z }.

(** A call fails with an error number, which [last_os_error] reads. *)
Definition failed (code : Z) (os : Os) : Os := mkOs (os_open os) code.

Definition close_fd (fd : Z) (outcome : result Z unit) (os : Os) : Os :=
  mkOs (os_open os ∖ {[fd]}) (match outcome with Ok _ => os_errno os | Err code => code end).

Definition IPPROTO_IP : Z := 0.
Definition IPPROTO_IPV6 : Z := 41.
Definition AF_INET : Z := 2.
Definition AF_INET6 : Z := 10.
Definition IP_TTL : Z := 2.
Definition IPV6_UNICAST_HOPS : Z := 16.

(** ** Raw packet streams *)

(** The outcomes of the calls of [RawPacketStream::new]: the descriptor that [socket]
    returns, the binding, the filter, the close after a failure, and the registration with
    the reactor, whose error is its own. *)
Record RawEnv : Type := mkRawEnv {
  rw_socket : result Z Z;
  rw_bind : result Z unit;
  rw_filter : result Z unit;
  rw_close : result Z unit;
  rw_register : result Z unit;
}.

Definition raw_family (protocol : Z) : M Z :=
  if protocol =? IPPROTO_ICMP then Ret AF_INET
  else if protocol =? IPPROTO_ICMPV6 then Ret AF_INET6
  else Panic.

(** [RawPacketStream::new]: the descriptor of the stream, or the error number. *)
Definition raw_packet_stream_new (protocol : Z) (env : RawEnv) (os : Os) : M (result Z Z * Os) :=
  let! family := raw_family protocol in
  match rw_socket env with
  | Err code => let os := failed code os in Ret (Err (os_errno os), os)
  | Ok fd =>
      let os := mkOs ({[fd]} ∪ os_open os) (os_errno os) in
      match rw_bind env with
      | Err code => let os := failed code os in Ret (Err (os_errno os), os)
      | Ok _ =>
          match rw_filter env with
          | Err code =>
              let os := close_fd fd (rw_close env) (failed code os) in Ret (Err (os_errno os), os)
          | Ok _ =>
              match rw_register env with
              | Err e => Ret (Err e, close_fd fd (rw_close env) os)
              | Ok _ => Ret (Ok fd, os)
              end
          end
      end
  end.

(** [drop]. *)
Definition raw_packet_stream_drop (fd : Z) (outcome : result Z unit) (os : Os) : Os := close_fd fd outcome os.

(** [set_socket_ttl]: the option that is set, and its outcome. *)
Definition set_socket_ttl (is_ipv4 : bool) (ttl : Z) (setsockopt : Z -> Z -> Z -> result Z unit) : result Z unit :=
  let (level, name) := if is_ipv4 then (IPPROTO_IP, IP_TTL) else (IPPROTO_IPV6, IPV6_UNICAST_HOPS) in
  setsockopt level name ttl.

(** [SocketAddr::from((dst, 0))]. *)
Definition full_of_ip (dst : IpAddr) : FullAddr :=
  match dst with IpV4 o => FullV4 o 0 | IpV6 o => FullV6 o 0 0 0 end.

(** [send_to], once the descriptor is writable: a short write is not an error. *)
Definition raw_send_to (writable : result Z unit) (setsockopt : Z -> Z -> Z -> result Z unit)
    (sendto : bytes -> SockaddrStorage * Z -> result Z Z) (dst : IpAddr) (ttl : Z) (packet : bytes) : result Z unit :=
  let? _ := writable in
  let? _ := set_socket_ttl (is_ipv4 dst) ttl setsockopt in
  let? _ := sendto packet (socket_addr_to_libc (full_of_ip dst)) in
  Ok tt.

(** ** Binding to an interface *)

(** What a C function reads from a pointer: the bytes up to the first zero.  Behind a
    Rust string there is [memory]. *)
Fixpoint c_string (l : bytes) : bytes :=
  match l with [] => [] | c :: l => if c =? 0 then [] else c :: c_string l end.

(** Linux: the name is passed with its length. *)
Definition bind_to_interface_linux (name : bytes) (setsockopt : bytes -> result Z unit) : result Z unit := setsockopt name.

(** macOS: the index of the name that is read from the pointer, 0 when there is none. *)
Definition bind_to_interface_macos (name memory : bytes) (if_nametoindex : bytes -> Z) (enoent : Z)
    (bind_by_index : Z -> result Z unit) : result Z unit :=
  let idx := if_nametoindex (c_string (name ++ memory)) in
  if idx =? 0 then Err enoent else bind_by_index idx.

(** [bind_to_interface_by_index] of net_utils.c: [Some] is what [setsockopt] is asked at a
    level, for an option and the index; only Apple's systems have the options.  The numbers
    are those of Apple's headers, where [AF_INET6] is 30. *)
Definition bind_to_interface_by_index (apple : bool) (family idx : Z) : option (Z * Z * Z) :=
  if apple then
    let '(level, option) := if family =? 30 then (41, 125) else (0, 25) in Some (level, option, idx)
  else None.

(** ** The filters of net_utils.c *)

(** [set_icmp_filter] on Linux: the mask of the types that are blocked. *)
Definition icmp_filter_data : Z :=
  Z.lxor (2 ^ 32 - 1)
    (Z.lor (Z.lor (Z.lor (Z.shiftl 1 12) (Z.shiftl 1 3)) (Z.shiftl 1 11)) (Z.shiftl 1 0)).

Definition icmp_passes (type : Z) : bool := negb (Z.testbit icmp_filter_data type).

(** [ICMP6_FILTER_SETPASS] on the eight words of the filter. *)
Definition icmp6_setpass (type : Z) (filter : list Z) : list Z :=
  alter (fun w => Z.land w (Z.lxor (2 ^ 32 - 1) (Z.shiftl 1 (Z.land type 31)))) (Z.to_nat (Z.shiftr type 5)) filter.

(** [set_icmpv6_filter]: everything is blocked, then five types are let through. *)
Definition icmp6_filter : list Z :=
  icmp6_setpass 129 (icmp6_setpass 4 (icmp6_setpass 2 (icmp6_setpass 3 (icmp6_setpass 1 (replicate 8 (2 ^ 32 - 1)))))).

Definition icmp6_passes (type : Z) : bool :=
  match icmp6_filter !! Z.to_nat (Z.shiftr type 5) with
  | Some w => negb (Z.testbit w (Z.land type 31))
  | None => false
  end.

(** ** Listening sockets *)

Inductive Domain : Type := DomainV4 | DomainV6.
Inductive SockType : Type := TypeStream | TypeDgram.

(** The calls on a new socket, in order. *)
Inductive SockOp : Type :=
| NewSocketOp (d : Domain) (t : SockType)
| SetOnlyV6 (v : bool)
| SetReuseAddress (v : bool)
| SetNonblocking (v : bool)
| BindOp (addr : SocketAddr)
| ListenOp (backlog : Z)
| FromStd.

Definition domain_of (addr : SocketAddr) : Domain := if is_ipv4 (addr_ip addr) then DomainV4 else DomainV6.

Definition dual_stack (d : Domain) : list SockOp := match d with DomainV6 => [SetOnlyV6 false] | DomainV4 => [] end.

(** The listener of [listen_tcp]. *)
Definition tcp_listener_ops (addr : SocketAddr) : list SockOp :=
  [NewSocketOp (domain_of addr) TypeStream] ++ dual_stack (domain_of addr)
  ++ [SetReuseAddress true; SetNonblocking true; BindOp addr; ListenOp 1024; FromStd].

(** The socket of [listen_udp]. *)
Definition udp_socket_ops (addr : SocketAddr) : list SockOp :=
  [NewSocketOp (domain_of addr) TypeDgram] ++ dual_stack (domain_of addr) ++ [SetNonblocking true; BindOp addr; FromStd].

(** [make_udp_socket]: what [UdpSocket::bind] is asked for. *)
Definition make_udp_socket (is_v4 : bool) : SocketAddr :=
  if is_v4 then mkAddr (IpV4 [0; 0; 0; 0]) 0 else mkAddr (IpV6 (replicate 16 0)) 0.

(** The calls are made until one fails: those that were made, and the error. *)
Fixpoint run_ops (outcome : SockOp -> result Z unit) (ops : list SockOp) : result Z unit * list SockOp :=
  match ops with
  | [] => (Ok tt, [])
  | op :: ops =>
      match outcome op with
      | Err e => (Err e, [op])
      | Ok _ => let (r, made) := run_ops outcome ops in (r, op :: made)
      end
  end.

(** The address family that a socket takes packets of: with [only_v6] off, both. *)
Definition accepts_v4 (made : list SockOp) : bool :=
  existsb (fun op => match op with NewSocketOp DomainV4 _ | SetOnlyV6 false => true | _ => false end) made.

(** *** Listening *)

(** A listener that has not returned is [None].  The loop of [listen_tcp] goes on after an
    error of [accept], and never returns. *)
Definition listen_tcp (setup : result IoError unit) : option (result IoError unit) :=
  match setup with Err e => Some (Err e) | Ok _ => None end.

(** [listen_udp]: the socket, the multiplexer, and the error of its [listen], if any. *)
Definition listen_udp (s : Settings) (setup mux_new : result IoError unit) (mux_error : option IoError)
  : option (result IoError unit) :=
  if negb (listens_udp s) then Some (Ok tt)
  else match setup, mux_new with
       | Err e, _ | Ok _, Err e => Some (Err e)
       | Ok _, Ok _ => Err <$> mux_error
       end.

Definition listen_icmp (has_forwarder : bool) (forwarder : option (result IoError unit)) : option (result IoError unit) :=
  if has_forwarder then forwarder else Some (Ok tt).

(** [metrics::listen_inner]: the outcomes of [accept] so far; the number is that of the
    connections that were handed to a task. *)
Fixpoint metrics_accept (accepts : list (result IoError unit)) (next_id : Z) : option (result IoError unit) * Z :=
  match accepts with
  | [] => (None, next_id)
  | Err e :: _ => (Some (Err e), next_id)
  | Ok _ :: accepts => metrics_accept accepts (next_id + 1)
  end.

Definition metrics_listen_inner (s : Settings) (bind : SocketAddr -> result IoError unit) (accepts : list (result IoError unit))
  : option (result IoError unit) * Z :=
  match st_metrics s with
  | None => (Some (Ok tt), 0)
  | Some settings =>
      match bind (ms_address settings) with
      | Err e => (Some (Err e), 0)
      | Ok _ => metrics_accept accepts 0
      end
  end.

(** [metrics::listen]: [shutdown] is the notification when it is what ended the wait. *)
Definition metrics_listen (shutdown : option (result unit unit)) (s : Settings) (bind : SocketAddr -> result IoError unit)
    (accepts : list (result IoError unit)) : option (result IoError unit) :=
  match shutdown with
  | Some (Ok _) => Some (Ok tt)
  | Some (Err _) => Some (Err other_error)
  | None => (metrics_listen_inner s bind accepts).1
  end.

(** The error of a listener with its name in front. *)
Definition listener_failure (name : bytes) (r : option (result IoError unit)) : option (result IoError unit) :=
  match r with
  | Some (Err e) => Some (Err (mkIoError (ioe_kind e) None (name ++ str " listener failure: " ++ ioe_message e)))
  | r => r
  end.

(** [try_join4]: the first error in the order of polling, or success when all have
    succeeded. *)
Fixpoint try_join (l : list (option (result IoError unit))) : option (result IoError unit) :=
  match l with
  | [] => Some (Ok tt)
  | Some (Err e) :: _ => Some (Err e)
  | Some (Ok _) :: l => try_join l
  | None :: l => match try_join l with Some (Err e) => Some (Err e) | _ => None end
  end.

(** The listeners of [Core::listen]. *)
Definition core_listeners (tcp udp icmp metrics : option (result IoError unit)) : option (result IoError unit) :=
  try_join [listener_failure (str "TCP") tcp; listener_failure (str "UDP") udp;
            listener_failure (str "ICMP") icmp; listener_failure (str "Metrics") metrics].

(** ** Lemmas *)

Lemma try_join_ok l : try_join l = Some (Ok tt) <-> Forall (fun r => r = Some (Ok tt)) l.
Proof.
  induction l as [|[[[]|e]|] l IH]; cbn; [done|..]; rewrite Forall_cons.
  - rewrite IH. naive_solver.
  - split; [done|]. by intros [? _].
  - split; [|by intros [? _]]. by destruct (try_join l) as [[]|].
Qed.

Lemma try_join_err l : (exists e, try_join l = Some (Err e)) <-> exists e, Some (Err e) ∈ l.
Proof.
  induction l as [|[[[]|e]|] l IH]; cbn.
  - split; [by intros [e ?]|]. intros [e H%elem_of_nil]. done.
  - rewrite IH. split; intros [e He]; exists e; [by right|]. by apply elem_of_cons in He as [?|?].
  - split; intros _; exists e; [left|done].
  - transitivity (exists e, try_join l = Some (Err e)); [|rewrite IH; split; intros [e He]; exists e; [by right|]; by apply elem_of_cons in He as [?|?]].
    destruct (try_join l) as [[]|]; naive_solver.
Qed.

Lemma listener_failure_err name r : (exists e, listener_failure name r = Some (Err e)) <-> exists e, r = Some (Err e).
Proof. destruct r as [[[]|e]|]; cbn; split; intros [x Hx]; try done; by eexists. Qed.

Lemma err_in_cons (r : option (result IoError unit)) l :
  (exists e, Some (Err e) ∈ r :: l) <-> (exists e, r = Some (Err e)) \/ exists e, Some (Err e) ∈ l.
Proof.
  split.
  - intros [e [<-|He]%elem_of_cons]; [left|right]; by exists e.
  - intros [[e ->]|[e He]]; exists e; [left|by right].
Qed.

Lemma c_string_app name memory : 0 ∉ name -> c_string (name ++ memory) = name ++ c_string memory.
Proof.
  induction name as [|c name IH]; [done|]. intros [Hc Hn]%not_elem_of_cons. cbn.
  rewrite (proj2 (Z.eqb_neq c 0)) by congruence. by rewrite IH.
Qed.

Lemma run_ops_made outcome ops :
  match run_ops outcome ops with
  | (Ok _, made) => made = ops
  | (Err e, made) => exists op rest, ops = made ++ rest /\ op ∈ made /\ outcome op = Err e
  end.
Proof.
  induction ops as [|op ops IH]; [done|]. cbn. destruct (outcome op) as [[]|e] eqn:Eo.
  - destruct (run_ops outcome ops) as [[[]|e] made]; [by rewrite IH|].
    destruct IH as (op' & rest & -> & Hin & He). exists op', rest. split_and!; [done|by right|done].
  - exists op, ops. split_and!; [done|left|done].
Qed.

(** ** Properties *)

(** C40: the descriptors of a raw packet stream.  Opening never panics for the two
    protocols it is used with; a stream that opens owns one more descriptor, which its drop
    releases; and an attempt that fails leaves the table as it was, except when binding to
    the interface fails, which leaves the new descriptor open.  The error is that of the
    call that failed unless closing the descriptor failed too, whose error then replaces
    that of the filter. *)
Theorem raw_stream_descriptors (protocol : Z) (env : RawEnv) (os : Os) :
  protocol = IPPROTO_ICMP \/ protocol = IPPROTO_ICMPV6 -> (forall fd, rw_socket env = Ok fd -> fd ∉ os_open os) ->
  exists r os', raw_packet_stream_new protocol env os = Ret (r, os') /\
    match r with
    | Ok fd => rw_socket env = Ok fd /\ os_open os' = {[fd]} ∪ os_open os /\
               forall outcome, os_open (raw_packet_stream_drop fd outcome os') = os_open os
    | Err code =>
        match rw_socket env, rw_bind env, rw_filter env with
        | Err c, _, _ => code = c /\ os_open os' = os_open os
        | Ok fd, Err c, _ => code = c /\ os_open os' = {[fd]} ∪ os_open os
        | Ok _, Ok _, Err c =>
            code = (match rw_close env with Ok _ => c | Err c' => c' end) /\ os_open os' = os_open os
        | Ok _, Ok _, Ok _ => rw_register env = Err code /\ os_open os' = os_open os
        end
    end.
Proof.
  intros Hp Hfresh. unfold raw_packet_stream_new.
  assert (exists f, raw_family protocol = Ret f) as [f ->] by (destruct Hp as [-> | ->]; by eexists). cbn [bindM].
  destruct (rw_socket env) as [fd|c]; [|by eexists _, _]. specialize (Hfresh fd eq_refl).
  destruct (rw_bind env) as [[]|c]; [|by eexists _, _].
  assert (forall o, os_open (close_fd fd o (mkOs ({[fd]} ∪ os_open os) (os_errno os))) = os_open os) as Hclose by (intros o; cbn; set_solver).
  destruct (rw_filter env) as [[]|c].
  - destruct (rw_register env) as [[]|c]; (eexists _, _; split; [done|]).
    + split_and!; [done|done|]. apply Hclose.
    + split; [done|]. apply Hclose.
  - eexists _, _. split; [done|]. cbn. split; [by destruct (rw_close env)|]. set_solver.
Qed.

(** A packet goes to its destination with the time to live it was given, in the units of
    the address family; nothing is sent when the option cannot be set. *)
Theorem raw_send_to_correct writable setsockopt sendto dst ttl packet :
  match raw_send_to writable setsockopt sendto dst ttl packet with
  | Ok _ => exists n, (if is_ipv4 dst then setsockopt IPPROTO_IP IP_TTL ttl else setsockopt IPPROTO_IPV6 IPV6_UNICAST_HOPS ttl) = Ok tt /\
              sendto packet (socket_addr_to_libc (full_of_ip dst)) = Ok n /\
              (wf_full (full_of_ip dst) -> libc_to_socket_addr (socket_addr_to_libc (full_of_ip dst)).1 = Ret (full_of_ip dst))
  | Err e => writable = Err e \/ (exists l o, setsockopt l o ttl = Err e) \/
             sendto packet (socket_addr_to_libc (full_of_ip dst)) = Err e
  end.
Proof.
  unfold raw_send_to, set_socket_ttl. destruct writable as [[]|e]; cbn [bindR]; [|by left].
  destruct (is_ipv4 dst); (destruct (setsockopt _ _ ttl) as [[]|e] eqn:Es; cbn [bindR]; [|right; left; by eauto]);
    (destruct (sendto _ _) as [n|e] eqn:Et; cbn [bindR]; [|by right; right]);
    (exists n; split; [done|]; split; [done|]); intros Hwf; by apply socket_addr_roundtrip.
Qed.

(** On macOS the name of the interface is read past its end: the function looks up the
    name followed by whatever the memory behind it has, so that an interface is found by
    its name only when that happens to begin with a zero byte. *)
Theorem macos_interface_name_overread name c memory :
  0 ∉ name -> c <> 0 ->
  c_string (name ++ c :: memory) <> name /\
  forall if_nametoindex enoent bind_by_index,
    (forall n, if_nametoindex n <> 0 -> n = name) ->
    bind_to_interface_macos name (c :: memory) if_nametoindex enoent bind_by_index = Err enoent.
Proof.
  intros Hn Hc. assert (c_string (name ++ c :: memory) <> name) as Hne.
  { rewrite c_string_app by done. cbn. rewrite (proj2 (Z.eqb_neq c 0)) by done. intros E.
    apply (f_equal length) in E. rewrite length_app in E. cbn in E. lia. }
  split; [done|]. intros f enoent b Hf. unfold bind_to_interface_macos.
  destruct (Z.eqb_spec (f (c_string (name ++ c :: memory))) 0) as [E|E]; [done|]. by apply Hf in E.
Qed.

(** The filters let through what the forwarder looks at.  Of the ICMPv6 messages exactly
    those that answer an echo request pass; of the ICMP messages the same, except that
    source quench and redirect messages, which the forwarder would pass on, never reach
    it.  Echo requests never pass. *)
Theorem icmp_filters_match (m : Message) (echo : Echo) :
  responded_echo_request m = Ret (Some echo) ->
  match m with
  | MsgV4 x => icmp_passes (V4.v4_type_id x) = negb (bool_decide (V4.v4_type_id x = 4 \/ V4.v4_type_id x = 5))
  | MsgV6 x => icmp6_passes (V6.v6_type_id x) = true
  end.
Proof. destruct m as [[]|[]]; intros H; try (vm_compute; reflexivity); discriminate H. Qed.

Lemma echo_requests_filtered e :
  icmp_passes (V4.v4_type_id (V4.EchoRequest e)) = false /\ icmp6_passes (V6.v6_type_id (V6.EchoRequest e)) = false.
Proof. by split; vm_compute. Qed.

Lemma filters_exact :
  (forall t, 0 <= t < 32 -> icmp_passes t = bool_decide (t ∈ [0; 3; 11; 12])) /\
  (forall t, 0 <= t < 256 -> icmp6_passes t = bool_decide (t ∈ [1; 2; 3; 4; 129])).
Proof.
  assert (forall n (P : Z -> Prop) `{forall t, Decision (P t)}, forallb (fun t => bool_decide (P t)) (Z.of_nat <$> seq 0 n) = true ->
    forall t, 0 <= t < Z.of_nat n -> P t) as Hall.
  { intros n P dec Hf t Ht. rewrite forallb_forall in Hf. apply (bool_decide_eq_true_1 (P t)), Hf.
    apply list_elem_of_In, list_elem_of_fmap. exists (Z.to_nat t). split; [lia|]. apply elem_of_seq. lia. }
  split.
  - apply (Hall 32%nat (fun t => icmp_passes t = bool_decide (t ∈ [0; 3; 11; 12])) _). vm_compute. reflexivity.
  - apply (Hall 256%nat (fun t => icmp6_passes t = bool_decide (t ∈ [1; 2; 3; 4; 129])) _). vm_compute. reflexivity.
Qed.

(** The endpoint listens for both address families on an IPv6 address, and for its own on
    an IPv4 one: a listener that was made accepts clients over IPv4, is bound to the
    configured address and does not block; and before the socket is bound everything else
    is set, so that no client is served by a socket that is half set up. *)
Theorem listeners_dual_stack (outcome : SockOp -> result Z unit) (addr : SocketAddr) (udp : bool) made :
  run_ops outcome (if udp then udp_socket_ops addr else tcp_listener_ops addr) = (Ok tt, made) ->
  accepts_v4 made = true /\ exists before after, made = before ++ BindOp addr :: after /\
    SetNonblocking true ∈ before /\ BindOp addr ∉ before /\ after = if udp then [FromStd] else [ListenOp 1024; FromStd].
Proof.
  intros E. pose proof (run_ops_made outcome (if udp then udp_socket_ops addr else tcp_listener_ops addr)) as H.
  rewrite E in H. subst made.
  destruct udp; unfold udp_socket_ops, tcp_listener_ops; destruct (domain_of addr); cbn [dual_stack app]; (split; [done|]).
  - exists [NewSocketOp DomainV4 TypeDgram; SetNonblocking true], [FromStd]. split_and!; [done|set_solver|set_solver|done].
  - exists [NewSocketOp DomainV6 TypeDgram; SetOnlyV6 false; SetNonblocking true], [FromStd]. split_and!; [done|set_solver|set_solver|done].
  - exists [NewSocketOp DomainV4 TypeStream; SetReuseAddress true; SetNonblocking true], [ListenOp 1024; FromStd].
    split_and!; [done|set_solver|set_solver|done].
  - exists [NewSocketOp DomainV6 TypeStream; SetOnlyV6 false; SetReuseAddress true; SetNonblocking true], [ListenOp 1024; FromStd].
    split_and!; [done|set_solver|set_solver|done].
Qed.

(** The endpoint listens until it is told to stop.  Whatever its listeners meet, they do
    not all succeed, since the one for TCP never returns without an error; so [listen]
    returns success only upon the notification of a shutdown, and a listener that fails
    ends it with an error. *)
Theorem core_listens_until_shutdown guard ev setup udp icmp metrics :
  (forall r, ev = ListenersEnded r -> core_listeners (listen_tcp setup) udp icmp metrics = Some r) ->
  (core_listen guard ev = Ok tt -> ev = ShutdownNotified (Ok tt)) /\
  ((exists e, core_listeners (listen_tcp setup) udp icmp metrics = Some (Err e)) <->
   exists e, Some (Err e) ∈ [listen_tcp setup; udp; icmp; metrics]).
Proof.
  intros Hev. split.
  - unfold core_listen. destruct guard; cbn [negb]; [|done].
    destruct ev as [[[]|]|[] []|r]; try done. intros ->. specialize (Hev _ eq_refl).
    apply try_join_ok, Forall_cons in Hev as [Hev _]. by destruct setup.
  - unfold core_listeners. by rewrite try_join_err, !err_in_cons, !listener_failure_err.
Qed.

(** A failed [accept] on the metrics port ends the endpoint: the error ends the listener
    of the metrics and with it [listen], while the loop for clients goes on after one. *)
Theorem metrics_accept_ends_endpoint s settings bind n e accepts guard tcp_setup udp icmp :
  st_metrics s = Some settings -> bind (ms_address settings) = Ok tt ->
  listen_tcp tcp_setup = None -> (forall e', udp <> Some (Err e')) -> (forall e', icmp <> Some (Err e')) ->
  exists failure,
    core_listeners (listen_tcp tcp_setup) udp icmp (metrics_listen None s bind (replicate n (Ok tt) ++ Err e :: accepts)) = Some (Err failure) /\
    ioe_kind failure = ioe_kind e /\ core_listen guard (ListenersEnded (Err failure)) <> Ok tt.
Proof.
  intros Hs Hb -> Hu Hi. unfold metrics_listen, metrics_listen_inner. rewrite Hs, Hb.
  assert (forall next, metrics_accept (replicate n (Ok tt) ++ Err e :: accepts) next = (Some (Err e), next + Z.of_nat n)) as Ha.
  { induction n as [|n IH]; intros next; cbn [replicate app metrics_accept]; [f_equal; lia|]. rewrite IH. f_equal. lia. }
  rewrite Ha. cbn [fst]. unfold core_listeners. cbn [listener_failure].
  eexists. split; [|split; [|by destruct guard]].
  - destruct udp as [[[]|e']|], icmp as [[[]|e'']|]; cbn; first [reflexivity|by destruct (Hu e')|by destruct (Hi e'')].
  - done.
Qed.

(** ** Witness *)

(** An interface that does not exist: the descriptor stays open. *)
Lemma raw_stream_descriptors_witness :
  exists os', raw_packet_stream_new IPPROTO_ICMP (mkRawEnv (Ok 7) (Err 19) (Ok tt) (Ok tt) (Ok tt)) (mkOs {[3]} 0) = Ret (Err 19, os') /\
    os_open os' = {[7]} ∪ {[3]}.
Proof.
  destruct (raw_stream_descriptors IPPROTO_ICMP (mkRawEnv (Ok 7) (Err 19) (Ok tt) (Ok tt) (Ok tt)) (mkOs {[3]} 0)) as (r & os' & E & H).
  - by left.
  - intros fd [= <-]. set_solver.
  - vm_compute in E. apply Ret_inj in E. injection E as <- <-. eexists. split; [reflexivity|]. apply H.
Defined.
