(* ===== verification/Endpoint.v ===== *)
(** * The endpoint binary

    endpoint/src/main.rs: the limit of open files, the export of a client configuration
    from the command line, the start of the endpoint and its reload on SIGHUP.  The
    parsers of the TOML files, the file system, the certificate verifier and the random
    generator are parameters; the exit of the process with an error message is a value. *)

From S2P Require Import Prelude.
From S2P Require Import Codecs.
From S2P Require Import Varint.
From S2P Require Import DeepLink.
From S2P Require Import Cert.
From S2P Require Import NetUtils.
From S2P Require Import Rules.
From S2P Require Import Auth.
From S2P Require Import Tunnel.
From S2P Require Import Pipe.
From S2P Require Import TcpForwarder.
From S2P Require Import ForwardedStream.
From S2P Require Import TlsDemux.
From S2P Require Import Http1Codec.
From S2P Require Import ReverseProxy.
From S2P Require Import IpText.
From S2P Require Import Settings.
From S2P Require Import ClientConfig.

(** ** The limit of open files *)

Definition max_rlim : Z := 65536.

(** The limits that [setrlimit] is called with, if it is; [getrlimit] gives the soft and
    the hard one. *)
Definition increase_fd_limit (getrlimit : result unit (Z * Z)) : option (Z * Z) :=
  match getrlimit with
  | Err _ => None
  | Ok (soft, hard) =>
      let target_limit := Z.min hard max_rlim in
      if target_limit <=? soft then None else Some (target_limit, hard)
  end.

(** ** Addresses *)

(** A port that does not parse is a panic. *)
Definition parse_endpoint_address (input : bytes) (default_port : Z) : M bytes :=
  match socket_from_str input with
  | Some (addr, scope) => Ret (socket_to_string addr scope)
  | None =>
      match socket_from_str (input ++ [0x3A] ++ decimal default_port) with
      | Some (addr, scope) => Ret (socket_to_string addr scope)
      | None =>
          match ip_from_str input with
          | Some ip => Ret (socket_to_string (mkAddr ip default_port) 0)
          | None =>
              match rsplit_once 0x3A input with
              | Some (domain, port_str) =>
                  match parse_u16 port_str with
                  | Some port => Ret (domain ++ [0x3A] ++ decimal port)
                  | None => Panic
                  end
              | None => Ret (input ++ [0x3A] ++ decimal default_port)
              end
          end
      end
  end.

Fixpoint parse_addresses (l : list bytes) (default_port : Z) : M (list bytes) :=
  match l with
  | [] => Ret []
  | a :: l => let! x := parse_endpoint_address a default_port in let! xs := parse_addresses l default_port in Ret (x :: xs)
  end.

Definition select_client_addresses (explicit : list bytes) (subscription : option SubscriptionSettings)
    (listen_port : Z) : M (result ErrorKind (list bytes)) :=
  if negb (bool_decide (explicit = [])) then
    let! l := parse_addresses explicit listen_port in Ret (Ok l)
  else
    match (match subscription with Some sub => if ss_enabled sub then ss_address sub else None | None => None end) with
    | None => Ret (Err Other)
    | Some address => let! a := parse_endpoint_address address listen_port in Ret (Ok [a])
    end.

Definition extract_domain_for_warning (addr : bytes) : option bytes :=
  match socket_from_str addr with
  | Some _ => None
  | None =>
      match ip_from_str addr with
      | Some _ => None
      | None =>
          let domain := match rsplit_once 0x3A addr with Some (d, _) => d | None => addr end in
          match ip_from_str domain with Some _ => None | None => Some domain end
      end
  end.

Definition domain_matches_tls_hosts (domain : bytes) (hosts : TlsHostsSettings) : bool :=
  existsb (fun h => bool_decide (hi_hostname h = domain) || existsb (fun s => bool_decide (s = domain)) (hi_allowed_sni h))
    (ths_main hosts).

(** The addresses a warning is printed for. *)
Definition warned_addresses (addresses : list bytes) (hosts : TlsHostsSettings) : list bytes :=
  List.filter (fun a => match extract_domain_for_warning a with
                        | Some d => negb (domain_matches_tls_hosts d hosts)
                        | None => false
                        end) addresses.

(** ** The rules file *)

(** What a parsed rules file has under the key [rule]. *)
Inductive RuleItem : Type :=
| RuleAbsent
| RuleTables (l : list TomlTable)
| RuleOther.

Definition string_item (s : bytes) : TomlItem := mkItem ([0x22] ++ s ++ [0x22]) (Some s) None.

Definition new_allow_rule (client_random_prefix : bytes) : TomlTable :=
  [(str "client_random_prefix", string_item client_random_prefix); (str "action", string_item (str "allow"))].

Section files.
(** [rule_item content] is what the document has under [rule], [None] when it does not
    parse; [with_rules content l] is the document printed with the tables [l] there. *)
Context (rule_item : bytes -> option RuleItem) (with_rules : bytes -> list TomlTable -> bytes).

(** The contents that the file is written with; a file that cannot be read counts as
    empty. *)
Definition append_allow_rule (file : result ErrorKind bytes) (client_random_prefix : bytes) : result ErrorKind bytes :=
  let content := match file with Ok c => c | Err _ => [] end in
  match rule_item content with
  | None => Err InvalidData
  | Some RuleOther => Err InvalidData
  | Some RuleAbsent => Ok (with_rules content [new_allow_rule client_random_prefix])
  | Some (RuleTables tail) => Ok (with_rules content (new_allow_rule client_random_prefix :: tail))
  end.

(** [rules_file contents] is the string under [rules_file] of the parsed settings file;
    [parent] is [Path::parent]. *)
Context (rules_file : bytes -> option bytes) (parent : bytes -> option bytes).

(** [Path::join] of a relative path. *)
Definition path_join (dir path : bytes) : bytes :=
  if bool_decide (dir = []) || bool_decide (last dir = Some 0x2F) then dir ++ path else dir ++ [0x2F] ++ path.

Definition extract_rules_file_path (settings_contents settings_path : bytes) : option bytes :=
  match rules_file settings_contents with
  | None => None
  | Some path =>
      if starts_with [0x2F] path then Some path
      else Some (path_join (match parent settings_path with Some d => d | None => str "." end) path)
  end.

End files.

(** ** An explicit client random prefix *)

Inductive ExportError : Type :=
| NoAddress
| BadCustomSni
| BadPrefixMask
| GeneratorError (e : GenError)
| NoRulesFile
| AppendFailed (e : ErrorKind)
| PrefixNotHex
| MaskNotHex
| NoMatchingRule
| MatchingRuleDenies
| BadSubscriptionUrl (e : UrlOverrideError)
| AuthKeyNotHex
| NoAuthKeyRule
| AuthKeyRuleDenies
| SubscriptionOnlyFormat
| SubscriptionOnlyDisabled
| SubscriptionOnlyCertificate
| DeepLinkFailed (e : ErrorKind)
| UnsupportedFormat.

Section prefixes.
Context (hex_decode : bytes -> option bytes).

(** Every bit of the rule's mask is in the given one. *)
Definition mask_covers (mi mr : bytes) : bool :=
  (len mr <=? len mi) && forallb (fun '(i, r) => Z.land i r =? r) (zip mi mr).

(** The closure that looks for the rule. *)
Definition rule_for_prefix (input_prefix : bytes) (input_mask : option bytes) (r : Rule) : bool :=
  match rule_client_random_prefix r with
  | None => false
  | Some p =>
      let (rule_prefix, rule_mask) :=
        match split_once 0x2F p with Some (a, b) => (a, Some b) | None => (p, None) end in
      if negb (bool_decide (rule_prefix = input_prefix)) then false
      else
        match input_mask, rule_mask with
        | _, None => true
        | None, Some _ => true
        | Some mi_str, Some mr_str =>
            match hex_decode mi_str, hex_decode mr_str with
            | Some mi, Some mr => mask_covers mi mr
            | _, _ => false
            end
        end
  end.

Definition check_explicit_prefix (rules_engine : option RulesEngine) (prefix : bytes) : result ExportError unit :=
  let has_slash := existsb (Z.eqb 0x2F) prefix in
  let (input_prefix, input_mask) := match split_once 0x2F prefix with Some p => p | None => (prefix, []) end in
  if negb (bool_decide (is_Some (hex_decode input_prefix))) then Err PrefixNotHex
  else if (has_slash && bool_decide (input_mask = []))
          || (negb (bool_decide (input_mask = [])) && negb (bool_decide (is_Some (hex_decode input_mask))))
  then Err MaskNotHex
  else
    match rules_engine with
    | None => Ok tt
    | Some engine =>
        let input_mask := if bool_decide (input_mask = []) then None else Some input_mask in
        match List.find (rule_for_prefix input_prefix input_mask) (rule (rules engine)) with
        | None => Err NoMatchingRule
        | Some r => match action r with DenyAction => Err MatchingRuleDenies | AllowAction => Ok tt end
        end
    end.

(** [str::to_lowercase], on the ASCII strings that a hex key can be. *)
Definition check_auth_key (rules_engine : option RulesEngine) (auth_key : bytes) : result ExportError unit :=
  if negb (is_valid_hex hex_decode auth_key) then Err AuthKeyNotHex
  else
    match rules_engine with
    | None => Ok tt
    | Some engine =>
        match List.find (fun r => bool_decide (to_lower <$> rule_client_random_auth_key r = Some (to_lower auth_key)))
                (rule (rules engine)) with
        | None => Err NoAuthKeyRule
        | Some r => match action r with DenyAction => Err AuthKeyRuleDenies | AllowAction => Ok tt end
        end
    end.

End prefixes.

(** ** The export of a client configuration *)

(** [--generate-client-random-prefix] with [--prefix-mask], or with the length and the
    percentage. *)
Inductive GenerateArgs : Type :=
| WithMask (mask_hex : bytes)
| WithParams (p : GeneratorParams).

Record ExportArgs : Type := mkExportArgs {
  ea_username : bytes;
  ea_addresses : list bytes;
  ea_custom_sni : option bytes;
  ea_generate : option GenerateArgs;
  ea_client_random_prefix : option bytes;
  ea_client_random_auth_key : option bytes;
  ea_name : option bytes;
  ea_dns_upstreams : list bytes;
  ea_subscription_url : option bytes;
  ea_subscription_only : bool;
  ea_format : bytes;
}.

Inductive ExportOutput : Type :=
| PrintedToml (doc : gmap bytes TomlValue)
| PrintedDeepLink (deep_link qr_fragment : bytes).

(** How the process ends: with the output, with the exit code 1, or by a panic. *)
Inductive Exported : Type :=
| Printed (o : ExportOutput)
| Exit1 (e : ExportError)
| Crashed.

Definition finish {A} (m : M (result ExportError A)) (k : A -> Exported) : Exported :=
  match m with Panic => Crashed | Ret (Err e) => Exit1 e | Ret (Ok a) => k a end.

(** What the command reads besides its arguments. *)
Record ExportEnv : Type := mkExportEnv {
  xe_hex_encode : bytes -> bytes;
  xe_hex_decode : bytes -> option bytes;
  xe_b64_encode : bytes -> bytes;
  xe_pemfile_certs : bytes -> option (list bytes);
  xe_read_to_string : bytes -> result ErrorKind bytes;
  xe_verifiable : option (bytes -> bytes -> bool);
  xe_draw : nat -> Z -> Z;
  xe_random : nat -> Z;
  xe_rule_item : bytes -> option RuleItem;
  xe_with_rules : bytes -> list TomlTable -> bytes;
  xe_rules_file : bytes -> option bytes;
  xe_parent : bytes -> option bytes;
  xe_write : bytes -> bytes -> result ErrorKind unit;
}.

Section export.
Context (env : ExportEnv) (settings : Settings) (settings_contents settings_path : bytes)
  (tls_hosts_settings : TlsHostsSettings) (subscription_host : option TlsHostInfo).

(** The contents written to the rules file, with its path, and the prefix. *)
Definition generate_prefix (g : GenerateArgs) : result ExportError (bytes * bytes * bytes) :=
  let? generated :=
    match g with
    | WithMask mask_hex =>
        match xe_hex_decode env mask_hex with
        | None => Err BadPrefixMask
        | Some mask => map_err GeneratorError (generate_with_mask (xe_random env) mask)
        end
    | WithParams p => map_err GeneratorError (generate (xe_draw env) (xe_random env) p)
    end in
  let generated_prefix := to_masked_hex_string (xe_hex_encode env) generated in
  match extract_rules_file_path (xe_rules_file env) (xe_parent env) settings_contents settings_path with
  | None => Err NoRulesFile
  | Some rules_path =>
      let? content := map_err AppendFailed
        (append_allow_rule (xe_rule_item env) (xe_with_rules env) (xe_read_to_string env rules_path) generated_prefix) in
      let? _ := map_err AppendFailed (xe_write env rules_path content) in
      Ok (rules_path, content, generated_prefix)
  end.

(** The URL of the subscription: [None] when it is not enabled or the user is unknown. *)
Definition export_subscription_url (args : ExportArgs) : result ExportError (option bytes) :=
  match st_subscription settings with
  | None => Ok None
  | Some sub =>
      if negb (ss_enabled sub) then Ok None
      else
        match List.find (fun c => bool_decide (Auth.username c = ea_username args)) (st_clients settings) with
        | None => Ok None
        | Some user =>
            match ss_hostname sub with
            | None => Ok None
            | Some hostname =>
                let? base :=
                  match ea_subscription_url args with
                  | Some override_url =>
                      let? _ := map_err BadSubscriptionUrl (validate_subscription_url_override override_url) in
                      Ok override_url
                  | None =>
                      let port := match subscription_url_port (ss_address sub) with
                                  | Some port => [0x3A] ++ decimal port
                                  | None => []
                                  end in
                      Ok (HTTPS ++ hostname ++ port ++ ss_path sub)
                  end in
                Ok (Some (build_subscription_url base (Auth.username user) (Auth.password user)))
            end
        end
  end.

Definition valid_custom_sni (sni : bytes) : bool :=
  existsb (fun host => bool_decide (hi_hostname host = sni) || bool_decide (sni ∈ hi_allowed_sni host))
    (ths_main tls_hosts_settings).

(** The checks on the subscription and the output. *)
Definition print_config (args : ExportArgs) (subscription_enabled : bool) (client_config : ClientConfig) : Exported :=
  let deeplink := bool_decide (ea_format args = str "deeplink") in
  if ea_subscription_only args && negb deeplink then Exit1 SubscriptionOnlyFormat
  else if ea_subscription_only args && negb subscription_enabled then Exit1 SubscriptionOnlyDisabled
  else if ea_subscription_only args && bool_decide (ea_subscription_url args = None)
          && match subscription_host with
             | Some host => negb (match xe_verifiable env with
                                  | Some v => v (hi_cert_chain_path host) (hi_hostname host)
                                  | None => false
                                  end)
             | None => false
             end
  then Exit1 SubscriptionOnlyCertificate
  else if bool_decide (ea_format args = str "toml") then Printed (PrintedToml (compose_toml client_config))
  else if deeplink then
    match (if ea_subscription_only args
           then compose_deeplink_subscription_only (xe_hex_decode env) (xe_b64_encode env) client_config
           else compose_deeplink (xe_pemfile_certs env) (xe_b64_encode env) client_config) with
    | Ok deep_link =>
        match strip_prefix (str "tt://?") deep_link with
        | Some tail => Printed (PrintedDeepLink deep_link tail)
        | None => Crashed
        end
    | Err e => Exit1 (DeepLinkFailed e)
    end
  else Exit1 UnsupportedFormat.

(** After the prefix is known. *)
Definition export_with_prefix (args : ExportArgs) (addresses : list bytes) (client_random_prefix : option bytes) : Exported :=
  finish (Ret (export_subscription_url args)) (fun subscription_url =>
  finish (Ret (match ea_client_random_auth_key args with
               | Some key => check_auth_key (xe_hex_decode env) (st_rules_engine settings) key
               | None => Ok tt
               end)) (fun _ =>
  match client_config_build (xe_read_to_string env) (xe_verifiable env) (ea_username args) addresses
          (st_clients settings) tls_hosts_settings (ea_custom_sni args) client_random_prefix
          (ea_client_random_auth_key args) (ea_name args) (ea_dns_upstreams args) subscription_url with
  | Panic => Crashed
  | Ret client_config => print_config args (bool_decide (is_Some subscription_url)) client_config
  end)).

(** The whole command: what is written to the rules file, and how the process ends. *)
Definition client_export (args : ExportArgs) : option (bytes * bytes) * Exported :=
  match select_client_addresses (ea_addresses args) (st_subscription settings) (addr_port (st_listen_address settings)) with
  | Panic => (None, Crashed)
  | Ret (Err _) => (None, Exit1 NoAddress)
  | Ret (Ok addresses) =>
      if match ea_custom_sni args with Some sni => negb (valid_custom_sni sni) | None => false end
      then (None, Exit1 BadCustomSni)
      else
        match ea_generate args with
        | Some g =>
            match generate_prefix g with
            | Err e => (None, Exit1 e)
            | Ok (path, content, prefix) => (Some (path, content), export_with_prefix args addresses (Some prefix))
            end
        | None =>
            (None,
             finish (Ret (match ea_client_random_prefix args with
                          | Some prefix => check_explicit_prefix (xe_hex_decode env) (st_rules_engine settings) prefix
                          | None => Ok tt
                          end)) (fun _ => export_with_prefix args addresses (ea_client_random_prefix args)))
        end
  end.

End export.

(** ** Start and reload *)

Section run.
Context (hex_decode : bytes -> option bytes) (is_system_verifiable : bytes -> bytes -> bool)
  (read_to_string : bytes -> result ErrorKind bytes)
  {Identity : Type} (load : TlsHostInfo -> result ErrorKind Identity) (certs_ok key_ok : bytes -> bool)
  (b64_encode : bytes -> bytes).
(** The deserializers of the two files; [subscription_only] reads the section alone. *)
Context (hosts_from_str : bytes -> option TlsHostsSettings)
  (subscription_from_str : bytes -> option (option SubscriptionSettings)).

Abbreviation Core := (CoreContext (Identity := Identity)).

(** An endpoint without clients has no authenticator. *)
Definition make_authenticator (settings : Settings) : option Authenticator :=
  if negb (bool_decide (st_clients settings = []))
  then Some (RegistryBasedAuthenticator b64_encode (st_clients settings)) else None.

(** The start: an error of [validate_with_hosts] ends the process, one of [Core::new]
    is a panic. *)
Definition start (metrics : result ErrorKind unit) (settings : Settings) (hosts : TlsHostsSettings)
  : M (result ValidationError (Core * option Authenticator)) :=
  match match st_subscription settings with
        | Some sub => match validate_with_hosts hex_decode sub settings hosts with Ok _ => Ok tt | Err e => Err e end
        | None => Ok tt
        end with
  | Err e => Ret (Err e)
  | Ok _ =>
      match core_new hex_decode is_system_verifiable read_to_string load certs_ok key_ok b64_encode metrics settings hosts with
      | Ok core => Ret (Ok (core, make_authenticator settings))
      | Err _ => Panic
      end
  end.

(** A round of the reload task, which is handed what the two files hold. *)
Definition on_sighup (hosts_file settings_file : result ErrorKind bytes) (core : Core) : M Core :=
  match hosts_file with
  | Err _ => Panic
  | Ok contents =>
      match hosts_from_str contents with
      | None => Panic
      | Some hosts =>
          match reload_tls_hosts_settings load certs_ok key_ok core hosts with
          | (Err _, _) => Panic
          | (Ok _, core) =>
              match (match settings_file with Ok c => subscription_from_str c | Err _ => None end) with
              | None => Ret core
              | Some sub =>
                  Ret (snd (reload_subscription_settings hex_decode is_system_verifiable read_to_string core sub hosts))
              end
          end
      end
  end.

End run.

(** The code the process exits with when a task ends. *)
Inductive TaskEnd : Type :=
| ListenEnd (r : result ErrorKind unit)
| ReloadEnd
| Interrupted.

Definition exit_code (e : TaskEnd) : Z :=
  match e with ListenEnd (Ok _) => 0 | ListenEnd (Err _) => 1 | ReloadEnd => 1 | Interrupted => 0 end.

(** ** Open files and addresses *)

(** The soft limit is only raised, and stays within the hard one. *)
Lemma increase_fd_limit_raises soft hard l h :
  0 <= soft <= hard -> increase_fd_limit (Ok (soft, hard)) = Some (l, h) -> soft < l <= h /\ h = hard /\ l <= max_rlim.
Proof.
  intros Hs. unfold increase_fd_limit. destruct (Z.leb_spec (Z.min hard max_rlim) soft); [done|]. intros [= <- <-]. lia.
Qed.

(** An address in canonical form is left as it is, whatever the default port. *)
Lemma canonical_address_kept a port : wf_addr a -> parse_endpoint_address (socket_to_string a 0) port = Ret (socket_to_string a 0).
Proof. intros Ha. unfold parse_endpoint_address. by rewrite socket_text_roundtrip. Qed.

(** The exit by a panic: a colon, no address, and no number that fits a port after it. *)
Lemma parse_endpoint_address_panics input port :
  parse_endpoint_address input port = Panic <->
  socket_from_str input = None /\ socket_from_str (input ++ [0x3A] ++ decimal port) = None /\ ip_from_str input = None /\
  exists d p, rsplit_once 0x3A input = Some (d, p) /\ parse_u16 p = None.
Proof.
  unfold parse_endpoint_address. split.
  - destruct (socket_from_str input) as [[]|]; [done|]. destruct (socket_from_str _) as [[]|]; [done|].
    destruct (ip_from_str input); [done|]. destruct (rsplit_once 0x3A input) as [[d p]|]; [|done].
    destruct (parse_u16 p) eqn:E; [done|]. intros _. split_and!; eauto.
  - intros (-> & -> & -> & d & p & -> & ->). done.
Qed.

Example endpoint_address_samples :
  parse_endpoint_address (str "1.2.3.4") 443 = Ret (str "1.2.3.4:443") /\
  parse_endpoint_address (str "::1") 443 = Ret (str "[::1]:443") /\
  parse_endpoint_address (str "[2001:db8::1]") 8443 = Ret (str "[2001:db8::1]:8443") /\
  parse_endpoint_address (str "vpn.example.com:8443") 443 = Ret (str "vpn.example.com:8443") /\
  parse_endpoint_address (str "vpn.example.com") 443 = Ret (str "vpn.example.com:443") /\
  parse_endpoint_address (str "vpn.example.com:https") 443 = Panic.
Proof. vm_compute. split_and!; reflexivity. Qed.

(** ** Client random prefixes *)

Lemma mask_covers_lookup mi mr i a b :
  mask_covers mi mr = true -> mr !! i = Some b -> mi !! i = Some a -> Z.land a b = b.
Proof.
  unfold mask_covers. intros [_ Hall]%andb_true_iff Hb Ha. rewrite forallb_forall in Hall.
  apply Z.eqb_eq, (Hall (a, b)), list_elem_of_In, (list_elem_of_lookup_2 _ i). by rewrite lookup_zip_with, Ha; simpl; rewrite Hb.
Qed.

(** A client random that fits a prefix under a mask fits it under every mask it covers. *)
Lemma mask_spec_weaken cr mi mr p : mask_covers mi mr = true -> mr <> [] -> mask_spec cr mi p -> mask_spec cr mr p.
Proof.
  intros Hc Hne (H1 & _ & H3 & H). split_and!; [done|done|done|]. intros i c m q Hi Hm Hq.
  assert (exists a, mi !! i = Some a) as [a Ha].
  { apply lookup_lt_is_Some_2. apply lookup_lt_Some in Hm. unfold mask_covers in Hc.
    apply andb_true_iff in Hc as [Hl%Z.leb_le _]. unfold len in Hl. lia. }
  rewrite <- (mask_covers_lookup _ _ _ _ _ Hc Hm Ha), !Z.land_assoc. by rewrite (H i c a q).
Qed.

(** An exact prefix fits under any mask. *)
Lemma exact_fits_mask p rest m : p <> [] -> m <> [] -> mask_spec (p ++ rest) m p.
Proof.
  intros Hp Hm. split_and!; [by destruct p|done|done|]. intros i c x q Hc _ Hq.
  rewrite lookup_app_l in Hc by (by eapply lookup_lt_Some). congruence.
Qed.

(** The text of a rule's prefix, split as the export splits it. *)
Definition split_prefix (p : bytes) : bytes * option bytes :=
  match split_once 0x2F p with Some (a, b) => (a, Some b) | None => (p, None) end.

Section prefix_proofs.
Context {hex_decode : bytes -> option bytes}.

Lemma prefix_spec_split s cr :
  prefix_spec hex_decode s cr <->
  match split_prefix s with
  | (a, None) => exists p rest, hex_decode a = Some p /\ cr = p ++ rest
  | (a, Some b) => exists p m, hex_decode a = Some p /\ hex_decode b = Some m /\ mask_spec cr m p
  end.
Proof.
  unfold prefix_spec, split_prefix. destruct (split_once 0x2F s) as [[a b]|] eqn:E.
  - apply split_once_inv in E as [-> Ha]. split.
    + intros [[Hn _]|(a' & b' & p & m & Es & Ha' & Hp & Hm & H)]; [set_solver|].
      assert (split_once 0x2F (a ++ 0x2F :: b) = Some (a, b)) as E1 by (by apply split_once_app).
      rewrite Es, split_once_app in E1 by done. simplify_eq. eauto.
    + intros (p & m & Hp & Hm & H). right. by exists a, b, p, m.
  - apply split_once_None in E. split.
    + intros [[_ H]|(a & b & p & m & -> & _)]; [done|set_solver].
    + intros H. by left.
Qed.

(** A rule that the export accepts with a mask of its own, or for a prefix without a mask,
    accepts every client random that fits the exported prefix. *)
Lemma rule_for_prefix_admits prefix r rp cr a b :
  split_prefix prefix = (a, b) -> rule_client_random_prefix r = Some rp -> rule_for_prefix hex_decode a b r = true ->
  (forall m, snd (split_prefix rp) = Some m -> m <> [] /\ exists x, hex_decode m = Some x /\ x <> []) ->
  (snd (split_prefix rp) = None -> b = None) -> hex_decode a <> Some [] ->
  prefix_spec hex_decode prefix cr -> prefix_spec hex_decode rp cr.
Proof.
  intros Ea Hrp Hr Hmask Hnone Hne. rewrite !prefix_spec_split, Ea. unfold rule_for_prefix in Hr. rewrite Hrp in Hr.
  fold (split_prefix rp) in Hr. destruct (split_prefix rp) as [ra rm] eqn:Erp. simpl in Hmask, Hnone.
  destruct (bool_decide_reflect (ra = a)) as [->|]; [|done]. simpl in Hr.
  destruct b as [mi|], rm as [mr|].
  - intros (p & m & Hp & Hm & H). rewrite Hm in Hr. destruct (Hmask mr eq_refl) as (_ & x & Hx & Hxne).
    rewrite Hx in Hr. exists p, x. split_and!; [done|done|]. by eapply mask_spec_weaken.
  - by specialize (Hnone eq_refl).
  - intros (p & rest & Hp & ->). destruct (Hmask mr eq_refl) as (_ & x & Hx & Hxne).
    exists p, x. split_and!; [done|done|]. apply exact_fits_mask; [congruence|done].
  - done.
Qed.

End prefix_proofs.

(** An explicit prefix is exported only with an allow rule behind it, and whenever that
    rule has a mask or the exported prefix has none, the rule accepts every client random
    that fits the exported prefix: the comparison of the masks is the right one. *)
Theorem explicit_prefix_admits hex_decode engine prefix :
  check_explicit_prefix hex_decode (Some engine) prefix = Ok tt ->
  hex_decode (fst (split_prefix prefix)) <> Some [] ->
  (forall r rp m, r ∈ rule (rules engine) -> rule_client_random_prefix r = Some rp -> snd (split_prefix rp) = Some m ->
     m <> [] /\ exists x, hex_decode m = Some x /\ x <> []) ->
  exists r rp, r ∈ rule (rules engine) /\ action r = AllowAction /\ rule_client_random_prefix r = Some rp /\
    (snd (split_prefix prefix) = None \/ snd (split_prefix rp) <> None ->
     forall cr, prefix_spec hex_decode prefix cr -> prefix_spec hex_decode rp cr).
Proof.
  intros Hcheck Hne Hmasks. unfold check_explicit_prefix in Hcheck.
  assert (exists a b, split_prefix prefix = (a, b) /\ exists r,
    List.find (rule_for_prefix hex_decode a b) (rule (rules engine)) = Some r /\ action r = AllowAction) as
    (a & b & Ea & r & Hfind & Hact).
  { unfold split_prefix. destruct (split_once 0x2F prefix) as [[x y]|] eqn:E.
    - exists x, (Some y). split; [done|]. destruct (bool_decide (is_Some (hex_decode x))); [|done]. simpl in Hcheck.
      assert (existsb (Z.eqb 0x2F) prefix = true) as Hslash.
      { apply split_once_inv in E as [-> _]. rewrite existsb_app. simpl. by rewrite orb_true_r. }
      rewrite Hslash in Hcheck. destruct (bool_decide_reflect (y = [])) as [->|]; [done|]. simpl in Hcheck.
      destruct (negb _); [done|]. destruct (List.find _ _) as [r|] eqn:Ef; [|done].
      exists r. destruct (action r) eqn:Er; done.
    - exists prefix, None. split; [done|]. destruct (bool_decide (is_Some (hex_decode prefix))); [|done]. simpl in Hcheck.
      destruct (existsb (Z.eqb 0x2F) prefix) eqn:Ex; simpl in Hcheck; [done|].
      destruct (List.find _ _) as [r|] eqn:Ef; [|done]. exists r. destruct (action r) eqn:Er; done. }
  apply List.find_some in Hfind as [Hin Hr]. apply list_elem_of_In in Hin.
  destruct (rule_client_random_prefix r) as [rp|] eqn:Erp; [|unfold rule_for_prefix in Hr; by rewrite Erp in Hr].
  exists r, rp. split_and!; [done|done|done|]. intros Hcase cr. rewrite Ea in Hne, Hcase. simpl in *.
  eapply rule_for_prefix_admits; [done|done|done|intros m Hm; by eapply Hmasks| |done]. intros Hn. by destruct Hcase.
Qed.

Module PrefixSample.

Definition engine : RulesEngine :=
  mkEngine (mkRules [mkRule None (Some (str "a0b0/f0f0")) None AllowAction; mkRule None None None DenyAction]).

End PrefixSample.

Lemma explicit_prefix_admits_witness :
  exists r rp, r ∈ rule (rules PrefixSample.engine) /\ action r = AllowAction /\ rule_client_random_prefix r = Some rp /\
    (snd (split_prefix (str "a0b0/f0ff")) = None \/ snd (split_prefix rp) <> None ->
     forall cr, prefix_spec HexRef.hex_decode (str "a0b0/f0ff") cr -> prefix_spec HexRef.hex_decode rp cr).
Proof.
  apply explicit_prefix_admits; [vm_compute; reflexivity|vm_compute; congruence|].
  intros r rp m Hr Hrp Hm. simpl in Hr. rewrite !elem_of_cons, elem_of_nil in Hr. destruct Hr as [->|[->|[]]]; [|done].
  injection Hrp as <-. injection Hm as <-. split; [done|]. exists [0xf0; 0xf0]. split; [vm_compute; reflexivity|done].
Defined.

(** The remaining case is wrong: against a rule without a mask every mask is taken to be
    strong enough, so that a prefix is exported whose clients the endpoint denies.  With
    the rules "allow a0b0, deny the rest" the prefix a0b0/f0f0 is exported, and a client
    random that fits it is denied. *)
Theorem masked_prefix_exported_but_denied ipnet hkdf sha256 aes ip sni :
  exists engine prefix cr,
    check_explicit_prefix HexRef.hex_decode (Some engine) prefix = Ok tt /\ len cr = 32 /\
    prefix_spec HexRef.hex_decode prefix cr /\
    evaluate ipnet HexRef.hex_decode hkdf sha256 aes engine ip (Some cr) (Some sni) = Ret Deny.
Proof.
  exists (mkEngine (mkRules [mkRule None (Some (str "a0b0")) None AllowAction; mkRule None None None DenyAction])),
    (str "a0b0/f0f0"), ([0xa1; 0xb1] ++ replicate 30 0).
  split; [vm_compute; reflexivity|]. split; [done|]. split.
  - apply prefix_spec_split. exists [0xa0; 0xb0], [0xf0; 0xf0]. split; [vm_compute; reflexivity|].
    split; [vm_compute; reflexivity|]. split_and!; [done|done|done|]. intros i c m p Hc Hm Hp.
    destruct i as [|[|i]]; simplify_eq/=; done.
  - unfold evaluate. cbn [rules rule existsb rule_client_random_prefix rule_client_random_auth_key].
    change (bool_decide (is_Some (@None bytes))) with false. rewrite !andb_false_r. simpl. done.
Qed.

(** ** Generated prefixes *)

Lemma generate_prefix_inv env contents path g rules_path content prefix :
  (forall m, g = WithMask m -> forall x, xe_hex_decode env m = Some x -> wf_bytes x) ->
  generate_prefix env contents path g = Ok (rules_path, content, prefix) ->
  exists mask c tail, wf_bytes mask /\ mask <> [] /\ len mask <= 32 /\
    prefix = to_masked_hex_string (xe_hex_encode env) (mkGenerated (generate_value (xe_random env) mask) mask) /\
    content = xe_with_rules env c (new_allow_rule prefix :: tail).
Proof.
  intros Hmask Hgen. unfold generate_prefix in Hgen. inv_bindR Hgen. rename p into gen.
  destruct (extract_rules_file_path _ _ _ _) as [rp|]; [|done].
  apply bindR_Ok in Hgen as (p & Eapp & Hgen). inv_bindR Hgen. injection Hgen as -> -> <-.
  assert (exists mask, wf_bytes mask /\ mask <> [] /\ len mask <= 32 /\
    gen = mkGenerated (generate_value (xe_random env) mask) mask) as (mask & Hwf & Hne & Hlen & ->).
  { destruct g as [mh|params].
    - destruct (xe_hex_decode env mh) as [mask|] eqn:Em; [|done]. unfold generate_with_mask, validate_mask in E.
      destruct (Z.eqb_spec (len mask) 0) as [Hz|Hz]; [done|]. destruct (Z.ltb_spec 32 (len mask)); [done|]. simpl in E.
      injection E as <-. exists mask. split_and!; [by eapply Hmask|by intros ->|done|done].
    - unfold generate, validate_params in E.
      destruct ((1 <=? gp_length params) && (gp_length params <=? 32)) eqn:El; [|done]. cbn [negb bindR] in E.
      destruct ((1 <=? gp_percent params) && (gp_percent params <=? 100)); [|done]. cbn [negb bindR map_err] in E.
      injection E as <-. apply andb_true_iff in El as [El1%Z.leb_le El2%Z.leb_le].
      assert (len (generate_mask (xe_draw env) (gp_length params) (gp_percent params)) = gp_length params) as Hl
        by (unfold generate_mask, len; rewrite length_fmap, length_seq; lia).
      eexists. split_and!; [| | |done]; [|intros E'; rewrite E' in Hl; change (len []) with 0 in Hl; lia|lia].
      apply Forall_lookup. intros i x Hx. unfold generate_mask in Hx. rewrite list_lookup_fmap in Hx.
      apply fmap_Some in Hx as (j & _ & ->). apply mask_byte_wf. }
  unfold append_allow_rule in Eapp.
  destruct (xe_rule_item env _) as [[|l|]|]; [| |done|done]; simpl in Eapp; injection Eapp as <-;
    eexists mask, _, _; split_and!; done.
Qed.

Lemma generated_prefix_spec enc dec `{!HexLaws enc dec} random mask cr :
  wf_bytes mask -> (forall i, is_byte (random i)) ->
  prefix_spec dec (to_masked_hex_string enc (mkGenerated (generate_value random mask) mask)) cr
    <-> mask_spec cr mask (generate_value random mask).
Proof.
  intros Hwf Hrandom. assert (dec (enc mask) = Some mask) as Em by (by apply hex_decode_encode).
  assert (dec (enc (generate_value random mask)) = Some (generate_value random mask)) as Ev
    by (by apply hex_decode_encode, generate_value_wf).
  pose proof (hex_digit_not_slash enc dec _ _ Ev) as Hns. rewrite prefix_spec_split.
  unfold split_prefix, to_masked_hex_string. cbn [gen_value gen_mask]. rewrite split_once_app by done.
  rewrite Em, Ev. split; [by intros (p & m & [= <-] & [= <-] & H)|intros H; by exists (generate_value random mask), mask].
Qed.

(** C15: a client that sends a server name and a client random that fits a generated prefix
    is allowed by the rules of an endpoint that loads the file the export wrote, whatever
    rules the file had before: the rule goes to the front.  [parse_print] is what
    [toml_edit] promises: a printed document has the tables it was given.  A client without
    a server name is still denied when the file has a rule with a key. *)
Theorem generated_client_admitted env contents path g rules_path content prefix metadata rd toml_parse
    `{Hhex : !HexLaws (xe_hex_encode env) (xe_hex_decode env)}
    (parse_print : forall c l, exists doc, toml_parse (xe_with_rules env c l) = Some doc /\ doc (str "rule") = Some l) :
  (forall i, is_byte (xe_random env i)) -> (forall m, g = WithMask m -> forall x, xe_hex_decode env m = Some x -> wf_bytes x) ->
  generate_prefix env contents path g = Ok (rules_path, content, prefix) ->
  metadata rules_path = Ok true -> rd rules_path = Ok content ->
  (exists cr, len cr = 32 /\ prefix_spec (xe_hex_decode env) prefix cr) /\
  exists engine, deserialize_rules metadata rd toml_parse rules_path = Some engine /\
    forall ipnet hkdf sha256 aes ip cr sni,
      sni <> [] -> prefix_spec (xe_hex_decode env) prefix cr ->
      evaluate ipnet (xe_hex_decode env) hkdf sha256 aes engine ip (Some cr) (Some sni) = Ret Allow.
Proof.
  intros Hrandom Hmask Hgen Hmeta Hrd.
  destruct (generate_prefix_inv _ _ _ _ _ _ _ Hmask Hgen) as (mask & c & tail & Hwf & Hne & Hlen & Hprefix & Hc).
  assert (forall cr, prefix_spec (xe_hex_decode env) prefix cr
    <-> mask_spec cr mask (generate_value (xe_random env) mask)) as Hspec
    by (intros cr; rewrite Hprefix; by apply generated_prefix_spec).
  split.
  - exists (generate_value (xe_random env) mask ++ replicate (Z.to_nat (32 - len mask)) 0).
    assert (len (generate_value (xe_random env) mask) = len mask) as Hgl by (unfold generate_value, len; by rewrite length_imap).
    split; [rewrite len_app, Hgl; unfold len; rewrite length_replicate; pose proof (len_nonneg mask); unfold len in *; lia|].
    apply Hspec, exact_fits_mask; [intros E'; rewrite E' in Hgl; apply Hne, len_nil_inv; change (len []) with 0 in Hgl; lia|done].
  - clear Hprefix Hgen. destruct (parse_print c (new_allow_rule prefix :: tail)) as (doc & Hdoc & Hrule).
    exists (from_config (mkRules (omap read_rule (new_allow_rule prefix :: tail)))). split.
    { unfold deserialize_rules, deserialize_file_path, validate_file_path. by rewrite Hmeta, Hrd, Hc, Hdoc, Hrule. }
    intros ipnet hkdf sha256 aes ip cr sni Hsni Hfit.
    change (omap read_rule (new_allow_rule prefix :: tail)) with (prefix_rule prefix AllowAction :: omap read_rule tail).
    unfold evaluate. cbn [rules rule from_config]. change (bool_decide (Some cr = None)) with false. cbn [andb orb].
    destruct sni as [|x sni]; [done|]. rewrite len_cons. destruct (Z.eqb_spec (1 + len sni) 0); [pose proof (len_nonneg sni); lia|].
    cbn [andb evaluate_rules]. unfold matches, prefix_rule, check_random. cbn [cidr rule_client_random_auth_key rule_client_random_prefix].
    destruct (prefix_match_spec (xe_hex_decode env) prefix cr true) as (b & -> & Hb). cbn [bindM].
    by rewrite (proj2 Hb (conj eq_refl Hfit)).
Qed.

Module GenerateSample.

Definition item_tuple (i : TomlItem) : bytes * option bytes * option Z := (ti_text i, ti_str i, ti_int i).

#[local] Instance TomlItem_eq_dec : EqDecision TomlItem.
Proof. solve_decision. Defined.

#[local] Instance TomlItem_countable : Countable TomlItem.
Proof.
  apply (inj_countable' item_tuple (fun '(a, b, c) => mkItem a b c)). by intros [].
Defined.

(** A document as the code of its tables. *)
Definition print (c : bytes) (l : list TomlTable) : bytes := [Z.pos (countable.encode (l : list (list (bytes * TomlItem))))].

Definition parse (c : bytes) : option TomlDocument :=
  match c with
  | [Z.pos p] =>
      match (countable.decode p : option (list (list (bytes * TomlItem)))) with
      | Some l => Some (fun k => if decide (k = str "rule") then Some l else None)
      | None => None
      end
  | _ => None
  end.

Lemma parse_print c l : exists doc, parse (print c l) = Some doc /\ doc (str "rule") = Some l.
Proof. unfold parse, print. rewrite countable.decode_encode. eexists. split; [done|]. done. Qed.

Definition env : ExportEnv :=
  mkExportEnv HexRef.hex_encode HexRef.hex_decode Base64Ref.b64_encode (fun _ => None) (fun _ => Err NotFound) None
    (fun _ b => if b <? 4 then 0 else 99) (fun _ => 0x35)
    (fun c => if decide (c = []) then Some RuleAbsent else None) print
    (fun _ => Some (str "rules.toml")) (fun _ => Some (str "/etc/tt")) (fun _ _ => Ok tt).

Definition prefix : bytes := str "0505/0f0f".
Definition content : bytes := print [] [new_allow_rule prefix].

#[export] Instance hex_laws : HexLaws (xe_hex_encode env) (xe_hex_decode env) := HexRef.laws.

End GenerateSample.

Lemma generated_client_admitted_witness :
  generate_prefix GenerateSample.env [] (str "/etc/tt/vpn.toml") (WithParams (mkParams 2 50))
    = Ok (str "/etc/tt/rules.toml", GenerateSample.content, GenerateSample.prefix) /\
  exists cr, len cr = 32 /\ prefix_spec HexRef.hex_decode GenerateSample.prefix cr.
Proof.
  assert (generate_prefix GenerateSample.env [] (str "/etc/tt/vpn.toml") (WithParams (mkParams 2 50))
    = Ok (str "/etc/tt/rules.toml", GenerateSample.content, GenerateSample.prefix)) as Hgen by (vm_compute; reflexivity).
  split; [exact Hgen|].
  apply (generated_client_admitted GenerateSample.env [] (str "/etc/tt/vpn.toml") (WithParams (mkParams 2 50))
    (str "/etc/tt/rules.toml") GenerateSample.content GenerateSample.prefix (fun _ => Ok true)
    (fun _ => Ok GenerateSample.content) GenerateSample.parse (Hhex := GenerateSample.hex_laws) GenerateSample.parse_print).
  - intros i. by_compute.
  - done.
  - exact Hgen.
  - done.
  - done.
Defined.

(** ** The rest of the export *)

(** The prefix of a deep link is always there to be stripped. *)
Lemma print_config_never_crashes env subscription_host args enabled cc :
  print_config env subscription_host args enabled cc <> Crashed.
Proof.
  unfold print_config. repeat match goal with |- context [if ?b then _ else _] => destruct b; try done end.
  - unfold compose_deeplink_subscription_only. destruct (cc_subscription_url cc); [|done].
    destruct (build _ _); [|done]. cbn [map_err bindR]. unfold encode. destruct (encode_tlv_payload _); [|done].
    cbn [bindR map_err]. change (str "tt://?") with PREFIX. by rewrite strip_prefix_app.
  - unfold compose_deeplink. destruct (deeplink_config _ _); [|done]. cbn [bindR].
    unfold encode. destruct (encode_tlv_payload _); [|done].
    cbn [bindR map_err]. change (str "tt://?") with PREFIX. by rewrite strip_prefix_app.
Qed.

(** An export for a user that does not exist still adds a rule to the file before it
    fails: nothing is undone. *)
Lemma failed_export_leaves_rule :
  exists settings hosts args written,
    client_export GenerateSample.env settings [] (str "/etc/tt/vpn.toml") hosts None args = (Some written, Crashed).
Proof.
  exists (match builder_calls sample_ops builder_new with Ok s => s | Err _ => builder_new end), sample_hosts.
  exists (mkExportArgs (str "nobody") [str "1.2.3.4"] None (Some (WithParams (mkParams 2 50))) None None None [] None false
    (str "deeplink")).
  exists (str "/etc/tt/rules.toml", GenerateSample.content). vm_compute. reflexivity.
Qed.

(** ** Start and reload *)

Section run_proofs.
Context {hex_decode : bytes -> option bytes} {verifiable : bytes -> bytes -> bool} {rd : bytes -> result ErrorKind bytes}
  {Identity : Type} {load : TlsHostInfo -> result ErrorKind Identity} {certs_ok key_ok : bytes -> bool} {enc : bytes -> bytes}
  {hosts_from_str : bytes -> option TlsHostsSettings} {subscription_from_str : bytes -> option (option SubscriptionSettings)}.

Abbreviation reach := (core_reach hex_decode verifiable rd load certs_ok key_ok enc).

(** A reload leaves a core that a sequence of reloads can have. *)
Lemma on_sighup_reach hosts_file settings_file c c' :
  reach c ->
  on_sighup hex_decode verifiable rd load certs_ok key_ok hosts_from_str subscription_from_str hosts_file settings_file c
    = Ret c' -> reach c'.
Proof.
  intros Hc. unfold on_sighup. destruct hosts_file as [x|]; [|done]. destruct (hosts_from_str x) as [hosts|]; [|done].
  destruct (reload_tls_hosts_settings _ _ _ c hosts) as [[]c1] eqn:E; [|done].
  assert (reach c1) as Hc1 by (by eapply core_reload_tls).
  destruct (match settings_file with Ok c => _ | Err _ => _ end) as [sub|]; [|by intros [= <-]].
  intros [= <-]. destruct (reload_subscription_settings _ _ _ c1 sub hosts) as [r c2] eqn:E2. by eapply core_reload_subscription.
Qed.

(** A subscription section that does not parse or validate leaves the one in force. *)
Lemma on_sighup_keeps_subscription hosts_file settings_file c c' :
  on_sighup hex_decode verifiable rd load certs_ok key_ok hosts_from_str subscription_from_str hosts_file settings_file c
    = Ret c' ->
  cx_settings c' = cx_settings c /\
  (cx_subscription c' = cx_subscription c \/
   exists x sub hosts h, settings_file = Ok x /\ subscription_from_str x = Some sub /\ hosts_file = Ok h /\ hosts_from_str h = Some hosts /\
     match sub with
     | None => cx_subscription c' = None
     | Some sub => exists r, resolve hex_decode verifiable rd sub (cx_settings c) hosts = Ok r /\ cx_subscription c' = Some r
     end).
Proof.
  unfold on_sighup. destruct hosts_file as [h|]; [|done]. destruct (hosts_from_str h) as [hosts|] eqn:Eh; [|done].
  destruct (reload_tls_hosts_settings _ _ _ c hosts) as [[]c1] eqn:E; [|done].
  assert (cx_settings c1 = cx_settings c /\ cx_subscription c1 = cx_subscription c) as [Es Esub].
  { unfold reload_tls_hosts_settings in E. destruct (if negb _ then _ else _); [|done]. destruct (demux_new _ _ _); [|done].
    by injection E as _ <-. }
  destruct settings_file as [x|]; [|intros [= <-]; by auto].
  destruct (subscription_from_str x) as [sub|] eqn:Ex; [|intros [= <-]; by auto].
  intros [= <-]. unfold reload_subscription_settings. destruct sub as [sub|]; cbn.
  - rewrite Es. destruct (resolve _ _ _ sub (cx_settings c) hosts) as [r|] eqn:Er; cbn; [|by auto].
    split; [done|]. right. exists x, (Some sub), hosts, h. split_and!; eauto.
  - split; [done|]. right. exists x, None, hosts, h. by split_and!.
Qed.

(** C21: the endpoint that is started without an authenticator, because there are no clients,
    listens on a loopback address only, and it keeps doing so through every reload. *)
Theorem no_authentication_only_on_loopback metrics settings hosts core files c :
  made_settings settings ->
  start hex_decode verifiable rd load certs_ok key_ok enc metrics settings hosts = Ret (Ok (core, None)) ->
  foldl (fun m '(h, s) => let! c := m in
           on_sighup hex_decode verifiable rd load certs_ok key_ok hosts_from_str subscription_from_str h s c)
    (Ret core) files = Ret c ->
  st_clients (cx_settings c) = [] /\ addr_is_loopback (addr_ip (st_listen_address (cx_settings c))) = true /\
  cx_settings c = settings.
Proof.
  intros Hmade Hstart Hrun. unfold start in Hstart. destruct (match st_subscription settings with Some _ => _ | None => _ end); [|done].
  destruct (core_new _ _ _ _ _ _ _ metrics settings hosts) as [core'|] eqn:Ec; [|done].
  injection Hstart as -> Hauth. unfold make_authenticator in Hauth.
  destruct (bool_decide_reflect (st_clients settings = [])) as [Hcl|]; [|done].
  destruct (core_new_spec _ _ _ _ _ _ _ _ _ _ _ Ec) as (_ & Hset & _).
  assert (reach core) as Hreach by (by eapply core_created).
  assert (reach c /\ cx_settings c = cx_settings core) as [Hc Hsame].
  { clear -Hreach Hrun. revert core Hreach Hrun. induction files as [|[h s] files IH]; intros core Hreach Hrun.
    - injection Hrun as <-. done.
    - cbn [foldl] in Hrun. cbn [bindM] in Hrun.
      destruct (on_sighup _ _ _ _ _ _ _ _ h s core) as [c1|] eqn:E.
      + destruct (IH c1) as [H1 H2]; [by eapply on_sighup_reach|done|]. split; [done|]. rewrite H2.
        by apply on_sighup_keeps_subscription in E as [-> _].
      + exfalso. clear -Hrun. induction files as [|[] files IH]; [done|]. by apply IH. }
  apply core_reach_ok in Hc as (Hv & _). rewrite Hsame, Hset in *. split_and!; [done| |done].
  destruct (vs_credentials _ Hv) as [Hne|]; done.
Qed.

End run_proofs.

(** Nothing of a TLS hosts file that does not read, parse or validate is tolerated: the
    reload task panics, and the endpoint with it. *)
Lemma sighup_bad_hosts_panics hex_decode verifiable rd {Identity} (load : TlsHostInfo -> result ErrorKind Identity)
    certs_ok key_ok hosts_from_str subscription_from_str hosts_file settings_file c :
  (forall h hosts, hosts_file = Ok h -> hosts_from_str h = Some hosts ->
     exists e, fst (reload_tls_hosts_settings load certs_ok key_ok c hosts) = Err e) ->
  on_sighup hex_decode verifiable rd load certs_ok key_ok hosts_from_str subscription_from_str hosts_file settings_file c
    = Panic.
Proof.
  intros H. unfold on_sighup. destruct hosts_file as [h|]; [|done]. destruct (hosts_from_str h) as [hosts|] eqn:E; [|done].
  destruct (H h hosts eq_refl E) as [e He]. destruct (reload_tls_hosts_settings _ _ _ c hosts) as [[] ?]; simpl in He; done.
Qed.

Module LoopbackSample.

Definition ops : list SettingsOp :=
  [SetListenAddress (Ok [mkAddr (IpV4 [127; 0; 0; 1]) 8443]);
   SetListenProtocols (mkListenProtocols (Some http1_default) None None)].

Definition unbuilt : Settings := match builder_calls ops builder_new with Ok s => s | Err _ => builder_new end.
Definition settings : Settings := match builder_build unbuilt with Ok s => s | Err _ => unbuilt end.

Definition core : @CoreContext bytes :=
  match core_new HexRef.hex_decode (fun _ _ => true) (fun _ => Err NotFound) (fun h => Ok (hi_hostname h)) (fun _ => true)
          (fun _ => true) Base64Ref.b64_encode (Ok tt) settings sample_hosts with
  | Ok c => c
  | Err _ => mkContext settings None (mkTlsDemux ∅ ∅ ∅ ∅ [] ∅) None None
  end.

End LoopbackSample.

(** A run with a reload of both files. *)
Lemma no_authentication_only_on_loopback_witness :
  st_clients (cx_settings LoopbackSample.core) = [] /\
  addr_is_loopback (addr_ip (st_listen_address (cx_settings LoopbackSample.core))) = true /\
  cx_settings LoopbackSample.core = LoopbackSample.settings.
Proof.
  apply (no_authentication_only_on_loopback (hex_decode := HexRef.hex_decode) (verifiable := fun _ _ => true)
    (rd := fun _ => Err NotFound) (load := fun h => Ok (hi_hostname h)) (certs_ok := fun _ => true) (key_ok := fun _ => true)
    (enc := Base64Ref.b64_encode) (hosts_from_str := fun _ => Some sample_hosts) (subscription_from_str := fun _ => Some None)
    (Ok tt) LoopbackSample.settings sample_hosts LoopbackSample.core [(Ok [], Ok [])]).
  - apply (made_built LoopbackSample.ops LoopbackSample.unbuilt); vm_compute; reflexivity.
  - vm_compute. reflexivity.
  - vm_compute. reflexivity.
Defined.
