(* ===== verification/Startup.v ===== *)
(** * Logging, start and end of the endpoint

    lib/src/log_utils.rs (the loggers), endpoint/build.rs (the version) and the rest of
    endpoint/src/main.rs: reading the command line and the two files, starting the core,
    and how the process ends.  What the setup wizard writes is shown to start. *)

From S2P Require Import Prelude.
From S2P Require Import Codecs.
From S2P Require Import Varint.
From S2P Require Import NetUtils.
From S2P Require Import Rules.
From S2P Require Import Auth.
From S2P Require Import TlsDemux.
From S2P Require Import ReverseProxy.
From S2P Require Import Utils.
From S2P Require Import Settings.
From S2P Require Import Composer.
From S2P Require Import Dialogue.
From S2P Require Import Acme.
From S2P Require Import WizardSettings.
From S2P Require Import Wizard.
From S2P Require Import Services.
From S2P Require Import Endpoint.

(** ** The version *)

(** endpoint/build.rs: the variable of the environment, then what [git describe] printed,
    when it succeeded. *)
Definition resolve_version (env_var : option bytes) (git : option bytes) : bytes :=
  match (match env_var with Some v => let v := utf8_trim v in if len v =? 0 then None else Some v | None => None end) with
  | Some v => v
  | None =>
      match git with
      | None => str "0.0.0-git"
      | Some out =>
          let described := utf8_trim out in
          if len described =? 0 then str "0.0.0-git"
          else match described with c :: rest => if c =? 0x76 then rest else described | [] => described end
      end
  end.

(** ** Loggers *)

Inductive Level : Type := LError | LWarn | LInfo | LDebug | LTrace.

Definition level_rank (l : Level) : Z := match l with LError => 1 | LWarn => 2 | LInfo => 3 | LDebug => 4 | LTrace => 5 end.

Definition level_text (l : Level) : bytes :=
  match l with LError => str "ERROR" | LWarn => str "WARN" | LInfo => str "INFO" | LDebug => str "DEBUG" | LTrace => str "TRACE" end.

(** A record, with the time and the thread that are printed with it. *)
Record LogRecord : Type := mkRecord {
  lr_time : bytes;
  lr_thread : bytes;
  lr_level : Level;
  lr_target : bytes;
  lr_args : bytes;
}.

(** The pieces that [writeln!] writes, in order. *)
Definition record_pieces (r : LogRecord) : list bytes :=
  [lr_time r; str " ["; lr_thread r; str "] ["; level_text (lr_level r); str "] ["; lr_target r; str "] "; lr_args r; [0x0A]].

Definition record_text (r : LogRecord) : bytes := mjoin (record_pieces r).

Definition enabled (max_level : Level) (r : LogRecord) : bool := level_rank (lr_level r) <=? level_rank max_level.

(** [StdoutLogger::log]: a write that fails is a panic. *)
Definition stdout_log (max_level : Level) (write : bytes -> result ErrorKind unit) (r : LogRecord) : M bytes :=
  if enabled max_level r then
    match write (record_text r) with Ok _ => Ret (record_text r) | Err _ => Panic end
  else Ret [].

(** [BufWriter<File>]: what is in the file, and what is buffered. *)
Record FileLogger : Type := mkFileLogger { fl_file : bytes; fl_buffer : bytes }.

Definition BUF_CAPACITY : Z := 8192.

Definition file_logger_new : FileLogger := mkFileLogger [] [].

(** What the file does with a write: takes all of it, or fails after some bytes. *)
Definition FileOutcome : Type := option nat.

(** [flush_buf]: the bytes that were written leave the buffer. *)
Definition flush_buf (o : FileOutcome) (l : FileLogger) : result unit unit * FileLogger :=
  match o with
  | None => (Ok tt, mkFileLogger (fl_file l ++ fl_buffer l) [])
  | Some n => (Err tt, mkFileLogger (fl_file l ++ take n (fl_buffer l)) (drop n (fl_buffer l)))
  end.

(** [write_all] of one piece: the buffer is flushed when the piece does not fit, and a
    piece as large as the buffer goes to the file directly. *)
Definition buf_write (o1 o2 : FileOutcome) (piece : bytes) (l : FileLogger) : result unit unit * FileLogger :=
  let (r, l) := if BUF_CAPACITY <? len (fl_buffer l) + len piece then flush_buf o1 l else (Ok tt, l) in
  match r with
  | Err _ => (Err tt, l)
  | Ok _ =>
      if BUF_CAPACITY <=? len piece then
        match o2 with
        | None => (Ok tt, mkFileLogger (fl_file l ++ piece) (fl_buffer l))
        | Some n => (Err tt, mkFileLogger (fl_file l ++ take n piece) (fl_buffer l))
        end
      else (Ok tt, mkFileLogger (fl_file l) (fl_buffer l ++ piece))
  end.

(** The pieces of a record until one fails. *)
Fixpoint write_pieces (outcome : nat -> FileOutcome) (pieces : list bytes) (l : FileLogger) : result unit unit * FileLogger :=
  match pieces with
  | [] => (Ok tt, l)
  | piece :: pieces =>
      match buf_write (outcome (2 * length pieces)%nat) (outcome (2 * length pieces + 1)%nat) piece l with
      | (Err _, l) => (Err tt, l)
      | (Ok _, l) => write_pieces outcome pieces l
      end
  end.

(** [FileLogger::log]: an error is printed to the standard error stream and dropped. *)
Definition file_log (max_level : Level) (outcome : nat -> FileOutcome) (r : LogRecord) (l : FileLogger) : FileLogger :=
  if enabled max_level r then (write_pieces outcome (record_pieces r) l).2 else l.

(** [FileLogger::flush], which is what dropping [LogFlushGuard] calls. *)
Definition file_flush (o : FileOutcome) (l : FileLogger) : FileLogger := (flush_buf o l).2.

(** ** The command line *)

Record MainArgs : Type := mkMainArgs {
  ma_version : bool;
  ma_log_file : option bytes;
  ma_log_level : option bytes;
  ma_threads : option Z;
  ma_settings : bytes;
  ma_hosts : bytes;
  ma_client_config : option bytes;
}.

Definition log_level (a : MainArgs) : M Level :=
  match ma_log_level a with
  | None => Ret LInfo
  | Some x =>
      if bool_decide (x = str "info") then Ret LInfo
      else if bool_decide (x = str "debug") then Ret LDebug
      else if bool_decide (x = str "trace") then Ret LTrace
      else Panic
  end.

(** [expect]. *)
Definition expect {E A} (r : result E A) : M A := match r with Ok x => Ret x | Err _ => Panic end.

Section main.
Context (hex_decode : bytes -> option bytes) (is_system_verifiable : bytes -> bytes -> bool)
  {Identity : Type} (load : TlsHostInfo -> result ErrorKind Identity) (b64_encode : bytes -> bytes).

(** The crates and the files are those of the wizard. *)
Context (o : Outside).

Inductive MainOutcome : Type :=
| PrintedVersion
| ExitedWith (code : Z)
| Exporting (settings : Settings) (hosts : TlsHostsSettings)
| Running (level : Level) (core : @CoreContext Identity) (authenticator : option Authenticator).

(** The outcomes of opening the log file, of making the runtime and of the metrics. *)
Record MainEnv : Type := mkMainEnv {
  me_log_file : bytes -> result ErrorKind unit;
  me_runtime : result ErrorKind unit;
  me_metrics : result ErrorKind unit;
}.

Definition read_hosts (files : Files) (path : bytes) : M TlsHostsSettings :=
  let! contents := expect (fs_open files path) in unwrap (o_parse_hosts o files contents).

Definition read_main_settings (files : Files) (path : bytes) : M Settings :=
  let! contents := expect (fs_open files path) in
  let! r := read_settings o files contents in unwrap r.

(** The check of the subscription against the hosts. *)
Definition subscription_checked (settings : Settings) (hosts : TlsHostsSettings) : bool :=
  match st_subscription settings with
  | Some sub => match validate_with_hosts hex_decode sub settings hosts with Ok _ => true | Err _ => false end
  | None => true
  end.

(** [main], up to the tasks.  [worker_threads] panics for zero. *)
Definition endpoint_main (a : MainArgs) (env : MainEnv) (files : Files) : M MainOutcome :=
  if ma_version a then Ret PrintedVersion
  else
    let! _ := match ma_log_file a with None => Ret tt | Some file => expect (me_log_file env file) end in
    let! level := log_level a in
    let! settings := read_main_settings files (ma_settings a) in
    let! hosts := read_hosts files (ma_hosts a) in
    if negb (subscription_checked settings hosts) then Ret (ExitedWith 1)
    else
      match ma_client_config a with
      | Some _ => Ret (Exporting settings hosts)
      | None =>
          let! _ := assertM (match ma_threads a with Some n => 0 <? n | None => true end) in
          let! _ := expect (me_runtime env) in
          let! r := start hex_decode is_system_verifiable (fs_open files) load (loads_certs o files) (loads_key o files) b64_encode
                      (me_metrics env) settings hosts in
          Ret (match r with Ok (core, authenticator) => Running level core authenticator | Err _ => ExitedWith 1 end)
      end.

End main.

(** ** The end of the process *)

(** The process with its tasks: the shutdown, whose first handler and one guard are those
    of [Core::listen], and the sessions that hold a guard each. *)
Record Proc : Type := mkProc { pr_shutdown : ShutdownState; pr_sessions : nat }.

(** [Core::listen] has been polled. *)
Definition proc_new : Proc :=
  let '(_, s) := notification_handler shutdown_new in let '(_, s) := completion_guard s in mkProc s 0.

Inductive proc_step : Proc -> Proc -> Prop :=
| ps_session s n sd : completion_guard s = (true, sd) -> proc_step (mkProc s n) (mkProc (notification_handler sd).2 (S n))
| ps_session_end s n : proc_step (mkProc s (S n)) (mkProc (guard_dropped s) n)
| ps_interrupt s n : proc_step (mkProc s n) (mkProc (completion_started (submit s)) n).

(** What [select!] of [main] may return with: [listen] returns when it is notified, the
    interrupt task when the shutdown is complete. *)
Inductive proc_exit : Proc -> TaskEnd -> Prop :=
| pe_listen s n : (notification_wait 0 s).1 = Some tt -> proc_exit (mkProc s n) (ListenEnd (Ok tt))
| pe_interrupt s n : completed s = true -> proc_exit (mkProc s n) Interrupted.

(** ** Lemmas on the loggers *)

(** What a logger holds, in order. *)
Definition logged (l : FileLogger) : bytes := fl_file l ++ fl_buffer l.

(** A sequence of records, the file taking every write. *)
Definition log_all (max_level : Level) (l : list LogRecord) (f : FileLogger) : FileLogger :=
  fold_left (fun f r => file_log max_level (fun _ => None) r f) l f.

Definition log_text (max_level : Level) (l : list LogRecord) : bytes :=
  mjoin (record_text <$> base.filter (fun r => enabled max_level r = true) l).

Lemma buf_write_spec o1 o2 piece l r l' :
  buf_write o1 o2 piece l = (r, l') ->
  fl_file l `prefix_of` fl_file l' /\
  (o1 = None -> o2 = None -> r = Ok tt /\ logged l' = logged l ++ piece) /\
  (len (fl_buffer l) <= BUF_CAPACITY -> len (fl_buffer l') <= BUF_CAPACITY).
Proof.
  unfold buf_write, logged. pose proof (len_nonneg (fl_buffer l)). pose proof (len_nonneg piece).
  destruct (Z.ltb_spec BUF_CAPACITY (len (fl_buffer l) + len piece)) as [Hbig|Hfit].
  - destruct o1 as [n|]; cbn [flush_buf].
    + intros [= <- <-]. cbn. split_and!; [by eexists|done|]. intros Hb. unfold len in *. rewrite length_drop. lia.
    + destruct (Z.leb_spec BUF_CAPACITY (len piece)); [destruct o2 as [n|]|]; intros [= <- <-]; cbn; rewrite ?app_nil_r;
        (split_and!; [rewrite <- ?app_assoc; by eexists|try done; by rewrite ?app_assoc|intros; unfold len, BUF_CAPACITY in *; cbn; lia]).
  - destruct (Z.leb_spec BUF_CAPACITY (len piece)).
    + assert (fl_buffer l = []) as Eb by (apply len_nil_inv; unfold BUF_CAPACITY in *; lia).
      destruct o2 as [n|]; intros [= <- <-]; cbn; rewrite Eb, ?app_nil_r; (split_and!; [by eexists|done|done]).
    + intros [= <- <-]. cbn. split_and!; [by exists []; rewrite app_nil_r|intros _ _; by rewrite app_assoc|].
      intros _. rewrite len_app. lia.
Qed.

Lemma write_pieces_spec outcome pieces l r l' :
  write_pieces outcome pieces l = (r, l') ->
  fl_file l `prefix_of` fl_file l' /\
  ((forall n, outcome n = None) -> logged l' = logged l ++ mjoin pieces) /\
  (len (fl_buffer l) <= BUF_CAPACITY -> len (fl_buffer l') <= BUF_CAPACITY).
Proof.
  revert l. induction pieces as [|piece pieces IH]; intros l; cbn [write_pieces mjoin list_join].
  { intros [= <- <-]. split_and!; [done|intros _; by rewrite app_nil_r|done]. }
  destruct (buf_write _ _ piece l) as [[[]|[]] l1] eqn:E; apply buf_write_spec in E as (Hp & Hl & Hb).
  - intros (Hp' & Hl' & Hb')%IH. split_and!; [by etransitivity| |auto].
    intros Ho. rewrite Hl' by done. destruct Hl as [_ ->]; [by apply Ho..|]. by rewrite <- app_assoc.
  - intros [= <- <-]. split_and!; [done| |done]. intros Ho. by destruct Hl as [? _]; [apply Ho..|].
Qed.

(** Records end up in the file in the order they were made, up to what is buffered. *)
Lemma log_all_spec max_level l f :
  logged (log_all max_level l f) = logged f ++ log_text max_level l /\ fl_file f `prefix_of` fl_file (log_all max_level l f) /\
  (len (fl_buffer f) <= BUF_CAPACITY -> len (fl_buffer (log_all max_level l f)) <= BUF_CAPACITY).
Proof.
  unfold log_text. revert f. induction l as [|r l IH]; intros f; cbn [log_all fold_left].
  { cbn. split_and!; [by rewrite app_nil_r|done|done]. }
  destruct (IH (file_log max_level (fun _ => None) r f)) as (E & Hp & Hb). fold (log_all max_level l (file_log max_level (fun _ => None) r f)).
  rewrite E. unfold file_log in *. rewrite filter_cons. destruct (enabled max_level r) eqn:Ee.
  - destruct (write_pieces _ _ f) as [x f'] eqn:Ew. apply write_pieces_spec in Ew as (Hp1 & Hl1 & Hb1). cbn [snd] in *.
    rewrite decide_True by done. cbn [fmap list_fmap mjoin list_join]. split_and!; [by rewrite Hl1, <- app_assoc|by etransitivity|auto].
  - rewrite decide_False by congruence. done.
Qed.

(** A record that fits the buffer stays there. *)
Lemma small_record_buffered max_level r f :
  enabled max_level r = true -> len (fl_buffer f) + len (record_text r) < BUF_CAPACITY ->
  file_log max_level (fun _ => None) r f = mkFileLogger (fl_file f) (fl_buffer f ++ record_text r).
Proof.
  intros He. unfold file_log. rewrite He. unfold record_text. generalize (record_pieces r) as pieces. intros pieces.
  revert f. induction pieces as [|p pieces IH]; intros f Hlen; cbn [write_pieces].
  { cbn. rewrite app_nil_r. by destruct f. }
  change (mjoin (p :: pieces)) with (p ++ mjoin pieces) in *. rewrite len_app in Hlen. pose proof (len_nonneg (fl_buffer f)). pose proof (len_nonneg (mjoin pieces)). pose proof (len_nonneg p).
  unfold buf_write. destruct (Z.ltb_spec BUF_CAPACITY (len (fl_buffer f) + len p)); [lia|].
  destruct (Z.leb_spec BUF_CAPACITY (len p)); [lia|]. rewrite IH; cbn; rewrite ?len_app; [by rewrite <- app_assoc|lia].
Qed.

(** ** Properties *)

(** The log file has the enabled records in order: at any time it is a prefix of their
    text, and all of it after a flush; no more than 8 KiB are held back. *)
Theorem file_log_in_order max_level l :
  let f := log_all max_level l file_logger_new in
  fl_file f `prefix_of` log_text max_level l /\ fl_file (file_flush None f) = log_text max_level l /\
  len (log_text max_level l) - len (fl_file f) <= BUF_CAPACITY.
Proof.
  intros f. destruct (log_all_spec max_level l file_logger_new) as (E & _ & Hb). cbn [logged file_logger_new fl_file fl_buffer app] in E.
  fold f in E, Hb. split_and!.
  - exists (fl_buffer f). by rewrite <- E.
  - by rewrite <- E.
  - rewrite <- E. unfold logged. rewrite len_app. enough (len (fl_buffer f) <= BUF_CAPACITY) by lia. by apply Hb.
Qed.

(** The last records do not reach the log file.  [main] leaves by [process::exit], which
    runs no destructors, so that the guard that flushes the log is not dropped: the record
    of the error that ended the endpoint, if it is made with an empty buffer, is in the
    buffer when the process ends and not in the file. *)
Theorem exit_loses_last_record max_level l r :
  let before := file_flush None (log_all max_level l file_logger_new) in
  let after := file_log max_level (fun _ => None) r before in
  enabled max_level r = true -> len (record_text r) < BUF_CAPACITY ->
  fl_file after = log_text max_level l /\ log_text max_level (l ++ [r]) = log_text max_level l ++ record_text r /\
  fl_file after <> log_text max_level (l ++ [r]).
Proof.
  intros before after He Hlen. destruct (log_all_spec max_level l file_logger_new) as (E & _). cbn [logged file_logger_new fl_file fl_buffer app] in E.
  assert (log_text max_level (l ++ [r]) = log_text max_level l ++ record_text r) as Hlt.
  { unfold log_text. rewrite filter_app, fmap_app, join_app, filter_cons, decide_True by done. cbn. by rewrite app_nil_r. }
  assert (fl_file after = log_text max_level l) as Hf.
  { unfold after. rewrite small_record_buffered; [|done|]; unfold before, file_flush, flush_buf; cbn; [exact E|done]. }
  split_and!; [done|done|]. rewrite Hf, Hlt. intros E'. apply (f_equal len) in E'. rewrite len_app in E'.
  assert (0 < len (record_text r)); [|lia]. unfold record_text. cbn. len_lia.
Qed.

(** The logger to the standard output panics when it cannot write, where the one to a file
    goes on. *)
Theorem stdout_logger_panics max_level write e r :
  write (record_text r) = Err e ->
  stdout_log max_level write r = (if enabled max_level r then Panic else Ret []) /\
  forall outcome f, exists f', file_log max_level outcome r f = f' /\ fl_file f `prefix_of` fl_file f'.
Proof.
  intros Hw. split; [unfold stdout_log; by rewrite Hw|]. intros outcome f. eexists. split; [done|].
  unfold file_log. destruct (enabled max_level r); [|done].
  destruct (write_pieces _ _ f) as [x f'] eqn:Ew. by apply write_pieces_spec in Ew as (Hp & _).
Qed.

(** *** The end of the process *)

(** The guards are those of the sessions and of [listen]. *)
Definition proc_ok (p : Proc) : Prop :=
  sd_guards (pr_shutdown p) = S (pr_sessions p) /\ (0 < length (sd_handlers (pr_shutdown p)))%nat.

Lemma proc_reach_ok p : rtc proc_step proc_new p -> proc_ok p.
Proof.
  assert (proc_ok proc_new) as H0 by (split; [reflexivity|cbn; lia]). intros Hr. revert H0. generalize proc_new Hr. clear Hr. intros p0 Hr H0.
  induction Hr as [p|p p1 p2 Hs _ IH]; [done|]. apply IH. destruct H0 as [Hg Hh]. destruct Hs as [s n sd E|s n|s n]; unfold proc_ok in *; cbn in *.
  - unfold completion_guard in E. destruct (sd_complete_tx s); [|done]. injection E as <-. cbn. rewrite length_app. cbn. lia.
  - lia.
  - by rewrite length_fmap.
Qed.

(** The process does not wait for its sessions.  As long as it runs, [listen] holds a
    guard, so that the shutdown is not complete and the interrupt task cannot end first;
    the process ends when [listen] returns, which it does upon the notification however
    many sessions are open. *)
Theorem shutdown_not_awaited :
  (forall p, rtc proc_step proc_new p -> ~ proc_exit p Interrupted) /\
  (forall n, exists p, rtc proc_step proc_new p /\ pr_sessions p = n /\ proc_exit p (ListenEnd (Ok tt)) /\ exit_code (ListenEnd (Ok tt)) = 0).
Proof.
  split.
  - intros p [Hg _]%proc_reach_ok He. inversion He as [|s n Hc]; subst. cbn in Hg. unfold completed in Hc.
    apply andb_true_iff in Hc as [_ Hc]. apply Nat.eqb_eq in Hc. lia.
  - intros n. assert (exists p, rtc proc_step proc_new p /\ pr_sessions p = n /\ sd_complete_tx (pr_shutdown p) = true) as (p & Hr & Hn & Ht).
    { induction n as [|n (p & Hr & Hn & Ht)]; [by exists proc_new|]. destruct p as [s m]. cbn in Hn, Ht. subst m.
      exists (mkProc (notification_handler (completion_guard s).2).2 (S n)). split; [|split; [done|]].
      - eapply rtc_r; [exact Hr|]. apply (ps_session s n (completion_guard s).2). unfold completion_guard. by rewrite Ht.
      - unfold completion_guard. by rewrite Ht. }
    pose proof (proc_reach_ok p Hr) as [_ Hh]. destruct p as [s m]. cbn in Hn, Ht, Hh. subst m.
    exists (mkProc (completion_started (submit s)) n). split; [eapply rtc_r; [exact Hr|apply ps_interrupt]|]. split; [done|]. split; [|done].
    constructor. destruct (sd_handlers s) as [|b l] eqn:E; [cbn in Hh; lia|]. unfold notification_wait, completion_started, submit. cbn. by rewrite E.
Qed.

(** *** From the setup to a running endpoint *)

Section started.
Context {hex_decode : bytes -> option bytes} {verifiable : bytes -> bytes -> bool} {Identity : Type}
  {load : TlsHostInfo -> result ErrorKind Identity} {b64_encode : bytes -> bytes}.
Context {o : Outside} {a : Args} {u p h lib hosts addr : bytes} {address : SocketAddr} {rest : list SocketAddr}
  {cert key date : bytes} {certs : list bytes} {k : bytes}.
Context (HA : setup_args o a u p h lib hosts addr address rest cert key date certs k).

(** The hosts file as it is read: what was written, to be validated again. *)
Definition read_back (hs : TlsHostsSettings) : TlsHostsSettings :=
  mkHostsSettings (ths_main hs) (ths_ping hs) (ths_speedtest hs) (ths_reverse_proxy hs) false.

Lemma setup_starts files i env args :
  (forall files hs, o_parse_hosts o files (o_print_hosts o hs) = Some (read_back hs)) ->
  load (mkHostInfo h CERT_PATH KEY_PATH []) = Ok i ->
  me_runtime env = Ok tt -> me_metrics env = Ok tt ->
  args = mkMainArgs false None None None lib hosts None ->
  exists core, endpoint_main hex_decode verifiable load b64_encode o args env (setup_files o u p h lib hosts address cert key files)
    = Ret (Running LInfo core (Some (RegistryBasedAuthenticator b64_encode [mkClient u p None None]))) /\
    st_listen_address (cx_settings core) = address /\
    cx_tls_demux core = mkTlsDemux {[h := mkHost i []]} ∅ ∅ ∅ [Http1; Http2; Http3] ∅.
Proof.
  intros Hparse Hload Hrt Hm ->.
  destruct (setup_lookups _ _ _ _ _ _ _ _ _ _ _ _ _ _ _ HA files) as (_ & _ & Hc & Hk & Hlib & Hhosts).
  unfold endpoint_main. cbn [ma_version ma_log_file ma_settings ma_hosts ma_client_config ma_threads bindM].
  unfold read_main_settings, read_hosts, fs_open. rewrite Hlib, Hhosts. cbn [expect bindM].
  rewrite (setup_read _ _ _ _ _ _ _ _ _ _ _ _ _ _ _ HA). cbn [bindM unwrap]. rewrite Hparse. cbn [bindM unwrap].
  cbn [subscription_checked with_files wizard_settings st_subscription negb assertM]. cbn [bindM]. rewrite Hrt. cbn [expect bindM].
  assert (tls_hosts_validate (loads_certs o (setup_files o u p h lib hosts address cert key files))
    (loads_key o (setup_files o u p h lib hosts address cert key files)) (read_back (hosts_settings h)) = Ok tt) as Hval.
  { pose proof (setup_loads _ _ _ _ _ _ _ _ _ _ _ _ _ _ _ HA (setup_files o u p h lib hosts address cert key files) Hc Hk) as E. exact E. }
  assert (settings_validate (with_files (wizard_settings address [mkClient u p None None]) [mkClient u p None None] (Some default_allow)) = Ok tt) as Hs.
  { apply wizard_settings_valid; [apply (sa_address _ _ _ _ _ _ _ _ _ _ _ _ _ _ _ HA)|done]. }
  set (s := with_files (wizard_settings address [mkClient u p None None]) [mkClient u p None None] (Some default_allow)) in *.
  assert (demux_new load (protocol_settings s) (read_back (hosts_settings h))
    = Ok (mkTlsDemux {[h := mkHost i []]} ∅ ∅ ∅ [Http1; Http2; Http3] ∅)) as Hdemux.
  { unfold demux_new, make_hosts. cbn [read_back hosts_settings ths_main ths_ping ths_speedtest ths_reverse_proxy make_entries]. rewrite Hload.
    cbn [bindR hi_hostname hi_allowed_sni]. 
    assert (collect [(h, mkHost i [])] = {[h := mkHost i []]}) as -> by (unfold collect; cbn; apply insert_empty).
    unfold allowed_entries. rewrite map_to_list_singleton. reflexivity. }
  eexists (mkContext s None _ None None). unfold start, core_new.
  change (st_subscription s) with (@None SubscriptionSettings). change (st_built s) with false. change (ths_built _) with false.
  cbv beta iota. cbn [negb]. rewrite Hs. cbn [map_err bindR]. rewrite Hval. cbn [map_err bindR].
  rewrite Hdemux, Hm. cbn [map_err bindR bindM]. split; [reflexivity|]. done.
Qed.
End started.

(** The protocols of the tunnel are offered for the host. *)
Lemma tunnel_selected {Identity} (h : bytes) (i : Identity) (q : TlsProtocol) :
  select (mkTlsDemux {[h := mkHost i []]} ∅ ∅ ∅ [Http1; Http2; Http3] ∅) [as_alpn q] h
  = Ret (Ok (mkConnectionMeta h q ChTunnel i None)).
Proof. unfold select. cbn [main_hosts]. rewrite lookup_singleton_eq. by destruct q. Qed.


(** *** Witness *)

Module StartSample.
Import WizardSample.

Definition host_code (x : TlsHostInfo) : bytes * bytes * bytes * list bytes :=
  (hi_hostname x, hi_cert_chain_path x, hi_private_key_path x, hi_allowed_sni x).
Definition host_of (x : bytes * bytes * bytes * list bytes) : TlsHostInfo :=
  let '(a, b, c, d) := x in mkHostInfo a b c d.

Lemma host_of_code (l : list TlsHostInfo) : host_of <$> (host_code <$> l) = l.
Proof. induction l as [|[] l IH]; [done|]. cbn. by rewrite IH. Qed.

Abbreviation HostCodes := (list (bytes * bytes * bytes * list bytes)).

(** Hosts files as codes of their lists of hosts. *)
Definition print_hosts (hs : TlsHostsSettings) : bytes :=
  [Z.pos (countable.encode ((host_code <$> ths_main hs, host_code <$> ths_ping hs, host_code <$> ths_speedtest hs,
                             host_code <$> ths_reverse_proxy hs) : HostCodes * HostCodes * HostCodes * HostCodes))].

Definition parse_hosts (_ : Files) (l : bytes) : option TlsHostsSettings :=
  match l with
  | [Z.pos x] =>
      match (countable.decode x : option (HostCodes * HostCodes * HostCodes * HostCodes)) with
      | Some (a, b, c, d) => Some (mkHostsSettings (host_of <$> a) (host_of <$> b) (host_of <$> c) (host_of <$> d) false)
      | None => None
      end
  | _ => None
  end.

Lemma hosts_roundtrip files hs : parse_hosts files (print_hosts hs) = Some (read_back hs).
Proof. unfold parse_hosts, print_hosts. rewrite countable.decode_encode. by rewrite !host_of_code. Qed.

Definition outside : Outside :=
  mkOutside (fun _ => true) (fun _ _ => None) true (fun _ => Ok [mkAddr (IpV4 [0; 0; 0; 0]) 443]) (str "eth0") (fun _ => None)
    (fun _ => None) parse print (fun s => [0x22] ++ s ++ [0x22]) parse_document print_document parse_hosts print_hosts
    (fun c => [Ok c]) (fun c => Ok c) (fun _ => None) (fun name _ => Some (str "CERT " ++ name, str "KEY", str "2030-01-01"))
    (fun _ => None) (str "2029-04-01") (fun _ => Ok tt) (fun _ => Ok OrderPending) (fun _ => Ok []) (fun _ => Ok tt)
    (fun _ => Ok OrderReady) (fun _ => Ok OrderValid) (fun _ => Ok None) (fun _ => Ok tt) (fun c => ch_token c) (fun _ => Ok (str "key"))
    (fun k d => Ok (k ++ d)).

Lemma start_setup :
  setup_args outside args (str "admin") (str "secret") (str "vpn.example") (str "vpn.toml") (str "hosts.toml") (str "0.0.0.0:443")
    (mkAddr (IpV4 [0; 0; 0; 0]) 443) [] (str "CERT vpn.example") (str "KEY") (str "2030-01-01") [str "CERT vpn.example"] (str "KEY").
Proof. destruct sample_setup. constructor; assumption. Qed.

End StartSample.

